(* ===== verification/_CoqProject ===== *)
-Q . S2P
Prelude.v
Spinlock.v
Riscv.v
Mem.v
Buddy.v
BuddyIndex.v
BuddyPages.v
Kalloc.v
BuddyBlocks.v
BuddyAlloc.v
BuddyInit.v
BlockAlloc.v
MemLock.v
Slab.v
Cache.v
SlabRep.v
SlabList.v
CacheRep.v
CacheAlloc.v
CacheFree.v
KString.v
Vm.v
VmSpec.v
VmCopy.v
FsState.v
Bio.v
Log.v
BioSpec.v
LogSpec.v
LogCrash.v
LogTxn.v
Fs.v
FsBlocks.v
FsInode.v
Pipe.v
PipeSpec.v
SysFile.v
Proc.v
ProcSpec.v
ProcInv.v
ProcOps.v
ProcSteps.v
Printf.v
PrintfSpec.v
Machine.v
MachineSpec.v
Asm.v
AsmSpec.v
Console.v
ConsoleSpec.v
Virtio.v
VirtioSpec.v
VirtioSystem.v
Syscall.v
Trap.v
TrapSpec.v
BuddyTheorems.v
SlabTheorems.v
LogTheorems.v
FsTheorems.v
VmTheorems.v
PipeTheorems.v
ProcTheorems.v
DiskTheorems.v
ConsoleTheorems.v
TrapTheorems.v
UserIO.v
Umalloc.v
UmallocSpec.v
MallocTheorems.v
UserLib.v
Utils.v
UtilsSpec.v
Shell.v
ShellSpec.v
ShellPrint.v
ShellRun.v
Tools.v
UserTheorems.v
