(* ===== verification/Prelude.v ===== *)
(** * xv6 with a buddy and a slab allocator

    The repository is xv6 for RISC-V, a small Unix: a multiprocessor kernel
    (src/kernel) and user programs (src/user).  Its page allocator has been
    replaced by a buddy allocator, and a slab allocator with system calls of
    its own stands on top.  This library translates the C and assembly
    sources into executable definitions and proves what the parts promise to
    each other and to the user.

    ** How the code is modelled

    C code that works on a state [S] and returns an [A] is a function of
    type [M S A] (below): it returns a result and a new state, or panics,
    or runs into an undefined access ([Fault]), or waits forever ([Block]),
    or uses up the fuel of a loop ([OutOfFuel]).  [runs m s Q] is total
    correctness: [m] returns from [s], with [Q].  Integers are in [Z], with
    the wrap-around of their width written out ([u8] to [u64], [s32]).
    Memory whose layout the code depends on is a map from addresses to bytes
    (Mem.v); a field of a structure in it is a load or a store at an offset.
    A pointer into a static array is an index.  User programs are in the
    monad [U] (UserIO.v), which adds the exit of the program.

    Locks: [acquire] of a lock that is held is [Block], so a theorem that a
    call returns also says that it does not deadlock with itself.  A call
    that sleeps is cut where it calls [sched] and goes on in a second
    definition ([Asleep], [..._from], [..._resume]); the processes, the
    drivers and the disk are put together again as step relations, in which
    such pieces interleave (ProcSteps.v, VirtioSystem.v).

    ** Components

    - Buddy allocator and page allocator (kernel/buddy_kalloc.c, kalloc.c):
      the code is in Buddy.v.  The tree of node states is a list of bytes.
      BuddyIndex.v has the arithmetic of nodes and addresses, BuddyPages.v
      the invariant for pages, BuddyBlocks.v, BuddyAlloc.v and BuddyInit.v
      the invariant for blocks of every order, Kalloc.v the refinement of a
      set of pages, BlockAlloc.v the client's view, which it states as the
      class [BlockAllocator].
    - Slab allocator (kernel/slab_allocator.c): Slab.v and Cache.v, over any
      [BlockAllocator]; SlabRep.v, SlabList.v, CacheRep.v, CacheAlloc.v
      and CacheFree.v lead to the behaviour of a cache under any sequence of
      calls.
    - Locks (kernel/spinlock.c, sleeplock.c): Spinlock.v, and MemLock.v
      for a lock in memory; [push_off] and [pop_off] are in Proc.v.
    - Strings (kernel/string.c): KString.v.
    - Virtual memory (kernel/vm.c): Vm.v, with VmSpec.v and VmCopy.v.
    - File system (kernel/bio.c, log.c, fs.c, file.c, pipe.c): FsState.v is
      the state; Bio.v, Log.v, Fs.v and Pipe.v are the code, from the buffer
      cache up to open files; BioSpec.v, LogSpec.v, LogCrash.v, LogTxn.v,
      FsBlocks.v, FsInode.v and PipeSpec.v the specifications.
      The disk below is the contract of [virtio_disk_rw] with the sequence
      of writes, which the disk driver satisfies (Virtio.v).
    - System calls (kernel/sysfile.c, exec.c, sysproc.c, syscall.c,
      sys_slab_allocator.c): SysFile.v, Proc.v and Syscall.v.
    - Processes (kernel/proc.c): Proc.v, with ProcSpec.v, ProcInv.v,
      ProcOps.v and ProcSteps.v.
    - Formatted output (kernel/printf.c, user/printf.c): Printf.v,
      PrintfSpec.v.
    - Serial line and console (kernel/uart.c, console.c): Console.v, with
      ConsoleSpec.v, on the machine of Machine.v (control
      registers of the harts, the static variables of the drivers, and a
      bus whose devices are the class [Bus]; MachineSpec.v).
    - Disk driver (kernel/virtio_disk.c): Virtio.v, with VirtioSpec.v and
      VirtioSystem.v.
    - Assembly (kernel/trampoline.S, kernelvec.S, swtch.S, entry.S): Asm.v
      has the instructions and the lists of instructions, AsmSpec.v what
      they save and restore.
    - Traps and booting (kernel/trap.c, plic.c, start.c, main.c): Trap.v,
      with TrapSpec.v, which also runs a trap from the user's instruction
      through the assembly and the C code and back.
    - User library and programs (user/ulib.c, umalloc.c, sh.c, grep.c, wc.c,
      cat.c, echo.c, ls.c, kill.c, ln.c, mkdir.c, rm.c, init.c): UserIO.v
      states the system calls that programs use as the classes [UserIO] and
      [FileIO]; UserLib.v, Umalloc.v, Utils.v, Shell.v and Tools.v are the
      code; UmallocSpec.v, UtilsSpec.v, ShellSpec.v, ShellPrint.v and
      ShellRun.v the specifications.

    Riscv.v and Machine.v have the constants of kernel/memlayout.h, riscv.h
    and param.h.

    ** What the theorems show

    - BuddyTheorems.v: [kalloc] and [kfree] behave as a set of free pages;
      as long as no free runs into the premature merge, live blocks of all
      orders do not overlap and allocation fails only when no block of the
      order is free; and three counterexamples to what the allocator means
      to do, the premature merge among them.
    - SlabTheorems.v, for caches whose slabs hold at least two objects: in
      every state that clients of a cache reach, live objects are disjoint
      and keep their contents; each call does what it says on each branch;
      the least sufficient order and buffer are found; and the conditions
      under which objects are lost or calls panic.
    - LogTheorems.v: a crash at any disk write of any sequence of
      transactions leaves, after recovery, a prefix of the transactions;
      recovery can itself be interrupted.
    - FsTheorems.v: block and inode updates are atomic transactions with
      the stated effect; the format of inodes and paths.
    - VmTheorems.v: mappings and copies between user and kernel memory.
    - PipeTheorems.v: a pipe is a bounded queue of bytes.
    - ProcTheorems.v: with any number of harts in any interleaving no two
      run the same process and switching never panics.
    - DiskTheorems.v: whatever the order of requests, device steps and
      interrupts, the driver does not fault, panics only in the interrupt
      handler and only when the device has reported an error, every request
      is served once, and when [virtio_disk_rw] returns the transfer it asked
      for has been performed, once, since the call began.
    - ConsoleTheorems.v: line editing, delivery of lines, conversions.
    - TrapTheorems.v: a system call and a page fault as the user sees them;
      transparency of interrupts; context switches.
    - MallocTheorems.v: objects of [malloc] never overlap and keep their
      contents under any sequence of calls.
    - UserTheorems.v: output of grep, wc, cat and echo,
      the matcher of grep, the names of ls, the parser of the shell, and the
      programs that a command line starts.

    ** Fuel

    A loop without an obvious measure has fuel.  [up_fuel] and [inner_fuel]
    (17) exceed the depth of the buddy tree, [outer_fuel] and [init_fuel]
    (2^15 + 1) its number of pages.  [order_fuel] (64) exceeds the shifts
    that leave a 64-bit size different from 0; [list_fuel] of Slab.v (2^22)
    exceeds the number of structures that fit into memory, and [cut_fuel]
    is the number of objects of a slab.  Loops over ranges of addresses have
    one round for each page or byte.  The polling loops of the UART have as
    many rounds as the device is assumed to need ([spin]).  [list_fuel] of
    Umalloc.v is one round for each header below the break, [parse_fuel] of
    Shell.v four calls for each character of the line, and a program that
    reads a file has a parameter [fuel], which its theorems compare with the
    length of the file.  Theorems of total correctness show that the fuel is
    enough.

    ** Not modelled

    - Memory fences, sfence.vma and wfi have no effect: the model of memory
      is sequentially consistent and has no translation cache.
    - Devices (UART, PLIC, virtio disk) are not part of the program.  They
      are parameters; the disk is also a step relation that follows the
      virtio specification.
    - Interleaving inside a step of the step relations: the driver code
      between taking and releasing [vdisk_lock] is one step (VirtioSystem.v),
      and so is the code of a process between two switches (ProcSteps.v),
      although [kfork], [kexit], [kwait], [wakeup] and [kkill] release and
      take process locks on the way.
    - The link addresses of symbols, and the functions passed as constructor
      of a cache, are section variables.
    - The test programs (user/usertests.c, grind.c, forktest.c, stressfs.c,
      logstress.c, public_test.c, dorphan.c, forphan.c, zombie.c and
      test-xv6.py) only exercise the system.
    - user/usys.pl generates the system call stubs at build time; defs.h,
      types.h, syscall.h and user.h are declarations; the linker scripts and
      the Makefile are not code of the system.  [sbrklazy] of user/ulib.c
      and [r_sp], [r_ra] of kernel/riscv.h have no caller among the modelled
      code.

    The rest of this file holds what the components share: outcomes and the
    state monad, machine integers, and lemmas on lists, options and
    integers. *)

From stdpp Require Export base gmap list strings numbers.
From Stdlib Require Export ZArith Lia.
From Stdlib Require Export(notations) Ascii.

(** ** Outcomes of C code

    A C function that can panic, run into undefined behaviour, wait
    forever or (in the model) run out of loop fuel returns a [res].
    [Panic m] is a call of [panic] (kernel/printf.c); [Fault] is an
    access the C abstract machine gives no meaning to (an array index out
    of range, a division by zero); [Block] is a wait on a lock that nobody
    is going to release; [OutOfFuel] is an artefact of the model and every
    total-correctness theorem excludes it. *)

Inductive res (A : Type) : Type :=
  | Ret (a : A)
  | Panic (msg : string)
  | Fault
  | Block
  | OutOfFuel.
Arguments Ret {A} a.
Arguments Panic {A} msg.
Arguments Fault {A}.
Arguments Block {A}.
Arguments OutOfFuel {A}.

Definition res_bind {A B} (f : A → res B) (m : res A) : res B :=
  match m with
  | Ret a => f a
  | Panic s => Panic s
  | Fault => Fault
  | Block => Block
  | OutOfFuel => OutOfFuel
  end.

#[export] Instance res_mret : MRet res := @Ret.
#[export] Instance res_mbind : MBind res := @res_bind.

Lemma res_bind_Ret {A B} (f : A → res B) a : (Ret a ≫= f) = f a.
Proof. reflexivity. Qed.

Lemma res_bind_inv {A B} (f : A → res B) m b :
  m ≫= f = Ret b → ∃ a, m = Ret a ∧ f a = Ret b.
Proof. destruct m; cbn; intros; simplify_eq; eauto. Qed.

Lemma res_bind_assoc {A B C} (m : res A) (f : A → res B) (g : B → res C) :
  (m ≫= f) ≫= g = m ≫= (λ a, f a ≫= g).
Proof. by destruct m. Qed.

(** Functions that thread a state [S] through such outcomes. *)
Definition M (S A : Type) : Type := S → res (A * S).

#[export] Instance M_mret S : MRet (M S) := λ A a s, Ret (a, s).
#[export] Instance M_mbind S : MBind (M S) :=
  λ A B f m s, res_bind (λ '(a, s'), f a s') (m s).

Definition get {S} : M S S := λ s, Ret (s, s).
Definition gets {S A} (f : S → A) : M S A := λ s, Ret (f s, s).
Definition modify {S} (f : S → S) : M S unit := λ s, Ret (tt, f s).
Definition lift {S A} (r : res A) : M S A := λ s, res_bind (λ a, Ret (a, s)) r.
Definition panic {S A} (msg : string) : M S A := λ _, Panic msg.
Definition fault {S A} : M S A := λ _, Fault.
Definition block {S A} : M S A := λ _, Block.
Definition out_of_fuel {S A} : M S A := λ _, OutOfFuel.

Lemma M_bind_unfold {S A B} (m : M S A) (f : A → M S B) s :
  (m ≫= f) s = res_bind (λ '(a, s'), f a s') (m s).
Proof. reflexivity. Qed.

(** [runs m s Q]: from [s] the code [m] returns, with a result and a state
    that satisfy [Q].  This is total correctness: no panic, no fault, no
    wait, no missing fuel. *)
Definition runs {S A} (m : M S A) (s : S) (Q : A → S → Prop) : Prop :=
  ∃ a s', m s = Ret (a, s') ∧ Q a s'.

Section runs.
Context {S : Type}.
Implicit Types s : S.

Lemma runs_ret {A} (a : A) s (Q : A → S → Prop) : Q a s → runs (mret a) s Q.
Proof. intros. by exists a, s. Qed.

Lemma runs_bind {A B} (m : M S A) (f : A → M S B) s (Q : B → S → Prop) :
  runs m s (λ a s', runs (f a) s' Q) → runs (m ≫= f) s Q.
Proof.
  intros (a & s1 & Hm & b & s2 & Hf & HQ). exists b, s2. split; [|done].
  rewrite M_bind_unfold, Hm. exact Hf.
Qed.

Lemma runs_assoc {A B C} (m : M S A) (f : A → M S B) (g : B → M S C) s (Q : C → S → Prop) :
  runs ((m ≫= f) ≫= g) s Q → runs (m ≫= λ a, f a ≫= g) s Q.
Proof.
  intros (c & s' & Hm & HQ). exists c, s'. split; [|done]. rewrite !M_bind_unfold in *.
  by destruct (m s) as [[]| | | |].
Qed.

(** Regrouping a sequence of three steps and a continuation. *)
Lemma runs_assoc3 {A B C D} (m1 : M S A) (m2 : M S B) (m3 : M S C) (k : M S D) s (Q : D → S → Prop) :
  runs (m1;; m2;; m3) s (λ _ s', runs k s' Q) → runs (m1;; m2;; m3;; k) s Q.
Proof.
  intros (c & s' & Hm & Hk). destruct Hk as (d & s2 & Hk & HQ). exists d, s2. split; [|done].
  rewrite !M_bind_unfold in *. destruct (m1 s) as [[? s3]| | | |]; cbn in *; try done. rewrite !M_bind_unfold in *.
  destruct (m2 s3) as [[? s4]| | | |]; cbn in *; try done. rewrite M_bind_unfold. by rewrite Hm.
Qed.

Lemma runs_mono {A} (m : M S A) s (P Q : A → S → Prop) :
  runs m s P → (∀ a s', P a s' → Q a s') → runs m s Q.
Proof. intros (a & s' & Hm & HP) H. exists a, s'. auto. Qed.

Lemma runs_gets {A} (f : S → A) s (Q : A → S → Prop) : Q (f s) s → runs (gets f) s Q.
Proof. intros. by exists (f s), s. Qed.

Lemma runs_modify (f : S → S) s (Q : unit → S → Prop) : Q tt (f s) → runs (modify f) s Q.
Proof. intros. by exists tt, (f s). Qed.

Lemma runs_eq {A} (m : M S A) a s s' (Q : A → S → Prop) :
  m s = Ret (a, s') → Q a s' → runs m s Q.
Proof. intros. by exists a, s'. Qed.

(** Runs that end in a panic. *)
Lemma panics_here {A B} (m : M S A) (f : A → M S B) s msg : m s = Panic msg → (m ≫= f) s = Panic msg.
Proof. intros H. by rewrite M_bind_unfold, H. Qed.

Lemma panics_later {A B} (m : M S A) (f : A → M S B) s msg : runs m s (λ a s', f a s' = Panic msg) → (m ≫= f) s = Panic msg.
Proof. intros (a & s' & H & Hf). by rewrite M_bind_unfold, H. Qed.
End runs.

(** [triple P m Q]: if [m] returns from a state in [P], then with a result
    and a state in [Q].  This is for properties of the steps the code takes,
    whether or not it can take them all. *)
Definition triple {S A} (P : S → Prop) (m : M S A) (Q : A → S → Prop) : Prop :=
  ∀ s a s', P s → m s = Ret (a, s') → Q a s'.

Section triple.
Context {S : Type}.
Implicit Types P : S → Prop.

Lemma triple_bind {A B} P (m : M S A) (f : A → M S B) R Q :
  triple P m R → (∀ a, triple (R a) (f a) Q) → triple P (m ≫= f) Q.
Proof.
  intros Hm Hf s b s' HP E. rewrite M_bind_unfold in E. destruct (m s) as [[a s1]| | | |] eqn:Em; try done.
  exact (Hf a s1 b s' (Hm s a s1 HP Em) E).
Qed.

Lemma triple_conseq {A} P P' (m : M S A) (Q Q' : A → S → Prop) :
  triple P' m Q' → (∀ s, P s → P' s) → (∀ a s, Q' a s → Q a s) → triple P m Q.
Proof. intros H HP HQ s a s' Hs E. eauto. Qed.

Lemma triple_pre {A} P P' (m : M S A) (Q : A → S → Prop) : triple P' m Q → (∀ s, P s → P' s) → triple P m Q.
Proof. intros H HP s a s' Hs E. eauto. Qed.

Lemma triple_ret {A} P (a : A) (Q : A → S → Prop) : (∀ s, P s → Q a s) → triple P (mret a) Q.
Proof. intros H s a' s' Hs E. injection E as <- <-. auto. Qed.

Lemma triple_pure {A} (φ : Prop) P (m : M S A) Q : (φ → triple P m Q) → triple (λ s, φ ∧ P s) m Q.
Proof. intros H s a s' [Hφ Hs] E. exact (H Hφ s a s' Hs E). Qed.

Lemma triple_modify P (f : S → S) (Q : unit → S → Prop) : (∀ s, P s → Q tt (f s)) → triple P (modify f) Q.
Proof. intros H s a s' Hs E. injection E as <- <-. auto. Qed.

Lemma triple_get P (Q : S → S → Prop) : (∀ s, P s → Q s s) → triple P get Q.
Proof. intros H s a s' Hs E. injection E as <- <-. auto. Qed.

Lemma triple_gets {A} P (f : S → A) (Q : A → S → Prop) : (∀ s, P s → Q (f s) s) → triple P (gets f) Q.
Proof. intros H s a s' Hs E. injection E as <- <-. auto. Qed.

Lemma triple_lift {A} P (r : res A) (Q : A → S → Prop) : (∀ a s, r = Ret a → P s → Q a s) → triple P (lift r) Q.
Proof. intros H s a s' Hs E. unfold lift in E. destruct r; try done. injection E as <- <-. auto. Qed.

Lemma triple_get_keep P : triple P get (λ _, P).
Proof. by apply triple_get. Qed.

Lemma triple_gets_keep {A} P (f : S → A) : triple P (gets f) (λ _, P).
Proof. by apply triple_gets. Qed.

Lemma triple_lift_keep {A} P (r : res A) : triple P (lift r) (λ _, P).
Proof. by apply triple_lift. Qed.

Lemma triple_stop {A} P (m : M S A) Q : (∀ s a s', m s ≠ Ret (a, s')) → triple P m Q.
Proof. intros H s a s' _ E. by destruct (H s a s'). Qed.

Lemma triple_runs {A} P (m : M S A) Q : (∀ s, P s → runs m s Q) → triple P m Q.
Proof. intros H s a s' Hs E. destruct (H s Hs) as (b & s2 & E' & HQ). rewrite E in E'. by injection E' as <- <-. Qed.
End triple.

(** ** Machine integers

    A C integer of width [w] is a [Z]; [uN] is the conversion to the
    unsigned type, [sN] the conversion to the signed one (both wrap). *)

Open Scope Z_scope.

Definition u8 (x : Z) : Z := x mod 2 ^ 8.
Definition u16 (x : Z) : Z := x mod 2 ^ 16.
Definition u32 (x : Z) : Z := x mod 2 ^ 32.
Definition u64 (x : Z) : Z := x mod 2 ^ 64.
Definition s32 (x : Z) : Z := (x + 2 ^ 31) mod 2 ^ 32 - 2 ^ 31.
Definition s64 (x : Z) : Z := (x + 2 ^ 63) mod 2 ^ 64 - 2 ^ 63.

Lemma u8_small x : 0 ≤ x < 2 ^ 8 → u8 x = x.
Proof. apply Z.mod_small. Qed.
Lemma u16_small x : 0 ≤ x < 2 ^ 16 → u16 x = x.
Proof. apply Z.mod_small. Qed.
Lemma u32_small x : 0 ≤ x < 2 ^ 32 → u32 x = x.
Proof. apply Z.mod_small. Qed.
Lemma u64_small x : 0 ≤ x < 2 ^ 64 → u64 x = x.
Proof. apply Z.mod_small. Qed.
Lemma s32_small x : - 2 ^ 31 ≤ x < 2 ^ 31 → s32 x = x.
Proof. intros. unfold s32. rewrite Z.mod_small; lia. Qed.
Lemma s64_small x : - 2 ^ 63 ≤ x < 2 ^ 63 → s64 x = x.
Proof. intros. unfold s64. rewrite Z.mod_small; lia. Qed.

Lemma u8_range x : 0 ≤ u8 x < 2 ^ 8.
Proof. apply Z.mod_pos_bound. lia. Qed.
Lemma u16_range x : 0 ≤ u16 x < 2 ^ 16.
Proof. apply Z.mod_pos_bound. lia. Qed.
Lemma u32_range x : 0 ≤ u32 x < 2 ^ 32.
Proof. apply Z.mod_pos_bound. lia. Qed.
Lemma u64_range x : 0 ≤ u64 x < 2 ^ 64.
Proof. apply Z.mod_pos_bound. lia. Qed.

(** Rewriting away a wrap whose argument is in range. *)
Ltac unwrap :=
  repeat match goal with
  | |- context [u8 ?x] => rewrite (u8_small x) by lia
  | |- context [u16 ?x] => rewrite (u16_small x) by lia
  | |- context [u32 ?x] => rewrite (u32_small x) by lia
  | |- context [u64 ?x] => rewrite (u64_small x) by lia
  | |- context [s32 ?x] => rewrite (s32_small x) by lia
  | |- context [s64 ?x] => rewrite (s64_small x) by lia
  end.

(** ** Tactics *)

(** Case analysis on the boolean comparisons of a goal or hypothesis. *)
Ltac zcase :=
  repeat match goal with
  | |- context [Z.eqb ?a ?b] => destruct (Z.eqb_spec a b)
  | |- context [Z.leb ?a ?b] => destruct (Z.leb_spec a b)
  | |- context [Z.ltb ?a ?b] => destruct (Z.ltb_spec a b)
  | H : context [Z.eqb ?a ?b] |- _ => destruct (Z.eqb_spec a b)
  | H : context [Z.leb ?a ?b] |- _ => destruct (Z.leb_spec a b)
  | H : context [Z.ltb ?a ?b] |- _ => destruct (Z.ltb_spec a b)
  end.

(** Split a conjunction, without unfolding its parts. *)
Ltac ands := repeat match goal with |- _ ∧ _ => split end.

(** Split a successful run [m ≫= f = Ret _] into its steps. *)
Ltac res_inv :=
  repeat match goal with
  | H : mbind _ _ = Ret _ |- _ => apply res_bind_inv in H as (? & ? & ?)
  | H : Ret _ = Ret _ |- _ => injection H as H; subst
  | H : (_, _) = (_, _) |- _ => injection H as ?H ?H; subst
  | H : Panic _ = Ret _ |- _ => discriminate H
  | H : Fault = Ret _ |- _ => discriminate H
  | H : Block = Ret _ |- _ => discriminate H
  | H : OutOfFuel = Ret _ |- _ => discriminate H
  end.

(** ** Integers *)

Lemma Z_shiftr_div x n : 0 ≤ n → Z.shiftr x n = x / 2 ^ n.
Proof. apply Z.shiftr_div_pow2. Qed.

Lemma Z_shiftl_mul x n : 0 ≤ n → Z.shiftl x n = x * 2 ^ n.
Proof. apply Z.shiftl_mul_pow2. Qed.

(** A bitwise goal, bit by bit. *)
Lemma Z_bits_inj a b : (∀ n, 0 ≤ n → Z.testbit a n = Z.testbit b n) → a = b.
Proof. apply Z.bits_inj'. Qed.

(** ** Byte arrays *)

(** A byte array or the memory as a finite map; bytes that were never
    written are 0 (static storage starts zeroed). *)
Definition byte_at (m : gmap Z Z) (i : Z) : Z := default 0 (m !! i).

Lemma byte_at_empty i : byte_at ∅ i = 0.
Proof. done. Qed.
Lemma byte_at_insert_eq m i v : byte_at (<[i := v]> m) i = v.
Proof. unfold byte_at. by rewrite lookup_insert_eq. Qed.
Lemma byte_at_insert_ne m i j v : i ≠ j → byte_at (<[i := v]> m) j = byte_at m j.
Proof. intros. unfold byte_at. by rewrite lookup_insert_ne. Qed.

(** ** Characters and strings *)

(** A [char] is unsigned on RISC-V.  A C string is the list of its
    characters without the terminating 0. *)
Definition zchar (c : Ascii.ascii) : Z := Z.of_N (Ascii.N_of_ascii c).
Arguments zchar c%_char.

Fixpoint zstr (s : string) : list Z :=
  match s with
  | EmptyString => []
  | String c s => zchar c :: zstr s
  end.

(** The character at index [i] of a string, and the terminator behind it. *)
Definition char_at (l : list Z) (i : nat) : Z := default 0 (l !! i).
