(* ===== verification/Spinlock.v ===== *)
(** * Locks: kernel/spinlock.c and kernel/sleeplock.c *)

From S2P Require Import Prelude.

(** ** Spin locks *)

(** [struct spinlock].  The [cpu] field holds the hart that owns the
    lock; the C pointer to [struct cpu] is the hart's number here, the
    null pointer is [None]. *)
Record spinlock := mk_spinlock {
  lk_name : string;
  lk_locked : Z;
  lk_cpu : option nat;
}.

Definition initlock (name : string) : spinlock := mk_spinlock name 0 None.

(** [holding] as seen by hart [me]. *)
Definition holding (me : nat) (lk : spinlock) : bool :=
  negb (lk_locked lk =? 0) && bool_decide (lk_cpu lk = Some me).

(** The lock word part of [acquire]: a hart that holds the lock panics,
    one that finds it held by another hart spins. *)
Definition acquire (me : nat) (lk : spinlock) : res spinlock :=
  if holding me lk then Panic "acquire"
  else if negb (lk_locked lk =? 0) then Block
  else Ret (mk_spinlock (lk_name lk) 1 (Some me)).

Definition release (me : nat) (lk : spinlock) : res spinlock :=
  if negb (holding me lk) then Panic "release"
  else Ret (mk_spinlock (lk_name lk) 0 None).

(** A lock nobody holds. *)
Definition unlocked (lk : spinlock) : Prop := lk_locked lk = 0 ∧ lk_cpu lk = None.

Definition held_by (me : nat) (lk : spinlock) : spinlock :=
  mk_spinlock (lk_name lk) 1 (Some me).

Lemma acquire_unlocked me lk : unlocked lk → acquire me lk = Ret (held_by me lk).
Proof. intros [Hl _]. unfold acquire, holding. by rewrite Hl. Qed.

Lemma release_held me lk : unlocked lk → release me (held_by me lk) = Ret lk.
Proof.
  intros [Hl Hc]. unfold release, holding; cbn.
  rewrite bool_decide_true by done. cbn. destruct lk; cbn in *; by subst.
Qed.

(** * Sleep locks (kernel/sleeplock.c)

    The operations as seen by hart [me] running process [pid].  A process
    that would have to sleep until another one releases the lock has the
    outcome [Block]. *)

Record sleeplock := mk_sleeplock {
  sl_locked : Z;
  sl_lk : spinlock;
  sl_name : string;
  sl_pid : Z;
}.

Definition initsleeplock (name : string) : sleeplock := mk_sleeplock 0 (initlock "sleep lock") name 0.

Definition acquiresleep (me : nat) (pid : Z) (lk : sleeplock) : res sleeplock :=
  l ← acquire me (sl_lk lk);
  if negb (sl_locked lk =? 0) then Block
  else
    l ← release me l;
    Ret (mk_sleeplock 1 l (sl_name lk) pid).

(** [wakeup] only changes the states of sleeping processes. *)
Definition releasesleep (me : nat) (lk : sleeplock) : res sleeplock :=
  l ← acquire me (sl_lk lk);
  l ← release me l;
  Ret (mk_sleeplock 0 l (sl_name lk) 0).

Definition holdingsleep (me : nat) (pid : Z) (lk : sleeplock) : res (bool * sleeplock) :=
  l ← acquire me (sl_lk lk);
  let r := negb (sl_locked lk =? 0) && (sl_pid lk =? pid) in
  l ← release me l;
  Ret (r, mk_sleeplock (sl_locked lk) l (sl_name lk) (sl_pid lk)).

(** ** Free and held locks *)

Definition sl_free (lk : sleeplock) : Prop := sl_locked lk = 0 ∧ unlocked (sl_lk lk).
Definition sl_held (pid : Z) (lk : sleeplock) : Prop :=
  sl_locked lk = 1 ∧ sl_pid lk = pid ∧ unlocked (sl_lk lk).

Lemma acquiresleep_free me pid lk :
  sl_free lk → ∃ lk', acquiresleep me pid lk = Ret lk' ∧ sl_held pid lk'.
Proof.
  intros [H0 Hu]. unfold acquiresleep. rewrite acquire_unlocked by done. cbn. rewrite H0. cbn.
  rewrite release_held by done. cbn. eexists. split; [done|]. split; [done|]. split; [done|exact Hu].
Qed.

Lemma releasesleep_held me pid lk :
  sl_held pid lk → ∃ lk', releasesleep me lk = Ret lk' ∧ sl_free lk'.
Proof.
  intros (H1 & Hp & Hu). unfold releasesleep. rewrite acquire_unlocked by done. cbn.
  rewrite release_held by done. cbn. eexists. split; [done|]. split; [done|exact Hu].
Qed.

Lemma holdingsleep_held me pid lk : sl_held pid lk → holdingsleep me pid lk = Ret (true, lk).
Proof.
  intros (H1 & Hp & Hu). unfold holdingsleep. rewrite acquire_unlocked by done. cbn.
  rewrite release_held by done. cbn. rewrite H1, Hp, Z.eqb_refl. destruct lk; cbn in *; by subst.
Qed.
