(* ===== verification/Mem.v ===== *)
(** * Physical memory

    The kernel's view of RAM: bytes at the addresses [KERNBASE, PHYSTOP),
    which the kernel page table maps one to one (kernel/vm.c, [kvmmake]).
    Words are little-endian.  An access outside that range faults.  The
    operations work on any state that contains the memory ([HasMem]). *)

From S2P Require Import Prelude Riscv.

(** ** Words *)

Fixpoint ldn (n : nat) (m : gmap Z Z) (a : Z) : Z :=
  match n with
  | O => 0
  | S n => u8 (byte_at m a) + 2 ^ 8 * ldn n m (a + 1)
  end.

Fixpoint stn (n : nat) (m : gmap Z Z) (a v : Z) : gmap Z Z :=
  match n with
  | O => m
  | S n => <[a := u8 v]> (stn n m (a + 1) (v / 2 ^ 8))
  end.

Lemma pow8_S n : 2 ^ (8 * Z.of_nat (S n)) = 2 ^ 8 * 2 ^ (8 * Z.of_nat n).
Proof. rewrite <-Z.pow_add_r by lia. f_equal. lia. Qed.

Lemma ldn_range n m : ∀ a, 0 ≤ ldn n m a < 2 ^ (8 * Z.of_nat n).
Proof.
  induction n as [|n IH]; intros a; [cbn; lia|]. cbn [ldn]. rewrite pow8_S.
  pose proof (IH (a + 1)). pose proof (u8_range (byte_at m a)). lia.
Qed.

Lemma ldn_ext n m m' : ∀ a,
  (∀ b, a ≤ b < a + Z.of_nat n → byte_at m' b = byte_at m b) → ldn n m' a = ldn n m a.
Proof.
  induction n as [|n IH]; intros a Hb; [done|]. cbn [ldn].
  rewrite (Hb a), (IH (a + 1)); [done|intros b ?; apply Hb; lia|lia].
Qed.

Lemma byte_at_stn n m : ∀ a v b,
  b < a ∨ a + Z.of_nat n ≤ b → byte_at (stn n m a v) b = byte_at m b.
Proof.
  induction n as [|n IH]; intros a v b Hb; [done|]. cbn [stn].
  rewrite byte_at_insert_ne by lia. apply IH. lia.
Qed.

Lemma ldn_stn_ne k n m a b v :
  a + Z.of_nat n ≤ b ∨ b + Z.of_nat k ≤ a → ldn k (stn n m a v) b = ldn k m b.
Proof. intros H. apply ldn_ext. intros c Hc. apply byte_at_stn. lia. Qed.

Lemma ldn_stn_eq n m : ∀ a v, 0 ≤ v < 2 ^ (8 * Z.of_nat n) → ldn n (stn n m a v) a = v.
Proof.
  induction n as [|n IH]; intros a v Hv; [cbn in *; lia|]. rewrite pow8_S in Hv. cbn [ldn stn].
  rewrite byte_at_insert_eq.
  assert (E : ldn n (<[a:=u8 v]> (stn n m (a + 1) (v / 2 ^ 8))) (a + 1) = v / 2 ^ 8).
  { rewrite (ldn_ext n (stn n m (a + 1) (v / 2 ^ 8))).
    - apply IH. split; [apply Z.div_pos; lia|apply Z.div_lt_upper_bound; lia].
    - intros b Hb. apply byte_at_insert_ne. lia. }
  rewrite E, (u8_small (u8 v)) by apply u8_range. unfold u8.
  pose proof (Z.div_mod v (2 ^ 8)). lia.
Qed.

Arguments ldn : simpl never.
Arguments stn : simpl never.

Abbreviation ld64 := (ldn 8).
Abbreviation st64 := (stn 8).
Abbreviation ld32 := (ldn 4).
Abbreviation st32 := (stn 4).

Lemma ld64_st64 m a v : 0 ≤ v < 2 ^ 64 → ld64 (st64 m a v) a = v.
Proof. apply (ldn_stn_eq 8). Qed.
Lemma ld32_st32 m a v : 0 ≤ v < 2 ^ 32 → ld32 (st32 m a v) a = v.
Proof. apply (ldn_stn_eq 4). Qed.
Lemma ld64_range m a : 0 ≤ ld64 m a < 2 ^ 64.
Proof. apply (ldn_range 8). Qed.

(** Memories that agree except on the listed address ranges [(a, n)]. *)
Definition agree_except (l : list (Z * Z)) (m m' : gmap Z Z) : Prop :=
  ∀ b, Forall (λ '(a, n), b < a ∨ a + n ≤ b) l → byte_at m' b = byte_at m b.

Lemma agree_refl l m : agree_except l m m.
Proof. by intros b _. Qed.

Lemma agree_stn l n m a v : (a, Z.of_nat n) ∈ l → agree_except l m (stn n m a v).
Proof.
  intros Hl b Hb. apply byte_at_stn. by apply (proj1 (list.Forall_forall _ _) Hb _ Hl).
Qed.

(** One more store, inside one of the ranges. *)
Lemma agree_store l n m m' a v :
  agree_except l m m' → Exists (λ '(b, k), b ≤ a ∧ a + Z.of_nat n ≤ b + k) l →
  agree_except l m (stn n m' a v).
Proof.
  intros Hm Hl b Hb. rewrite byte_at_stn; [by apply Hm|].
  apply list.Exists_exists in Hl as ([c k] & Hc & Hk).
  pose proof (proj1 (list.Forall_forall _ _) Hb _ Hc) as H. cbn in H. lia.
Qed.

Lemma agree_trans l m1 m2 m3 : agree_except l m1 m2 → agree_except l m2 m3 → agree_except l m1 m3.
Proof. intros H1 H2 b Hb. by rewrite H2, H1. Qed.

Lemma agree_incl l l' m m' : l ⊆ l' → agree_except l m m' → agree_except l' m m'.
Proof. intros Hl H b Hb. apply H. apply list.Forall_forall. intros x Hx.
  apply (proj1 (list.Forall_forall _ _) Hb). by apply Hl. Qed.

Lemma agree_ldn l m m' n a :
  agree_except l m m' → Forall (λ '(b, k), a + Z.of_nat n ≤ b ∨ b + k ≤ a ∨ k ≤ 0) l →
  ldn n m' a = ldn n m a.
Proof.
  intros H Hl. apply ldn_ext. intros b Hb. apply H. eapply Forall_impl; [|exact Hl].
  intros [c k]. lia.
Qed.

(** Larger ranges. *)
Lemma agree_weaken l l' m m' :
  agree_except l m m' → Forall (λ '(a, n), Exists (λ '(b, k), b ≤ a ∧ a + n ≤ b + k) l') l →
  agree_except l' m m'.
Proof.
  intros H Hl b Hb. apply H. eapply Forall_impl; [|exact Hl]. intros [a n] Ha.
  apply list.Exists_exists in Ha as ([c k] & Hc & Hk).
  pose proof (proj1 (list.Forall_forall _ _) Hb _ Hc) as Hd. cbn in Hd. lia.
Qed.

(** Split a [Forall] over a concrete list. *)
Ltac forall_list :=
  repeat match goal with
  | |- Forall _ [] => apply List.Forall_nil
  | |- Forall _ (_ :: _) => apply List.Forall_cons
  end.

Ltac in_ranges :=
  forall_list; repeat first [apply Exists_cons_hd; cbn; lia | apply Exists_cons_tl].

(** Stores inside the listed ranges. *)
Ltac agree :=
  repeat (apply agree_store;
    [|solve [repeat first [apply Exists_cons_hd; cbn; lia | apply Exists_cons_tl]]]);
  try solve [apply agree_refl | eassumption].

(** ** Loads and stores *)

Class HasMem (S : Type) := {
  mem_of : S → gmap Z Z;
  with_mem : gmap Z Z → S → S;
  mem_of_with_mem : ∀ m s, mem_of (with_mem m s) = m;
  with_mem_twice : ∀ m m' s, with_mem m (with_mem m' s) = with_mem m s;
  with_mem_same : ∀ s, with_mem (mem_of s) s = s;
}.

Definition in_ram (a n : Z) : bool := (KERNBASE <=? a) && (a + n <=? PHYSTOP).

Lemma in_ram_true a n : in_ram a n = true ↔ KERNBASE ≤ a ∧ a + n ≤ PHYSTOP.
Proof. unfold in_ram. by rewrite andb_true_iff, !Z.leb_le. Qed.

Section access.
Context {S : Type} `{!HasMem S}.

Definition loadn (n : nat) (a : Z) : M S Z := λ s,
  if in_ram a (Z.of_nat n) then Ret (ldn n (mem_of s) a, s) else Fault.

Definition storen (n : nat) (a v : Z) : M S unit := λ s,
  if in_ram a (Z.of_nat n) then Ret (tt, with_mem (stn n (mem_of s) a v) s) else Fault.

Lemma runs_loadn n a s (Q : Z → S → Prop) :
  KERNBASE ≤ a → a + Z.of_nat n ≤ PHYSTOP → Q (ldn n (mem_of s) a) s → runs (loadn n a) s Q.
Proof.
  intros. eapply runs_eq; [|done]. unfold loadn. by rewrite (proj2 (in_ram_true _ _)).
Qed.

Lemma runs_storen n a v s (Q : unit → S → Prop) :
  KERNBASE ≤ a → a + Z.of_nat n ≤ PHYSTOP → Q tt (with_mem (stn n (mem_of s) a v) s) →
  runs (storen n a v) s Q.
Proof.
  intros. eapply runs_eq; [|done]. unfold storen. by rewrite (proj2 (in_ram_true _ _)).
Qed.
End access.

Abbreviation load64 := (loadn 8).
Abbreviation load32 := (loadn 4).
Abbreviation load8 := (loadn 1).
Abbreviation store64 := (storen 8).
Abbreviation store32 := (storen 4).
Abbreviation store8 := (storen 1).

(** ** Ranges and linked lists *)

(** The ranges [(a, n)] and [(b, k)] share no byte. *)
Definition dis (r r' : Z * Z) : Prop := r.1 + r.2 ≤ r'.1 ∨ r'.1 + r'.2 ≤ r.1.

(** A range that avoids all ranges of a list. *)
Definition avoids (l : list (Z * Z)) (r : Z * Z) : Prop := Forall (dis r) l.

Lemma agree_word l m m' n a :
  agree_except l m m' → avoids l (a, Z.of_nat n) → ldn n m' a = ldn n m a.
Proof.
  intros H Hl. eapply agree_ldn; [exact H|]. eapply Forall_impl; [|exact Hl].
  intros [b k]. unfold dis. cbn. lia.
Qed.

(** A null-terminated list linked by the words at offset [off]. *)
Fixpoint chain (off : Z) (m : gmap Z Z) (p : Z) (l : list Z) : Prop :=
  match l with
  | [] => p = 0
  | x :: l => p = x ∧ x ≠ 0 ∧ chain off m (ldn 8 m (x + off)) l
  end.

Lemma chain_frame off m m' l : ∀ p,
  (∀ x, x ∈ l → ldn 8 m' (x + off) = ldn 8 m (x + off)) → chain off m p l → chain off m' p l.
Proof.
  induction l as [|x l IH]; intros p Hx; [done|]. cbn [chain]. intros (-> & Hne & Hc).
  split_and!; [done|done|]. rewrite Hx by constructor. apply IH; [|done].
  intros y Hy. apply Hx. by constructor.
Qed.

(** Taking an element out by relinking its predecessor. *)
Lemma chain_app off m pre y post : ∀ p,
  chain off m p (pre ++ y :: post) →
  (∀ x, x ∈ pre → x ≠ 0) ∧ y ≠ 0 ∧ chain off m (ldn 8 m (y + off)) post.
Proof.
  induction pre as [|x pre IH]; intros p; cbn [app chain].
  - intros (-> & Hne & Hc). split_and!; [set_solver|done|done].
  - intros (-> & Hne & Hc). destruct (IH _ Hc) as (H1 & H2 & H3). split_and!; [|done|done].
    intros z [->|Hz]%elem_of_cons; [done|by apply H1].
Qed.
