(* ===== verification/Buddy.v ===== *)
(** * The buddy allocator (kernel/buddy_kalloc.c): the code *)

From S2P Require Import Prelude Spinlock Riscv.

(** ** Constants of buddy_kalloc.h *)

Definition BUDDY_TREE_LEVEL : Z := 15.
Definition SLOT_EMPTY : Z := 0.
Definition SLOT_SPLIT : Z := 1.
Definition SLOT_FULL : Z := 3.
Definition MEM_SIZE : Z := 128 * 1024 * 1024.
Definition TREE_SIZE : Z := Z.shiftl 2 BUDDY_TREE_LEVEL / 4.

(** ** State

    [tree] is the static array of 2-bit node states, four to a byte.  An
    index the map does not hold reads as 0, the value C gives a static
    array; every access is checked against the array's bounds. *)

Record mem_tree := mk_mem_tree {
  buddy_lock : spinlock;
  tree : gmap Z Z;
}.

Definition tree_read (t : gmap Z Z) (i : Z) : res Z :=
  if (0 <=? i) && (i <? TREE_SIZE) then Ret (byte_at t i) else Fault.

Definition tree_write (t : gmap Z Z) (i v : Z) : res (gmap Z Z) :=
  if (0 <=? i) && (i <? TREE_SIZE) then Ret (<[i := v]> t) else Fault.

(** ** The backtracking stack *)

Module BuddyStack.

Record buddy_stack := mk_buddy_stack {
  vindex_stack : list Z;
  top : Z;
}.

Definition empty (stack : buddy_stack) : bool := top stack =? 0.

(** Returns the stack and whether there was room. *)
Definition push (stack : buddy_stack) (vindex : Z) : buddy_stack * bool :=
  if top stack =? BUDDY_TREE_LEVEL then (stack, false)
  else (mk_buddy_stack (<[Z.to_nat (top stack) := vindex]> (vindex_stack stack))
          (top stack + 1), true).

(** [vindex] is the old value of the variable the result is stored in. *)
Definition pop (stack : buddy_stack) (vindex : Z) : buddy_stack * Z * bool :=
  if top stack =? 0 then (stack, vindex, false)
  else
    let top' := top stack - 1 in
    (mk_buddy_stack (vindex_stack stack) top', vindex_stack stack !!! Z.to_nat top', true).

Definition init_buddy_stack : buddy_stack :=
  mk_buddy_stack (replicate (Z.to_nat BUDDY_TREE_LEVEL) 0) 0.

End BuddyStack.
Import BuddyStack (buddy_stack).

(** ** Bit tricks and index arithmetic *)

Definition my_clz (x : Z) : Z :=
  if x =? 0 then 64
  else
    let n := 0 in
    let '(n, x) := if x <=? 0x00000000FFFFFFFF then (n + 32, u64 (Z.shiftl x 32)) else (n, x) in
    let '(n, x) := if x <=? 0x0000FFFFFFFFFFFF then (n + 16, u64 (Z.shiftl x 16)) else (n, x) in
    let '(n, x) := if x <=? 0x00FFFFFFFFFFFFFF then (n + 8, u64 (Z.shiftl x 8)) else (n, x) in
    let '(n, x) := if x <=? 0x0FFFFFFFFFFFFFFF then (n + 4, u64 (Z.shiftl x 4)) else (n, x) in
    let '(n, x) := if x <=? 0x3FFFFFFFFFFFFFFF then (n + 2, u64 (Z.shiftl x 2)) else (n, x) in
    if x <=? 0x7FFFFFFFFFFFFFFF then n + 1 else n.

Definition vindex_to_rindex (vindex : Z) : Z := Z.shiftr vindex 2.
Definition go_left (vindex : Z) : Z := Z.shiftl vindex 1.
Definition go_right (vindex : Z) : Z := Z.lor (Z.shiftl vindex 1) 1.
Definition go_up (vindex : Z) : Z := Z.shiftr vindex 1.
Definition is_left_son (vindex : Z) : bool := Z.rem vindex 2 =? 0.

Definition get_state (t : gmap Z Z) (vindex : Z) : res Z :=
  let rindex := vindex_to_rindex vindex in
  let shift := u8 (Z.shiftl (Z.rem vindex 4) 1) in
  state ← tree_read t rindex;
  Ret (Z.land (Z.shiftr state shift) 0x3).

Definition set_state (t : gmap Z Z) (vindex state : Z) : res (gmap Z Z) :=
  let rindex := vindex_to_rindex vindex in
  let shift := u8 (Z.shiftl (Z.rem vindex 4) 1) in
  b ← tree_read t rindex;
  t ← tree_write t rindex (u8 (Z.land b (Z.lnot (Z.shiftl 0x3 shift))));
  b ← tree_read t rindex;
  tree_write t rindex (u8 (Z.lor b (Z.shiftl (Z.land state 0x3) shift))).

Definition get_level (vindex : Z) : Z := 63 - my_clz (u64 vindex).

Definition get_adr (vindex : Z) : res Z :=
  if vindex =? 0 then Panic "vindex problem in get_adr"
  else
    let level := get_level vindex in
    let mask := Z.shiftl 1 level in
    let offset := Z.lxor vindex mask in
    let block_size := Z.shiftr MEM_SIZE level in
    Ret (u64 (KERNBASE + u64 (offset * block_size))).

Definition get_vindex (adr level : Z) : Z :=
  let rel_addr := u64 (adr - KERNBASE) in
  let block_size := Z.shiftr MEM_SIZE level in
  u64 (Z.shiftl 1 level + rel_addr / block_size).

Definition is_brother_full (t : gmap Z Z) (vindex : Z) (mover : Z → Z) : res bool :=
  s ← get_state t (mover vindex); Ret (s =? SLOT_FULL).

Definition is_brother_empty (t : gmap Z Z) (vindex : Z) (mover : Z → Z) : res bool :=
  s ← get_state t (mover vindex); Ret (s =? SLOT_EMPTY).

(** ** Walking up to the root

    [fuel] bounds the number of iterations; a node of the tree has at most
    15 ancestors. *)

Fixpoint update_upstairs_alloc (fuel : nat) (t : gmap Z Z) (vindex : Z) : res (gmap Z Z) :=
  match fuel with
  | O => OutOfFuel
  | S fuel =>
    if vindex =? 1 then Ret t
    else
      state ← get_state t vindex;
      let mover := if is_left_son vindex then go_right else go_left in
      let vindex := go_up vindex in
      full ← is_brother_full t vindex mover;
      t ← set_state t vindex
            (if full && (state =? SLOT_FULL) then SLOT_FULL else SLOT_SPLIT);
      update_upstairs_alloc fuel t vindex
  end.

Fixpoint update_upstairs_free (fuel : nat) (t : gmap Z Z) (vindex : Z) : res (gmap Z Z) :=
  match fuel with
  | O => OutOfFuel
  | S fuel =>
    if vindex =? 1 then Ret t
    else
      let mover := if is_left_son vindex then go_right else go_left in
      let vindex := go_up vindex in
      state ← get_state t vindex;
      if state =? SLOT_FULL then
        t ← set_state t vindex SLOT_SPLIT;
        update_upstairs_free fuel t vindex
      else if state =? SLOT_SPLIT then
        empty ← is_brother_empty t vindex mover;
        if (empty : bool) then
          t ← set_state t vindex SLOT_EMPTY;
          update_upstairs_free fuel t vindex
        else Ret t
      else update_upstairs_free fuel t vindex
  end.

Definition up_fuel : nat := 17.

(** ** Searching for a free block *)

(** How the inner loop ends: by [break] (or by its condition), or by the
    [return 0] of a failed [push]. *)
Inductive inner_exit :=
  | Break (found : bool) (virtual_index curr_level : Z) (stack : buddy_stack)
  | Return0.

Fixpoint locate_inner (fuel : nat) (t : gmap Z Z) (level virtual_index curr_level : Z)
    (stack : buddy_stack) : res inner_exit :=
  match fuel with
  | O => OutOfFuel
  | S fuel =>
    if curr_level <=? level then
      state ← get_state t virtual_index;
      if state =? SLOT_FULL then Ret (Break false virtual_index curr_level stack)
      else if (curr_level =? level) && (state =? SLOT_EMPTY) then
        Ret (Break true virtual_index curr_level stack)
      else if curr_level =? level then Ret (Break false virtual_index curr_level stack)
      else if state =? SLOT_EMPTY then
        locate_inner fuel t level (go_left virtual_index) (u16 (curr_level + 1)) stack
      else if state =? SLOT_SPLIT then
        ls ← get_state t (go_left virtual_index);
        rs ← get_state t (go_right virtual_index);
        if (ls =? SLOT_SPLIT) && (rs =? SLOT_SPLIT) then
          let '(stack, pushed) := BuddyStack.push stack virtual_index in
          if negb pushed then Ret Return0
          else locate_inner fuel t level (go_left virtual_index) (u16 (curr_level + 1)) stack
        else if ls =? SLOT_EMPTY then
          locate_inner fuel t level (go_left virtual_index) (u16 (curr_level + 1)) stack
        else if rs =? SLOT_EMPTY then
          locate_inner fuel t level (go_right virtual_index) (u16 (curr_level + 1)) stack
        else if (ls =? SLOT_FULL) && (rs =? SLOT_SPLIT) then
          locate_inner fuel t level (go_right virtual_index) (u16 (curr_level + 1)) stack
        else if (rs =? SLOT_FULL) && (ls =? SLOT_SPLIT) then
          locate_inner fuel t level (go_left virtual_index) (u16 (curr_level + 1)) stack
        else Ret (Break false virtual_index curr_level stack)
      else Ret (Break false virtual_index curr_level stack)
    else Ret (Break false virtual_index curr_level stack)
  end.

Definition inner_fuel : nat := 17.

(** [None] is [return 0]; otherwise the values of [virtual_index] and
    [curr_level] after the loop. *)
Fixpoint locate_outer (fuel : nat) (t : gmap Z Z) (level virtual_index curr_level : Z)
    (stack : buddy_stack) : res (option (Z * Z)) :=
  match fuel with
  | O => OutOfFuel
  | S fuel =>
    e ← locate_inner inner_fuel t level virtual_index curr_level stack;
    match e with
    | Return0 => Ret None
    | Break found virtual_index curr_level stack =>
      if (found : bool) then Ret (Some (virtual_index, curr_level))
      else if BuddyStack.empty stack then Ret (Some (virtual_index, curr_level))
      else
        let '(stack, virtual_index, _) := BuddyStack.pop stack virtual_index in
        let virtual_index := go_right virtual_index in
        let curr_level := u16 (get_level virtual_index) in
        locate_outer fuel t level virtual_index curr_level stack
    end
  end.

Definition outer_fuel : nat := Z.to_nat (2 ^ 15 + 1).

(** Returns the C result and the value stored through [vindex]. *)
Definition locate_free_block (t : gmap Z Z) (vindex level : Z) : res (Z * Z) :=
  r ← locate_outer outer_fuel t level vindex 0 BuddyStack.init_buddy_stack;
  match r with
  | None => Ret (0, vindex)
  | Some (virtual_index, curr_level) =>
    if curr_level =? level then Ret (curr_level, virtual_index) else Ret (0, vindex)
  end.

(** ** Entry points

    [me] is the hart that runs the call, [kend] the address of the linker
    symbol [end]. *)

Section entry_points.
Context (me : nat) (kend : Z).

Definition with_lock (lk : spinlock) (s : mem_tree) : mem_tree := mk_mem_tree lk (tree s).
Definition with_tree (t : gmap Z Z) (s : mem_tree) : mem_tree := mk_mem_tree (buddy_lock s) t.

Definition buddy_kalloc (order : Z) (s : mem_tree) : res (Z * mem_tree) :=
  if BUDDY_TREE_LEVEL <? order then Panic "Order too big"
  else
    let level := u16 (BUDDY_TREE_LEVEL - order) in
    lk ← acquire me (buddy_lock s);
    let s := with_lock lk s in
    '(local_level, virtual_index) ← locate_free_block (tree s) 1 level;
    if local_level =? 0 then
      lk ← release me (buddy_lock s);
      Ret (0, with_lock lk s)
    else
      state ← get_state (tree s) virtual_index;
      if state =? SLOT_EMPTY then
        adr ← get_adr virtual_index;
        t ← set_state (tree s) virtual_index SLOT_FULL;
        t ← update_upstairs_alloc up_fuel t virtual_index;
        let s := with_tree t s in
        lk ← release me (buddy_lock s);
        Ret (adr, with_lock lk s)
      else
        lk ← release me (buddy_lock s);
        Ret (0, with_lock lk s).

Definition buddy_kfree (adr order : Z) (s : mem_tree) : res (Z * mem_tree) :=
  if (BUDDY_TREE_LEVEL <? order) || (PHYSTOP <? adr) || (adr <? kend) then
    Panic "Invalid address"
  else
    let level := u16 (BUDDY_TREE_LEVEL - order) in
    lk ← acquire me (buddy_lock s);
    let s := with_lock lk s in
    let virtual_index := get_vindex adr level in
    state ← get_state (tree s) virtual_index;
    if negb (state =? SLOT_FULL) then
      lk ← release me (buddy_lock s);
      Ret (0, with_lock lk s)
    else
      t ← set_state (tree s) virtual_index SLOT_EMPTY;
      t ← update_upstairs_free up_fuel t virtual_index;
      let s := with_tree t s in
      lk ← release me (buddy_lock s);
      Ret (1, with_lock lk s).

(** The loop that marks every node of the tree full. *)
Fixpoint fill_tree (n : nat) (i : Z) (t : gmap Z Z) : res (gmap Z Z) :=
  match n with
  | O => Ret t
  | S n => t ← tree_write t i (u8 (Z.lnot (u8 0))); fill_tree n (i + 1) t
  end.

(** The loop that frees the pages of [p, PHYSTOP). *)
Fixpoint free_pages (fuel : nat) (p : Z) (s : mem_tree) : res mem_tree :=
  match fuel with
  | O => OutOfFuel
  | S fuel =>
    if u64 (p + PGSIZE) <=? PHYSTOP then
      '(_, s) ← buddy_kfree p 0 s;
      free_pages fuel (u64 (p + PGSIZE)) s
    else Ret s
  end.

Definition init_fuel : nat := Z.to_nat (2 ^ 15 + 1).

Definition buddy_init (s : mem_tree) : res (Z * mem_tree) :=
  let s := with_lock (initlock "buddy_lock") s in
  t ← fill_tree (Z.to_nat TREE_SIZE) 0 (tree s);
  let s := with_tree t s in
  let p := PGROUNDUP kend in
  s ← free_pages init_fuel p s;
  Ret (1, s).

(** ** The page interface (kernel/kalloc.c) *)

Definition kinit (s : mem_tree) : res mem_tree :=
  '(_, s) ← buddy_init s; Ret s.

Definition kfree (pa : Z) (s : mem_tree) : res mem_tree :=
  '(_, s) ← buddy_kfree pa 0 s; Ret s.

Definition kalloc (s : mem_tree) : res (Z * mem_tree) := buddy_kalloc 0 s.

End entry_points.
