(* ===== verification/BuddyIndex.v ===== *)
(** * Buddy allocator: node indices, node states and block addresses

    Facts about the bit-level helpers of buddy_kalloc.c.  A node index
    [vindex] is positive; the proofs view it as a [positive], whose binary
    digits below the leading one spell the path from the root: the left
    child of [p] is [p~0], the right child [p~1]. *)

From S2P Require Import Prelude Spinlock Riscv Buddy.

(** ** Counting leading zeros *)

(** One halving step of [my_clz]. *)
Definition clz_step (k : Z) (nx : Z * Z) : Z * Z :=
  if nx.2 <=? 2 ^ (64 - k) - 1 then (nx.1 + k, u64 (Z.shiftl nx.2 k)) else nx.

Lemma clz_step_spec k n x lo :
  0 < k < 64 → 2 ^ lo ≤ x < 2 ^ 64 → 0 ≤ lo → lo + k ≤ 64 →
  let '(n', x') := clz_step k (n, x) in
  n' - Z.log2 x' = n - Z.log2 x ∧ 2 ^ Z.min (lo + k) (64 - k) ≤ x' < 2 ^ 64.
Proof.
  intros Hk Hx Hlo Hlk. unfold clz_step; cbn [fst snd].
  assert (0 < 2 ^ lo) by (apply Z.pow_pos_nonneg; lia).
  destruct (Z.leb_spec x (2 ^ (64 - k) - 1)) as [Hle|Hgt].
  - assert (x * 2 ^ k < 2 ^ 64).
    { replace (2 ^ 64) with (2 ^ (64 - k) * 2 ^ k) by (rewrite <-Z.pow_add_r; [f_equal|..]; lia).
      apply Z.mul_lt_mono_pos_r; [apply Z.pow_pos_nonneg|]; lia. }
    assert (0 ≤ x * 2 ^ k) by (apply Z.mul_nonneg_nonneg; [lia|apply Z.pow_nonneg; lia]).
    rewrite Z_shiftl_mul, u64_small, Z.log2_mul_pow2 by lia. split; [lia|split; [|lia]].
    transitivity (2 ^ (lo + k)); [apply Z.pow_le_mono_r; lia|].
    rewrite Z.pow_add_r by lia. apply Z.mul_le_mono_nonneg_r; [apply Z.pow_nonneg|]; lia.
  - split; [done|split; [|lia]].
    transitivity (2 ^ (64 - k)); [apply Z.pow_le_mono_r; lia|lia].
Qed.

Lemma my_clz_steps x :
  x ≠ 0 →
  my_clz x =
    (clz_step 1 (clz_step 2 (clz_step 4 (clz_step 8 (clz_step 16 (clz_step 32 (0, x))))))).1.
Proof.
  intros Hx. unfold my_clz. rewrite (proj2 (Z.eqb_neq _ _) Hx).
  unfold clz_step. cbn [fst snd].
  change (2 ^ (64 - 32) - 1) with 0x00000000FFFFFFFF.
  change (2 ^ (64 - 16) - 1) with 0x0000FFFFFFFFFFFF.
  change (2 ^ (64 - 8) - 1) with 0x00FFFFFFFFFFFFFF.
  change (2 ^ (64 - 4) - 1) with 0x0FFFFFFFFFFFFFFF.
  change (2 ^ (64 - 2) - 1) with 0x3FFFFFFFFFFFFFFF.
  change (2 ^ (64 - 1) - 1) with 0x7FFFFFFFFFFFFFFF.
  repeat match goal with
  | |- context [if ?b then _ else _] => destruct b; cbn [fst snd]
  end; reflexivity.
Qed.

Lemma my_clz_log2 x : 0 < x < 2 ^ 64 → my_clz x = 63 - Z.log2 x.
Proof.
  intros Hx. rewrite my_clz_steps by lia.
  pose proof (clz_step_spec 32 0 x 0) as H.
  destruct (clz_step 32 (0, x)) as [n1 x1]. specialize (H ltac:(lia) ltac:(lia) ltac:(lia) ltac:(lia)).
  destruct H as [E1 B1]. change (Z.min (0 + 32) (64 - 32)) with 32 in B1.
  pose proof (clz_step_spec 16 n1 x1 32 ltac:(lia) ltac:(lia) ltac:(lia) ltac:(lia)) as H.
  destruct (clz_step 16 (n1, x1)) as [n2 x2]. destruct H as [E2 B2].
  change (Z.min _ _) with 48 in B2.
  pose proof (clz_step_spec 8 n2 x2 48 ltac:(lia) ltac:(lia) ltac:(lia) ltac:(lia)) as H.
  destruct (clz_step 8 (n2, x2)) as [n3 x3]. destruct H as [E3 B3].
  change (Z.min _ _) with 56 in B3.
  pose proof (clz_step_spec 4 n3 x3 56 ltac:(lia) ltac:(lia) ltac:(lia) ltac:(lia)) as H.
  destruct (clz_step 4 (n3, x3)) as [n4 x4]. destruct H as [E4 B4].
  change (Z.min _ _) with 60 in B4.
  pose proof (clz_step_spec 2 n4 x4 60 ltac:(lia) ltac:(lia) ltac:(lia) ltac:(lia)) as H.
  destruct (clz_step 2 (n4, x4)) as [n5 x5]. destruct H as [E5 B5].
  change (Z.min _ _) with 62 in B5.
  pose proof (clz_step_spec 1 n5 x5 62 ltac:(lia) ltac:(lia) ltac:(lia) ltac:(lia)) as H.
  destruct (clz_step 1 (n5, x5)) as [n6 x6]. destruct H as [E6 B6].
  change (Z.min _ _) with 63 in B6. cbn [fst].
  assert (Z.log2 x6 = 63) by (apply Z.log2_unique; lia). lia.
Qed.

Lemma get_level_log2 v : 0 < v < 2 ^ 63 → get_level v = Z.log2 v.
Proof. intros. unfold get_level. unwrap. rewrite my_clz_log2 by lia. lia. Qed.

(** ** Node states *)

(** The state of node [v], as a pure function of the array. *)
Definition node_state (t : gmap Z Z) (v : Z) : Z :=
  Z.land (Z.shiftr (byte_at t (v / 4)) (2 * (v mod 4))) 3.

(** The array after a [set_state]. *)
Definition upd_state (t : gmap Z Z) (v s : Z) : gmap Z Z :=
  <[v / 4 := u8 (Z.lor (u8 (Z.land (byte_at t (v / 4)) (Z.lnot (Z.shiftl 3 (2 * (v mod 4))))))
                       (Z.shiftl (Z.land s 3) (2 * (v mod 4))))]> t.

Lemma state_shift v : 0 ≤ v → u8 (Z.shiftl (Z.rem v 4) 1) = 2 * (v mod 4).
Proof.
  intros. rewrite Z.rem_mod_nonneg, Z_shiftl_mul by lia.
  pose proof (Z.mod_pos_bound v 4). rewrite u8_small; lia.
Qed.

Lemma tree_index_in_range v : 0 ≤ v < 65536 → (0 <=? v / 4) && (v / 4 <? TREE_SIZE) = true.
Proof.
  intros. change TREE_SIZE with 16384.
  pose proof (Z.div_pos v 4). pose proof (Z.div_lt_upper_bound v 4 16384). zcase; lia.
Qed.

Lemma get_state_node t v : 0 ≤ v < 65536 → get_state t v = Ret (node_state t v).
Proof.
  intros Hv. unfold get_state, tree_read, vindex_to_rindex.
  rewrite state_shift, Z_shiftr_div by lia. change (2 ^ 2) with 4.
  by rewrite tree_index_in_range.
Qed.

Lemma set_state_node t v s : 0 ≤ v < 65536 → set_state t v s = Ret (upd_state t v s).
Proof.
  intros Hv. unfold set_state, tree_read, tree_write, vindex_to_rindex.
  rewrite state_shift, Z_shiftr_div by lia. change (2 ^ 2) with 4.
  rewrite tree_index_in_range by done. cbn.
  by rewrite byte_at_insert_eq, insert_insert_eq.
Qed.

Lemma testbit_land3 x n : 0 ≤ n → Z.testbit (Z.land x 3) n = Z.testbit x n && (n <? 2).
Proof.
  intros. change 3 with (Z.ones 2). rewrite Z.land_spec, Z.testbit_ones_nonneg; [done|lia|lia].
Qed.

Lemma testbit_3 n : 0 ≤ n → Z.testbit 3 n = (n <? 2).
Proof. intros. change 3 with (Z.ones 2). rewrite Z.testbit_ones_nonneg; [done|lia|lia]. Qed.

Lemma testbit_u8 x n : 0 ≤ n → Z.testbit (u8 x) n = Z.testbit x n && (n <? 8).
Proof.
  intros. unfold u8. destruct (Z.ltb_spec n 8).
  - rewrite Z.mod_pow2_bits_low by lia. by rewrite andb_true_r.
  - rewrite Z.mod_pow2_bits_high by lia. by rewrite andb_false_r.
Qed.

Lemma node_state_range t v : 0 ≤ node_state t v < 4.
Proof.
  unfold node_state. change 3 with (Z.ones 2). rewrite Z.land_ones by lia.
  apply Z.mod_pos_bound. lia.
Qed.

(** Bit [m] of the byte an update writes, for a field of two bits at [k]. *)
Lemma field_update_bit b s k m :
  0 ≤ k → k + 2 ≤ 8 → 0 ≤ m < 8 →
  Z.testbit (u8 (Z.lor (u8 (Z.land b (Z.lnot (Z.shiftl 3 k)))) (Z.shiftl (Z.land s 3) k))) m =
  if (k <=? m) && (m <? k + 2) then Z.testbit s (m - k) else Z.testbit b m.
Proof.
  intros Hk Hk8 Hm.
  rewrite testbit_u8, Z.lor_spec, testbit_u8, Z.land_spec, Z.lnot_spec by lia.
  rewrite !Z.shiftl_spec by lia.
  rewrite (proj2 (Z.ltb_lt m 8)), !andb_true_r by lia.
  destruct (Z.leb_spec k m) as [Hle|Hlt]; cbn [andb].
  - rewrite testbit_land3, testbit_3 by lia.
    destruct (Z.ltb_spec (m - k) 2); destruct (Z.ltb_spec m (k + 2)); try lia; cbn;
      rewrite ?andb_false_r, ?andb_true_r, ?orb_false_r; done.
  - rewrite (Z.testbit_neg_r 3), (Z.testbit_neg_r (Z.land s 3)) by lia. cbn. by rewrite andb_true_r, orb_false_r.
Qed.

Lemma node_state_bit t v n :
  0 ≤ n → Z.testbit (node_state t v) n = Z.testbit (byte_at t (v / 4)) (n + 2 * (v mod 4)) && (n <? 2).
Proof.
  intros. unfold node_state. rewrite testbit_land3, Z.shiftr_spec by lia. done.
Qed.

Lemma upd_state_eq t v s : 0 ≤ s < 4 → node_state (upd_state t v s) v = s.
Proof.
  intros Hs. pose proof (Z.mod_pos_bound v 4). apply Z_bits_inj. intros n Hn.
  rewrite node_state_bit by done. unfold upd_state. rewrite byte_at_insert_eq.
  destruct (Z.ltb_spec n 2).
  - rewrite field_update_bit by lia. rewrite andb_true_r.
    rewrite (proj2 (Z.leb_le _ _)), (proj2 (Z.ltb_lt _ _)) by lia. cbn. f_equal. lia.
  - rewrite andb_false_r. symmetry. rewrite <-(Z.mod_small s (2 ^ 2)) by lia.
    apply Z.mod_pow2_bits_high. lia.
Qed.

Lemma upd_state_ne t v w s :
  v ≠ w → node_state (upd_state t v s) w = node_state t w.
Proof.
  intros Hne. pose proof (Z.mod_pos_bound v 4). pose proof (Z.mod_pos_bound w 4).
  apply Z_bits_inj. intros n Hn. rewrite !node_state_bit by done.
  destruct (Z.ltb_spec n 2); [|by rewrite !andb_false_r]. f_equal.
  unfold upd_state. destruct (decide (v / 4 = w / 4)) as [Heq|Hneq].
  - rewrite <-Heq, byte_at_insert_eq, field_update_bit by lia.
    pose proof (Z.div_mod v 4). pose proof (Z.div_mod w 4).
    destruct (Z.leb_spec (2 * (v mod 4)) (n + 2 * (w mod 4)));
      destruct (Z.ltb_spec (n + 2 * (w mod 4)) (2 * (v mod 4) + 2)); try lia; done.
  - by rewrite byte_at_insert_ne.
Qed.

(** ** Nodes as binary paths *)

Definition node (p : positive) : Prop := Zpos p < 65536.
Definition inner (p : positive) : Prop := Zpos p < 32768.
Definition leaf (p : positive) : Prop := 32768 ≤ Zpos p < 65536.
Definition plevel (p : positive) : Z := Z.log2 (Zpos p).

(** The state of node [p]. *)
Definition st (t : gmap Z Z) (p : positive) : Z := node_state t (Zpos p).
Definition upd (t : gmap Z Z) (p : positive) (s : Z) : gmap Z Z := upd_state t (Zpos p) s.

Arguments st : simpl never.
Arguments upd : simpl never.

Lemma st_upd_eq t p s : 0 ≤ s < 4 → st (upd t p s) p = s.
Proof. apply upd_state_eq. Qed.
Lemma st_upd_ne t p q s : p ≠ q → st (upd t p s) q = st t q.
Proof. intros. apply upd_state_ne. congruence. Qed.

Lemma get_state_pos t p : node p → get_state t (Zpos p) = Ret (st t p).
Proof. intros. apply get_state_node. unfold node in *. lia. Qed.
Lemma set_state_pos t p s : node p → set_state t (Zpos p) s = Ret (upd t p s).
Proof. intros. apply set_state_node. unfold node in *. lia. Qed.

Lemma go_left_pos p : go_left (Zpos p) = Zpos p~0.
Proof. reflexivity. Qed.
Lemma go_right_pos p : go_right (Zpos p) = Zpos p~1.
Proof. reflexivity. Qed.
Lemma go_up_pos0 p : go_up (Zpos p~0) = Zpos p.
Proof. reflexivity. Qed.
Lemma go_up_pos1 p : go_up (Zpos p~1) = Zpos p.
Proof. reflexivity. Qed.
Lemma is_left_son_pos0 p : is_left_son (Zpos p~0) = true.
Proof. unfold is_left_son. rewrite Z.rem_mod_nonneg, Pos2Z.inj_xO, Z.mul_comm, Z.mod_mul; lia. Qed.
Lemma is_left_son_pos1 p : is_left_son (Zpos p~1) = false.
Proof.
  unfold is_left_son. rewrite Z.rem_mod_nonneg, Pos2Z.inj_xI, Z.add_comm, Z.mul_comm, Z.mod_add by lia.
  reflexivity.
Qed.

Lemma plevel_0 p : plevel p~0 = plevel p + 1.
Proof. unfold plevel. rewrite Pos2Z.inj_xO, Z.log2_double; lia. Qed.
Lemma plevel_1 p : plevel p~1 = plevel p + 1.
Proof. unfold plevel. rewrite Pos2Z.inj_xI, Z.log2_succ_double; lia. Qed.
Lemma plevel_nonneg p : 0 ≤ plevel p.
Proof. apply Z.log2_nonneg. Qed.
Lemma plevel_bounds p : 2 ^ plevel p ≤ Zpos p < 2 ^ (plevel p + 1).
Proof. apply Z.log2_spec. lia. Qed.
Lemma node_level p : node p ↔ plevel p ≤ 15.
Proof.
  unfold node, plevel. rewrite <-Z.lt_succ_r. change 65536 with (2 ^ Z.succ 15).
  apply Z.log2_lt_pow2. lia.
Qed.
Lemma inner_level p : inner p ↔ plevel p ≤ 14.
Proof.
  unfold inner, plevel. rewrite <-Z.lt_succ_r. change 32768 with (2 ^ Z.succ 14).
  apply Z.log2_lt_pow2. lia.
Qed.
Lemma leaf_level p : leaf p ↔ plevel p = 15.
Proof.
  pose proof (node_level p). pose proof (inner_level p). unfold leaf, node, inner in *. lia.
Qed.

Lemma node_child0 p : node p~0 ↔ inner p.
Proof. unfold node, inner. lia. Qed.
Lemma node_child1 p : node p~1 ↔ inner p.
Proof. unfold node, inner. lia. Qed.
Lemma inner_node p : inner p → node p.
Proof. unfold node, inner. lia. Qed.
Lemma node_cases p : node p → inner p ∨ leaf p.
Proof. unfold node, inner, leaf. lia. Qed.

(** [sanc p q]: node [p] is a proper ancestor of node [q]. *)
Fixpoint sanc (p q : positive) : Prop :=
  match q with
  | xH => False
  | q'~0 | q'~1 => p = q' ∨ sanc p q'
  end%positive.

(** The right ([true]) or left child of a node. *)
Definition child (b : bool) (p : positive) : positive := if b then p~1 else p~0.

Lemma path_ind (P : positive → Prop) :
  P 1%positive → (∀ b p, P p → P (child b p)) → ∀ p, P p.
Proof.
  intros H1 Hc p. induction p; [by apply (Hc true)|by apply (Hc false)|done].
Qed.

Lemma sanc_child x b p : sanc x (child b p) ↔ x = p ∨ sanc x p.
Proof. by destruct b. Qed.
Lemma node_child b p : node (child b p) ↔ inner p.
Proof. destruct b; unfold node, inner; cbn; lia. Qed.
Lemma child_ne b p : child b p ≠ p.
Proof. destruct b; cbn; lia. Qed.
Lemma size_child b p : Pos.size_nat (child b p) = S (Pos.size_nat p).
Proof. by destruct b. Qed.
Lemma plevel_child b p : plevel (child b p) = plevel p + 1.
Proof. destruct b; [apply plevel_1|apply plevel_0]. Qed.
Lemma size_plevel p : Z.of_nat (Pos.size_nat p) = plevel p + 1.
Proof.
  induction p as [|b p IH] using path_ind; [done|]. rewrite size_child, plevel_child. lia.
Qed.
Lemma size_node p : node p → (Pos.size_nat p ≤ 16)%nat.
Proof. rewrite node_level. pose proof (size_plevel p). lia. Qed.
Lemma child_inj b p b' p' : child b p = child b' p' → b' = b ∧ p' = p.
Proof. destruct b, b'; cbn; intros; simplify_eq; done. Qed.
Lemma child_sib b p : child b p ≠ child (negb b) p.
Proof. by destruct b. Qed.

#[export] Instance sanc_dec p q : Decision (sanc p q).
Proof. induction q; cbn; apply _. Defined.

Lemma sanc_lt p q : sanc p q → Zpos p < Zpos q.
Proof. induction q; cbn; [intros [->|H]; [lia|apply IHq in H; lia]..|done]. Qed.
Lemma sanc_irrefl p : ¬ sanc p p.
Proof. intros H%sanc_lt. lia. Qed.
Lemma sanc_trans p q r : sanc p q → sanc q r → sanc p r.
Proof. intros Hpq. induction r; cbn; [intros [->|H]; auto..|done]. Qed.
Lemma sanc_inner p q : node q → sanc p q → inner p.
Proof.
  unfold node, inner. induction q; cbn; [intros ? [->|H]..|done]; try lia;
    apply IHq in H; lia.
Qed.
Lemma sanc_0 p : sanc p p~0.
Proof. cbn. auto. Qed.
Lemma sanc_1 p : sanc p p~1.
Proof. cbn. auto. Qed.
Lemma sanc_child0 p q : sanc p~0 q → sanc p q.
Proof. apply sanc_trans, sanc_0. Qed.
Lemma sanc_child1 p q : sanc p~1 q → sanc p q.
Proof. apply sanc_trans, sanc_1. Qed.

Lemma sanc_cases p q : sanc p q → q = (p~0)%positive ∨ q = (p~1)%positive ∨ sanc p~0 q ∨ sanc p~1 q.
Proof.
  induction q; cbn; [..|done]; intros [->|H]; try (by auto); destruct (IHq H) as [->|[->|[?|?]]]; tauto.
Qed.

Create HintDb buddy.
Create Rewrite HintDb buddy.
#[export] Hint Resolve sanc_0 sanc_1 sanc_irrefl inner_node : buddy.
#[export] Hint Rewrite go_left_pos go_right_pos go_up_pos0 go_up_pos1
  is_left_son_pos0 is_left_son_pos1 : buddy.

(** ** Blocks *)

Definition block_size (p : positive) : Z := 2 ^ (27 - plevel p).
Definition block_addr (p : positive) : Z :=
  KERNBASE + (Zpos p - 2 ^ plevel p) * block_size p.
Definition in_block (p : positive) (a : Z) : Prop :=
  block_addr p ≤ a < block_addr p + block_size p.

Lemma block_size_shift l : 0 ≤ l ≤ 15 → Z.shiftr MEM_SIZE l = 2 ^ (27 - l).
Proof.
  intros. rewrite Z_shiftr_div by lia. change MEM_SIZE with (2 ^ 27).
  rewrite Z.pow_sub_r; lia.
Qed.

Lemma block_size_split l : 0 ≤ l ≤ 15 → 2 ^ 27 = 2 ^ l * 2 ^ (27 - l).
Proof. intros. rewrite <-Z.pow_add_r by lia. f_equal. lia. Qed.

Lemma block_size_child0 p : node p~0 → block_size p = 2 * block_size p~0.
Proof.
  intros Hn%node_level. unfold block_size. rewrite plevel_0 in *.
  rewrite <-Z.pow_succ_r by lia. f_equal. lia.
Qed.
Lemma block_size_child1 p : node p~1 → block_size p = 2 * block_size p~1.
Proof.
  intros Hn%node_level. unfold block_size. rewrite plevel_1 in *.
  rewrite <-Z.pow_succ_r by lia. f_equal. lia.
Qed.
Lemma block_addr_child0 p : node p~0 → block_addr p~0 = block_addr p.
Proof.
  intros Hn. unfold block_addr. rewrite (block_size_child0 p) by done.
  rewrite plevel_0, Z.pow_add_r by (pose proof (plevel_nonneg p); lia). lia.
Qed.
Lemma block_addr_child1 p : node p~1 → block_addr p~1 = block_addr p + block_size p~1.
Proof.
  intros Hn. unfold block_addr. rewrite (block_size_child1 p) by done.
  rewrite plevel_1, Z.pow_add_r by (pose proof (plevel_nonneg p); lia). lia.
Qed.

Lemma block_addr_bounds p :
  node p → KERNBASE ≤ block_addr p ∧ block_addr p + block_size p ≤ PHYSTOP ∧ PGSIZE ≤ block_size p.
Proof.
  intros Hn%node_level. pose proof (plevel_nonneg p). pose proof (plevel_bounds p) as Hb.
  pose proof (block_size_split (plevel p)). rewrite Z.pow_add_r in Hb by lia.
  unfold block_addr, block_size. change PHYSTOP with (KERNBASE + 2 ^ 27).
  assert (PGSIZE ≤ 2 ^ (27 - plevel p)).
  { change PGSIZE with (2 ^ 12). apply Z.pow_le_mono_r; lia. }
  unfold PGSIZE in *. nia.
Qed.

Lemma get_adr_block p : node p → get_adr (Zpos p) = Ret (block_addr p).
Proof.
  intros Hn. pose proof (block_addr_bounds p Hn) as Hb. pose proof Hn as Hl%node_level.
  unfold node in Hn. pose proof (plevel_nonneg p). pose proof (plevel_bounds p) as Hp.
  unfold get_adr. cbn [Z.eqb]. rewrite get_level_log2 by lia. fold (plevel p).
  rewrite block_size_shift by lia. fold (block_size p).
  rewrite Z.shiftl_1_l.
  assert (Z.lxor (Zpos p) (2 ^ plevel p) = Zpos p - 2 ^ plevel p) as ->.
  { rewrite Z.pow_add_r in Hp by lia.
    assert (Hlow : 0 ≤ Zpos p - 2 ^ plevel p < 2 ^ plevel p) by lia.
    set (r := Zpos p - 2 ^ plevel p) in *.
    assert (Zpos p = Z.lxor r (2 ^ plevel p)) as ->; [|rewrite Z.lxor_assoc, Z.lxor_nilpotent, Z.lxor_0_r; done].
    rewrite <-Z.add_nocarry_lxor; [lia|].
    apply Z_bits_inj. intros n Hnn. rewrite Z.land_spec, Z.bits_0, Z.pow2_bits_eqb by lia.
    destruct (Z.eqb_spec (plevel p) n); [|by rewrite andb_false_r].
    rewrite <-(Z.mod_small r (2 ^ plevel p)), Z.mod_pow2_bits_high by lia. done. }
  unfold block_addr in *. change KERNBASE with 2147483648 in *. change PHYSTOP with 2281701376 in *.
  unfold PGSIZE in *. unwrap. done.
Qed.

Lemma get_vindex_div a l :
  KERNBASE ≤ a ≤ PHYSTOP → 0 ≤ l ≤ 15 →
  get_vindex a l = 2 ^ l + (a - KERNBASE) / 2 ^ (27 - l).
Proof.
  intros Ha Hl. unfold get_vindex. rewrite block_size_shift, Z.shiftl_1_l by done.
  change PHYSTOP with (KERNBASE + 2 ^ 27) in Ha. change KERNBASE with 2147483648 in *.
  rewrite (u64_small (a - _)) by lia.
  assert (0 < 2 ^ (27 - l)) by (apply Z.pow_pos_nonneg; lia).
  assert (0 < 2 ^ l ≤ 2 ^ 15) by (split; [apply Z.pow_pos_nonneg|apply Z.pow_le_mono_r]; lia).
  pose proof (Z.div_pos (a - 2147483648) (2 ^ (27 - l))).
  assert ((a - 2147483648) / 2 ^ (27 - l) ≤ 2 ^ 27).
  { apply Z.div_le_upper_bound; nia. }
  unwrap. done.
Qed.

(** The node of a level whose block holds an address is the one
    [get_vindex] computes. *)
Lemma in_block_get_vindex p a :
  node p → in_block p a → get_vindex a (plevel p) = Zpos p.
Proof.
  intros Hn Ha. pose proof (block_addr_bounds p Hn). pose proof Hn as Hl%node_level.
  pose proof (plevel_nonneg p). unfold in_block in Ha.
  rewrite get_vindex_div by lia. fold (block_size p).
  assert (0 < block_size p) by (apply Z.pow_pos_nonneg; lia).
  unfold block_addr in *.
  assert ((a - KERNBASE) / block_size p = Zpos p - 2 ^ plevel p) as ->; [|lia].
  symmetry. apply (Z.div_unique_pos _ _ _ (a - KERNBASE - (Zpos p - 2 ^ plevel p) * block_size p)); lia.
Qed.

Lemma get_vindex_block p : node p → get_vindex (block_addr p) (plevel p) = Zpos p.
Proof.
  intros Hn. apply in_block_get_vindex; [done|]. pose proof (block_addr_bounds p Hn).
  unfold in_block, PGSIZE in *. lia.
Qed.

(** An address of a block lies in the block of every ancestor. *)
Lemma in_block_sanc p q a : node q → sanc p q → in_block q a → in_block p a.
Proof.
  induction q as [q IH|q IH|]; cbn; intros Hn Hs Ha; [..|done].
  - pose proof (block_addr_child1 q Hn). pose proof (block_size_child1 q Hn).
    assert (in_block q a) by (unfold in_block in *; lia).
    destruct Hs as [->|Hs]; [done|]. apply IH; try done. by apply inner_node, node_child1.
  - pose proof (block_addr_child0 q Hn). pose proof (block_size_child0 q Hn).
    assert (in_block q a).
    { pose proof (block_addr_bounds _ Hn). unfold in_block, PGSIZE in *. lia. }
    destruct Hs as [->|Hs]; [done|]. apply IH; try done. by apply inner_node, node_child0.
Qed.

(** * Buddy allocator: the entry points, reduced to their tree operations

    With the lock free, a call of [buddy_kalloc] or [buddy_kfree] takes it,
    runs one search and one walk, and gives it back.  These equations cut
    the entry points down to the search and the walk, one per branch of the
    code. *)

Section calls.
Context (me : nat) (kend : Z).
Variables (s : mem_tree) (order L : Z).
Hypothesis Hlk : unlocked (buddy_lock s).
Hypothesis Horder : 0 ≤ order ≤ 15.
Hypothesis HL : L = 15 - order.

Lemma order_ok : (BUDDY_TREE_LEVEL <? order) = false ∧ u16 (BUDDY_TREE_LEVEL - order) = L.
Proof.
  split; [apply Z.ltb_ge; unfold BUDDY_TREE_LEVEL; lia|].
  rewrite HL. apply u16_small. unfold BUDDY_TREE_LEVEL. lia.
Qed.

Lemma release_after t :
  release me (buddy_lock (with_tree t (with_lock (held_by me (buddy_lock s)) s))) =
  Ret (buddy_lock s).
Proof. by apply release_held. Qed.

Lemma release_same :
  release me (buddy_lock (with_lock (held_by me (buddy_lock s)) s)) = Ret (buddy_lock s).
Proof. by apply release_held. Qed.

Lemma with_lock_id : with_lock (buddy_lock s) (with_lock (held_by me (buddy_lock s)) s) = s.
Proof. by destruct s. Qed.

Lemma buddy_kalloc_run q t' :
  L ≠ 0 → locate_free_block (tree s) 1 L = Ret (L, Zpos q) → node q →
  st (tree s) q = SLOT_EMPTY →
  update_upstairs_alloc up_fuel (upd (tree s) q SLOT_FULL) (Zpos q) = Ret t' →
  buddy_kalloc me order s = Ret (block_addr q, with_tree t' s).
Proof.
  intros HL0 Hloc Hn He Hup. unfold buddy_kalloc. destruct order_ok as [-> ->].
  rewrite acquire_unlocked by done. rewrite res_bind_Ret. cbv zeta.
  change (tree (with_lock _ _)) with (tree s).
  rewrite Hloc, res_bind_Ret. cbv beta iota. rewrite (proj2 (Z.eqb_neq L 0) HL0).
  rewrite get_state_pos, He by done. rewrite res_bind_Ret.
  change (SLOT_EMPTY =? SLOT_EMPTY) with true. cbv iota.
  rewrite get_adr_block by done. rewrite res_bind_Ret.
  rewrite set_state_pos by done. rewrite res_bind_Ret, Hup, res_bind_Ret. cbv zeta.
  by rewrite release_after.
Qed.

(** The search found nothing. *)
Lemma buddy_kalloc_none v :
  locate_free_block (tree s) 1 L = Ret (0, v) → buddy_kalloc me order s = Ret (0, s).
Proof.
  intros Hloc. unfold buddy_kalloc. destruct order_ok as [-> ->].
  rewrite acquire_unlocked by done. rewrite res_bind_Ret. cbv zeta.
  change (tree (with_lock _ _)) with (tree s). rewrite Hloc, res_bind_Ret. cbv beta iota.
  change (0 =? 0) with true. cbv iota. rewrite release_same.
  by rewrite res_bind_Ret, with_lock_id.
Qed.

(** The search ended at a node of the right level that is not free. *)
Lemma buddy_kalloc_busy q :
  locate_free_block (tree s) 1 L = Ret (L, Zpos q) → node q → st (tree s) q ≠ SLOT_EMPTY →
  buddy_kalloc me order s = Ret (0, s).
Proof.
  intros Hloc Hn He. unfold buddy_kalloc. destruct order_ok as [-> ->].
  rewrite acquire_unlocked by done. rewrite res_bind_Ret. cbv zeta.
  change (tree (with_lock _ _)) with (tree s). rewrite Hloc, res_bind_Ret. cbv beta iota.
  rewrite get_state_pos by done. rewrite res_bind_Ret, (proj2 (Z.eqb_neq _ _) He).
  rewrite release_same. rewrite res_bind_Ret, with_lock_id. by destruct (L =? 0).
Qed.

Section kfree.
Variable adr : Z.
Hypothesis Hadr : kend ≤ adr ≤ PHYSTOP.

Lemma address_ok :
  (BUDDY_TREE_LEVEL <? order) || (PHYSTOP <? adr) || (adr <? kend) = false.
Proof.
  destruct order_ok as [-> _]. rewrite (proj2 (Z.ltb_ge _ _)), (proj2 (Z.ltb_ge _ _)); [done|lia|lia].
Qed.

Lemma buddy_kfree_run q t' :
  get_vindex adr L = Zpos q → node q → st (tree s) q = SLOT_FULL →
  update_upstairs_free up_fuel (upd (tree s) q SLOT_EMPTY) (Zpos q) = Ret t' →
  buddy_kfree me kend adr order s = Ret (1, with_tree t' s).
Proof.
  intros Hv Hn Hf Hup. unfold buddy_kfree. rewrite address_ok. destruct order_ok as [_ ->].
  rewrite acquire_unlocked by done. rewrite res_bind_Ret. cbv zeta.
  change (tree (with_lock _ _)) with (tree s).
  rewrite Hv, get_state_pos, Hf by done. rewrite res_bind_Ret.
  change (negb (SLOT_FULL =? SLOT_FULL)) with false. cbv iota.
  rewrite set_state_pos by done. rewrite res_bind_Ret, Hup, res_bind_Ret. cbv zeta.
  by rewrite release_after.
Qed.

Lemma buddy_kfree_refused q :
  get_vindex adr L = Zpos q → node q → st (tree s) q ≠ SLOT_FULL →
  buddy_kfree me kend adr order s = Ret (0, s).
Proof.
  intros Hv Hn Hf. unfold buddy_kfree. rewrite address_ok. destruct order_ok as [_ ->].
  rewrite acquire_unlocked by done. rewrite res_bind_Ret. cbv zeta.
  change (tree (with_lock _ _)) with (tree s).
  rewrite Hv, get_state_pos by done. rewrite res_bind_Ret, (proj2 (Z.eqb_neq _ _) Hf).
  cbv beta iota delta [negb]. rewrite release_same.
  by rewrite res_bind_Ret, with_lock_id.
Qed.
End kfree.
End calls.
