(* ===== verification/BuddyPages.v ===== *)
(** * Buddy allocator: the walks up to the root, and pages

    [update_upstairs_alloc] and [update_upstairs_free] restore an invariant
    that relates each node to its two children.  The lemmas here are
    generic in that invariant: [good OK t q] says that node [q] and its
    children satisfy the local condition [OK]. *)

From S2P Require Import Prelude Spinlock Riscv Buddy BuddyIndex.

Definition good (OK : positive → Z → Z → Z → Prop) (t : gmap Z Z) (q : positive) : Prop :=
  OK q (st t q) (st t q~0) (st t q~1).

(** Updating [p] affects the local condition at [p] and at its parent only. *)
Lemma good_upd_other OK t p s q :
  q ≠ p → ¬ sanc q p → good OK t q → good OK (upd t p s) q.
Proof.
  intros Hne Hs Hg. unfold good in *.
  rewrite !st_upd_ne; [done|..|done]; intros ->; apply Hs; auto with buddy.
Qed.

Lemma good_upd_self OK t p s :
  0 ≤ s < 4 → OK p s (st t p~0) (st t p~1) → good OK (upd t p s) p.
Proof.
  intros Hs Hok. unfold good. rewrite st_upd_eq, !st_upd_ne by (done || lia). done.
Qed.

(** ** After an allocation *)

(** The state the walk gives a node with children in states [l] and [r]. *)
Definition parent_state (l r : Z) : Z :=
  if (l =? SLOT_FULL) && (r =? SLOT_FULL) then SLOT_FULL else SLOT_SPLIT.

Lemma parent_state_cases l r :
  (l = SLOT_FULL ∧ r = SLOT_FULL ∧ parent_state l r = SLOT_FULL) ∨
  (¬ (l = SLOT_FULL ∧ r = SLOT_FULL) ∧ parent_state l r = SLOT_SPLIT).
Proof. unfold parent_state. zcase; cbn; tauto. Qed.

Lemma parent_state_range l r : 0 ≤ parent_state l r < 4.
Proof. unfold parent_state, SLOT_FULL, SLOT_SPLIT. destruct (_ && _); lia. Qed.

Lemma parent_state_not_empty l r : parent_state l r ≠ SLOT_EMPTY.
Proof. unfold parent_state. by destruct (_ && _). Qed.

(** What one iteration reads about the node it leaves. *)
Lemma walk_child b q :
  (Zpos (child b q) =? 1) = false ∧ go_up (Zpos (child b q)) = Zpos q ∧
  (if is_left_son (Zpos (child b q)) then go_right else go_left) (Zpos q) =
    Zpos (child (negb b) q).
Proof.
  destruct b; cbn [child negb]; rewrite ?is_left_son_pos0, ?is_left_son_pos1; done.
Qed.

Lemma up_alloc_step f t b q :
  inner q →
  update_upstairs_alloc (S f) t (Zpos (child b q)) =
  update_upstairs_alloc f (upd t q (parent_state (st t q~0) (st t q~1))) (Zpos q).
Proof.
  intros Hn. cbn [update_upstairs_alloc]. destruct (walk_child b q) as (-> & -> & Hsib).
  unfold is_brother_full. rewrite Hsib, !get_state_pos by by apply node_child.
  cbn [mbind res_mbind res_bind]. rewrite set_state_pos by by apply inner_node.
  cbn [mbind res_mbind res_bind]. destruct b; cbn [child negb]; unfold parent_state; [done|].
  by rewrite andb_comm.
Qed.

(** The walk ends, repairs the local condition at every ancestor of [p]
    and touches nothing else. *)
Lemma walk_alloc OK p : ∀ t fuel,
  (∀ q l r, sanc q p → l ≠ SLOT_EMPTY ∨ r ≠ SLOT_EMPTY → OK q (parent_state l r) l r) →
  node p → st t p ≠ SLOT_EMPTY →
  (∀ q, inner q → ¬ sanc q p → good OK t q) →
  (Pos.size_nat p ≤ fuel)%nat →
  ∃ t', update_upstairs_alloc fuel t (Zpos p) = Ret t' ∧
    (∀ q, inner q → good OK t' q) ∧
    (∀ q, ¬ sanc q p → st t' q = st t q) ∧
    (∀ q, sanc q p → st t' q ≠ SLOT_EMPTY).
Proof.
  induction p as [|b q IH] using path_ind; intros t fuel Hok Hn Hne Hg Hf;
    rewrite ?size_child in Hf; (destruct fuel as [|f]; [cbn in Hf; lia|]).
  { exists t. split_and!; [done|intros; apply Hg; cbn; tauto|done|done]. }
  apply node_child in Hn. rewrite up_alloc_step by done.
  set (s := parent_state (st t q~0) (st t q~1)).
  assert (0 ≤ s < 4) by apply parent_state_range.
  assert (s ≠ SLOT_EMPTY) by apply parent_state_not_empty.
  setoid_rewrite sanc_child in Hg. setoid_rewrite sanc_child in Hok.
  destruct (IH (upd t q s) f) as (t' & -> & H1 & H2 & H3).
  - intros. apply Hok; auto.
  - by apply inner_node.
  - by rewrite st_upd_eq.
  - intros x Hx Hs. destruct (decide (x = q)) as [->|Hxq].
    + apply good_upd_self; [done|]. apply Hok; [auto|]. destruct b; auto.
    + apply good_upd_other; try done. apply Hg; tauto.
  - lia.
  - exists t'. setoid_rewrite sanc_child. split_and!; [done|done|..].
    + intros x Hx. rewrite H2 by tauto. apply st_upd_ne. intros ->. tauto.
    + intros x [->|Hx]; [|by apply H3]. rewrite H2 by auto with buddy.
      by rewrite st_upd_eq.
Qed.

(** ** After a free *)

Lemma up_free_step f t b q :
  inner q →
  update_upstairs_free (S f) t (Zpos (child b q)) =
  if st t q =? SLOT_FULL then update_upstairs_free f (upd t q SLOT_SPLIT) (Zpos q)
  else if st t q =? SLOT_SPLIT then
    if st t (child (negb b) q) =? SLOT_EMPTY
    then update_upstairs_free f (upd t q SLOT_EMPTY) (Zpos q)
    else Ret t
  else update_upstairs_free f t (Zpos q).
Proof.
  intros Hn. cbn [update_upstairs_free]. destruct (walk_child b q) as (-> & -> & Hsib).
  unfold is_brother_empty. rewrite get_state_pos by by apply inner_node.
  rewrite Hsib, get_state_pos by by apply node_child.
  cbn [mbind res_mbind res_bind]. by rewrite !set_state_pos by by apply inner_node.
Qed.

(** The states of the children of [q] with that of child [b] replaced. *)
Definition with_child (b : bool) (s : Z) (t : gmap Z Z) (q : positive) : Z * Z :=
  if b then (st t q~0, s) else (s, st t q~1).

(** [was OK t p]: the ancestors of [p] satisfied their local conditions
    before the state of [p] changed. *)
Definition was (OK : positive → Z → Z → Z → Prop) (t : gmap Z Z) (p : positive) : Prop :=
  ∀ b q, p = child b q →
    (∃ s0, OK q (st t q) (with_child b s0 t q).1 (with_child b s0 t q).2) ∧
    (∀ x, sanc x q → good OK t x).

Lemma with_child_same b t q : with_child b (st t (child b q)) t q = (st t q~0, st t q~1).
Proof. by destruct b. Qed.

Lemma with_child_upd b s t q c :
  with_child b c (upd t (child b q) s) q = with_child b c t q.
Proof. destruct b; cbn; by rewrite st_upd_ne by done. Qed.

(** All ancestors good before the update of [p]. *)
Lemma was_upd OK t p s : (∀ q, sanc q p → good OK t q) → was OK (upd t p s) p.
Proof.
  intros Hg b q ->. split.
  - exists (st t (child b q)). rewrite with_child_upd, with_child_same.
    rewrite st_upd_ne by apply child_ne. apply Hg. apply sanc_child. auto.
  - intros x Hx. pose proof (sanc_lt _ _ Hx).
    assert (Hgx : good OK t x) by (apply Hg, sanc_child; auto).
    unfold good in *. rewrite !st_upd_ne; [done|..]; destruct b; cbn; lia || (intros [= ->]; by apply sanc_irrefl in Hx).
Qed.

Lemma was_same OK t p : (∀ q, sanc q p → good OK t q) → was OK t p.
Proof.
  intros Hg b q ->. split.
  - exists (st t (child b q)). rewrite with_child_same. apply Hg, sanc_child. auto.
  - intros x Hx. apply Hg, sanc_child. auto.
Qed.

Lemma was_parent OK t b q : was OK t (child b q) → ∀ x, sanc x q → good OK t x.
Proof. intros Hw. by destruct (Hw b q eq_refl). Qed.

(** * Buddy allocator: pages

    [kalloc], [kfree] and [buddy_init] only ever allocate and free blocks of
    order 0.  Whatever the order of the calls, they maintain [pages_inv], an
    invariant weak enough to survive the premature merges of
    [update_upstairs_free] and strong enough to make the page allocator
    correct: a leaf is full exactly while its page is in use, and an inner
    node is full exactly if both children are. *)

Definition slot (s : Z) : Prop := s = SLOT_EMPTY ∨ s = SLOT_SPLIT ∨ s = SLOT_FULL.

Definition page_ok (q : positive) (s l r : Z) : Prop :=
  slot s ∧ (s = SLOT_FULL ↔ l = SLOT_FULL ∧ r = SLOT_FULL) ∧
  (s = SLOT_EMPTY → l ≠ SLOT_FULL ∧ r ≠ SLOT_FULL).

Definition leaf_ok (t : gmap Z Z) (q : positive) : Prop :=
  st t q = SLOT_EMPTY ∨ st t q = SLOT_FULL.

Definition pages_inv (t : gmap Z Z) : Prop :=
  (∀ q, inner q → good page_ok t q) ∧ (∀ q, leaf q → leaf_ok t q).

Lemma leaf_not_sanc x q : leaf x → node q → ¬ sanc x q.
Proof. intros Hx Hq Hs. apply sanc_inner in Hs; [|done]. unfold leaf, inner in *. lia. Qed.

Ltac slot_case := unfold page_ok, slot in *; unfold SLOT_EMPTY, SLOT_SPLIT, SLOT_FULL in *; intuition lia.

(** ** The walk after a free *)

Lemma walk_free_pages p : ∀ t fuel,
  node p → st t p ≠ SLOT_FULL →
  (∀ q, inner q → ¬ sanc q p → good page_ok t q) →
  was page_ok t p → (Pos.size_nat p ≤ fuel)%nat →
  ∃ t', update_upstairs_free fuel t (Zpos p) = Ret t' ∧
    (∀ q, inner q → good page_ok t' q) ∧ (∀ q, ¬ sanc q p → st t' q = st t q).
Proof.
  induction p as [|b q IH] using path_ind; intros t fuel Hn Hne Hg Hw Hf;
    rewrite ?size_child in Hf; (destruct fuel as [|f]; [cbn in Hf; lia|]).
  { exists t. split_and!; [done|intros; apply Hg; cbn; tauto|done]. }
  apply node_child in Hn. rewrite up_free_step by done.
  setoid_rewrite sanc_child in Hg. setoid_rewrite sanc_child.
  pose proof (was_parent _ _ _ _ Hw) as Hup. destruct (Hw b q eq_refl) as [[s0 Hs0] _].
  (* A step that sets [q] to a state [s] that is not full. *)
  assert (Hset : ∀ s, 0 ≤ s < 4 → s ≠ SLOT_FULL → page_ok q s (st t q~0) (st t q~1) →
    ∃ t', update_upstairs_free f (upd t q s) (Zpos q) = Ret t' ∧
      (∀ x, inner x → good page_ok t' x) ∧ (∀ x, ¬ (x = q ∨ sanc x q) → st t' x = st t x)).
  { intros s Hs Hsf Hok. destruct (IH (upd t q s) f) as (t' & -> & H1 & H2); [..|lia|].
    - by apply inner_node.
    - by rewrite st_upd_eq.
    - intros x Hx Hxq. destruct (decide (x = q)) as [->|]; [by apply good_upd_self|].
      apply good_upd_other; [done..|]. apply Hg; tauto.
    - by apply was_upd.
    - exists t'. split_and!; [done|done|]. intros x Hx. rewrite H2 by tauto.
      apply st_upd_ne. intros ->. tauto. }
  assert (Hcur : page_ok q (st t q) (with_child b s0 t q).1 (with_child b s0 t q).2) by done.
  assert (Hsib : st t (child (negb b) q) = if b then st t q~0 else st t q~1) by by destruct b.
  assert (Hself : st t (child b q) = if b then st t q~1 else st t q~0) by by destruct b.
  rewrite Hself in Hne. rewrite Hsib.
  destruct (Z.eqb_spec (st t q) SLOT_FULL) as [E|E]; [|destruct (Z.eqb_spec (st t q) SLOT_SPLIT) as [E'|E']].
  - apply Hset; destruct b; cbn [with_child fst snd] in *; slot_case.
  - destruct (Z.eqb_spec (if b then st t q~0 else st t q~1) SLOT_EMPTY) as [Hsb|Hsb].
    + apply Hset; destruct b; cbn [with_child fst snd] in *; slot_case.
    + exists t. split_and!; [done| |done]. intros x Hx.
      destruct (decide (x = q)) as [->|]; [|destruct (decide (sanc x q)); auto; apply Hg; tauto].
      unfold good. destruct b; cbn [with_child fst snd] in *; slot_case.
  - destruct (IH t f) as (t' & -> & H1 & H2); [..|lia|].
    + by apply inner_node.
    + done.
    + intros x Hx Hxq. destruct (decide (x = q)) as [->|]; [|apply Hg; tauto].
      unfold good. destruct b; cbn [with_child fst snd] in *; slot_case.
    + by apply was_same.
    + exists t'. split_and!; [done|done|]. intros x Hx. apply H2. tauto.
Qed.

(** ** The search for a page *)

(** A stack with at most [n] entries. *)
Definition stack_room (n : Z) (stk : BuddyStack.buddy_stack) : Prop :=
  0 ≤ BuddyStack.top stk ≤ n.

Lemma push_room n stk v :
  stack_room n stk → n < 15 →
  ∃ stk', BuddyStack.push stk v = (stk', true) ∧ stack_room (n + 1) stk'.
Proof.
  intros Hr Hn. unfold BuddyStack.push. unfold stack_room, BUDDY_TREE_LEVEL in *.
  destruct (Z.eqb_spec (BuddyStack.top stk) 15); [lia|]. eexists. split; [done|]. cbn. lia.
Qed.

Lemma inner_full f t L p cl stk :
  node p → st t p = SLOT_FULL →
  locate_inner (S f) t L (Zpos p) cl stk = Ret (Break false (Zpos p) cl stk).
Proof.
  intros Hn Hf. cbn [locate_inner]. rewrite get_state_pos, Hf by done.
  cbn [mbind res_mbind res_bind]. rewrite Z.eqb_refl. by destruct (cl <=? L).
Qed.

(** From a node that is not full the inner loop descends, without
    backtracking, to a free page below it. *)
Lemma inner_page t : pages_inv t → ∀ fuel p stk,
  node p → st t p ≠ SLOT_FULL → stack_room (plevel p) stk →
  15 - plevel p < Z.of_nat fuel →
  ∃ q stk', locate_inner fuel t 15 (Zpos p) (plevel p) stk = Ret (Break true (Zpos q) 15 stk') ∧
    leaf q ∧ st t q = SLOT_EMPTY.
Proof.
  intros [Hin Hlf]. induction fuel as [|f IH]; intros p stk Hn Hne Hr Hf;
    [pose proof (proj1 (node_level p) Hn); lia|].
  pose proof (proj1 (node_level p) Hn) as Hl. pose proof (plevel_nonneg p).
  cbn [locate_inner]. rewrite (proj2 (Z.leb_le _ _)) by done.
  rewrite get_state_pos by done. cbn [mbind res_mbind res_bind].
  rewrite (proj2 (Z.eqb_neq _ _) Hne).
  destruct (node_cases p Hn) as [Hi|Hlp].
  2:{ pose proof (proj1 (leaf_level p) Hlp) as E. rewrite E in *.
      destruct (Hlf p Hlp) as [E'|E']; [|done]. rewrite E'. cbn. eauto. }
  pose proof (proj1 (inner_level p) Hi) as Hl'.
  rewrite (proj2 (Z.eqb_neq (plevel p) 15)) by lia. cbn [andb].
  pose proof (Hin p Hi) as (Hs & Hfull & Hempty).
  rewrite u16_small by lia.
  assert (Hgo : ∀ b stk', stack_room (plevel p + 1) stk' → st t (child b p) ≠ SLOT_FULL →
    ∃ q stk'', locate_inner f t 15 (Zpos (child b p)) (plevel p + 1) stk' =
      Ret (Break true (Zpos q) 15 stk'') ∧ leaf q ∧ st t q = SLOT_EMPTY).
  { intros b stk' Hr' Hc. rewrite <-(plevel_child b). apply IH; rewrite ?plevel_child; try done; [|lia].
    by apply node_child. }
  assert (Hr1 : stack_room (plevel p + 1) stk) by (unfold stack_room in *; lia).
  rewrite !go_left_pos, !go_right_pos.
  destruct (Z.eqb_spec (st t p) SLOT_EMPTY) as [E|E].
  { apply (Hgo false); [done|]. cbn. tauto. }
  assert (E1 : st t p = SLOT_SPLIT) by (unfold slot in Hs; tauto). rewrite E1, Z.eqb_refl.
  rewrite !get_state_pos by (apply (node_child false) || apply (node_child true); done).
  cbn [mbind res_mbind res_bind].
  assert (Hl0 : slot (st t p~0) ∧ slot (st t p~1)).
  { assert (Hc : ∀ b, slot (st t (child b p))).
    { intros b. destruct (node_cases (child b p)) as [Hc|Hc]; [by apply node_child|..].
      - by destruct (Hin _ Hc).
      - destruct (Hlf _ Hc) as [-> | ->]; unfold slot; tauto. }
    split; [apply (Hc false)|apply (Hc true)]. }
  destruct (push_room (plevel p) stk (Zpos p) Hr ltac:(lia)) as (stk1 & -> & Hr2). cbn [negb].
  assert (Hnf : ¬ (st t p~0 = SLOT_FULL ∧ st t p~1 = SLOT_FULL)) by tauto.
  destruct Hl0 as [[E2|[E2|E2]] [E3|[E3|E3]]]; rewrite E2, E3 in *; cbn;
    first [ apply (Hgo false); [done|cbn; rewrite E2; done]
          | apply (Hgo true); [done|cbn; rewrite E3; done]
          | tauto ].
Qed.

Lemma pages_root_full t q :
  pages_inv t → st t 1 = SLOT_FULL → node q → st t q = SLOT_FULL.
Proof.
  intros [Hin _] H1. induction q as [|b q IH] using path_ind; [done|].
  intros Hn%node_child. destruct (Hin q Hn) as (_ & [Hf _] & _).
  destruct Hf as [Hl Hr]; [apply IH; by apply inner_node|]. by destruct b.
Qed.

Lemma outer_fuel_S : outer_fuel = S (Z.to_nat (2 ^ 15)).
Proof. unfold outer_fuel. rewrite Z2Nat.inj_add by lia. apply Nat.add_1_r. Qed.

(** The search for a page finds a free one if there is any; if there is
    none it returns 0 or a node that is not free. *)
Lemma locate_page t :
  pages_inv t →
  (st t 1 ≠ SLOT_FULL ∧ ∃ q, locate_free_block t 1 15 = Ret (15, Zpos q) ∧
     leaf q ∧ st t q = SLOT_EMPTY) ∨
  (st t 1 = SLOT_FULL ∧ locate_free_block t 1 15 = Ret (0, 1)).
Proof.
  intros Hinv. unfold locate_free_block. rewrite outer_fuel_S.
  generalize (Z.to_nat (2 ^ 15)). intros fuel. cbn [locate_outer].
  destruct (decide (st t 1 = SLOT_FULL)) as [E|E].
  - right. split; [done|]. unfold inner_fuel. rewrite (inner_full _ t 15 1) by done. done.
  - left. split; [done|].
    destruct (inner_page t Hinv inner_fuel 1 BuddyStack.init_buddy_stack) as (q & stk & Hq & Hl & He);
      [done|done|done|done|]. change (plevel 1) with 0 in Hq. rewrite Hq. cbn. eauto.
Qed.
