(* ===== verification/Kalloc.v ===== *)
(** * The page allocator (kernel/kalloc.c) refines a set of free pages

    Abstractly the allocator is a finite set of page addresses: [kalloc]
    takes some element out, [kfree] puts one back.  [free_set] reads that
    set off the leaves of the buddy tree. *)

From S2P Require Import Prelude Spinlock Riscv Buddy BuddyIndex BuddyPages.

(** ** Pages and leaves *)

Definition page_addr (i : Z) : Z := KERNBASE + PGSIZE * i.

Definition free_set (t : gmap Z Z) : gset Z :=
  list_to_set (page_addr <$>
    filter (λ i, node_state t (32768 + i) = SLOT_EMPTY) (seqZ 0 32768)).

Lemma block_addr_leaf q : leaf q → block_addr q = page_addr (Zpos q - 32768).
Proof.
  intros Hl%leaf_level. unfold block_addr, block_size. rewrite Hl.
  unfold page_addr, PGSIZE. change (2 ^ (27 - 15)) with 4096. change (2 ^ 15) with 32768. lia.
Qed.

Lemma block_addr_leaf_inj q q' : leaf q → leaf q' → block_addr q = block_addr q' → q = q'.
Proof.
  intros H H'. rewrite !block_addr_leaf by done. unfold page_addr, PGSIZE. lia.
Qed.

Lemma elem_of_free_set t a :
  a ∈ free_set t ↔ ∃ q, leaf q ∧ a = block_addr q ∧ st t q = SLOT_EMPTY.
Proof.
  unfold free_set. rewrite elem_of_list_to_set, list_elem_of_fmap.
  setoid_rewrite list_elem_of_filter. setoid_rewrite elem_of_seqZ. split.
  - intros (i & -> & Hi & Hr). exists (Z.to_pos (32768 + i)).
    assert (Hq : Zpos (Z.to_pos (32768 + i)) = 32768 + i) by (apply Z2Pos.id; lia).
    assert (leaf (Z.to_pos (32768 + i))) by (unfold leaf; rewrite Hq; lia).
    rewrite block_addr_leaf by done. unfold st. rewrite Hq. split_and!; [done|f_equal; lia|done].
  - intros (q & Hl & -> & Hq). exists (Zpos q - 32768). rewrite block_addr_leaf by done.
    unfold st in Hq. replace (32768 + (Zpos q - 32768)) with (Zpos q) by lia.
    unfold leaf in Hl. split_and!; [done|done|lia|lia].
Qed.

Lemma elem_of_free_set_leaf t q : leaf q → block_addr q ∈ free_set t ↔ st t q = SLOT_EMPTY.
Proof.
  intros Hl. rewrite elem_of_free_set. split; [|by eauto].
  intros (q' & Hl' & E & Hq'). apply block_addr_leaf_inj in E; by subst.
Qed.

(** The leaf of the page that holds an address. *)
Lemma page_of_addr a :
  KERNBASE ≤ a < PHYSTOP →
  ∃ q, leaf q ∧ get_vindex a 15 = Zpos q ∧ block_addr q = PGROUNDDOWN a.
Proof.
  intros Ha. rewrite get_vindex_div by lia. change (2 ^ (27 - 15)) with 4096.
  change PHYSTOP with (KERNBASE + 32768 * 4096) in Ha.
  pose proof (Z.div_mod (a - KERNBASE) 4096). pose proof (Z.mod_pos_bound (a - KERNBASE) 4096).
  assert (0 ≤ (a - KERNBASE) / 4096 < 32768) by lia.
  exists (Z.to_pos (32768 + (a - KERNBASE) / 4096)).
  assert (Hq : Zpos (Z.to_pos (32768 + (a - KERNBASE) / 4096)) = 32768 + (a - KERNBASE) / 4096)
    by (apply Z2Pos.id; lia).
  assert (leaf (Z.to_pos (32768 + (a - KERNBASE) / 4096))) by (unfold leaf; rewrite Hq; lia).
  split_and!; [done|by rewrite Hq|]. rewrite block_addr_leaf, Hq by done.
  rewrite PGROUNDDOWN_div. unfold page_addr, PGSIZE. change KERNBASE with (4096 * 524288) in *.
  replace (a / 4096) with (524288 + (a - 4096 * 524288) / 4096); [lia|].
  replace a with ((a - 4096 * 524288) + 524288 * 4096) at 2 by lia.
  rewrite Z.div_add by lia. lia.
Qed.

(** Two trees whose leaves differ at one leaf only. *)
Lemma free_set_take t t' q :
  leaf q → st t q = SLOT_EMPTY → st t' q = SLOT_FULL →
  (∀ x, leaf x → x ≠ q → st t' x = st t x) →
  free_set t' = free_set t ∖ {[block_addr q]}.
Proof.
  intros Hl E E' Hx. apply set_eq. intros a.
  rewrite elem_of_difference, elem_of_singleton, !elem_of_free_set. split.
  - intros (x & Hlx & -> & Ex). assert (x ≠ q) by (intros ->; by rewrite E' in Ex).
    rewrite Hx in Ex by done. split; [by eauto|]. intros Heq.
    by apply block_addr_leaf_inj in Heq.
  - intros [(x & Hlx & -> & Ex) Hne]. exists x. split_and!; [done|done|].
    rewrite Hx; [done|done|congruence].
Qed.

Lemma free_set_give t t' q :
  leaf q → st t' q = SLOT_EMPTY →
  (∀ x, leaf x → x ≠ q → st t' x = st t x) →
  free_set t' = free_set t ∪ {[block_addr q]}.
Proof.
  intros Hl E' Hx. apply set_eq. intros a.
  rewrite elem_of_union, elem_of_singleton, !elem_of_free_set. split.
  - intros (x & Hlx & -> & Ex). destruct (decide (x = q)) as [->|]; [by right|].
    rewrite Hx in Ex by done. left. eauto.
  - intros [(x & Hlx & -> & Ex)| ->]; [|by eauto].
    destruct (decide (x = q)) as [->|]; [by eauto|]. exists x. by rewrite Hx.
Qed.

(** ** One call *)

Section calls.
Context (me : nat) (kend : Z).
Hypothesis kend_ram : KERNBASE ≤ kend.

Definition page_inv (s : mem_tree) : Prop :=
  pages_inv (tree s) ∧ unlocked (buddy_lock s).

(** [kalloc] marks a free leaf full. *)
Lemma kalloc_found s q :
  page_inv s → locate_free_block (tree s) 1 15 = Ret (15, Zpos q) → leaf q →
  st (tree s) q = SLOT_EMPTY →
  ∃ t', kalloc me s = Ret (block_addr q, with_tree t' s) ∧ pages_inv t' ∧
    free_set t' = free_set (tree s) ∖ {[block_addr q]}.
Proof.
  intros [[Hin Hlf] Hlk] Hloc Hl He.
  assert (Hn : node q) by (unfold node, leaf in *; lia).
  destruct (walk_alloc page_ok q (upd (tree s) q SLOT_FULL) up_fuel) as (t' & Hup & H1 & H2 & _).
  - intros x l r _ _. destruct (parent_state_cases l r) as [(-> & -> & ->)|(Hlr & ->)]; slot_case.
  - done.
  - by rewrite st_upd_eq.
  - intros x Hx Hs. apply good_upd_other; [|done|by apply Hin].
    intros ->. unfold inner, leaf in *. lia.
  - pose proof (size_node q Hn). unfold up_fuel. lia.
  - exists t'. split; [by apply (buddy_kalloc_run me s 0 15)|].
    assert (Hleaf : ∀ x, leaf x → x ≠ q → st t' x = st (tree s) x).
    { intros x Hx Hne. rewrite H2 by by apply leaf_not_sanc. by apply st_upd_ne. }
    assert (Hq : st t' q = SLOT_FULL) by (rewrite H2 by auto with buddy; by rewrite st_upd_eq).
    split; [|by apply free_set_take]. split; [done|]. intros x Hx.
    unfold leaf_ok. destruct (decide (x = q)) as [->|]; [by right|]. rewrite Hleaf by done. by apply Hlf.
Qed.

Lemma full_free_set t : pages_inv t → st t 1 = SLOT_FULL → free_set t = ∅.
Proof.
  intros Hinv H1. apply set_eq. intros a. rewrite elem_of_free_set. split; [|set_solver].
  intros (q & Hl & _ & Hq). rewrite (pages_root_full t q) in Hq; [done..|].
  unfold node, leaf in *. lia.
Qed.

(** Freeing a page in use: its leaf becomes free. *)
Lemma kfree_used s q pa :
  page_inv s → kend ≤ pa ≤ PHYSTOP → get_vindex pa 15 = Zpos q → leaf q →
  st (tree s) q = SLOT_FULL →
  ∃ t', buddy_kfree me kend pa 0 s = Ret (1, with_tree t' s) ∧ pages_inv t' ∧
    free_set t' = free_set (tree s) ∪ {[block_addr q]}.
Proof.
  intros [[Hin Hlf] Hlk] Hpa Hv Hl Hq.
  assert (Hn : node q) by (unfold node, leaf in *; lia).
  assert (Hx : ∀ x, inner x → x ≠ q) by (intros ? ? ->; unfold inner, leaf in *; lia).
  destruct (walk_free_pages q (upd (tree s) q SLOT_EMPTY) up_fuel) as (t' & Hup & H1 & H2).
  - done.
  - by rewrite st_upd_eq.
  - intros x Hi Hs. apply good_upd_other; auto.
  - apply was_upd. intros x Hs. apply Hin. by apply (sanc_inner _ q).
  - pose proof (size_node q Hn). unfold up_fuel. lia.
  - exists t'. split; [by apply (buddy_kfree_run me kend s 0 15) with (q := q)|].
    assert (Hleaf : ∀ x, leaf x → x ≠ q → st t' x = st (tree s) x).
    { intros x Hlx Hne. rewrite H2 by by apply leaf_not_sanc. by apply st_upd_ne. }
    assert (Hq' : st t' q = SLOT_EMPTY) by (rewrite H2 by auto with buddy; by rewrite st_upd_eq).
    split; [|by apply free_set_give]. split; [done|]. intros x Hlx.
    unfold leaf_ok. destruct (decide (x = q)) as [->|]; [by left|]. rewrite Hleaf by done. by apply Hlf.
Qed.

(** A free of order 0, on every branch: the page that holds the address is
    free afterwards. *)
Lemma buddy_kfree_page s pa :
  page_inv s → kend ≤ pa < PHYSTOP →
  ∃ r t', buddy_kfree me kend pa 0 s = Ret (r, with_tree t' s) ∧ pages_inv t' ∧
    free_set t' = free_set (tree s) ∪ {[PGROUNDDOWN pa]}.
Proof.
  intros Hinv Hpa. destruct (page_of_addr pa) as (q & Hl & Hv & <-); [lia|].
  destruct (proj2 (proj1 Hinv) q Hl) as [Hq|Hq].
  - exists 0, (tree s). split_and!; [|by apply Hinv|].
    + rewrite (buddy_kfree_refused me kend s 0 15 (proj2 Hinv)) with (q := q);
        [by destruct s|lia|lia|lia|done|unfold node, leaf in *; lia|by rewrite Hq].
    + pose proof (proj2 (elem_of_free_set_leaf (tree s) q Hl) Hq) as Hin.
      apply set_eq. intros a. rewrite elem_of_union, elem_of_singleton.
      split; [tauto|by intros [?| ->]].
  - destruct (kfree_used s q pa) as (t' & ? & ? & ?); [done|lia|done..|]. eauto.
Qed.

(** ** Initialisation *)

Lemma fill_tree_spec n : ∀ i t, 0 ≤ i → i + Z.of_nat n ≤ TREE_SIZE →
  ∃ t', fill_tree n i t = Ret t' ∧
    ∀ j, byte_at t' j = if (i <=? j) && (j <? i + Z.of_nat n) then 255 else byte_at t j.
Proof.
  induction n as [|n IH]; intros i t Hi Hn.
  - exists t. split; [done|]. intros j. destruct (Z.leb_spec i j), (Z.ltb_spec j (i + Z.of_nat 0)); try done; lia.
  - destruct (IH (i + 1) (<[i := 255]> t)) as (t' & Ht' & Hj); [lia|lia|].
    exists t'. split.
    + cbn [fill_tree]. unfold tree_write.
      rewrite (proj2 (Z.leb_le _ _)), (proj2 (Z.ltb_lt _ _)) by lia. exact Ht'.
    + intros j. rewrite Hj.
      destruct (Z.leb_spec (i + 1) j), (Z.leb_spec i j), (Z.ltb_spec j (i + 1 + Z.of_nat n)),
        (Z.ltb_spec j (i + Z.of_nat (S n))); cbn [andb]; try lia; try done.
      all: first [replace j with i by lia; apply byte_at_insert_eq
                 |apply byte_at_insert_ne; lia].
Qed.

Lemma filled_state t v :
  (∀ j, 0 ≤ j < TREE_SIZE → byte_at t j = 255) → 0 ≤ v < 65536 → node_state t v = SLOT_FULL.
Proof.
  intros Ht Hv. unfold node_state. change TREE_SIZE with 16384 in Ht.
  pose proof (Z.div_mod v 4). pose proof (Z.mod_pos_bound v 4).
  rewrite Ht by lia.
  assert (v mod 4 = 0 ∨ v mod 4 = 1 ∨ v mod 4 = 2 ∨ v mod 4 = 3) as [->|[->|[->| ->]]] by lia; done.
Qed.

(** The page addresses with index in [lo, hi). *)
Definition pages_of (lo hi : Z) : gset Z := list_to_set (page_addr <$> seqZ lo (hi - lo)).

Lemma elem_of_pages_of lo hi a :
  a ∈ pages_of lo hi ↔ ∃ i, a = page_addr i ∧ lo ≤ i < hi.
Proof.
  unfold pages_of. rewrite elem_of_list_to_set, list_elem_of_fmap.
  setoid_rewrite elem_of_seqZ. split; intros (i & ? & ?); exists i; split; (done || lia).
Qed.

Lemma pages_of_cons lo hi : lo < hi → pages_of lo hi = {[page_addr lo]} ∪ pages_of (lo + 1) hi.
Proof.
  intros. apply set_eq. intros a. rewrite elem_of_union, elem_of_singleton, !elem_of_pages_of. split.
  - intros (i & -> & Hi). destruct (decide (i = lo)) as [->|]; [by left|].
    right. exists i. split; [done|lia].
  - intros [->|(i & -> & Hi)]; [exists lo|exists i]; split; (done || lia).
Qed.

Lemma PGROUNDDOWN_page i : PGROUNDDOWN (page_addr i) = page_addr i.
Proof.
  rewrite PGROUNDDOWN_div. unfold page_addr, PGSIZE. change KERNBASE with (524288 * 4096).
  replace (524288 * 4096 + 4096 * i) with ((524288 + i) * 4096) by lia.
  rewrite Z.div_mul; lia.
Qed.

Lemma page_addr_bounds i : 0 ≤ i ≤ 32768 → 0 ≤ page_addr i ≤ PHYSTOP.
Proof. unfold page_addr, PGSIZE. change PHYSTOP with (KERNBASE + 4096 * 32768). change KERNBASE with 2147483648. lia. Qed.

Lemma free_pages_spec n : ∀ fuel i s,
  n = Z.to_nat (32768 - i) → (n < fuel)%nat → 0 ≤ i ≤ 32768 → kend ≤ page_addr i → page_inv s →
  ∃ t', free_pages me kend fuel (page_addr i) s = Ret (with_tree t' s) ∧ pages_inv t' ∧
    free_set t' = free_set (tree s) ∪ pages_of i 32768.
Proof.
  induction n as [|n IH]; intros fuel i s Hn Hf Hi Hend Hinv; (destruct fuel as [|f]; [lia|]);
    cbn [free_pages]; (rewrite u64_small by (pose proof (page_addr_bounds i Hi); unfold PGSIZE, PHYSTOP, KERNBASE in *; lia));
    replace (page_addr i + PGSIZE) with (page_addr (i + 1)) by (unfold page_addr; lia).
  - assert (i = 32768) as -> by lia. exists (tree s).
    rewrite (proj2 (Z.leb_gt _ _)) by (unfold page_addr, PGSIZE, PHYSTOP, KERNBASE; lia).
    split_and!; [by destruct s|by apply Hinv|].
    assert (pages_of 32768 32768 = ∅) as -> by done. by rewrite union_empty_r_L.
  - rewrite (proj2 (Z.leb_le _ _)) by (unfold page_addr, PGSIZE, PHYSTOP, KERNBASE; lia).
    destruct (buddy_kfree_page s (page_addr i)) as (r & t1 & Hk & Hp1 & Hf1); [done| |].
    { split; [done|]. unfold page_addr, PGSIZE, PHYSTOP, KERNBASE. lia. }
    rewrite Hk, res_bind_Ret. cbv beta iota.
    destruct (IH f (i + 1) (with_tree t1 s)) as (t' & -> & Hp & Hfs); [lia|lia|lia| |by split; [|apply Hinv]|].
    { unfold page_addr, PGSIZE in *. lia. }
    exists t'. split_and!; [done|done|]. rewrite Hfs, (pages_of_cons i) by lia.
    cbn [tree with_tree]. rewrite Hf1, PGROUNDDOWN_page. by rewrite assoc_L by apply _.
Qed.

Lemma filled_pages_inv t :
  (∀ j, 0 ≤ j < TREE_SIZE → byte_at t j = 255) → pages_inv t ∧ free_set t = ∅.
Proof.
  intros Ht. assert (Hst : ∀ q, node q → st t q = SLOT_FULL).
  { intros q Hq. apply filled_state; [done|]. unfold node in Hq. lia. }
  split; [split|].
  - intros q Hq. unfold good. rewrite (Hst q), (Hst (q~0)%positive), (Hst (q~1)%positive).
    + clear. slot_case.
    + by apply (node_child true).
    + by apply (node_child false).
    + by apply inner_node.
  - intros q Hq. right. apply Hst. unfold node, leaf in *. lia.
  - apply set_eq. intros a. rewrite elem_of_free_set. split; [|set_solver].
    intros (q & Hl & _ & Hq). rewrite Hst in Hq; [done|]. unfold node, leaf in *. lia.
Qed.

(** ** The abstract page allocator *)

Inductive page_op := OpAlloc | OpFree (pa : Z).

(** [page_spec F op r F']: in a state with free pages [F] the operation
    returns [r] and leaves the free pages [F']. *)
Inductive page_spec : gset Z → page_op → Z → gset Z → Prop :=
  | spec_alloc F pa : pa ∈ F → page_spec F OpAlloc pa (F ∖ {[pa]})
  | spec_exhausted : page_spec ∅ OpAlloc 0 ∅
  | spec_free F pa : page_spec F (OpFree pa) 0 (F ∪ {[PGROUNDDOWN pa]}).

Inductive page_spec_run : gset Z → list page_op → list Z → gset Z → Prop :=
  | run_nil F : page_spec_run F [] [] F
  | run_cons F op r F1 ops rs F2 :
      page_spec F op r F1 → page_spec_run F1 ops rs F2 →
      page_spec_run F (op :: ops) (r :: rs) F2.

Definition run_op (op : page_op) (s : mem_tree) : res (Z * mem_tree) :=
  match op with
  | OpAlloc => kalloc me s
  | OpFree pa => s ← kfree me kend pa s; Ret (0, s)
  end.

Fixpoint run_ops (ops : list page_op) (s : mem_tree) : res (list Z * mem_tree) :=
  match ops with
  | [] => Ret ([], s)
  | op :: ops =>
    '(r, s) ← run_op op s;
    '(rs, s) ← run_ops ops s;
    Ret (r :: rs, s)
  end.

(** The addresses [buddy_kfree] accepts and that name a page. *)
Definition op_ok (op : page_op) : Prop :=
  match op with OpAlloc => True | OpFree pa => kend ≤ pa < PHYSTOP end.

Lemma run_op_refines s op :
  page_inv s → op_ok op →
  ∃ r s', run_op op s = Ret (r, s') ∧ page_inv s' ∧
    page_spec (free_set (tree s)) op r (free_set (tree s')).
Proof.
  intros Hinv Hop. destruct op as [|pa]; cbn [run_op].
  - destruct (locate_page (tree s)) as [(_ & q & Hloc & Hl & He)|[Hr Hloc]]; [by apply Hinv|..].
    + destruct (kalloc_found s q) as (t' & -> & Hp & Hf); [done..|].
      eexists _, _. split_and!; [done|split; [done|by apply Hinv]|]. cbn [tree with_tree].
      rewrite Hf. constructor. by apply elem_of_free_set_leaf.
    + exists 0, s. split_and!; [|done|].
      * apply (buddy_kalloc_none me s 0 15) with (v := 1); try done. apply Hinv.
      * rewrite full_free_set by (done || by apply Hinv). apply spec_exhausted.
  - destruct (buddy_kfree_page s pa) as (r & t' & Hk & Hp & Hf); [done|done|].
    unfold kfree. rewrite Hk, res_bind_Ret. cbv beta iota. rewrite res_bind_Ret.
    eexists _, _. split_and!; [done|split; [done|by apply Hinv]|]. cbn [tree with_tree].
    rewrite Hf. constructor.
Qed.

Lemma run_ops_refines ops : ∀ s,
  page_inv s → Forall op_ok ops →
  ∃ rs s', run_ops ops s = Ret (rs, s') ∧ page_inv s' ∧
    page_spec_run (free_set (tree s)) ops rs (free_set (tree s')).
Proof.
  induction ops as [|op ops IH]; intros s Hinv Hops; cbn [run_ops].
  - exists [], s. split_and!; [done..|constructor].
  - apply Forall_cons_1 in Hops as [Hop Hops].
    destruct (run_op_refines s op) as (r & s1 & -> & Hinv1 & Hsp); [done..|].
    rewrite res_bind_Ret. cbv beta iota.
    destruct (IH s1) as (rs & s2 & -> & Hinv2 & Hrun); [done..|].
    rewrite res_bind_Ret. cbv beta iota. eexists _, _. split_and!; [done|done|].
    by econstructor.
Qed.

Definition first_page : Z := (PGROUNDUP kend - KERNBASE) / PGSIZE.

Lemma first_page_addr :
  kend ≤ PHYSTOP → PGROUNDUP kend = page_addr first_page ∧ 0 ≤ first_page ≤ 32768.
Proof.
  intros Hk. unfold first_page, page_addr. unfold PHYSTOP in Hk.
  rewrite PGROUNDUP_div by (unfold PGSIZE, KERNBASE in *; lia).
  unfold PGSIZE. change KERNBASE with (524288 * 4096) in *.
  set (n := (kend + 4096 - 1) / 4096).
  assert (524288 ≤ n ≤ 524288 + 32768).
  { unfold n. split; [apply Z.div_le_lower_bound|apply Z.lt_succ_r, Z.div_lt_upper_bound]; lia. }
  replace (4096 * n - 524288 * 4096) with ((n - 524288) * 4096) by lia.
  rewrite Z.div_mul by lia. lia.
Qed.

Lemma kend_first_page : kend ≤ PHYSTOP → kend ≤ page_addr first_page.
Proof.
  intros Hk. destruct (first_page_addr Hk) as [<- _]. unfold PHYSTOP in Hk.
  rewrite PGROUNDUP_div by (unfold PGSIZE, KERNBASE in *; lia). unfold PGSIZE.
  pose proof (Z.div_mod (kend + 4096 - 1) 4096). pose proof (Z.mod_pos_bound (kend + 4096 - 1) 4096). lia.
Qed.

Lemma init_fuel_lt i : 0 ≤ i ≤ 32768 → (Z.to_nat (32768 - i) < init_fuel)%nat.
Proof. intros. unfold init_fuel. apply Z2Nat.inj_lt; lia. Qed.

(** [kinit] from any state: the free pages are exactly those between the
    end of the kernel and the end of RAM. *)
Lemma kinit_spec s :
  kend ≤ PHYSTOP →
  ∃ s', kinit me kend s = Ret s' ∧ page_inv s' ∧ free_set (tree s') = pages_of first_page 32768.
Proof.
  intros Hk. unfold kinit, buddy_init.
  destruct (fill_tree_spec (Z.to_nat TREE_SIZE) 0 (tree (with_lock (initlock "buddy_lock") s)))
    as (t1 & Hfill & Ht1); [done|by rewrite Z2Nat.id|].
  rewrite Z2Nat.id in Ht1 by done.
  destruct (filled_pages_inv t1) as [Hinv1 Hfs1].
  { intros j Hj. rewrite Ht1, (proj2 (Z.leb_le _ _)), (proj2 (Z.ltb_lt _ _)) by lia. done. }
  cbv zeta. rewrite Hfill, res_bind_Ret. clear Hfill. destruct (first_page_addr Hk) as [-> Hfp].
  destruct (free_pages_spec (Z.to_nat (32768 - first_page)) init_fuel first_page
    (with_tree t1 (with_lock (initlock "buddy_lock") s))) as (t' & -> & Hp & Hfs).
  { done. } { by apply init_fuel_lt. } { done. } { by apply kend_first_page. } { by split. }
  rewrite !res_bind_Ret. eexists. split_and!; [done|by split|].
  cbn [tree with_tree] in Hfs |- *. by rewrite Hfs, Hfs1, union_empty_l_L.
Qed.
End calls.
