(* ===== verification/BuddyBlocks.v ===== *)
(** * Buddy allocator: blocks of every order

    The full invariant.  [A] is the set of nodes handed out and not yet
    freed (the pages below [end] count as handed out for ever).
    [blocks_inv t A] says that every node state is the right summary of the
    allocated blocks: a node is empty iff no allocated block overlaps it
    from below, full iff it is allocated or both halves are full, split
    otherwise; below an allocated node everything is empty. *)

From S2P Require Import Prelude Spinlock Riscv Buddy BuddyIndex BuddyPages.

Definition block_ok (A : gset positive) (q : positive) (s l r : Z) : Prop :=
  if decide (q ∈ A) then s = SLOT_FULL ∧ l = SLOT_EMPTY ∧ r = SLOT_EMPTY
  else slot s ∧ (s = SLOT_EMPTY ↔ l = SLOT_EMPTY ∧ r = SLOT_EMPTY) ∧
       (s = SLOT_FULL ↔ l = SLOT_FULL ∧ r = SLOT_FULL).

Definition block_leaf_ok (A : gset positive) (t : gmap Z Z) (q : positive) : Prop :=
  if decide (q ∈ A) then st t q = SLOT_FULL else st t q = SLOT_EMPTY.

Record blocks_inv (t : gmap Z Z) (A : gset positive) : Prop := {
  bi_inner : ∀ q, inner q → good (block_ok A) t q;
  bi_leaf : ∀ q, leaf q → block_leaf_ok A t q;
  bi_node : ∀ q, q ∈ A → node q;
}.

Definition below (p q : positive) : Prop := p = q ∨ sanc p q.

Lemma below_child p q : below p q → q = p ∨ ∃ b, below (child b p) q.
Proof.
  intros [->|Hs]; [by left|]. right.
  destruct (sanc_cases _ _ Hs) as [->|[->|[?|?]]];
    [exists false|exists true|exists false|exists true]; cbn; unfold below; auto.
Qed.

Lemma below_trans p q r : below p q → below q r → below p r.
Proof. unfold below. intros [->|H] [->|H']; auto. right. by eapply sanc_trans. Qed.

Lemma child_below b p q : below (child b p) q → sanc p q.
Proof. intros [<-|H]; [apply sanc_child; auto|]. eapply sanc_trans; [|done]. apply sanc_child; auto. Qed.

Lemma below_node p q : node q → below p q → node p.
Proof. intros Hq [->|H]; [done|]. by apply inner_node, (sanc_inner p q). Qed.

(** ** Consequences of the invariant *)

Section inv.
Context (t : gmap Z Z) (A : gset positive).
Hypothesis Hinv : blocks_inv t A.

Lemma blocks_slot q : node q → slot (st t q).
Proof.
  intros [Hi|Hl]%node_cases.
  - pose proof (bi_inner _ _ Hinv q Hi) as Hg. unfold good, block_ok, slot in *.
    destruct (decide _); tauto.
  - pose proof (bi_leaf _ _ Hinv q Hl) as Hg. unfold block_leaf_ok, slot in *.
    destruct (decide _); tauto.
Qed.

Lemma allocated_full q : q ∈ A → st t q = SLOT_FULL.
Proof.
  intros Hq. destruct (node_cases q (bi_node _ _ Hinv q Hq)) as [Hi|Hl].
  - pose proof (bi_inner _ _ Hinv q Hi) as Hg. unfold good, block_ok in Hg.
    rewrite decide_True in Hg; tauto.
  - pose proof (bi_leaf _ _ Hinv q Hl) as Hg. unfold block_leaf_ok in Hg.
    by rewrite decide_True in Hg.
Qed.

Lemma not_allocated q : st t q ≠ SLOT_FULL → q ∉ A.
Proof. intros Hq ?. by apply Hq, allocated_full. Qed.

Lemma free_children q : inner q → q ∉ A →
  slot (st t q) ∧ (st t q = SLOT_EMPTY ↔ st t q~0 = SLOT_EMPTY ∧ st t q~1 = SLOT_EMPTY) ∧
  (st t q = SLOT_FULL ↔ st t q~0 = SLOT_FULL ∧ st t q~1 = SLOT_FULL).
Proof.
  intros Hi Hq. pose proof (bi_inner _ _ Hinv q Hi) as Hg.
  unfold good, block_ok in Hg. by rewrite decide_False in Hg.
Qed.

Lemma empty_below p q : node q → st t p = SLOT_EMPTY → below p q → st t q = SLOT_EMPTY.
Proof.
  intros Hn Hp. induction q as [|b q IH] using path_ind; (intros [->|Hs]; [done|]).
  - done.
  - apply node_child in Hn. apply sanc_child in Hs.
    assert (Hq : st t q = SLOT_EMPTY).
    { apply IH; [by apply inner_node|]. unfold below. naive_solver. }
    assert (q ∉ A) by (apply not_allocated; by rewrite Hq).
    destruct (free_children q) as (_ & He & _); [done..|]. destruct b; cbn; tauto.
Qed.

Lemma empty_no_alloc p q : st t p = SLOT_EMPTY → below p q → q ∉ A.
Proof.
  intros Hp Hb HA. pose proof (empty_below p q (bi_node _ _ Hinv q HA) Hp Hb) as He.
  rewrite (allocated_full q HA) in He. done.
Qed.

(** Allocated nodes are not nested. *)
Lemma alloc_antichain p q : p ∈ A → q ∈ A → ¬ sanc p q.
Proof.
  intros Hp Hq Hs. pose proof (bi_node _ _ Hinv q Hq) as Hn.
  assert (Hi : inner p) by by apply (sanc_inner p q).
  pose proof (bi_inner _ _ Hinv p Hi) as Hg. unfold good, block_ok in Hg.
  rewrite decide_True in Hg by done. destruct Hg as (_ & Hl & Hr).
  destruct (below_child p q) as [->|[b Hb]]; [by right|by apply sanc_irrefl in Hs|].
  apply (empty_no_alloc (child b p) q); [by destruct b|done|done].
Qed.

(** A node that is not empty overlaps an allocated block below it. *)
Lemma not_empty_alloc n : ∀ q, n = Z.to_nat (15 - plevel q) → node q → st t q ≠ SLOT_EMPTY →
  ∃ a, a ∈ A ∧ below q a.
Proof.
  induction n as [|n IH]; intros q Hn Hq He;
    (destruct (decide (q ∈ A)) as [HA|HA]; [by exists q; unfold below; auto|]).
  - assert (Hl : leaf q) by (apply leaf_level; apply node_level in Hq; lia).
    pose proof (bi_leaf _ _ Hinv q Hl) as Hg. unfold block_leaf_ok in Hg.
    by rewrite decide_False in Hg.
  - assert (Hi : inner q) by (apply inner_level; lia).
    destruct (free_children q Hi HA) as (_ & Hempty & _).
    assert (∃ b, st t (child b q) ≠ SLOT_EMPTY) as [b Hb].
    { destruct (decide (st t q~0 = SLOT_EMPTY)); [exists true|exists false]; cbn; tauto. }
    destruct (IH (child b q)) as (a & Ha & Hab).
    { rewrite plevel_child. lia. } { by apply node_child. } { done. }
    exists a. split; [done|]. right. by eapply child_below.
Qed.

(** Every ancestor of a split node is split. *)
Lemma split_above p q :
  node q → st t q = SLOT_SPLIT → sanc p q → st t p = SLOT_SPLIT.
Proof.
  induction q as [|b q IH] using path_ind; [done|]. intros Hn%node_child He Hs.
  assert (st t q = SLOT_SPLIT).
  { destruct (decide (q ∈ A)) as [HA|HA].
    - pose proof (bi_inner _ _ Hinv q Hn) as Hg. unfold good, block_ok in Hg.
      rewrite decide_True in Hg by done. destruct Hg as (_ & Hl & Hr).
      destruct b; cbn in He; by rewrite He in *.
    - destruct (free_children q Hn HA) as ([E|[E|E]] & Hempty & Hfull); [|done|].
      + apply Hempty in E as [? ?]. destruct b; cbn in He; by rewrite He in *.
      + apply Hfull in E as [? ?]. destruct b; cbn in He; by rewrite He in *. }
  apply sanc_child in Hs as [->|Hs]; [done|]. apply IH; [by apply inner_node|done..].
Qed.

(** An empty node with a full ancestor lies in an allocated block. *)
Lemma full_above_alloc p q :
  node q → sanc p q → st t p = SLOT_FULL → st t q = SLOT_EMPTY → ∃ a, a ∈ A ∧ sanc a q.
Proof.
  induction q as [|b q IH] using path_ind; [done|]. intros Hn%node_child Hs Hp He.
  setoid_rewrite sanc_child. destruct (decide (q ∈ A)) as [|HA]; [by eauto|].
  destruct (free_children q Hn HA) as (Hslot & _ & Hfull).
  assert (Hqf : st t q ≠ SLOT_FULL).
  { intros [? ?]%Hfull. destruct b; cbn in He; by rewrite He in *. }
  apply sanc_child in Hs as [->|Hs]; [done|].
  destruct Hslot as [E|[E|E]]; [|by rewrite (split_above p q) in Hp by (done || by apply inner_node)|done].
  destruct IH as (a & ? & ?); [by apply inner_node|done..|eauto].
Qed.
End inv.

(** * Buddy allocator: the search for a free block

    [locate_free_block] is a depth-first search with an explicit stack.
    Under the full invariant it finds a free node of the wanted level
    whenever there is one: [explore] follows the search through the
    subtree of a node until it either ends at such a node or gives up the
    subtree and resumes from the stack it was entered with. *)

Import BuddyStack (buddy_stack).

(** ** The stack as a list of nodes, bottom first *)

Definition srep (stk : buddy_stack) (l : list positive) : Prop :=
  BuddyStack.top stk = Z.of_nat (length l) ∧
  length (BuddyStack.vindex_stack stk) = 15%nat ∧
  ∀ i p, l !! i = Some p → BuddyStack.vindex_stack stk !! i = Some (Zpos p).

Lemma srep_init : srep BuddyStack.init_buddy_stack [].
Proof. split_and!; [done|done|]. by intros. Qed.

Lemma srep_push stk l p :
  srep stk l → (length l < 15)%nat →
  ∃ stk', BuddyStack.push stk (Zpos p) = (stk', true) ∧ srep stk' (l ++ [p]).
Proof.
  intros (Htop & Hlen & Hl) Hlt. unfold BuddyStack.push. rewrite Htop.
  rewrite (proj2 (Z.eqb_neq _ _)) by (unfold BUDDY_TREE_LEVEL; lia).
  eexists. split; [done|]. rewrite Nat2Z.id. split_and!; cbn.
  - rewrite length_app. cbn. lia.
  - by rewrite length_insert.
  - intros i x Hx. destruct (decide (i = length l)) as [->|Hne].
    + rewrite list_lookup_middle in Hx by done. simplify_eq.
      apply list_lookup_insert_eq. lia.
    + rewrite list_lookup_insert_ne by done. apply Hl.
      rewrite lookup_app_l in Hx; [done|]. apply lookup_lt_Some in Hx.
      rewrite length_app in Hx. cbn in Hx. lia.
Qed.

Lemma srep_pop stk l p v :
  srep stk (l ++ [p]) →
  ∃ stk', BuddyStack.pop stk v = (stk', Zpos p, true) ∧ srep stk' l.
Proof.
  intros (Htop & Hlen & Hl). rewrite length_app in Htop. cbn in Htop.
  unfold BuddyStack.pop. rewrite (proj2 (Z.eqb_neq _ _)) by lia. cbv zeta.
  replace (Z.to_nat (BuddyStack.top stk - 1)) with (length l) by lia.
  erewrite list_lookup_total_correct; [|by apply Hl, list_lookup_middle].
  eexists. split; [done|]. split_and!; cbn; [lia|done|].
  intros i x Hx. apply Hl. by apply lookup_app_l_Some.
Qed.

Lemma srep_empty stk l : srep stk l → BuddyStack.empty stk = bool_decide (l = []).
Proof.
  intros (Htop & _). unfold BuddyStack.empty. rewrite Htop.
  by destruct l.
Qed.

(** ** The outer loop around an inner loop in progress *)

Definition resume (f : nat) (t : gmap Z Z) (L v cl : Z) (stk : buddy_stack) : res (option (Z * Z)) :=
  if BuddyStack.empty stk then Ret (Some (v, cl))
  else
    let '(stk, v, _) := BuddyStack.pop stk v in
    let v := go_right v in
    locate_outer f t L v (u16 (get_level v)) stk.

Definition from_inner (fi f : nat) (t : gmap Z Z) (L v cl : Z) (stk : buddy_stack)
    : res (option (Z * Z)) :=
  e ← locate_inner fi t L v cl stk;
  match e with
  | Return0 => Ret None
  | Break found v cl stk => if (found : bool) then Ret (Some (v, cl)) else resume f t L v cl stk
  end.

Lemma locate_outer_S f t L v cl stk :
  locate_outer (S f) t L v cl stk = from_inner inner_fuel f t L v cl stk.
Proof.
  cbn [locate_outer]. unfold from_inner, resume.
  destruct (locate_inner inner_fuel t L v cl stk) as [[]| | | |]; reflexivity.
Qed.

Lemma resume_pop t L v cl stk l p :
  srep stk (l ++ [p]) → inner p →
  ∃ stk', srep stk' l ∧ ∀ f,
    resume (S f) t L v cl stk = from_inner inner_fuel f t L (Zpos p~1) (plevel p + 1) stk'.
Proof.
  intros Hs Hi. destruct (srep_pop stk l p v Hs) as (stk' & Hp & Hs').
  exists stk'. split; [done|]. intros f. unfold resume. rewrite (srep_empty _ _ Hs).
  rewrite bool_decide_false by by destruct l. rewrite Hp. cbv beta iota zeta.
  rewrite go_right_pos, get_level_log2 by (unfold inner in Hi; lia). fold (plevel p~1).
  rewrite plevel_1. apply inner_level in Hi. pose proof (plevel_nonneg p).
  rewrite u16_small by lia. apply locate_outer_S.
Qed.

(** One step of the inner loop, by the state of the node. *)
Section steps.
Context (t : gmap Z Z) (L : Z) (fi f : nat) (p : positive) (stk : buddy_stack).
Hypothesis Hn : node p.
Hypothesis HL : plevel p ≤ L.

Lemma step_full :
  st t p = SLOT_FULL →
  from_inner (S fi) f t L (Zpos p) (plevel p) stk = resume f t L (Zpos p) (plevel p) stk.
Proof.
  intros E. unfold from_inner. rewrite inner_full by done. by rewrite res_bind_Ret.
Qed.

Lemma step_found :
  st t p = SLOT_EMPTY → plevel p = L →
  from_inner (S fi) f t L (Zpos p) (plevel p) stk = Ret (Some (Zpos p, L)).
Proof.
  intros E <-. unfold from_inner. cbn [locate_inner].
  rewrite Z.leb_refl, get_state_pos, E by done. rewrite res_bind_Ret.
  change (SLOT_EMPTY =? SLOT_FULL) with false. by rewrite Z.eqb_refl.
Qed.

Lemma step_miss :
  st t p = SLOT_SPLIT → plevel p = L →
  from_inner (S fi) f t L (Zpos p) (plevel p) stk = resume f t L (Zpos p) (plevel p) stk.
Proof.
  intros E <-. unfold from_inner. cbn [locate_inner].
  rewrite Z.leb_refl, get_state_pos, E by done. rewrite res_bind_Ret.
  change (SLOT_SPLIT =? SLOT_FULL) with false. by rewrite Z.eqb_refl.
Qed.

Hypothesis Hi : inner p.
Hypothesis HL' : plevel p < L.

(** The body of the inner loop above the wanted level. *)
Lemma step_enter :
  st t p ≠ SLOT_FULL →
  locate_inner (S fi) t L (Zpos p) (plevel p) stk =
  if st t p =? SLOT_EMPTY then locate_inner fi t L (Zpos (child false p)) (plevel p + 1) stk
  else if st t p =? SLOT_SPLIT then
    let ls := st t p~0 in
    let rs := st t p~1 in
    if (ls =? SLOT_SPLIT) && (rs =? SLOT_SPLIT) then
      let '(stk', pushed) := BuddyStack.push stk (Zpos p) in
      if negb pushed then Ret Return0
      else locate_inner fi t L (Zpos (child false p)) (plevel p + 1) stk'
    else if ls =? SLOT_EMPTY then locate_inner fi t L (Zpos (child false p)) (plevel p + 1) stk
    else if rs =? SLOT_EMPTY then locate_inner fi t L (Zpos (child true p)) (plevel p + 1) stk
    else if (ls =? SLOT_FULL) && (rs =? SLOT_SPLIT) then
      locate_inner fi t L (Zpos (child true p)) (plevel p + 1) stk
    else if (rs =? SLOT_FULL) && (ls =? SLOT_SPLIT) then
      locate_inner fi t L (Zpos (child false p)) (plevel p + 1) stk
    else Ret (Break false (Zpos p) (plevel p) stk)
  else Ret (Break false (Zpos p) (plevel p) stk).
Proof.
  intros E. cbn [locate_inner]. rewrite (proj2 (Z.leb_le _ _)) by lia.
  rewrite get_state_pos by done. rewrite res_bind_Ret, (proj2 (Z.eqb_neq _ _) E).
  rewrite (proj2 (Z.eqb_neq (plevel p) L)) by lia. cbn [andb].
  pose proof (plevel_nonneg p). apply inner_level in Hi as Hl.
  rewrite u16_small by lia. rewrite !go_left_pos, !go_right_pos.
  rewrite (get_state_pos t p~0) by by apply (node_child false).
  rewrite (get_state_pos t p~1) by by apply (node_child true).
  rewrite !res_bind_Ret. reflexivity.
Qed.
End steps.

(** ** Exploring a subtree *)

(** [q] is a free node of level [L] that the search can reach from [p]. *)
Definition avail_from (t : gmap Z Z) (L : Z) (p q : positive) : Prop :=
  below p q ∧ plevel q = L ∧ st t q = SLOT_EMPTY ∧
  ∀ x, below p x → sanc x q → st t x ≠ SLOT_FULL.

Lemma avail_child t L b p q :
  st t p ≠ SLOT_FULL → avail_from t L (child b p) q → avail_from t L p q.
Proof.
  intros Hp (Hb & Hl & He & Hx). split_and!; [right; by eapply child_below|done|done|].
  intros x Hpx Hxq. destruct (below_child p x Hpx) as [->|[b' Hb']]; [done|].
  apply Hx; [|done].
  assert (b' = b) as ->; [|done].
  (* two nodes below different children are not comparable *)
  assert (Hcmp : below (child b' p) q) by (eapply below_trans; [done|by right]).
  clear -Hb Hcmp. induction q as [|c q IH] using path_ind.
  - destruct Hb as [E|[]]. by destruct b.
  - destruct Hb as [E|Hb], Hcmp as [E'|Hcmp].
    + rewrite <-E in E'. by destruct b, b'.
    + rewrite <-E in Hcmp. apply sanc_child in Hcmp as [E'|H%sanc_lt]; [|destruct b'; cbn in H; lia].
      by apply child_ne in E'.
    + rewrite <-E' in Hb. apply sanc_child in Hb as [E|H%sanc_lt]; [|destruct b; cbn in H; lia].
      by apply child_ne in E.
    + apply sanc_child in Hb, Hcmp. apply IH; unfold below; naive_solver.
Qed.

Lemma avail_inv t L p q :
  plevel p < L → avail_from t L p q →
  st t p ≠ SLOT_FULL ∧ ∃ b, avail_from t L (child b p) q.
Proof.
  intros Hlt (Hb & Hl & He & Hx).
  destruct (below_child p q Hb) as [->|[b Hb']]; [lia|].
  assert (Hs : sanc p q) by by eapply child_below.
  split; [apply Hx; [by left|done]|]. exists b. split_and!; [done..|].
  intros x Hcx. apply Hx. right. by eapply child_below.
Qed.

Section explore.
Context (t : gmap Z Z) (A : gset positive) (L : Z).
Hypothesis Hinv : blocks_inv t A.
Hypothesis HL : 0 ≤ L ≤ 15.

Lemma empty_avail n : ∀ p,
  n = Z.to_nat (L - plevel p) → plevel p ≤ L → st t p = SLOT_EMPTY → ∃ q, avail_from t L p q.
Proof.
  induction n as [|n IH]; intros p Hn Hp He.
  - exists p. split_and!; [by left|lia|done|]. intros x [->|Hpx] Hxp; exfalso.
    + by apply sanc_irrefl in Hxp.
    + by apply (sanc_irrefl p), (sanc_trans p x p).
  - assert (Hi : inner p) by (apply inner_level; lia).
    destruct (IH (child false p)) as [q Hq].
    + rewrite plevel_child. lia.
    + rewrite plevel_child. lia.
    + apply (empty_below t A Hinv p); [by apply node_child|done|].
      right. apply sanc_child. by left.
    + exists q. eapply avail_child; [by rewrite He|done].
Qed.

Definition finds (n : nat) (fi : nat) (p : positive) (stk : buddy_stack) : Prop :=
  ∃ q k, avail_from t L p q ∧ (k < 2 ^ n)%nat ∧
    ∀ f, from_inner fi (k + f) t L (Zpos p) (plevel p) stk = Ret (Some (Zpos q, L)).

Definition gives_up (n : nat) (fi : nat) (p : positive) (stk : buddy_stack) (l : list positive) : Prop :=
  (∀ q, ¬ avail_from t L p q) ∧
  ∃ k v cl stk', (k < 2 ^ n)%nat ∧ srep stk' l ∧ node v ∧ (cl = L → st t v ≠ SLOT_EMPTY) ∧
    ∀ f, from_inner fi (k + f) t L (Zpos p) (plevel p) stk = resume f t L (Zpos v) cl stk'.

(** The search of [p] is that of its child [b]. *)
Lemma explore_one n fi p stk l b :
  inner p → st t p ≠ SLOT_FULL →
  (∀ q, avail_from t L (child (negb b) p) q → ∃ q, avail_from t L (child b p) q) →
  (∀ f, from_inner (S fi) f t L (Zpos p) (plevel p) stk =
        from_inner fi f t L (Zpos (child b p)) (plevel p + 1) stk) → plevel p < L →
  finds n fi (child b p) stk ∨ gives_up n fi (child b p) stk l →
  finds (S n) (S fi) p stk ∨ gives_up (S n) (S fi) p stk l.
Proof.
  intros Hi Hf Hsib Heq Hlt [(q & k & Ha & Hk & Hrun)|(Hno & k & v & cl & stk' & Hk & Hs & Hv & Hcl & Hrun)];
    rewrite plevel_child in Hrun; pose proof (Nat.pow_succ_r' 2 n) as Hpow.
  - left. exists q, k. split_and!; [by eapply avail_child|lia|]. intros f. by rewrite Heq.
  - right. split.
    + intros q Hq. destruct (avail_inv t L p q) as [_ [b' Hb']]; [done|done|].
      destruct (decide (b' = b)) as [->|Hne]; [by apply (Hno q)|].
      assert (b' = negb b) as -> by by destruct b, b'.
      destruct (Hsib q Hb') as [q' Hq']. by apply (Hno q').
    + exists k, v, cl, stk'. split_and!; [lia|done..|]. intros f. by rewrite Heq.
Qed.

(** Both children are split: the right one is searched when the left one
    has been given up. *)
Lemma explore_both n fi p stk stk1 l :
  inner p → st t p ≠ SLOT_FULL → plevel p < L → srep stk1 (l ++ [p]) →
  (∀ f, from_inner (S fi) f t L (Zpos p) (plevel p) stk =
        from_inner fi f t L (Zpos (child false p)) (plevel p + 1) stk1) →
  finds n fi (child false p) stk1 ∨ gives_up n fi (child false p) stk1 (l ++ [p]) →
  (∀ stk2, srep stk2 l →
     finds n inner_fuel (child true p) stk2 ∨ gives_up n inner_fuel (child true p) stk2 l) →
  finds (S n) (S fi) p stk ∨ gives_up (S n) (S fi) p stk l.
Proof.
  intros Hi Hf Hlt Hs1 Heq Hleft Hright. pose proof (Nat.pow_succ_r' 2 n) as Hpow.
  destruct Hleft as [(q & k & Ha & Hk & Hrun)|(Hno & k & v & cl & stk' & Hk & Hs & Hv & Hcl & Hrun)];
    rewrite plevel_child in Hrun.
  { left. exists q, k. split_and!; [by eapply avail_child|lia|]. intros f. by rewrite Heq. }
  destruct (resume_pop t L (Zpos v) cl stk' l p Hs Hi) as (stk2 & Hs2 & Hresume).
  assert (Hchain : ∀ k' f, from_inner (S fi) (k + S (k' + f)) t L (Zpos p) (plevel p) stk =
    from_inner inner_fuel (k' + f) t L (Zpos (child true p)) (plevel (child true p)) stk2).
  { intros k' f. rewrite Heq, Hrun, Hresume, plevel_child. done. }
  destruct (Hright stk2 Hs2) as [(q & k2 & Ha & Hk2 & Hrun2)|(Hno2 & k2 & v2 & cl2 & stk3 & Hk2 & Hs3 & Hv2 & Hcl2 & Hrun2)].
  - left. exists q, (k + S k2)%nat. split_and!; [by eapply avail_child|lia|]. intros f.
    replace (k + S k2 + f)%nat with (k + S (k2 + f))%nat by lia. by rewrite Hchain.
  - right. split.
    + intros q Hq. destruct (avail_inv t L p q Hlt Hq) as [_ [[] Hb]]; [by apply (Hno2 q)|by apply (Hno q)].
    + exists (k + S k2)%nat, v2, cl2, stk3. split_and!; [lia|done..|]. intros f.
      replace (k + S k2 + f)%nat with (k + S (k2 + f))%nat by lia. by rewrite Hchain.
Qed.

Lemma full_no_avail p q : st t p = SLOT_FULL → ¬ avail_from t L p q.
Proof.
  intros E ([->|Hs] & _ & He & Hx); [by rewrite E in He|].
  apply (Hx p); [by left|done|done].
Qed.

Lemma from_inner_eq fi f v cl stk v' cl' stk' :
  locate_inner (S fi) t L v cl stk = locate_inner fi t L v' cl' stk' →
  from_inner (S fi) f t L v cl stk = from_inner fi f t L v' cl' stk'.
Proof. unfold from_inner. by intros ->. Qed.

(** The search of a node at the wanted level. *)
Lemma explore_level fi p stk l :
  node p → plevel p = L → srep stk l →
  finds 0 (S fi) p stk ∨ gives_up 0 (S fi) p stk l.
Proof.
  intros Hp E Hs.
  assert (Hself : ∀ q, avail_from t L p q → st t p = SLOT_EMPTY).
  { intros q (Hb & Hq & He & _). destruct (below_child p q Hb) as [->|[b Hc]]; [done|].
    assert (plevel (child b p) ≤ plevel q).
    { destruct Hc as [->|Hc%sanc_lt]; [lia|]. apply Z.log2_le_mono. lia. }
    rewrite plevel_child in *. lia. }
  assert (Hup : st t p ≠ SLOT_EMPTY →
    (∀ f, from_inner (S fi) f t L (Zpos p) (plevel p) stk = resume f t L (Zpos p) (plevel p) stk) →
    gives_up 0 (S fi) p stk l).
  { intros Hne Hrun. split; [intros q Hq; by apply Hne, (Hself q)|].
    exists 0%nat, p, (plevel p), stk. split_and!; [cbn; lia|done..]. }
  destruct (blocks_slot t A Hinv p Hp) as [Est|[Est|Est]].
  - left. destruct (empty_avail 0 p) as [q Hq]; [lia|lia|done|].
    assert (q = p) as ->.
    { destruct Hq as (Hb & Hq & _). destruct (below_child p q Hb) as [?|[b Hc]]; [done|].
      assert (plevel (child b p) ≤ plevel q).
      { destruct Hc as [->|Hc%sanc_lt]; [lia|]. apply Z.log2_le_mono. lia. }
      rewrite plevel_child in *. lia. }
    exists p, 0%nat. split_and!; [done|cbn; lia|]. intros. apply step_found; (done || lia).
  - right. apply Hup; [by rewrite Est|]. intros. apply step_miss; (done || lia).
  - right. apply Hup; [by rewrite Est|]. intros. apply step_full; (done || lia).
Qed.

(** The search of a subtree terminates, and finds a free node if there is one. *)
Lemma explore n : ∀ p fi stk l,
  n = Z.to_nat (L - plevel p) → node p → plevel p ≤ L → srep stk l →
  Z.of_nat (length l) ≤ plevel p → L - plevel p < Z.of_nat fi →
  finds n fi p stk ∨ gives_up n fi p stk l.
Proof.
  induction n as [|n IH]; intros p fi stk l Hn Hp HpL Hs Hlen Hfi; (destruct fi as [|fi]; [lia|]).
  { apply explore_level; [done|lia|done]. }
  assert (Hlt : plevel p < L) by lia. assert (Hi : inner p) by (apply inner_level; lia).
  assert (Hsub : ∀ b fi' stk' l', srep stk' l' → Z.of_nat (length l') ≤ plevel p + 1 →
    L - plevel p - 1 < Z.of_nat fi' →
    finds n fi' (child b p) stk' ∨ gives_up n fi' (child b p) stk' l').
  { intros b fi' stk' l' Hs' Hl' Hf'. apply IH; rewrite ?plevel_child; try done; try lia. by apply node_child. }
  assert (Hpick : ∀ b, st t p ≠ SLOT_FULL →
    st t (child b p) = SLOT_EMPTY ∨ st t (child (negb b) p) = SLOT_FULL →
    locate_inner (S fi) t L (Zpos p) (plevel p) stk = locate_inner fi t L (Zpos (child b p)) (plevel p + 1) stk →
    finds (S n) (S fi) p stk ∨ gives_up (S n) (S fi) p stk l).
  { intros b Hf Hb Heq. apply (explore_one _ _ _ _ _ b); [done|done| |intros; by apply from_inner_eq|done|].
    - intros q Hq. destruct Hb as [Hb|Hb]; [|by apply full_no_avail in Hq].
      apply (empty_avail n); rewrite ?plevel_child; [lia|lia|done].
    - apply Hsub; [done|lia|lia]. }
  destruct (decide (st t p = SLOT_FULL)) as [E|E].
  { right. split; [intros q Hq; by destruct (avail_inv t L p q Hlt Hq)|].
    exists 0%nat, p, (plevel p), stk. split_and!; [pose proof (Nat.pow_nonzero 2 (S n)); lia|done|done|lia|].
    intros. apply step_full; (done || lia). }
  pose proof (not_allocated t A Hinv p E) as HA.
  destruct (free_children t A Hinv p Hi HA) as (Hslot & Hempty & Hfull).
  pose proof (step_enter t L fi p stk Hp HpL Hi Hlt E) as Hstep.
  pose proof (blocks_slot t A Hinv p~0 (proj2 (node_child false p) Hi)) as Hl0.
  pose proof (blocks_slot t A Hinv p~1 (proj2 (node_child true p) Hi)) as Hl1.
  destruct Hslot as [Ep|[Ep|Ep]]; [|clear Hempty|done].
  { destruct Hempty as [He _]. destruct (He Ep) as [He0 _].
    rewrite Ep in Hstep. apply (Hpick false); [done|by left|done]. }
  rewrite Ep in Hstep. destruct Hl0 as [E0|[E0|E0]], Hl1 as [E1|[E1|E1]]; rewrite E0, E1 in Hstep;
    try (apply (Hpick false); [done|cbn; tauto|exact Hstep]);
    try (apply (Hpick true); [done|cbn; tauto|exact Hstep]).
  - destruct (srep_push stk l p) as (stk1 & Hpush & Hs1); [done|apply inner_level in Hi; lia|].
    rewrite Hpush in Hstep. apply (explore_both n fi p stk stk1 l); [done..| | |].
    + intros. by apply from_inner_eq.
    + apply Hsub; [done| |lia]. rewrite length_app. cbn [length]. lia.
    + intros stk2 Hs2. apply Hsub; [done|lia|unfold inner_fuel; lia].
  - tauto.
Qed.
End explore.
