(* ===== verification/BuddyAlloc.v ===== *)
(** * Buddy allocator: allocation and free of blocks of every order *)

From S2P Require Import Prelude Spinlock Riscv Buddy BuddyIndex BuddyPages BuddyBlocks.

(** ** Overlapping blocks *)

Lemma anc_at_level q l : 0 ≤ l ≤ plevel q → ∃ p, below p q ∧ plevel p = l.
Proof.
  induction q as [|b q IH] using path_ind; intros Hl.
  - exists 1%positive. split; [by left|]. change (plevel 1) with 0 in *. lia.
  - rewrite plevel_child in Hl. destruct (decide (l = plevel q + 1)) as [->|].
    + exists (child b q). split; [by left|]. apply plevel_child.
    + destruct IH as (p & Hp & Hpl); [lia|]. exists p. split; [|done].
      right. apply sanc_child. unfold below in *. naive_solver.
Qed.

Lemma in_block_below p q x : node q → below p q → in_block q x → in_block p x.
Proof. intros Hn [->|Hs] Hx; [done|]. by eapply in_block_sanc. Qed.

(** Blocks that share an address are nested. *)
Lemma overlap_nested p q x :
  node p → node q → in_block p x → in_block q x → below p q ∨ below q p.
Proof.
  assert (Hwlog : ∀ p q, plevel p ≤ plevel q → node p → node q → in_block p x → in_block q x → below p q).
  { intros p' q' Hle Hp Hq Hxp Hxq.
    destruct (anc_at_level q' (plevel p')) as (a & Ha & Hl); [pose proof (plevel_nonneg p'); lia|].
    assert (Hna : node a) by by eapply below_node.
    pose proof (in_block_get_vindex p' x Hp Hxp) as E1.
    pose proof (in_block_get_vindex a x Hna (in_block_below a q' x Hq Ha Hxq)) as E2.
    rewrite Hl, E1 in E2. simplify_eq. done. }
  intros. destruct (Z.le_ge_cases (plevel p) (plevel q)); [left|right]; auto.
Qed.

Lemma anc_dec (P : positive → Prop) `{!∀ x, Decision (P x)} q :
  (∃ x, sanc x q ∧ P x) ∨ (∀ x, sanc x q → ¬ P x).
Proof.
  induction q as [|b q IH] using path_ind; [by right|]. setoid_rewrite sanc_child.
  destruct (decide (P q)); [left; by eauto|]. destruct IH as [(x & ? & ?)|IH]; [left; by eauto|].
  right. intros x [->|Hx]; auto.
Qed.

Lemma below_root q : below 1 q.
Proof.
  induction q as [|b q IH] using path_ind; [by left|]. right. apply sanc_child.
  unfold below in *. naive_solver.
Qed.

Lemma block_addr_in p : node p → in_block p (block_addr p).
Proof. intros Hp. pose proof (block_addr_bounds p Hp). unfold in_block, PGSIZE in *. lia. Qed.

Definition disjoint_blocks (p q : positive) : Prop := ∀ x, ¬ (in_block p x ∧ in_block q x).

Lemma not_nested_disjoint p q :
  node p → node q → ¬ below p q → ¬ below q p → disjoint_blocks p q.
Proof. intros Hp Hq H1 H2 x [Hx Hx']. by destruct (overlap_nested p q x). Qed.

Lemma nested_overlap p q : node q → below p q → in_block p (block_addr q) ∧ in_block q (block_addr q).
Proof. intros Hq Hb. pose proof (block_addr_in q Hq). split; [by eapply in_block_below|done]. Qed.

(** ** The search, from the root *)

Lemma pow2_fuel n : (n ≤ 15)%nat → (2 ^ n ≤ Z.to_nat (2 ^ 15))%nat.
Proof.
  intros Hn. apply Nat2Z.inj_le. rewrite Nat2Z.inj_pow, Z2Nat.id by lia.
  apply Z.pow_le_mono_r; lia.
Qed.

Lemma locate_blocks t A L :
  blocks_inv t A → 0 ≤ L ≤ 15 →
  (∃ q, avail_from t L 1 q ∧ locate_free_block t 1 L = Ret (L, Zpos q)) ∨
  ((∀ q, ¬ avail_from t L 1 q) ∧
   (locate_free_block t 1 L = Ret (0, 1) ∨
    ∃ v, node v ∧ st t v ≠ SLOT_EMPTY ∧ locate_free_block t 1 L = Ret (L, Zpos v))).
Proof.
  intros Hinv HL. unfold locate_free_block. rewrite outer_fuel_S, locate_outer_S.
  assert (Hk : ∀ k, (k < 2 ^ Z.to_nat L)%nat → ∃ f, Z.to_nat (2 ^ 15) = (k + f)%nat).
  { intros k Hk. pose proof (pow2_fuel (Z.to_nat L) ltac:(lia)).
    exists (Z.to_nat (2 ^ 15) - k)%nat. lia. }
  change 0 with (plevel 1) at 1.
  destruct (explore t A L Hinv HL (Z.to_nat L) 1 inner_fuel BuddyStack.init_buddy_stack [])
    as [(q & k & Ha & Hlt & Hrun)|(Hno & k & v & cl & stk & Hlt & Hs & Hv & Hcl & Hrun)].
  { f_equal. change (plevel 1) with 0. lia. }
  { done. } { change (plevel 1) with 0. lia. } { apply srep_init. } { done. }
  { change (plevel 1) with 0. unfold inner_fuel. lia. }
  - left. exists q. split; [done|]. destruct (Hk k Hlt) as [f ->]. rewrite Hrun, res_bind_Ret.
    cbv beta iota. by rewrite Z.eqb_refl.
  - right. split; [done|]. destruct (Hk k Hlt) as [f ->]. rewrite Hrun. unfold resume.
    rewrite (srep_empty _ _ Hs), bool_decide_true, res_bind_Ret by done. cbv beta iota.
    destruct (Z.eqb_spec cl L) as [->|]; [|by left]. right. exists v. auto.
Qed.

(** ** Allocation *)

Section alloc.
Context (me : nat) (kend : Z) (s : mem_tree) (A : gset positive).
Hypothesis Hinv : blocks_inv (tree s) A.
Hypothesis Hlk : unlocked (buddy_lock s).

Lemma avail_node L q : L ≤ 15 → avail_from (tree s) L 1 q → node q.
Proof. intros HL (_ & Hl & _). apply node_level. lia. Qed.

(** A free node overlaps no allocated one. *)
Lemma avail_disjoint L q a :
  L ≤ 15 → avail_from (tree s) L 1 q → a ∈ A → disjoint_blocks a q.
Proof.
  intros HL Hq Ha. pose proof (avail_node L q HL Hq) as Hn. pose proof (bi_node _ _ Hinv a Ha) as Hna.
  pose proof (allocated_full _ _ Hinv a Ha) as Hf. destruct Hq as (_ & _ & He & Hx).
  apply not_nested_disjoint; try done.
  - intros [->|Hs]; [by rewrite He in Hf|]. by apply (Hx a); [apply below_root|..].
  - intros Hb. by apply (empty_no_alloc _ _ Hinv q a).
Qed.

(** A node of the wanted level that is not free overlaps an allocated one. *)
Lemma unavail_overlap L q :
  plevel q = L → L ≤ 15 → ¬ avail_from (tree s) L 1 q → ∃ a, a ∈ A ∧ (below a q ∨ below q a).
Proof.
  intros Hl HL Hno. assert (Hn : node q) by (apply node_level; lia).
  destruct (decide (st (tree s) q = SLOT_EMPTY)) as [He|He].
  - destruct (anc_dec (λ x, st (tree s) x = SLOT_FULL) q) as [(x & Hx & Hf)|Hx].
    + destruct (full_above_alloc _ _ Hinv x q) as (a & Ha & Hs); [done..|].
      exists a. split; [done|]. left. by right.
    + destruct Hno. split_and!; [apply below_root|done|done|auto].
  - destruct (not_empty_alloc _ _ Hinv (Z.to_nat (15 - plevel q)) q) as (a & Ha & Hb); [done..|].
    exists a. auto.
Qed.

Lemma add_self (q : positive) (B : gset positive) : q ∈ {[q]} ∪ B.
Proof. set_solver. Qed.
Lemma add_other (x q : positive) (B : gset positive) : x ≠ q → x ∈ B ↔ x ∈ {[q]} ∪ B.
Proof. intros. rewrite elem_of_union, elem_of_singleton. tauto. Qed.

Lemma block_ok_other B q x st l r :
  x ≠ q → block_ok B x st l r = block_ok ({[q]} ∪ B) x st l r.
Proof. intros Hne. unfold block_ok. by apply decide_ext, add_other. Qed.

Lemma block_leaf_ok_other B q t x :
  x ≠ q → block_leaf_ok B t x = block_leaf_ok ({[q]} ∪ B) t x.
Proof. intros Hne. unfold block_leaf_ok. by apply decide_ext, add_other. Qed.

Lemma block_ok_parent B x l r :
  x ∉ B → l ≠ SLOT_EMPTY ∨ r ≠ SLOT_EMPTY → block_ok B x (parent_state l r) l r.
Proof.
  intros HB Hlr. unfold block_ok. rewrite decide_False by done.
  destruct (parent_state_cases l r) as [(-> & -> & ->)|(Hf & ->)]; slot_case.
Qed.

(** Marking a free node full and walking up. *)
Lemma alloc_walk L q :
  L ≤ 15 → avail_from (tree s) L 1 q →
  ∃ t', update_upstairs_alloc up_fuel (upd (tree s) q SLOT_FULL) (Zpos q) = Ret t' ∧
    blocks_inv t' ({[q]} ∪ A).
Proof.
  intros HL Hq. pose proof (avail_node L q HL Hq) as Hn. destruct Hq as (_ & _ & He & Hx).
  assert (HqA : q ∉ A) by (apply (not_allocated _ _ Hinv); by rewrite He).
  destruct (walk_alloc (block_ok ({[q]} ∪ A)) q (upd (tree s) q SLOT_FULL) up_fuel)
    as (t' & Hup & H1 & H2 & _).
  - intros x l r Hxq. apply block_ok_parent. rewrite not_elem_of_union, not_elem_of_singleton. split.
    + intros ->. by apply sanc_irrefl in Hxq.
    + apply (not_allocated _ _ Hinv). apply Hx; [apply below_root|done].
  - done.
  - by rewrite st_upd_eq.
  - intros x Hi Hxq. destruct (decide (x = q)) as [->|Hne].
    + apply good_upd_self; [done|]. unfold block_ok. rewrite decide_True by apply add_self.
      destruct (free_children _ _ Hinv q Hi HqA) as (_ & Hem & _). tauto.
    + apply good_upd_other; [done|done|]. unfold good. rewrite <-block_ok_other by done.
      by apply (bi_inner _ _ Hinv).
  - pose proof (size_node q Hn). unfold up_fuel. lia.
  - exists t'. split; [done|]. split; [done| |].
    + clear Hup. intros x Hl. destruct (decide (x = q)) as [->|Hne].
      * unfold block_leaf_ok. rewrite decide_True by apply add_self.
        rewrite H2 by auto with buddy. by rewrite st_upd_eq.
      * rewrite <-block_leaf_ok_other by done. unfold block_leaf_ok.
        rewrite H2 by by apply leaf_not_sanc. rewrite st_upd_ne by done. by apply (bi_leaf _ _ Hinv).
    + intros x [->%elem_of_singleton|HxA]%elem_of_union; [done|]. by apply (bi_node _ _ Hinv).
Qed.

Lemma buddy_kalloc_blocks order :
  0 ≤ order < 15 →
  (∃ q t', plevel q = 15 - order ∧ buddy_kalloc me order s = Ret (block_addr q, with_tree t' s) ∧
     blocks_inv t' ({[q]} ∪ A) ∧ ∀ a, a ∈ A → disjoint_blocks a q) ∨
  (buddy_kalloc me order s = Ret (0, s) ∧
     ∀ q, plevel q = 15 - order → ∃ a x, a ∈ A ∧ in_block a x ∧ in_block q x).
Proof.
  intros Ho. destruct (locate_blocks (tree s) A (15 - order)) as [(q & Hq & Hloc)|[Hno Hloc]];
    [done|lia|..].
  - left. destruct (alloc_walk (15 - order) q) as (t' & Hup & Hinv'); [lia|done|].
    exists q, t'. split_and!.
    + by destruct Hq as (_ & ? & _).
    + apply (buddy_kalloc_run me s order (15 - order)); try done; try lia.
      * by eapply avail_node; [|done]; lia.
      * by destruct Hq as (_ & _ & ? & _).
    + done.
    + intros a. apply (avail_disjoint (15 - order)); [lia|done].
  - right. split.
    + destruct Hloc as [Hloc|(v & Hv & He & Hloc)].
      * eapply (buddy_kalloc_none me s order (15 - order)); try done; lia.
      * eapply (buddy_kalloc_busy me s order (15 - order)); try done; lia.
    + intros q Hl. destruct (unavail_overlap (15 - order) q) as (a & Ha & Hb); [done|lia|by apply Hno|].
      pose proof (bi_node _ _ Hinv a Ha). assert (node q) by (apply node_level; lia).
      destruct Hb as [Hb|Hb]; [exists a, (block_addr q)|exists a, (block_addr a)].
      * split; [done|]. by apply nested_overlap.
      * split; [done|]. by apply and_comm, nested_overlap.
Qed.
End alloc.

(** ** Free *)

(** [update_upstairs_free] marks a split ancestor empty whenever the sibling
    of the child it comes from is empty, without looking at that child.
    [safe_up t p]: on the way up from a node [p] that turned from full to
    split, the first ancestor that is not full has no empty child off the
    path.  [free_safe t p]: the same for a node that is freed; if its parent
    is not full nothing turns from full to split. *)
Fixpoint safe_up (t : gmap Z Z) (p : positive) : bool :=
  match p with
  | xH => true
  | xO q => if st t q =? SLOT_FULL then safe_up t q else negb (st t q~1 =? SLOT_EMPTY)
  | xI q => if st t q =? SLOT_FULL then safe_up t q else negb (st t q~0 =? SLOT_EMPTY)
  end.

Definition free_safe (t : gmap Z Z) (p : positive) : bool :=
  match p with
  | xH => true
  | xO q | xI q => if st t q =? SLOT_FULL then safe_up t q else true
  end.

Lemma safe_up_child t b q :
  safe_up t (child b q) =
  if st t q =? SLOT_FULL then safe_up t q else negb (st t (child (negb b) q) =? SLOT_EMPTY).
Proof. by destruct b. Qed.

Lemma free_safe_child t b q :
  free_safe t (child b q) = if st t q =? SLOT_FULL then safe_up t q else true.
Proof. by destruct b. Qed.

Lemma sib_not_below b q : ¬ below (child b q) (child (negb b) q).
Proof.
  intros [E|Hs]; [by apply (child_sib b q)|]. apply sanc_child in Hs as [E|Hs%sanc_lt].
  - by apply child_ne in E.
  - destruct b; cbn in Hs; lia.
Qed.

Lemma safe_up_upd t p s q : below q p → safe_up (upd t p s) q = safe_up t q.
Proof.
  induction q as [|b q IH] using path_ind; intros Hb; [done|].
  assert (Hq : sanc q p).
  { destruct Hb as [<-|Hb]; [apply sanc_child; by left|]. eapply sanc_trans; [|done].
    apply sanc_child. by left. }
  rewrite !safe_up_child, IH by by right.
  rewrite !st_upd_ne; [done|..].
  - intros ->. by apply sib_not_below in Hb.
  - intros ->. by apply sanc_irrefl in Hq.
Qed.

Section walks.
Context (B : gset positive).
Abbreviation ok := (block_ok B).

Lemma block_ok_free q st l r :
  q ∉ B →
  block_ok B q st l r ↔ slot st ∧ (st = SLOT_EMPTY ↔ l = SLOT_EMPTY ∧ r = SLOT_EMPTY) ∧
  (st = SLOT_FULL ↔ l = SLOT_FULL ∧ r = SLOT_FULL).
Proof. intros Hq. unfold block_ok. by rewrite decide_False. Qed.

(** A node outside [B] with a split child is split; one with a full child
    is not empty. *)
Lemma good_split_parent t b q :
  good ok t q → st t (child b q) = SLOT_SPLIT → st t q = SLOT_SPLIT.
Proof.
  unfold good, block_ok. destruct (decide _); destruct b; cbn; slot_case.
Qed.

Lemma good_full_parent t b q :
  q ∉ B → good ok t q → st t (child b q) = SLOT_FULL → st t q ≠ SLOT_EMPTY.
Proof. intros Hq Hg. apply block_ok_free in Hg; [|done]. destruct b; cbn; slot_case. Qed.

(** The walk from [p], whose parent is split: empty pairs are merged. *)
Lemma walk_merge p : ∀ t fuel,
  node p → st t p = SLOT_EMPTY → (∀ q, sanc q p → q ∉ B) →
  (∀ q, inner q → ¬ sanc q p → good ok t q) → was ok t p →
  (∀ b q, p = child b q → st t q = SLOT_SPLIT) → (Pos.size_nat p ≤ fuel)%nat →
  ∃ t', update_upstairs_free fuel t (Zpos p) = Ret t' ∧
    (∀ q, inner q → good ok t' q) ∧ (∀ q, ¬ sanc q p → st t' q = st t q).
Proof.
  induction p as [|b q IH] using path_ind; intros t fuel Hn He HB Hg Hw Hpar Hf;
    rewrite ?size_child in Hf; (destruct fuel as [|f]; [cbn in Hf; lia|]).
  { exists t. split_and!; [done|intros; apply Hg; cbn; tauto|done]. }
  apply node_child in Hn. rewrite up_free_step by done. rewrite (Hpar b q eq_refl). cbn [Z.eqb SLOT_SPLIT SLOT_FULL].
  setoid_rewrite sanc_child in Hg. setoid_rewrite sanc_child in HB. setoid_rewrite sanc_child.
  pose proof (was_parent _ _ _ _ Hw) as Hup.
  assert (HqB : q ∉ B) by auto. pose proof (Hpar b q eq_refl) as Hq.
  assert (Hkids : (if b then st t q~1 else st t q~0) = SLOT_EMPTY) by by destruct b.
  assert (Hsib : st t (child (negb b) q) = if b then st t q~0 else st t q~1) by by destruct b.
  change (Z.eqb 1 3) with false. change (Z.eqb 1 1) with true. cbv iota. rewrite Hsib.
  destruct (Z.eqb_spec (if b then st t q~0 else st t q~1) SLOT_EMPTY) as [Es|Es].
  - destruct (IH (upd t q SLOT_EMPTY) f) as (t' & -> & H1 & H2); [..|lia|].
    + by apply inner_node.
    + by rewrite st_upd_eq.
    + auto.
    + intros x Hx Hxq. destruct (decide (x = q)) as [->|].
      * apply good_upd_self; [done|]. apply block_ok_free; [done|]. destruct b; slot_case.
      * apply good_upd_other; [done..|]. apply Hg; tauto.
    + by apply was_upd.
    + intros b' q' ->. rewrite st_upd_ne by apply child_ne.
      eapply good_split_parent; [|done]. apply Hup, sanc_child. by left.
    + exists t'. split_and!; [done|done|]. intros x Hx. rewrite H2 by tauto.
      apply st_upd_ne. intros ->. tauto.
  - exists t. split_and!; [done| |done]. intros x Hx.
    destruct (decide (x = q)) as [->|]; [|destruct (decide (sanc x q)); auto; apply Hg; tauto].
    apply block_ok_free; [done|]. destruct b; slot_case.
Qed.

(** The walk from [p], which turned from full to split. *)
Lemma walk_split p : ∀ t fuel,
  node p → st t p = SLOT_SPLIT → (∀ q, sanc q p → q ∉ B) →
  (∀ q, inner q → ¬ sanc q p → good ok t q) → was ok t p →
  (∀ b q, p = child b q → st t q ≠ SLOT_EMPTY) → safe_up t p = true →
  (Pos.size_nat p ≤ fuel)%nat →
  ∃ t', update_upstairs_free fuel t (Zpos p) = Ret t' ∧
    (∀ q, inner q → good ok t' q) ∧ (∀ q, ¬ sanc q p → st t' q = st t q).
Proof.
  induction p as [|b q IH] using path_ind; intros t fuel Hn He HB Hg Hw Hpar Hsafe Hf;
    rewrite ?size_child in Hf; (destruct fuel as [|f]; [cbn in Hf; lia|]).
  { exists t. split_and!; [done|intros; apply Hg; cbn; tauto|done]. }
  apply node_child in Hn. rewrite up_free_step by done. rewrite safe_up_child in Hsafe.
  setoid_rewrite sanc_child in Hg. setoid_rewrite sanc_child in HB. setoid_rewrite sanc_child.
  pose proof (was_parent _ _ _ _ Hw) as Hup. destruct (Hw b q eq_refl) as [[s0 Hs0] _].
  assert (HqB : q ∉ B) by auto. pose proof (Hpar b q eq_refl) as Hq.
  apply block_ok_free in Hs0 as [Hslot _]; [|done].
  assert (Hkids : (if b then st t q~1 else st t q~0) = SLOT_SPLIT) by by destruct b.
  destruct (Z.eqb_spec (st t q) SLOT_FULL) as [E|E].
  - destruct (IH (upd t q SLOT_SPLIT) f) as (t' & -> & H1 & H2); [..|lia|].
    + by apply inner_node.
    + by rewrite st_upd_eq.
    + auto.
    + intros x Hx Hxq. destruct (decide (x = q)) as [->|].
      * apply good_upd_self; [done|]. apply block_ok_free; [done|]. destruct b; slot_case.
      * apply good_upd_other; [done..|]. apply Hg; tauto.
    + by apply was_upd.
    + intros b' q' ->. rewrite st_upd_ne by apply child_ne.
      assert (sanc q' (child b' q')) by (apply sanc_child; by left).
      eapply good_full_parent; [|by apply Hup|done]. apply HB. auto.
    + rewrite safe_up_upd by by left. done.
    + exists t'. split_and!; [done|done|]. intros x Hx. rewrite H2 by tauto.
      apply st_upd_ne. intros ->. tauto.
  - assert (Esp : st t q = SLOT_SPLIT) by (unfold slot in Hslot; tauto).
    rewrite Esp, Z.eqb_refl. apply negb_true_iff in Hsafe. rewrite Hsafe.
    exists t. split_and!; [done| |done]. intros x Hx.
    destruct (decide (x = q)) as [->|]; [|destruct (decide (sanc x q)); auto; apply Hg; tauto].
    apply block_ok_free; [done|]. destruct b; slot_case.
Qed.
End walks.

Section free.
Context (me : nat) (kend : Z) (s : mem_tree) (A : gset positive).
Hypothesis Hinv : blocks_inv (tree s) A.
Hypothesis Hlk : unlocked (buddy_lock s).

Lemma block_ok_remove q x st l r :
  x ≠ q → block_ok A x st l r = block_ok (A ∖ {[q]}) x st l r.
Proof.
  intros Hne. unfold block_ok. apply decide_ext.
  rewrite elem_of_difference, elem_of_singleton. tauto.
Qed.

Lemma removed (q : positive) : q ∉ A ∖ {[q]}.
Proof. rewrite elem_of_difference, elem_of_singleton. tauto. Qed.

(** The parent of an allocated node is split or full. *)
Lemma alloc_parent b q :
  child b q ∈ A → inner q ∧ (q ∉ A) ∧ (st (tree s) q = SLOT_SPLIT ∨ st (tree s) q = SLOT_FULL).
Proof.
  intros Ha. pose proof (bi_node _ _ Hinv _ Ha) as Hn%node_child.
  assert (HqA : q ∉ A).
  { intros Hq. apply (alloc_antichain _ _ Hinv q (child b q)); [done..|]. apply sanc_child. by left. }
  split_and!; [done..|]. pose proof (allocated_full _ _ Hinv _ Ha) as Hf.
  destruct (free_children _ _ Hinv q Hn HqA) as ([E|E] & Hem & _); [|tauto].
  apply Hem in E as [? ?]. destruct b; cbn in Hf; by rewrite Hf in *.
Qed.

(** The tree after the freed node has been marked empty, before the walk. *)
Lemma free_mark q (t1 := upd (tree s) q SLOT_EMPTY) (B := A ∖ {[q]}) :
  q ∈ A →
  (∀ x, sanc x q → x ∉ B) ∧
  (∀ x, inner x → ¬ sanc x q → good (block_ok B) t1 x) ∧
  (∀ x, sanc x q → good (block_ok B) (tree s) x) ∧
  (∀ t', (∀ x, inner x → good (block_ok B) t' x) →
         (∀ x, ¬ sanc x q → st t' x = st t1 x) → blocks_inv t' B).
Proof.
  intros Ha.
  assert (Hgood : ∀ x, inner x → x ≠ q → good (block_ok B) (tree s) x).
  { intros x Hx Hne. unfold good, B. rewrite <-block_ok_remove by done. by apply (bi_inner _ _ Hinv). }
  split_and!.
  - intros x Hx [HxA _]%elem_of_difference. by apply (alloc_antichain _ _ Hinv x q).
  - intros x Hx Hs. destruct (decide (x = q)) as [->|Hne]; [|apply good_upd_other; auto].
    apply good_upd_self; [done|]. apply block_ok_free; [apply removed|].
    pose proof (bi_inner _ _ Hinv q Hx) as Hg. unfold good, block_ok in Hg.
    rewrite decide_True in Hg by done. slot_case.
  - intros x Hx. apply Hgood; [by apply (sanc_inner x q); [apply (bi_node _ _ Hinv)|]|].
    intros ->. by apply sanc_irrefl in Hx.
  - intros t' H1 H2. split; [done| |intros x [? _]%elem_of_difference; by apply (bi_node _ _ Hinv)].
    intros x Hl. unfold block_leaf_ok. rewrite H2 by by apply leaf_not_sanc, (bi_node _ _ Hinv).
    destruct (decide (x = q)) as [->|Hne].
    + rewrite decide_False by apply removed. by apply st_upd_eq.
    + unfold t1. rewrite st_upd_ne by done. pose proof (bi_leaf _ _ Hinv x Hl) as Hlf.
      unfold block_leaf_ok in Hlf. erewrite decide_ext; [exact Hlf|].
      unfold B. rewrite elem_of_difference, elem_of_singleton. tauto.
Qed.

Lemma free_walk q :
  q ∈ A → free_safe (tree s) q = true →
  ∃ t', update_upstairs_free up_fuel (upd (tree s) q SLOT_EMPTY) (Zpos q) = Ret t' ∧
    blocks_inv t' (A ∖ {[q]}).
Proof.
  intros Ha Hsafe. pose proof (bi_node _ _ Hinv q Ha) as Hn.
  destruct (free_mark q Ha) as (Hanc & Hg1 & Hgood & Hend).
  pose proof (size_node q Hn) as Hsize.
  destruct q as [|b q] using path_ind.
  { eexists. split; [done|]. apply Hend; [|done]. intros x Hx. apply Hg1; cbn; tauto. }
  destruct (alloc_parent b q Ha) as (Hi & HqA & Hq). rewrite free_safe_child in Hsafe.
  assert (Hq1 : st (upd (tree s) (child b q) SLOT_EMPTY) q = st (tree s) q) by apply st_upd_ne, child_ne.
  destruct Hq as [Hq|Hq].
  - destruct (walk_merge (A ∖ {[child b q]}) (child b q) (upd (tree s) (child b q) SLOT_EMPTY) up_fuel)
      as (t' & Hup & H1 & H2); try done.
    + by apply st_upd_eq.
    + by apply was_upd.
    + intros b' q' [-> ->]%child_inj. by rewrite Hq1.
    + unfold up_fuel. lia.
    + exists t'. split; [done|]. by apply Hend.
  - rewrite Hq, Z.eqb_refl in Hsafe. change up_fuel with (S 16). rewrite up_free_step, Hq1, Hq, Z.eqb_refl by done.
    set (t1 := upd (tree s) (child b q) SLOT_EMPTY) in *.
    assert (Hw1 : was (block_ok (A ∖ {[child b q]})) t1 (child b q)) by by apply was_upd.
    pose proof (was_parent _ _ _ _ Hw1) as Hup1.
    setoid_rewrite sanc_child in Hg1. setoid_rewrite sanc_child in Hanc.
    setoid_rewrite sanc_child in Hgood. setoid_rewrite sanc_child in Hend.
    destruct (walk_split (A ∖ {[child b q]}) q (upd t1 q SLOT_SPLIT) 16) as (t' & Hup & H1 & H2).
    + by apply inner_node.
    + by apply st_upd_eq.
    + auto.
    + intros x Hx Hxq. destruct (decide (x = q)) as [->|Hne].
      * apply good_upd_self; [done|]. apply block_ok_free; [by apply Hanc; left|].
        destruct (free_children _ _ Hinv q Hi HqA) as (_ & _ & Hf). apply Hf in Hq as [? ?].
        destruct b; unfold t1; cbn [child]; rewrite st_upd_eq, st_upd_ne by done; slot_case.
      * apply good_upd_other; [done..|]. apply Hg1; tauto.
    + by apply was_upd.
    + intros b' q' ->. assert (sanc q' (child b' q')) by (apply sanc_child; by left).
      rewrite st_upd_ne by apply child_ne. unfold t1. rewrite st_upd_ne.
      * eapply good_full_parent; [by apply Hanc; right|by apply Hgood; right|done].
      * intros E. assert (Hlt : sanc q' (child b (child b' q'))) by (apply sanc_child; by right).
        rewrite E in Hlt. by apply sanc_irrefl in Hlt.
    + rewrite safe_up_upd by by left. unfold t1. rewrite safe_up_upd; [done|].
      right. apply sanc_child. by left.
    + rewrite size_child in Hsize. lia.
    + exists t'. split; [done|]. apply Hend; [done|]. intros x Hx. rewrite H2 by tauto.
      apply st_upd_ne. intros ->. tauto.
Qed.

Lemma buddy_kfree_blocks q :
  q ∈ A → free_safe (tree s) q = true → kend ≤ block_addr q →
  ∃ t', buddy_kfree me kend (block_addr q) (15 - plevel q) s = Ret (1, with_tree t' s) ∧
    blocks_inv t' (A ∖ {[q]}).
Proof.
  intros Ha Hsafe Hend. pose proof (bi_node _ _ Hinv q Ha) as Hn.
  pose proof (proj1 (node_level q) Hn). pose proof (plevel_nonneg q).
  pose proof (block_addr_bounds q Hn) as (_ & Hb & Hs). unfold PGSIZE in Hs.
  destruct (free_walk q Ha Hsafe) as (t' & Hup & Hinv'). exists t'. split; [|done].
  apply (buddy_kfree_run me kend s (15 - plevel q) (plevel q)) with (q := q); try done; try lia.
  - by apply get_vindex_block.
  - by apply (allocated_full _ _ Hinv).
Qed.
End free.

(** A page whose neighbour is free can be freed. *)
Lemma free_safe_sibling t A b q :
  blocks_inv t A → inner q → q ∉ A → leaf (child (negb b) q) → child (negb b) q ∉ A →
  free_safe t (child b q) = true.
Proof.
  intros Hi Hn Hq Hl Hs. rewrite free_safe_child.
  destruct (Z.eqb_spec (st t q) SLOT_FULL) as [E|]; [|done].
  pose proof (bi_leaf _ _ Hi _ Hl) as Hsib. unfold block_leaf_ok in Hsib. rewrite decide_False in Hsib by done.
  pose proof (bi_inner _ _ Hi q Hn) as Hg. unfold good, block_ok in Hg. rewrite decide_False in Hg by done.
  unfold SLOT_FULL, SLOT_EMPTY in *. destruct b; cbn [child negb] in Hsib; lia.
Qed.
