(* ===== verification/BuddyInit.v ===== *)
(** * Buddy allocator: initialisation

    [buddy_init] marks every node full and frees the pages behind the
    kernel one by one, in increasing order.  While it runs, nodes whose
    pages are only partly freed may be marked empty too early; the shape of
    the tree after the pages of [lo, n) have been freed is nevertheless
    determined well enough ([prefix_ok]) to end in the full invariant. *)

From S2P Require Import Prelude Spinlock Riscv Buddy BuddyIndex BuddyPages Kalloc BuddyBlocks BuddyAlloc.

(** ** The pages below a node: [pstart q, pstart q + psize q) *)

Definition psize (q : positive) : Z := 2 ^ (15 - plevel q).
Definition pstart (q : positive) : Z := Zpos q * psize q - 32768.

Lemma psize_child b q : inner q → psize q = 2 * psize (child b q).
Proof.
  intros Hi%inner_level. unfold psize. rewrite plevel_child, <-Z.pow_succ_r by lia. f_equal. lia.
Qed.

Lemma pstart_child b q :
  inner q → pstart (child b q) = pstart q + if b then psize (child b q) else 0.
Proof.
  intros Hi. unfold pstart. rewrite (psize_child b q Hi).
  destruct b; cbn [child]; [rewrite Pos2Z.inj_xI|rewrite Pos2Z.inj_xO]; lia.
Qed.

Lemma psize_pos q : node q → 1 ≤ psize q.
Proof.
  intros Hn%node_level. unfold psize. assert (0 < 2 ^ (15 - plevel q)); [|lia].
  apply Z.pow_pos_nonneg; lia.
Qed.

Lemma psize_leaf q : leaf q → psize q = 1 ∧ pstart q = Zpos q - 32768.
Proof.
  intros Hl%leaf_level. unfold pstart, psize. rewrite Hl.
  change (2 ^ (15 - 15)) with 1. lia.
Qed.

Lemma pstart_bounds q : node q → 0 ≤ pstart q ∧ pstart q + psize q ≤ 32768.
Proof.
  intros Hn. pose proof (psize_pos q Hn). apply node_level in Hn. pose proof (plevel_nonneg q).
  pose proof (plevel_bounds q) as Hb. rewrite Z.pow_add_r in Hb by lia. unfold pstart.
  assert (32768 = 2 ^ plevel q * psize q) as Heq.
  { unfold psize. rewrite <-Z.pow_add_r by lia. replace (plevel q + (15 - plevel q)) with 15 by lia. done. }
  nia.
Qed.

(** ** The shape of the tree during initialisation *)

(** State [s] of a node over the pages [a, b) once [lo, n) is freed. *)
Definition prefix_ok (lo n a b s : Z) : Prop :=
  (Z.min b n ≤ Z.max a lo → s = SLOT_FULL) ∧
  (Z.max a lo < Z.min b n → a < lo → s = SLOT_SPLIT) ∧
  (Z.max a lo < Z.min b n → lo ≤ a → b ≤ n → s = SLOT_EMPTY) ∧
  (Z.max a lo < Z.min b n → lo ≤ a → n < b → s = SLOT_EMPTY ∨ s = SLOT_SPLIT).

Definition prefix_node (lo n : Z) (t : gmap Z Z) (q : positive) : Prop :=
  prefix_ok lo n (pstart q) (pstart q + psize q) (st t q).

Ltac prefix := unfold prefix_ok, SLOT_EMPTY, SLOT_SPLIT, SLOT_FULL in *; lia.

(** A node that does not hold page [n]. *)
Lemma prefix_ok_other lo n a b s :
  ¬ (a ≤ n < b) → lo ≤ n → a < b → prefix_ok lo n a b s → prefix_ok lo (n + 1) a b s.
Proof. prefix. Qed.

(** The parent [a, a + 2k) of the node [c, c + k) that holds page [n] and
    of its sibling [d, d + k). *)
Definition halves (a k c d : Z) : Prop := 1 ≤ k ∧ (c = a ∧ d = a + k ∨ c = a + k ∧ d = a).

Lemma prefix_full lo n a k c d :
  halves a k c d → lo ≤ n → c ≤ n < c + k → prefix_ok lo n a (a + 2 * k) SLOT_FULL →
  prefix_ok lo (n + 1) a (a + 2 * k) SLOT_SPLIT.
Proof. intros [? [[-> ->]|[-> ->]]]; prefix. Qed.

Lemma prefix_merge lo n a k c d :
  halves a k c d → lo ≤ n → c ≤ n < c + k → prefix_ok lo (n + 1) d (d + k) SLOT_EMPTY →
  prefix_ok lo (n + 1) a (a + 2 * k) SLOT_EMPTY.
Proof. intros [? [[-> ->]|[-> ->]]]; prefix. Qed.

Lemma prefix_split lo n a k c d s :
  halves a k c d → lo ≤ n → c ≤ n < c + k → prefix_ok lo (n + 1) d (d + k) s → s ≠ SLOT_EMPTY →
  prefix_ok lo n a (a + 2 * k) SLOT_SPLIT → prefix_ok lo (n + 1) a (a + 2 * k) SLOT_SPLIT.
Proof. intros [? [[-> ->]|[-> ->]]]; prefix. Qed.

Lemma prefix_keep lo n a k c d s :
  halves a k c d → lo ≤ n → c ≤ n < c + k → prefix_ok lo n a (a + 2 * k) s → s ≠ SLOT_FULL → s ≠ SLOT_SPLIT →
  prefix_ok lo (n + 1) a (a + 2 * k) s.
Proof. intros [? [[-> ->]|[-> ->]]]; prefix. Qed.

(** An ancestor [a, b) of a node [a', b') that stays split. *)
Lemma prefix_above lo n a b a' b' s :
  lo ≤ n → a ≤ a' ≤ n → n < b' ≤ b → prefix_ok lo n a' b' SLOT_SPLIT →
  prefix_ok lo (n + 1) a' b' SLOT_SPLIT → prefix_ok lo n a b s → prefix_ok lo (n + 1) a b s.
Proof. prefix. Qed.

Definition holds (q : positive) (n : Z) : Prop := pstart q ≤ n < pstart q + psize q.

Lemma holds_parent b q n : inner q → holds (child b q) n → holds q n.
Proof.
  intros Hi. unfold holds. rewrite (psize_child b q Hi), (pstart_child b q Hi).
  pose proof (psize_pos (child b q) (proj2 (node_child b q) Hi)). destruct b; lia.
Qed.

Lemma holds_sib b q n : inner q → holds (child b q) n → ¬ holds (child (negb b) q) n.
Proof.
  intros Hi. unfold holds. rewrite !(pstart_child _ q Hi).
  pose proof (psize_child b q Hi). pose proof (psize_child (negb b) q Hi). destruct b; cbn [negb] in *; lia.
Qed.

Lemma halves_child b q :
  inner q → psize q = 2 * psize (child b q) ∧ psize (child (negb b) q) = psize (child b q) ∧
  halves (pstart q) (psize (child b q)) (pstart (child b q)) (pstart (child (negb b) q)).
Proof.
  intros Hi. pose proof (psize_child b q Hi). pose proof (psize_child (negb b) q Hi).
  pose proof (psize_pos _ (proj2 (node_child b q) Hi)). rewrite !(pstart_child _ q Hi).
  unfold halves. destruct b; cbn [negb] in *; lia.
Qed.

Lemma sanc_range x q :
  node q → sanc x q → pstart x ≤ pstart q ∧ pstart q + psize q ≤ pstart x + psize x.
Proof.
  induction q as [|b q IH] using path_ind; [cbn; tauto|]. intros Hi%node_child Hx.
  pose proof (psize_pos _ (proj2 (node_child b q) Hi)).
  assert (pstart q ≤ pstart (child b q) ∧ pstart (child b q) + psize (child b q) ≤ pstart q + psize q).
  { rewrite (psize_child b q Hi), (pstart_child b q Hi). destruct b; lia. }
  apply sanc_child in Hx as [->|Hx]; [done|]. specialize (IH (inner_node _ Hi) Hx). lia.
Qed.

(** The only nodes that hold a page are the ancestors of its leaf. *)
Lemma holds_below q p n : leaf p → node q → holds p n → holds q n → below q p.
Proof.
  intros Hl Hq Hp Hn. pose proof (proj1 (leaf_level p) Hl) as HL. pose proof Hq as Hlq%node_level.
  destruct (anc_at_level p (plevel q)) as (x & Hx & Hxl); [pose proof (plevel_nonneg q); lia|].
  assert (Hnp : node p) by (unfold node, leaf in *; lia).
  assert (holds x n) as Hhx.
  { unfold holds in *. destruct Hx as [->|Hx]; [done|]. pose proof (sanc_range x p Hnp Hx). lia. }
  assert (Hsz : psize x = psize q) by (unfold psize; congruence).
  pose proof (psize_pos q Hq). unfold holds, pstart in *. rewrite Hsz in *.
  assert (Zpos x = Zpos q) as [= ->] by nia. done.
Qed.

(** The walk up from a node [p] that holds page [n]. *)
Section walk.
Context (lo n : Z) (Hlo : 0 ≤ lo ≤ n).

Definition fresh_from (t : gmap Z Z) (p : positive) : Prop :=
  (∀ q, node q → ¬ sanc q p → prefix_node lo (n + 1) t q) ∧ (∀ q, sanc q p → prefix_node lo n t q).

Lemma fresh_up b q t s :
  fresh_from t (child b q) → 0 ≤ s < 4 → inner q →
  prefix_ok lo (n + 1) (pstart q) (pstart q + psize q) s → fresh_from (upd t q s) q.
Proof.
  intros [Hoth Hanc] Hs Hi Hok. setoid_rewrite sanc_child in Hoth. setoid_rewrite sanc_child in Hanc.
  split; intros x Hx; unfold prefix_node.
  - intros Hxq. destruct (decide (x = q)) as [->|]; [by rewrite st_upd_eq|].
    rewrite st_upd_ne by done. apply Hoth; tauto.
  - rewrite st_upd_ne; [by apply Hanc; right|]. intros ->. by apply sanc_irrefl in Hx.
Qed.

Lemma fresh_keep b q t :
  fresh_from t (child b q) → prefix_node lo (n + 1) t q → fresh_from t q.
Proof.
  intros [Hoth Hanc] Hok. setoid_rewrite sanc_child in Hoth. setoid_rewrite sanc_child in Hanc.
  split; [intros x Hx Hxq|auto]. destruct (decide (x = q)) as [->|]; [done|]. apply Hoth; tauto.
Qed.

Lemma fresh_stop b q t x :
  inner q → holds q n → fresh_from t (child b q) → st t q = SLOT_SPLIT → prefix_node lo (n + 1) t q →
  node x → prefix_node lo (n + 1) t x.
Proof.
  intros Hi Hh [Hoth Hanc] E Hok Hx. setoid_rewrite sanc_child in Hoth. setoid_rewrite sanc_child in Hanc.
  destruct (decide (x = q)) as [->|Hne]; [done|].
  destruct (decide (sanc x q)) as [Hs|Hs]; [|apply Hoth; tauto].
  pose proof (sanc_range x q (inner_node _ Hi) Hs). pose proof (Hanc q (or_introl eq_refl)) as Hq.
  unfold prefix_node, holds in *. rewrite E in *.
  eapply prefix_above; [| | |exact Hq|exact Hok|by apply Hanc; right]; lia.
Qed.

Lemma walk_prefix p : ∀ t fuel,
  node p → holds p n → fresh_from t p → (Pos.size_nat p ≤ fuel)%nat →
  ∃ t', update_upstairs_free fuel t (Zpos p) = Ret t' ∧ (∀ q, node q → prefix_node lo (n + 1) t' q).
Proof.
  induction p as [|b q IH] using path_ind; intros t fuel Hn Hh Hfr Hf;
    rewrite ?size_child in Hf; (destruct fuel as [|f]; [cbn in Hf; lia|]).
  { exists t. split; [done|]. intros q Hq. apply Hfr; [done|]. cbn. tauto. }
  pose proof Hn as Hi%node_child. rewrite up_free_step by done.
  pose proof (holds_parent b q n Hi Hh) as Hhq. pose proof (inner_node _ Hi) as Hnq.
  destruct (halves_child b q Hi) as (Hsz & Hsz' & Hhv). assert (lo ≤ n) as Hln by lia.
  assert (Hsib : prefix_node lo (n + 1) t (child (negb b) q)).
  { apply Hfr; [by apply node_child|]. intros [E|Hs]%sanc_child; [by apply child_ne in E|].
    apply sanc_lt in Hs. destruct b; cbn in Hs; lia. }
  assert (Hq : prefix_node lo n t q) by (apply Hfr, sanc_child; by left).
  assert (Hset : ∀ s, 0 ≤ s < 4 → prefix_ok lo (n + 1) (pstart q) (pstart q + 2 * psize (child b q)) s →
    ∃ t', update_upstairs_free f (upd t q s) (Zpos q) = Ret t' ∧ (∀ x, node x → prefix_node lo (n + 1) t' x)).
  { intros s Hs Hok. rewrite <-Hsz in Hok. apply IH; [done..| |lia]. by eapply fresh_up. }
  unfold prefix_node in Hsib, Hq. rewrite Hsz in Hq. rewrite Hsz' in Hsib.
  destruct (Z.eqb_spec (st t q) SLOT_FULL) as [E|E]; [|destruct (Z.eqb_spec (st t q) SLOT_SPLIT) as [E'|E']].
  - rewrite E in Hq. apply Hset; [done|]. eapply prefix_full; done.
  - rewrite E' in Hq. destruct (Z.eqb_spec (st t (child (negb b) q)) SLOT_EMPTY) as [Es|Es].
    + rewrite Es in Hsib. apply Hset; [done|]. eapply prefix_merge; done.
    + exists t. split; [done|]. intros x. eapply fresh_stop; [done..|].
      unfold prefix_node. rewrite E', Hsz. eapply prefix_split; done.
  - apply IH; [done..| |lia]. eapply fresh_keep; [done|].
    unfold prefix_node. rewrite Hsz. eapply prefix_keep; done.
Qed.
End walk.

(** ** From the filled tree to the full invariant *)

Lemma filled_prefix lo t :
  0 ≤ lo → (∀ j, 0 ≤ j < TREE_SIZE → byte_at t j = 255) → ∀ q, node q → prefix_node lo lo t q.
Proof.
  intros Hlo Ht q Hq. pose proof (psize_pos q Hq). unfold prefix_node, st.
  rewrite (filled_state t (Zpos q)) by (done || unfold node in Hq; lia). prefix.
Qed.

(** The pages below page [lo]: the leaves [buddy_init] never frees. *)
Definition reserved (lo : Z) : gset positive := list_to_set (Z.to_pos <$> seqZ 32768 lo).

Lemma elem_of_reserved lo q : q ∈ reserved lo ↔ 32768 ≤ Zpos q < 32768 + lo.
Proof.
  unfold reserved. rewrite elem_of_list_to_set, list_elem_of_fmap. setoid_rewrite elem_of_seqZ. split.
  - intros (i & -> & Hi). rewrite Z2Pos.id; lia.
  - intros Hq. exists (Zpos q). split; [done|lia].
Qed.

#[global] Opaque reserved.

(** Once all pages are freed the state of a node is a function of its range. *)
Lemma prefix_end lo a b s :
  0 ≤ lo → a < b ≤ 32768 → prefix_ok lo 32768 a b s →
  s = if b <=? lo then SLOT_FULL else if a <? lo then SLOT_SPLIT else SLOT_EMPTY.
Proof. intros ? ? ?. zcase; zcase; prefix. Qed.

Lemma prefix_blocks lo t :
  0 ≤ lo ≤ 32768 → (∀ q, node q → prefix_node lo 32768 t q) → blocks_inv t (reserved lo).
Proof.
  intros Hlo Ht.
  assert (Hst : ∀ q, node q → st t q = if pstart q + psize q <=? lo then SLOT_FULL
                              else if pstart q <? lo then SLOT_SPLIT else SLOT_EMPTY).
  { intros q Hq. pose proof (pstart_bounds q Hq). pose proof (psize_pos q Hq).
    apply prefix_end; [lia..|by apply Ht]. }
  split.
  - intros q Hi. unfold good, block_ok. rewrite decide_False.
    2: { rewrite elem_of_reserved. unfold inner in Hi. lia. }
    pose proof (psize_pos _ (proj2 (node_child false q) Hi)).
    pose proof (psize_child false q Hi) as H1. pose proof (psize_child true q Hi) as H2.
    pose proof (pstart_child false q Hi) as H3. pose proof (pstart_child true q Hi) as H4.
    rewrite (Hst q) by by apply inner_node. rewrite (Hst (q~0)%positive), (Hst (q~1)%positive).
    2: by apply (node_child true). 2: by apply (node_child false).
    cbn [child] in *. clear Hst Ht. unfold slot, SLOT_FULL, SLOT_SPLIT, SLOT_EMPTY.
    destruct (Z.leb_spec (pstart q + psize q) lo), (Z.leb_spec (pstart (q~0) + psize (q~0)) lo),
      (Z.leb_spec (pstart (q~1) + psize (q~1)) lo), (Z.ltb_spec (pstart q) lo),
      (Z.ltb_spec (pstart (q~0)) lo), (Z.ltb_spec (pstart (q~1)) lo); lia.
  - intros q Hl. unfold block_leaf_ok. destruct (psize_leaf q Hl) as [H1 H2].
    rewrite Hst by (unfold node, leaf in *; lia). rewrite H1, H2. unfold leaf in Hl.
    destruct (decide _) as [Hr|Hr]; rewrite elem_of_reserved in Hr;
      [rewrite (proj2 (Z.leb_le _ _)) by lia; done|].
    rewrite (proj2 (Z.leb_gt _ _)), (proj2 (Z.ltb_ge _ _)) by lia. done.
  - intros q Hq%elem_of_reserved. unfold node. lia.
Qed.

(** ** The loop of [buddy_init] *)

Section init.
Context (me : nat) (kend : Z).
Hypothesis kend_ram : KERNBASE ≤ kend.

Definition page_leaf (n : Z) : positive := Z.to_pos (32768 + n).

Lemma page_leaf_pos n : 0 ≤ n → Zpos (page_leaf n) = 32768 + n.
Proof. intros. apply Z2Pos.id. lia. Qed.

Lemma page_leaf_addr n :
  0 ≤ n < 32768 → leaf (page_leaf n) ∧ get_vindex (page_addr n) 15 = Zpos (page_leaf n) ∧
  holds (page_leaf n) n.
Proof.
  intros Hn. assert (Hl : leaf (page_leaf n)) by (unfold leaf; rewrite page_leaf_pos; lia).
  split_and!; [done| |].
  - destruct (page_of_addr (page_addr n)) as (q & Hlq & Hv & Ha).
    { unfold page_addr, PGSIZE, PHYSTOP. lia. }
    rewrite PGROUNDDOWN_page in Ha. rewrite Hv. f_equal. apply block_addr_leaf_inj; [done..|].
    rewrite Ha, block_addr_leaf by done. rewrite page_leaf_pos by lia. f_equal. lia.
  - unfold holds. destruct (psize_leaf _ Hl) as [-> ->]. rewrite page_leaf_pos; lia.
Qed.

Lemma buddy_kfree_prefix lo n s :
  0 ≤ lo ≤ n → n < 32768 → kend ≤ page_addr n → unlocked (buddy_lock s) →
  (∀ q, node q → prefix_node lo n (tree s) q) →
  ∃ t', buddy_kfree me kend (page_addr n) 0 s = Ret (1, with_tree t' s) ∧
    (∀ q, node q → prefix_node lo (n + 1) t' q).
Proof.
  intros Hlo Hn Hend Hlk Hp. destruct (page_leaf_addr n) as (Hl & Hv & Hh); [lia|].
  assert (Hnd : node (page_leaf n)) by (unfold node, leaf in *; lia).
  destruct (walk_prefix lo n Hlo (page_leaf n) (upd (tree s) (page_leaf n) SLOT_EMPTY) up_fuel)
    as (t' & Hup & Ht'); [done|done| | |].
  - destruct (psize_leaf _ Hl) as [Hsz Hst0]. split.
    + intros q Hq Hs. unfold prefix_node. destruct (decide (q = page_leaf n)) as [->|Hne].
      * rewrite st_upd_eq by done. unfold holds in Hh. rewrite Hsz, Hst0 in *. prefix.
      * rewrite st_upd_ne by done. pose proof (psize_pos q Hq).
        apply prefix_ok_other; [|lia|lia|by apply Hp]. intros Hin.
        destruct (holds_below q (page_leaf n) n) as [?|?]; done.
    + intros q Hq. unfold prefix_node. rewrite st_upd_ne; [|intros <-; by apply sanc_irrefl in Hq].
      apply Hp. by apply inner_node, (sanc_inner _ (page_leaf n)).
  - pose proof (size_node _ Hnd). unfold up_fuel. lia.
  - exists t'. split; [|done]. apply (buddy_kfree_run me kend s 0 15) with (q := page_leaf n); try done.
    + unfold page_addr, PGSIZE, PHYSTOP in *. lia.
    + pose proof (Hp _ Hnd) as H. unfold prefix_node, holds in *. destruct (psize_leaf _ Hl) as [Hsz Hst0].
      rewrite Hsz, Hst0 in *. prefix.
Qed.

Lemma free_pages_prefix lo k : ∀ fuel n s,
  k = Z.to_nat (32768 - n) → (k < fuel)%nat → 0 ≤ lo ≤ n → n ≤ 32768 → kend ≤ page_addr n →
  unlocked (buddy_lock s) → (∀ q, node q → prefix_node lo n (tree s) q) →
  ∃ t', free_pages me kend fuel (page_addr n) s = Ret (with_tree t' s) ∧
    (∀ q, node q → prefix_node lo 32768 t' q).
Proof.
  induction k as [|k IH]; intros fuel n s Hk Hf Hlo Hn Hend Hlk Hp; (destruct fuel as [|f]; [lia|]);
    cbn [free_pages]; (rewrite u64_small by (pose proof (page_addr_bounds n); unfold PGSIZE, PHYSTOP, KERNBASE in *; lia));
    replace (page_addr n + PGSIZE) with (page_addr (n + 1)) by (unfold page_addr; lia).
  - assert (n = 32768) as -> by lia. exists (tree s).
    rewrite (proj2 (Z.leb_gt _ _)) by (unfold page_addr, PGSIZE, PHYSTOP, KERNBASE; lia).
    split; [by destruct s|done].
  - rewrite (proj2 (Z.leb_le _ _)) by (unfold page_addr, PGSIZE, PHYSTOP, KERNBASE; lia).
    destruct (buddy_kfree_prefix lo n s) as (t1 & -> & Hp1); [lia|lia|done..|].
    rewrite res_bind_Ret. cbv beta iota.
    destruct (IH f (n + 1) (with_tree t1 s)) as (t' & -> & Hp'); [lia|lia|lia|lia| |done..|by eauto].
    unfold page_addr, PGSIZE in *. lia.
Qed.

(** [buddy_init] from any state: the pages before the end of the kernel are
    handed out for ever, everything else is free. *)
Lemma buddy_init_blocks s :
  kend ≤ PHYSTOP →
  ∃ s', buddy_init me kend s = Ret (1, s') ∧ blocks_inv (tree s') (reserved (first_page kend)) ∧
    unlocked (buddy_lock s').
Proof.
  intros Hk. unfold buddy_init. set (s0 := with_lock (initlock "buddy_lock") s).
  destruct (fill_tree_spec (Z.to_nat TREE_SIZE) 0 (tree s0)) as (t1 & Hfill & Ht1); [done|by rewrite Z2Nat.id|].
  rewrite Z2Nat.id in Ht1 by done. cbv zeta. rewrite Hfill, res_bind_Ret. clear Hfill.
  destruct (first_page_addr kend kend_ram Hk) as [-> Hfp].
  destruct (free_pages_prefix (first_page kend) (Z.to_nat (32768 - first_page kend)) init_fuel
    (first_page kend) (with_tree t1 s0)) as (t' & -> & Hp).
  { done. } { by apply init_fuel_lt. } { lia. } { lia. } { by apply kend_first_page. } { done. }
  { apply filled_prefix; [lia|]. intros j Hj.
    rewrite Ht1, (proj2 (Z.leb_le _ _)), (proj2 (Z.ltb_lt _ _)) by lia. done. }
  rewrite res_bind_Ret. eexists. split_and!; [done|by apply prefix_blocks|done].
Qed.
End init.
