(* ===== verification/BlockAlloc.v ===== *)
(** * Buddy allocator: the blocks in use, and the block allocator interface

    A client's view of the allocator: the set of live blocks, each an
    address and an order.  [buddy_step] lets a client allocate blocks of any
    order and free live blocks; [reachable] are the states that such clients
    reach from [buddy_init]. *)

From S2P Require Import Prelude Spinlock Riscv Buddy BuddyIndex BuddyPages Kalloc BuddyBlocks BuddyAlloc BuddyInit.

(** The bytes of a block. *)
Definition in_live (b : Z * Z) (x : Z) : Prop := b.1 ≤ x < b.1 + PGSIZE * 2 ^ b.2.

Section live.
Context (me : nat) (kend : Z).

(** The node [buddy_kfree] looks up for a block. *)
Definition block_node (b : Z * Z) : positive := Z.to_pos (get_vindex b.1 (BUDDY_TREE_LEVEL - b.2)).

Inductive buddy_step : mem_tree * gset (Z * Z) → mem_tree * gset (Z * Z) → Prop :=
  | step_alloc s live order a s' :
      0 ≤ order → buddy_kalloc me order s = Ret (a, s') → a ≠ 0 →
      buddy_step (s, live) (s', {[(a, order)]} ∪ live)
  | step_alloc_fail s live order s' :
      0 ≤ order → buddy_kalloc me order s = Ret (0, s') → buddy_step (s, live) (s', live)
  | step_free s live b r s' :
      b ∈ live → free_safe (tree s) (block_node b) = true →
      buddy_kfree me kend b.1 b.2 s = Ret (r, s') →
      buddy_step (s, live) (s', live ∖ {[b]}).

Inductive reachable : mem_tree * gset (Z * Z) → Prop :=
  | reach_init s0 s r : buddy_init me kend s0 = Ret (r, s) → reachable (s, ∅)
  | reach_step c c' : reachable c → buddy_step c c' → reachable c'.

(** The block of a node, as the client sees it. *)
Definition node_block (q : positive) : Z * Z := (block_addr q, 15 - plevel q).

Lemma in_node_block q x : node q → in_live (node_block q) x ↔ in_block q x.
Proof.
  intros Hq%node_level. pose proof (plevel_nonneg q). unfold in_live, in_block, block_size, node_block. cbn [fst snd].
  replace (27 - plevel q) with (12 + (15 - plevel q)) by lia. by rewrite Z.pow_add_r by lia.
Qed.

(** The [i]-th block of an order. *)
Lemma index_node order i :
  0 ≤ order ≤ 15 → 0 ≤ i < 2 ^ (15 - order) →
  ∃ q, plevel q = 15 - order ∧ node q ∧ node_block q = (KERNBASE + i * (PGSIZE * 2 ^ order), order).
Proof.
  intros Ho Hi. exists (Z.to_pos (2 ^ (15 - order) + i)).
  assert (Hq : Zpos (Z.to_pos (2 ^ (15 - order) + i)) = 2 ^ (15 - order) + i) by (apply Z2Pos.id; lia).
  assert (Hl : plevel (Z.to_pos (2 ^ (15 - order) + i)) = 15 - order).
  { unfold plevel. rewrite Hq. apply Z.log2_unique; [lia|]. rewrite Z.pow_succ_r; lia. }
  split_and!; [done|apply node_level; lia|]. unfold node_block, block_addr, block_size. rewrite Hl, Hq.
  replace (27 - (15 - order)) with (12 + order) by lia. rewrite Z.pow_add_r by lia.
  change (2 ^ 12) with PGSIZE. f_equal; lia.
Qed.

Lemma leaf_block q x :
  leaf q → in_block q x → page_addr (Zpos q - 32768) ≤ x < page_addr (Zpos q - 32768) + PGSIZE.
Proof.
  intros Hl. unfold in_block, block_size. rewrite block_addr_leaf by done.
  by rewrite (proj1 (leaf_level q) Hl).
Qed.

Lemma node_block_node q : node q → block_node (node_block q) = q.
Proof.
  intros Hq. unfold block_node, node_block, BUDDY_TREE_LEVEL. cbn [fst snd].
  replace (15 - (15 - plevel q)) with (plevel q) by lia. by rewrite get_vindex_block.
Qed.

Lemma node_block_inj p q : node p → node q → node_block p = node_block q → p = q.
Proof. intros Hp Hq E. rewrite <-(node_block_node p), <-(node_block_node q) by done. by rewrite E. Qed.

(** [live] is what has been handed out, except for the reserved pages. *)
Record live_inv (s : mem_tree) (live : gset (Z * Z)) (A : gset positive) : Prop := {
  li_blocks : blocks_inv (tree s) A;
  li_lock : unlocked (buddy_lock s);
  li_reserved : reserved (first_page kend) ⊆ A;
  li_root : 1%positive ∉ A;
  li_live : ∀ b, b ∈ live ↔ ∃ q, q ∈ A ∧ (q ∉ reserved (first_page kend)) ∧ b = node_block q;
}.

Lemma live_node s live A b : live_inv s live A → b ∈ live →
  ∃ q, q ∈ A ∧ node q ∧ (q ∉ reserved (first_page kend)) ∧ b = node_block q.
Proof.
  intros Hi (q & Hq & Hr & ->)%(li_live _ _ _ Hi). exists q. split_and!; try done.
  by apply (bi_node _ _ (li_blocks _ _ _ Hi)).
Qed.

(** Allocated nodes are pairwise disjoint. *)
Lemma alloc_disjoint t A p q : blocks_inv t A → p ∈ A → q ∈ A → p ≠ q → disjoint_blocks p q.
Proof.
  intros Hi Hp Hq Hne. pose proof (bi_node _ _ Hi p Hp). pose proof (bi_node _ _ Hi q Hq).
  apply not_nested_disjoint; try done; intros [?|Hs]; try congruence.
  - by apply (alloc_antichain _ _ Hi p q).
  - by apply (alloc_antichain _ _ Hi q p).
Qed.

Hypothesis kend_ram : KERNBASE ≤ kend ≤ PHYSTOP.

(** A live block starts behind the kernel. *)
Lemma live_above s live A q :
  live_inv s live A → q ∈ A → q ∉ reserved (first_page kend) → kend ≤ block_addr q.
Proof.
  intros Hi Hq Hr. pose proof (bi_node _ _ (li_blocks _ _ _ Hi) q Hq) as Hn.
  pose proof (block_addr_bounds q Hn) as (Hb1 & Hb2 & Hb3).
  destruct (decide (kend ≤ block_addr q)) as [|Hlt]; [done|exfalso].
  destruct (page_of_addr (block_addr q)) as (p & Hl & Hv & Hp).
  { unfold PGSIZE in Hb3. lia. }
  pose proof (PGROUNDDOWN_div (block_addr q)) as Hd. unfold PGSIZE in *.
  pose proof (Z.div_mod (block_addr q) 4096). pose proof (Z.mod_pos_bound (block_addr q) 4096).
  assert (Hpr : p ∈ reserved (first_page kend)).
  { apply elem_of_reserved. unfold leaf in Hl. split; [lia|].
    pose proof (kend_first_page kend (proj1 kend_ram) (proj2 kend_ram)) as Hk.
    rewrite block_addr_leaf in Hp by done. unfold page_addr, PGSIZE in *. lia. }
  assert (p ≠ q) as Hne by congruence. apply (li_reserved _ _ _ Hi) in Hpr.
  apply (alloc_disjoint _ _ p q (li_blocks _ _ _ Hi) Hpr Hq Hne (block_addr q)).
  split; [|by apply block_addr_in]. unfold in_block.
  unfold block_size. rewrite (proj1 (leaf_level p) Hl). change (2 ^ (27 - 15)) with 4096. lia.
Qed.

(** An address of an allocated node is reserved or in a live block. *)
Lemma alloc_or_reserved s live A a x :
  live_inv s live A → a ∈ A → in_block a x → x < PGROUNDUP kend ∨ ∃ b, b ∈ live ∧ in_live b x.
Proof.
  intros Hi Ha Hx. destruct (decide (a ∈ reserved (first_page kend))) as [Hr|Hr].
  - left. apply elem_of_reserved in Hr.
    destruct (first_page_addr kend (proj1 kend_ram) (proj2 kend_ram)) as [-> Hfp].
    apply leaf_block in Hx; [|unfold leaf; lia]. unfold page_addr, PGSIZE in *. lia.
  - right. exists (node_block a). pose proof (bi_node _ _ (li_blocks _ _ _ Hi) a Ha).
    split; [|by apply in_node_block]. apply (li_live _ _ _ Hi). by exists a.
Qed.

(** ** The calls, on live blocks *)

(** Order 15 is the whole memory, at level 0, which [buddy_kalloc] takes for
    the failure of the search. *)
Lemma buddy_kalloc_max s A :
  blocks_inv (tree s) A → unlocked (buddy_lock s) → buddy_kalloc me 15 s = Ret (0, s).
Proof.
  intros Hi Hlk. destruct (locate_blocks (tree s) A 0 Hi) as [(q & _ & Hl)|(_ & [Hl|(v & _ & _ & Hl)])]; [lia|..].
  all: by eapply (buddy_kalloc_none me s 15 0).
Qed.

Lemma live_alloc s live A order :
  live_inv s live A → 0 ≤ order ≤ 15 →
  (∃ q s', buddy_kalloc me order s = Ret (block_addr q, s') ∧ order = 15 - plevel q ∧ node q ∧
     live_inv s' ({[node_block q]} ∪ live) ({[q]} ∪ A) ∧ ∀ a, a ∈ A → disjoint_blocks a q) ∨
  buddy_kalloc me order s = Ret (0, s).
Proof.
  intros [Hi Hlk Hr Hroot Hlive] Ho. destruct (decide (order = 15)) as [->|].
  { right. by eapply buddy_kalloc_max. }
  destruct (buddy_kalloc_blocks me s A Hi Hlk order) as [(q & t' & Hl & Hk & Hi' & Hd)|[Hk _]]; [lia| |by right].
  left. exists q, (with_tree t' s). assert (node q) as Hn by (apply node_level; lia).
  assert (HqA : q ∉ A).
  { intros HA. apply (Hd q HA (block_addr q)). by split; apply block_addr_in. }
  split_and!; [done|lia|done| |done]. split; [done|done| | |].
  - intros x Hx. apply elem_of_union. right. by apply Hr.
  - rewrite elem_of_union, elem_of_singleton. intros [<-|?]; [|done]. change (plevel 1) with 0 in Hl. lia.
  - intros b. rewrite elem_of_union, elem_of_singleton, Hlive. setoid_rewrite elem_of_union.
    setoid_rewrite elem_of_singleton. split.
    + intros [->|(x & Hx & Hxr & ->)]; [exists q|exists x]; split_and!; auto.
    + intros (x & [->|Hx] & Hxr & ->); [by left|right; by exists x].
Qed.

Lemma live_free s live A b :
  live_inv s live A → b ∈ live → free_safe (tree s) (block_node b) = true →
  ∃ q s', q ∈ A ∧ b = node_block q ∧ buddy_kfree me kend b.1 b.2 s = Ret (1, s') ∧
    live_inv s' (live ∖ {[b]}) (A ∖ {[q]}).
Proof.
  intros Hinv Hb Hsafe. destruct (live_node _ _ _ _ Hinv Hb) as (q & HqA & Hn & Hqr & ->).
  pose proof (live_above _ _ _ _ Hinv HqA Hqr) as Hend. rewrite node_block_node in Hsafe by done.
  destruct Hinv as [Hi Hlk Hr Hroot Hlive].
  destruct (buddy_kfree_blocks me kend s A Hi Hlk q) as (t' & Hk & Hi'); [done..|].
  exists q, (with_tree t' s). split_and!; [done|done|done|]. split; [done|done| | |].
  - intros x Hx. rewrite elem_of_difference, elem_of_singleton. split; [by apply Hr|]. by intros ->.
  - rewrite elem_of_difference. tauto.
  - intros b. rewrite elem_of_difference, elem_of_singleton, Hlive.
    setoid_rewrite elem_of_difference. setoid_rewrite elem_of_singleton. split.
    + intros [(x & Hx & Hxr & ->) Hne]. exists x. split_and!; [done| |done|done]. by intros ->.
    + intros (x & [Hx Hne] & Hxr & ->). split; [by exists x|]. intros E.
      apply Hne, node_block_inj; [|done|done]. by apply (bi_node _ _ Hi).
Qed.

(** What was just freed can be allocated again. *)
Lemma live_realloc s live A q s' live' :
  live_inv s live A → q ∈ A → live_inv s' live' (A ∖ {[q]}) →
  ∃ a s'', buddy_kalloc me (15 - plevel q) s' = Ret (a, s'') ∧ a ≠ 0.
Proof.
  intros Hi HqA Hi'. pose proof (bi_node _ _ (li_blocks _ _ _ Hi) q HqA) as Hn.
  pose proof (proj1 (node_level q) Hn). pose proof (plevel_nonneg q).
  assert (plevel q ≠ 0).
  { intros E. apply (li_root _ _ _ Hi). pose proof (plevel_bounds q) as Hb. rewrite E in Hb.
    change (2 ^ 0) with 1 in Hb. change (2 ^ (0 + 1)) with 2 in Hb. by replace 1%positive with q by lia. }
  destruct (buddy_kalloc_blocks me s' _ (li_blocks _ _ _ Hi') (li_lock _ _ _ Hi') (15 - plevel q))
    as [(p & t' & Hl & Hk & _)|[_ Hall]]; [lia|..].
  - eexists _, _. split; [exact Hk|]. assert (node p) as Hp by (apply node_level; lia).
    pose proof (block_addr_bounds p Hp) as [Hb _]. unfold KERNBASE in Hb. lia.
  - destruct (Hall q) as (a & x & Ha & Hxa & Hxq); [lia|].
    apply elem_of_difference in Ha as [Ha Hne]. rewrite elem_of_singleton in Hne.
    by destruct (alloc_disjoint _ _ a q (li_blocks _ _ _ Hi) Ha HqA Hne x).
Qed.

Lemma buddy_kalloc_order order s r : buddy_kalloc me order s = Ret r → order ≤ 15.
Proof.
  unfold buddy_kalloc. destruct (Z.ltb_spec BUDDY_TREE_LEVEL order) as [|Ho]; [discriminate|]. intros _. exact Ho.
Qed.

Lemma step_inv s live s' live' A :
  live_inv s live A → buddy_step (s, live) (s', live') → ∃ A', live_inv s' live' A'.
Proof.
  intros Hinv Hs.
  inversion Hs as [? ? order a ? Ho Hk Ha|? ? order ? Ho Hk|? ? b r ? Hb Hsafe Hk]; subst; clear Hs.
  - pose proof (buddy_kalloc_order _ _ _ Hk).
    destruct (live_alloc s live A order Hinv) as [(q & s3 & Hk' & -> & Hn & Hinv' & _)|Hk']; [lia|..];
      rewrite Hk in Hk'; clear Hk; [|congruence]. injection Hk' as -> ->. by exists ({[q]} ∪ A).
  - pose proof (buddy_kalloc_order _ _ _ Hk).
    destruct (live_alloc s live' A order Hinv) as [(q & s3 & Hk' & -> & Hn & Hinv' & _)|Hk']; [lia|..];
      rewrite Hk in Hk'; clear Hk.
    + injection Hk' as E _. pose proof (block_addr_bounds q Hn) as [Hb _]. unfold KERNBASE in Hb. lia.
    + injection Hk' as ->. by exists A.
  - destruct (live_free s live A b) as (q & s3 & _ & -> & Hk' & Hinv'); [done..|].
    rewrite Hk in Hk'. clear Hk. injection Hk' as -> ->. by exists (A ∖ {[q]}).
Qed.

Lemma init_inv s0 s r : buddy_init me kend s0 = Ret (r, s) → live_inv s ∅ (reserved (first_page kend)).
Proof.
  intros Hinit. destruct (buddy_init_blocks me kend (proj1 kend_ram) s0) as (s1 & Hi & Hb & Hlk); [lia|].
  rewrite Hinit in Hi. clear Hinit. injection Hi as -> ->. split; [done..| |].
  { rewrite elem_of_reserved. lia. }
  intros b. split; [by intros ?%elem_of_empty|]. by intros (q & ? & ? & ?).
Qed.

Lemma reachable_inv c : reachable c → ∃ A, live_inv c.1 c.2 A.
Proof.
  induction 1 as [s0 s r Hinit|[s live] [s' live'] _ [A IH] Hs].
  - eexists. by eapply init_inv.
  - by eapply step_inv.
Qed.
End live.

(** * The block allocator interface

    What the buddy allocator promises to its clients (the slab allocator
    and, through [kalloc], everything that uses pages): [block_state s L]
    says that in state [s] exactly the blocks [L] (address and order) are
    handed out.  The clients are verified against the class; the instance
    at the end is kernel/buddy_kalloc.c. *)

Definition block_bytes (o : Z) : Z := PGSIZE * 2 ^ o.

Lemma block_bytes_pos o : 0 ≤ o → PGSIZE ≤ block_bytes o.
Proof. intros. unfold block_bytes, PGSIZE. pose proof (Z.pow_pos_nonneg 2 o). lia. Qed.

(** Two blocks share no byte. *)
Definition apart (b b' : Z * Z) : Prop :=
  b.1 + block_bytes b.2 ≤ b'.1 ∨ b'.1 + block_bytes b'.2 ≤ b.1.

#[export] Instance apart_sym : Symmetric apart.
Proof. intros b b'. unfold apart. tauto. Qed.

(** A block behind the kernel that overlaps none of [L]. *)
Definition new_block (kend : Z) (L : gset (Z * Z)) (b : Z * Z) : Prop :=
  kend ≤ b.1 ∧ b.1 + block_bytes b.2 ≤ PHYSTOP ∧ b.1 mod PGSIZE = 0 ∧ ∀ b', b' ∈ L → apart b b'.

Class BlockAllocator (B : Type) := {
  block_alloc : Z → B → res (Z * B);
  block_free : Z → Z → B → res (Z * B);
  kernel_end : Z;
  block_state : B → gset (Z * Z) → Prop;
  can_free : B → Z * Z → Prop;
  kernel_end_ram : ∀ s L, block_state s L → KERNBASE ≤ kernel_end ≤ PHYSTOP;
  block_alloc_law : ∀ s L o, block_state s L → 0 ≤ o ≤ 15 →
    block_alloc o s = Ret (0, s) ∨
    ∃ a s', block_alloc o s = Ret (a, s') ∧ block_state s' ({[(a, o)]} ∪ L) ∧
      new_block kernel_end L (a, o);
  block_alloc_big : ∀ s o, 15 < o → block_alloc o s = Panic "Order too big";
  block_free_law : ∀ s L b, block_state s L → b ∈ L → can_free s b →
    ∃ s', block_free b.1 b.2 s = Ret (1, s') ∧ block_state s' (L ∖ {[b]});
}.

(** ** The buddy allocator *)

Lemma in_live_apart b b' :
  0 ≤ b.2 → 0 ≤ b'.2 → (∀ x, ¬ (in_live b x ∧ in_live b' x)) → apart b b'.
Proof.
  intros Hb Hb' H. unfold apart, in_live in *. fold (block_bytes b.2) (block_bytes b'.2) in H.
  pose proof (block_bytes_pos b.2 Hb). pose proof (block_bytes_pos b'.2 Hb'). unfold PGSIZE in *.
  specialize (H (Z.max b.1 b'.1)). lia.
Qed.

Lemma block_addr_page q : node q → block_addr q mod PGSIZE = 0.
Proof.
  intros Hq%node_level. pose proof (plevel_nonneg q). unfold block_addr, block_size.
  replace (27 - plevel q) with (12 + (15 - plevel q)) by lia. rewrite Z.pow_add_r by lia.
  change (2 ^ 12) with PGSIZE. change KERNBASE with (524288 * PGSIZE).
  replace (524288 * PGSIZE + (Zpos q - 2 ^ plevel q) * (PGSIZE * 2 ^ (15 - plevel q)))
    with ((524288 + (Zpos q - 2 ^ plevel q) * 2 ^ (15 - plevel q)) * PGSIZE) by lia.
  by apply Z.mod_mul.
Qed.

Lemma block_size_bytes q : node q → block_size q = block_bytes (15 - plevel q).
Proof.
  intros Hq%node_level. pose proof (plevel_nonneg q). unfold block_size, block_bytes.
  replace (27 - plevel q) with (12 + (15 - plevel q)) by lia. by rewrite Z.pow_add_r by lia.
Qed.

Section buddy.
Context (me : nat) (kend : Z).

Definition buddy_state (s : mem_tree) (L : gset (Z * Z)) : Prop :=
  KERNBASE ≤ kend ≤ PHYSTOP ∧ ∃ A, live_inv kend s L A.

Lemma buddy_alloc_law s L o :
  buddy_state s L → 0 ≤ o ≤ 15 →
  buddy_kalloc me o s = Ret (0, s) ∨
  ∃ a s', buddy_kalloc me o s = Ret (a, s') ∧ buddy_state s' ({[(a, o)]} ∪ L) ∧ new_block kend L (a, o).
Proof.
  intros [Hk (A & Hi)] Ho.
  destruct (live_alloc me kend s L A o Hi Ho) as [(q & s' & Hq & -> & Hn & Hi' & Hd)|Hq]; [right|by left].
  exists (block_addr q), s'. split; [done|]. split; [split; [done|by exists ({[q]} ∪ A)]|].
  assert (HqA : q ∉ A).
  { intros Ha. apply (Hd q Ha (block_addr q)). by split; apply block_addr_in. }
  assert (Hr : q ∉ reserved (first_page kend)) by (intros Hr; by apply HqA, (li_reserved _ _ _ _ Hi)).
  pose proof (block_addr_bounds q Hn) as (_ & Hb & _). pose proof (plevel_nonneg q).
  pose proof (proj1 (node_level q) Hn). unfold new_block. cbn [fst snd].
  rewrite block_size_bytes in Hb by done.
  split_and!; [apply (live_above kend Hk s' _ _ q Hi' (elem_of_union_l _ _ _ (elem_of_singleton_2 _ _ eq_refl)) Hr)|done|by apply block_addr_page|].
  intros b' Hb'. destruct (live_node _ _ _ _ _ Hi Hb') as (p & Hp & Hnp & _ & ->).
  pose proof (proj1 (node_level p) Hnp).
  apply (in_live_apart (node_block q) (node_block p)); cbn [node_block fst snd]; [lia|lia|].
  intros x [Hx Hx']. apply in_node_block in Hx, Hx'; [|done..]. by apply (Hd p Hp x).
Qed.

Lemma buddy_free_law s L b :
  buddy_state s L → b ∈ L → free_safe (tree s) (block_node b) = true →
  ∃ s', buddy_kfree me kend b.1 b.2 s = Ret (1, s') ∧ buddy_state s' (L ∖ {[b]}).
Proof.
  intros [Hk (A & Hi)] Hb Hs.
  destruct (live_free me kend Hk s L A b Hi Hb Hs) as (q & s' & _ & -> & Hf & Hi').
  exists s'. split; [done|]. split; [done|]. by exists (A ∖ {[q]}).
Qed.

Lemma buddy_alloc_big s o : 15 < o → buddy_kalloc me o s = Panic "Order too big".
Proof. intros Ho. unfold buddy_kalloc. by rewrite (proj2 (Z.ltb_lt _ _)) by (unfold BUDDY_TREE_LEVEL; lia). Qed.

Definition buddy_allocator : BlockAllocator mem_tree := {|
  block_alloc := buddy_kalloc me;
  block_free := buddy_kfree me kend;
  kernel_end := kend;
  block_state := buddy_state;
  can_free s b := free_safe (tree s) (block_node b) = true;
  kernel_end_ram s L H := proj1 H;
  block_alloc_law := buddy_alloc_law;
  block_alloc_big := buddy_alloc_big;
  block_free_law := buddy_free_law;
|}.
End buddy.
