(* ===== verification/MemLock.v ===== *)
(** * Spin locks in memory

    kernel/spinlock.c on a [struct spinlock] at an address: [locked] (4
    bytes) at offset 0, [name] at 8, [cpu] at 16.  [mycpu] is the address
    of the hart's [struct cpu].  Interrupts ([push_off], [pop_off]) are the
    subject of Spinlock.v and do not touch this memory. *)

From S2P Require Import Prelude Riscv Mem.

Definition sizeof_spinlock : Z := 24.

Section lock.
Context {S : Type} `{!HasMem S} (mycpu : Z).

Definition initlock_at (lk name : Z) : M S unit :=
  store64 (lk + 8) name;;
  store32 lk 0;;
  store64 (lk + 16) 0.

Definition holding_at (lk : Z) : M S bool :=
  locked ← load32 lk;
  if locked =? 0 then mret false
  else cpu ← load64 (lk + 16); mret (cpu =? mycpu).

Definition acquire_at (lk : Z) : M S unit :=
  h ← holding_at lk;
  if (h : bool) then panic "acquire"
  else
    locked ← load32 lk;
    if negb (locked =? 0) then block
    else store32 lk 1;; store64 (lk + 16) mycpu.

Definition release_at (lk : Z) : M S unit :=
  h ← holding_at lk;
  if negb (h : bool) then panic "release"
  else store64 (lk + 16) 0;; store32 lk 0.

End lock.
