(* ===== verification/Slab.v ===== *)
(** * The slab allocator (kernel/slab_allocator.c)

    The code works on structures it lays out in memory itself, so the model
    does too: a [struct cache_t], [struct slab] or [struct free] is a range
    of bytes, its fields are loads and stores at their offsets.  The static
    variables [caches_head] and [small_mem_caches] are fields of the state;
    [caches_origin] and [raw_caches_lock], whose addresses the code takes,
    are in memory.  The block allocator below is a class ([BlockAlloc]). *)

From S2P Require Import Prelude Riscv Mem Buddy BlockAlloc MemLock.

Definition SMALL_MEM_BUFF_CNT : Z := 13.
Definition MAX_SMALL_MEM_BUFF : Z := 131072.
Definition FREE_MAGIC_NUM : Z := 0xDEAD.
Definition BLOCK_SIZE : Z := 4096.

Definition names : list string := [
  "size-32B"; "size-64B"; "size-128B"; "size-256B"; "size-512B"; "size-1024B"; "size-2048B";
  "size-4096B"; "size-8192B"; "size-16384B"; "size-32768B"; "size-65536B"; "size-131072B"].

Definition sizes : list Z :=
  [32; 64; 128; 256; 512; 1024; 2048; 4096; 8192; 16384; 32768; 65536; 131072].

(** ** Structure layouts *)

(** [struct free]: [next] at 0, [magic_num] (an [int]) at 8. *)
Definition free_next (f : Z) : Z := f.
Definition free_magic (f : Z) : Z := f + 8.

(** [struct slab] *)
Definition slab_total (sl : Z) : Z := sl.
Definition slab_free_count (sl : Z) : Z := sl + 8.
Definition slab_free_list (sl : Z) : Z := sl + 16.
Definition slab_next (sl : Z) : Z := sl + 24.
Definition sizeof_slab : Z := 32.

(** [struct cache_t]; the lock takes the bytes 32 to 55. *)
Definition cache_id (c : Z) : Z := c.
Definition cache_name (c : Z) : Z := c + 8.
Definition cache_error_msg (c : Z) : Z := c + 16.
Definition cache_size (c : Z) : Z := c + 24.
Definition cache_lock (c : Z) : Z := c + 32.
Definition cache_full (c : Z) : Z := c + 56.
Definition cache_empty (c : Z) : Z := c + 64.
Definition cache_partial (c : Z) : Z := c + 72.
Definition cache_ctor (c : Z) : Z := c + 80.
Definition cache_dtor_field (c : Z) : Z := c + 88.
Definition cache_prev (c : Z) : Z := c + 96.
Definition cache_next (c : Z) : Z := c + 104.
Definition sizeof_cache : Z := 112.

(** ** The state *)

(** A call of [printf]: the format and its arguments. *)
Record print_event := mk_print { pr_fmt : string; pr_args : list Z }.

Record kstate (B : Type) := mk_kstate {
  k_mem : gmap Z Z;
  k_blocks : B;
  caches_head : Z;
  small_mem_caches : list Z;
  k_out : list print_event;
}.
Arguments mk_kstate {B}.
Arguments k_mem {B}.
Arguments k_blocks {B}.
Arguments caches_head {B}.
Arguments small_mem_caches {B}.
Arguments k_out {B}.

#[export] Instance kstate_mem B : HasMem (kstate B).
Proof.
  refine {| mem_of := k_mem;
    with_mem m s := mk_kstate m (k_blocks s) (caches_head s) (small_mem_caches s) (k_out s) |}.
  - done.
  - done.
  - by intros [].
Defined.

(** ** Sizes *)

Definition target_objs (obj_size : Z) : Z :=
  if obj_size <=? 256 then 8
  else if obj_size <=? 4096 then 4
  else if obj_size <=? 32768 then 2
  else 1.

Fixpoint order_loop (fuel : nat) (need slab_size order : Z) : res (Z * Z) :=
  match fuel with
  | O => OutOfFuel
  | S fuel =>
    if u64 (slab_size - sizeof_slab) <? need
    then order_loop fuel need (u64 (Z.shiftl slab_size 1)) (u16 (order + 1))
    else Ret (order, slab_size)
  end.

(** Twelve to sixty-four shifts make the size 0, where it stays. *)
Definition order_fuel : nat := 64.

(** Returns the order and the slab size. *)
Definition get_order_from_size (obj_size : Z) : res (Z * Z) :=
  order_loop order_fuel (u64 (target_objs obj_size * obj_size)) BLOCK_SIZE 0.

Definition size_to_index (size : Z) : Z :=
  if size <=? 32 then 0
  else
    let bits := 64 - my_clz (u64 (size - 1)) in
    bits - 5.

(** Bound on the length of a list of slabs or caches: a node takes at least
    32 bytes and the nodes of a list do not overlap, so there are fewer
    than 2^22 of them in the 2^27 bytes of RAM. *)
Definition list_fuel : nat := Z.to_nat (2 ^ 22).

(** ** Slabs *)

Section slab.
Context {B : Type} `{!BlockAllocator B}.

Implicit Types slab obj obj_size : Z.

(** The loop that cuts the memory of a slab into free objects. *)
Fixpoint cut_loop (fuel : nat) (obj_size limit prev temp : Z) : M (kstate B) unit :=
  match fuel with
  | O => out_of_fuel
  | S fuel =>
    if u64 (temp + obj_size) <=? limit then
      store64 (free_next prev) temp;;
      store64 (free_next temp) 0;;
      cut_loop fuel obj_size limit temp (u64 (temp + obj_size))
    else mret tt
  end.

(** One round per object that fits. *)
Definition cut_fuel (obj_size slab_size : Z) : nat :=
  Z.to_nat (slab_size / Z.max 1 obj_size + 1).

Definition slab_init (mem obj_size slab_size : Z) : M (kstate B) Z :=
  if mem =? 0 then mret 0
  else
    let slab := mem in
    store64 (slab_free_list slab) (slab + sizeof_slab);;
    prev ← load64 (slab_free_list slab);
    let temp := u64 (prev + obj_size) in
    store64 (free_next prev) 0;;
    cut_loop (cut_fuel obj_size slab_size) obj_size (u64 (slab + slab_size)) prev temp;;
    if obj_size =? 0 then fault
    else
      store64 (slab_total slab) (u64 (slab_size - sizeof_slab) / obj_size);;
      total ← load64 (slab_total slab);
      store64 (slab_free_count slab) total;;
      mret slab.

Definition slab_alloc (slab : Z) : M (kstate B) Z :=
  if slab =? 0 then panic "Invalid slab provided"
  else
    free_count ← load64 (slab_free_count slab);
    if free_count <=? 0 then panic "Invalid slab provided"
    else
      store64 (slab_free_count slab) (u64 (free_count - 1));;
      obj ← load64 (slab_free_list slab);
      if obj =? 0 then panic "slab_alloc failed"
      else
        next ← load64 (free_next obj);
        store64 (slab_free_list slab) next;;
        mret obj.

Definition slab_free (slab obj : Z) : M (kstate B) unit :=
  head ← load64 (slab_free_list slab);
  store64 (free_next obj) head;;
  store64 (slab_free_list slab) obj;;
  free_count ← load64 (slab_free_count slab);
  store64 (slab_free_count slab) (u64 (free_count + 1)).

(** The predecessor of [slab] in the list from [prev] on, 0 if there is
    none. *)
Fixpoint find_prev (fuel : nat) (slab prev : Z) : M (kstate B) Z :=
  match fuel with
  | O => out_of_fuel
  | S fuel =>
    if prev =? 0 then mret prev
    else
      next ← load64 (slab_next prev);
      if next =? slab then mret prev else find_prev fuel slab next
  end.

(** [from_list] and [to_list] are the addresses of the list heads. *)
Definition move_slab (from_list to_list slab : Z) : M (kstate B) unit :=
  from ← load64 from_list;
  if from =? 0 then panic "provided null as source list "
  else
    (if from =? slab then
       next ← load64 (slab_next slab);
       store64 from_list next
     else
       prev ← find_prev list_fuel slab from;
       if prev =? 0 then panic "Wrong list provided!"
       else
         prev_next ← load64 (slab_next prev);
         if negb (prev_next =? slab) then panic "Wrong list provided!"
         else
           next ← load64 (slab_next slab);
           store64 (slab_next prev) next);;
    to ← load64 to_list;
    store64 (slab_next slab) to;;
    store64 to_list slab.

(** The slab whose objects include [obj]; [None] is the return value 0. *)
Fixpoint find_obj_loop (fuel : nat) (slab obj obj_size : Z) : M (kstate B) (option Z) :=
  match fuel with
  | O => out_of_fuel
  | S fuel =>
    if slab =? 0 then mret None
    else
      let start := u64 (slab + sizeof_slab) in
      total ← load64 (slab_total slab);
      let end_of_slab := u64 (start + u64 (obj_size * total)) in
      if (obj <? end_of_slab) && (start <=? obj) && (Z.rem (u64 (obj - start)) obj_size =? 0)
      then mret (Some slab)
      else
        next ← load64 (slab_next slab);
        find_obj_loop fuel next obj obj_size
  end.

Definition find_obj (slab obj obj_size : Z) : M (kstate B) (option Z) :=
  if (obj =? 0) || (slab =? 0) then mret None
  else find_obj_loop list_fuel slab obj obj_size.

(** ** Giving slabs back *)

Definition buddy_alloc (order : Z) : M (kstate B) Z := λ s,
  '(a, b) ← block_alloc order (k_blocks s);
  Ret (a, mk_kstate (k_mem s) b (caches_head s) (small_mem_caches s) (k_out s)).

Definition buddy_free (adr order : Z) : M (kstate B) Z := λ s,
  '(r, b) ← block_free adr order (k_blocks s);
  Ret (r, mk_kstate (k_mem s) b (caches_head s) (small_mem_caches s) (k_out s)).

Definition free_slab (slab obj_size : Z) : M (kstate B) Z :=
  '(order, _) ← lift (get_order_from_size obj_size);
  ok ← buddy_free slab order;
  if ok =? 0 then panic "free_slab"
  else mret (s32 (Z.shiftl 1 order)).

Fixpoint free_slab_loop (fuel : nat) (sl_list obj_size freed_blocks : Z) : M (kstate B) Z :=
  match fuel with
  | O => out_of_fuel
  | S fuel =>
    slab_to_free ← load64 sl_list;
    if slab_to_free =? 0 then mret freed_blocks
    else
      next ← load64 (slab_next slab_to_free);
      store64 sl_list next;;
      n ← free_slab slab_to_free obj_size;
      free_slab_loop fuel sl_list obj_size (s32 (freed_blocks + n))
  end.

Definition free_slab_list (sl_list obj_size : Z) : M (kstate B) Z :=
  free_slab_loop list_fuel sl_list obj_size 0.
End slab.
