(* ===== verification/Cache.v ===== *)
(** * Object caches (kernel/slab_allocator.c, the [cache_*] functions)

    Addresses fixed by the linker are section variables: the static objects
    [caches_origin] and [raw_caches_lock], the hart's [struct cpu], the
    string literals ([lit]) and the function [cache_dtor].  [call_fn f x]
    is a call of the constructor [f] on [x]. *)

From S2P Require Import Prelude Riscv Mem Buddy BlockAlloc MemLock Slab.

Section cache.
Context {B : Type} `{!BlockAllocator B}.
Context (caches_origin raw_caches_lock mycpu cache_dtor_fn : Z) (lit : string → Z).
Context (call_fn : Z → Z → M (kstate B) unit).

Definition acquire (lk : Z) : M (kstate B) unit := acquire_at mycpu lk.
Definition release (lk : Z) : M (kstate B) unit := release_at mycpu lk.

Definition printf (fmt : string) (args : list Z) : M (kstate B) unit :=
  modify (λ s, mk_kstate (k_mem s) (k_blocks s) (caches_head s) (small_mem_caches s)
                         (k_out s ++ [mk_print fmt args])).

Definition set_caches_head (c : Z) : M (kstate B) unit :=
  modify (λ s, mk_kstate (k_mem s) (k_blocks s) c (small_mem_caches s) (k_out s)).

Definition set_small_mem_caches (l : list Z) : M (kstate B) unit :=
  modify (λ s, mk_kstate (k_mem s) (k_blocks s) (caches_head s) l (k_out s)).

(** [small_mem_caches[i]]; the array has [SMALL_MEM_BUFF_CNT] elements. *)
Definition small_cache (i : Z) : M (kstate B) Z := λ s,
  match small_mem_caches s !! Z.to_nat i with
  | Some c => if 0 <=? i then Ret (c, s) else Fault
  | None => Fault
  end.

Definition cache_dtor (c : Z) : M (kstate B) unit :=
  if c =? 0 then mret tt
  else
    size ← load64 (cache_size c);
    free_slab_list (cache_full c) size;;
    size ← load64 (cache_size c);
    free_slab_list (cache_empty c) size;;
    size ← load64 (cache_size c);
    free_slab_list (cache_partial c) size;;
    mret tt.

Definition cache_init : M (kstate B) unit :=
  store64 (cache_name caches_origin) (lit "caches-origin");;
  store64 (cache_size caches_origin) sizeof_cache;;
  initlock_at (cache_lock caches_origin) (lit "caches-origin-lock");;
  store64 (cache_full caches_origin) 0;;
  store64 (cache_empty caches_origin) 0;;
  store64 (cache_partial caches_origin) 0;;
  store64 (cache_ctor caches_origin) 0;;
  store64 (cache_dtor_field caches_origin) cache_dtor_fn;;
  store64 (cache_next caches_origin) 0;;
  store64 (cache_prev caches_origin) 0;;
  store64 (cache_error_msg caches_origin) 0;;
  set_small_mem_caches (replicate (Z.to_nat SMALL_MEM_BUFF_CNT) 0);;
  initlock_at raw_caches_lock (lit "raw-caches-lock");;
  set_caches_head caches_origin.

(** The slab an allocation is served from, and the object. *)
Definition take_object (cachep : Z) : M (kstate B) Z :=
  partial_slabs ← load64 (cache_partial cachep);
  empty_slabs ← load64 (cache_empty cachep);
  if (partial_slabs =? 0) && (empty_slabs =? 0) then
    size ← load64 (cache_size cachep);
    '(order, slab_size) ← lift (get_order_from_size size);
    mem ← buddy_alloc order;
    slab ← slab_init mem size slab_size;
    if slab =? 0 then
      release (cache_lock cachep);;
      panic "cache_create failed"
    else
      obj ← slab_alloc slab;
      if negb (obj =? 0) then
        head ← load64 (cache_partial cachep);
        store64 (slab_next slab) head;;
        store64 (cache_partial cachep) slab;;
        mret obj
      else mret obj
  else if negb (partial_slabs =? 0) then
    let slab := partial_slabs in
    obj ← slab_alloc slab;
    free_count ← load64 (slab_free_count slab);
    if negb (obj =? 0) && (free_count =? 0) then
      move_slab (cache_partial cachep) (cache_full cachep) slab;;
      mret obj
    else mret obj
  else
    let slab := empty_slabs in
    obj ← slab_alloc slab;
    if negb (obj =? 0) then
      move_slab (cache_empty cachep) (cache_partial cachep) slab;;
      mret obj
    else mret obj.

Definition cache_alloc (cachep : Z) : M (kstate B) Z :=
  if cachep =? 0 then mret 0
  else
    acquire (cache_lock cachep);;
    obj ← take_object cachep;
    (if negb (obj =? 0) then store32 (free_magic obj) 0 else mret tt);;
    ctor ← load64 (cache_ctor cachep);
    (if negb (ctor =? 0) && negb (obj =? 0) then call_fn ctor obj else mret tt);;
    release (cache_lock cachep);;
    mret obj.

Definition cache_create (name size ctor dtor : Z) : M (kstate B) Z :=
  cache ← cache_alloc caches_origin;
  acquire (cache_lock caches_origin);;
  store64 (cache_name cache) name;;
  initlock_at (cache_lock cache) name;;
  store64 (cache_ctor cache) ctor;;
  store64 (cache_dtor_field cache) dtor;;
  store64 (cache_size cache) size;;
  store64 (cache_prev cache) 0;;
  store64 (cache_full cache) 0;;
  store64 (cache_empty cache) 0;;
  store64 (cache_partial cache) 0;;
  store64 (cache_error_msg cache) 0;;
  head ← gets caches_head;
  store64 (cache_next cache) head;;
  store64 (cache_prev head) cache;;
  set_caches_head cache;;
  release (cache_lock caches_origin);;
  mret cache.

Definition cache_shrink (cachep : Z) : M (kstate B) Z :=
  acquire (cache_lock cachep);;
  empty_slabs ← load64 (cache_empty cachep);
  if empty_slabs =? 0 then
    release (cache_lock cachep);;
    mret 0
  else
    size ← load64 (cache_size cachep);
    released_blocks ← free_slab_list (cache_empty cachep) size;
    release (cache_lock cachep);;
    mret released_blocks.

Definition cache_free (cachep objp : Z) : M (kstate B) unit :=
  if objp =? 0 then mret tt
  else
    acquire (cache_lock cachep);;
    magic_num ← load32 (free_magic objp);
    if magic_num =? FREE_MAGIC_NUM then
      store64 (cache_error_msg cachep) (lit "Double free!!!");;
      release (cache_lock cachep)
    else
      partial_slabs ← load64 (cache_partial cachep);
      size ← load64 (cache_size cachep);
      found ← find_obj partial_slabs objp size;
      match found with
      | Some target_slab =>
        slab_free target_slab objp;;
        store32 (free_magic objp) FREE_MAGIC_NUM;;
        free_count ← load64 (slab_free_count target_slab);
        total ← load64 (slab_total target_slab);
        (if free_count =? total
         then move_slab (cache_partial cachep) (cache_empty cachep) target_slab
         else mret tt);;
        release (cache_lock cachep)
      | None =>
        full_slabs ← load64 (cache_full cachep);
        size ← load64 (cache_size cachep);
        found ← find_obj full_slabs objp size;
        match found with
        | Some target_slab =>
          slab_free target_slab objp;;
          store32 (free_magic objp) FREE_MAGIC_NUM;;
          move_slab (cache_full cachep) (cache_partial cachep) target_slab;;
          release (cache_lock cachep)
        | None =>
          store64 (cache_error_msg cachep) (lit "object not found in any slab");;
          release (cache_lock cachep)
        end
      end.

(** ** Small memory buffers *)

(** The loop of [cache_kalloc] for large buffers. *)
Fixpoint kalloc_order (fuel : nat) (size block order : Z) : res Z :=
  match fuel with
  | O => OutOfFuel
  | S fuel =>
    if block <? size then kalloc_order fuel size (u64 (Z.shiftl block 1)) (u16 (order + 1))
    else Ret order
  end.

Definition cache_kalloc (size : Z) : M (kstate B) Z :=
  if MAX_SMALL_MEM_BUFF <? size then
    order ← lift (kalloc_order order_fuel size BLOCK_SIZE 0);
    buddy_alloc order
  else
    let index := size_to_index size in
    acquire raw_caches_lock;;
    cache ← small_cache index;
    cache ← (if cache =? 0 then
               c ← cache_create (lit (nth (Z.to_nat index) names EmptyString))
                                (nth (Z.to_nat index) sizes 0) 0 0;
               l ← gets small_mem_caches;
               set_small_mem_caches (<[Z.to_nat index := c]> l);;
               small_cache index
             else mret cache);
    release raw_caches_lock;;
    if cache =? 0 then panic "cache_kalloc: cant allocate cache"
    else cache_alloc cache.

(** One round of the loop of [cache_kfree]: true if the object was freed. *)
Definition kfree_in_cache (cache objp : Z) : M (kstate B) bool :=
  acquire (cache_lock cache);;
  partial_slabs ← load64 (cache_partial cache);
  size ← load64 (cache_size cache);
  found ← find_obj partial_slabs objp size;
  match found with
  | Some slab =>
    slab_free slab objp;;
    store32 (free_magic objp) FREE_MAGIC_NUM;;
    free_count ← load64 (slab_free_count slab);
    total ← load64 (slab_total slab);
    (if free_count =? total then move_slab (cache_partial cache) (cache_empty cache) slab
     else mret tt);;
    release (cache_lock cache);;
    mret true
  | None =>
    full_slabs ← load64 (cache_full cache);
    size ← load64 (cache_size cache);
    found ← find_obj full_slabs objp size;
    match found with
    | Some slab =>
      slab_free slab objp;;
      store32 (free_magic objp) FREE_MAGIC_NUM;;
      free_count ← load64 (slab_free_count slab);
      total ← load64 (slab_total slab);
      (if free_count =? total then move_slab (cache_full cache) (cache_empty cache) slab
       else move_slab (cache_full cache) (cache_partial cache) slab);;
      release (cache_lock cache);;
      mret true
    | None =>
      release (cache_lock cache);;
      mret false
    end
  end.

(** The loop over [small_mem_caches], [n] elements from index [i] on. *)
Fixpoint kfree_loop (n : nat) (i objp : Z) : M (kstate B) unit :=
  match n with
  | O => mret tt
  | S n =>
    cache ← small_cache i;
    if cache =? 0 then kfree_loop n (i + 1) objp
    else
      done ← kfree_in_cache cache objp;
      if (done : bool) then mret tt else kfree_loop n (i + 1) objp
  end.

Definition cache_kfree (objp : Z) : M (kstate B) unit :=
  if objp =? 0 then mret tt
  else
    magic_num ← load32 (free_magic objp);
    if magic_num =? FREE_MAGIC_NUM then mret tt
    else kfree_loop (Z.to_nat SMALL_MEM_BUFF_CNT) 0 objp.

(** ** The rest of the interface *)

Definition cache_destroy (cachep : Z) : M (kstate B) unit :=
  if cachep =? 0 then mret tt
  else
    acquire (cache_lock cachep);;
    full_slabs ← load64 (cache_full cachep);
    partial_slabs ← load64 (cache_partial cachep);
    if negb (full_slabs =? 0) || negb (partial_slabs =? 0) then
      store64 (cache_error_msg cachep) (lit "kmem_cache_destroy: %s has active objects");;
      release (cache_lock cachep)
    else
      release (cache_lock cachep);;
      acquire (cache_lock caches_origin);;
      head ← gets caches_head;
      (if cachep =? head then
         next ← load64 (cache_next cachep); set_caches_head next
       else mret tt);;
      next ← load64 (cache_next cachep);
      (if negb (next =? 0) then
         prev ← load64 (cache_prev cachep); store64 (cache_prev next) prev
       else mret tt);;
      prev ← load64 (cache_prev cachep);
      (if negb (prev =? 0) then
         next ← load64 (cache_next cachep); store64 (cache_next prev) next
       else mret tt);;
      release (cache_lock caches_origin);;
      cache_free caches_origin cachep.

(** The three counting loops of [cache_info]: [count s (used, objs, slabs)]. *)
Fixpoint count_slabs (fuel : nat) (used : Z → Z → Z) (s total_slabs total_objs used_objs : Z) :
    M (kstate B) (Z * Z * Z) :=
  match fuel with
  | O => out_of_fuel
  | S fuel =>
    if s =? 0 then mret (total_slabs, total_objs, used_objs)
    else
      total ← load64 (slab_total s);
      free_count ← load64 (slab_free_count s);
      next ← load64 (slab_next s);
      count_slabs fuel used next (s32 (total_slabs + 1)) (s32 (total_objs + total))
                  (s32 (used_objs + used total free_count))
  end.

Definition cache_info (cachep : Z) : M (kstate B) unit :=
  if cachep =? 0 then mret tt
  else
    acquire (cache_lock cachep);;
    size ← load64 (cache_size cachep);
    '(_, slab_size) ← lift (get_order_from_size size);
    s ← load64 (cache_full cachep);
    '(total_slabs, total_objs, used_objs) ← count_slabs list_fuel (λ total _, total) s 0 0 0;
    s ← load64 (cache_partial cachep);
    '(total_slabs, total_objs, used_objs) ←
      count_slabs list_fuel (λ total free_count, u64 (total - free_count)) s
                  total_slabs total_objs used_objs;
    s ← load64 (cache_empty cachep);
    '(total_slabs, total_objs, used_objs) ←
      count_slabs list_fuel (λ _ _, 0) s total_slabs total_objs used_objs;
    let percentage := if 0 <? total_objs then Z.quot (s32 (used_objs * 100)) total_objs else 0 in
    name ← load64 (cache_name cachep);
    printf "cache: %s\n" [name];;
    size ← load64 (cache_size cachep);
    printf "  obj size: %lu | slab size: %lu\n" [size; slab_size];;
    printf "  slabs: %d | objs: %d/%d | usage: %d%%\n"
           [total_slabs; used_objs; total_objs; percentage];;
    release (cache_lock cachep).

Definition cache_error (cachep : Z) : M (kstate B) Z :=
  error_msg ← load64 (cache_error_msg cachep);
  if negb (error_msg =? 0) then
    name ← load64 (cache_name cachep);
    error_msg ← load64 (cache_error_msg cachep);
    printf "cache %s: %s\n" [name; error_msg];;
    store64 (cache_error_msg cachep) 0;;
    mret 1
  else mret 0.

Fixpoint id_loop (fuel : nat) (id temp : Z) : M (kstate B) Z :=
  match fuel with
  | O => out_of_fuel
  | S fuel =>
    if temp =? 0 then mret 0
    else
      i ← load64 (cache_id temp);
      if i =? id then mret temp
      else next ← load64 (cache_next temp); id_loop fuel id next
  end.

Fixpoint small_id_loop (n : nat) (i id : Z) : M (kstate B) Z :=
  match n with
  | O => mret 0
  | S n =>
    c ← small_cache i;
    cid ← load64 (cache_id c);
    if cid =? id then mret c else small_id_loop n (i + 1) id
  end.

Definition id_to_cache (id : Z) : M (kstate B) Z :=
  temp ← gets caches_head;
  found ← id_loop list_fuel id temp;
  if negb (found =? 0) then mret found
  else small_id_loop (Z.to_nat SMALL_MEM_BUFF_CNT) 0 id.

Definition cache_to_id (cache : Z) : M (kstate B) Z := load64 (cache_id cache).

End cache.
