(* ===== verification/SlabRep.v ===== *)
(** * Slab allocator: sizes, orders and indices, and one slab in memory *)

From S2P Require Import Prelude Riscv Mem Buddy BuddyIndex BlockAlloc MemLock Slab Cache.

(** ** [get_order_from_size] *)

Lemma target_objs_range x : 1 ≤ target_objs x ≤ 8.
Proof. unfold target_objs. zcase; lia. Qed.

Lemma pow2_double k : 0 ≤ k → 2 ^ (k + 1) = 2 * 2 ^ k.
Proof. intros. rewrite Z.pow_add_r by lia. lia. Qed.

Lemma order_step k : 0 ≤ k < 51 → u64 (Z.shiftl (2 ^ (12 + k)) 1) = 2 ^ (12 + (k + 1)) ∧ u16 (k + 1) = k + 1.
Proof.
  intros Hk. rewrite Z_shiftl_mul by lia. change (2 ^ 1) with 2.
  replace (12 + (k + 1)) with (12 + k + 1) by lia. rewrite pow2_double by lia.
  assert (2 ^ (12 + k) ≤ 2 ^ 62) by (apply Z.pow_le_mono_r; lia).
  assert (0 < 2 ^ (12 + k)) by (apply Z.pow_pos_nonneg; lia).
  rewrite u64_small, u16_small by lia. lia.
Qed.

(** The loop stops at the least order whose block has room. *)
Lemma order_loop_spec need fuel : ∀ k,
  0 ≤ k ≤ 51 → 0 ≤ need ≤ 2 ^ 63 - 32 → (Z.to_nat (51 - k) < fuel)%nat →
  ∃ o, order_loop fuel need (2 ^ (12 + k)) k = Ret (o, 2 ^ (12 + o)) ∧ k ≤ o ≤ 51 ∧
    need ≤ 2 ^ (12 + o) - sizeof_slab ∧ ∀ j, k ≤ j < o → 2 ^ (12 + j) - sizeof_slab < need.
Proof.
  induction fuel as [|f IH]; intros k Hk Hneed Hf; [lia|]. cbn [order_loop].
  assert (2 ^ 12 ≤ 2 ^ (12 + k) ≤ 2 ^ 63) by (split; apply Z.pow_le_mono_r; lia).
  unfold sizeof_slab in *. rewrite u64_small by lia.
  destruct (Z.ltb_spec (2 ^ (12 + k) - 32) need) as [Hlt|Hge].
  - destruct (decide (k = 51)) as [->|]; [change (2 ^ (12 + 51)) with (2 ^ 63) in Hlt; lia|].
    destruct (order_step k) as [-> ->]; [lia|].
    destruct (IH (k + 1)) as (o & -> & Ho & Hfit & Hleast); [lia|done|lia|].
    exists o. split_and!; [done|lia|lia|done|]. intros j Hj.
    destruct (decide (j = k)) as [->|]; [done|]. apply Hleast. lia.
  - exists k. split_and!; [done|lia|lia|done|lia].
Qed.

Lemma get_order_spec obj_size :
  0 ≤ obj_size ≤ 2 ^ 63 - 32 →
  ∃ o, get_order_from_size obj_size = Ret (o, block_bytes o) ∧ 0 ≤ o ≤ 51 ∧
    target_objs obj_size * obj_size ≤ block_bytes o - sizeof_slab ∧
    ∀ j, 0 ≤ j < o → block_bytes j - sizeof_slab < target_objs obj_size * obj_size.
Proof.
  intros Hs. unfold get_order_from_size, block_bytes.
  assert (Hneed : 0 ≤ target_objs obj_size * obj_size ≤ 2 ^ 63 - 32)
    by (unfold target_objs; zcase; lia).
  rewrite u64_small by lia. change BLOCK_SIZE with (2 ^ (12 + 0)).
  destruct (order_loop_spec (target_objs obj_size * obj_size) order_fuel 0)
    as (o & Ho & Hr & Hfit & Hleast); [lia|done|unfold order_fuel; lia|].
  assert (Hb : ∀ j, 0 ≤ j → PGSIZE * 2 ^ j = 2 ^ (12 + j)) by (intros; by rewrite Z.pow_add_r by lia).
  exists o. rewrite Hb by lia. split_and!; [exact Ho|lia|lia|lia|].
  intros j Hj. rewrite Hb by lia. apply Hleast. lia.
Qed.

(** Once the size has been shifted to 0 a need above 2^64 - 32 is never met. *)
Lemma order_loop_zero need fuel : ∀ k, 2 ^ 64 - 32 < need → order_loop fuel need 0 k = OutOfFuel.
Proof.
  induction fuel as [|f IH]; intros k Hn; [done|]. cbn [order_loop].
  change (u64 (0 - sizeof_slab)) with (2 ^ 64 - 32). rewrite (proj2 (Z.ltb_lt _ _)) by done.
  change (u64 (Z.shiftl 0 1)) with 0. by apply IH.
Qed.

Lemma order_loop_diverges need fuel : ∀ k,
  0 ≤ k ≤ 51 → 2 ^ 64 - 32 < need → order_loop fuel need (2 ^ (12 + k)) k = OutOfFuel.
Proof.
  induction fuel as [|f IH]; intros k Hk Hn; [done|]. cbn [order_loop]. unfold sizeof_slab.
  assert (2 ^ 12 ≤ 2 ^ (12 + k) ≤ 2 ^ 63) by (split; apply Z.pow_le_mono_r; lia).
  rewrite u64_small, (proj2 (Z.ltb_lt _ _)) by lia.
  destruct (decide (k = 51)) as [->|]; [by apply order_loop_zero|].
  destruct (order_step k) as [-> ->]; [lia|]. apply IH; [lia|done].
Qed.

(** ** [size_to_index] *)

Lemma sizes_nth i : 0 ≤ i < 13 → nth (Z.to_nat i) sizes 0 = 2 ^ (i + 5).
Proof.
  intros Hi. assert (i = 0 ∨ i = 1 ∨ i = 2 ∨ i = 3 ∨ i = 4 ∨ i = 5 ∨ i = 6 ∨ i = 7 ∨ i = 8 ∨ i = 9 ∨
    i = 10 ∨ i = 11 ∨ i = 12) as Hc by lia. repeat destruct Hc as [->|Hc]; try done. by subst.
Qed.

Lemma size_to_index_log2 size :
  32 < size ≤ MAX_SMALL_MEM_BUFF → size_to_index size = Z.log2 (size - 1) - 4.
Proof.
  unfold MAX_SMALL_MEM_BUFF. intros Hs. unfold size_to_index. rewrite (proj2 (Z.leb_gt _ _)) by lia.
  rewrite u64_small, my_clz_log2 by lia. lia.
Qed.

Lemma size_to_index_spec size :
  0 ≤ size ≤ MAX_SMALL_MEM_BUFF →
  0 ≤ size_to_index size < SMALL_MEM_BUFF_CNT ∧ size ≤ nth (Z.to_nat (size_to_index size)) sizes 0 ∧
  ∀ j, 0 ≤ j < size_to_index size → nth (Z.to_nat j) sizes 0 < size.
Proof.
  unfold MAX_SMALL_MEM_BUFF, SMALL_MEM_BUFF_CNT. intros Hs.
  destruct (Z.leb_spec size 32) as [Hle|Hgt].
  { assert (size_to_index size = 0) as -> by (unfold size_to_index; by rewrite (proj2 (Z.leb_le _ _))).
    change (nth (Z.to_nat 0) sizes 0) with 32. split_and!; [lia|lia|lia|intros; lia]. }
  rewrite size_to_index_log2 by (unfold MAX_SMALL_MEM_BUFF; lia).
  pose proof (Z.log2_spec (size - 1)) as [Hl Hu]; [lia|].
  assert (5 ≤ Z.log2 (size - 1)) by (apply Z.log2_le_pow2; lia).
  assert (Z.log2 (size - 1) < 17) by (apply Z.log2_lt_pow2; lia).
  rewrite sizes_nth by lia. replace (Z.log2 (size - 1) - 4 + 5) with (Z.succ (Z.log2 (size - 1))) by lia.
  split_and!; [lia|lia|lia|]. intros j Hj. rewrite sizes_nth by lia.
  assert (2 ^ (j + 5) ≤ 2 ^ Z.log2 (size - 1)) by (apply Z.pow_le_mono_r; lia). lia.
Qed.

(** ** The order of a large buffer *)

Lemma kalloc_order_spec size fuel : ∀ k,
  0 ≤ k ≤ 51 → 0 ≤ size ≤ 2 ^ 63 → (Z.to_nat (51 - k) < fuel)%nat →
  ∃ o, kalloc_order fuel size (2 ^ (12 + k)) k = Ret o ∧ k ≤ o ≤ 51 ∧ size ≤ 2 ^ (12 + o) ∧
    ∀ j, k ≤ j < o → 2 ^ (12 + j) < size.
Proof.
  induction fuel as [|f IH]; intros k Hk Hs Hf; [lia|]. cbn [kalloc_order].
  destruct (Z.ltb_spec (2 ^ (12 + k)) size) as [Hlt|Hge].
  - destruct (decide (k = 51)) as [->|]; [change (2 ^ (12 + 51)) with (2 ^ 63) in Hlt; lia|].
    destruct (order_step k) as [-> ->]; [lia|].
    destruct (IH (k + 1)) as (o & -> & Ho & Hfit & Hleast); [lia|done|lia|].
    exists o. split_and!; [done|lia|lia|done|]. intros j Hj.
    destruct (decide (j = k)) as [->|]; [done|]. apply Hleast. lia.
  - exists k. split_and!; [done|lia|lia|done|lia].
Qed.

(** * Slab allocator: one slab

    [slab_rep sz n a F m]: in memory [m] there is a slab at [a] for [n]
    objects of [sz] bytes whose free objects are, in list order, [F]. *)

Create HintDb slab.
#[export] Hint Unfold free_next free_magic slab_total slab_free_count slab_free_list slab_next
  sizeof_slab : slab.

(** The [i]-th object. *)
Definition slot (sz a i : Z) : Z := a + 32 + i * sz.

Definition is_slot (sz n a x : Z) : Prop := ∃ i, 0 ≤ i < n ∧ x = slot sz a i.

Record slab_rep (sz n a : Z) (F : list Z) (m : gmap Z Z) : Prop := {
  sr_total : ldn 8 m a = n;
  sr_count : ldn 8 m (a + 8) = Z.of_nat (length F);
  sr_chain : chain 0 m (ldn 8 m (a + 16)) F;
  sr_slots : ∀ x, x ∈ F → is_slot sz n a x;
  sr_nodup : NoDup F;
}.

(** The words the representation depends on. *)
Definition slab_words (a : Z) (F : list Z) : list (Z * Z) := (a, 24) :: ((λ x, (x, 8)) <$> F).

Lemma slab_rep_frame sz n a F m m' l :
  slab_rep sz n a F m → agree_except l m m' → (∀ r, r ∈ slab_words a F → avoids l r) →
  slab_rep sz n a F m'.
Proof.
  intros [H1 H2 H3 H4 H5] Hag Hav.
  assert (Hh : ∀ k, k = 0 ∨ k = 8 ∨ k = 16 → ldn 8 m' (a + k) = ldn 8 m (a + k)).
  { intros k Hk. apply (agree_word l); [done|]. eapply Forall_impl; [|apply (Hav (a, 24)); by left].
    intros [b j]. unfold dis. cbn. lia. }
  split; [|rewrite Hh by lia; done| |done|done].
  - rewrite <-H1. pose proof (Hh 0) as E. rewrite Z.add_0_r in E. apply E. lia.
  - rewrite Hh by lia. eapply chain_frame; [|exact H3]. intros x Hx. rewrite Z.add_0_r.
    apply (agree_word l); [done|]. apply Hav. right. by apply (list_elem_of_fmap_2 (λ x, (x, 8))).
Qed.

(** ** Geometry: a slab of [n] objects in a block of [ssz] bytes *)

Record geometry (sz n ssz a : Z) : Prop := {
  ge_sz : 16 ≤ sz;
  ge_n : 1 ≤ n;
  ge_fit : n * sz ≤ ssz - 32 < (n + 1) * sz;
  ge_lo : KERNBASE ≤ a;
  ge_hi : a + ssz ≤ PHYSTOP;
}.

Lemma PHYSTOP_val : PHYSTOP = 2281701376.
Proof. done. Qed.
Lemma KERNBASE_val : KERNBASE = 2147483648.
Proof. done. Qed.

Section geometry.
Context (sz n ssz a : Z) (G : geometry sz n ssz a).

Lemma slot_range i : 0 ≤ i < n → a + 32 ≤ slot sz a i ∧ slot sz a i + sz ≤ a + ssz.
Proof.
  destruct G. intros Hi. unfold slot. assert (0 ≤ i * sz ≤ (n - 1) * sz) by nia. lia.
Qed.

Lemma is_slot_range x : is_slot sz n a x → a + 32 ≤ x ∧ x + sz ≤ a + ssz.
Proof. intros (i & Hi & ->). by apply slot_range. Qed.

Lemma slot_apart i j : i < j → slot sz a i + sz ≤ slot sz a j.
Proof. destruct G. unfold slot. nia. Qed.

Lemma slots_apart x y : is_slot sz n a x → is_slot sz n a y → x ≠ y → dis (x, sz) (y, sz).
Proof.
  intros (i & Hi & ->) (j & Hj & ->) Hne. unfold dis. cbn.
  destruct (Z.lt_trichotomy i j) as [H|[->|H]]; [|done|]; pose proof (slot_apart _ _ H); lia.
Qed.

Lemma geometry_small : n < 2 ^ 27.
Proof. destruct G. rewrite PHYSTOP_val, KERNBASE_val in *. nia. Qed.

(** All objects of a slab, in address order. *)
Definition all_slots : list Z := slot sz a <$> seqZ 0 n.

Lemma elem_of_all_slots x : x ∈ all_slots ↔ is_slot sz n a x.
Proof.
  unfold all_slots, is_slot. rewrite list_elem_of_fmap. setoid_rewrite elem_of_seqZ.
  split; intros (i & ? & ?); exists i; split; (done || lia).
Qed.

Lemma length_all_slots : Z.of_nat (length all_slots) = n.
Proof. destruct G. unfold all_slots. rewrite length_fmap, length_seqZ. lia. Qed.

Lemma NoDup_all_slots : NoDup all_slots.
Proof.
  apply NoDup_fmap_2; [|apply NoDup_seqZ]. intros i j E. destruct G. unfold slot in E. nia.
Qed.

Lemma slots_length F : NoDup F → (∀ x, x ∈ F → is_slot sz n a x) → Z.of_nat (length F) ≤ n.
Proof.
  intros Hnd HF. rewrite <-length_all_slots. apply Nat2Z.inj_le, submseteq_length, NoDup_submseteq; [done|].
  intros x Hx. by apply elem_of_all_slots, HF.
Qed.

(** As many free objects as objects: all are free. *)
Lemma slots_all F x :
  NoDup F → (∀ x, x ∈ F → is_slot sz n a x) → Z.of_nat (length F) = n → is_slot sz n a x → x ∈ F.
Proof.
  intros Hnd HF Hlen Hx. destruct (decide (x ∈ F)) as [|Hn]; [done|].
  assert (Z.of_nat (length (x :: F)) ≤ n); [|cbn in *; lia].
  apply slots_length; [by constructor|]. intros y [->|Hy]%elem_of_cons; auto.
Qed.

Lemma geometry_total : n = (ssz - 32) / sz.
Proof. destruct G. apply (Z.div_unique_pos _ _ _ (ssz - 32 - n * sz)); lia. Qed.
End geometry.

(** ** Running the slab code *)

(** The next load, store or return of a goal [runs]; side conditions on
    addresses are arithmetic. *)
Ltac mem_norm := rewrite ?mem_of_with_mem, ?with_mem_twice.
Ltac ram := rewrite ?PHYSTOP_val, ?KERNBASE_val in *; lia.
Ltac run1 :=
  mem_norm; cbv beta iota zeta;
  lazymatch goal with
  | |- runs (mbind _ _) _ _ => apply runs_bind
  | |- runs (mret _) _ _ => apply runs_ret
  | |- runs (loadn _ _) _ _ => apply runs_loadn; [ram|ram|]
  | |- runs (storen _ _ _) _ _ => apply runs_storen; [ram|ram|]
  | |- runs (gets _) _ _ => apply runs_gets
  | |- runs (modify _) _ _ => apply runs_modify
  end.
Ltac run := repeat run1; mem_norm.

(** Loads from a memory with known stores. *)
Ltac ld_st :=
  repeat first [ rewrite ld64_st64 by lia | rewrite ld32_st32 by lia | rewrite ldn_stn_ne by lia ].

Section ops.
Context {B : Type} `{!BlockAllocator B}.
Context (sz n ssz a : Z) (G : geometry sz n ssz a).
Implicit Types (s : kstate B) (F : list Z).

Lemma ram_lt x : x ≤ PHYSTOP → x < 2 ^ 64.
Proof. rewrite PHYSTOP_val. lia. Qed.

Lemma sr_ptr F m x : slab_rep sz n a (x :: F) m → ldn 8 m (a + 16) = x ∧ a + 32 ≤ x ∧ x + sz ≤ a + ssz.
Proof.
  intros H. pose proof (sr_chain _ _ _ _ _ H) as (E & _). split; [done|].
  apply (is_slot_range sz n ssz a G). apply (sr_slots _ _ _ _ _ H). by left.
Qed.

(** [slab_alloc] takes the head of the free list. *)
Lemma slab_alloc_spec s x F :
  slab_rep sz n a (x :: F) (mem_of s) →
  runs (slab_alloc a) s (λ r s', ∃ m', r = x ∧ s' = with_mem m' s ∧ slab_rep sz n a F m' ∧
    agree_except [(a + 8, 16)] (mem_of s) m').
Proof.
  intros H. destruct (sr_ptr _ _ _ H) as (Hp & Hx1 & Hx2). destruct G as [? ? ? Hlo Hhi].
  rewrite PHYSTOP_val, KERNBASE_val in *. pose proof (sr_count _ _ _ _ _ H) as Hc.
  pose proof (sr_chain _ _ _ _ _ H) as (_ & Hne & Hch). rewrite Z.add_0_r in Hch. cbn [length] in Hc.
  unfold slab_alloc. autounfold with slab.
  rewrite (proj2 (Z.eqb_neq a 0)) by lia. run.
  rewrite Hc, (proj2 (Z.leb_gt _ _)) by lia. run.
  ld_st. rewrite Hp, (proj2 (Z.eqb_neq x 0)) by done. run. ld_st.
  pose proof (ld64_range (mem_of s) (a + 8)) as Hr. rewrite Hc in Hr.
  rewrite u64_small by lia. eexists. split_and!; [done|done| |agree].
  pose proof (ld64_range (mem_of s) x).
  split; [by ld_st; apply H|ld_st; lia| | |].
  - ld_st. eapply chain_frame; [|exact Hch]. intros y Hy.
    assert (Hs : is_slot sz n a y) by (apply (sr_slots _ _ _ _ _ H); by right).
    apply (is_slot_range sz n ssz a G) in Hs. by ld_st.
  - intros y Hy. apply (sr_slots _ _ _ _ _ H). by right.
  - by eapply NoDup_cons_1_2, (sr_nodup _ _ _ _ _ H).
Qed.

(** [slab_free] puts an object in front of the free list. *)
Lemma slab_free_spec s x F :
  slab_rep sz n a F (mem_of s) → is_slot sz n a x → x ∉ F →
  runs (slab_free a x) s (λ _ s', ∃ m', s' = with_mem m' s ∧ slab_rep sz n a (x :: F) m' ∧
    agree_except [(a + 8, 16); (x, 8)] (mem_of s) m').
Proof.
  intros H Hx HF. pose proof (is_slot_range sz n ssz a G x Hx) as Hxr.
  assert (Z.of_nat (length (x :: F)) ≤ n) as Hlen.
  { apply (slots_length sz n ssz a G); [constructor; [done|by apply H]|].
    intros y [->|Hy]%elem_of_cons; [done|by apply (sr_slots _ _ _ _ _ H)]. }
  cbn [length] in Hlen. pose proof (geometry_small sz n ssz a G).
  destruct G as [? ? ? Hlo Hhi]. rewrite PHYSTOP_val, KERNBASE_val in *.
  pose proof (ld64_range (mem_of s) (a + 16)). pose proof (sr_count _ _ _ _ _ H) as Hc.
  unfold slab_free. autounfold with slab. run. eexists. split_and!; [done| |agree].
  ld_st. rewrite Hc. rewrite u64_small by lia.
  split.
  - ld_st. apply H.
  - ld_st. cbn [length]. lia.
  - ld_st. cbn [chain]. rewrite Z.add_0_r. split_and!; [done|lia|]. ld_st.
    eapply chain_frame; [|by apply (sr_chain _ _ _ _ _ H)]. intros y Hy.
    assert (Hs : is_slot sz n a y) by by apply (sr_slots _ _ _ _ _ H).
    assert (x ≠ y) as Hne by (intros ->; done).
    pose proof (slots_apart sz n ssz a G x y Hx Hs Hne) as Hd. unfold dis in Hd. cbn in Hd.
    apply (is_slot_range sz n ssz a G) in Hs. by ld_st.
  - intros y [->|Hy]%elem_of_cons; [done|by apply (sr_slots _ _ _ _ _ H)].
  - constructor; [done|by apply H].
Qed.

(** ** [slab_init] *)

(** The first [i] objects are linked in address order. *)
Definition linked (i : Z) (m : gmap Z Z) : Prop :=
  (∀ j, 0 ≤ j < i - 1 → ldn 8 m (slot sz a j) = slot sz a (j + 1)) ∧ ldn 8 m (slot sz a (i - 1)) = 0.

Lemma slot_next i : slot sz a i + sz = slot sz a (i + 1).
Proof. unfold slot. lia. Qed.

Lemma cut_loop_spec fuel : ∀ i s,
  1 ≤ i ≤ n → n - i < Z.of_nat fuel → linked i (mem_of s) →
  runs (cut_loop fuel sz (a + ssz) (slot sz a (i - 1)) (slot sz a i)) s
    (λ _ s', ∃ m', s' = with_mem m' s ∧ linked n m' ∧ agree_except [(a + 32, ssz - 32)] (mem_of s) m').
Proof.
  induction fuel as [|f IH]; intros i s Hi Hf [Hl H0]; [lia|]. cbn [cut_loop]. autounfold with slab.
  pose proof (slot_range sz n ssz a G (i - 1)) as Hr0. pose proof (geometry_small sz n ssz a G).
  destruct G as [? ? ? Hlo Hhi]. rewrite PHYSTOP_val, KERNBASE_val in *.
  assert (Hsi : slot sz a i = slot sz a (i - 1) + sz) by (unfold slot; lia).
  assert (Hub : sz ≤ ssz) by nia.
  rewrite u64_small by (rewrite Hsi; lia). rewrite slot_next.
  destruct (Z.leb_spec (slot sz a (i + 1)) (a + ssz)) as [Hle|Hgt].
  - assert (i < n) as Hin by (unfold slot in Hle; nia).
    pose proof (slot_range sz n ssz a G i) as Hr1. run.
    eapply runs_mono.
    { specialize (IH (i + 1)). replace (i + 1 - 1) with i in IH by lia. apply IH; [lia|lia|].
      mem_norm. split.
      - intros j Hj. pose proof (slot_range sz n ssz a G j).
        destruct (decide (j = i - 1)) as [->|Hne].
        + replace (i - 1 + 1) with i by lia. by ld_st.
        + pose proof (slot_apart sz n ssz a G j (i - 1)). by ld_st; apply Hl; lia.
      - replace (i + 1 - 1) with i by lia. by ld_st. }
    intros _ s' (m' & -> & Hm' & Hag). mem_norm. eexists. split_and!; [done|done|].
    rewrite mem_of_with_mem in Hag. eapply agree_trans; [|exact Hag]. agree.
  - assert (i = n) as -> by (unfold slot in Hgt; nia). run. exists (mem_of s).
    split_and!; [by rewrite with_mem_same|done|apply agree_refl].
Qed.

(** A linked slab is a list of all objects. *)
Lemma linked_chain m k : ∀ i, 0 ≤ i ≤ n → n - i = Z.of_nat k → linked n m →
  chain 0 m (if i =? n then 0 else slot sz a i) (slot sz a <$> seqZ i (n - i)).
Proof.
  induction k as [|k IH]; intros i Hi Hk [Hl H0].
  - assert (i = n) as -> by lia. rewrite Z.eqb_refl, Z.sub_diag. done.
  - rewrite (proj2 (Z.eqb_neq _ _)) by lia. rewrite seqZ_cons by lia. cbn [fmap list_fmap chain].
    pose proof (slot_range sz n ssz a G i). destruct G. rewrite KERNBASE_val in *.
    split_and!; [done|lia|]. rewrite Z.add_0_r.
    replace (Z.pred (n - i)) with (n - (Z.succ i)) by lia.
    replace (ldn 8 m (slot sz a i)) with (if Z.succ i =? n then 0 else slot sz a (Z.succ i));
      [apply IH; [lia|lia|done]|].
    destruct (Z.eqb_spec (Z.succ i) n) as [E|E].
    + by replace i with (n - 1) by lia.
    + rewrite Hl by lia. by replace (Z.succ i) with (i + 1) by lia.
Qed.

Lemma slab_init_spec s :
  runs (slab_init a sz ssz) s (λ r s', ∃ m', r = a ∧ s' = with_mem m' s ∧
    slab_rep sz n a (all_slots sz n a) m' ∧ agree_except [(a, 24); (a + 32, ssz - 32)] (mem_of s) m').
Proof.
  pose proof (geometry_total sz n ssz a G) as Hn. pose proof (slot_range sz n ssz a G 0) as Hr0.
  pose proof (geometry_small sz n ssz a G) as Hsm. pose proof G as [? ? ? Hlo Hhi].
  rewrite PHYSTOP_val, KERNBASE_val in *. unfold slab_init. autounfold with slab.
  assert (sz ≤ ssz) by nia. assert (Hs0 : slot sz a 0 = a + 32) by (unfold slot; lia).
  rewrite (proj2 (Z.eqb_neq a 0)) by lia. run. ld_st. run. ld_st.
  rewrite (u64_small (a + 32 + sz)), (u64_small (a + ssz)) by lia.
  replace (a + 32 + sz) with (slot sz a 1) by (unfold slot; lia).
  eapply runs_mono.
  { rewrite <-Hs0. apply (cut_loop_spec _ 1); [lia| |].
    - unfold cut_fuel. rewrite Z.max_r by lia. rewrite Z2Nat.id; [|apply Z.add_nonneg_nonneg; [apply Z.div_pos; lia|lia]].
      assert (n ≤ ssz / sz) by (apply Z.div_le_lower_bound; lia). lia.
    - mem_norm. split; [lia|]. change (1 - 1) with 0. by ld_st. }
  intros _ s' (m' & -> & Hl & Hag). rewrite mem_of_with_mem, Hs0 in Hag.
  rewrite (proj2 (Z.eqb_neq sz 0)) by lia. run. rewrite (u64_small (ssz - 32)), <-Hn by lia. ld_st.
  eexists. split_and!; [done|done| |].
  - assert (Hw : ∀ k, 0 ≤ k ≤ 16 → ldn 8 m' (a + k) = ldn 8 (st64 (st64 (mem_of s) (a + 16) (a + 32)) (a + 32) 0) (a + k)).
    { intros k Hk. apply (agree_word _ _ _ _ _ Hag). constructor; [|constructor]. unfold dis. cbn. lia. }
    split.
    + by ld_st.
    + ld_st. by rewrite (length_all_slots sz n ssz a G).
    + rewrite !ldn_stn_ne by lia. rewrite Hw by lia. ld_st. unfold all_slots.
      pose proof (linked_chain m' (Z.to_nat n) 0) as Hc. rewrite (proj2 (Z.eqb_neq 0 n)), Hs0, Z.sub_0_r in Hc by lia.
      eapply chain_frame; [|apply Hc; [lia|lia|done]]. intros x Hx.
      apply (elem_of_all_slots sz n a) in Hx.
      apply (is_slot_range sz n ssz a G) in Hx. by ld_st.
    + intros x Hx. by apply elem_of_all_slots.
    + by apply (NoDup_all_slots sz n ssz a G).
  - agree. eapply agree_trans; [|eapply agree_incl; [|exact Hag]]; [agree|set_solver].
Qed.
End ops.
