(* ===== verification/SlabList.v ===== *)
(** * Slab allocator: lists of slabs

    [move_slab] and [find_obj] on well-separated lists. *)

From S2P Require Import Prelude Riscv Mem BlockAlloc MemLock Slab SlabRep.

(** Nodes in RAM that are at least a page apart: two slabs never share a
    page. *)
Definition spaced (l : list Z) : Prop :=
  (∀ x, x ∈ l → KERNBASE ≤ x ∧ x + PGSIZE ≤ PHYSTOP) ∧
  (∀ x y, x ∈ l → y ∈ l → x ≠ y → dis (x, PGSIZE) (y, PGSIZE)).

Lemma spaced_subset l l' : l ⊆ l' → spaced l' → spaced l.
Proof. intros Hl [H1 H2]. split; intros; auto. Qed.

(** The page number of a node is different for each node. *)
Lemma spaced_length l : NoDup l → spaced l → (length l ≤ Z.to_nat (2 ^ 15))%nat.
Proof.
  intros Hnd [Hr Hs].
  assert (Hn : NoDup ((λ x, (x - KERNBASE) / 4096) <$> l)).
  { clear Hr. induction Hnd as [|x l Hx Hnd IH]; cbn; [constructor|]. constructor.
    - intros (y & E & Hy)%list_elem_of_fmap.
      assert (x ≠ y) as Hne by (intros ->; done).
      destruct (Hs x y) as [H|H]; [by left|by right|done|..]; unfold PGSIZE in H; cbn in H;
        pose proof (Z.div_mod (x - KERNBASE) 4096); pose proof (Z.div_mod (y - KERNBASE) 4096);
        pose proof (Z.mod_pos_bound (x - KERNBASE) 4096); pose proof (Z.mod_pos_bound (y - KERNBASE) 4096); lia.
    - apply IH. intros y z Hy Hz. apply Hs; by right. }
  rewrite <-(length_fmap (λ x, (x - KERNBASE) / 4096) l).
  transitivity (length (seqZ 0 (2 ^ 15))); [|by rewrite length_seqZ].
  apply submseteq_length, NoDup_submseteq; [done|]. intros k (x & -> & Hx)%list_elem_of_fmap.
  destruct (Hr x Hx). unfold PGSIZE, PHYSTOP in *. apply elem_of_seqZ.
  split; [apply Z.div_pos; lia|apply Z.div_lt_upper_bound; lia].
Qed.

Lemma list_fuel_enough l : NoDup l → spaced l → (length l < list_fuel)%nat.
Proof.
  intros Hnd Hs. pose proof (spaced_length l Hnd Hs) as H.
  assert (Z.to_nat (2 ^ 15) < list_fuel)%nat; [|lia]. unfold list_fuel. apply Z2Nat.inj_lt; lia.
Qed.

(** Cutting [a] out of a chain by linking its predecessor [y] to its
    successor. *)
Lemma chain_relink off m m' y a post pre : ∀ p,
  chain off m p (pre ++ y :: a :: post) →
  (∀ x, x ∈ pre ++ post → ldn 8 m' (x + off) = ldn 8 m (x + off)) →
  ldn 8 m' (y + off) = ldn 8 m (a + off) →
  chain off m' p (pre ++ y :: post).
Proof.
  induction pre as [|x pre IH]; intros p; cbn [app chain].
  - intros (-> & Hy & E & Ha & Hc) Hx Hya. split_and!; [done|done|]. rewrite Hya.
    eapply chain_frame; [|exact Hc]. done.
  - intros (-> & Hne & Hc) Hx Hya. split_and!; [done|done|]. rewrite (Hx x) by by left.
    apply IH; [done| |done]. intros z Hz. apply Hx. by right.
Qed.

Lemma move_parts (pre post l2 : list Z) y a :
  NoDup ((pre ++ [y]) ++ a :: post ++ l2) →
  NoDup (pre ++ y :: a :: post) ∧ (y ∉ pre ++ post ++ l2) ∧
  pre ++ y :: a :: post ⊆ (pre ++ [y]) ++ a :: post ++ l2.
Proof.
  replace ((pre ++ [y]) ++ a :: post ++ l2) with ((pre ++ y :: a :: post) ++ l2)
    by (by rewrite <-!app_assoc). intros Hnd.
  split_and!.
  - by apply list.NoDup_app in Hnd as (? & _ & _).
  - rewrite <-app_assoc in Hnd. cbn [app] in Hnd. apply list.NoDup_app in Hnd as (_ & H1 & H2).
    apply list.NoDup_cons in H2 as [H2 _]. rewrite elem_of_app. intros [Hy|Hy].
    + apply (H1 y Hy). by left.
    + apply H2. by right.
  - intros x Hx. apply elem_of_app. by left.
Qed.

(** The first node of a list that starts with some other node than [a]. *)
Lemma chain_head_ne off m p (pre post : list Z) y a :
  chain off m p (pre ++ y :: a :: post) → NoDup (pre ++ y :: a :: post) → p ≠ 0 ∧ p ≠ a.
Proof.
  destruct pre as [|x pre]; cbn [app chain]; intros (-> & Hne & _) [Hx _]%list.NoDup_cons; split; try done.
  - intros ->. apply Hx. by left.
  - intros ->. apply Hx, elem_of_app. right. right. by left.
Qed.

Section lists.
Context {B : Type} `{!BlockAllocator B}.
Implicit Types s : kstate B.

(** ** [move_slab] *)

Lemma find_prev_spec s a y post pre : ∀ p fuel,
  chain 24 (mem_of s) p (pre ++ y :: a :: post) → NoDup (pre ++ y :: a :: post) →
  spaced (pre ++ y :: a :: post) → (length pre < fuel)%nat →
  runs (find_prev fuel a p) s (λ r s', r = y ∧ s' = s).
Proof.
  induction pre as [|x pre IH]; intros p fuel Hc Hnd [Hr Hs] Hf; (destruct fuel as [|f]; [cbn in Hf; lia|]);
    cbn [find_prev]; autounfold with slab; cbn [app chain] in *.
  - destruct Hc as (-> & Hne & E & _). rewrite (proj2 (Z.eqb_neq y 0)) by done.
    destruct (Hr y) as [? ?]; [by left|]. unfold PGSIZE in *. run. rewrite E, Z.eqb_refl. run. done.
  - destruct Hc as (-> & Hne & Hc). rewrite (proj2 (Z.eqb_neq x 0)) by done.
    destruct (Hr x) as [? ?]; [by left|]. unfold PGSIZE in *. run.
    apply list.NoDup_cons in Hnd as [Hx Hnd].
    assert (Hna : ldn 8 (mem_of s) (x + 24) ≠ a).
    { destruct pre as [|z pre]; cbn [app chain] in Hc; destruct Hc as (-> & _).
      - apply list.NoDup_cons in Hnd as [Hy _]. set_solver.
      - apply list.NoDup_cons in Hnd as [Hz _]. set_solver. }
    rewrite (proj2 (Z.eqb_neq _ a)) by done. apply IH; [done|done| |cbn in Hf; lia].
    split; intros; [apply Hr|apply Hs]; try (by right); done.
Qed.

(** The address [h] of a list head: a word outside the pages of the nodes. *)
Definition hook (h : Z) (l : list Z) : Prop :=
  KERNBASE ≤ h ∧ h + 8 ≤ PHYSTOP ∧ ∀ x, x ∈ l → dis (h, 8) (x, PGSIZE).

Section move.
Context (h1 h2 a : Z) (pre post l2 : list Z) (all := pre ++ a :: post ++ l2).
Context (Hnd : NoDup all) (Hsp : spaced all) (Hh1 : hook h1 all) (Hh2 : hook h2 all).
Context (Hh : dis (h1, 8) (h2, 8)).

Lemma move_a : a ∈ all.
Proof. apply elem_of_app. right. by left. Qed.

(** Where a node other than [a] is. *)
Lemma move_other x :
  x ∈ pre ++ post ++ l2 →
  x ≠ a ∧ KERNBASE ≤ x ∧ x + 4096 ≤ PHYSTOP ∧ (x + 4096 ≤ a ∨ a + 4096 ≤ x) ∧
  (h1 + 8 ≤ x ∨ x + 4096 ≤ h1) ∧ (h2 + 8 ≤ x ∨ x + 4096 ≤ h2).
Proof.
  intros Hx. assert (Hall : x ∈ all) by (unfold all; set_solver).
  assert (Hne : x ≠ a).
  { intros ->. apply list.NoDup_app in Hnd as (_ & H1 & H2). apply list.NoDup_cons in H2 as [H2 _].
    apply elem_of_app in Hx as [Hx|Hx]; [|done]. apply (H1 a Hx). by left. }
  destruct Hsp as [Hr Hs]. pose proof (Hs x a Hall move_a Hne) as Hd. destruct (Hr x Hall).
  pose proof (proj2 (proj2 Hh1) x Hall) as D1. pose proof (proj2 (proj2 Hh2) x Hall) as D2.
  unfold dis, PGSIZE in *. cbn in *. split_and!; lia || done.
Qed.

Lemma move_where :
  KERNBASE ≤ a ∧ a + 4096 ≤ PHYSTOP ∧ (h1 + 8 ≤ a ∨ a + 4096 ≤ h1) ∧ (h2 + 8 ≤ a ∨ a + 4096 ≤ h2) ∧
  KERNBASE ≤ h1 ∧ h1 + 8 ≤ PHYSTOP ∧ KERNBASE ≤ h2 ∧ h2 + 8 ≤ PHYSTOP ∧ (h1 + 8 ≤ h2 ∨ h2 + 8 ≤ h1).
Proof.
  destruct Hh1 as (? & ? & D1), Hh2 as (? & ? & D2), Hsp as [Hr _]. destruct (Hr a move_a).
  specialize (D1 a move_a). specialize (D2 a move_a). unfold dis, PGSIZE in *. cbn in *. lia.
Qed.

Lemma in_pre x : x ∈ pre → x ∈ pre ++ post ++ l2.
Proof. intros. apply elem_of_app. by left. Qed.
Lemma in_post x : x ∈ post → x ∈ pre ++ post ++ l2.
Proof. intros. apply elem_of_app. right. apply elem_of_app. by left. Qed.
Lemma in_l2 x : x ∈ l2 → x ∈ pre ++ post ++ l2.
Proof. intros. apply elem_of_app. right. apply elem_of_app. by right. Qed.

Definition moved (s : kstate B) : unit → kstate B → Prop := λ _ s', ∃ m', s' = with_mem m' s ∧
  chain 24 m' (ldn 8 m' h1) (pre ++ post) ∧ chain 24 m' (ldn 8 m' h2) (a :: l2) ∧
  agree_except ([(h1, 8); (h2, 8)] ++ ((λ x, (x + 24, 8)) <$> a :: pre)) (mem_of s) m'.

(** [a] is the head of its list. *)
Lemma move_head s :
  pre = [] → chain 24 (mem_of s) (ldn 8 (mem_of s) h1) (a :: post) →
  chain 24 (mem_of s) (ldn 8 (mem_of s) h2) l2 → runs (move_slab h1 h2 a) s (moved s).
Proof.
  intros Hpre (E & Ha & Hc1) Hc2. pose proof move_where as Hw. rewrite PHYSTOP_val, KERNBASE_val in Hw.
  pose proof (ld64_range (mem_of s) (a + 24)). pose proof (ld64_range (mem_of s) h2).
  unfold move_slab, moved. autounfold with slab. run.
  rewrite E, (proj2 (Z.eqb_neq a 0)), Z.eqb_refl by done. run. ld_st.
  eexists. rewrite Hpre. split_and!; [done| | |cbn; agree].
  - ld_st. eapply chain_frame; [|exact Hc1]. intros x Hx.
    destruct (move_other x (in_post x Hx)) as (? & ? & ? & ? & ? & ?). rewrite KERNBASE_val in *. by ld_st.
  - ld_st. cbn [chain]. split_and!; [done|done|]. ld_st. eapply chain_frame; [|exact Hc2]. intros x Hx.
    destruct (move_other x (in_l2 x Hx)) as (? & ? & ? & ? & ? & ?). rewrite KERNBASE_val in *. by ld_st.
Qed.

(** [a] has a predecessor [y]. *)
Lemma move_inner s pre0 y :
  pre = pre0 ++ [y] → chain 24 (mem_of s) (ldn 8 (mem_of s) h1) (pre0 ++ y :: a :: post) →
  chain 24 (mem_of s) (ldn 8 (mem_of s) h2) l2 → runs (move_slab h1 h2 a) s (moved s).
Proof.
  intros Hpre Hc1 Hc2. pose proof move_where as Hw. rewrite PHYSTOP_val, KERNBASE_val in Hw.
  pose proof (ld64_range (mem_of s) (a + 24)). pose proof (ld64_range (mem_of s) h2).
  pose proof Hnd as Hnd0. unfold all in Hnd0. rewrite Hpre in Hnd0.
  destruct (move_parts _ _ _ _ _ Hnd0) as (Hnd1 & Hy & Hsub). clear Hnd0.
  assert (Hin : y ∈ pre ++ post ++ l2).
  { rewrite Hpre. apply elem_of_app. left. apply elem_of_app. right. by left. }
  destruct (move_other y Hin) as (Hya & Hy1 & Hy2 & Hy3 & Hy4 & Hy5). rewrite KERNBASE_val in *.
  destruct (chain_app _ _ _ _ _ _ Hc1) as (Hnz & Hynz & (Ea & Hanz & Hca)).
  pose proof (chain_head_ne _ _ _ _ _ _ _ Hc1 Hnd1) as Hfrom.
  unfold move_slab, moved. autounfold with slab. run.
  rewrite (proj2 (Z.eqb_neq _ 0)), (proj2 (Z.eqb_neq _ a)) by tauto. run.
  eapply runs_mono.
  { assert (Hsp1 : spaced (pre0 ++ y :: a :: post)).
    { eapply spaced_subset; [exact Hsub|]. pose proof Hsp as H'. unfold all in H'. by rewrite Hpre in H'. }
    apply (find_prev_spec _ a y post pre0); [done|done|done|].
    pose proof (list_fuel_enough _ Hnd1 Hsp1) as Hf. rewrite length_app in Hf. clear -Hf. lia. }
  intros r s' [-> ->]. rewrite (proj2 (Z.eqb_neq y 0)) by lia. run. rewrite Ea, Z.eqb_refl. cbn [negb].
  run. ld_st.
  assert (Hpw : ∀ x, x ∈ pre0 ++ post ++ l2 →
    ldn 8 (st64 (st64 (st64 (mem_of s) (y + 24) (ld64 (mem_of s) (a + 24))) (a + 24) (ld64 (mem_of s) h2)) h2 a)
      (x + 24) = ldn 8 (mem_of s) (x + 24)).
  { intros x Hx. assert (Hx' : x ∈ pre ++ post ++ l2).
    { rewrite Hpre, <-app_assoc. apply elem_of_app in Hx as [Hx|Hx]; apply elem_of_app; [by left|].
      right. by right. }
    destruct (move_other x Hx') as (_ & X1 & X2 & X3 & X4 & X5). rewrite KERNBASE_val in *.
    assert (Hxy : x ≠ y) by (intros ->; done).
    assert (Hal : ∀ z, z ∈ pre ++ post ++ l2 → z ∈ all).
    { intros z Hz. unfold all. apply elem_of_app in Hz as [Hz|Hz]; apply elem_of_app; [by left|]. right. by right. }
    pose proof (proj2 Hsp x y (Hal x Hx') (Hal y Hin) Hxy) as Hd. unfold dis, PGSIZE in Hd. cbn in Hd.
    clear -Hd Hw Hy1 Hy2 Hy3 Hy4 Hy5 X1 X2 X3 X4 X5. by rewrite !ldn_stn_ne by lia. }
  eexists. split_and!; [done| | |].
  - ld_st. rewrite Hpre, <-app_assoc. cbn [app]. eapply chain_relink; [exact Hc1| |by ld_st].
    intros x Hx. apply Hpw. rewrite app_assoc. apply elem_of_app. by left.
  - ld_st. cbn [chain]. split_and!; [done|done|]. ld_st. eapply chain_frame; [|exact Hc2]. intros x Hx.
    apply Hpw. apply elem_of_app. right. apply elem_of_app. by right.
  - cbn [app fmap list_fmap]. agree. apply agree_store; [apply agree_refl|].
    apply list.Exists_exists. exists (y + 24, 8). split; [|lia]. do 3 right.
    apply (list_elem_of_fmap_2 (λ x, (x + 24, 8))). rewrite Hpre. apply elem_of_app. right. by left.
Qed.
End move.

Lemma move_slab_spec h1 h2 a pre post l2 s :
  NoDup (pre ++ a :: post ++ l2) → spaced (pre ++ a :: post ++ l2) →
  hook h1 (pre ++ a :: post ++ l2) → hook h2 (pre ++ a :: post ++ l2) → dis (h1, 8) (h2, 8) →
  chain 24 (mem_of s) (ldn 8 (mem_of s) h1) (pre ++ a :: post) →
  chain 24 (mem_of s) (ldn 8 (mem_of s) h2) l2 →
  runs (move_slab h1 h2 a) s (moved h1 h2 a pre post l2 s).
Proof.
  intros. destruct (decide (pre = [])) as [->|Hne]; [by apply move_head|].
  destruct (exists_last Hne) as (pre0 & y & Hp). apply (move_inner h1 h2 a pre post l2) with (pre0 := pre0) (y := y);
    try done. rewrite Hp, <-app_assoc in *. done.
Qed.

(** ** [find_obj] *)

(** The test of the loop: is [x] an object of the slab at [a]? *)
Definition slot_test (sz n a x : Z) : bool :=
  let start := u64 (a + sizeof_slab) in
  (x <? u64 (start + u64 (sz * n))) && (start <=? x) && (Z.rem (u64 (x - start)) sz =? 0).

Lemma slot_test_spec sz n ssz a x :
  geometry sz n ssz a → slot_test sz n a x = true ↔ is_slot sz n a x.
Proof.
  intros G. pose proof G as [Hsz Hn Hfit Hlo Hhi]. rewrite PHYSTOP_val, KERNBASE_val in *.
  unfold slot_test, sizeof_slab. rewrite (u64_small (a + 32)), (u64_small (sz * n)), (u64_small (a + 32 + sz * n)) by lia.
  rewrite !andb_true_iff, Z.ltb_lt, Z.leb_le, Z.eqb_eq. split.
  - intros [[H1 H2] H3]. rewrite u64_small in H3 by lia. exists ((x - (a + 32)) / sz).
    rewrite Z.rem_mod_nonneg in H3 by lia. pose proof (Z.div_mod (x - (a + 32)) sz). unfold slot.
    split; [|lia]. split; [apply Z.div_pos; lia|apply Z.div_lt_upper_bound; lia].
  - intros Hs. pose proof (is_slot_range sz n ssz a G x Hs) as Hr. destruct Hs as (i & Hi & ->). unfold slot in *.
    assert (i * sz < sz * n) by nia. rewrite u64_small by lia.
    replace (a + 32 + i * sz - (a + 32)) with (i * sz) by lia.
    rewrite Z.rem_mul by lia. lia.
Qed.

Section find.
Context (sz n ssz : Z) (s : kstate B).

Lemma find_loop_hit a x : is_slot sz n a x → ∀ l p fuel,
  chain 24 (mem_of s) p l → (∀ b, b ∈ l → geometry sz n ssz b ∧ ldn 8 (mem_of s) b = n) →
  (∀ b, b ∈ l → is_slot sz n b x → b = a) → a ∈ l → (length l < fuel)%nat →
  runs (find_obj_loop fuel p x sz) s (λ r s', r = Some a ∧ s' = s).
Proof.
  intros Hx. induction l as [|b l IH]; intros p fuel Hc Hg Hu Ha Hf; [by apply elem_of_nil in Ha|].
  destruct fuel as [|f]; [cbn in Hf; lia|]. cbn [find_obj_loop chain] in *. autounfold with slab.
  destruct Hc as (-> & Hne & Hc). rewrite (proj2 (Z.eqb_neq b 0)) by done.
  destruct (Hg b) as [G Hn]; [by left|]. pose proof G as [? ? ? ? ?]. assert (32 ≤ ssz) by nia.
  run. rewrite Hn.
  change ((x <? u64 (u64 (b + 32) + u64 (sz * n))) && (u64 (b + 32) <=? x) &&
    (Z.rem (u64 (x - u64 (b + 32))) sz =? 0)) with (slot_test sz n b x).
  destruct (slot_test sz n b x) eqn:Ht.
  - apply (slot_test_spec _ _ _ _ _ G) in Ht. run. split; [|done]. f_equal. apply Hu; [by left|done].
  - run. apply IH; [done| | | |cbn in Hf; lia].
    + intros c Hc'. apply Hg. by right.
    + intros c Hc'. apply Hu. by right.
    + apply elem_of_cons in Ha as [->|Ha]; [|done].
      apply (slot_test_spec _ _ _ _ _ G) in Hx. congruence.
Qed.

Lemma find_loop_miss x : ∀ l p fuel,
  chain 24 (mem_of s) p l → (∀ b, b ∈ l → geometry sz n ssz b ∧ ldn 8 (mem_of s) b = n) →
  (∀ b, b ∈ l → ¬ is_slot sz n b x) → (length l < fuel)%nat →
  runs (find_obj_loop fuel p x sz) s (λ r s', r = None ∧ s' = s).
Proof.
  induction l as [|b l IH]; intros p fuel Hc Hg Hu Hf; (destruct fuel as [|f]; [cbn in Hf; lia|]);
    cbn [find_obj_loop chain] in *; autounfold with slab.
  - subst p. rewrite Z.eqb_refl. run. done.
  - destruct Hc as (-> & Hne & Hc). rewrite (proj2 (Z.eqb_neq b 0)) by done.
    destruct (Hg b) as [G Hn]; [by left|]. pose proof G as [? ? ? ? ?]. assert (32 ≤ ssz) by nia.
    run. rewrite Hn.
    change ((x <? u64 (u64 (b + 32) + u64 (sz * n))) && (u64 (b + 32) <=? x) &&
      (Z.rem (u64 (x - u64 (b + 32))) sz =? 0)) with (slot_test sz n b x).
    destruct (slot_test sz n b x) eqn:Ht.
    + apply (slot_test_spec _ _ _ _ _ G) in Ht. by destruct (Hu b (list_elem_of_here _ _)).
    + run. apply IH; [done| | |cbn in Hf; lia]; intros c Hc'; [apply Hg|apply Hu]; by right.
Qed.
End find.
End lists.
