(* ===== verification/CacheRep.v ===== *)
(** * Object caches: representation

    [cache_rep sz n ssz c fl pl el m]: in memory [m] the [struct cache_t] at
    [c] manages objects of [sz] bytes in slabs of [ssz] bytes, [n] objects
    each; its full, partial and empty slabs are, in list order, [fl], [pl]
    and [el].  A slab is its address and its free objects. *)

From stdpp Require Import list_tactics.
From S2P Require Import Prelude Riscv Mem BlockAlloc MemLock Slab Cache SlabRep SlabList.

#[export] Hint Unfold cache_id cache_name cache_error_msg cache_size cache_lock cache_full cache_empty
  cache_partial cache_ctor cache_dtor_field cache_prev cache_next sizeof_cache : slab.

Abbreviation slab := (Z * list Z)%type.

(** The words the representation of a list of slabs depends on, apart from
    the links between the slabs. *)
Definition slabs_words (l : list slab) : list (Z * Z) := l ≫= λ '(a, F), slab_words a F.

Lemma elem_of_slabs_words l r : r ∈ slabs_words l ↔ ∃ a F, (a, F) ∈ l ∧ r ∈ slab_words a F.
Proof.
  unfold slabs_words. rewrite list_elem_of_bind. split.
  - intros ([a F] & Hr & Hl). eauto.
  - intros (a & F & Hl & Hr). by exists (a, F).
Qed.

Lemma fmap_fst_inj (l : list slab) a F K : NoDup l.*1 → (a, F) ∈ l → (a, K) ∈ l → K = F.
Proof.
  induction l as [|[b G] l IH]; cbn; intros Hnd HF HK; [by apply elem_of_nil in HF|].
  apply list.NoDup_cons in Hnd as [Hb Hnd].
  apply elem_of_cons in HF as [EF|HF], HK as [EK|HK]; [congruence|..|by apply IH].
  - injection EF as -> ->. by destruct Hb; apply (list_elem_of_fmap_2 fst) in HK.
  - injection EK as -> ->. by destruct Hb; apply (list_elem_of_fmap_2 fst) in HF.
Qed.

Section rep.
Context (sz n ssz c : Z).

(** What holds of the slabs themselves. *)
Record slabs_ok (l : list slab) (m : gmap Z Z) : Prop := {
  so_geom : ∀ a F, (a, F) ∈ l → geometry sz n ssz a;
  so_rep : ∀ a F, (a, F) ∈ l → slab_rep sz n a F m;
  so_nodup : NoDup (l.*1);
  so_apart : ∀ a b, a ∈ l.*1 → b ∈ l.*1 → a ≠ b → dis (a, ssz) (b, ssz);
  so_cache : ∀ a, a ∈ l.*1 → dis (c, 112) (a, ssz);
}.

Record cache_rep (fl pl el : list slab) (m : gmap Z Z) : Prop := {
  cr_slabs : slabs_ok (fl ++ pl ++ el) m;
  cr_ram : KERNBASE ≤ c ∧ c + 112 ≤ PHYSTOP;
  cr_size : ldn 8 m (c + 24) = sz;
  cr_fl : chain 24 m (ldn 8 m (c + 56)) fl.*1;
  cr_el : chain 24 m (ldn 8 m (c + 64)) el.*1;
  cr_pl : chain 24 m (ldn 8 m (c + 72)) pl.*1;
  cr_full : ∀ s, s ∈ fl → s.2 = [];
  cr_part : ∀ s, s ∈ pl → 0 < Z.of_nat (length s.2) < n;
  cr_empty : ∀ s, s ∈ el → Z.of_nat (length s.2) = n;
}.

Lemma in_addrs (l : list slab) a F : (a, F) ∈ l → a ∈ l.*1.
Proof. intros H. by apply (list_elem_of_fmap_2 fst) in H. Qed.

Lemma avoids_sub l r r' : avoids l r' → r'.1 ≤ r.1 → r.1 + r.2 ≤ r'.1 + r'.2 → avoids l r.
Proof. intros Hl ? ?. eapply Forall_impl; [|exact Hl]. intros q. unfold dis. lia. Qed.

(** A memory change that avoids the words of the slabs. *)
Lemma slabs_ok_frame l m m' w :
  slabs_ok l m → agree_except w m m' → (∀ r, r ∈ slabs_words l → avoids w r) → slabs_ok l m'.
Proof.
  intros [H1 H2 H3 H4 H5] Hag Hav. split; try done. intros a F Hl.
  eapply slab_rep_frame; [by apply H2|exact Hag|]. intros r Hr. apply Hav, elem_of_slabs_words. eauto.
Qed.

Lemma chain_slabs_frame (l : list Z) m m' w p :
  agree_except w m m' → (∀ a, a ∈ l → avoids w (a + 24, 8)) → chain 24 m p l → chain 24 m' p l.
Proof. intros Hag Hav. apply chain_frame. intros a Ha. apply (agree_word _ _ _ _ _ Hag). by apply Hav. Qed.

Lemma in_full (fl pl el : list slab) a : a ∈ fl.*1 → a ∈ (fl ++ pl ++ el).*1.
Proof. rewrite !fmap_app, !elem_of_app. tauto. Qed.
Lemma in_part (fl pl el : list slab) a : a ∈ pl.*1 → a ∈ (fl ++ pl ++ el).*1.
Proof. rewrite !fmap_app, !elem_of_app. tauto. Qed.
Lemma in_empty (fl pl el : list slab) a : a ∈ el.*1 → a ∈ (fl ++ pl ++ el).*1.
Proof. rewrite !fmap_app, !elem_of_app. tauto. Qed.

Lemma cache_rep_frame fl pl el m m' w :
  cache_rep fl pl el m → agree_except w m m' → avoids w (c + 24, 8) → avoids w (c + 56, 24) →
  (∀ r, r ∈ slabs_words (fl ++ pl ++ el) → avoids w r) →
  (∀ a, a ∈ (fl ++ pl ++ el).*1 → avoids w (a + 24, 8)) → cache_rep fl pl el m'.
Proof.
  intros [H1 H2 H3 H4 H5 H6 H7 H8 H9] Hag Hs Hh Hav Hnx.
  assert (Hw : ∀ k, k = 56 ∨ k = 64 ∨ k = 72 → ldn 8 m' (c + k) = ldn 8 m (c + k)).
  { intros k Hk. apply (agree_word _ _ _ _ _ Hag). eapply avoids_sub; [exact Hh|cbn; lia|cbn; lia]. }
  split; try done.
  - by eapply slabs_ok_frame.
  - rewrite <-H3. by apply (agree_word _ _ _ _ _ Hag).
  - rewrite Hw by lia. eapply chain_slabs_frame; [done| |done]. intros a Ha. by apply Hnx, in_full.
  - rewrite Hw by lia. eapply chain_slabs_frame; [done| |done]. intros a Ha. by apply Hnx, in_empty.
  - rewrite Hw by lia. eapply chain_slabs_frame; [done| |done]. intros a Ha. by apply Hnx, in_part.
Qed.

(** One slab changes, the rest is framed. *)
Lemma slabs_ok_change l l' a F F' rest m m' w :
  slabs_ok l m → l ≡ₚ (a, F) :: rest → l' ≡ₚ (a, F') :: rest → agree_except w m m' →
  (∀ r, r ∈ slabs_words rest → avoids w r) → slab_rep sz n a F' m' → slabs_ok l' m'.
Proof.
  intros [H1 H2 H3 H4 H5] Hl Hl' Hag Hav Hrep.
  assert (Hp : l.*1 ≡ₚ l'.*1) by (by rewrite Hl, Hl').
  split.
  - intros b G. rewrite Hl'. intros [[= -> ->]|Hb]%elem_of_cons;
      [apply (H1 a F)|apply (H1 b G)]; rewrite Hl; [by left|by right].
  - intros b G. rewrite Hl'. intros [[= -> ->]|Hb]%elem_of_cons; [done|].
    eapply slab_rep_frame; [apply (H2 b G); rewrite Hl; by right|exact Hag|].
    intros r Hr. apply Hav, elem_of_slabs_words. eauto.
  - by rewrite <-Hp.
  - setoid_rewrite <-Hp. done.
  - setoid_rewrite <-Hp. done.
Qed.

(** ** Live objects *)

Definition live_obj (l : list slab) (y : Z) : Prop :=
  ∃ a F, (a, F) ∈ l ∧ is_slot sz n a y ∧ y ∉ F.

Lemma live_obj_perm l l' y : l ≡ₚ l' → live_obj l y ↔ live_obj l' y.
Proof. intros Hp. unfold live_obj. by setoid_rewrite Hp. Qed.

Lemma live_take a x F rest y :
  NoDup (x :: F) → is_slot sz n a x →
  live_obj ((a, F) :: rest) y ↔ y = x ∨ live_obj ((a, x :: F) :: rest) y.
Proof.
  intros [Hx _]%list.NoDup_cons Hs. unfold live_obj. setoid_rewrite elem_of_cons. split.
  - intros (b & G & [[= -> ->]|Hb] & Hy & Hn); [|right; eauto 10].
    destruct (decide (y = x)) as [->|]; [by left|]. right. exists a, (x :: F).
    split_and!; [by left|done|]. by intros [?|?]%elem_of_cons.
  - intros [->|(b & G & [[= -> ->]|Hb] & Hy & Hn)].
    + exists a, F. auto.
    + exists a, F. split_and!; [by left|done|]. intros ?. apply Hn. by right.
    + exists b, G. auto.
Qed.
End rep.

(** * Object caches: taking an object ([cache_alloc]'s choice of a slab) *)

Lemma dis_inside r p q : dis r p → p.1 ≤ q.1 → q.1 + q.2 ≤ p.1 + p.2 → dis r q.
Proof. unfold dis. lia. Qed.

Section facts.
Context (sz n ssz c : Z) (Hpg : PGSIZE ≤ ssz).
Implicit Types (l rest : list slab) (m : gmap Z Z).

(** Where the slabs of a cache are, for a part [k] of their addresses. *)
Lemma slabs_spaced l m k :
  slabs_ok sz n ssz c l m → k ⊆+ l.*1 →
  NoDup k ∧ spaced k ∧ ∀ h, c ≤ h → h + 8 ≤ c + 112 → KERNBASE ≤ c → c + 112 ≤ PHYSTOP → hook h k.
Proof.
  intros [H1 H2 H3 H4 H5] Hk. assert (Hin : ∀ x, x ∈ k → x ∈ l.*1) by (intros x Hx; by eapply elem_of_submseteq).
  split.
  { apply submseteq_Permutation in Hk as (k' & Hk). rewrite Hk in H3. by apply list.NoDup_app in H3 as (? & _). }
  split; [split|].
  - intros x ([a F] & -> & Ha)%Hin%list_elem_of_fmap. destruct (H1 a F Ha). cbn. lia.
  - intros x y Hx Hy Hne. pose proof (H4 x y (Hin x Hx) (Hin y Hy) Hne) as Hd.
    unfold dis in *. cbn in *. lia.
  - intros h ? ? ? ?. split; [lia|]. split; [lia|]. intros x Hx. pose proof (H5 x (Hin x Hx)) as Hd.
    unfold dis in *. cbn in *. lia.
Qed.

(** The words of the other slabs. *)
Lemma rest_words l a F rest m r :
  slabs_ok sz n ssz c l m → l ≡ₚ (a, F) :: rest → r ∈ slabs_words rest →
  dis r (c, 112) ∧ dis r (a, ssz) ∧ ∀ z, z ∈ l.*1 → dis r (z + 24, 8).
Proof.
  intros [H1 H2 H3 H4 H5] Hl (b & G & Hb & Hr)%elem_of_slabs_words.
  assert (Hbl : (b, G) ∈ l) by (rewrite Hl; by right).
  pose proof (in_addrs _ _ _ Hbl) as Hbl1. pose proof (H1 b G Hbl) as Geo.
  assert (Hal : a ∈ l.*1) by (rewrite Hl; by left).
  assert (Hne : b ≠ a).
  { intros ->. rewrite Hl in H3. apply list.NoDup_cons in H3 as [H3 _]. by apply H3, (in_addrs _ _ G). }
  assert (Hin : (r = (b, 24)) ∨ (b + 32 ≤ r.1 ∧ r.1 + r.2 ≤ b + ssz)).
  { apply elem_of_cons in Hr as [->|(x & -> & Hx)%list_elem_of_fmap]; [by left|]. right. cbn.
    pose proof (is_slot_range _ _ _ _ Geo x (sr_slots _ _ _ _ _ (H2 b G Hbl) x Hx)). destruct Geo. lia. }
  pose proof (H5 b Hbl1) as D1. pose proof (H4 b a Hbl1 Hal Hne) as D2. unfold PGSIZE in Hpg.
  unfold dis in *. cbn in *. split_and!; [destruct Hin as [->|?]; cbn; lia|destruct Hin as [->|?]; cbn; lia|].
  intros z Hz. destruct (decide (z = b)) as [->|Hzb]; [destruct Hin as [->|?]; cbn; lia|].
  pose proof (H4 b z Hbl1 Hz ltac:(done)). unfold dis in *. cbn in *. destruct Hin as [->|?]; cbn; lia.
Qed.

(** Ranges inside the cache structure, inside slab [a], or links. *)
Definition footprint (a : Z) (zs : list Z) (w : list (Z * Z)) : Prop :=
  Forall (λ q, (c ≤ q.1 ∧ q.1 + q.2 ≤ c + 112) ∨ (a ≤ q.1 ∧ q.1 + q.2 ≤ a + ssz) ∨
    ∃ z, z ∈ zs ∧ q = (z + 24, 8)) w.

Lemma rest_avoids l a F rest m w :
  slabs_ok sz n ssz c l m → l ≡ₚ (a, F) :: rest → footprint a l.*1 w →
  ∀ r, r ∈ slabs_words rest → avoids w r.
Proof.
  intros Hok Hl Hw r Hr. destruct (rest_words l a F rest m r Hok Hl Hr) as (D1 & D2 & D3).
  eapply Forall_impl; [|exact Hw]. intros q [[? ?]|[[? ?]|(z & Hz & ->)]].
  - eapply dis_inside; [exact D1|cbn; lia|cbn; lia].
  - eapply dis_inside; [exact D2|cbn; lia|cbn; lia].
  - by apply D3.
Qed.
End facts.

(** A footprint given as a concrete list of ranges. *)
Ltac foot := unfold footprint; forall_list; cbn; first [left; lia | right; left; lia].

Ltac avoid := unfold avoids; forall_list; unfold dis in *; cbn in *; lia.

Section take.
Context {B : Type} `{!BlockAllocator B}.
Context (sz n ssz c : Z) (Hpg : PGSIZE ≤ ssz) (mycpu : Z).
Implicit Types (s : kstate B) (fl pl el : list slab).

(** The words of the other slabs are untouched, the lists are known:
    the representation after one slab changed. *)
Lemma cache_rep_change fl pl el fl' pl' el' a F F' rest m m' w :
  cache_rep sz n ssz c fl pl el m →
  fl ++ pl ++ el ≡ₚ (a, F) :: rest → fl' ++ pl' ++ el' ≡ₚ (a, F') :: rest →
  agree_except w m m' → footprint ssz c a (fl ++ pl ++ el).*1 w → avoids w (c + 24, 8) →
  slab_rep sz n a F' m' →
  chain 24 m' (ldn 8 m' (c + 56)) fl'.*1 → chain 24 m' (ldn 8 m' (c + 64)) el'.*1 →
  chain 24 m' (ldn 8 m' (c + 72)) pl'.*1 →
  (∀ t, t ∈ fl' → t.2 = []) → (∀ t, t ∈ pl' → 0 < Z.of_nat (length t.2) < n) →
  (∀ t, t ∈ el' → Z.of_nat (length t.2) = n) →
  cache_rep sz n ssz c fl' pl' el' m'.
Proof.
  intros Hc Hl Hl' Hag Hfp Hav Hrep Hf He Hp Pf Pp Pe. split; try done.
  - eapply slabs_ok_change; [by apply Hc|exact Hl|exact Hl'|exact Hag| |exact Hrep].
    eapply rest_avoids; [exact Hpg|by apply Hc|exact Hl|exact Hfp].
  - by apply Hc.
  - rewrite <-(cr_size _ _ _ _ _ _ _ _ Hc). by apply (agree_word _ _ _ _ _ Hag).
Qed.

(** A list whose head and links are not touched. *)
Lemma list_kept l m m1 m2 w (zs : list Z) h (k : list Z) :
  slabs_ok sz n ssz c l m → agree_except w m1 m2 → c ≤ h → h + 8 ≤ c + 112 → avoids w (h, 8) →
  Forall (λ q, (c ≤ q.1 ∧ q.1 + q.2 ≤ c + 112) ∨ ∃ z, z ∈ zs ∧ q = (z + 24, 8)) w →
  (∀ z, z ∈ zs → z ∈ l.*1) → (∀ b, b ∈ k → b ∈ l.*1 ∧ b ∉ zs) →
  chain 24 m1 (ldn 8 m1 h) k → chain 24 m2 (ldn 8 m2 h) k.
Proof.
  intros [H1 H2 H3 H4 H5] Hag ? ? Hh Hw Hzs Hk Hc.
  rewrite (agree_word _ _ _ 8 h Hag) by done. eapply chain_frame; [|exact Hc]. intros b Hb.
  destruct (Hk b Hb) as [Hbl Hbz]. apply (agree_word _ _ _ _ _ Hag). eapply Forall_impl; [|exact Hw].
  intros q [[? ?]|(z & Hz & ->)].
  - pose proof (H5 b Hbl) as Hd. unfold dis, PGSIZE in *. cbn in *. lia.
  - assert (z ≠ b) as Hne by (intros ->; done). pose proof (H4 z b (Hzs z Hz) Hbl Hne) as Hd.
    unfold dis, PGSIZE in *. cbn in *. lia.
Qed.

(** Links and heads after a change inside slab [a] that leaves its link. *)
Lemma heads_kept fl pl el m m' w a :
  cache_rep sz n ssz c fl pl el m → agree_except w m m' → a ∈ (fl ++ pl ++ el).*1 →
  Forall (λ q, (a ≤ q.1 ∧ q.1 + q.2 ≤ a + 24) ∨ (a + 32 ≤ q.1 ∧ q.1 + q.2 ≤ a + ssz)) w →
  (∀ k, 0 ≤ k → k + 8 ≤ 112 → ldn 8 m' (c + k) = ldn 8 m (c + k)) ∧
  (∀ b, b ∈ (fl ++ pl ++ el).*1 → ldn 8 m' (b + 24) = ldn 8 m (b + 24)).
Proof.
  intros Hc Hag Ha Hw. pose proof (cr_slabs _ _ _ _ _ _ _ _ Hc) as [H1 H2 H3 H4 H5]. split.
  - intros k ? ?. apply (agree_word _ _ _ _ _ Hag). eapply Forall_impl; [|exact Hw]. intros q Hq.
    pose proof (H5 a Ha) as Hd. unfold dis, PGSIZE in *. cbn in *. lia.
  - intros b Hb. apply (agree_word _ _ _ _ _ Hag). eapply Forall_impl; [|exact Hw]. intros q Hq.
    destruct (decide (b = a)) as [->|Hne]; [unfold dis; cbn in *; lia|].
    pose proof (H4 b a Hb Ha Hne) as Hd. unfold dis, PGSIZE in *. cbn in *. lia.
Qed.

(** Geometry, representation and position of a slab of the cache. *)
Lemma slab_facts fl pl el m a F :
  cache_rep sz n ssz c fl pl el m → (a, F) ∈ fl ++ pl ++ el →
  geometry sz n ssz a ∧ slab_rep sz n a F m ∧ dis (c, 112) (a, ssz) ∧ a ∈ (fl ++ pl ++ el).*1.
Proof.
  intros Hc Hin. pose proof (cr_slabs _ _ _ _ _ _ _ _ Hc) as [H1 H2 H3 H4 H5].
  pose proof (in_addrs _ _ _ Hin) as Ha. split_and!; [by eapply H1|by apply H2|by apply H5|done].
Qed.

(** The three lists after a change inside slab [a] that leaves its link. *)
Lemma chains_kept fl pl el m m' w a :
  cache_rep sz n ssz c fl pl el m → agree_except w m m' → a ∈ (fl ++ pl ++ el).*1 →
  Forall (λ q, (a ≤ q.1 ∧ q.1 + q.2 ≤ a + 24) ∨ (a + 32 ≤ q.1 ∧ q.1 + q.2 ≤ a + ssz)) w →
  chain 24 m' (ldn 8 m' (c + 56)) fl.*1 ∧ chain 24 m' (ldn 8 m' (c + 64)) el.*1 ∧
  chain 24 m' (ldn 8 m' (c + 72)) pl.*1.
Proof.
  intros Hc Hag Ha Hw. destruct (heads_kept _ _ _ _ m' w a Hc Hag Ha Hw) as [Hh Hx].
  split_and!; rewrite Hh by lia; (eapply chain_frame; [|by apply Hc]); intros b Hb; apply Hx.
  - by apply in_full.
  - by apply in_empty.
  - by apply in_part.
Qed.

Lemma slabs_ok_perm l l' m : l ≡ₚ l' → slabs_ok sz n ssz c l m → slabs_ok sz n ssz c l' m.
Proof.
  intros Hp [H1 H2 H3 H4 H5]. assert (Hp1 : l.*1 ≡ₚ l'.*1) by (by rewrite Hp).
  split; [setoid_rewrite <-Hp|setoid_rewrite <-Hp|rewrite <-Hp1|setoid_rewrite <-Hp1|setoid_rewrite <-Hp1]; done.
Qed.

(** A slab does not depend on the links of the slabs and on the heads. *)
Lemma slab_rep_links a F m m' h zs :
  geometry sz n ssz a → slab_rep sz n a F m →
  agree_except (h ++ ((λ z, (z + 24, 8)) <$> a :: zs)) m m' → avoids h (a, ssz) →
  (∀ z, z ∈ zs → z ≠ a → dis (z, ssz) (a, ssz)) → slab_rep sz n a F m'.
Proof.
  intros G Hrep Hag Hh Hz. pose proof G as [? ? ? ? ?]. unfold PGSIZE in Hpg.
  eapply slab_rep_frame; [exact Hrep|exact Hag|]. intros r Hr.
  assert (Hw : r = (a, 24) ∨ a + 32 ≤ r.1 ∧ r.1 + r.2 ≤ a + ssz).
  { apply elem_of_cons in Hr as [->|(y & -> & Hy)%list_elem_of_fmap]; [by left|right]. cbn.
    pose proof (is_slot_range _ _ _ _ G y (sr_slots _ _ _ _ _ Hrep y Hy)). lia. }
  apply Forall_app. split.
  - eapply Forall_impl; [|exact Hh]. intros q. unfold dis. cbn. destruct Hw as [->|Hw]; cbn; lia.
  - apply Forall_fmap, list.Forall_forall. intros z Hz'. cbn.
    destruct (decide (z = a)) as [->|Hne]; [unfold dis; cbn; destruct Hw as [->|Hw]; cbn; lia|].
    apply elem_of_cons in Hz' as [?|Hz']; [done|]. pose proof (Hz z Hz' Hne) as Hd.
    unfold dis in *. cbn in *. destruct Hw as [->|Hw]; cbn; lia.
Qed.

Lemma obj_nonzero a x F m :
  geometry sz n ssz a → slab_rep sz n a (x :: F) m → (x =? 0) = false.
Proof.
  intros G Hrep. apply Z.eqb_neq. destruct (sr_ptr sz n ssz a G F m x Hrep). destruct G. unfold KERNBASE in *. lia.
Qed.

(** [move_slab] between two lists of the cache, after a change inside the
    moved slab; [k1], [k2] and [k3] are the offsets of the three heads. *)
Lemma move_between s (l1 l2 l3 pre post : list slab) a F k1 k2 k3 m m1 :
  slabs_ok sz n ssz c (l1 ++ l2 ++ l3) m → KERNBASE ≤ c → c + 112 ≤ PHYSTOP →
  56 ≤ k1 ≤ 72 → 56 ≤ k2 ≤ 72 → 56 ≤ k3 ≤ 72 → dis (k1, 8) (k2, 8) → dis (k1, 8) (k3, 8) → dis (k2, 8) (k3, 8) →
  l1 = pre ++ (a, F) :: post →
  chain 24 m1 (ldn 8 m1 (c + k1)) l1.*1 → chain 24 m1 (ldn 8 m1 (c + k2)) l2.*1 →
  chain 24 m1 (ldn 8 m1 (c + k3)) l3.*1 → mem_of s = m1 →
  runs (move_slab (c + k1) (c + k2) a) s (λ _ s', ∃ m2, s' = with_mem m2 s ∧
    chain 24 m2 (ldn 8 m2 (c + k1)) (pre ++ post).*1 ∧ chain 24 m2 (ldn 8 m2 (c + k2)) (a :: l2.*1) ∧
    chain 24 m2 (ldn 8 m2 (c + k3)) l3.*1 ∧
    agree_except ([(c + k1, 8); (c + k2, 8)] ++ ((λ z, (z + 24, 8)) <$> a :: pre.*1)) m1 m2).
Proof.
  intros Hok ? ? ? ? ? D12 D13 D23 Hl1 C1 C2 C3 <-.
  assert (Hk : (pre.*1 ++ a :: post.*1 ++ l2.*1) ⊆+ (l1 ++ l2 ++ l3).*1).
  { rewrite Hl1, !fmap_app. cbn [fmap list_fmap fst]. solve_submseteq. }
  destruct (slabs_spaced sz n ssz c Hpg _ _ _ Hok Hk) as (Knd & Ksp & Khk).
  rewrite Hl1, fmap_app in C1. cbn [fmap list_fmap fst] in C1.
  eapply runs_mono; [apply (move_slab_spec (c + k1) (c + k2) a pre.*1 post.*1 l2.*1); try done|].
  - apply Khk; lia.
  - apply Khk; lia.
  - unfold dis in *. cbn in *. lia.
  - intros _ s' (m2 & -> & Hc1 & Hc2 & Hag). exists m2. rewrite fmap_app. split_and!; [done..| |exact Hag].
    eapply (list_kept _ _ _ m2 _ (a :: pre.*1)); [exact Hok|exact Hag|lia|lia| | | | |exact C3].
    + apply Forall_app. split; [unfold dis in *; forall_list; cbn in *; lia|].
      apply Forall_fmap, list.Forall_forall. intros z Hz. cbn.
      assert (Hz' : z ∈ (l1 ++ l2 ++ l3).*1).
      { rewrite Hl1, !fmap_app. cbn. rewrite !elem_of_app, !elem_of_cons in *. tauto. }
      pose proof (so_cache _ _ _ _ _ _ Hok z Hz'). unfold dis, PGSIZE in *. cbn in *. lia.
    + apply Forall_app. split; [forall_list; cbn; left; lia|].
      apply Forall_fmap, list.Forall_forall. intros z Hz. right. by exists z.
    + intros z Hz. rewrite Hl1, !fmap_app. cbn. rewrite !elem_of_app, !elem_of_cons in *. tauto.
    + intros b Hb. split; [rewrite !fmap_app, !elem_of_app; tauto|]. intros Hz.
      pose proof (so_nodup _ _ _ _ _ _ Hok) as Hnd. rewrite Hl1, !fmap_app in Hnd. cbn in Hnd.
      apply list.NoDup_app in Hnd as (_ & Hnd & _). apply (Hnd b); rewrite !elem_of_app, ?elem_of_cons in *; tauto.
Qed.

(** [take_object] from the first partial slab, which stays partial. *)
Lemma take_partial_more s a x F pl fl el :
  cache_rep sz n ssz c fl ((a, x :: F) :: pl) el (mem_of s) → F ≠ [] →
  runs (take_object mycpu c) s (λ r s', ∃ m', r = x ∧ s' = with_mem m' s ∧
    cache_rep sz n ssz c fl ((a, F) :: pl) el m' ∧ agree_except [(a + 8, 16)] (mem_of s) m').
Proof.
  intros Hc HF. pose proof (cr_pl _ _ _ _ _ _ _ _ Hc) as (Ea & Hnz & Hcp). cbn [fst] in *.
  pose proof (cr_ram _ _ _ _ _ _ _ _ Hc) as Hram.
  assert (Hin : (a, x :: F) ∈ fl ++ ((a, x :: F) :: pl) ++ el) by (apply elem_of_app; right; by left).
  destruct (slab_facts _ _ _ _ _ _ Hc Hin) as (G & Hrep & Hca & Ha). pose proof G as [? ? ? ? ?].
  unfold take_object. autounfold with slab. run. rewrite Ea, (proj2 (Z.eqb_neq a 0)) by done.
  cbn [andb negb]. run. eapply runs_mono; [by apply (slab_alloc_spec sz n ssz a G s x F)|].
  intros r s' (m1 & -> & -> & Hrep1 & Hag). unfold PGSIZE in Hpg. run.
  rewrite (sr_count _ _ _ _ _ Hrep1), (proj2 (Z.eqb_neq (Z.of_nat (length F)) 0)), andb_false_r
    by (destruct F; cbn; [done|lia]). run.
  destruct (heads_kept _ _ _ _ m1 _ a Hc Hag Ha) as [Hh Hx].
  { forall_list. cbn. lia. }
  exists m1. split_and!; [done|done| |done].
  eapply (cache_rep_change fl ((a, x :: F) :: pl) el); [exact Hc| | |exact Hag| | |exact Hrep1|..].
  - rewrite <-app_comm_cons. symmetry. apply Permutation_middle.
  - rewrite <-app_comm_cons. symmetry. apply Permutation_middle.
  - foot.
  - avoid.
  - rewrite Hh by lia. eapply chain_frame; [|by apply Hc]. intros b Hb. by apply Hx, in_full.
  - rewrite Hh by lia. eapply chain_frame; [|by apply Hc]. intros b Hb. by apply Hx, in_empty.
  - rewrite Hh by lia. eapply chain_frame; [|by apply (cr_pl _ _ _ _ _ _ _ _ Hc)]. intros b Hb. by apply Hx, in_part.
  - by apply Hc.
  - intros t [->|Ht]%elem_of_cons; [|apply (cr_part _ _ _ _ _ _ _ _ Hc); by right]. cbn.
    pose proof (cr_part _ _ _ _ _ _ _ _ Hc (a, x :: F) (list_elem_of_here _ _)) as Hp. cbn in Hp.
    destruct F; cbn in *; [done|lia].
  - by apply Hc.
Qed.

(** [take_object] of the last object of the first partial slab: the slab
    moves to the full list. *)
Lemma take_partial_last s a x pl fl el :
  cache_rep sz n ssz c fl ((a, [x]) :: pl) el (mem_of s) →
  runs (take_object mycpu c) s (λ r s', ∃ m', r = x ∧ s' = with_mem m' s ∧
    cache_rep sz n ssz c ((a, []) :: fl) pl el m' ∧
    agree_except [(c + 56, 24); (a + 8, 24)] (mem_of s) m').
Proof.
  intros Hc. pose proof (cr_pl _ _ _ _ _ _ _ _ Hc) as (Ea & Hnz & Hcp). cbn [fst] in *.
  pose proof (cr_ram _ _ _ _ _ _ _ _ Hc) as Hram.
  assert (Hin : (a, [x]) ∈ fl ++ ((a, [x]) :: pl) ++ el) by (apply elem_of_app; right; by left).
  destruct (slab_facts _ _ _ _ _ _ Hc Hin) as (G & Hrep & Hca & Ha). pose proof G as [? ? ? ? ?].
  unfold take_object. autounfold with slab. run. rewrite Ea, (proj2 (Z.eqb_neq a 0)) by done.
  cbn [andb negb]. run. eapply runs_mono; [by apply (slab_alloc_spec sz n ssz a G s x [])|].
  intros r s' (m1 & -> & -> & Hrep1 & Hag). pose proof Hpg as Hpg'. unfold PGSIZE in Hpg'. run.
  rewrite (sr_count _ _ _ _ _ Hrep1), (obj_nonzero _ _ _ _ G Hrep). cbn [negb andb length].
  change (Z.of_nat 0 =? 0) with true. run.
  destruct (chains_kept _ _ _ _ m1 _ a Hc Hag Ha) as (Cf & Ce & Cp); [forall_list; cbn; lia|].
  eapply runs_mono.
  { eapply (move_between _ ((a, [x]) :: pl) fl el [] pl a [x] 72 56 64); [|lia..| | | | |exact Cp|exact Cf|exact Ce|by mem_norm];
      [eapply slabs_ok_perm; [|by apply Hc]; solve_Permutation|unfold dis; cbn; lia..|done]. }
  intros _ s' (m2 & -> & Hc1 & Hc2 & Hc3 & Hag2). run. exists m2. cbn in Hag2.
  assert (Hall : agree_except [(c + 56, 24); (a + 8, 24)] (mem_of s) m2).
  { eapply agree_trans; eapply agree_weaken; [exact Hag|in_ranges|exact Hag2|in_ranges]. }
  split_and!; [done|done| |done].
  eapply (cache_rep_change fl ((a, [x]) :: pl) el ((a, []) :: fl) pl el a [x] []); [exact Hc| | |exact Hall|foot|avoid| |exact Hc2|exact Hc3|exact Hc1| | |].
  - rewrite <-app_comm_cons. symmetry. apply Permutation_middle.
  - by rewrite <-app_comm_cons.
  - apply (slab_rep_links a [] m1 m2 [(c + 72, 8); (c + 56, 8)] [] G Hrep1 Hag2); [avoid|].
    intros z Hz. by apply elem_of_nil in Hz.
  - intros t [->|Ht]%elem_of_cons; [done|by apply (cr_full _ _ _ _ _ _ _ _ Hc)].
  - intros t Ht. apply (cr_part _ _ _ _ _ _ _ _ Hc). by right.
  - by apply Hc.
Qed.

(** [take_object] from the first empty slab, when there is no partial one:
    the slab moves to the partial list. *)
Lemma take_empty s a x F fl el :
  cache_rep sz n ssz c fl [] ((a, x :: F) :: el) (mem_of s) → F ≠ [] →
  runs (take_object mycpu c) s (λ r s', ∃ m', r = x ∧ s' = with_mem m' s ∧
    cache_rep sz n ssz c fl [(a, F)] el m' ∧
    agree_except [(c + 56, 24); (a + 8, 24)] (mem_of s) m').
Proof.
  intros Hc HF. pose proof (cr_el _ _ _ _ _ _ _ _ Hc) as (Ea & Hnz & Hcp).
  pose proof (cr_pl _ _ _ _ _ _ _ _ Hc) as Ep. cbn [fst fmap list_fmap chain] in *.
  pose proof (cr_ram _ _ _ _ _ _ _ _ Hc) as Hram.
  assert (Hin : (a, x :: F) ∈ fl ++ [] ++ ((a, x :: F) :: el)) by (apply elem_of_app; right; by left).
  destruct (slab_facts _ _ _ _ _ _ Hc Hin) as (G & Hrep & Hca & Ha). pose proof G as [? ? ? ? ?].
  unfold take_object. autounfold with slab. run. rewrite Ea, Ep, (proj2 (Z.eqb_neq a 0)) by done.
  change (0 =? 0) with true. cbn [andb negb]. run.
  eapply runs_mono; [by apply (slab_alloc_spec sz n ssz a G s x F)|].
  intros r s' (m1 & -> & -> & Hrep1 & Hag). pose proof Hpg as Hpg'. unfold PGSIZE in Hpg'. run.
  rewrite (obj_nonzero _ _ _ _ G Hrep). cbn [negb]. run.
  destruct (chains_kept _ _ _ _ m1 _ a Hc Hag Ha) as (Cf & Ce & Cp); [forall_list; cbn; lia|].
  eapply runs_mono.
  { eapply (move_between _ ((a, x :: F) :: el) [] fl [] el a (x :: F) 64 72 56);
      [|lia..| | | | |exact Ce|exact Cp|exact Cf|by mem_norm];
      [eapply slabs_ok_perm; [|by apply Hc]; solve_Permutation|unfold dis; cbn; lia..|done]. }
  intros _ s' (m2 & -> & Hc1 & Hc2 & Hc3 & Hag2). run. exists m2. cbn in Hag2.
  assert (Hall : agree_except [(c + 56, 24); (a + 8, 24)] (mem_of s) m2).
  { eapply agree_trans; eapply agree_weaken; [exact Hag|in_ranges|exact Hag2|in_ranges]. }
  split_and!; [done|done| |done].
  eapply (cache_rep_change fl [] ((a, x :: F) :: el) fl [(a, F)] el a (x :: F) F);
    [exact Hc| | |exact Hall|foot|avoid| |exact Hc3|exact Hc1|exact Hc2| | |].
  - symmetry. apply Permutation_middle.
  - symmetry. apply Permutation_middle.
  - apply (slab_rep_links a F m1 m2 [(c + 64, 8); (c + 72, 8)] [] G Hrep1 Hag2); [avoid|].
    intros z Hz. by apply elem_of_nil in Hz.
  - by apply Hc.
  - intros t [->|Ht]%elem_of_cons; [|by apply elem_of_nil in Ht]. cbn.
    pose proof (cr_empty _ _ _ _ _ _ _ _ Hc (a, x :: F) (list_elem_of_here _ _)) as Hp. cbn in Hp.
    destruct F; cbn in *; [done|lia].
  - intros t Ht. apply (cr_empty _ _ _ _ _ _ _ _ Hc). by right.
Qed.
End take.
