(* ===== verification/CacheAlloc.v ===== *)
(** * Object caches: [cache_alloc]

    The invariant of a cache together with the block allocator below it,
    and the specification of an allocation. *)

From stdpp Require Import list_tactics.
From S2P Require Import Prelude Riscv Mem BlockAlloc MemLock Slab Cache SlabRep SlabList CacheRep.

(** ** Locks *)

Section lock.
Context {S : Type} `{!HasMem S} (mycpu : Z) (Hcpu : 0 ≤ mycpu < 2 ^ 64).

Definition held (m : gmap Z Z) (lk : Z) : Prop := ldn 4 m lk = 1 ∧ ldn 8 m (lk + 16) = mycpu.

Lemma acquire_at_spec lk (s : S) :
  ldn 4 (mem_of s) lk = 0 → KERNBASE ≤ lk → lk + 24 ≤ PHYSTOP →
  runs (acquire_at mycpu lk) s (λ _ s', ∃ m', s' = with_mem m' s ∧ held m' lk ∧
    agree_except [(lk, 24)] (mem_of s) m').
Proof.
  intros Hl ? ?. unfold acquire_at, holding_at. run. rewrite Hl. cbn [Z.eqb]. run. rewrite Hl. cbn [Z.eqb negb]. run.
  eexists. split_and!; [done| |agree]. split; by ld_st.
Qed.

Lemma release_at_spec lk (s : S) :
  held (mem_of s) lk → KERNBASE ≤ lk → lk + 24 ≤ PHYSTOP →
  runs (release_at mycpu lk) s (λ _ s', ∃ m', s' = with_mem m' s ∧ ldn 4 m' lk = 0 ∧
    agree_except [(lk, 24)] (mem_of s) m').
Proof.
  intros [Hl Hc] ? ?. unfold release_at, holding_at. run. rewrite Hl. cbn [Z.eqb]. run.
  rewrite Hc, Z.eqb_refl. cbn [negb]. run. eexists. split_and!; [done| |agree]. by ld_st.
Qed.
End lock.

Section frames.
Context (sz n ssz c : Z) (Hpg : PGSIZE ≤ ssz).

(** A live object avoids everything the cache depends on: its owner may
    write to all of it. *)
Lemma live_avoids fl pl el m x r :
  cache_rep sz n ssz c fl pl el m → live_obj sz n (fl ++ pl ++ el) x →
  r = (c, 112) ∨ r ∈ slabs_words (fl ++ pl ++ el) ∨ (∃ a, a ∈ (fl ++ pl ++ el).*1 ∧ r = (a + 24, 8)) →
  dis r (x, sz).
Proof.
  intros Hc (a & F & Ha & Hs & HF) Hr. pose proof (cr_slabs _ _ _ _ _ _ _ _ Hc) as [H1 H2 H3 H4 H5].
  pose proof (H1 a F Ha) as G. pose proof (is_slot_range _ _ _ _ G x Hs) as Hx. pose proof G as [? ? ? ? ?].
  pose proof (in_addrs _ _ _ Ha) as Ha1. unfold PGSIZE in Hpg.
  destruct Hr as [->|[Hr|(b & Hb & ->)]].
  - pose proof (H5 a Ha1). unfold dis in *. cbn in *. lia.
  - apply elem_of_slabs_words in Hr as (b & K & Hb & Hr). pose proof (H1 b K Hb) as Gb. pose proof Gb as [? ? ? ? ?].
    destruct (decide (b = a)) as [->|Hne].
    + assert (K = F) as -> by (eapply fmap_fst_inj; done).
      apply elem_of_cons in Hr as [->|(y & -> & Hy)%list_elem_of_fmap]; [unfold dis; cbn; lia|].
      assert (x ≠ y) as Hxy by (intros ->; done).
      pose proof (slots_apart _ _ _ _ G x y Hs (sr_slots _ _ _ _ _ (H2 a F Hb) y Hy) Hxy). unfold dis in *. cbn in *. lia.
    + pose proof (H4 b a (in_addrs _ _ _ Hb) Ha1 Hne) as Hd.
      apply elem_of_cons in Hr as [->|(y & -> & Hy)%list_elem_of_fmap]; [unfold dis in *; cbn in *; lia|].
      pose proof (is_slot_range _ _ _ _ Gb y (sr_slots _ _ _ _ _ (H2 b K Hb) y Hy)). unfold dis in *. cbn in *. lia.
  - destruct (decide (b = a)) as [->|Hne]; [unfold dis; cbn; lia|].
    pose proof (H4 b a Hb Ha1 Hne) as Hd. unfold dis in *. cbn in *. lia.
Qed.

Lemma live_frame fl pl el m m' x :
  cache_rep sz n ssz c fl pl el m → live_obj sz n (fl ++ pl ++ el) x → agree_except [(x, sz)] m m' →
  cache_rep sz n ssz c fl pl el m'.
Proof.
  intros Hc Hx Hag.
  assert (Hav : ∀ r, r = (c, 112) ∨ r ∈ slabs_words (fl ++ pl ++ el) ∨
    (∃ a, a ∈ (fl ++ pl ++ el).*1 ∧ r = (a + 24, 8)) → avoids [(x, sz)] r).
  { intros r Hr. constructor; [|constructor]. by eapply live_avoids. }
  eapply cache_rep_frame; [exact Hc|exact Hag| | | |].
  - eapply avoids_sub; [apply (Hav (c, 112)); by left|cbn; lia|cbn; lia].
  - eapply avoids_sub; [apply (Hav (c, 112)); by left|cbn; lia|cbn; lia].
  - intros r Hr. apply Hav. auto.
  - intros a Ha. apply Hav. eauto.
Qed.

(** The lock and the other fields of the cache. *)
Lemma lock_frame fl pl el m m' k j :
  cache_rep sz n ssz c fl pl el m → agree_except [(c + k, j)] m m' →
  (0 ≤ k ∧ k + j ≤ 24) ∨ (32 ≤ k ∧ k + j ≤ 56) ∨ (80 ≤ k ∧ k + j ≤ 112) →
  cache_rep sz n ssz c fl pl el m'.
Proof.
  intros Hc Hag Hk. pose proof (cr_slabs _ _ _ _ _ _ _ _ Hc) as [H1 H2 H3 H4 H5].
  eapply cache_rep_frame; [exact Hc|exact Hag|avoid|avoid| |].
  - intros r (b & K & Hb & Hr)%elem_of_slabs_words. pose proof (H5 b (in_addrs _ _ _ Hb)) as Hd.
    pose proof (H1 b K Hb) as Gb. pose proof Gb as [? ? ? ? ?]. unfold PGSIZE in Hpg.
    apply elem_of_cons in Hr as [->|(y & -> & Hy)%list_elem_of_fmap]; [avoid|].
    pose proof (is_slot_range _ _ _ _ Gb y (sr_slots _ _ _ _ _ (H2 b K Hb) y Hy)). avoid.
  - intros a Ha. pose proof (H5 a Ha) as Hd. unfold PGSIZE in Hpg. avoid.
Qed.
End frames.

(** ** One more slab *)

Section snoc.
Context (sz n ssz c : Z).

(** The words of a slab lie in its block. *)
Lemma own_words l m r :
  PGSIZE ≤ ssz → slabs_ok sz n ssz c l m → r ∈ slabs_words l →
  ∃ b, b ∈ l.*1 ∧ b ≤ r.1 ∧ r.1 + r.2 ≤ b + ssz.
Proof.
  intros Hpg [H1 H2 H3 H4 H5] (b & K & Hb & Hr)%elem_of_slabs_words. exists b.
  split; [by eapply in_addrs|]. pose proof (H1 b K Hb) as Gb. pose proof Gb as [? ? ? ? ?]. unfold PGSIZE in Hpg.
  apply elem_of_cons in Hr as [->|(y & -> & Hy)%list_elem_of_fmap]; [cbn; lia|].
  pose proof (is_slot_range _ _ _ _ Gb y (sr_slots _ _ _ _ _ (H2 b K Hb) y Hy)). cbn. lia.
Qed.

Lemma slabs_ok_snoc l m a F :
  slabs_ok sz n ssz c l m → geometry sz n ssz a → slab_rep sz n a F m → a ∉ l.*1 →
  (∀ b, b ∈ l.*1 → dis (b, ssz) (a, ssz)) → dis (c, 112) (a, ssz) →
  slabs_ok sz n ssz c (l ++ [(a, F)]) m.
Proof.
  intros [H1 H2 H3 H4 H5] G Hr Ha Hap Hca.
  assert (Hin : ∀ b, b ∈ (l ++ [(a, F)]).*1 → b ∈ l.*1 ∨ b = a).
  { intros b. rewrite fmap_app, elem_of_app. cbn. rewrite elem_of_cons, elem_of_nil. tauto. }
  split.
  - intros b K [Hb|Hb]%elem_of_app; [by eapply H1|]. apply elem_of_cons in Hb as [[= -> ->]|Hb]; [done|].
    by apply elem_of_nil in Hb.
  - intros b K [Hb|Hb]%elem_of_app; [by eapply H2|]. apply elem_of_cons in Hb as [[= -> ->]|Hb]; [done|].
    by apply elem_of_nil in Hb.
  - rewrite fmap_app. apply list.NoDup_app. split_and!; [done| |apply NoDup_singleton].
    intros b Hb [->|Hn]%elem_of_cons; [done|by apply elem_of_nil in Hn].
  - intros b b' [Hb| ->]%Hin [Hb'| ->]%Hin Hne; [by apply H4|by apply Hap| |done].
    pose proof (Hap b' Hb') as Hd. unfold dis in *. tauto.
  - intros b [Hb| ->]%Hin; [by apply H5|done].
Qed.
End snoc.

(** ** The invariant of a cache *)

Section inv.
Context {B : Type} `{!BlockAllocator B}.
Context (sz n o c mycpu : Z).
#[local] Abbreviation ssz := (block_bytes o).
Implicit Types (s : kstate B) (fl pl el : list slab) (L : gset (Z * Z)).

(** The sizes of the cache's slabs: at least two objects each. *)
Record cache_sizes : Prop := {
  cs_order : get_order_from_size sz = Ret (o, ssz);
  cs_range : 0 ≤ o ≤ 15;
  cs_sz : 16 ≤ sz < 2 ^ 64;
  cs_n : 2 ≤ n;
  cs_fit : n * sz ≤ ssz - 32 < (n + 1) * sz;
}.

(** The slabs are live blocks, and so is what holds the structure itself,
    unless it is a static variable of the kernel. *)
Record cache_blocks (l : list slab) s L : Prop := {
  cb_state : block_state (k_blocks s) L;
  cb_live : ∀ a, a ∈ l.*1 → (a, o) ∈ L;
  cb_place : c + 112 ≤ kernel_end ∨ ∃ b, b ∈ L ∧ b.1 ≤ c ∧ c + 112 ≤ b.1 + block_bytes b.2;
}.

Hypothesis Hcs : cache_sizes.

Lemma ssz_page : PGSIZE ≤ ssz.
Proof. apply block_bytes_pos. apply Hcs. Qed.

(** A new block can become a slab of the cache. *)
Lemma new_slab l m s L a :
  slabs_ok sz n ssz c l m → cache_blocks l s L → new_block kernel_end L (a, o) →
  geometry sz n ssz a ∧ dis (c, 112) (a, ssz) ∧ (a ∉ l.*1) ∧ ∀ b, b ∈ l.*1 → dis (b, ssz) (a, ssz).
Proof.
  intros Hok [Hst Hl Hp] (N1 & N2 & _ & N3). cbn [fst snd] in *.
  pose proof (kernel_end_ram _ _ Hst) as Hk. pose proof ssz_page as Hpg. unfold PGSIZE in Hpg.
  assert (Hap : ∀ b, b ∈ l.*1 → dis (b, ssz) (a, ssz)).
  { intros b Hb. pose proof (N3 _ (Hl b Hb)) as Hd. unfold apart, dis in *. cbn in *.  lia. }
  split_and!; [|destruct Hp as [Hp|(b & Hb & Hb1 & Hb2)]| |done].
  - destruct Hcs. split; [lia|lia|done|lia|done].
  - unfold dis. cbn. lia.
  - pose proof (N3 _ Hb) as Hd. unfold apart, dis in *. cbn in *.  lia.
  - intros Ha. pose proof (Hap a Ha) as Hd. unfold dis in Hd. cbn in Hd. lia.
Qed.

(** [take_object] without a slab to take from, the block allocator
    delivering. *)
Lemma take_new s fl L :
  cache_rep sz n ssz c fl [] [] (mem_of s) → cache_blocks fl s L →
  ∀ a b', block_alloc o (k_blocks s) = Ret (a, b') → a ≠ 0 → new_block kernel_end L (a, o) →
  runs (take_object mycpu c) s (λ r s', ∃ m' F,
    s' = with_mem m' (mk_kstate (k_mem s) b' (caches_head s) (small_mem_caches s) (k_out s)) ∧
    all_slots sz n a = r :: F ∧ cache_rep sz n ssz c fl [(a, F)] [] m' ∧
    agree_except [(c + 72, 8); (a, ssz)] (mem_of s) m').
Proof.
  intros Hc Hcb a b' Hal Ha0 Hnew.
  pose proof (cr_el _ _ _ _ _ _ _ _ Hc) as Ee. pose proof (cr_pl _ _ _ _ _ _ _ _ Hc) as Ep.
  pose proof (cr_size _ _ _ _ _ _ _ _ Hc) as Esz. pose proof (cr_ram _ _ _ _ _ _ _ _ Hc) as Hram.
  pose proof (cr_slabs _ _ _ _ _ _ _ _ Hc) as Hok. rewrite app_nil_r in Hok. cbn [fmap list_fmap chain] in *.
  destruct (new_slab fl (mem_of s) s L a Hok Hcb Hnew) as (G & Hca & Hnin & Hap). pose proof G as [? ? ? ? ?].
  pose proof ssz_page as Hpg. unfold PGSIZE in Hpg.
  unfold take_object. autounfold with slab. run. rewrite Ee, Ep. change (0 =? 0) with true. cbn [andb]. run.
  rewrite Esz, (cs_order Hcs).
  eapply runs_eq; [reflexivity|]. run.
  eapply runs_eq; [unfold buddy_alloc; rewrite Hal; reflexivity|]. cbv beta.
  set (s1 := mk_kstate (k_mem s) b' (caches_head s) (small_mem_caches s) (k_out s)). run.
  eapply runs_mono; [by apply (slab_init_spec sz n ssz a G s1)|].
  intros r s2 (m1 & -> & -> & Hrep1 & Hag1).
  rewrite (proj2 (Z.eqb_neq a 0)) by done. run.
  destruct (all_slots sz n a) as [|x F] eqn:Hall.
  { pose proof (length_all_slots sz n ssz a G) as Hlen. rewrite Hall in Hlen. cbn in Hlen. lia. }
  eapply runs_mono; [apply (slab_alloc_spec sz n ssz a G (with_mem m1 s1) x F); by mem_norm|].
  intros r s2 (m2 & -> & -> & Hrep2 & Hag2). rewrite mem_of_with_mem in Hag2.
  assert (x ≠ 0) as Hx0.
  { destruct (sr_ptr sz n ssz a G F m1 x Hrep1). unfold KERNBASE in *. lia. }
  rewrite (proj2 (Z.eqb_neq x 0)) by done. cbn [negb]. run.
  assert (Hout : agree_except [(a, ssz)] (mem_of s) m2).
  { eapply agree_trans; eapply agree_weaken; [exact Hag1|in_ranges|exact Hag2|in_ranges]. }
  assert (E72 : ldn 8 m2 (c + 72) = 0).
  { rewrite <-Ep. apply (agree_word _ _ _ _ _ Hout). avoid. }
  rewrite E72. eexists _, F. split_and!; [done|done| |by agree; eapply agree_weaken; [exact Hout|in_ranges]].
  set (m3 := st64 (st64 m2 (a + 24) 0) (c + 72) a).
  assert (Hag3 : agree_except [(c + 72, 8); (a, ssz)] (mem_of s) m3).
  { unfold m3. agree. eapply agree_weaken; [exact Hout|in_ranges]. }
  assert (Hag4 : agree_except [(c + 72, 8); (a + 24, 8)] m2 m3) by (unfold m3; agree).
  assert (Hh : ∀ k, 0 ≤ k → k + 8 ≤ 72 → ldn 8 m3 (c + k) = ldn 8 (mem_of s) (c + k)).
  { intros k ? ?. apply (agree_word _ _ _ _ _ Hag3). avoid. }
  split; cbn [app].
  - apply slabs_ok_snoc; try done.
    + eapply slabs_ok_frame; [exact Hok|exact Hag3|]. intros r Hr.
      destruct (own_words _ _ _ _ _ _ _ ssz_page Hok Hr) as (b & Hb & ? & ?).
      pose proof (Hap b Hb). pose proof (so_cache _ _ _ _ _ _ Hok b Hb). avoid.
    + eapply slab_rep_frame; [exact Hrep2|exact Hag4|]. intros r Hr.
      assert (Hw : r = (a, 24) ∨ a + 32 ≤ r.1 ∧ r.1 + r.2 ≤ a + ssz).
      { apply elem_of_cons in Hr as [->|(y & -> & Hy)%list_elem_of_fmap]; [by left|right]. cbn.
        pose proof (is_slot_range _ _ _ _ G y (sr_slots _ _ _ _ _ Hrep2 y Hy)). lia. }
      destruct Hw as [->|Hw]; avoid.
  - done.
  - by rewrite Hh by lia.
  - rewrite Hh by lia. eapply chain_frame; [|by apply Hc]. intros b Hb.
    apply (agree_word _ _ _ _ _ Hag3). pose proof (Hap b Hb). pose proof (so_cache _ _ _ _ _ _ Hok b Hb). avoid.
  - rewrite Hh by lia. exact Ee.
  - unfold m3. cbn [fmap list_fmap chain fst]. unfold PHYSTOP, KERNBASE, dis in *. cbn [fst snd] in *. ld_st. done.
  - by apply Hc.
  - intros t [->|Ht]%elem_of_cons; [|by apply elem_of_nil in Ht]. cbn [snd].
    pose proof (length_all_slots sz n ssz a G) as Hlen. rewrite Hall in Hlen. cbn [length] in Hlen.
    pose proof (cs_n Hcs). lia.
  - intros t Ht. by apply elem_of_nil in Ht.
Qed.

(** ** What an allocation does *)

(** The static variables of the allocator. *)
Definition same_static s s' : Prop :=
  caches_head s' = caches_head s ∧ small_mem_caches s' = small_mem_caches s ∧ k_out s' = k_out s.

(** Every byte of every live object keeps its value. *)
Definition objects_kept (l : list slab) (m m' : gmap Z Z) : Prop :=
  ∀ y b, live_obj sz n l y → y ≤ b < y + sz → byte_at m' b = byte_at m b.

(** The object [x] becomes live, the others stay as they are. *)
Record gained (l l' : list slab) (x : Z) : Prop := {
  ga_new : ¬ live_obj sz n l x;
  ga_live : ∀ y, live_obj sz n l' y ↔ y = x ∨ live_obj sz n l y;
}.

Lemma gained_take l l' a x F rest :
  NoDup l.*1 → l ≡ₚ (a, x :: F) :: rest → l' ≡ₚ (a, F) :: rest → NoDup (x :: F) → is_slot sz n a x →
  (∀ b K, (b, K) ∈ rest → ¬ is_slot sz n b x) → gained l l' x.
Proof.
  intros Hnd Hl Hl' Hx Hs Hother. split.
  - rewrite (live_obj_perm _ _ _ _ _ Hl). intros (b & K & [[= -> ->]|Hb]%elem_of_cons & Hbx & HK).
    + apply HK. by left.
    + by apply (Hother b K).
  - intros y. rewrite (live_obj_perm _ _ _ _ _ Hl'), (live_obj_perm _ _ _ _ _ Hl). by apply live_take.
Qed.

Lemma slot_owner l m a b F K x :
  slabs_ok sz n ssz c l m → (a, F) ∈ l → (b, K) ∈ l → a ≠ b → is_slot sz n a x → ¬ is_slot sz n b x.
Proof.
  intros [H1 H2 H3 H4 H5] Ha Hb Hne Hx Hx'.
  pose proof (is_slot_range _ _ _ _ (H1 a F Ha) x Hx). pose proof (is_slot_range _ _ _ _ (H1 b K Hb) x Hx').
  pose proof (H4 a b (in_addrs _ _ _ Ha) (in_addrs _ _ _ Hb) Hne) as Hd. unfold dis in Hd. cbn in Hd.
  destruct Hcs. lia.
Qed.

Lemma gained_rep fl pl el m l' a x F rest :
  cache_rep sz n ssz c fl pl el m → fl ++ pl ++ el ≡ₚ (a, x :: F) :: rest → l' ≡ₚ (a, F) :: rest →
  gained (fl ++ pl ++ el) l' x.
Proof.
  intros Hc Hl Hl'. pose proof (cr_slabs _ _ _ _ _ _ _ _ Hc) as Hok. pose proof Hok as [H1 H2 H3 H4 H5].
  assert (Ha : (a, x :: F) ∈ fl ++ pl ++ el) by (rewrite Hl; by left).
  assert (Hx : is_slot sz n a x) by (apply (sr_slots _ _ _ _ _ (H2 a _ Ha)); by left).
  apply (gained_take _ _ a x F rest); [done|done|done|by apply (sr_nodup _ _ _ _ _ (H2 a _ Ha))|done|].
  intros b K Hb. assert (Hb' : (b, K) ∈ fl ++ pl ++ el) by (rewrite Hl; by right).
  apply (slot_owner _ _ a b (x :: F) K x Hok Ha Hb'); [|done]. intros ->.
  rewrite Hl in H3. cbn in H3. apply list.NoDup_cons in H3 as [H3 _]. by apply H3, (in_addrs _ _ K).
Qed.

(** Headers, links and the cache structure are disjoint from live objects. *)
Lemma kept_header fl pl el m m' a :
  cache_rep sz n ssz c fl pl el m → a ∈ (fl ++ pl ++ el).*1 →
  agree_except [(c, 112); (a, 32)] m m' → objects_kept (fl ++ pl ++ el) m m'.
Proof.
  intros Hc Ha Hag y b Hy Hb. apply Hag.
  assert (Hd : ∀ r, _ → dis r (y, sz)) by (intros r Hr; exact (live_avoids sz n ssz c ssz_page _ _ _ _ y r Hc Hy Hr)).
  assert (D1 : dis (c, 112) (y, sz)) by (apply Hd; by left).
  assert (D2 : dis (a + 24, 8) (y, sz)) by (apply Hd; eauto).
  assert (D3 : dis (a, 24) (y, sz)).
  { apply Hd. right. left. apply list_elem_of_fmap in Ha as ([a' F] & -> & Ha).
    apply elem_of_slabs_words. exists a', F. split; [done|by left]. }
  pose proof (cs_sz Hcs). unfold dis in *. cbn in *. forall_list; cbn; lia.
Qed.

(** The outcome of [take_object]: the object [x] is taken; of the cache
    structure only the list heads change. *)
Record taken fl pl el s L (x : Z) s' : Prop := {
  tk_state : ∃ fl' pl' el' L', cache_rep sz n ssz c fl' pl' el' (mem_of s') ∧
    cache_blocks (fl' ++ pl' ++ el') s' L' ∧ L ⊆ L' ∧ gained (fl ++ pl ++ el) (fl' ++ pl' ++ el') x;
  tk_kept : objects_kept (fl ++ pl ++ el) (mem_of s) (mem_of s');
  tk_fields : ∀ k j, (0 ≤ k ∧ k + Z.of_nat j ≤ 56) ∨ (80 ≤ k ∧ k + Z.of_nat j ≤ 112) →
    ldn j (mem_of s') (c + k) = ldn j (mem_of s) (c + k);
  tk_static : same_static s s';
}.

(** Taking from a slab the cache has. *)
Lemma taken_from fl pl el s L fl' pl' el' a x F rest m' :
  cache_rep sz n ssz c fl pl el (mem_of s) → cache_blocks (fl ++ pl ++ el) s L →
  fl ++ pl ++ el ≡ₚ (a, x :: F) :: rest → fl' ++ pl' ++ el' ≡ₚ (a, F) :: rest →
  cache_rep sz n ssz c fl' pl' el' m' → agree_except [(c + 56, 24); (a + 8, 24)] (mem_of s) m' →
  taken fl pl el s L x (with_mem m' s).
Proof.
  intros Hc [Hb1 Hb2 Hb3] Hl Hl' Hc' Hag.
  assert (Ha : a ∈ (fl ++ pl ++ el).*1) by (rewrite Hl; by left).
  assert (Hp : (fl ++ pl ++ el).*1 ≡ₚ (fl' ++ pl' ++ el').*1) by (by rewrite Hl, Hl').
  pose proof (so_cache _ _ _ _ _ _ (cr_slabs _ _ _ _ _ _ _ _ Hc) a Ha) as Hd. pose proof ssz_page as Hpg.
  unfold PGSIZE in Hpg. split.
  - exists fl', pl', el', L. rewrite mem_of_with_mem. split_and!; [done| |done|by eapply gained_rep].
    split; [done| |done]. intros b Hb. apply Hb2. by rewrite Hp.
  - rewrite mem_of_with_mem. eapply kept_header; [exact Hc|exact Ha|].
    eapply agree_weaken; [exact Hag|in_ranges].
  - intros k j Hk. rewrite mem_of_with_mem. apply (agree_word _ _ _ _ _ Hag). avoid.
  - done.
Qed.

(** Taking from a new slab. *)
Lemma taken_new fl s L a x F m' b' :
  let s1 := mk_kstate (k_mem s) b' (caches_head s) (small_mem_caches s) (k_out s) in
  cache_rep sz n ssz c fl [] [] (mem_of s) → cache_blocks fl s L → new_block kernel_end L (a, o) →
  block_state b' ({[(a, o)]} ∪ L) → all_slots sz n a = x :: F → cache_rep sz n ssz c fl [(a, F)] [] m' →
  agree_except [(c + 72, 8); (a, ssz)] (mem_of s) m' → taken fl [] [] s L x (with_mem m' s1).
Proof.
  intros s1 Hc Hcb Hnew Hst Hall Hc' Hag.
  pose proof (cr_slabs _ _ _ _ _ _ _ _ Hc) as Hok. cbn [app] in Hok. rewrite app_nil_r in Hok.
  destruct (new_slab fl (mem_of s) s L a Hok Hcb Hnew) as (G & Hca & Hnin & Hap).
  pose proof (NoDup_all_slots sz n ssz a G) as Hnd. rewrite Hall in Hnd.
  assert (Hx : is_slot sz n a x) by (apply elem_of_all_slots; rewrite Hall; by left).
  assert (Hnew' : ∀ b K, (b, K) ∈ fl → ∀ y, is_slot sz n b y → dis (y, sz) (a, ssz)).
  { intros b K Hb y Hy. pose proof (Hap b (in_addrs _ _ _ Hb)) as Hd.
    pose proof (is_slot_range _ _ _ _ (so_geom _ _ _ _ _ _ Hok b K Hb) y Hy). unfold dis in *. cbn in *. lia. }
  pose proof (is_slot_range _ _ _ _ G x Hx) as Hxr. pose proof (cs_sz Hcs) as Hszr.
  split.
  - exists fl, [(a, F)], [], ({[(a, o)]} ∪ L). rewrite mem_of_with_mem. cbn [app]. split_and!; [done| | |].
    + destruct Hcb as [? Hl Hp]. split; [done| |].
      * intros b. rewrite fmap_app. intros [Hb|Hb]%elem_of_app; apply elem_of_union; [right; by apply Hl|left].
        apply elem_of_cons in Hb as [->|Hb]; [by apply elem_of_singleton|by apply elem_of_nil in Hb].
      * destruct Hp as [?|(b & Hb & ?)]; [by left|right]. exists b. split; [|done]. apply elem_of_union. by right.
    + apply union_subseteq_r.
    + rewrite app_nil_r. split.
      * intros (b & K & Hb & Hy & _). pose proof (Hnew' b K Hb x Hy) as Hd. unfold dis in Hd. cbn in Hd. lia.
      * intros y. assert (Hnone : ∀ y, ¬ live_obj sz n [(a, x :: F)] y).
        { intros z (b & K & [[= -> ->]|Hb]%elem_of_cons & Hz & HK); [|by apply elem_of_nil in Hb].
          apply HK. rewrite <-Hall. by apply elem_of_all_slots. }
        unfold live_obj. setoid_rewrite elem_of_app. split.
        -- intros (b & K & [Hb|Hb] & Hy & HK); [right; by exists b, K|].
           apply elem_of_cons in Hb as [[= -> ->]|Hb]; [|by apply elem_of_nil in Hb]. left.
           destruct (decide (y = x)) as [|Hne]; [done|]. destruct (Hnone y). exists a, (x :: F).
           split_and!; [by left|done|]. by intros [?|?]%elem_of_cons.
        -- intros [->|(b & K & Hb & Hy & HK)].
           ++ exists a, F. split_and!; [right; by left|done|]. by apply list.NoDup_cons in Hnd as [? _].
           ++ exists b, K. auto.
  - rewrite mem_of_with_mem. rewrite app_nil_r. intros y b (b0 & K & Hb0 & Hy & HK) Hb. apply Hag.
    pose proof (Hnew' b0 K Hb0 y Hy) as D1.
    pose proof (is_slot_range _ _ _ _ (so_geom _ _ _ _ _ _ Hok b0 K Hb0) y Hy).
    pose proof (so_cache _ _ _ _ _ _ Hok b0 (in_addrs _ _ _ Hb0)) as D2. unfold dis in *. cbn in *.
    forall_list; cbn; lia.
  - intros k j Hk. rewrite mem_of_with_mem. apply (agree_word _ _ _ _ _ Hag). avoid.
  - done.
Qed.

(** [take_object], on every branch. *)
Lemma take_object_spec s fl pl el L :
  cache_rep sz n ssz c fl pl el (mem_of s) → cache_blocks (fl ++ pl ++ el) s L →
  runs (take_object mycpu c) s (taken fl pl el s L) ∨
  (pl = [] ∧ el = [] ∧ block_alloc o (k_blocks s) = Ret (0, k_blocks s)).
Proof.
  intros Hc Hcb. pose proof ssz_page as Hpg.
  destruct pl as [|[a [|x F]] pl]; [destruct el as [|[a [|x F]] el]|..].
  - destruct (block_alloc_law _ _ o (cb_state _ _ _ Hcb)) as [Hal|(a & b' & Hal & Hst & Hnew)];
      [by apply Hcs|right; done|left].
    rewrite app_nil_r in Hcb.
    assert (a ≠ 0).
    { destruct Hnew as [Hk _]. pose proof (kernel_end_ram _ _ Hst). unfold KERNBASE in *. cbn in Hk. lia. }
    eapply runs_mono; [by apply (take_new s fl L Hc Hcb a b')|].
    intros r s' (m' & F & -> & Hall & Hc' & Hag). by eapply taken_new.
  - pose proof (cr_empty _ _ _ _ _ _ _ _ Hc (a, []) (list_elem_of_here _ _)) as Hn. cbn in Hn.
    pose proof (cs_n Hcs). lia.
  - left. pose proof (cr_empty _ _ _ _ _ _ _ _ Hc (a, x :: F) (list_elem_of_here _ _)) as Hn. cbn in Hn.
    pose proof (cs_n Hcs). eapply runs_mono; [apply (take_empty sz n ssz c Hpg mycpu s a x F fl el Hc)|].
    { intros ->. cbn in Hn. lia. }
    intros r s' (m' & -> & -> & Hc' & Hag). eapply taken_from; [done|done| | |exact Hc'|exact Hag];
      symmetry; apply Permutation_middle.
  - pose proof (cr_part _ _ _ _ _ _ _ _ Hc (a, []) (list_elem_of_here _ _)) as Hn. cbn in Hn. lia.
  - left. destruct F as [|y F].
    + eapply runs_mono; [apply (take_partial_last sz n ssz c Hpg mycpu s a x pl fl el Hc)|].
      intros r s' (m' & -> & -> & Hc' & Hag). eapply (taken_from _ _ _ _ _ ((a, []) :: fl) pl el);
        [done|done|symmetry; apply Permutation_middle|reflexivity|exact Hc'|exact Hag].
    + eapply runs_mono; [by apply (take_partial_more sz n ssz c Hpg mycpu s a x (y :: F) pl fl el Hc)|].
      intros r s' (m' & -> & -> & Hc' & Hag). eapply taken_from; [done|done| | |exact Hc'|].
      1-2: symmetry; apply Permutation_middle. eapply agree_weaken; [exact Hag|in_ranges].
Qed.

(** ** [cache_alloc] *)

(** The invariant between two calls. *)
Record cache_inv fl pl el s L : Prop := {
  ci_rep : cache_rep sz n ssz c fl pl el (mem_of s);
  ci_lock : ldn 4 (mem_of s) (c + 32) = 0;
  ci_blocks : cache_blocks (fl ++ pl ++ el) s L;
}.

Context (call_fn : Z → Z → M (kstate B) unit) (Hcpu : 0 ≤ mycpu < 2 ^ 64).

(** A constructor returns and writes to its object only. *)
Definition ctor_ok : Prop := ∀ f x s,
  runs (call_fn f x) s (λ _ s', ∃ m', s' = with_mem m' s ∧ agree_except [(x, sz)] (mem_of s) m').

(** The outcome of an allocation. *)
Definition allocated fl pl el s L (x : Z) s' : Prop :=
  (∃ fl' pl' el' L', cache_inv fl' pl' el' s' L' ∧ L ⊆ L' ∧ gained (fl ++ pl ++ el) (fl' ++ pl' ++ el') x) ∧
  objects_kept (fl ++ pl ++ el) (mem_of s) (mem_of s') ∧ same_static s s'.

Lemma blocks_mem l s m L : cache_blocks l s L → cache_blocks l (with_mem m s) L.
Proof. intros [H1 H2 H3]. by split. Qed.

Lemma static_mem s s' m : same_static s s' → same_static s (with_mem m s').
Proof. done. Qed.
Lemma static_mem_l s s' m : same_static (with_mem m s) s' → same_static s s'.
Proof. done. Qed.

Lemma kept_field fl pl el m m' k j :
  cache_rep sz n ssz c fl pl el m → agree_except [(c + k, j)] m m' → 0 ≤ k → k + j ≤ 112 →
  objects_kept (fl ++ pl ++ el) m m'.
Proof.
  intros Hc Hag ? ? y b Hy Hb. apply Hag.
  pose proof (live_avoids sz n ssz c ssz_page _ _ _ _ y (c, 112) Hc Hy (or_introl eq_refl)) as Hd.
  unfold dis in Hd. cbn in Hd. forall_list; cbn; lia.
Qed.

Lemma kept_trans l m1 m2 m3 : objects_kept l m1 m2 → objects_kept l m2 m3 → objects_kept l m1 m3.
Proof. intros H1 H2 y b Hy Hb. by rewrite (H2 y b Hy Hb), (H1 y b Hy Hb). Qed.

(** Live objects do not overlap. *)
Lemma live_apart fl pl el m x y :
  cache_rep sz n ssz c fl pl el m → live_obj sz n (fl ++ pl ++ el) x →
  live_obj sz n (fl ++ pl ++ el) y → x ≠ y → dis (x, sz) (y, sz).
Proof.
  intros Hc (a & F & Ha & Hx & _) (b & K & Hb & Hy & _) Hne.
  pose proof (cr_slabs _ _ _ _ _ _ _ _ Hc) as [H1 H2 H3 H4 H5].
  destruct (decide (a = b)) as [->|Hab]; [by apply (slots_apart sz n ssz b (H1 b F Ha))|].
  pose proof (H4 a b (in_addrs _ _ _ Ha) (in_addrs _ _ _ Hb) Hab) as Hd.
  pose proof (is_slot_range _ _ _ _ (H1 a F Ha) x Hx). pose proof (is_slot_range _ _ _ _ (H1 b K Hb) y Hy).
  unfold dis in *. cbn in *. lia.
Qed.

(** A live object is in RAM and not null. *)
Lemma live_ram fl pl el m x :
  cache_rep sz n ssz c fl pl el m → live_obj sz n (fl ++ pl ++ el) x → KERNBASE ≤ x ∧ x + sz ≤ PHYSTOP.
Proof.
  intros Hc (a & F & Ha & Hx & _). pose proof (cr_slabs _ _ _ _ _ _ _ _ Hc) as [H1 _ _ _ _].
  pose proof (is_slot_range _ _ _ _ (H1 a F Ha) x Hx). destruct (H1 a F Ha). lia.
Qed.

(** A change inside the new object. *)
Lemma kept_new fl pl el l m m' x :
  cache_rep sz n ssz c fl pl el m → gained l (fl ++ pl ++ el) x → agree_except [(x, sz)] m m' →
  objects_kept l m m'.
Proof.
  intros Hc [Hn Hl] Hag y b Hy Hb. apply Hag.
  assert (x ≠ y) as Hne by (intros ->; done).
  pose proof (live_apart _ _ _ _ _ _ Hc (proj2 (Hl x) (or_introl eq_refl)) (proj2 (Hl y) (or_intror Hy)) Hne) as Hd.
  unfold dis in Hd. cbn in Hd. forall_list; cbn; lia.
Qed.

Lemma cache_alloc_spec s fl pl el L :
  ctor_ok → cache_inv fl pl el s L →
  runs (cache_alloc mycpu call_fn c) s (allocated fl pl el s L) ∨
  (pl = [] ∧ el = [] ∧ block_alloc o (k_blocks s) = Ret (0, k_blocks s)).
Proof.
  intros Hctor [Hc Hlk Hcb]. pose proof (cr_ram _ _ _ _ _ _ _ _ Hc) as Hram. pose proof ssz_page as Hpg.
  destruct (acquire_at_spec mycpu Hcpu (c + 32) s Hlk) as ([] & s1 & Hacq & m1 & -> & Hheld & Hag1);
    [lia|lia|].
  assert (Hc1 : cache_rep sz n ssz c fl pl el (mem_of (with_mem m1 s))).
  { rewrite mem_of_with_mem. eapply lock_frame; [done|exact Hc|exact Hag1|lia]. }
  destruct (take_object_spec (with_mem m1 s) fl pl el L Hc1 (blocks_mem _ _ _ _ Hcb)) as [Htk|Hno]; [left|right; done].
  unfold cache_alloc. rewrite (proj2 (Z.eqb_neq c 0)) by (unfold KERNBASE in *; lia).
  autounfold with slab. apply runs_bind. eapply runs_eq; [exact Hacq|]. apply runs_bind.
  eapply runs_mono; [exact Htk|]. clear Htk Hacq.
  intros x s2 [(fl' & pl' & el' & L' & Hc2 & Hcb2 & HL & Hg) Hk2 Hf2 Hs2].
  assert (Hxl : live_obj sz n (fl' ++ pl' ++ el') x) by (apply Hg; by left).
  destruct (live_ram _ _ _ _ _ Hc2 Hxl) as [Hx1 Hx2]. pose proof (cs_sz Hcs) as Hszr.
  rewrite (proj2 (Z.eqb_neq x 0)) by (unfold KERNBASE in *; lia). cbn [negb]. run.
  set (s3 := with_mem (st32 (mem_of s2) (x + 8) 0) s2).
  assert (Hctor' : runs (if negb (ldn 8 (st32 (mem_of s2) (x + 8) 0) (c + 80) =? 0) && true
    then call_fn (ldn 8 (st32 (mem_of s2) (x + 8) 0) (c + 80)) x else mret tt) s3
    (λ _ s', ∃ m', s' = with_mem m' s2 ∧ agree_except [(x, sz)] (mem_of s2) m')).
  { assert (Hag3 : agree_except [(x, sz)] (mem_of s2) (mem_of s3)) by (unfold s3; rewrite mem_of_with_mem; agree).
    destruct (negb _ && true).
    - eapply runs_mono; [apply Hctor|]. intros _ s' (m' & -> & Hag). exists m'.
      split; [by unfold s3; mem_norm|by eapply agree_trans].
    - apply runs_ret. exists (mem_of s3). split; [by unfold s3; mem_norm|done]. }
  eapply runs_mono; [exact Hctor'|]. clear Hctor'. intros _ s4 (m4 & -> & Hag4). subst s3.
  assert (Hc4 : cache_rep sz n ssz c fl' pl' el' m4) by (by eapply live_frame).
  pose proof (live_avoids sz n ssz c ssz_page _ _ _ _ x (c, 112) Hc2 Hxl (or_introl eq_refl)) as Hcx.
  assert (Hheld4 : held mycpu (mem_of (with_mem m4 s2)) (c + 32)).
  { rewrite mem_of_with_mem. destruct Hheld as [E1 E2].
    split; (rewrite (agree_word _ _ _ _ _ Hag4) by avoid).
    - rewrite Hf2 by lia. by rewrite mem_of_with_mem.
    - replace (c + 32 + 16) with (c + 48) in * by lia. rewrite Hf2 by lia. by rewrite mem_of_with_mem. }
  run. eapply runs_mono; [apply (release_at_spec mycpu (c + 32) _ Hheld4); lia|].
  intros _ s5 (m5 & -> & Hl5 & Hag5). rewrite mem_of_with_mem in Hag5. run. mem_norm.
  assert (Hc5 : cache_rep sz n ssz c fl' pl' el' m5) by (eapply lock_frame; [done|exact Hc4|exact Hag5|lia]).
  split_and!.
  - exists fl', pl', el', L'. split_and!; [|done|done]. split; rewrite ?mem_of_with_mem; [done|done|by apply blocks_mem].
  - rewrite mem_of_with_mem in *. eapply kept_trans; [|eapply kept_trans; [exact Hk2|eapply kept_trans]].
    + eapply kept_field; [exact Hc|exact Hag1|lia|lia].
    + by eapply kept_new.
    + intros y b Hy Hb. apply (kept_field fl' pl' el' m4 m5 32 24 Hc4 Hag5 ltac:(lia) ltac:(lia) y b); [|done].
      apply Hg. by right.
  - by apply static_mem, (static_mem_l _ _ m1).
Qed.
End inv.
