(* ===== verification/CacheFree.v ===== *)
(** * Object caches: [cache_free], and sequences of client calls *)

From stdpp Require Import list_tactics.
From S2P Require Import Prelude Riscv Mem BlockAlloc MemLock Slab Cache SlabRep SlabList CacheRep CacheAlloc.

Section free.
Context {B : Type} `{!BlockAllocator B}.
Context (sz n o c mycpu : Z) (lit : string → Z).
#[local] Abbreviation ssz := (block_bytes o).
Context (Hcs : cache_sizes sz n o) (Hcpu : 0 ≤ mycpu < 2 ^ 64).
Implicit Types (s : kstate B) (fl pl el : list slab) (L : gset (Z * Z)).

Let Hpg : PGSIZE ≤ ssz := ssz_page sz n o Hcs.

(** The object [x] is no longer live, the others stay as they are. *)
Definition lost (l l' : list slab) (x : Z) : Prop :=
  ∀ y, live_obj sz n l' y ↔ live_obj sz n l y ∧ y ≠ x.

Lemma lost_put a x F rest l l' :
  l ≡ₚ (a, F) :: rest → l' ≡ₚ (a, x :: F) :: rest →
  (∀ b K, (b, K) ∈ rest → ¬ is_slot sz n b x) → lost l l' x.
Proof.
  intros Hl Hl' Hother y. rewrite (live_obj_perm _ _ _ _ _ Hl'), (live_obj_perm _ _ _ _ _ Hl).
  unfold live_obj. setoid_rewrite elem_of_cons. split.
  - intros (b & K & [[= -> ->]|Hb] & Hy & HK).
    + rewrite elem_of_cons in HK. split; [exists a, F|]; tauto.
    + split; [exists b, K; tauto|]. intros ->. by apply (Hother b K).
  - intros [(b & K & [[= -> ->]|Hb] & Hy & HK) Hne].
    + exists a, (x :: F). rewrite elem_of_cons. tauto.
    + exists b, K. tauto.
Qed.

(** The magic number of an object is not part of the representation. *)
Lemma magic_frame a x F m v :
  geometry sz n ssz a → slab_rep sz n a (x :: F) m → slab_rep sz n a (x :: F) (st32 m (x + 8) v).
Proof.
  intros G Hrep. assert (Hx : is_slot sz n a x) by (apply (sr_slots _ _ _ _ _ Hrep); by left).
  pose proof (is_slot_range _ _ _ _ G x Hx). pose proof (ge_sz _ _ _ _ G).
  apply (slab_rep_frame _ _ _ _ m _ [(x + 8, 4)]); [done|agree|].
  intros r [->|(y & -> & Hy)%list_elem_of_fmap]%elem_of_cons; [avoid|].
  destruct (decide (y = x)) as [->|Hne]; [avoid|].
  pose proof (slots_apart _ _ _ _ G y x (sr_slots _ _ _ _ _ Hrep y Hy) Hx Hne). avoid.
Qed.

(** The slab that [find_obj] returns for a live object. *)
Lemma find_in (l : list slab) s p a F x :
  slabs_ok sz n ssz c l (mem_of s) → (a, F) ∈ l → is_slot sz n a x → ∀ k, k ⊆+ l → (a, F) ∈ k →
  chain 24 (mem_of s) p k.*1 → x ≠ 0 → runs (find_obj p x sz) s (λ r s', r = Some a ∧ s' = s).
Proof.
  intros Hok Ha Hx k Hk Hak Hch Hx0. pose proof Hok as [H1 H2 H3 H4 H5].
  assert (Hk1 : k.*1 ⊆+ l.*1) by (by apply fmap_submseteq).
  assert (Hin : ∀ b, b ∈ k.*1 → ∃ K, (b, K) ∈ l).
  { intros b ([b' K] & -> & Hb)%list_elem_of_fmap. exists K. by eapply elem_of_submseteq. }
  destruct (slabs_spaced sz n ssz c Hpg _ _ _ Hok Hk1) as (Knd & Ksp & _).
  unfold find_obj. assert (p ≠ 0) as Hp0.
  { destruct k as [|[b K] k]; [by apply elem_of_nil in Hak|]. cbn in Hch. destruct Hch as (-> & ? & _). done. }
  rewrite (proj2 (Z.eqb_neq x 0)), (proj2 (Z.eqb_neq p 0)) by done. cbn [orb].
  eapply find_loop_hit; [exact Hx|exact Hch| | |by eapply in_addrs|by apply list_fuel_enough].
  - intros b (K & Hb)%Hin. split; [by eapply H1|by apply (H2 b K)].
  - intros b (K & Hb)%Hin Hs. destruct (decide (b = a)) as [|Hne]; [done|].
    by destruct (slot_owner sz n o c Hcs _ _ a b F K x Hok Ha Hb).
Qed.

Lemma find_out (l : list slab) s p x :
  slabs_ok sz n ssz c l (mem_of s) → ∀ k, k ⊆+ l → (∀ b K, (b, K) ∈ k → ¬ is_slot sz n b x) →
  chain 24 (mem_of s) p k.*1 → runs (find_obj p x sz) s (λ r s', r = None ∧ s' = s).
Proof.
  intros Hok k Hk Hno Hch. pose proof Hok as [H1 H2 H3 H4 H5].
  assert (Hk1 : k.*1 ⊆+ l.*1) by (by apply fmap_submseteq).
  destruct (slabs_spaced sz n ssz c Hpg _ _ _ Hok Hk1) as (Knd & Ksp & _).
  unfold find_obj. destruct ((x =? 0) || (p =? 0)); [by apply runs_ret|].
  eapply find_loop_miss; [exact Hch| | |by apply list_fuel_enough].
  - intros b ([b' K] & -> & Hb)%list_elem_of_fmap. cbn.
    assert ((b', K) ∈ l) by (by eapply elem_of_submseteq). split; [by eapply H1|by apply (H2 b' K)].
  - intros b ([b' K] & -> & Hb)%list_elem_of_fmap. by apply (Hno b' K).
Qed.

(** The outcome of freeing [x]: of the cache structure only the list heads
    change, and the other live objects keep their contents. *)
Record freed fl pl el (m : gmap Z Z) (x : Z) (m' : gmap Z Z) : Prop := {
  fr_state : ∃ fl' pl' el', cache_rep sz n ssz c fl' pl' el' m' ∧
    (fl' ++ pl' ++ el').*1 ≡ₚ (fl ++ pl ++ el).*1 ∧ lost (fl ++ pl ++ el) (fl' ++ pl' ++ el') x;
  fr_kept : ∀ y b, live_obj sz n (fl ++ pl ++ el) y → y ≠ x → y ≤ b < y + sz → byte_at m' b = byte_at m b;
  fr_fields : ∀ k j, (0 ≤ k ∧ k + Z.of_nat j ≤ 56) ∨ (80 ≤ k ∧ k + Z.of_nat j ≤ 112) →
    ldn j m' (c + k) = ldn j m (c + k);
  fr_magic : ldn 4 m' (x + 8) = FREE_MAGIC_NUM;
}.

(** What a free writes: list heads, headers, and the first bytes of the
    object. *)
Definition free_writes (a x : Z) (zs : list Z) : list (Z * Z) :=
  [(c + 56, 24); (a + 8, 16); (x, 16)] ++ ((λ z, (z + 24, 8)) <$> a :: zs).

Lemma free_writes_forall a x zs (P : Z * Z → Prop) :
  P (c + 56, 24) → P (a + 8, 16) → P (x, 16) → (∀ z, z ∈ a :: zs → P (z + 24, 8)) →
  Forall P (free_writes a x zs).
Proof.
  intros. apply Forall_app. split; [by forall_list|]. apply Forall_fmap, list.Forall_forall. auto.
Qed.

Lemma freed_from fl pl el fl' pl' el' a x F rest zs m m' :
  cache_rep sz n ssz c fl pl el m → fl ++ pl ++ el ≡ₚ (a, F) :: rest →
  fl' ++ pl' ++ el' ≡ₚ (a, x :: F) :: rest → is_slot sz n a x → x ∉ F →
  cache_rep sz n ssz c fl' pl' el' m' → (∀ z, z ∈ zs → z ∈ (fl ++ pl ++ el).*1) →
  agree_except (free_writes a x zs) m m' → ldn 4 m' (x + 8) = FREE_MAGIC_NUM →
  freed fl pl el m x m'.
Proof.
  intros Hc Hl Hl' Hx HF Hc' Hzs Hag Hmag. pose proof (cr_slabs _ _ _ _ _ _ _ _ Hc) as Hok.
  assert (Ha : (a, F) ∈ fl ++ pl ++ el) by (rewrite Hl; by left). pose proof (in_addrs _ _ _ Ha) as Ha1.
  assert (Hzs' : ∀ z, z ∈ a :: zs → z ∈ (fl ++ pl ++ el).*1) by (intros z [->|Hz]%elem_of_cons; auto).
  pose proof Hok as [H1 H2 H3 H4 H5]. pose proof (is_slot_range _ _ _ _ (H1 a F Ha) x Hx) as Hxr.
  pose proof Hpg as Hpg'. unfold PGSIZE in Hpg'. pose proof (cs_sz _ _ _ Hcs) as Hszr.
  assert (Hxl : live_obj sz n (fl ++ pl ++ el) x) by (by exists a, F).
  split; [|..|done].
  - exists fl', pl', el'. split_and!; [done|by rewrite Hl, Hl'|]. eapply (lost_put a x F rest); [done..|].
    intros b K Hb. apply (slot_owner sz n o c Hcs _ _ a b F K x Hok Ha); [rewrite Hl; by right| |done].
    intros ->. rewrite Hl in H3. cbn in H3. apply list.NoDup_cons in H3 as [H3 _]. by apply H3, (in_addrs _ _ K).
  - intros y b Hy Hne Hb. apply Hag.
    assert (Hd : ∀ r, _ → dis r (y, sz)) by (intros r Hr; exact (live_avoids sz n ssz c Hpg _ _ _ _ y r Hc Hy Hr)).
    assert (D1 : dis (c, 112) (y, sz)) by (apply Hd; by left).
    assert (D2 : dis (a, 24) (y, sz)).
    { apply Hd. right. left. apply elem_of_slabs_words. exists a, F. split; [done|by left]. }
    pose proof (live_apart sz n o c _ _ _ _ x y Hc Hxl Hy ltac:(done)) as D3.
    apply free_writes_forall; unfold dis in *; cbn in *; [lia..|]. intros z Hz%Hzs'.
    assert (D4 : dis (z + 24, 8) (y, sz)) by (apply Hd; eauto). unfold dis in D4. cbn in D4. lia.
  - intros k j Hk. apply (agree_word _ _ _ _ _ Hag). pose proof (H5 a Ha1) as D.
    apply free_writes_forall; unfold dis in *; cbn in *; [lia..|]. intros z Hz%Hzs'.
    pose proof (H5 z Hz). cbn in *. lia.
Qed.

(** The slab and the lists after the object is put back. *)
Lemma put_object s fl pl el a F x :
  cache_rep sz n ssz c fl pl el (mem_of s) → (a, F) ∈ fl ++ pl ++ el → is_slot sz n a x → x ∉ F →
  runs (slab_free a x) s (λ _ s', ∃ m', s' = with_mem m' s ∧ ∀ m1, m1 = st32 m' (x + 8) FREE_MAGIC_NUM →
    slab_rep sz n a (x :: F) m1 ∧ agree_except [(a + 8, 16); (x, 16)] (mem_of s) m1 ∧
    chain 24 m1 (ldn 8 m1 (c + 56)) fl.*1 ∧ chain 24 m1 (ldn 8 m1 (c + 64)) el.*1 ∧
    chain 24 m1 (ldn 8 m1 (c + 72)) pl.*1 ∧ ldn 4 m1 (x + 8) = FREE_MAGIC_NUM).
Proof.
  intros Hc Ha Hx HF. destruct (slab_facts sz n ssz c _ _ _ _ _ _ Hc Ha) as (G & Hrep & Hca & Ha1).
  pose proof (is_slot_range _ _ _ _ G x Hx) as Hxr. pose proof G as [? ? ? ? ?].
  eapply runs_mono; [by apply (slab_free_spec sz n ssz a G s x F)|].
  intros _ s' (m' & -> & Hrep' & Hag). exists m'. split; [done|]. intros m1 ->.
  assert (Hag1 : agree_except [(a + 8, 16); (x, 16)] (mem_of s) (st32 m' (x + 8) FREE_MAGIC_NUM)).
  { agree. eapply agree_weaken; [exact Hag|in_ranges]. }
  destruct (chains_kept sz n ssz c Hpg _ _ _ _ _ _ a Hc Hag1 Ha1) as (Cf & Ce & Cp); [forall_list; cbn; lia|].
  split_and!; [by apply magic_frame|done..|]. unfold FREE_MAGIC_NUM. by ld_st.
Qed.

(** The object goes back to a partial slab, which stays partial. *)
Lemma free_stay s fl pl el pre post a F x :
  cache_rep sz n ssz c fl pl el (mem_of s) → pl = pre ++ (a, F) :: post → is_slot sz n a x → x ∉ F →
  ∀ m1, slab_rep sz n a (x :: F) m1 → agree_except [(a + 8, 16); (x, 16)] (mem_of s) m1 →
  chain 24 m1 (ldn 8 m1 (c + 56)) fl.*1 → chain 24 m1 (ldn 8 m1 (c + 64)) el.*1 →
  chain 24 m1 (ldn 8 m1 (c + 72)) pl.*1 → ldn 4 m1 (x + 8) = FREE_MAGIC_NUM →
  Z.of_nat (length (x :: F)) < n → freed fl pl el (mem_of s) x m1.
Proof.
  intros Hc Hpl Hx HF m1 Hrep Hag Cf Ce Cp Hmag Hlt.
  assert (Hl : fl ++ pl ++ el ≡ₚ (a, F) :: fl ++ (pre ++ post) ++ el) by (rewrite Hpl; solve_Permutation).
  assert (Ha : (a, F) ∈ fl ++ pl ++ el) by (rewrite Hl; by left).
  destruct (slab_facts sz n ssz c _ _ _ _ _ _ Hc Ha) as (G & _ & Hca & Ha1).
  pose proof (is_slot_range _ _ _ _ G x Hx) as Hxr. pose proof G as [? ? ? ? ?].
  assert (Hl' : fl ++ (pre ++ (a, x :: F) :: post) ++ el ≡ₚ (a, x :: F) :: fl ++ (pre ++ post) ++ el)
    by solve_Permutation.
  eapply (freed_from fl pl el fl (pre ++ (a, x :: F) :: post) el a x F _ []); [done|exact Hl|exact Hl'|done|done| | | |done].
  - eapply (cache_rep_change sz n ssz c Hpg fl pl el _ _ _ a F (x :: F)); [exact Hc|exact Hl|exact Hl'|exact Hag|foot|avoid|done|done|done|..].
    + rewrite Hpl in Cp. rewrite fmap_app in *. exact Cp.
    + by apply Hc.
    + intros t Ht. assert (Hp : ∀ t, t ∈ pl → _) by (apply Hc). rewrite Hpl in Hp.
      apply elem_of_app in Ht as [Ht|[->|Ht]%elem_of_cons]; [apply Hp, elem_of_app; auto|cbn [snd length] in *; lia|].
      apply Hp, elem_of_app. right. by right.
    + by apply Hc.
  - intros z Hz. by apply elem_of_nil in Hz.
  - eapply agree_weaken; [exact Hag|]. unfold free_writes. cbn. in_ranges.
Qed.

(** A slab that changed and then moved to another list. *)
Lemma moved_change fl pl el a F x zs k1 k2 m m1 m2 :
  cache_rep sz n ssz c fl pl el m → (a, F) ∈ fl ++ pl ++ el → is_slot sz n a x →
  (∀ z, z ∈ zs → z ∈ (fl ++ pl ++ el).*1) → 56 ≤ k1 ≤ 72 → 56 ≤ k2 ≤ 72 →
  agree_except [(a + 8, 16); (x, 16)] m m1 → slab_rep sz n a (x :: F) m1 →
  agree_except ([(c + k1, 8); (c + k2, 8)] ++ ((λ z, (z + 24, 8)) <$> a :: zs)) m1 m2 →
  agree_except (free_writes a x zs) m m2 ∧ slab_rep sz n a (x :: F) m2 ∧
  footprint ssz c a (fl ++ pl ++ el).*1 (free_writes a x zs) ∧ avoids (free_writes a x zs) (c + 24, 8) ∧
  ldn 4 m2 (x + 8) = ldn 4 m1 (x + 8).
Proof.
  intros Hc Ha Hx Hzs ? ? Hag1 Hrep Hag2.
  destruct (slab_facts sz n ssz c _ _ _ _ _ _ Hc Ha) as (G & _ & Hca & Ha1).
  pose proof (cr_slabs _ _ _ _ _ _ _ _ Hc) as [H1 H2 H3 H4 H5]. pose proof Hpg as Hpg'. unfold PGSIZE in Hpg'.
  pose proof (is_slot_range _ _ _ _ G x Hx) as Hxr. pose proof G as [? ? ? ? ?].
  assert (Hzs' : ∀ z, z ∈ a :: zs → z ∈ (fl ++ pl ++ el).*1) by (intros z [->|Hz]%elem_of_cons; auto).
  split_and!.
  - eapply agree_trans; eapply agree_weaken; [exact Hag1|unfold free_writes; cbn; in_ranges|exact Hag2|].
    apply Forall_app. split; [unfold free_writes; cbn; in_ranges|].
    apply Forall_fmap, list.Forall_forall. intros z Hz. apply list.Exists_exists. exists (z + 24, 8).
    split; [|cbn; lia]. apply elem_of_app. right. by apply (list_elem_of_fmap_2 (λ z, (z + 24, 8))).
  - eapply slab_rep_links; [exact Hpg|exact G|exact Hrep|exact Hag2|avoid|]. intros z Hz Hne. apply H4; auto.
  - apply free_writes_forall; cbn; [left; lia|right; left; lia..|]. intros z Hz. right. right. eauto.
  - apply free_writes_forall; unfold dis in *; cbn in *; [lia..|]. intros z Hz%Hzs'%H5. cbn in *. lia.
  - apply (agree_word _ _ _ _ _ Hag2). apply Forall_app. split; [avoid|]. apply Forall_fmap, list.Forall_forall.
    intros z Hz. unfold dis. cbn. destruct (decide (z = a)) as [->|Hne]; [lia|].
    pose proof (H4 z a (Hzs' z Hz) Ha1 Hne) as Hd. unfold dis in *. cbn in *. lia.
Qed.

Lemma free_to_empty s fl pl el pre post a F x m m1 :
  cache_rep sz n ssz c fl pl el m → pl = pre ++ (a, F) :: post → is_slot sz n a x → x ∉ F →
  slab_rep sz n a (x :: F) m1 → agree_except [(a + 8, 16); (x, 16)] m m1 →
  chain 24 m1 (ldn 8 m1 (c + 56)) fl.*1 → chain 24 m1 (ldn 8 m1 (c + 64)) el.*1 →
  chain 24 m1 (ldn 8 m1 (c + 72)) pl.*1 → ldn 4 m1 (x + 8) = FREE_MAGIC_NUM →
  Z.of_nat (length (x :: F)) = n → mem_of s = m1 →
  runs (move_slab (c + 72) (c + 64) a) s (λ _ s', ∃ m2, s' = with_mem m2 s ∧ freed fl pl el m x m2).
Proof.
  intros Hc Hpl Hx HF Hrep Hag Cf Ce Cp Hmag Hlt Hm.
  assert (Hl : fl ++ pl ++ el ≡ₚ (a, F) :: fl ++ (pre ++ post) ++ el) by (rewrite Hpl; solve_Permutation).
  assert (Ha : (a, F) ∈ fl ++ pl ++ el) by (rewrite Hl; by left). pose proof (cr_ram _ _ _ _ _ _ _ _ Hc) as Hram.
  eapply runs_mono.
  { eapply (move_between sz n ssz c Hpg s pl el fl pre post a F 72 64 56 m m1);
      [|lia..| | | |exact Hpl|exact Cp|exact Ce|exact Cf|exact Hm];
      [eapply slabs_ok_perm; [|by apply Hc]; solve_Permutation|unfold dis; cbn; lia..]. }
  intros _ s' (m2 & -> & Hc1 & Hc2 & Hc3 & Hag2). exists m2. split; [done|].
  assert (Hzs : ∀ z, z ∈ pre.*1 → z ∈ (fl ++ pl ++ el).*1).
  { intros z Hz. rewrite Hpl, !fmap_app, !elem_of_app. auto. }
  destruct (moved_change _ _ _ a F x pre.*1 72 64 _ _ _ Hc Ha Hx Hzs ltac:(lia) ltac:(lia) Hag Hrep Hag2)
    as (Hall & Hrep2 & Hfp & Hav & Hm2).
  assert (Hl' : fl ++ (pre ++ post) ++ (a, x :: F) :: el ≡ₚ (a, x :: F) :: fl ++ (pre ++ post) ++ el) by solve_Permutation.
  eapply (freed_from fl pl el fl (pre ++ post) ((a, x :: F) :: el) a x F _ pre.*1);
    [exact Hc|exact Hl|exact Hl'|exact Hx|exact HF| |exact Hzs|exact Hall|by rewrite Hm2].
  eapply (cache_rep_change sz n ssz c Hpg fl pl el _ _ _ a F (x :: F));
    [exact Hc|exact Hl|exact Hl'|exact Hall|exact Hfp|exact Hav|exact Hrep2|exact Hc3|exact Hc2|exact Hc1|by apply Hc|..].
  - intros t Ht. apply (cr_part _ _ _ _ _ _ _ _ Hc). rewrite Hpl, elem_of_app, elem_of_cons.
    apply elem_of_app in Ht as [|]; auto.
  - intros t [->|Ht]%elem_of_cons; [done|by apply (cr_empty _ _ _ _ _ _ _ _ Hc)].
Qed.

Lemma free_full s fl pl el pre post a F x m m1 :
  cache_rep sz n ssz c fl pl el m → fl = pre ++ (a, F) :: post → is_slot sz n a x → x ∉ F →
  slab_rep sz n a (x :: F) m1 → agree_except [(a + 8, 16); (x, 16)] m m1 →
  chain 24 m1 (ldn 8 m1 (c + 56)) fl.*1 → chain 24 m1 (ldn 8 m1 (c + 64)) el.*1 →
  chain 24 m1 (ldn 8 m1 (c + 72)) pl.*1 → ldn 4 m1 (x + 8) = FREE_MAGIC_NUM → mem_of s = m1 →
  runs (move_slab (c + 56) (c + 72) a) s (λ _ s', ∃ m2, s' = with_mem m2 s ∧ freed fl pl el m x m2).
Proof.
  intros Hc Hfl Hx HF Hrep Hag Cf Ce Cp Hmag Hm.
  assert (Hl : fl ++ pl ++ el ≡ₚ (a, F) :: (pre ++ post) ++ pl ++ el) by (rewrite Hfl; solve_Permutation).
  assert (Ha : (a, F) ∈ fl ++ pl ++ el) by (rewrite Hl; by left). pose proof (cr_ram _ _ _ _ _ _ _ _ Hc) as Hram.
  eapply runs_mono.
  { eapply (move_between sz n ssz c Hpg s fl pl el pre post a F 56 72 64 m m1);
      [|lia..| | | |exact Hfl|exact Cf|exact Cp|exact Ce|exact Hm];
      [by apply Hc|unfold dis; cbn; lia..]. }
  intros _ s' (m2 & -> & Hc1 & Hc2 & Hc3 & Hag2). exists m2. split; [done|].
  assert (Hzs : ∀ z, z ∈ pre.*1 → z ∈ (fl ++ pl ++ el).*1).
  { intros z Hz. rewrite Hfl, !fmap_app, !elem_of_app. auto. }
  destruct (moved_change _ _ _ a F x pre.*1 56 72 _ _ _ Hc Ha Hx Hzs ltac:(lia) ltac:(lia) Hag Hrep Hag2)
    as (Hall & Hrep2 & Hfp & Hav & Hm2).
  assert (Hl' : (pre ++ post) ++ ((a, x :: F) :: pl) ++ el ≡ₚ (a, x :: F) :: (pre ++ post) ++ pl ++ el) by solve_Permutation.
  eapply (freed_from fl pl el (pre ++ post) ((a, x :: F) :: pl) el a x F _ pre.*1);
    [exact Hc|exact Hl|exact Hl'|exact Hx|exact HF| |exact Hzs|exact Hall|by rewrite Hm2].
  eapply (cache_rep_change sz n ssz c Hpg fl pl el _ _ _ a F (x :: F));
    [exact Hc|exact Hl|exact Hl'|exact Hall|exact Hfp|exact Hav|exact Hrep2|exact Hc1|exact Hc3|exact Hc2|..|by apply Hc].
  - intros t Ht. apply (cr_full _ _ _ _ _ _ _ _ Hc). rewrite Hfl, elem_of_app, elem_of_cons.
    apply elem_of_app in Ht as [|]; auto.
  - intros t [->|Ht]%elem_of_cons; [|by apply (cr_part _ _ _ _ _ _ _ _ Hc)].
    assert (F = []) as -> by (apply (cr_full _ _ _ _ _ _ _ _ Hc (a, F)); rewrite Hfl, elem_of_app, elem_of_cons; auto).
    cbn. pose proof (cs_n _ _ _ Hcs). lia.
Qed.

(** All slots of an empty slab are free. *)
Lemma empty_all a F m x :
  geometry sz n ssz a → slab_rep sz n a F m → Z.of_nat (length F) = n → is_slot sz n a x → x ∈ F.
Proof.
  intros G Hrep Hlen Hx. pose proof (length_all_slots sz n ssz a G) as Hl.
  assert (Hsub : F ⊆+ all_slots sz n a).
  { apply NoDup_submseteq; [by apply Hrep|]. intros y Hy. by apply elem_of_all_slots, (sr_slots _ _ _ _ _ Hrep). }
  assert (Hp : F ≡ₚ all_slots sz n a).
  { apply submseteq_length_Permutation; [done|]. lia. }
  rewrite Hp. by apply elem_of_all_slots.
Qed.

(** A call of [cache_free] that frees [x]. *)
Definition released fl pl el s L (x : Z) s' : Prop :=
  (∃ fl' pl' el', cache_inv sz n o c fl' pl' el' s' L ∧ lost (fl ++ pl ++ el) (fl' ++ pl' ++ el') x) ∧
  (∀ y b, live_obj sz n (fl ++ pl ++ el) y → y ≠ x → y ≤ b < y + sz → byte_at (mem_of s') b = byte_at (mem_of s) b) ∧
  ldn 4 (mem_of s') (x + 8) = FREE_MAGIC_NUM ∧ same_static s s'.

Lemma finish_free s fl pl el L x m1 m2 :
  cache_inv sz n o c fl pl el s L → live_obj sz n (fl ++ pl ++ el) x →
  agree_except [(c + 32, 24)] (mem_of s) m1 → held mycpu m1 (c + 32) → freed fl pl el m1 x m2 →
  runs (release_at mycpu (c + 32)) (with_mem m2 s) (λ _ s', released fl pl el s L x s').
Proof.
  intros [Hc Hlk Hcb] Hx Hag1 Hheld [(fl' & pl' & el' & Hc2 & Hp & Hlost) Hkept Hf Hmag].
  pose proof (cr_ram _ _ _ _ _ _ _ _ Hc) as Hram.
  assert (Hheld2 : held mycpu (mem_of (with_mem m2 s)) (c + 32)).
  { rewrite mem_of_with_mem. destruct Hheld as [E1 E2]. replace (c + 32 + 16) with (c + 48) in * by lia.
    split; [|replace (c + 32 + 16) with (c + 48) by lia]; (rewrite Hf by lia); done. }
  eapply runs_mono; [apply (release_at_spec mycpu (c + 32) _ Hheld2); lia|].
  intros _ s3 (m3 & -> & Hl3 & Hag3). rewrite mem_of_with_mem in Hag3. rewrite with_mem_twice.
  assert (Hc3 : cache_rep sz n ssz c fl' pl' el' m3) by (eapply lock_frame; [done|exact Hc2|exact Hag3|lia]).
  pose proof (live_avoids sz n ssz c Hpg _ _ _ _ x (c, 112) Hc Hx (or_introl eq_refl)) as Hcx.
  pose proof (cs_sz _ _ _ Hcs). split_and!; rewrite ?mem_of_with_mem.
  - exists fl', pl', el'. split; [|done]. split; rewrite ?mem_of_with_mem; [done|done|].
    destruct Hcb as [? Hb ?]. split; [done| |done]. intros a Ha. apply Hb. by rewrite <-Hp.
  - intros y b Hy Hne Hb.
    pose proof (live_avoids sz n ssz c Hpg _ _ _ _ y (c, 112) Hc Hy (or_introl eq_refl)) as Hcy.
    unfold dis in *. cbn in *. transitivity (byte_at m2 b); [apply Hag3; forall_list; cbn; lia|].
    rewrite (Hkept y b) by done. apply Hag1. forall_list. cbn. lia.
  - rewrite <-Hmag. apply (agree_word _ _ _ _ _ Hag3). avoid.
  - done.
Qed.

(** The two branches that put the object back. *)
Lemma free_partial s fl pl el L a F x m1 :
  cache_inv sz n o c fl pl el s L → cache_rep sz n ssz c fl pl el m1 → (a, F) ∈ pl →
  is_slot sz n a x → x ∉ F → agree_except [(c + 32, 24)] (mem_of s) m1 → held mycpu m1 (c + 32) →
  runs (slab_free a x;;
    store32 (x + 8) FREE_MAGIC_NUM;;
    free_count ← load64 (a + 8);
    total ← load64 a;
    (if free_count =? total then move_slab (c + 72) (c + 64) a else mret tt);;
    release_at mycpu (c + 32)) (with_mem m1 s) (λ _ s', released fl pl el s L x s').
Proof.
  intros Hinv Hc1 Hpl Hs HF Hag1 Hheld.
  assert (Ha : (a, F) ∈ fl ++ pl ++ el) by (rewrite !elem_of_app; auto).
  assert (Hx : live_obj sz n (fl ++ pl ++ el) x) by (by exists a, F).
  assert (Hc1' : cache_rep sz n ssz c fl pl el (mem_of (with_mem m1 s))) by (by rewrite mem_of_with_mem).
  pose proof (cr_slabs _ _ _ _ _ _ _ _ Hc1) as Hok. pose proof (so_geom _ _ _ _ _ _ Hok a F Ha) as G.
  pose proof (is_slot_range _ _ _ _ G x Hs) as Hxr. pose proof G as [? ? ? ? ?].
  apply list_elem_of_split in Hpl as (pre & post & Hpl). run.
  eapply runs_mono; [by apply (put_object _ fl pl el a F x)|].
  intros _ s2 (m' & -> & Hput). rewrite mem_of_with_mem in Hput. run. set (m2 := st32 m' _ _) in *.
  destruct (Hput m2 eq_refl) as (Hrep & Hag & Cf & Ce & Cp & Hmag).
  rewrite (sr_total _ _ _ _ _ Hrep), (sr_count _ _ _ _ _ Hrep). destruct (Z.eqb_spec (Z.of_nat (length (x :: F))) n) as [E|E].
  - eapply runs_mono; [eapply (free_to_empty _ fl pl el pre post a F x m1 m2); try done; by mem_norm|].
    intros _ s3 (m3 & -> & Hfr). run. by eapply finish_free.
  - run. eapply finish_free; [done..|]. rewrite <-(mem_of_with_mem m1 s).
    eapply free_stay; try done; rewrite ?mem_of_with_mem; try done.
    pose proof (cr_part _ _ _ _ _ _ _ _ Hc1 (a, F)) as Hp. rewrite Hpl, elem_of_app, elem_of_cons in Hp.
    specialize (Hp (or_intror (or_introl eq_refl))). cbn [snd length] in *. lia.
Qed.

Lemma free_fulls s fl pl el L a F x m1 :
  cache_inv sz n o c fl pl el s L → cache_rep sz n ssz c fl pl el m1 → (a, F) ∈ fl →
  is_slot sz n a x → x ∉ F → agree_except [(c + 32, 24)] (mem_of s) m1 → held mycpu m1 (c + 32) →
  runs (slab_free a x;;
    store32 (x + 8) FREE_MAGIC_NUM;;
    move_slab (c + 56) (c + 72) a;;
    release_at mycpu (c + 32)) (with_mem m1 s) (λ _ s', released fl pl el s L x s').
Proof.
  intros Hinv Hc1 Hfl Hs HF Hag1 Hheld.
  assert (Ha : (a, F) ∈ fl ++ pl ++ el) by (rewrite !elem_of_app; auto).
  assert (Hx : live_obj sz n (fl ++ pl ++ el) x) by (by exists a, F).
  assert (Hc1' : cache_rep sz n ssz c fl pl el (mem_of (with_mem m1 s))) by (by rewrite mem_of_with_mem).
  pose proof (cr_slabs _ _ _ _ _ _ _ _ Hc1) as Hok. pose proof (so_geom _ _ _ _ _ _ Hok a F Ha) as G.
  pose proof (is_slot_range _ _ _ _ G x Hs) as Hxr. pose proof G as [? ? ? ? ?].
  apply list_elem_of_split in Hfl as (pre & post & Hfl). run.
  eapply runs_mono; [by apply (put_object _ fl pl el a F x)|].
  intros _ s2 (m' & -> & Hput). rewrite mem_of_with_mem in Hput. run. set (m2 := st32 m' _ _) in *.
  destruct (Hput m2 eq_refl) as (Hrep & Hag & Cf & Ce & Cp & Hmag).
  eapply runs_mono; [eapply (free_full _ fl pl el pre post a F x m1 m2); try done; by mem_norm|].
  intros _ s3 (m3 & -> & Hfr). run. by eapply finish_free.
Qed.

(** Freeing a live object whose magic number the owner has not set. *)
Lemma cache_free_spec s fl pl el L x :
  cache_inv sz n o c fl pl el s L → live_obj sz n (fl ++ pl ++ el) x →
  ldn 4 (mem_of s) (x + 8) ≠ FREE_MAGIC_NUM →
  runs (cache_free mycpu lit c x) s (λ _ s', released fl pl el s L x s').
Proof.
  intros Hinv Hx Hmg. pose proof Hinv as [Hc Hlk Hcb]. pose proof (cr_ram _ _ _ _ _ _ _ _ Hc) as Hram.
  destruct (live_ram sz n o c _ _ _ _ _ Hc Hx) as [Hx1 Hx2]. pose proof (cs_sz _ _ _ Hcs) as Hszr.
  pose proof (live_avoids sz n ssz c Hpg _ _ _ _ x (c, 112) Hc Hx (or_introl eq_refl)) as Hcx.
  assert (x ≠ 0) as Hx0 by (unfold KERNBASE in *; lia).
  unfold cache_free. rewrite (proj2 (Z.eqb_neq x 0)) by done. autounfold with slab. unfold acquire. run.
  eapply runs_mono; [apply (acquire_at_spec mycpu Hcpu (c + 32) s Hlk); lia|].
  intros _ s1 (m1 & -> & Hheld & Hag1). run.
  rewrite (agree_word _ _ _ 4 (x + 8) Hag1) by avoid. rewrite (proj2 (Z.eqb_neq _ _) Hmg). run.
  assert (Hc1 : cache_rep sz n ssz c fl pl el m1) by (eapply lock_frame; [done|exact Hc|exact Hag1|lia]).
  assert (Hc1' : cache_rep sz n ssz c fl pl el (mem_of (with_mem m1 s))) by (by rewrite mem_of_with_mem).
  pose proof (cr_slabs _ _ _ _ _ _ _ _ Hc1') as Hok. rewrite (cr_size _ _ _ _ _ _ _ _ Hc1).
  pose proof Hx as (a & F & Ha & Hs & HF). pose proof Ha as Ha'.
  apply elem_of_app in Ha' as [Hfl|[Hpl|Hel]%elem_of_app].
  - eapply runs_mono; [eapply (find_out _ _ _ _ Hok pl); [solve_submseteq| |by apply Hc1']|].
    + intros b K Hb. apply (slot_owner sz n o c Hcs _ _ a b F K x Hok Ha); [rewrite !elem_of_app; auto| |done].
      intros ->. pose proof (so_nodup _ _ _ _ _ _ Hok) as Hnd. rewrite fmap_app in Hnd.
      apply list.NoDup_app in Hnd as (_ & Hnd & _). apply (Hnd b); [by eapply in_addrs|]. by eapply (in_part []), in_addrs.
    + intros r s2 (-> & ->). run. rewrite (cr_size _ _ _ _ _ _ _ _ Hc1).
      eapply runs_mono; [eapply (find_in _ _ _ _ _ _ Hok Ha Hs fl); [solve_submseteq|done|by apply Hc1'|done]|].
      intros r s2 (-> & ->). by eapply free_fulls.
  - eapply runs_mono; [eapply (find_in _ _ _ _ _ _ Hok Ha Hs pl); [solve_submseteq|done|by apply Hc1'|done]|].
    intros r s2 (-> & ->). by eapply free_partial.
  - destruct HF. eapply empty_all; [by eapply Hok|by apply Hok|by apply (cr_empty _ _ _ _ _ _ _ _ Hc1 _ Hel)|done].
Qed.

(** A call that only reports an error. *)
Definition reported fl pl el s L (msg : Z) s' : Prop :=
  cache_inv sz n o c fl pl el s' L ∧ ldn 8 (mem_of s') (c + 16) = msg ∧
  agree_except [(c + 16, 8); (c + 32, 24)] (mem_of s) (mem_of s') ∧ same_static s s'.

Lemma report_error s fl pl el L m1 msg :
  cache_inv sz n o c fl pl el s L → agree_except [(c + 32, 24)] (mem_of s) m1 → held mycpu m1 (c + 32) →
  0 ≤ msg < 2 ^ 64 →
  runs (store64 (c + 16) msg;; release_at mycpu (c + 32)) (with_mem m1 s)
    (λ _ s', reported fl pl el s L msg s').
Proof.
  intros [Hc Hlk Hcb] Hag1 Hheld Hmsg. pose proof (cr_ram _ _ _ _ _ _ _ _ Hc) as Hram. run.
  set (m2 := st64 m1 (c + 16) _). assert (Hag2 : agree_except [(c + 16, 8)] m1 m2) by (unfold m2; agree).
  assert (Hheld2 : held mycpu (mem_of (with_mem m2 s)) (c + 32)).
  { rewrite mem_of_with_mem. destruct Hheld as [E1 E2]. split; rewrite (agree_word _ _ _ _ _ Hag2); [done|avoid|done|avoid]. }
  eapply runs_mono; [apply (release_at_spec mycpu (c + 32) _ Hheld2); lia|].
  intros _ s3 (m3 & -> & Hl3 & Hag3). rewrite mem_of_with_mem in Hag3. unfold reported. mem_norm. split_and!.
  - split; rewrite ?mem_of_with_mem; [|done|by apply blocks_mem].
    eapply lock_frame; [done| |exact Hag3|lia]. eapply lock_frame; [done| |exact Hag2|lia].
    eapply lock_frame; [done|exact Hc|exact Hag1|lia].
  - rewrite (agree_word _ _ _ _ _ Hag3) by avoid. unfold m2. by ld_st.
  - eapply agree_trans; [|eapply agree_trans]; eapply agree_weaken;
      [exact Hag1|in_ranges|exact Hag2|in_ranges|exact Hag3|in_ranges].
  - done.
Qed.

(** An address with the magic number. *)
Lemma cache_free_double s fl pl el L x :
  cache_inv sz n o c fl pl el s L → KERNBASE ≤ x → x + 16 ≤ PHYSTOP → dis (c, 112) (x, 16) →
  ldn 4 (mem_of s) (x + 8) = FREE_MAGIC_NUM → 0 ≤ lit "Double free!!!" < 2 ^ 64 →
  runs (cache_free mycpu lit c x) s (λ _ s', reported fl pl el s L (lit "Double free!!!") s').
Proof.
  intros Hinv Hx1 Hx2 Hcx Hmg Hlit. pose proof Hinv as [Hc Hlk Hcb]. pose proof (cr_ram _ _ _ _ _ _ _ _ Hc) as Hram.
  unfold cache_free. rewrite (proj2 (Z.eqb_neq x 0)) by (unfold KERNBASE in *; lia).
  autounfold with slab. unfold acquire. run.
  eapply runs_mono; [apply (acquire_at_spec mycpu Hcpu (c + 32) s Hlk); lia|].
  intros _ s1 (m1 & -> & Hheld & Hag1). run.
  rewrite (agree_word _ _ _ 4 (x + 8) Hag1) by avoid. rewrite Hmg, Z.eqb_refl.
  by eapply report_error.
Qed.

(** An address that is not an object of a slab in use. *)
Lemma cache_free_unknown s fl pl el L x :
  cache_inv sz n o c fl pl el s L → KERNBASE ≤ x → x + 16 ≤ PHYSTOP → dis (c, 112) (x, 16) →
  ldn 4 (mem_of s) (x + 8) ≠ FREE_MAGIC_NUM → (∀ a F, (a, F) ∈ fl ++ pl → ¬ is_slot sz n a x) →
  0 ≤ lit "object not found in any slab" < 2 ^ 64 →
  runs (cache_free mycpu lit c x) s (λ _ s', reported fl pl el s L (lit "object not found in any slab") s').
Proof.
  intros Hinv Hx1 Hx2 Hcx Hmg Hno Hlit. pose proof Hinv as [Hc Hlk Hcb]. pose proof (cr_ram _ _ _ _ _ _ _ _ Hc) as Hram.
  unfold cache_free. rewrite (proj2 (Z.eqb_neq x 0)) by (unfold KERNBASE in *; lia).
  autounfold with slab. unfold acquire. run.
  eapply runs_mono; [apply (acquire_at_spec mycpu Hcpu (c + 32) s Hlk); lia|].
  intros _ s1 (m1 & -> & Hheld & Hag1). run.
  rewrite (agree_word _ _ _ 4 (x + 8) Hag1) by avoid. rewrite (proj2 (Z.eqb_neq _ _) Hmg). run.
  assert (Hc1 : cache_rep sz n ssz c fl pl el (mem_of (with_mem m1 s)))
    by (rewrite mem_of_with_mem; eapply lock_frame; [done|exact Hc|exact Hag1|lia]).
  pose proof (cr_slabs _ _ _ _ _ _ _ _ Hc1) as Hok. pose proof (cr_size _ _ _ _ _ _ _ _ Hc1) as Hsz.
  rewrite mem_of_with_mem in Hsz. rewrite Hsz.
  eapply runs_mono; [eapply (find_out _ _ _ _ Hok pl); [solve_submseteq| |by apply Hc1]|].
  { intros b K Hb. apply (Hno b K). rewrite elem_of_app. auto. }
  intros r s2 (-> & ->). run. rewrite Hsz.
  eapply runs_mono; [eapply (find_out _ _ _ _ Hok fl); [solve_submseteq| |by apply Hc1]|].
  { intros b K Hb. apply (Hno b K). rewrite elem_of_app. auto. }
  intros r s2 (-> & ->). by eapply report_error.
Qed.
End free.

(** * Object caches: sequences of client calls

    A client of one cache allocates objects, frees its objects and writes
    to them, in any order. *)

Section client.
Context {B : Type} `{!BlockAllocator B}.
Context (sz n o c mycpu : Z) (lit : string → Z) (call_fn : Z → Z → M (kstate B) unit).
#[local] Abbreviation ssz := (block_bytes o).
Context (Hcs : cache_sizes sz n o) (Hcpu : 0 ≤ mycpu < 2 ^ 64) (Hctor : ctor_ok sz call_fn)
  (Hlit : 0 ≤ lit "Double free!!!" < 2 ^ 64).
Implicit Types (s : kstate B) (fl pl el : list slab) (L : gset (Z * Z)) (X : gset Z).

(** No slab to take from and no block: the allocation panics. *)
Lemma cache_alloc_panics s fl L :
  cache_inv sz n o c fl [] [] s L → block_alloc o (k_blocks s) = Ret (0, k_blocks s) →
  cache_alloc mycpu call_fn c s = Panic "cache_create failed".
Proof.
  intros [Hc Hlk Hcb] Hal. pose proof (cr_ram _ _ _ _ _ _ _ _ Hc) as Hram.
  unfold cache_alloc. rewrite (proj2 (Z.eqb_neq c 0)) by (unfold KERNBASE in *; lia). autounfold with slab.
  apply panics_later. eapply runs_mono; [apply (acquire_at_spec mycpu Hcpu (c + 32) s Hlk); lia|].
  intros _ s1 (m1 & -> & Hheld & Hag1). apply panics_here.
  assert (Hc1 : cache_rep sz n ssz c fl [] [] m1)
    by (eapply lock_frame; [exact (ssz_page sz n o Hcs)|exact Hc|exact Hag1|lia]).
  pose proof (cr_el _ _ _ _ _ _ _ _ Hc1) as Ee. pose proof (cr_pl _ _ _ _ _ _ _ _ Hc1) as Ep.
  pose proof (cr_size _ _ _ _ _ _ _ _ Hc1) as Esz. cbn [fmap list_fmap chain] in *.
  unfold take_object. autounfold with slab. apply panics_later. run. apply panics_later. run.
  rewrite Ee, Ep. change (0 =? 0) with true. cbn [andb]. apply panics_later. run.
  rewrite Esz, (cs_order _ _ _ Hcs). apply panics_later. eapply runs_eq; [reflexivity|].
  apply panics_later. eapply runs_eq; [unfold buddy_alloc; change (k_blocks (with_mem m1 s)) with (k_blocks s); rewrite Hal; reflexivity|].
  apply panics_later. unfold slab_init. change (0 =? 0) with true. run. change (0 =? 0) with true.
  apply panics_later. eapply runs_mono.
  { apply (release_at_spec mycpu (c + 32)); [|lia|lia]. exact Hheld. }
  reflexivity.
Qed.

(** ** Clients *)

(** Clients allocate objects, free live objects and write to live objects.
    A free of an object with the magic number at offset 8 is refused. *)
Inductive cache_step : kstate B * gset Z → kstate B * gset Z → Prop :=
  | cstep_alloc s s' x X :
    cache_alloc mycpu call_fn c s = Ret (x, s') → cache_step (s, X) (s', {[x]} ∪ X)
  | cstep_free s s' x X :
    x ∈ X → cache_free mycpu lit c x s = Ret (tt, s') →
    cache_step (s, X) (s', if decide (ldn 4 (mem_of s) (x + 8) = FREE_MAGIC_NUM) then X else X ∖ {[x]})
  | cstep_write s m x X :
    x ∈ X → agree_except [(x, sz)] (mem_of s) m → cache_step (s, X) (with_mem m s, X).

(** From a cache without slabs. *)
Definition cache_reachable (s0 : kstate B) (t : kstate B * gset Z) : Prop := rtc cache_step (s0, ∅) t.

Definition client_inv (t : kstate B * gset Z) : Prop :=
  ∃ fl pl el L, cache_inv sz n o c fl pl el t.1 L ∧ ∀ x, x ∈ t.2 ↔ live_obj sz n (fl ++ pl ++ el) x.

(** What the invariant gives a client. *)
Lemma client_inv_apart s X :
  client_inv (s, X) → ∀ x y, x ∈ X → y ∈ X → x ≠ y → dis (x, sz) (y, sz).
Proof.
  intros (fl & pl & el & L & [Hc _ _] & HX) x y Hx%HX Hy%HX Hne. cbn in Hx, Hy. by eapply live_apart.
Qed.

Lemma client_inv_place s X x :
  client_inv (s, X) → x ∈ X → KERNBASE ≤ x ∧ x + sz ≤ PHYSTOP ∧ dis (c, 112) (x, sz).
Proof.
  intros (fl & pl & el & L & [Hc _ _] & HX) Hx%HX. cbn in Hx.
  destruct (live_ram sz n o c _ _ _ _ _ Hc Hx) as [? ?]. split_and!; [done|done|].
  eapply live_avoids; [exact (ssz_page _ _ _ Hcs)|exact Hc|exact Hx|by left].
Qed.

Lemma client_free s X x :
  client_inv (s, X) → x ∈ X → ldn 4 (mem_of s) (x + 8) ≠ FREE_MAGIC_NUM →
  runs (cache_free mycpu lit c x) s (λ _ s', client_inv (s', X ∖ {[x]}) ∧
    ldn 4 (mem_of s') (x + 8) = FREE_MAGIC_NUM ∧
    ∀ y b, y ∈ X → y ≠ x → y ≤ b < y + sz → byte_at (mem_of s') b = byte_at (mem_of s) b).
Proof.
  intros (fl & pl & el & L & Hi & HX) Hx%HX Hmg. cbn [fst snd] in *.
  eapply runs_mono; [by apply (cache_free_spec sz n o c mycpu lit Hcs Hcpu s fl pl el L x)|].
  intros _ s' ((fl' & pl' & el' & Hi' & Hl) & Hk & Hm & _). split_and!; [|done|intros y b Hy; by apply Hk, HX].
  exists fl', pl', el', L. split; [done|]. intros y. cbn. rewrite elem_of_difference, elem_of_singleton, HX. symmetry. apply Hl.
Qed.

(** A refused free only reports. *)
Lemma client_refused s X x :
  client_inv (s, X) → x ∈ X → ldn 4 (mem_of s) (x + 8) = FREE_MAGIC_NUM →
  runs (cache_free mycpu lit c x) s (λ _ s', client_inv (s', X) ∧
    ldn 8 (mem_of s') (c + 16) = lit "Double free!!!" ∧
    agree_except [(c + 16, 8); (c + 32, 24)] (mem_of s) (mem_of s')).
Proof.
  intros Hi Hx Hmg. destruct (client_inv_place s X x Hi Hx) as (? & ? & Hd). pose proof (cs_sz _ _ _ Hcs).
  destruct Hi as (fl & pl & el & L & Hi & HX). cbn [fst snd] in *.
  eapply runs_mono; [apply (cache_free_double sz n o c mycpu lit Hcs Hcpu s fl pl el L x); [done|done|lia| |done|done]|].
  - unfold dis in *. cbn in *. lia.
  - intros _ s' (Hi' & He & Hag & _). split_and!; [|done..]. by exists fl, pl, el, L.
Qed.

Lemma cache_step_inv t t' : client_inv t → cache_step t t' → client_inv t'.
Proof.
  intros Hin Hst. pose proof Hin as (fl & pl & el & L & Hi & HX).
  destruct Hst as [s s' x X Ha|s s' x X Hx Hf|s m x X Hx Hag]; cbn [fst snd] in *.
  - destruct (cache_alloc_spec sz n o c mycpu Hcs call_fn Hcpu s fl pl el L Hctor Hi)
      as [(x' & s1 & Ha' & (fl' & pl' & el' & L' & Hi' & _ & [_ Hg]) & _)|(-> & -> & Hno)].
    + rewrite Ha in Ha'. injection Ha' as <- <-. exists fl', pl', el', L'. split; [done|].
      intros y. cbn. rewrite elem_of_union, elem_of_singleton, HX, Hg. done.
    + rewrite (cache_alloc_panics _ _ _ Hi Hno) in Ha. discriminate.
  - case_decide as Hmg.
    + destruct (client_refused s X x Hin Hx Hmg) as (u & s1 & Hf' & Hi' & _). rewrite Hf in Hf'. by injection Hf' as <- <-.
    + destruct (client_free s X x Hin Hx Hmg) as (u & s1 & Hf' & Hi' & _). rewrite Hf in Hf'. by injection Hf' as <- <-.
  - exists fl, pl, el, L. split; [|done]. apply HX in Hx. pose proof Hi as [Hc Hlk Hcb].
    pose proof (live_avoids sz n ssz c (ssz_page _ _ _ Hcs) _ _ _ _ x (c, 112) Hc Hx (or_introl eq_refl)) as Hd.
    cbn [fst]. split; [| |by apply blocks_mem].
    + rewrite mem_of_with_mem. eapply live_frame; [exact (ssz_page _ _ _ Hcs)|exact Hc|exact Hx|done].
    + rewrite mem_of_with_mem, (agree_word _ _ _ 4 (c + 32) Hag); [done|]. avoid.
Qed.

Lemma no_live x : ¬ live_obj sz n ([] ++ [] ++ []) x.
Proof. intros (a & F & Ha & _). by apply elem_of_nil in Ha. Qed.

Lemma cache_reachable_inv s0 L0 t :
  cache_inv sz n o c [] [] [] s0 L0 → cache_reachable s0 t → client_inv t.
Proof.
  intros Hi Hr. assert (H0 : client_inv (s0, ∅)).
  { exists [], [], [], L0. split; [done|]. intros x. cbn. split; [set_solver|]. intros Hx. by apply no_live in Hx. }
  clear Hi. revert H0. induction Hr as [|t1 t2 t3 Hs _ IH]; [done|]. intros H0. by eapply IH, cache_step_inv.
Qed.

Lemma client_alloc s X :
  client_inv (s, X) →
  runs (cache_alloc mycpu call_fn c) s (λ x s', (x ∉ X) ∧ client_inv (s', {[x]} ∪ X) ∧
    ∀ y b, y ∈ X → y ≤ b < y + sz → byte_at (mem_of s') b = byte_at (mem_of s) b) ∨
  (cache_alloc mycpu call_fn c s = Panic "cache_create failed" ∧ block_alloc o (k_blocks s) = Ret (0, k_blocks s)).
Proof.
  intros (fl & pl & el & L & Hi & HX). cbn [fst snd] in *.
  destruct (cache_alloc_spec sz n o c mycpu Hcs call_fn Hcpu s fl pl el L Hctor Hi) as [Hr|(-> & -> & Hno)].
  - left. eapply runs_mono; [exact Hr|]. intros x s' ((fl' & pl' & el' & L' & Hi' & _ & [Hn Hg]) & Hk & _).
    split_and!; [by rewrite HX| |intros y b Hy; by apply Hk, HX].
    exists fl', pl', el', L'. split; [done|]. intros y. cbn. by rewrite elem_of_union, elem_of_singleton, HX, Hg.
  - right. split; [by eapply cache_alloc_panics|done].
Qed.

(** Freeing a live object, whatever its contents. *)
Lemma client_free_step s0 s X x :
  cache_reachable s0 (s, X) → client_inv (s, X) → x ∈ X → runs (cache_free mycpu lit c x) s (λ _ s',
    (∀ y b, y ∈ X → y ≠ x → y ≤ b < y + sz → byte_at (mem_of s') b = byte_at (mem_of s) b) ∧
    (ldn 4 (mem_of s) (x + 8) ≠ FREE_MAGIC_NUM →
      cache_reachable s0 (s', X ∖ {[x]}) ∧ ldn 4 (mem_of s') (x + 8) = FREE_MAGIC_NUM) ∧
    (ldn 4 (mem_of s) (x + 8) = FREE_MAGIC_NUM →
      cache_reachable s0 (s', X) ∧ ldn 8 (mem_of s') (cache_error_msg c) = lit "Double free!!!" ∧
      ∀ b, x ≤ b < x + sz → byte_at (mem_of s') b = byte_at (mem_of s) b)).
Proof.
  intros Hr Hi Hx. destruct (decide (ldn 4 (mem_of s) (x + 8) = FREE_MAGIC_NUM)) as [Hm|Hm].
  - destruct (client_refused s X x Hi Hx Hm) as ([] & s' & E & _ & He & Hag). exists tt, s'. split; [done|].
    assert (Hkeep : ∀ y b, y ∈ X → y ≤ b < y + sz → byte_at (mem_of s') b = byte_at (mem_of s) b).
    { intros y b Hy Hb. destruct (client_inv_place s X y Hi Hy) as (_ & _ & Hd). apply Hag. unfold dis in Hd. cbn in Hd.
      forall_list; cbn; lia. }
    split_and!; [intros y b Hy _; by apply Hkeep|done|]. intros _. split_and!; [|done|intros b; by apply Hkeep].
    pose proof (cstep_free s s' x X Hx E) as Hst. rewrite decide_True in Hst by done. by eapply rtc_r.
  - destruct (client_free s X x Hi Hx Hm) as ([] & s' & E & _ & He & Hk). exists tt, s'. split_and!; [done|done| |done].
    intros _. split; [|done]. pose proof (cstep_free s s' x X Hx E) as Hst. rewrite decide_False in Hst by done. by eapply rtc_r.
Qed.
End client.
