(* ===== verification/KString.v ===== *)
(** * kernel/string.c

    The memory and string functions on byte-addressed memory.  A loop that
    counts down [n] is a recursion on [n]; [strlen] has as fuel the bytes
    up to the end of RAM, where a load faults. *)

From S2P Require Import Prelude Riscv Mem SlabRep.

Section string.
Context {St : Type} `{!HasMem St}.

Fixpoint memset_loop (n : nat) (cdst i c : Z) : M St unit :=
  match n with
  | O => mret tt
  | S n => store8 (cdst + i) (u8 c);; memset_loop n cdst (i + 1) c
  end.

Definition memset (dst c n : Z) : M St Z :=
  memset_loop (Z.to_nat n) dst 0 c;;
  mret dst.

Fixpoint memcmp_loop (n : nat) (s1 s2 : Z) : M St Z :=
  match n with
  | O => mret 0
  | S n =>
    x ← load8 s1;
    y ← load8 s2;
    if negb (x =? y) then mret (x - y)
    else memcmp_loop n (s1 + 1) (s2 + 1)
  end.

Definition memcmp (v1 v2 n : Z) : M St Z := memcmp_loop (Z.to_nat n) v1 v2.

(** [*--d = *--s] *)
Fixpoint memmove_down (n : nat) (d s : Z) : M St unit :=
  match n with
  | O => mret tt
  | S n =>
    x ← load8 (s - 1);
    store8 (d - 1) x;;
    memmove_down n (d - 1) (s - 1)
  end.

(** [*d++ = *s++] *)
Fixpoint memmove_up (n : nat) (d s : Z) : M St unit :=
  match n with
  | O => mret tt
  | S n =>
    x ← load8 s;
    store8 d x;;
    memmove_up n (d + 1) (s + 1)
  end.

Definition memmove (dst src n : Z) : M St Z :=
  if n =? 0 then mret dst
  else
    let s := src in
    let d := dst in
    (if (s <? d) && (d <? s + n) then memmove_down (Z.to_nat n) (d + n) (s + n)
     else memmove_up (Z.to_nat n) d s);;
    mret dst.

Definition memcpy (dst src n : Z) : M St Z := memmove dst src n.

Fixpoint strncmp_loop (n : nat) (p q : Z) : M St Z :=
  match n with
  | O => mret 0
  | S n =>
    x ← load8 p;
    if x =? 0 then y ← load8 q; mret (x - y)
    else
      y ← load8 q;
      if x =? y then strncmp_loop n (p + 1) (q + 1)
      else mret (x - y)
  end.

Definition strncmp (p q n : Z) : M St Z := strncmp_loop (Z.to_nat n) p q.

Fixpoint strncpy_fill (n : nat) (s : Z) : M St unit :=
  match n with
  | O => mret tt
  | S n => store8 s 0;; strncpy_fill n (s + 1)
  end.

Fixpoint strncpy_loop (n : nat) (s t : Z) : M St unit :=
  match n with
  | O => mret tt
  | S n =>
    x ← load8 t;
    store8 s x;;
    if negb (x =? 0) then strncpy_loop n (s + 1) (t + 1)
    else strncpy_fill n (s + 1)
  end.

Definition strncpy (s t n : Z) : M St Z :=
  strncpy_loop (Z.to_nat n) s t;;
  mret s.

(** [n] is the number of characters that may still be copied; the result
    is where the terminator goes. *)
Fixpoint safestrcpy_loop (n : nat) (s t : Z) : M St Z :=
  match n with
  | O => mret s
  | S n =>
    x ← load8 t;
    store8 s x;;
    if negb (x =? 0) then safestrcpy_loop n (s + 1) (t + 1) else mret (s + 1)
  end.

Definition safestrcpy (s t n : Z) : M St Z :=
  if n <=? 0 then mret s
  else
    s' ← safestrcpy_loop (Z.to_nat (n - 1)) s t;
    store8 s' 0;;
    mret s.

Fixpoint strlen_loop (fuel : nat) (s n : Z) : M St Z :=
  match fuel with
  | O => out_of_fuel
  | S fuel =>
    x ← load8 (s + n);
    if negb (x =? 0) then strlen_loop fuel s (n + 1) else mret n
  end.

Definition strlen (s : Z) : M St Z := strlen_loop (Z.to_nat (PHYSTOP - s + 1)) s 0.
End string.

(** ** What they compute *)

(** A byte of memory, as a load sees it. *)
Abbreviation bt m a := (ldn 1 m a).

Lemma bt_st m a b v : bt (stn 1 m a v) b = if decide (b = a) then u8 v else bt m b.
Proof.
  destruct (decide (b = a)) as [->|Hne].
  - unfold ldn, stn. cbn. rewrite byte_at_insert_eq. rewrite (u8_small (u8 v)) by apply u8_range. lia.
  - apply ldn_stn_ne. lia.
Qed.

Lemma bt_range m a : 0 ≤ bt m a < 256.
Proof. apply (ldn_range 1). Qed.

(** The bytes of [n] addresses. *)
Definition bytes_at (m : gmap Z Z) (a n : Z) : list Z := (λ i, bt m (a + i)) <$> seqZ 0 n.

(** The C string [l] at [a]. *)
Definition cstring (m : gmap Z Z) (a : Z) (l : list Z) : Prop :=
  (∀ i c, l !! i = Some c → bt m (a + Z.of_nat i) = c ∧ c ≠ 0) ∧ bt m (a + Z.of_nat (length l)) = 0.

Lemma cstring_cons m a x l : cstring m a (x :: l) ↔ bt m a = x ∧ x ≠ 0 ∧ cstring m (a + 1) l.
Proof.
  unfold cstring. cbn [length]. replace (a + 1 + Z.of_nat (length l)) with (a + Z.of_nat (S (length l))) by lia. split.
  - intros [H1 H2]. split_and!; [by destruct (H1 0%nat x eq_refl) as [<- _]; f_equal; lia|by destruct (H1 0%nat x eq_refl)| |done].
    intros i c Hi. destruct (H1 (S i) c Hi) as [<- ?]. split; [f_equal; lia|done].
  - intros (H1 & H2 & H3 & H4). split; [|done]. intros [|i] c Hc; cbn in Hc.
    + injection Hc as <-. split; [by rewrite Z.add_0_r|done].
    + destruct (H3 i c Hc) as [<- ?]. split; [f_equal; lia|done].
Qed.

Section spec.
Context {St : Type} `{!HasMem St}.
Implicit Types (s : St) (m : gmap Z Z).

Lemma memset_loop_spec n : ∀ dst i c s,
  KERNBASE ≤ dst + i → dst + i + Z.of_nat n ≤ PHYSTOP →
  runs (memset_loop n dst i c) s (λ _ s', ∃ m', s' = with_mem m' s ∧
    ∀ b, bt m' b = if decide (dst + i ≤ b < dst + i + Z.of_nat n) then u8 c else bt (mem_of s) b).
Proof.
  induction n as [|n IH]; intros dst i c s Hlo Hhi; cbn [memset_loop].
  - apply runs_ret. exists (mem_of s). rewrite with_mem_same. split; [done|]. intros b. rewrite decide_False by lia. done.
  - run. eapply runs_mono; [apply IH; lia|]. intros _ s' (m' & -> & Hb). exists m'. mem_norm. split; [done|].
    intros b. rewrite Hb. mem_norm. rewrite bt_st. rewrite (u8_small (u8 c)) by apply u8_range.
    repeat case_decide; try done; lia.
Qed.

Lemma memmove_up_spec n : ∀ d src s,
  KERNBASE ≤ d → d + Z.of_nat n ≤ PHYSTOP → KERNBASE ≤ src → src + Z.of_nat n ≤ PHYSTOP →
  (d ≤ src ∨ src + Z.of_nat n ≤ d) →
  runs (memmove_up n d src) s (λ _ s', ∃ m', s' = with_mem m' s ∧
    ∀ b, bt m' b = if decide (d ≤ b < d + Z.of_nat n) then bt (mem_of s) (b - d + src) else bt (mem_of s) b).
Proof.
  induction n as [|n IH]; intros d src s ? ? ? ? Hov; cbn [memmove_up].
  - apply runs_ret. exists (mem_of s). rewrite with_mem_same. split; [done|]. intros b. rewrite decide_False by lia. done.
  - run. eapply runs_mono; [apply IH; lia|]. intros _ s' (m' & -> & Hb). exists m'. mem_norm. split; [done|].
    intros b. rewrite Hb. mem_norm. rewrite !bt_st. pose proof (bt_range (mem_of s) src) as Hr.
    rewrite (u8_small (bt _ _)) by lia. repeat case_decide; subst; try lia; try done.
    + f_equal. lia.
    + f_equal. lia.
Qed.

Lemma memmove_down_spec n : ∀ d src s,
  KERNBASE ≤ d - Z.of_nat n → d ≤ PHYSTOP → KERNBASE ≤ src - Z.of_nat n → src ≤ PHYSTOP → src ≤ d →
  runs (memmove_down n d src) s (λ _ s', ∃ m', s' = with_mem m' s ∧
    ∀ b, bt m' b = if decide (d - Z.of_nat n ≤ b < d) then bt (mem_of s) (b - d + src) else bt (mem_of s) b).
Proof.
  induction n as [|n IH]; intros d src s ? ? ? ? Hov; cbn [memmove_down].
  - apply runs_ret. exists (mem_of s). rewrite with_mem_same. split; [done|]. intros b. rewrite decide_False by lia. done.
  - run. eapply runs_mono; [apply IH; lia|]. intros _ s' (m' & -> & Hb). exists m'. mem_norm. split; [done|].
    intros b. rewrite Hb. mem_norm. rewrite !bt_st. pose proof (bt_range (mem_of s) (src - 1)) as Hr.
    rewrite (u8_small (bt _ _)) by lia. repeat case_decide; subst; try lia; try done.
    + f_equal. lia.
    + f_equal. lia.
Qed.

(** [memmove] copies as if through a temporary buffer, overlap or not. *)
Lemma memmove_spec dst src n s :
  0 ≤ n → KERNBASE ≤ dst → dst + n ≤ PHYSTOP → KERNBASE ≤ src → src + n ≤ PHYSTOP →
  runs (memmove dst src n) s (λ r s', r = dst ∧ ∃ m', s' = with_mem m' s ∧
    ∀ b, bt m' b = if decide (dst ≤ b < dst + n) then bt (mem_of s) (b - dst + src) else bt (mem_of s) b).
Proof.
  intros Hn ? ? ? ?. unfold memmove. destruct (Z.eqb_spec n 0) as [->|Hne].
  { apply runs_ret. split; [done|]. exists (mem_of s). rewrite with_mem_same. split; [done|].
    intros b. rewrite decide_False by lia. done. }
  cbv zeta. destruct (Z.ltb_spec src dst); destruct (Z.ltb_spec dst (src + n)); cbn [andb]; run.
  1: { eapply runs_mono; [apply memmove_down_spec; lia|]. intros _ s' (m' & -> & Hb). run. split; [done|].
    exists m'. split; [done|]. intros b. rewrite Hb. repeat case_decide; try lia. f_equal. lia. }
  all: eapply runs_mono; [apply memmove_up_spec; lia|]; intros _ s' (m' & -> & Hb); run; split; [done|];
    exists m'; split; [done|]; intros b; rewrite Hb; repeat case_decide; try lia; done.
Qed.

(** The comparison of two strings, up to [n] characters. *)
Fixpoint str_diff (n : nat) (l1 l2 : list Z) : Z :=
  match n with
  | O => 0
  | S n =>
    match l1, l2 with
    | [], [] => 0
    | [], y :: _ => - y
    | x :: _, [] => x
    | x :: l1, y :: l2 => if x =? y then str_diff n l1 l2 else x - y
    end
  end.

Lemma str_diff_zero n : ∀ l1 l2,
  Forall (λ c, 0 < c) l1 → Forall (λ c, 0 < c) l2 → str_diff n l1 l2 = 0 ↔ take n l1 = take n l2.
Proof.
  induction n as [|n IH]; intros [|x l1] [|y l2] H1 H2; cbn; try done.
  - inversion_clear H2. split; [lia|done].
  - inversion_clear H1. split; [lia|done].
  - inversion_clear H1; inversion_clear H2. destruct (Z.eqb_spec x y) as [->|Hne].
    + rewrite IH by done. split; [by intros ->|by intros [= ->]].
    + split; [lia|]. intros [= -> _]. done.
Qed.

Lemma cstring_pos m a l : cstring m a l → Forall (λ c, 0 < c) l.
Proof.
  intros [H _]. apply list.Forall_forall. intros c (i & Hi)%list_elem_of_lookup. destruct (H i c Hi) as [<- ?].
  pose proof (bt_range m (a + Z.of_nat i)). lia.
Qed.

Lemma strncmp_loop_spec n : ∀ p q l1 l2 s,
  cstring (mem_of s) p l1 → cstring (mem_of s) q l2 →
  KERNBASE ≤ p → p + Z.of_nat (length l1) < PHYSTOP → KERNBASE ≤ q → q + Z.of_nat (length l2) < PHYSTOP →
  runs (strncmp_loop n p q) s (λ r s', r = str_diff n l1 l2 ∧ s' = s).
Proof.
  induction n as [|n IH]; intros p q l1 l2 s H1 H2 ? ? ? ?; cbn [strncmp_loop]; [by apply runs_ret|].
  cbn [str_diff]. run. destruct l1 as [|x l1].
  - destruct H1 as [_ H1]. cbn in H1. rewrite Z.add_0_r in H1. rewrite H1. change (0 =? 0) with true. run.
    split; [|done]. destruct l2 as [|y l2].
    + destruct H2 as [_ H2]. cbn in H2. rewrite Z.add_0_r in H2. by rewrite H2.
    + apply cstring_cons in H2 as (-> & _). done.
  - apply cstring_cons in H1 as (-> & Hx & H1). rewrite (proj2 (Z.eqb_neq x 0)) by done. run. cbn [length] in *.
    destruct l2 as [|y l2].
    + destruct H2 as [_ H2]. cbn in H2. rewrite Z.add_0_r in H2. rewrite H2, (proj2 (Z.eqb_neq x 0)) by done.
      run. split; [lia|done].
    + apply cstring_cons in H2 as (-> & Hy & H2). cbn [length] in *. destruct (Z.eqb_spec x y) as [->|Hne].
      * apply IH; [done|done|lia..].
      * run. done.
Qed.

(** [strncmp] returns 0 iff the strings agree up to [n] characters. *)
Lemma strncmp_spec p q n l1 l2 s :
  cstring (mem_of s) p l1 → cstring (mem_of s) q l2 →
  KERNBASE ≤ p → p + Z.of_nat (length l1) < PHYSTOP → KERNBASE ≤ q → q + Z.of_nat (length l2) < PHYSTOP →
  runs (strncmp p q n) s (λ r s', (r = 0 ↔ take (Z.to_nat n) l1 = take (Z.to_nat n) l2) ∧ s' = s).
Proof.
  intros H1 H2 ? ? ? ?. eapply runs_mono; [by apply (strncmp_loop_spec _ p q l1 l2)|].
  intros r s' (-> & ->). split; [|done]. apply str_diff_zero; by eapply cstring_pos.
Qed.

Lemma strlen_loop_spec fuel : ∀ a k l s,
  cstring (mem_of s) (a + k) l → KERNBASE ≤ a + k → a + k + Z.of_nat (length l) < PHYSTOP →
  (length l < fuel)%nat → runs (strlen_loop fuel a k) s (λ r s', r = k + Z.of_nat (length l) ∧ s' = s).
Proof.
  induction fuel as [|fuel IH]; intros a k l s H1 ? ? Hf; [lia|]. cbn [strlen_loop]. run.
  destruct l as [|x l].
  - destruct H1 as [_ H1]. cbn in H1. rewrite Z.add_0_r in H1. rewrite H1. change (0 =? 0) with true. cbn [negb]. run.
    cbn. split; [lia|done].
  - apply cstring_cons in H1 as (-> & Hx & H1). rewrite (proj2 (Z.eqb_neq x 0)) by done. cbn [negb length] in *.
    eapply runs_mono; [apply (IH a (k + 1) l)|]; [by rewrite Z.add_assoc|lia..|].
    intros r s' (-> & ->). split; [lia|done].
Qed.

Lemma strlen_spec a l s :
  cstring (mem_of s) a l → KERNBASE ≤ a → a + Z.of_nat (length l) < PHYSTOP →
  runs (strlen a) s (λ r s', r = Z.of_nat (length l) ∧ s' = s).
Proof. intros. apply (strlen_loop_spec _ a 0 l); [by rewrite Z.add_0_r|lia..]. Qed.

Lemma cstring_frame m m' a l :
  cstring m a l → (∀ b, a ≤ b ≤ a + Z.of_nat (length l) → bt m' b = bt m b) → cstring m' a l.
Proof.
  intros [H1 H2] Hb. split; [|rewrite Hb by lia; done]. intros i c Hi. pose proof (lookup_lt_Some _ _ _ Hi).
  rewrite Hb by lia. by apply H1.
Qed.

Lemma safestrcpy_loop_spec n : ∀ d t l s,
  cstring (mem_of s) t l → KERNBASE ≤ d → d + Z.of_nat n ≤ PHYSTOP → KERNBASE ≤ t →
  t + Z.of_nat (length l) < PHYSTOP → dis (d, Z.of_nat n) (t, Z.of_nat (length l) + 1) →
  runs (safestrcpy_loop n d t) s (λ r s', ∃ m', s' = with_mem m' s ∧ d ≤ r ≤ d + Z.of_nat n ∧
    (∀ b, b < d ∨ d + Z.of_nat n ≤ b → bt m' b = bt (mem_of s) b) ∧ cstring (stn 1 m' r 0) d (take n l)).
Proof.
  induction n as [|n IH]; intros d t l s H1 ? ? ? ? Hd; cbn [safestrcpy_loop].
  { apply runs_ret. exists (mem_of s). rewrite with_mem_same. split; [done|]. split; [lia|]. split; [done|].
    split; [intros i c Hi; done|]. rewrite take_0. cbn [length]. rewrite bt_st, decide_True by lia. done. }
  run. pose proof (bt_range (mem_of s) t). destruct l as [|x l].
  - destruct H1 as [_ H1]. cbn in H1. rewrite Z.add_0_r in H1. rewrite H1. change (0 =? 0) with true. cbn [negb]. run.
    eexists. split; [done|]. split; [lia|]. split.
    + intros b Hb. rewrite bt_st, decide_False by lia. done.
    + split; [intros i c Hi; done|]. cbn. rewrite !bt_st, decide_False, decide_True by lia. done.
  - apply cstring_cons in H1 as (E & Hx & H1). rewrite E in *. rewrite (proj2 (Z.eqb_neq x 0)) by done.
    cbn [negb length take] in *. unfold dis in Hd. cbn [fst snd] in Hd.
    set (m1 := stn 1 (mem_of s) d x).
    eapply runs_mono; [apply (IH (d + 1) (t + 1) l (with_mem m1 s))|]; try lia.
    + rewrite mem_of_with_mem. eapply cstring_frame; [exact H1|]. intros b Hb. unfold m1. rewrite bt_st, decide_False by lia. done.
    + unfold dis. cbn [fst snd]. lia.
    + intros r s' (m' & -> & Hr & Hb & Hc). rewrite mem_of_with_mem in Hb. exists m'. mem_norm. split; [done|]. split; [lia|]. split.
      * intros b ?. rewrite Hb by lia. unfold m1. rewrite bt_st, decide_False by lia. done.
      * apply cstring_cons. split; [|split; [done|exact Hc]]. rewrite bt_st, decide_False, Hb by lia. unfold m1.
        rewrite bt_st, decide_True by done. apply u8_small. lia.
Qed.

(** [safestrcpy] copies as much as fits and terminates the copy, inside
    the [n] bytes of the destination. *)
Lemma safestrcpy_spec d t n l s :
  cstring (mem_of s) t l → 0 < n → KERNBASE ≤ d → d + n ≤ PHYSTOP → KERNBASE ≤ t →
  t + Z.of_nat (length l) < PHYSTOP → dis (d, n) (t, Z.of_nat (length l) + 1) →
  runs (safestrcpy d t n) s (λ r s', r = d ∧ cstring (mem_of s') d (take (Z.to_nat (n - 1)) l) ∧
    ∀ b, b < d ∨ d + n ≤ b → bt (mem_of s') b = bt (mem_of s) b).
Proof.
  intros Hc ? ? ? ? ? Hd. unfold safestrcpy. rewrite (proj2 (Z.leb_gt n 0)) by lia. run.
  eapply runs_mono; [apply (safestrcpy_loop_spec _ d t l s Hc); try lia; unfold dis in *; cbn [fst snd] in *; lia|].
  intros r s' (m' & -> & Hr & Hb & Hc'). run. split; [done|]. split; [done|]. intros b ?.
  rewrite bt_st, decide_False by lia. apply Hb. lia.
Qed.
End spec.
