(* ===== verification/Vm.v ===== *)
(** * Virtual memory (kernel/vm.c, the page table parts of kernel/riscv.h and
    kernel/memlayout.h)

    Page tables live in physical memory; their pages come from [kalloc].
    [v_end], [v_etext] and [v_trampoline] are addresses fixed by the
    linker.  [v_pagetable], [v_sz], [v_trapframe] and [v_killed] are the
    fields of the current process that the code reads through [myproc].
    The kernel side of a copy is a list of bytes. *)

From S2P Require Import Prelude Spinlock Riscv Mem Buddy KString.

(** ** Constants *)

Definition PTE_V : Z := Z.shiftl 1 0.
Definition PTE_R : Z := Z.shiftl 1 1.
Definition PTE_W : Z := Z.shiftl 1 2.
Definition PTE_X : Z := Z.shiftl 1 3.
Definition PTE_U : Z := Z.shiftl 1 4.

Definition PA2PTE (pa : Z) : Z := u64 (Z.shiftl (Z.shiftr pa 12) 10).
Definition PTE2PA (pte : Z) : Z := u64 (Z.shiftl (Z.shiftr pte 10) 12).
Definition PTE_FLAGS (pte : Z) : Z := Z.land pte 0x3FF.

Definition PXMASK : Z := 0x1FF.
Definition PXSHIFT (level : Z) : Z := PGSHIFT + 9 * level.
Definition PX (level va : Z) : Z := Z.land (Z.shiftr va (PXSHIFT level)) PXMASK.

Definition MAXVA : Z := Z.shiftl 1 (9 + 9 + 9 + 12 - 1).

Definition SATP_SV39 : Z := Z.shiftl 8 60.
Definition MAKE_SATP (pagetable : Z) : Z := Z.lor SATP_SV39 (Z.shiftr pagetable 12).

Definition UART0 : Z := 0x10000000.
Definition VIRTIO0 : Z := 0x10001000.
Definition PLIC : Z := 0x0c000000.
Definition TRAMPOLINE : Z := MAXVA - PGSIZE.
Definition TRAPFRAME : Z := TRAMPOLINE - PGSIZE.
Definition KSTACK (p : Z) : Z := TRAMPOLINE - (p + 1) * 2 * PGSIZE.

(** ** State *)

Record vmstate := mk_vmstate {
  v_hart : nat;
  v_end : Z;
  v_etext : Z;
  v_trampoline : Z;
  v_mem : gmap Z Z;
  v_tree : mem_tree;
  v_pagetable : Z;
  v_sz : Z;
  v_trapframe : Z;
  v_killed : Z;
}.

Definition vm_with_mem (m : gmap Z Z) (s : vmstate) : vmstate :=
  mk_vmstate (v_hart s) (v_end s) (v_etext s) (v_trampoline s) m (v_tree s) (v_pagetable s) (v_sz s)
             (v_trapframe s) (v_killed s).
Definition vm_with_tree (t : mem_tree) (s : vmstate) : vmstate :=
  mk_vmstate (v_hart s) (v_end s) (v_etext s) (v_trampoline s) (v_mem s) t (v_pagetable s) (v_sz s)
             (v_trapframe s) (v_killed s).
Definition vm_with_pagetable (p : Z) (s : vmstate) : vmstate :=
  mk_vmstate (v_hart s) (v_end s) (v_etext s) (v_trampoline s) (v_mem s) (v_tree s) p (v_sz s)
             (v_trapframe s) (v_killed s).
Definition vm_with_sz (n : Z) (s : vmstate) : vmstate :=
  mk_vmstate (v_hart s) (v_end s) (v_etext s) (v_trampoline s) (v_mem s) (v_tree s) (v_pagetable s) n
             (v_trapframe s) (v_killed s).
Definition vm_with_trapframe (p : Z) (s : vmstate) : vmstate :=
  mk_vmstate (v_hart s) (v_end s) (v_etext s) (v_trampoline s) (v_mem s) (v_tree s) (v_pagetable s) (v_sz s)
             p (v_killed s).

#[export] Program Instance vmstate_mem : HasMem vmstate := {
  mem_of := v_mem;
  with_mem := vm_with_mem;
}.
Next Obligation. done. Qed.
Next Obligation. done. Qed.
Next Obligation. by intros []. Qed.

Definition vm_kalloc : M vmstate Z :=
  s ← get;
  '(pa, t) ← lift (kalloc (v_hart s) (v_tree s));
  modify (vm_with_tree t);;
  mret pa.

Definition vm_kfree (pa : Z) : M vmstate unit :=
  s ← get;
  t ← lift (kfree (v_hart s) (v_end s) pa (v_tree s));
  modify (vm_with_tree t).

(** ** Page tables *)

Definition has (pte flag : Z) : bool := negb (Z.land pte flag =? 0).

Definition pte_at (pagetable level va : Z) : Z := pagetable + 8 * PX level va.

(** The loop of [walk], [level] levels above the last one. *)
Fixpoint walk_loop (level : nat) (pagetable va : Z) (alloc : bool) : M vmstate Z :=
  match level with
  | O => mret (pte_at pagetable 0 va)
  | S l =>
    let pte := pte_at pagetable (Z.of_nat level) va in
    e ← load64 pte;
    if has e PTE_V then walk_loop l (PTE2PA e) va alloc
    else if negb alloc then mret 0
    else
      pagetable ← vm_kalloc;
      if pagetable =? 0 then mret 0
      else
        memset pagetable 0 PGSIZE;;
        store64 pte (Z.lor (PA2PTE pagetable) PTE_V);;
        walk_loop l pagetable va alloc
  end.

Definition walk (pagetable va : Z) (alloc : bool) : M vmstate Z :=
  if MAXVA <=? va then panic "walk"
  else walk_loop 2 pagetable va alloc.

Definition walkaddr (pagetable va : Z) : M vmstate Z :=
  if MAXVA <=? va then mret 0
  else
    pte ← walk pagetable va false;
    if pte =? 0 then mret 0
    else
      e ← load64 pte;
      if negb (has e PTE_V) then mret 0
      else if negb (has e PTE_U) then mret 0
      else mret (PTE2PA e).

Fixpoint mappages_loop (fuel : nat) (pagetable a last pa perm : Z) : M vmstate Z :=
  match fuel with
  | O => out_of_fuel
  | S fuel =>
    pte ← walk pagetable a true;
    if pte =? 0 then mret (-1)
    else
      e ← load64 pte;
      if has e PTE_V then panic "mappages: remap"
      else
        store64 pte (Z.lor (Z.lor (PA2PTE pa) perm) PTE_V);;
        if a =? last then mret 0
        else mappages_loop fuel pagetable (u64 (a + PGSIZE)) last (u64 (pa + PGSIZE)) perm
  end.

(** One round for each page. *)
Definition mappages (pagetable va size pa perm : Z) : M vmstate Z :=
  if negb (va mod PGSIZE =? 0) then panic "mappages: va not aligned"
  else if negb (size mod PGSIZE =? 0) then panic "mappages: size not aligned"
  else if size =? 0 then panic "mappages: size"
  else mappages_loop (Z.to_nat (size / PGSIZE)) pagetable va (u64 (va + size - PGSIZE)) pa perm.

Definition kvmmap (kpgtbl va pa sz perm : Z) : M vmstate unit :=
  r ← mappages kpgtbl va sz pa perm;
  if negb (r =? 0) then panic "kvmmap" else mret tt.

Definition uvmcreate : M vmstate Z :=
  pagetable ← vm_kalloc;
  if pagetable =? 0 then mret 0
  else
    memset pagetable 0 PGSIZE;;
    mret pagetable.

Fixpoint uvmunmap_loop (fuel : nat) (pagetable a stop : Z) (do_free : bool) : M vmstate unit :=
  match fuel with
  | O => out_of_fuel
  | S fuel =>
    if a <? stop then
      pte ← walk pagetable a false;
      (if pte =? 0 then mret tt
       else
         e ← load64 pte;
         if negb (has e PTE_V) then mret tt
         else
           (if do_free then vm_kfree (PTE2PA e) else mret tt);;
           store64 pte 0);;
      uvmunmap_loop fuel pagetable (u64 (a + PGSIZE)) stop do_free
    else mret tt
  end.

Definition uvmunmap (pagetable va npages : Z) (do_free : bool) : M vmstate unit :=
  if negb (va mod PGSIZE =? 0) then panic "uvmunmap: not aligned"
  else uvmunmap_loop (Z.to_nat (npages + 1)) pagetable va (u64 (va + npages * PGSIZE)) do_free.

Definition uvmdealloc (pagetable oldsz newsz : Z) : M vmstate Z :=
  if oldsz <=? newsz then mret oldsz
  else
    (if PGROUNDUP newsz <? PGROUNDUP oldsz then
       let npages := s32 ((PGROUNDUP oldsz - PGROUNDUP newsz) / PGSIZE) in
       uvmunmap pagetable (PGROUNDUP newsz) npages true
     else mret tt);;
    mret newsz.

Fixpoint uvmalloc_loop (fuel : nat) (pagetable oldsz a newsz xperm : Z) : M vmstate Z :=
  match fuel with
  | O => out_of_fuel
  | S fuel =>
    if a <? newsz then
      mem ← vm_kalloc;
      if mem =? 0 then
        uvmdealloc pagetable a oldsz;;
        mret 0
      else
        memset mem 0 PGSIZE;;
        r ← mappages pagetable a PGSIZE mem (Z.lor (Z.lor PTE_R PTE_U) xperm);
        if negb (r =? 0) then
          vm_kfree mem;;
          uvmdealloc pagetable a oldsz;;
          mret 0
        else uvmalloc_loop fuel pagetable oldsz (u64 (a + PGSIZE)) newsz xperm
    else mret newsz
  end.

Definition uvmalloc (pagetable oldsz newsz xperm : Z) : M vmstate Z :=
  if newsz <? oldsz then mret oldsz
  else
    let oldsz := PGROUNDUP oldsz in
    uvmalloc_loop (Z.to_nat ((newsz - oldsz) / PGSIZE + 2)) pagetable oldsz oldsz newsz xperm.

(** The loop of [freewalk] over the entries from [i] on; [free] frees the
    table of the next level. *)
Fixpoint freewalk_loop (free : Z → M vmstate unit) (n : nat) (pagetable i : Z) : M vmstate unit :=
  match n with
  | O => mret tt
  | S n =>
    pte ← load64 (pagetable + 8 * i);
    (if has pte PTE_V && negb (has pte (Z.lor (Z.lor PTE_R PTE_W) PTE_X)) then
       free (PTE2PA pte);;
       store64 (pagetable + 8 * i) 0
     else if has pte PTE_V then panic "freewalk: leaf"
     else mret tt);;
    freewalk_loop free n pagetable (i + 1)
  end.

(** [depth] bounds the recursion; a page table has three levels. *)
Fixpoint freewalk_at (depth : nat) (pagetable : Z) : M vmstate unit :=
  match depth with
  | O => out_of_fuel
  | S depth =>
    freewalk_loop (freewalk_at depth) 512 pagetable 0;;
    vm_kfree pagetable
  end.

Definition freewalk (pagetable : Z) : M vmstate unit := freewalk_at 3 pagetable.

Definition uvmfree (pagetable sz : Z) : M vmstate unit :=
  (if 0 <? sz then uvmunmap pagetable 0 (PGROUNDUP sz / PGSIZE) true else mret tt);;
  freewalk pagetable.

Fixpoint uvmcopy_loop (fuel : nat) (old new i sz : Z) : M vmstate Z :=
  match fuel with
  | O => out_of_fuel
  | S fuel =>
    if i <? sz then
      pte ← walk old i false;
      e ← (if pte =? 0 then mret 0 else load64 pte);
      if negb (has e PTE_V) then uvmcopy_loop fuel old new (u64 (i + PGSIZE)) sz
      else
        let err := uvmunmap new 0 (i / PGSIZE) true;; mret (-1) in
        mem ← vm_kalloc;
        if mem =? 0 then err
        else
          memmove mem (PTE2PA e) PGSIZE;;
          r ← mappages new i PGSIZE mem (PTE_FLAGS e);
          if negb (r =? 0) then vm_kfree mem;; err
          else uvmcopy_loop fuel old new (u64 (i + PGSIZE)) sz
    else mret 0
  end.

Definition uvmcopy (old new sz : Z) : M vmstate Z :=
  uvmcopy_loop (Z.to_nat (sz / PGSIZE + 2)) old new 0 sz.

Definition uvmclear (pagetable va : Z) : M vmstate unit :=
  pte ← walk pagetable va false;
  if pte =? 0 then panic "uvmclear"
  else
    e ← load64 pte;
    store64 pte (Z.land e (Z.lnot PTE_U)).

Definition ismapped (pagetable va : Z) : M vmstate bool :=
  pte ← walk pagetable va false;
  if pte =? 0 then mret false
  else
    e ← load64 pte;
    mret (has e PTE_V).

Definition vmfault (pagetable va : Z) : M vmstate Z :=
  s ← get;
  if v_sz s <=? va then mret 0
  else
    let va := PGROUNDDOWN va in
    b ← ismapped pagetable va;
    if (b : bool) then mret 0
    else
      mem ← vm_kalloc;
      if mem =? 0 then mret 0
      else
        memset mem 0 PGSIZE;;
        r ← mappages (v_pagetable s) va PGSIZE mem (Z.lor (Z.lor PTE_W PTE_U) PTE_R);
        if negb (r =? 0) then
          vm_kfree mem;;
          mret 0
        else mret mem.

(** The physical page of a user page, allocated if it is lazy; 0 if there
    is none. *)
Definition user_page (pagetable va0 : Z) : M vmstate Z :=
  pa0 ← walkaddr pagetable va0;
  if pa0 =? 0 then vmfault pagetable va0 else mret pa0.

(** ** Copying from and to user memory *)

Fixpoint store_bytes (a : Z) (l : list Z) : M vmstate unit :=
  match l with
  | [] => mret tt
  | x :: l => store8 a x;; store_bytes (a + 1) l
  end.

Fixpoint load_bytes (n : nat) (a : Z) : M vmstate (list Z) :=
  match n with
  | O => mret []
  | S n => x ← load8 a; l ← load_bytes n (a + 1); mret (x :: l)
  end.

Definition copy_rounds (len : Z) : nat := Z.to_nat (len / PGSIZE + 3).

Fixpoint copyout_loop (fuel : nat) (pagetable dstva : Z) (src : list Z) : M vmstate Z :=
  match fuel with
  | O => out_of_fuel
  | S fuel =>
    if 0 <? Z.of_nat (length src) then
      let va0 := PGROUNDDOWN dstva in
      if MAXVA <=? va0 then mret (-1)
      else
        pa0 ← user_page pagetable va0;
        if pa0 =? 0 then mret (-1)
        else
          pte ← walk pagetable va0 false;
          e ← load64 pte;
          if negb (has e PTE_W) then mret (-1)
          else
            let n := Z.min (PGSIZE - (dstva - va0)) (Z.of_nat (length src)) in
            store_bytes (pa0 + (dstva - va0)) (take (Z.to_nat n) src);;
            copyout_loop fuel pagetable (u64 (va0 + PGSIZE)) (drop (Z.to_nat n) src)
    else mret 0
  end.

Definition copyout (pagetable dstva : Z) (src : list Z) : M vmstate Z :=
  copyout_loop (copy_rounds (Z.of_nat (length src))) pagetable dstva src.

(** The bytes copied and the C result; a failed copy has delivered the
    bytes before the page it failed at. *)
Fixpoint copyin_loop (fuel : nat) (pagetable srcva len : Z) : M vmstate (list Z * Z) :=
  match fuel with
  | O => out_of_fuel
  | S fuel =>
    if 0 <? len then
      let va0 := PGROUNDDOWN srcva in
      pa0 ← user_page pagetable va0;
      if pa0 =? 0 then mret ([], -1)
      else
        let n := Z.min (PGSIZE - (srcva - va0)) len in
        l ← load_bytes (Z.to_nat n) (pa0 + (srcva - va0));
        '(l', r) ← copyin_loop fuel pagetable (u64 (va0 + PGSIZE)) (len - n);
        mret (l ++ l', r)
    else mret ([], 0)
  end.

Definition copyin (pagetable srcva len : Z) : M vmstate (list Z * Z) :=
  copyin_loop (copy_rounds len) pagetable srcva len.

(** The inner loop of [copyinstr]: the characters before a zero within [n]
    bytes, and whether there was one. *)
Fixpoint scan_str (n : nat) (p : Z) : M vmstate (list Z * bool) :=
  match n with
  | O => mret ([], false)
  | S n =>
    c ← load8 p;
    if c =? 0 then mret ([], true)
    else
      '(l, got_null) ← scan_str n (p + 1);
      mret (c :: l, got_null)
  end.

(** The string, or [None] for the result -1. *)
Fixpoint copyinstr_loop (fuel : nat) (pagetable srcva max : Z) : M vmstate (option (list Z)) :=
  match fuel with
  | O => out_of_fuel
  | S fuel =>
    if 0 <? max then
      let va0 := PGROUNDDOWN srcva in
      pa0 ← walkaddr pagetable va0;
      if pa0 =? 0 then mret None
      else
        let n := Z.min (PGSIZE - (srcva - va0)) max in
        '(l, got_null) ← scan_str (Z.to_nat n) (pa0 + (srcva - va0));
        if (got_null : bool) then mret (Some l)
        else
          r ← copyinstr_loop fuel pagetable (u64 (va0 + PGSIZE)) (max - n);
          mret (app l <$> r)
    else mret None
  end.

Definition copyinstr (pagetable srcva max : Z) : M vmstate (option (list Z)) :=
  copyinstr_loop (copy_rounds max) pagetable srcva max.

(** ** The kernel's page table *)

(** [proc_mapstacks] (kernel/proc.c), the stacks of [n] processes from [p]. *)
Fixpoint mapstacks_loop (n : nat) (kpgtbl p : Z) : M vmstate unit :=
  match n with
  | O => mret tt
  | S n =>
    pa ← vm_kalloc;
    if pa =? 0 then panic "kalloc"
    else
      kvmmap kpgtbl (KSTACK p) pa PGSIZE (Z.lor PTE_R PTE_W);;
      mapstacks_loop n kpgtbl (p + 1)
  end.

Definition NPROC : Z := 64.

Definition proc_mapstacks (kpgtbl : Z) : M vmstate unit := mapstacks_loop (Z.to_nat NPROC) kpgtbl 0.

Definition kvmmake : M vmstate Z :=
  s ← get;
  kpgtbl ← vm_kalloc;
  memset kpgtbl 0 PGSIZE;;
  kvmmap kpgtbl UART0 UART0 PGSIZE (Z.lor PTE_R PTE_W);;
  kvmmap kpgtbl VIRTIO0 VIRTIO0 PGSIZE (Z.lor PTE_R PTE_W);;
  kvmmap kpgtbl PLIC PLIC 0x4000000 (Z.lor PTE_R PTE_W);;
  kvmmap kpgtbl KERNBASE KERNBASE (v_etext s - KERNBASE) (Z.lor PTE_R PTE_X);;
  kvmmap kpgtbl (v_etext s) (v_etext s) (PHYSTOP - v_etext s) (Z.lor PTE_R PTE_W);;
  kvmmap kpgtbl TRAMPOLINE (v_trampoline s) PGSIZE (Z.lor PTE_R PTE_X);;
  proc_mapstacks kpgtbl;;
  mret kpgtbl.

(** ** Page tables of processes (kernel/proc.c) *)

Definition proc_pagetable : M vmstate Z :=
  s ← get;
  pagetable ← uvmcreate;
  if pagetable =? 0 then mret 0
  else
    r ← mappages pagetable TRAMPOLINE PGSIZE (v_trampoline s) (Z.lor PTE_R PTE_X);
    if r <? 0 then
      uvmfree pagetable 0;;
      mret 0
    else
      r ← mappages pagetable TRAPFRAME PGSIZE (v_trapframe s) (Z.lor PTE_R PTE_W);
      if r <? 0 then
        uvmunmap pagetable TRAMPOLINE 1 false;;
        uvmfree pagetable 0;;
        mret 0
      else mret pagetable.

Definition proc_freepagetable (pagetable sz : Z) : M vmstate unit :=
  uvmunmap pagetable TRAMPOLINE 1 false;;
  uvmunmap pagetable TRAPFRAME 1 false;;
  uvmfree pagetable sz.

Definition growproc (n : Z) : M vmstate Z :=
  s ← get;
  let sz := v_sz s in
  if 0 <? n then
    if TRAPFRAME <? u64 (sz + n) then mret (-1)
    else
      sz ← uvmalloc (v_pagetable s) sz (u64 (sz + n)) PTE_W;
      if sz =? 0 then mret (-1)
      else
        modify (vm_with_sz sz);;
        mret 0
  else if n <? 0 then
    sz ← uvmdealloc (v_pagetable s) sz (u64 (sz + n));
    modify (vm_with_sz sz);;
    mret 0
  else
    modify (vm_with_sz sz);;
    mret 0.

(** ** Arguments of system calls (kernel/syscall.c)

    The trap frame holds the user's [a0] to [a7] from offset 112 on. *)

(** The word, or [None] for the result -1. *)
Definition fetchaddr (addr : Z) : M vmstate (option Z) :=
  s ← get;
  if (v_sz s <=? addr) || (v_sz s <? u64 (addr + 8)) then mret None
  else
    '(l, r) ← copyin (v_pagetable s) addr 8;
    if negb (r =? 0) then mret None
    else mret (Some (foldr (λ b w, b + 2 ^ 8 * w) 0 l)).

(** The string; its length is the C result. *)
Definition fetchstr (addr max : Z) : M vmstate (option (list Z)) :=
  s ← get;
  copyinstr (v_pagetable s) addr max.

Definition argraw (n : Z) : M vmstate Z :=
  s ← get;
  if n =? 0 then load64 (v_trapframe s + 112)
  else if n =? 1 then load64 (v_trapframe s + 120)
  else if n =? 2 then load64 (v_trapframe s + 128)
  else if n =? 3 then load64 (v_trapframe s + 136)
  else if n =? 4 then load64 (v_trapframe s + 144)
  else if n =? 5 then load64 (v_trapframe s + 152)
  else panic "argraw".

Definition argint (n : Z) : M vmstate Z :=
  x ← argraw n;
  mret (s32 x).

Definition argaddr (n : Z) : M vmstate Z := argraw n.

Definition argstr (n max : Z) : M vmstate (option (list Z)) :=
  addr ← argaddr n;
  fetchstr addr max.
