(* ===== verification/VmSpec.v ===== *)
(** * Page tables: what [walk], [mappages] and the copies do to a mapping *)

From S2P Require Import Prelude Spinlock Riscv Mem Buddy BlockAlloc SlabRep KString Vm.

(** ** Page table entries and indices *)

Lemma shiftr_small x n : 0 ≤ n → 0 ≤ x < 2 ^ n → Z.shiftr x n = 0.
Proof. intros. rewrite Z_shiftr_div by done. by apply Z.div_small. Qed.

(** The physical address comes back, cut to the page. *)
Lemma PTE2PA_PA2PTE pa f : 0 ≤ pa < 2 ^ 56 → 0 ≤ f < 2 ^ 10 → PTE2PA (Z.lor (PA2PTE pa) f) = PGROUNDDOWN pa.
Proof.
  intros Hpa Hf. unfold PTE2PA, PA2PTE. rewrite PGROUNDDOWN_div.
  assert (Hd : 0 ≤ pa / 2 ^ 12 < 2 ^ 44) by (split; [apply Z.div_pos; lia|apply Z.div_lt_upper_bound; lia]).
  rewrite (u64_small (Z.shiftl _ 10)) by (rewrite Z_shiftl_mul, Z_shiftr_div by lia; lia).
  rewrite Z.shiftr_lor, Z.shiftr_shiftl_l, Z.sub_diag, Z.shiftl_0_r by lia.
  rewrite (shiftr_small f) by lia. rewrite Z.lor_0_r, Z_shiftl_mul, Z_shiftr_div by lia.
  rewrite u64_small by lia. change PGSIZE with (2 ^ 12). lia.
Qed.

Lemma PTE2PA_page pa f : 0 ≤ pa < 2 ^ 56 → pa mod PGSIZE = 0 → 0 ≤ f < 2 ^ 10 → PTE2PA (Z.lor (PA2PTE pa) f) = pa.
Proof.
  intros Hpa Hm Hf. rewrite PTE2PA_PA2PTE, PGROUNDDOWN_div by done. pose proof (Z.div_mod pa PGSIZE). unfold PGSIZE in *. lia.
Qed.

Lemma has_lor a f : f ≠ 0 → has (Z.lor a f) f = true.
Proof.
  intros Hf. unfold has. replace (Z.land (Z.lor a f) f) with f.
  - by rewrite (proj2 (Z.eqb_neq _ _)).
  - apply Z_bits_inj. intros n Hn. rewrite Z.land_spec, Z.lor_spec. destruct (Z.testbit f n); [by rewrite orb_true_r|by rewrite andb_false_r].
Qed.

Lemma has_V_zero : has 0 PTE_V = false.
Proof. done. Qed.

Lemma PA2PTE_range pa f : 0 ≤ pa < 2 ^ 56 → 0 ≤ f < 2 ^ 10 → 0 ≤ Z.lor (PA2PTE pa) f < 2 ^ 64.
Proof.
  intros Hpa Hf. unfold PA2PTE.
  assert (Hd : 0 ≤ pa / 2 ^ 12 < 2 ^ 44) by (split; [apply Z.div_pos; lia|apply Z.div_lt_upper_bound; lia]).
  rewrite u64_small by (rewrite Z_shiftl_mul, Z_shiftr_div by lia; lia).
  assert (0 ≤ Z.shiftl (Z.shiftr pa 12) 10) by (rewrite Z_shiftl_mul, Z_shiftr_div by lia; lia).
  split; [apply Z.lor_nonneg; lia|]. destruct (decide (Z.lor (Z.shiftl (Z.shiftr pa 12) 10) f = 0)) as [->|Hne]; [lia|].
  apply Z.log2_lt_pow2; [pose proof (proj2 (Z.lor_nonneg (Z.shiftl (Z.shiftr pa 12) 10) f) ltac:(lia)); lia|].
  rewrite Z.log2_lor by lia. apply Z.max_lub_lt.
  - rewrite Z_shiftl_mul, Z_shiftr_div by lia. destruct (decide (pa / 2 ^ 12 * 2 ^ 10 = 0)) as [->|]; [cbn; lia|].
    apply Z.log2_lt_pow2; lia.
  - destruct (decide (f = 0)) as [->|]; [cbn; lia|]. enough (Z.log2 f < 10) by lia. apply Z.log2_lt_pow2; lia.
Qed.

Lemma PX_div l va : 0 ≤ l → PX l va = (va / 2 ^ (12 + 9 * l)) mod 512.
Proof.
  intros. unfold PX, PXMASK, PXSHIFT, PGSHIFT. change 0x1FF with (Z.ones 9). rewrite Z.land_ones, Z_shiftr_div by lia. done.
Qed.

Lemma PX_range l va : 0 ≤ l → 0 ≤ PX l va < 512.
Proof. intros. rewrite PX_div by done. by apply Z.mod_pos_bound. Qed.

(** The three indices determine the page. *)
Lemma PX_page va va' :
  0 ≤ va < MAXVA → 0 ≤ va' < MAXVA → PX 2 va = PX 2 va' → PX 1 va = PX 1 va' → PX 0 va = PX 0 va' →
  va / PGSIZE = va' / PGSIZE.
Proof.
  intros Ha Ha'. rewrite !PX_div by lia. change MAXVA with (2 ^ 38) in *. change PGSIZE with (2 ^ 12).
  change (12 + 9 * 2) with 30. change (12 + 9 * 1) with 21. change (12 + 9 * 0) with 12.
  assert (H : ∀ x, 0 ≤ x < 2 ^ 38 → x / 2 ^ 12 = (x / 2 ^ 12) mod 512 + 512 * ((x / 2 ^ 21) mod 512 + 512 * ((x / 2 ^ 30) mod 512))).
  { intros x Hx. replace (x / 2 ^ 30) with (x / 2 ^ 12 / 512 / 512) by (rewrite !Z.div_div by lia; f_equal).
    replace (x / 2 ^ 21) with (x / 2 ^ 12 / 512) by (rewrite Z.div_div by lia; f_equal).
    assert (0 ≤ x / 2 ^ 12 < 2 ^ 26) by (split; [apply Z.div_pos; lia|apply Z.div_lt_upper_bound; lia]).
    generalize dependent (x / 2 ^ 12). intros y Hy. pose proof (Z.div_mod y 512). pose proof (Z.div_mod (y / 512) 512).
    assert (0 ≤ y / 512 / 512 < 512).
    { split; [apply Z.div_pos; [apply Z.div_pos|]; lia|]. apply Z.div_lt_upper_bound; [lia|]. apply Z.div_lt_upper_bound; lia. }
    rewrite (Z.mod_small (y / 512 / 512)) by done. lia. }
  intros E2 E1 E0. rewrite (H va), (H va') by done. lia.
Qed.

(** ** Words and bytes *)

Lemma ldn_bt_ext n m m' : ∀ a, (∀ b, a ≤ b < a + Z.of_nat n → bt m' b = bt m b) → ldn n m' a = ldn n m a.
Proof.
  induction n as [|n IH]; intros a H; [done|].
  change (ldn (S n) ?x a) with (u8 (byte_at x a) + 2 ^ 8 * ldn n x (a + 1)).
  rewrite (IH (a + 1)) by (intros b Hb; apply H; lia). f_equal.
  assert (Ha : bt m' a = bt m a) by (apply H; lia).
  change (bt ?x a) with (u8 (byte_at x a) + 2 ^ 8 * 0) in Ha. lia.
Qed.

Lemma ldn_bt_zero n m : ∀ a, (∀ b, a ≤ b < a + Z.of_nat n → bt m b = 0) → ldn n m a = 0.
Proof.
  induction n as [|n IH]; intros a H; [done|].
  change (ldn (S n) m a) with (u8 (byte_at m a) + 2 ^ 8 * ldn n m (a + 1)).
  rewrite IH by (intros b Hb; apply H; lia).
  assert (Ha : bt m a = 0) by (apply H; lia). change (bt m a) with (u8 (byte_at m a) + 2 ^ 8 * 0) in Ha. lia.
Qed.

Lemma bt_stn n m a v b : b < a ∨ a + Z.of_nat n ≤ b → bt (stn n m a v) b = bt m b.
Proof. intros. apply ldn_stn_ne. cbn. lia. Qed.

(** ** The tree of page table pages

    [T] gives the page of each table, by the indices that lead to it. *)

Definition is_page (p : Z) : Prop := p mod PGSIZE = 0 ∧ KERNBASE ≤ p ∧ p + PGSIZE ≤ PHYSTOP.

Record pt_rep (m : gmap Z Z) (T : gmap (list Z) Z) (root : Z) : Prop := {
  pr_root : T !! [] = Some root;
  pr_inj : ∀ k k' p, T !! k = Some p → T !! k' = Some p → k = k';
  pr_page : ∀ k p, T !! k = Some p → is_page p;
  pr_closed : ∀ k i, is_Some (T !! (k ++ [i])) → is_Some (T !! k) ∧ (length k < 2)%nat;
  pr_entry : ∀ k p i, T !! k = Some p → (length k < 2)%nat → 0 ≤ i < 512 →
    match T !! (k ++ [i]) with
    | Some q => ld64 m (p + 8 * i) = Z.lor (PA2PTE q) PTE_V
    | None => has (ld64 m (p + 8 * i)) PTE_V = false
    end;
}.

(** The entry that maps the page of [va]. *)
Definition mapping (m : gmap Z Z) (T : gmap (list Z) Z) (va : Z) : option Z :=
  match T !! [PX 2 va; PX 1 va] with
  | Some p => let e := ld64 m (p + 8 * PX 0 va) in if has e PTE_V then Some e else None
  | None => None
  end.

Lemma is_page_56 p : is_page p → 0 ≤ p < 2 ^ 56.
Proof. unfold is_page, PHYSTOP, KERNBASE, PGSIZE. lia. Qed.

(** Two pages are equal or apart. *)
Lemma pages_apart p q : is_page p → is_page q → p ≠ q → p + PGSIZE ≤ q ∨ q + PGSIZE ≤ p.
Proof.
  intros (Hp & _) (Hq & _) Hne. pose proof (Z.div_mod p PGSIZE). pose proof (Z.div_mod q PGSIZE).
  unfold PGSIZE in *. assert (p / 4096 ≠ q / 4096) by lia. lia.
Qed.

(** Memory that agrees on the tables. *)
Lemma pt_rep_ext m m' T root :
  pt_rep m T root → (∀ k p b, T !! k = Some p → p ≤ b < p + PGSIZE → bt m' b = bt m b) →
  pt_rep m' T root ∧ ∀ va, mapping m' T va = mapping m T va.
Proof.
  intros [R1 R2 R3 R4 R5] Hb.
  assert (Hw : ∀ k p i, T !! k = Some p → 0 ≤ i < 512 → ld64 m' (p + 8 * i) = ld64 m (p + 8 * i)).
  { intros k p i Hk Hi. apply ldn_bt_ext. intros b ?. apply (Hb k p); [done|]. unfold PGSIZE. lia. }
  split.
  - split; try done. intros k p i Hk Hl Hi. rewrite (Hw k p i Hk Hi). by apply R5.
  - intros va. unfold mapping. destruct (T !! [PX 2 va; PX 1 va]) as [p|] eqn:E; [|done]. cbv zeta.
    rewrite (Hw _ p (PX 0 va) E); [done|by apply PX_range].
Qed.

(** A new, zeroed table. *)
Lemma pt_rep_add m m1 T root k p i q :
  pt_rep m T root → T !! k = Some p → (length k < 2)%nat → 0 ≤ i < 512 → T !! (k ++ [i]) = None →
  is_page q → (∀ k' p', T !! k' = Some p' → p' ≠ q) →
  (∀ b, bt m1 b = if decide (q ≤ b < q + PGSIZE) then 0 else bt m b) →
  let m2 := st64 m1 (p + 8 * i) (Z.lor (PA2PTE q) PTE_V) in
  let T2 := <[k ++ [i] := q]> T in
  pt_rep m2 T2 root ∧ ∀ va, mapping m2 T2 va = mapping m T va.
Proof.
  intros R Hk Hlk Hi Hnone Hq Hfresh Hm1 m2 T2. pose proof R as [R1 R2 R3 R4 R5].
  pose proof (R3 k p Hk) as Hp. pose proof (is_page_56 q Hq) as Hq56.
  assert (Hne : ∀ k', T !! k' ≠ Some q) by (intros k' E; by apply (Hfresh k' q)).
  assert (Hpq : p + PGSIZE ≤ q ∨ q + PGSIZE ≤ p) by (apply pages_apart; [done|done|by eapply Hfresh]).
  assert (Hnew : ld64 m2 (p + 8 * i) = Z.lor (PA2PTE q) PTE_V) by (by apply ld64_st64, PA2PTE_range).
  assert (Hsame : ∀ k' p' i', T !! k' = Some p' → 0 ≤ i' < 512 → k' ≠ k ∨ i' ≠ i → ld64 m2 (p' + 8 * i') = ld64 m (p' + 8 * i')).
  { intros k' p' i' Hk' Hi' Hd. pose proof (R3 k' p' Hk') as Hp'.
    pose proof (pages_apart p' q Hp' Hq ltac:(by eapply Hfresh)) as Hq'.
    unfold m2. rewrite ldn_stn_ne.
    - apply ldn_bt_ext. intros b Hb. rewrite Hm1, decide_False; [done|]. unfold PGSIZE in *. cbn in Hb. lia.
    - cbn. destruct (decide (k' = k)) as [->|Hkk].
      + assert (p' = p) as -> by congruence. destruct Hd; [done|lia].
      + destruct (pages_apart p p' Hp Hp') as [?|?]; [intros ->; apply Hkk; by eapply R2|..]; unfold PGSIZE in *; lia. }
  assert (Hzero : ∀ j, 0 ≤ j < 512 → ld64 m2 (q + 8 * j) = 0).
  { intros j Hj. unfold m2. rewrite ldn_stn_ne by (unfold PGSIZE in *; cbn; lia). apply ldn_bt_zero. intros b Hb.
    rewrite Hm1, decide_True; [done|]. unfold PGSIZE. cbn in Hb. lia. }
  assert (Hkey : ∀ k', k' ≠ k ++ [i] → T2 !! k' = T !! k') by (intros k' ?; by apply lookup_insert_ne).
  assert (Hki : T2 !! (k ++ [i]) = Some q) by apply lookup_insert_eq.
  assert (Hkne : k ≠ k ++ [i]) by (intros E; apply (f_equal length) in E; rewrite length_app in E; cbn in E; lia).
  split; [split|].
  - rewrite Hkey; [done|]. by destruct k.
  - intros a b x. destruct (decide (a = k ++ [i])) as [->|Ha], (decide (b = k ++ [i])) as [->|Hb]; rewrite ?Hki, ?Hkey by done;
      [done|intros [= <-] E; by apply Hne in E|intros E [= <-]; by apply Hne in E|by apply R2].
  - intros a x. destruct (decide (a = k ++ [i])) as [->|Ha]; rewrite ?Hki, ?Hkey by done; [by intros [= <-]|by apply R3].
  - intros a j. destruct (decide (a ++ [j] = k ++ [i])) as [E|Ha].
    + apply app_inj_tail in E as [-> ->]. intros _. rewrite Hkey by done. by rewrite Hk.
    + rewrite Hkey by done. intros [Hs Hl]%R4. split; [|done]. destruct (decide (a = k ++ [i])) as [->|]; [by rewrite Hki|by rewrite Hkey].
  - intros a x j. destruct (decide (a = k ++ [i])) as [->|Ha].
    + rewrite Hki. intros [= <-] Hl Hj. rewrite Hkey, Hzero by (try done; intros E; apply (f_equal length) in E; rewrite !length_app in E; cbn in E; lia).
      destruct (T !! ((k ++ [i]) ++ [j])) eqn:E; [|done]. destruct (R4 (k ++ [i]) j) as [[? ?] _]; [by rewrite E|congruence].
    + rewrite Hkey by done. intros Hx Hl Hj. destruct (decide (a ++ [j] = k ++ [i])) as [E|Hd].
      * apply app_inj_tail in E as [-> ->]. rewrite Hki. congruence.
      * rewrite Hkey by done. rewrite (Hsame a x j Hx Hj); [by apply R5|].
        destruct (decide (a = k)) as [->|]; [right; congruence|by left].
  - intros va. unfold mapping. destruct (decide ([PX 2 va; PX 1 va] = k ++ [i])) as [->|Hd].
    + rewrite Hki, Hnone, Hzero by (by apply PX_range). done.
    + rewrite Hkey by done. destruct (T !! [PX 2 va; PX 1 va]) as [x|] eqn:E; [|done]. rewrite (Hsame _ x (PX 0 va) E); [done|by apply PX_range|].
      left. intros <-. cbn in Hlk. lia.
Qed.

(** ** The state *)

Section walk.
Context (root : Z).
Implicit Types (v : vmstate) (T : gmap (list Z) Z) (L : gset (Z * Z)).

(** The page tables are live blocks of the allocator. *)
Record vm_inv v T L : Prop := {
  vi_rep : pt_rep (v_mem v) T root;
  vi_blocks : buddy_state (v_end v) (v_tree v) L;
  vi_live : ∀ k p, T !! k = Some p → (p, 0) ∈ L;
}.

Definition vm_upd (m : gmap Z Z) (t : mem_tree) v : vmstate := vm_with_tree t (vm_with_mem m v).

Definition outside T (b : Z) : Prop := ∀ k p, T !! k = Some p → b < p ∨ p + PGSIZE ≤ b.

(** Tables may have been added; memory outside them is the same. *)
Record vm_ext v T L v' T' L' : Prop := {
  ve_state : ∃ m t, v' = vm_upd m t v;
  ve_live : L ⊆ L';
  ve_tables : T ⊆ T';
  ve_frame : ∀ b, outside T' b → bt (v_mem v') b = bt (v_mem v) b;
  ve_new : ∀ k p, T' !! k = Some p → T !! k = Some p ∨ (p, 0) ∉ L;
}.

Lemma vm_ext_refl v T L : vm_ext v T L v T L.
Proof. split; try done; [exists (v_mem v), (v_tree v); by destruct v|by left]. Qed.

Lemma vm_ext_trans v T L v1 T1 L1 v2 T2 L2 :
  vm_ext v T L v1 T1 L1 → vm_ext v1 T1 L1 v2 T2 L2 → vm_ext v T L v2 T2 L2.
Proof.
  intros [(m1 & t1 & ->) A2 A3 A4 A5] [(m2 & t2 & ->) B2 B3 B4 B5]. split.
  - by exists m2, t2.
  - by etransitivity.
  - by etransitivity.
  - intros b Hb. rewrite B4 by done. apply A4. intros k p Hk. eapply Hb. by eapply lookup_weaken.
  - intros k p Hk. destruct (B5 k p Hk) as [Hk1|Hn]; [by apply A5|]. right. intros Hl. by apply Hn, A2.
Qed.

Lemma vm_kalloc_spec v L (Q : Z → vmstate → Prop) :
  buddy_state (v_end v) (v_tree v) L → (kalloc (v_hart v) (v_tree v) = Ret (0, v_tree v) → Q 0 v) →
  (∀ a t, buddy_state (v_end v) t ({[(a, 0)]} ∪ L) → new_block (v_end v) L (a, 0) → Q a (vm_with_tree t v)) →
  runs vm_kalloc v Q.
Proof.
  intros Hs H0 Ha. unfold vm_kalloc. apply runs_bind. eapply runs_eq; [reflexivity|]. unfold kalloc.
  destruct (buddy_alloc_law (v_hart v) (v_end v) (v_tree v) L 0 Hs ltac:(lia)) as [E|(a & t & E & Hs' & Hn)].
  - apply runs_bind. eapply runs_eq; [unfold lift; by rewrite E|]. apply runs_bind, runs_modify, runs_ret. destruct v. by apply H0.
  - apply runs_bind. eapply runs_eq; [unfold lift; by rewrite E|]. apply runs_bind, runs_modify, runs_ret. by apply Ha.
Qed.

Lemma new_block_page v L a : buddy_state (v_end v) (v_tree v) L → new_block (v_end v) L (a, 0) → is_page a.
Proof.
  intros [Hk _] (H1 & H2 & H3 & _). unfold block_bytes in H2. cbn [fst snd] in *. change (2 ^ 0) with 1 in H2. split; [done|lia].
Qed.

Lemma new_block_fresh kend L a p : new_block kend L (a, 0) → (p, 0) ∈ L → p ≠ a.
Proof.
  intros (_ & _ & _ & Hap) Hp ->. specialize (Hap _ Hp). unfold apart, block_bytes, PGSIZE in Hap. cbn in Hap. lia.
Qed.

(** The memory behind a zeroed new table. *)
Lemma memset_page v p (Q : Z → vmstate → Prop) :
  is_page p →
  (∀ m', (∀ b, bt m' b = if decide (p ≤ b < p + PGSIZE) then 0 else bt (v_mem v) b) → Q p (vm_with_mem m' v)) →
  runs (memset p 0 PGSIZE) v Q.
Proof.
  intros (_ & Hlo & Hhi) HQ. unfold memset. apply runs_bind. eapply runs_mono; [apply memset_loop_spec; unfold PGSIZE in *; cbn; lia|].
  intros ? v' (m' & -> & Hm). apply runs_ret. apply (HQ m'). intros b. rewrite Hm.
  replace (Z.of_nat (Z.to_nat PGSIZE)) with PGSIZE by done. by rewrite Z.add_0_r.
Qed.

(** The indices of the table that [walk] looks at, [l] levels above the
    last one. *)
Definition key (l : nat) (va : Z) : list Z :=
  match l with
  | O => [PX 2 va; PX 1 va]
  | S O => [PX 2 va]
  | _ => []
  end.

Lemma key_S l va : (l < 2)%nat → key l va = key (S l) va ++ [PX (Z.of_nat (S l)) va].
Proof. destruct l as [|[|l]]; [done|done|lia]. Qed.

Lemma walk_loop_alloc l : ∀ v T L p va,
  (l ≤ 2)%nat → vm_inv v T L → T !! key l va = Some p →
  runs (walk_loop l p va true) v (λ r v', ∃ T' L', vm_inv v' T' L' ∧ vm_ext v T L v' T' L' ∧
    (∀ va', mapping (v_mem v') T' va' = mapping (v_mem v) T va') ∧
    (r = 0 ∨ ∃ p0, T' !! key 0 va = Some p0 ∧ r = p0 + 8 * PX 0 va)).
Proof.
  induction l as [|l IH]; intros v T L p va Hl Hv Hp; cbn [walk_loop].
  { apply runs_ret. exists T, L. ands; [done|apply vm_ext_refl|done|]. right. by exists p. }
  pose proof Hv as [R HL Hlive]. pose proof (pr_page _ _ _ R _ _ Hp) as (_ & Hlo & Hhi).
  set (i := PX (Z.of_nat (S l)) va). assert (Hi : 0 ≤ i < 512) by (apply PX_range; lia).
  assert (Hlk : (length (key (S l) va) < 2)%nat) by (destruct l as [|[|]]; cbn; lia).
  pose proof (pr_entry _ _ _ R _ _ i Hp Hlk Hi) as He. unfold pte_at. fold i.
  apply runs_bind, runs_loadn; [lia|unfold PGSIZE in *; cbn; lia|]. cbn [mem_of vmstate_mem].
  assert (Ek : key l va = key (S l) va ++ [i]) by (apply key_S; lia).
  destruct (T !! (key (S l) va ++ [i])) as [q|] eqn:Eq.
  - rewrite He, has_lor by done. pose proof (pr_page _ _ _ R _ _ Eq) as Hq.
    rewrite PTE2PA_page; [|by apply is_page_56|apply Hq|done]. apply IH; [lia|done|by rewrite Ek].
  - rewrite He. cbn [negb]. apply runs_bind, (vm_kalloc_spec v L); [done| |].
    { intros _. cbn. apply runs_ret. exists T, L. ands; [done|apply vm_ext_refl|done|by left]. }
    intros q t Hs Hn. pose proof (new_block_page v L q HL Hn) as Hq. pose proof (is_page_56 q Hq).
    assert (Hfresh : ∀ k' p', T !! k' = Some p' → p' ≠ q) by (intros k' p' Hk'; by eapply new_block_fresh, Hlive).
    rewrite (proj2 (Z.eqb_neq q 0)) by (destruct Hq as (_ & ? & _); unfold KERNBASE in *; lia).
    apply runs_bind, memset_page; [done|]. intros m1 Hm1. apply runs_bind, runs_storen; [lia|unfold PGSIZE in *; cbn; lia|].
    destruct (pt_rep_add (v_mem v) m1 T root (key (S l) va) p i q R Hp Hlk Hi Eq Hq Hfresh Hm1) as [R2 Hmap].
    set (m2 := st64 m1 _ _) in *. set (T2 := <[_ := q]> T) in *.
    change (with_mem _ _) with (vm_upd m2 t v). set (v2 := vm_upd m2 t v).
    assert (Hv2 : vm_inv v2 T2 ({[(q, 0)]} ∪ L)).
    { split; [done|done|]. intros k' p'. unfold T2. destruct (decide (k' = key (S l) va ++ [i])) as [->|?].
      - rewrite lookup_insert_eq. intros [= <-]. set_solver.
      - rewrite lookup_insert_ne by done. intros Hk'%Hlive. set_solver. }
    assert (He2 : vm_ext v T L v2 T2 ({[(q, 0)]} ∪ L)).
    { split; [by exists m2, t|set_solver|by apply insert_subseteq| |].
      2: { intros k' p' [[_ <-]|[_ ?]]%lookup_insert_Some; [right|by left]. intros Hq'. by apply (new_block_fresh _ _ _ _ Hn Hq'). }
      intros b Hb.
      assert (Hbq : b < q ∨ q + PGSIZE ≤ b) by (eapply Hb; apply lookup_insert_eq).
      assert (Hbp : b < p ∨ p + PGSIZE ≤ b) by (apply (Hb (key (S l) va)); unfold T2; rewrite lookup_insert_ne; [done|intros E; by rewrite E, Hp in Eq]).
      cbn. unfold m2. rewrite bt_stn by (unfold PGSIZE in *; cbn; lia). rewrite Hm1, decide_False; [done|lia]. }
    eapply runs_mono; [apply (IH v2 T2 ({[(q, 0)]} ∪ L) q va); [lia|done|rewrite Ek; apply lookup_insert_eq]|].
    intros r v' (T' & L' & Hv' & He' & Hm' & Hr). exists T', L'. ands; [done|by eapply vm_ext_trans| |done].
    intros va'. by rewrite Hm', <-Hmap.
Qed.

Lemma vm_walk_alloc v T L va :
  vm_inv v T L → va < MAXVA →
  runs (walk root va true) v (λ r v', ∃ T' L', vm_inv v' T' L' ∧ vm_ext v T L v' T' L' ∧
    (∀ va', mapping (v_mem v') T' va' = mapping (v_mem v) T va') ∧
    (r = 0 ∨ ∃ p0, T' !! key 0 va = Some p0 ∧ r = p0 + 8 * PX 0 va)).
Proof.
  intros Hv Hva. unfold walk. rewrite (proj2 (Z.leb_gt MAXVA va)) by lia.
  apply walk_loop_alloc; [lia|done|]. apply Hv.
Qed.

(** Without allocation [walk] finds the table or returns 0. *)
Lemma walk_loop_find l : ∀ v T p va,
  (l ≤ 2)%nat → pt_rep (v_mem v) T root → T !! key l va = Some p →
  walk_loop l p va false v =
    Ret (match T !! key 0 va with Some p0 => p0 + 8 * PX 0 va | None => 0 end, v).
Proof.
  induction l as [|l IH]; intros v T p va Hl R Hp; cbn [walk_loop]; [by rewrite Hp|].
  pose proof (pr_page _ _ _ R _ _ Hp) as (_ & Hlo & Hhi).
  set (i := PX (Z.of_nat (S l)) va). assert (Hi : 0 ≤ i < 512) by (apply PX_range; lia).
  assert (Hlk : (length (key (S l) va) < 2)%nat) by (destruct l as [|[|]]; cbn; lia).
  pose proof (pr_entry _ _ _ R _ _ i Hp Hlk Hi) as He. unfold pte_at. fold i.
  rewrite M_bind_unfold. unfold loadn. rewrite (proj2 (in_ram_true _ _)) by (unfold PGSIZE in *; cbn; lia). cbn [res_bind mem_of vmstate_mem].
  assert (Ek : key l va = key (S l) va ++ [i]) by (apply key_S; lia).
  destruct (T !! (key (S l) va ++ [i])) as [q|] eqn:Eq.
  - rewrite He, has_lor by done. pose proof (pr_page _ _ _ R _ _ Eq) as Hq.
    rewrite PTE2PA_page; [|by apply is_page_56|apply Hq|done]. apply (IH v T); [lia|done|by rewrite Ek].
  - rewrite He. cbn [negb]. destruct (T !! key 0 va) as [p0|] eqn:E0; [|done]. exfalso.
    destruct l as [|[|l]]; [by rewrite <-Ek, E0 in Eq| |lia].
    destruct (pr_closed _ _ _ R [PX 2 va] (PX 1 va)) as [[? H] _]; [by exists p0|].
    change (T !! [PX 2 va] = None) in Eq. congruence.
Qed.

(** ** Changing a leaf *)

Lemma PX_same va va' l : va / PGSIZE = va' / PGSIZE → 0 ≤ l → PX l va = PX l va'.
Proof.
  intros H Hl. rewrite !PX_div by done. rewrite !Z.pow_add_r, <-!Z.div_div by lia.
  change (2 ^ 12) with PGSIZE. by rewrite H.
Qed.

Lemma pt_rep_leaf m T va p0 e :
  pt_rep m T root → T !! key 0 va = Some p0 → 0 ≤ va < MAXVA → 0 ≤ e < 2 ^ 64 →
  let m' := st64 m (p0 + 8 * PX 0 va) e in
  pt_rep m' T root ∧ ∀ va', 0 ≤ va' < MAXVA → mapping m' T va' =
    if decide (va' / PGSIZE = va / PGSIZE) then (if has e PTE_V then Some e else None) else mapping m T va'.
Proof.
  intros R Hp Hva He m'. pose proof R as [R1 R2 R3 R4 R5]. pose proof (R3 _ _ Hp) as Hpg.
  assert (H0 : 0 ≤ PX 0 va < 512) by (by apply PX_range).
  assert (Hsame : ∀ k p i, T !! k = Some p → 0 ≤ i < 512 → k ≠ key 0 va ∨ i ≠ PX 0 va → ld64 m' (p + 8 * i) = ld64 m (p + 8 * i)).
  { intros k p i Hk Hi Hd. unfold m'. apply ldn_stn_ne. cbn. destruct (decide (k = key 0 va)) as [->|Hkk].
    - assert (p = p0) as -> by congruence. destruct Hd; [done|lia].
    - destruct (pages_apart p0 p Hpg (R3 _ _ Hk)) as [?|?]; [intros ->; apply Hkk; by eapply R2|..]; unfold PGSIZE in *; lia. }
  split.
  - split; try done. intros k p i Hk Hl Hi. rewrite (Hsame k p i Hk Hi); [by apply R5|]. left. intros ->. cbn in Hl. lia.
  - intros va' Hva'. unfold mapping. case_decide as Epg.
    + rewrite !(PX_same va' va) by (done || lia). change [PX 2 va; PX 1 va] with (key 0 va). rewrite Hp. cbv zeta.
      unfold m'. by rewrite ld64_st64.
    + change [PX 2 va'; PX 1 va'] with (key 0 va'). destruct (T !! key 0 va') as [p|] eqn:E; [|done]. cbv zeta.
      rewrite (Hsame _ p (PX 0 va') E); [done|by apply PX_range|].
      destruct (decide (key 0 va' = key 0 va)) as [Ek|]; [right|by left]. intros E0. apply Epg.
      injection Ek as E2 E1. by apply PX_page.
Qed.

(** ** [mappages] *)

(** The entry that [mappages] stores for the page of [va']. *)
Definition new_pte (va pa perm va' : Z) : Z := Z.lor (Z.lor (PA2PTE (pa + (PGROUNDDOWN va' - va))) perm) PTE_V.

Definition mapped (va size pa perm : Z) (m : gmap Z Z) T (m' : gmap Z Z) T' : Prop :=
  ∀ va', 0 ≤ va' < MAXVA → mapping m' T' va' =
    if decide (va ≤ va' < va + size) then Some (new_pte va pa perm va') else mapping m T va'.

(** Out of memory: a prefix of the pages has been mapped. *)
Definition map_failed (va size : Z) (m : gmap Z Z) T (m' : gmap Z Z) T' : Prop :=
  ∀ va', 0 ≤ va' < MAXVA → va' < va ∨ va + size ≤ va' → mapping m' T' va' = mapping m T va'.

Lemma page_range va va' : va mod PGSIZE = 0 → va' / PGSIZE = va / PGSIZE ↔ va ≤ va' < va + PGSIZE.
Proof.
  intros Hm. pose proof (Z.div_mod va PGSIZE ltac:(done)). pose proof (Z.div_mod va' PGSIZE ltac:(done)).
  pose proof (Z.mod_pos_bound va' PGSIZE ltac:(done)). unfold PGSIZE in *. split; [lia|]. intros. nia.
Qed.

Lemma lor_perm_range perm : 0 ≤ perm < 2 ^ 10 → 0 ≤ Z.lor perm PTE_V < 2 ^ 10.
Proof.
  intros Hp. assert (HV : 0 ≤ PTE_V) by done. pose proof (proj2 (Z.lor_nonneg perm PTE_V) (conj (proj1 Hp) HV)). split; [done|].
  destruct (decide (Z.lor perm PTE_V = 0)) as [->|Hne]; [lia|]. apply Z.log2_lt_pow2; [lia|].
  rewrite Z.log2_lor by (done || lia). apply Z.max_lub_lt; [|done].
  destruct (decide (perm = 0)) as [->|]; [done|]. apply Z.log2_lt_pow2; lia.
Qed.

Lemma mappages_loop_S fuel pt a last pa perm :
  mappages_loop (S fuel) pt a last pa perm =
    (pte ← walk pt a true;
     if pte =? 0 then mret (-1)
     else e ← load64 pte;
       if has e PTE_V then panic "mappages: remap"
       else store64 pte (Z.lor (Z.lor (PA2PTE pa) perm) PTE_V);;
         if a =? last then mret 0 else mappages_loop fuel pt (u64 (a + PGSIZE)) last (u64 (pa + PGSIZE)) perm).
Proof. reflexivity. Qed.

(** One round of the loop. *)
Lemma map_one v T L a pa perm (k : M vmstate Z) (Q : Z → vmstate → Prop) :
  vm_inv v T L → 0 ≤ a < MAXVA → a mod PGSIZE = 0 → 0 ≤ pa < 2 ^ 56 → 0 ≤ perm < 2 ^ 10 → mapping (v_mem v) T a = None →
  (∀ v' T' L', vm_inv v' T' L' → vm_ext v T L v' T' L' → (∀ va', mapping (v_mem v') T' va' = mapping (v_mem v) T va') → Q (-1) v') →
  (∀ v' T' L', vm_inv v' T' L' → vm_ext v T L v' T' L' → mapped a PGSIZE pa perm (v_mem v) T (v_mem v') T' → runs k v' Q) →
  runs (pte ← walk root a true;
        if pte =? 0 then mret (-1)
        else e ← load64 pte;
          if has e PTE_V then panic "mappages: remap"
          else store64 pte (Z.lor (Z.lor (PA2PTE pa) perm) PTE_V);; k) v Q.
Proof.
  intros Hv Ha Ham Hpa Hperm Hnone Hfail Hk. apply runs_bind. eapply runs_mono; [apply (vm_walk_alloc v T L a Hv); lia|].
  intros r v1 (T1 & L1 & Hv1 & He1 & Hm1 & Hr). destruct Hr as [->|(p0 & Hp0 & ->)]; [by eapply runs_ret, Hfail|].
  pose proof Hv1 as [R1 HL1 Hlive1]. pose proof (pr_page _ _ _ R1 _ _ Hp0) as (_ & Hlo & Hhi).
  assert (H0 : 0 ≤ PX 0 a < 512) by (by apply PX_range).
  rewrite (proj2 (Z.eqb_neq _ 0)) by (unfold KERNBASE in *; lia).
  apply runs_bind, runs_loadn; [lia|unfold PGSIZE in *; cbn; lia|]. cbn [mem_of vmstate_mem].
  assert (Hno : has (ld64 (v_mem v1) (p0 + 8 * PX 0 a)) PTE_V = false).
  { rewrite <-(Hm1 a) in Hnone. unfold mapping in Hnone. change [PX 2 a; PX 1 a] with (key 0 a) in Hnone. rewrite Hp0 in Hnone.
    cbv zeta in Hnone. by destruct (has _ _). }
  rewrite Hno. apply runs_bind, runs_storen; [lia|unfold PGSIZE in *; cbn; lia|].
  set (e := Z.lor (Z.lor (PA2PTE pa) perm) PTE_V).
  assert (He : 0 ≤ e < 2 ^ 64) by (unfold e; rewrite <-Z.lor_assoc; by apply PA2PTE_range, lor_perm_range).
  destruct (pt_rep_leaf (v_mem v1) T1 a p0 e R1 Hp0 Ha He) as [R2 Hm2]. cbn [mem_of vmstate_mem].
  set (m2 := st64 (v_mem v1) _ e) in *. apply (Hk _ T1 L1).
  - split; [exact R2|exact HL1|exact Hlive1].
  - eapply vm_ext_trans; [exact He1|]. split; [by exists m2, (v_tree v1); destruct v1|done|done| |by left]. intros b Hb.
    cbn. unfold m2. apply bt_stn. destruct (Hb _ _ Hp0); unfold PGSIZE in *; cbn; lia.
  - intros va' Hva'. cbn [with_mem vmstate_mem vm_with_mem v_mem]. rewrite Hm2, Hm1 by done.
    destruct (decide (va' / PGSIZE = a / PGSIZE)) as [E|E].
    + pose proof (proj1 (page_range a va' Ham) E). rewrite decide_True by done. unfold e, new_pte. rewrite has_lor by done.
      rewrite PGROUNDDOWN_div, E. do 4 f_equal. pose proof (Z.div_mod a PGSIZE ltac:(done)). lia.
    + rewrite decide_False; [done|]. intros H. by apply E, page_range.
Qed.

Lemma mappages_loop_spec n : ∀ v T L a pa perm,
  vm_inv v T L → 0 ≤ a → a mod PGSIZE = 0 → a + Z.of_nat (S n) * PGSIZE ≤ MAXVA → 0 ≤ pa → pa + Z.of_nat (S n) * PGSIZE ≤ 2 ^ 56 →
  0 ≤ perm < 2 ^ 10 → (∀ va', a ≤ va' < a + Z.of_nat (S n) * PGSIZE → mapping (v_mem v) T va' = None) →
  runs (mappages_loop (S n) root a (a + Z.of_nat n * PGSIZE) pa perm) v (λ r v', ∃ T' L',
    vm_inv v' T' L' ∧ vm_ext v T L v' T' L' ∧
    (r = 0 ∧ mapped a (Z.of_nat (S n) * PGSIZE) pa perm (v_mem v) T (v_mem v') T' ∨
     r = -1 ∧ map_failed a (Z.of_nat (S n) * PGSIZE) (v_mem v) T (v_mem v') T')).
Proof.
  induction n as [|n IH]; intros v T L a pa perm Hv Ha Ham Hend Hpa Hpae Hperm Hnone; rewrite mappages_loop_S;
    (apply (map_one v T L); [done|unfold PGSIZE in *; lia|done|unfold PGSIZE in *; lia|done|apply Hnone; unfold PGSIZE; lia|..]).
  - intros v' T' L' Hv' He' Hm'. exists T', L'. ands; [done|done|]. right. split; [done|]. by intros va' _ _.
  - intros v' T' L' Hv' He' Hm'. rewrite Z.add_0_r, Z.eqb_refl. apply runs_ret. exists T', L'. ands; [done|done|]. by left.
  - intros v' T' L' Hv' He' Hm'. exists T', L'. ands; [done|done|]. right. split; [done|]. by intros va' _ _.
  - intros v' T' L' Hv' He' Hm'. change MAXVA with (2 ^ 38) in Hend. unfold PGSIZE in Hend, Hpae.
    rewrite (proj2 (Z.eqb_neq a _)) by (unfold PGSIZE; lia). rewrite !u64_small by (unfold PGSIZE; lia).
    replace (a + Z.of_nat (S n) * PGSIZE) with ((a + PGSIZE) + Z.of_nat n * PGSIZE) by lia.
    eapply runs_mono; [apply (IH v' T' L'); try done|].
    + unfold PGSIZE. lia.
    + rewrite <-Zplus_mod_idemp_r, Z.mod_same, Z.add_0_r by done. done.
    + change MAXVA with (2 ^ 38). unfold PGSIZE. lia.
    + unfold PGSIZE. lia.
    + unfold PGSIZE. lia.
    + intros va' Hva'. rewrite Hm', decide_False by (change MAXVA with (2 ^ 38); unfold PGSIZE in *; lia). apply Hnone. unfold PGSIZE in *. lia.
    + intros r v2 (T2 & L2 & Hv2 & He2 & Hr). exists T2, L2. ands; [done|by eapply vm_ext_trans|].
      destruct Hr as [[-> Hr]|[-> Hr]]; [left|right]; (split; [done|]); intros va' Hva'.
      * rewrite Hr, Hm' by done. repeat case_decide; try done; try (unfold PGSIZE in *; lia).
        unfold new_pte. do 4 f_equal. lia.
      * intros Hout. rewrite Hr by (done || unfold PGSIZE in *; lia). rewrite Hm', decide_False by (done || unfold PGSIZE in *; lia). done.
Qed.

Lemma mappages_spec v T L va size pa perm :
  vm_inv v T L → 0 ≤ va → va mod PGSIZE = 0 → 0 < size → size mod PGSIZE = 0 → va + size ≤ MAXVA → 0 ≤ pa → pa + size ≤ 2 ^ 56 →
  0 ≤ perm < 2 ^ 10 → (∀ va', va ≤ va' < va + size → mapping (v_mem v) T va' = None) →
  runs (mappages root va size pa perm) v (λ r v', ∃ T' L',
    vm_inv v' T' L' ∧ vm_ext v T L v' T' L' ∧
    (r = 0 ∧ mapped va size pa perm (v_mem v) T (v_mem v') T' ∨
     r = -1 ∧ map_failed va size (v_mem v) T (v_mem v') T')).
Proof.
  intros Hv Hva Hvam Hs Hsm Hend Hpa Hpae Hperm Hnone. unfold mappages. rewrite Hvam, Hsm. cbn [negb Z.eqb].
  rewrite (proj2 (Z.eqb_neq size 0)) by lia. change MAXVA with (2 ^ 38) in Hend.
  pose proof (Z.div_mod size PGSIZE ltac:(done)) as Hdm. rewrite Hsm, Z.add_0_r in Hdm.
  assert (Hn : 0 < size / PGSIZE) by (unfold PGSIZE in *; lia).
  rewrite u64_small by (unfold PGSIZE in *; lia). destruct (Z.to_nat (size / PGSIZE)) as [|n] eqn:En; [lia|].
  assert (Esz : size = Z.of_nat (S n) * PGSIZE) by (unfold PGSIZE in *; lia).
  replace (va + size - PGSIZE) with (va + Z.of_nat n * PGSIZE) by (unfold PGSIZE in *; lia). rewrite Esz in *.
  by apply (mappages_loop_spec n v T L va pa perm).
Qed.
End walk.
