(* ===== verification/VmCopy.v ===== *)
(** * User memory: what [copyin] and [copyout] transfer, and what [vmfault]
    adds *)

From S2P Require Import Prelude Spinlock Riscv Mem Buddy BlockAlloc SlabRep KString Vm VmSpec.

(** The physical address of a user address. *)
Definition user_addr (m : gmap Z Z) (T : gmap (list Z) Z) (va : Z) : Z :=
  match mapping m T va with
  | Some e => PTE2PA e + va mod PGSIZE
  | None => 0
  end.

(** [n] bytes of user memory from [a] on, with entries that have the flags
    [flags], in pages that hold no page table, none of them twice. *)
Record user_range (m : gmap Z Z) (T : gmap (list Z) Z) (flags a n : Z) : Prop := {
  ur_lo : 0 ≤ a;
  ur_hi : a + n ≤ MAXVA;
  ur_map : ∀ va, a ≤ va < a + n → ∃ e, mapping m T va = Some e ∧ has e PTE_U = true ∧
    Z.land e flags = flags ∧ is_page (PTE2PA e) ∧ ∀ b, PTE2PA e ≤ b < PTE2PA e + PGSIZE → outside T b;
  ur_inj : ∀ va va', a ≤ va < a + n → a ≤ va' < a + n → user_addr m T va = user_addr m T va' → va = va';
}.

Lemma mapping_page m T va va' : va / PGSIZE = va' / PGSIZE → mapping m T va = mapping m T va'.
Proof. intros E. unfold mapping. by rewrite !(PX_same va va') by (done || lia). Qed.

Lemma page_of_sub va i : 0 ≤ i → va mod PGSIZE + i < PGSIZE →
  (va + i) / PGSIZE = va / PGSIZE ∧ (va + i) mod PGSIZE = va mod PGSIZE + i.
Proof.
  intros. pose proof (Z.div_mod va PGSIZE ltac:(done)). pose proof (Z.mod_pos_bound va PGSIZE ltac:(done)).
  pose proof (Z.div_mod (va + i) PGSIZE ltac:(done)). pose proof (Z.mod_pos_bound (va + i) PGSIZE ltac:(done)).
  unfold PGSIZE in *. assert ((va + i) / 4096 = va / 4096) by nia. lia.
Qed.

(** Addresses of one page. *)
Lemma user_addr_sub m T va i :
  0 ≤ i → va mod PGSIZE + i < PGSIZE → is_Some (mapping m T va) → user_addr m T (va + i) = user_addr m T va + i.
Proof.
  intros Hi Hp [e He]. destruct (page_of_sub va i Hi Hp) as [Ed Em]. unfold user_addr.
  rewrite (mapping_page m T (va + i) va Ed), He, Em. lia.
Qed.

Lemma user_range_drop m T flags a n k :
  user_range m T flags a n → 0 ≤ k ≤ n → user_range m T flags (a + k) (n - k).
Proof.
  intros [U1 U2 U3 U4] Hk. split; [lia|lia|intros; apply U3; lia|intros; apply U4; [lia|lia|done]].
Qed.

(** The range depends on the mappings only. *)
Lemma user_range_ext_map m m' T flags a n :
  (∀ va, mapping m' T va = mapping m T va) → user_range m T flags a n → user_range m' T flags a n.
Proof.
  intros Hm [U1 U2 U3 U4]. split; [done|done|intros va; rewrite Hm; by apply U3|].
  intros va va' ? ?. unfold user_addr. rewrite !Hm. by apply U4.
Qed.

(** Memory that differs inside user pages only. *)
Lemma user_range_ext m m' T flags a n root :
  pt_rep m T root → (∀ b, ¬ outside T b → bt m' b = bt m b) → user_range m T flags a n →
  pt_rep m' T root ∧ user_range m' T flags a n ∧ ∀ va, mapping m' T va = mapping m T va.
Proof.
  intros R Hb Hu. destruct (pt_rep_ext m m' T root R) as [R' Hm].
  { intros k p b Hk Hpb. apply Hb. intros Ho. destruct (Ho k p Hk); lia. }
  ands; [done|by apply (user_range_ext_map m)|done].
Qed.

Section copy.
Context (root : Z).
Implicit Types (v : vmstate) (T : gmap (list Z) Z).
#[local] Abbreviation rep v T := (pt_rep (v_mem v) T root).

Lemma walkaddr_spec v T va :
  rep v T → 0 ≤ va < MAXVA →
  walkaddr root va v = Ret (match mapping (v_mem v) T va with
                            | Some e => if has e PTE_U then PTE2PA e else 0
                            | None => 0
                            end, v).
Proof.
  intros Hv Hva. pose proof Hv as R. unfold walkaddr, walk. rewrite (proj2 (Z.leb_gt MAXVA va)) by lia.
  rewrite M_bind_unfold, (walk_loop_find root 2 v T root va ltac:(lia) Hv (pr_root _ _ _ R)). cbn [res_bind].
  unfold mapping. change [PX 2 va; PX 1 va] with (key 0 va). destruct (T !! key 0 va) as [p0|] eqn:E; [|done].
  pose proof (pr_page _ _ _ R _ _ E) as (_ & Hlo & Hhi). pose proof (PX_range 0 va ltac:(lia)).
  rewrite (proj2 (Z.eqb_neq _ 0)) by (unfold KERNBASE in *; lia).
  rewrite M_bind_unfold. unfold loadn. rewrite (proj2 (in_ram_true _ _)) by (unfold PGSIZE in *; cbn; lia).
  cbn [res_bind mem_of vmstate_mem]. cbv zeta. destruct (has _ PTE_V); [|done]. by destruct (has _ PTE_U).
Qed.

(** The page of a mapped user address. *)
Lemma user_page_spec v T va e :
  rep v T → 0 ≤ va < MAXVA → mapping (v_mem v) T va = Some e → has e PTE_U = true → is_page (PTE2PA e) →
  user_page root (PGROUNDDOWN va) v = Ret (PTE2PA e, v).
Proof.
  intros Hv Hva He HU (_ & Hlo & _). unfold user_page. rewrite PGROUNDDOWN_div. pose proof (Z.div_mod va PGSIZE ltac:(done)).
  pose proof (Z.mod_pos_bound va PGSIZE ltac:(done)). pose proof (Z.div_pos va PGSIZE ltac:(lia) ltac:(done)).
  rewrite M_bind_unfold, (walkaddr_spec v T) by (done || unfold PGSIZE in *; lia). cbn [res_bind].
  rewrite (mapping_page _ _ _ va), He, HU by (rewrite Z.mul_comm; by apply Z.div_mul).
  by rewrite (proj2 (Z.eqb_neq _ 0)) by (unfold KERNBASE in *; lia).
Qed.

Lemma load_bytes_spec n : ∀ a v, KERNBASE ≤ a → a + Z.of_nat n ≤ PHYSTOP →
  load_bytes n a v = Ret ((λ i, bt (v_mem v) (a + i)) <$> seqZ 0 (Z.of_nat n), v).
Proof.
  induction n as [|n IH]; intros a v Hlo Hhi; [done|]. cbn [load_bytes]. rewrite M_bind_unfold. unfold loadn at 1.
  rewrite (proj2 (in_ram_true _ _)) by (cbn; lia). cbn [res_bind]. rewrite M_bind_unfold, IH by lia. cbn [res_bind].
  unfold mret, M_mret. do 2 f_equal. rewrite (seqZ_cons 0 (Z.of_nat (S n))) by lia. cbn [fmap list_fmap]. rewrite Z.add_0_r. f_equal.
  replace (Z.pred (Z.of_nat (S n))) with (Z.of_nat n) by lia. change (Z.succ 0) with (1 + 0).
  rewrite <-fmap_add_seqZ, <-list_fmap_compose. apply list_fmap_ext. intros i x _. unfold compose. f_equal. lia.
Qed.

Lemma store_bytes_spec l : ∀ a v, KERNBASE ≤ a → a + Z.of_nat (length l) ≤ PHYSTOP →
  runs (store_bytes a l) v (λ _ v', ∃ m', v' = vm_with_mem m' v ∧
    ∀ b, bt m' b = if decide (a ≤ b < a + Z.of_nat (length l)) then u8 (l !!! Z.to_nat (b - a)) else bt (v_mem v) b).
Proof.
  induction l as [|x l IH]; intros a v Hlo Hhi; cbn [store_bytes length].
  { apply runs_ret. exists (v_mem v). split; [by destruct v|]. intros b. rewrite decide_False; [done|cbn; lia]. }
  cbn [length] in Hhi. apply runs_bind, runs_storen; [lia|cbn; lia|]. eapply runs_mono; [apply IH; lia|].
  intros _ v' (m' & -> & Hb). exists m'. split; [done|]. intros b. rewrite Hb.
  cbn [with_mem vmstate_mem vm_with_mem v_mem mem_of]. rewrite bt_st.
  destruct (decide (b = a)) as [->|Hne].
  - rewrite decide_False by lia. rewrite decide_True by lia. by rewrite Z.sub_diag.
  - destruct (decide (a + 1 ≤ b < a + 1 + Z.of_nat (length l))) as [Hin|Hout].
    + rewrite decide_True by lia. replace (Z.to_nat (b - a)) with (S (Z.to_nat (b - (a + 1)))) by lia. done.
    + by rewrite decide_False by lia.
Qed.
(** ** Whole transfers *)

(** A round transfers [n] bytes, up to the end of the page. *)
Lemma round_size va len :
  0 ≤ va → 0 < len →
  let n := Z.min (PGSIZE - (va - PGROUNDDOWN va)) len in
  0 < n ≤ len ∧ va mod PGSIZE + n ≤ PGSIZE ∧ va - PGROUNDDOWN va = va mod PGSIZE ∧
  (n = len ∨ PGROUNDDOWN va + PGSIZE = va + n).
Proof.
  intros Hva Hlen n. unfold n. rewrite PGROUNDDOWN_div. pose proof (Z.div_mod va PGSIZE ltac:(done)).
  pose proof (Z.mod_pos_bound va PGSIZE ltac:(done)). unfold PGSIZE in *. lia.
Qed.

(** The user bytes. *)
Definition user_bytes (m : gmap Z Z) T (a n : Z) : list Z := (λ i, bt m (user_addr m T (a + i))) <$> seqZ 0 n.

Lemma user_bytes_app m T a n k :
  0 ≤ k ≤ n → user_bytes m T a n = user_bytes m T a k ++ user_bytes m T (a + k) (n - k).
Proof.
  intros Hk. unfold user_bytes. replace n with (k + (n - k)) at 1 by lia. rewrite seqZ_app, fmap_app by lia. f_equal.
  replace (0 + k) with (k + 0) by lia. rewrite <-fmap_add_seqZ, <-list_fmap_compose. apply list_fmap_ext. intros i x _. unfold compose. do 2 f_equal. lia.
Qed.

Lemma copyin_loop_0 fuel a v : copyin_loop (S fuel) root a 0 v = Ret (([], 0), v).
Proof. reflexivity. Qed.

Lemma copyin_loop_spec fuel : ∀ v T a len,
  rep v T → 0 ≤ len → user_range (v_mem v) T 0 a len → a mod PGSIZE + len ≤ PGSIZE * (Z.of_nat fuel - 1) →
  copyin_loop fuel root a len v = Ret ((user_bytes (v_mem v) T a len, 0), v).
Proof.
  induction fuel as [|fuel IH]; intros v T a len Hv Hlen Hu Hf.
  { pose proof (Z.mod_pos_bound a PGSIZE ltac:(done)). unfold PGSIZE in *. lia. }
  destruct (decide (len = 0)) as [->|Hne]; [done|]. cbn [copyin_loop]. rewrite (proj2 (Z.ltb_lt 0 len)) by lia.
  pose proof (ur_lo _ _ _ _ _ Hu) as Hlo. pose proof (ur_hi _ _ _ _ _ Hu) as Hhi.
  destruct (ur_map _ _ _ _ _ Hu a) as (e & He & HU & _ & Hpg & _); [lia|].
  rewrite M_bind_unfold, (user_page_spec v T a e) by (done || lia). cbn [res_bind].
  rewrite (proj2 (Z.eqb_neq _ 0)) by (destruct Hpg as (_ & ? & _); unfold KERNBASE in *; lia).
  destruct (round_size a len Hlo ltac:(lia)) as (Hn & Hin & Ea & Hnext). set (n := Z.min _ len) in *. rewrite Ea.
  destruct Hpg as (_ & Hplo & Hphi). pose proof (Z.mod_pos_bound a PGSIZE ltac:(done)) as Hmod.
  rewrite M_bind_unfold, load_bytes_spec by lia. cbn [res_bind]. rewrite Z2Nat.id by lia.
  assert (El : (λ i, bt (v_mem v) (PTE2PA e + a mod PGSIZE + i)) <$> seqZ 0 n = user_bytes (v_mem v) T a n).
  { apply list_fmap_ext. intros j i Hj. apply list_elem_of_lookup_2, elem_of_seqZ in Hj.
    rewrite user_addr_sub by (rewrite ?He; done || lia). unfold user_addr. by rewrite He. }
  rewrite El, (user_bytes_app _ _ a len n) by lia. rewrite M_bind_unfold.
  destruct (decide (len - n = 0)) as [E0|E0].
  - rewrite E0. destruct fuel as [|fuel]; [lia|]. rewrite copyin_loop_0. done.
  - destruct Hnext as [?|Hnext]; [lia|]. change MAXVA with (2 ^ 38) in Hhi. rewrite Hnext, u64_small by lia.
    rewrite (IH v T); [done|done|lia|by apply user_range_drop; [done|lia]|].
    assert (Em : (a + n) mod PGSIZE = 0) by (rewrite <-Hnext, PGROUNDDOWN_div, Z.mul_comm, Z.add_comm, Z.mod_add by done; done).
    rewrite Em. rewrite PGROUNDDOWN_div in Hnext. pose proof (Z.div_mod a PGSIZE ltac:(done)). lia.
Qed.

Lemma copy_rounds_enough a len : 0 ≤ len → a mod PGSIZE + len ≤ PGSIZE * (Z.of_nat (copy_rounds len) - 1).
Proof.
  intros. unfold copy_rounds. pose proof (Z.mod_pos_bound a PGSIZE ltac:(done)). pose proof (Z.div_mod len PGSIZE ltac:(done)).
  pose proof (Z.mod_pos_bound len PGSIZE ltac:(done)). pose proof (Z.div_pos len PGSIZE ltac:(lia) ltac:(done)). unfold PGSIZE in *. lia.
Qed.

Lemma copyin_spec v T a len :
  rep v T → 0 ≤ len → user_range (v_mem v) T 0 a len →
  copyin root a len v = Ret ((user_bytes (v_mem v) T a len, 0), v).
Proof. intros. eapply copyin_loop_spec; [done|done|done|by apply copy_rounds_enough]. Qed.

(** [copyout] stores the bytes and touches nothing else. *)
Definition stored (m : gmap Z Z) T (a : Z) (l : list Z) (m' : gmap Z Z) : Prop :=
  (∀ i, 0 ≤ i < Z.of_nat (length l) → bt m' (user_addr m T (a + i)) = u8 (l !!! Z.to_nat i)) ∧
  (∀ b, (∀ i, 0 ≤ i < Z.of_nat (length l) → user_addr m T (a + i) ≠ b) → bt m' b = bt m b).

(** The entry as the code reads it. *)
Lemma walk_entry v T va e :
  rep v T → 0 ≤ va < MAXVA → mapping (v_mem v) T va = Some e →
  (pte ← walk root va false; load64 pte) v = Ret (e, v).
Proof.
  intros Hv Hva He. pose proof Hv as R. unfold walk. rewrite (proj2 (Z.leb_gt MAXVA va)) by lia.
  rewrite M_bind_unfold, (walk_loop_find root 2 v T root va ltac:(lia) Hv (pr_root _ _ _ R)). cbn [res_bind].
  unfold mapping in He. change [PX 2 va; PX 1 va] with (key 0 va) in He. destruct (T !! key 0 va) as [p0|] eqn:E; [|done].
  pose proof (pr_page _ _ _ R _ _ E) as (_ & Hlo & Hhi). pose proof (PX_range 0 va ltac:(lia)).
  unfold loadn. rewrite (proj2 (in_ram_true _ _)) by (unfold PGSIZE in *; cbn; lia).
  cbn [mem_of vmstate_mem]. cbv zeta in He. destruct (has _ PTE_V); [|done]. by injection He as ->.
Qed.

(** One round of [copyout]: the bytes of one page. *)
Lemma copyout_round v T a l e :
  rep v T → user_range (v_mem v) T PTE_W a (Z.of_nat (length l)) → mapping (v_mem v) T a = Some e →
  0 < Z.of_nat (length l) → a mod PGSIZE + Z.of_nat (length l) ≤ PGSIZE →
  runs (store_bytes (PTE2PA e + a mod PGSIZE) l) v (λ _ v', ∃ m', v' = vm_with_mem m' v ∧ rep v' T ∧
    (∀ va, mapping m' T va = mapping (v_mem v) T va) ∧ stored (v_mem v) T a l m').
Proof.
  intros Hv Hu He Hlen Hin. pose proof (Z.mod_pos_bound a PGSIZE ltac:(done)) as Hmod.
  destruct (ur_map _ _ _ _ _ Hu a) as (e' & He' & _ & _ & (_ & Hplo & Hphi) & Hout); [lia|].
  assert (e' = e) as -> by congruence. eapply runs_mono; [apply store_bytes_spec; lia|].
  intros _ v' (m' & -> & Hb). exists m'.
  assert (Hsub : ∀ i, 0 ≤ i < Z.of_nat (length l) → user_addr (v_mem v) T (a + i) = PTE2PA e + a mod PGSIZE + i).
  { intros i Hi. rewrite user_addr_sub by (rewrite ?He; done || lia). unfold user_addr. by rewrite He. }
  destruct (user_range_ext (v_mem v) m' T PTE_W a (Z.of_nat (length l)) root Hv) as (R' & _ & Hm); [|done|].
  { intros b Ho. rewrite Hb, decide_False; [done|]. intros Hr. apply Ho, Hout. lia. }
  ands; [done|done|done|split].
  - intros i Hi. rewrite (Hsub i Hi), Hb, decide_True by lia. do 2 f_equal. lia.
  - intros b Hne. rewrite Hb, decide_False; [done|]. intros Hr. apply (Hne (b - (PTE2PA e + a mod PGSIZE))); [lia|].
    rewrite Hsub by lia. lia.
Qed.

Lemma stored_app m T a l1 l2 m1 m2 :
  user_range m T PTE_W a (Z.of_nat (length (l1 ++ l2))) → (∀ va, mapping m1 T va = mapping m T va) →
  stored m T a l1 m1 → stored m1 T (a + Z.of_nat (length l1)) l2 m2 → stored m T a (l1 ++ l2) m2.
Proof.
  intros Hu Hm [A1 A2] [B1 B2]. rewrite length_app in Hu.
  assert (Hua : ∀ va, user_addr m1 T va = user_addr m T va) by (intros va; unfold user_addr; by rewrite Hm).
  setoid_rewrite Hua in B1. setoid_rewrite Hua in B2. split; rewrite length_app.
  - intros i Hi. destruct (decide (i < Z.of_nat (length l1))) as [Hl|Hl].
    + rewrite B2; [rewrite A1 by lia; by rewrite lookup_total_app_l by lia|].
      intros j Hj E. apply (ur_inj _ _ _ _ _ Hu) in E; lia.
    + replace (a + i) with (a + Z.of_nat (length l1) + (i - Z.of_nat (length l1))) by lia. rewrite B1 by lia.
      rewrite lookup_total_app_r by lia. do 2 f_equal. lia.
  - intros b Hb. rewrite B2, A2; [done|intros i Hi; apply Hb; lia|].
    intros i Hi. rewrite <-Z.add_assoc. apply Hb. lia.
Qed.

Lemma has_W e : Z.land e PTE_W = PTE_W → has e PTE_W = true.
Proof. intros E. unfold has. by rewrite E. Qed.

Lemma copyout_loop_nil fuel a v : copyout_loop (S fuel) root a [] v = Ret (0, v).
Proof. reflexivity. Qed.

Lemma copyout_loop_spec fuel : ∀ v T a l,
  rep v T → user_range (v_mem v) T PTE_W a (Z.of_nat (length l)) →
  a mod PGSIZE + Z.of_nat (length l) ≤ PGSIZE * (Z.of_nat fuel - 1) →
  runs (copyout_loop fuel root a l) v (λ r v', r = 0 ∧ ∃ m', v' = vm_with_mem m' v ∧ rep v' T ∧
    (∀ va, mapping m' T va = mapping (v_mem v) T va) ∧ stored (v_mem v) T a l m').
Proof.
  induction fuel as [|fuel IH]; intros v T a l Hv Hu Hf.
  { pose proof (Z.mod_pos_bound a PGSIZE ltac:(done)). unfold PGSIZE in *. lia. }
  destruct (decide (l = [])) as [->|Hne].
  { eapply runs_eq; [apply copyout_loop_nil|]. split; [done|]. exists (v_mem v). ands; [by destruct v|done|done|].
    split; [cbn; lia|done]. }
  assert (Hlen : 0 < Z.of_nat (length l)) by (destruct l; [done|cbn; lia]). cbn [copyout_loop].
  rewrite (proj2 (Z.ltb_lt 0 _)) by done. pose proof (ur_lo _ _ _ _ _ Hu) as Hlo. pose proof (ur_hi _ _ _ _ _ Hu) as Hhi.
  destruct (ur_map _ _ _ _ _ Hu a) as (e & He & HU & HW & Hpg & _); [lia|].
  destruct (round_size a _ Hlo Hlen) as (Hn & Hin & Ea & Hnext). set (n := Z.min _ (Z.of_nat (length l))) in *.
  pose proof (Z.mod_pos_bound a PGSIZE ltac:(done)) as Hmod.
  rewrite (proj2 (Z.leb_gt MAXVA _)) by lia. apply runs_bind.
  eapply runs_eq; [by apply (user_page_spec v T a e); [|lia|..]|].
  rewrite (proj2 (Z.eqb_neq _ 0)) by (destruct Hpg as (_ & ? & _); unfold KERNBASE in *; lia).
  apply runs_assoc. apply runs_bind. eapply runs_eq.
  { apply (walk_entry v T _ e Hv); [rewrite PGROUNDDOWN_div in *; unfold PGSIZE in *; lia|].
    rewrite (mapping_page _ _ _ a); [done|]. rewrite PGROUNDDOWN_div, Z.mul_comm. by apply Z.div_mul. }
  rewrite has_W by done. cbn [negb]. rewrite Ea.
  assert (Hl1 : length (take (Z.to_nat n) l) = Z.to_nat n) by (rewrite length_take; lia).
  apply runs_bind. eapply runs_mono; [apply (copyout_round v T a (take (Z.to_nat n) l) e Hv); [|done|lia|lia]|].
  { destruct Hu as [U1 U2 U3 U4]. split; [done|lia|intros; apply U3; lia|intros; apply U4; [lia|lia|done]]. }
  intros _ v1 (m1 & -> & Hv1 & Hm1 & Hst1). set (v1 := vm_with_mem m1 v) in *.
  assert (Hu1 : user_range m1 T PTE_W a (Z.of_nat (length l))).
  { by apply (user_range_ext_map (v_mem v)). }
  destruct (decide (Z.of_nat (length l) = n)) as [E0|E0].
  - rewrite drop_ge by lia. destruct fuel as [|fuel]; [lia|]. eapply runs_eq; [apply copyout_loop_nil|]. split; [done|].
    rewrite take_ge in Hst1 by lia. exists m1. by ands.
  - destruct Hnext as [?|Hnext]; [lia|]. change MAXVA with (2 ^ 38) in Hhi. rewrite Hnext, u64_small by lia.
    assert (Em : (a + n) mod PGSIZE = 0) by (rewrite <-Hnext, PGROUNDDOWN_div, Z.mul_comm, Z.add_comm, Z.mod_add by done; done).
    assert (El : Z.of_nat (length (drop (Z.to_nat n) l)) = Z.of_nat (length l) - n) by (rewrite length_drop; lia).
    eapply runs_mono; [apply (IH v1 T (a + n) (drop (Z.to_nat n) l) Hv1)|].
    + rewrite El. by apply user_range_drop; [|lia].
    + rewrite Em, El. rewrite PGROUNDDOWN_div in Hnext. pose proof (Z.div_mod a PGSIZE ltac:(done)). lia.
    + intros r v2 (-> & m2 & -> & Hv2 & Hm2 & Hst2). split; [done|]. exists m2. ands; [done|done|intros va; by rewrite Hm2, <-Hm1|].
      rewrite <-(take_drop (Z.to_nat n) l). eapply stored_app; [by rewrite take_drop|exact Hm1|exact Hst1|].
      rewrite Hl1, Z2Nat.id by lia. exact Hst2.
Qed.

Lemma copyout_spec v T a l :
  rep v T → user_range (v_mem v) T PTE_W a (Z.of_nat (length l)) →
  runs (copyout root a l) v (λ r v', r = 0 ∧ ∃ m', v' = vm_with_mem m' v ∧ rep v' T ∧
    (∀ va, mapping m' T va = mapping (v_mem v) T va) ∧ stored (v_mem v) T a l m').
Proof. intros Hv Hu. apply copyout_loop_spec; [done|done|]. apply copy_rounds_enough. lia. Qed.

(** What was stored is read back. *)
Lemma stored_bytes m T a l m' :
  (∀ va, mapping m' T va = mapping m T va) → stored m T a l m' → Forall (λ x, 0 ≤ x < 256) l →
  user_bytes m' T a (Z.of_nat (length l)) = l.
Proof.
  intros Hm [Hs _] Hl. apply list_eq. intros i. unfold user_bytes. rewrite list_lookup_fmap.
  destruct (decide (i < length l)%nat) as [Hi|Hi].
  - rewrite lookup_seqZ_lt by lia. cbn. unfold user_addr. rewrite Hm. fold (user_addr m T (a + (0 + Z.of_nat i))).
    rewrite Hs by lia. destruct (lookup_lt_is_Some_2 l i Hi) as [x Hx].
    replace (Z.to_nat (0 + Z.of_nat i)) with i by lia. rewrite Hx, (list_lookup_total_correct _ _ _ Hx).
    f_equal. apply u8_small. by apply (proj1 (list.Forall_forall _ _) Hl x), (list_elem_of_lookup_2 _ _ _ Hx).
  - rewrite lookup_seqZ_ge by lia. cbn. symmetry. apply lookup_ge_None. lia.
Qed.
End copy.

(** * Lazily allocated pages: what [vmfault] does *)

Section fault.
Context (root : Z).
Implicit Types (v : vmstate) (T : gmap (list Z) Z) (L : gset (Z * Z)).

(** With its tables there, [walk] finds the entry. *)
Lemma walk_loop_present l : ∀ v T p va p0,
  (l ≤ 2)%nat → pt_rep (v_mem v) T root → T !! key l va = Some p → T !! key 0 va = Some p0 →
  walk_loop l p va true v = Ret (p0 + 8 * PX 0 va, v).
Proof.
  induction l as [|l IH]; intros v T p va p0 Hl R Hp Hp0; cbn [walk_loop]; [by simplify_eq|].
  pose proof (pr_page _ _ _ R _ _ Hp) as (_ & Hlo & Hhi).
  set (i := PX (Z.of_nat (S l)) va). assert (Hi : 0 ≤ i < 512) by (apply PX_range; lia).
  assert (Hlk : (length (key (S l) va) < 2)%nat) by (destruct l as [|[|]]; cbn; lia).
  pose proof (pr_entry _ _ _ R _ _ i Hp Hlk Hi) as He. unfold pte_at. fold i.
  rewrite M_bind_unfold. unfold loadn. rewrite (proj2 (in_ram_true _ _)) by (unfold PGSIZE in *; cbn; lia). cbn [res_bind mem_of vmstate_mem].
  assert (Ek : key l va = key (S l) va ++ [i]) by (apply key_S; lia).
  assert (Hq : is_Some (T !! key l va)).
  { destruct l as [|[|l]]; [by exists p0| |lia]. destruct (pr_closed _ _ _ R [PX 2 va] (PX 1 va)) as [Hs _]; [by exists p0|done]. }
  destruct Hq as [q Eq]. rewrite Ek in Eq. rewrite Eq in He. rewrite He, has_lor by done. pose proof (pr_page _ _ _ R _ _ Eq) as Hq.
  rewrite PTE2PA_page; [|by apply is_page_56|apply Hq|done]. apply (IH v T); [lia|done|by rewrite Ek|done].
Qed.

Lemma ismapped_spec v T va : pt_rep (v_mem v) T root → 0 ≤ va < MAXVA →
  ismapped root va v = Ret (bool_decide (is_Some (mapping (v_mem v) T va)), v).
Proof.
  intros R Hva. unfold ismapped, walk. rewrite (proj2 (Z.leb_gt MAXVA va)) by lia.
  rewrite M_bind_unfold, (walk_loop_find root 2 v T root va ltac:(lia) R (pr_root _ _ _ R)). cbn [res_bind].
  unfold mapping. change [PX 2 va; PX 1 va] with (key 0 va). destruct (T !! key 0 va) as [p0|] eqn:E; [|done].
  pose proof (pr_page _ _ _ R _ _ E) as (_ & Hlo & Hhi). pose proof (PX_range 0 va ltac:(lia)).
  rewrite (proj2 (Z.eqb_neq _ 0)) by (unfold KERNBASE in *; lia).
  rewrite M_bind_unfold. unfold loadn. rewrite (proj2 (in_ram_true _ _)) by (unfold PGSIZE in *; cbn; lia).
  cbn [res_bind mem_of vmstate_mem]. cbv zeta. by destruct (has _ PTE_V).
Qed.

(** A page that is mapped already, or is beyond the end of the process. *)
Lemma vmfault_refuses v T va :
  pt_rep (v_mem v) T root → 0 ≤ va < MAXVA → v_sz v ≤ va ∨ is_Some (mapping (v_mem v) T va) → vmfault root va v = Ret (0, v).
Proof.
  intros R Hva Hno. unfold vmfault. rewrite M_bind_unfold. cbn [get res_bind].
  destruct (Z.leb_spec (v_sz v) va) as [|Hlt]; [done|]. destruct Hno as [|Hm]; [lia|].
  assert (E : mapping (v_mem v) T (PGROUNDDOWN va) = mapping (v_mem v) T va).
  { apply mapping_page. rewrite PGROUNDDOWN_div, Z.mul_comm. by apply Z.div_mul. }
  assert (0 ≤ PGROUNDDOWN va ≤ va).
  { rewrite PGROUNDDOWN_div. pose proof (Z.div_mod va PGSIZE ltac:(done)). pose proof (Z.mod_pos_bound va PGSIZE ltac:(done)).
    pose proof (Z.div_pos va PGSIZE ltac:(lia) ltac:(done)). unfold PGSIZE in *. lia. }
  rewrite M_bind_unfold, (ismapped_spec v T) by (done || lia). cbn [res_bind]. rewrite E, bool_decide_true by done. done.
Qed.

(** What the process has gained: a zeroed page of its own. *)
Record page_added v T L va page v' L' : Prop := {
  pa_inv : vm_inv root v' T L';
  pa_state : ∃ m t, v' = vm_upd m t v;
  pa_live : L' = {[(page, 0)]} ∪ L;
  pa_new : new_block (v_end v) L (page, 0);
  pa_mapped : mapped (PGROUNDDOWN va) PGSIZE page (Z.lor (Z.lor PTE_W PTE_U) PTE_R) (v_mem v) T (v_mem v') T;
  pa_zero : ∀ b, page ≤ b < page + PGSIZE → bt (v_mem v') b = 0;
  pa_frame : ∀ b, outside T b → b < page ∨ page + PGSIZE ≤ b → bt (v_mem v') b = bt (v_mem v) b;
}.

(** The new page in the tables that are there already. *)
Lemma map_present v T L p0 a pa perm (Q : Z → vmstate → Prop) :
  vm_inv root v T L → T !! key 0 a = Some p0 → 0 ≤ a < MAXVA → a mod PGSIZE = 0 → 0 ≤ pa < 2 ^ 56 → 0 ≤ perm < 2 ^ 10 →
  mapping (v_mem v) T a = None →
  (∀ v', vm_inv root v' T L → (∃ m, v' = vm_with_mem m v) → mapped a PGSIZE pa perm (v_mem v) T (v_mem v') T →
    (∀ b, outside T b → bt (v_mem v') b = bt (v_mem v) b) → Q 0 v') →
  runs (mappages root a PGSIZE pa perm) v Q.
Proof.
  intros Hv Hp0 Ha Ham Hpa Hperm Hnone HQ. unfold mappages. rewrite Ham. cbn [Z.eqb negb]. change (Z.to_nat (PGSIZE / PGSIZE)) with 1%nat.
  change (negb (PGSIZE mod PGSIZE =? 0)) with false. change (PGSIZE =? 0) with false. cbv iota.
  replace (a + PGSIZE - PGSIZE) with a by lia. change MAXVA with (2 ^ 38) in Ha. rewrite u64_small by lia. rewrite mappages_loop_S.
  pose proof Hv as [R HL Hlive]. pose proof (pr_page _ _ _ R _ _ Hp0) as (_ & Hlo & Hhi). pose proof (PX_range 0 a ltac:(lia)) as H0.
  apply runs_bind. eapply runs_eq.
  { unfold walk. rewrite (proj2 (Z.leb_gt MAXVA a)) by (change MAXVA with (2 ^ 38); lia).
    apply (walk_loop_present 2 v T root a p0 ltac:(lia) R (pr_root _ _ _ R) Hp0). }
  rewrite (proj2 (Z.eqb_neq _ 0)) by (unfold KERNBASE in *; lia).
  apply runs_bind, runs_loadn; [lia|unfold PGSIZE in *; cbn; lia|]. cbn [mem_of vmstate_mem].
  assert (Hno : has (ld64 (v_mem v) (p0 + 8 * PX 0 a)) PTE_V = false).
  { unfold mapping in Hnone. change [PX 2 a; PX 1 a] with (key 0 a) in Hnone. rewrite Hp0 in Hnone. cbv zeta in Hnone. by destruct (has _ _). }
  rewrite Hno. apply runs_bind, runs_storen; [lia|unfold PGSIZE in *; cbn; lia|]. rewrite Z.eqb_refl. apply runs_ret.
  set (e := Z.lor (Z.lor (PA2PTE pa) perm) PTE_V).
  assert (He : 0 ≤ e < 2 ^ 64) by (unfold e; rewrite <-Z.lor_assoc; by apply PA2PTE_range, lor_perm_range).
  destruct (pt_rep_leaf root (v_mem v) T a p0 e R Hp0 Ha He) as [R2 Hm2]. cbn [mem_of vmstate_mem].
  set (m2 := st64 (v_mem v) _ e) in *. apply HQ; [by split|by exists m2| |].
  - intros va' Hva'. cbn [with_mem vmstate_mem vm_with_mem v_mem]. rewrite Hm2 by done.
    destruct (decide (va' / PGSIZE = a / PGSIZE)) as [E|E].
    + pose proof (proj1 (page_range a va' Ham) E). rewrite decide_True by done. unfold e, new_pte. rewrite has_lor by done.
      rewrite PGROUNDDOWN_div, E. do 4 f_equal. pose proof (Z.div_mod a PGSIZE ltac:(done)). lia.
    + rewrite decide_False; [done|]. intros H. by apply E, page_range.
  - intros b Hb. cbn. unfold m2. apply bt_stn. destruct (Hb _ _ Hp0); unfold PGSIZE in *; cbn; lia.
Qed.

Lemma vmfault_spec v T L va p0 :
  vm_inv root v T L → v_pagetable v = root → 0 ≤ va < v_sz v → v_sz v ≤ MAXVA → T !! key 0 va = Some p0 → mapping (v_mem v) T va = None →
  runs (vmfault root va) v (λ page v', (page = 0 ∧ v' = v ∧ kalloc (v_hart v) (v_tree v) = Ret (0, v_tree v)) ∨ (page ≠ 0 ∧ ∃ L', page_added v T L va page v' L')).
Proof.
  intros Hv Hroot Hva Hsz Hp0 Hnone. set (a := PGROUNDDOWN va).
  assert (Ea : a / PGSIZE = va / PGSIZE) by (unfold a; rewrite PGROUNDDOWN_div, Z.mul_comm; by apply Z.div_mul).
  assert (Ham : a mod PGSIZE = 0) by (unfold a; rewrite PGROUNDDOWN_div, Z.mul_comm; by apply Z.mod_mul).
  assert (Hav : 0 ≤ a ≤ va).
  { unfold a. rewrite PGROUNDDOWN_div. pose proof (Z.div_mod va PGSIZE ltac:(done)). pose proof (Z.mod_pos_bound va PGSIZE ltac:(done)).
    pose proof (Z.div_pos va PGSIZE ltac:(lia) ltac:(done)). unfold PGSIZE in *. lia. }
  assert (Ek : key 0 a = key 0 va) by (unfold key; by rewrite !(PX_same a va) by (done || lia)).
  assert (Em : mapping (v_mem v) T a = None) by (rewrite <-Hnone; by apply mapping_page).
  unfold vmfault. apply runs_bind. eapply runs_eq; [reflexivity|]. rewrite (proj2 (Z.leb_gt (v_sz v) va)) by lia. fold a.
  apply runs_bind. eapply runs_eq; [apply (ismapped_spec v T); [apply Hv|lia]|]. rewrite Em. rewrite bool_decide_false by (by intros []).
  pose proof Hv as [R HL Hlive]. apply runs_bind, (vm_kalloc_spec v L); [done|intros E0; apply runs_ret; by left|].
  intros q t Hs Hn. pose proof (new_block_page v L q HL Hn) as Hq. pose proof (is_page_56 q Hq) as Hq56.
  assert (Hne : q ≠ 0) by (destruct Hq as (_ & ? & _); unfold KERNBASE in *; lia). rewrite (proj2 (Z.eqb_neq q 0)) by done.
  assert (Hfresh : ∀ k' p', T !! k' = Some p' → p' + PGSIZE ≤ q ∨ q + PGSIZE ≤ p').
  { intros k' p' Hk'. apply pages_apart; [by apply (pr_page _ _ _ R k')|done|]. by eapply new_block_fresh, Hlive. }
  apply runs_bind, memset_page; [done|]. intros m1 Hm1. rewrite Hroot.
  destruct (pt_rep_ext (v_mem v) m1 T root R) as [R1 M1].
  { intros k p b Hk Hb. rewrite Hm1, decide_False; [done|]. destruct (Hfresh k p Hk); lia. }
  apply runs_bind, (map_present (vm_with_mem m1 (vm_with_tree t v)) T ({[(q, 0)]} ∪ L) p0); [|by rewrite Ek|lia|done|done|done| |].
  { split; [done|done|]. intros k p Hk%Hlive. set_solver. }
  { cbn. by rewrite M1. }
  intros v' Hv' (m2 & ->) Hmap Hout. cbn [Z.eqb negb]. apply runs_ret. right. split; [done|]. exists ({[(q, 0)]} ∪ L).
  split; [done|by exists m2, t|done|done| | |].
  - intros va' Hva'. rewrite Hmap by done. cbn. by rewrite M1.
  - intros b Hb. rewrite Hout, Hm1 by (intros k p Hk; destruct (Hfresh k p Hk); lia). by rewrite decide_True.
  - intros b Ho Hb. rewrite Hout, Hm1 by done. by rewrite decide_False by lia.
Qed.
End fault.
