(* ===== verification/FsState.v ===== *)
(** * State of the file system

    The structures of kernel/buf.h, kernel/fs.h, kernel/file.h and
    kernel/log.c, and the static variables of bio.c, log.c, fs.c, file.c.
    A pointer to an element of a static array is its index; contents of a
    disk block are a map from offsets to bytes (absent bytes are 0).  The
    disk itself is a map from block numbers to contents together with the
    sequence of writes that led to it, which is what a crash can cut. *)

From S2P Require Import Prelude Spinlock Mem Vm.

(** ** Parameters (kernel/param.h, kernel/fs.h) *)

Definition NOFILE : Z := 16.
Definition NFILE : Z := 100.
Definition NINODE : Z := 50.
Definition NDEV : Z := 10.
Definition ROOTDEV : Z := 1.
Definition MAXOPBLOCKS : Z := 10.
Definition LOGBLOCKS : Z := MAXOPBLOCKS * 3.
Definition NBUF : Z := MAXOPBLOCKS * 3.

Definition ROOTINO : Z := 1.
Definition BSIZE : Z := 1024.
Definition FSMAGIC : Z := 0x10203040.
Definition NDIRECT : Z := 12.
Definition NINDIRECT : Z := BSIZE / 4.
Definition MAXFILE : Z := NDIRECT + NINDIRECT.
Definition sizeof_dinode : Z := 64.
Definition IPB : Z := BSIZE / sizeof_dinode.
Definition BPB : Z := BSIZE * 8.
Definition DIRSIZ : Z := 14.
Definition sizeof_dirent : Z := 16.

Definition T_DIR : Z := 1.
Definition T_FILE : Z := 2.
Definition T_DEVICE : Z := 3.

(** ** Structures *)

Definition blk := gmap Z Z.

Record buf := mk_buf {
  b_valid : Z;
  b_dev : Z;
  b_blockno : Z;
  b_lock : sleeplock;
  b_refcnt : Z;
  b_data : blk;
}.

(** [bc_lru] is the list through [prev] and [next], from [head.next] to
    [head.prev]. *)
Record bcache := mk_bcache {
  bc_lock : spinlock;
  bc_buf : list buf;
  bc_lru : list nat;
}.

Record logheader := mk_logheader {
  lh_n : Z;
  lh_block : list Z;
}.

Record log := mk_log {
  lg_lock : spinlock;
  lg_start : Z;
  lg_outstanding : Z;
  lg_committing : Z;
  lg_dev : Z;
  lg_lh : logheader;
}.

Record superblock := mk_superblock {
  sb_magic : Z;
  sb_size : Z;
  sb_nblocks : Z;
  sb_ninodes : Z;
  sb_nlog : Z;
  sb_logstart : Z;
  sb_inodestart : Z;
  sb_bmapstart : Z;
}.

Record inode := mk_inode {
  i_dev : Z;
  i_inum : Z;
  i_ref : Z;
  i_lock : sleeplock;
  i_valid : Z;
  i_type : Z;
  i_major : Z;
  i_minor : Z;
  i_nlink : Z;
  i_size : Z;
  i_addrs : list Z;
}.

Record itable := mk_itable {
  it_lock : spinlock;
  it_inode : list inode;
}.

Inductive fdtype := FD_NONE | FD_PIPE | FD_INODE | FD_DEVICE.

#[export] Instance fdtype_eq_dec : EqDecision fdtype.
Proof. solve_decision. Defined.

(** [f_pipe] is the address of the pipe. *)
Record file := mk_file {
  f_type : fdtype;
  f_ref : Z;
  f_readable : Z;
  f_writable : Z;
  f_pipe : Z;
  f_ip : nat;
  f_off : Z;
  f_major : Z;
}.

Record ftable := mk_ftable {
  ft_lock : spinlock;
  ft_file : list file;
}.

(** [struct pipe] (kernel/pipe.c). *)
Record pipe := mk_pipe {
  pi_lock : spinlock;
  pi_data : gmap Z Z;
  pi_nread : Z;
  pi_nwrite : Z;
  pi_readopen : Z;
  pi_writeopen : Z;
}.

(** What a system call sees: the hart and the process it runs on, the
    process's current directory, open files and name, the disk, the static
    variables, and the memory with the page allocator.  [k_pipes] are the
    pipes in use, by the address of their page.  [k_writes] records the
    writes to the disk, [k_out] the lines printed. *)
Record kfs := mk_kfs {
  k_hart : nat;
  k_pid : Z;
  k_cwd : option nat;
  k_ofile : list (option nat);
  k_name : list Z;
  k_disk : gmap Z blk;
  k_writes : list (Z * blk);
  k_bc : bcache;
  k_log : log;
  k_sb : superblock;
  k_it : itable;
  k_ft : ftable;
  k_pipes : gmap Z pipe;
  k_vm : vmstate;
  k_out : list (string * list Z);
}.

Definition with_disk (d : gmap Z blk) (w : list (Z * blk)) (s : kfs) : kfs :=
  mk_kfs (k_hart s) (k_pid s) (k_cwd s) (k_ofile s) (k_name s) d w (k_bc s) (k_log s) (k_sb s) (k_it s) (k_ft s) (k_pipes s) (k_vm s) (k_out s).
Definition with_bc (c : bcache) (s : kfs) : kfs :=
  mk_kfs (k_hart s) (k_pid s) (k_cwd s) (k_ofile s) (k_name s) (k_disk s) (k_writes s) c (k_log s) (k_sb s) (k_it s) (k_ft s) (k_pipes s) (k_vm s) (k_out s).
Definition with_log (l : log) (s : kfs) : kfs :=
  mk_kfs (k_hart s) (k_pid s) (k_cwd s) (k_ofile s) (k_name s) (k_disk s) (k_writes s) (k_bc s) l (k_sb s) (k_it s) (k_ft s) (k_pipes s) (k_vm s) (k_out s).
Definition with_sb (b : superblock) (s : kfs) : kfs :=
  mk_kfs (k_hart s) (k_pid s) (k_cwd s) (k_ofile s) (k_name s) (k_disk s) (k_writes s) (k_bc s) (k_log s) b (k_it s) (k_ft s) (k_pipes s) (k_vm s) (k_out s).
Definition with_it (t : itable) (s : kfs) : kfs :=
  mk_kfs (k_hart s) (k_pid s) (k_cwd s) (k_ofile s) (k_name s) (k_disk s) (k_writes s) (k_bc s) (k_log s) (k_sb s) t (k_ft s) (k_pipes s) (k_vm s) (k_out s).
Definition with_ft (t : ftable) (s : kfs) : kfs :=
  mk_kfs (k_hart s) (k_pid s) (k_cwd s) (k_ofile s) (k_name s) (k_disk s) (k_writes s) (k_bc s) (k_log s) (k_sb s) (k_it s) t (k_pipes s) (k_vm s) (k_out s).
Definition with_ofile (o : list (option nat)) (s : kfs) : kfs :=
  mk_kfs (k_hart s) (k_pid s) (k_cwd s) o (k_name s) (k_disk s) (k_writes s) (k_bc s) (k_log s) (k_sb s) (k_it s) (k_ft s) (k_pipes s) (k_vm s) (k_out s).
Definition with_cwd (c : option nat) (s : kfs) : kfs :=
  mk_kfs (k_hart s) (k_pid s) c (k_ofile s) (k_name s) (k_disk s) (k_writes s) (k_bc s) (k_log s) (k_sb s) (k_it s) (k_ft s) (k_pipes s) (k_vm s) (k_out s).
Definition with_name (n : list Z) (s : kfs) : kfs :=
  mk_kfs (k_hart s) (k_pid s) (k_cwd s) (k_ofile s) n (k_disk s) (k_writes s) (k_bc s) (k_log s) (k_sb s) (k_it s) (k_ft s) (k_pipes s) (k_vm s) (k_out s).
Definition with_pipes (p : gmap Z pipe) (s : kfs) : kfs :=
  mk_kfs (k_hart s) (k_pid s) (k_cwd s) (k_ofile s) (k_name s) (k_disk s) (k_writes s) (k_bc s) (k_log s) (k_sb s) (k_it s) (k_ft s) p (k_vm s) (k_out s).
Definition with_vm (v : vmstate) (s : kfs) : kfs :=
  mk_kfs (k_hart s) (k_pid s) (k_cwd s) (k_ofile s) (k_name s) (k_disk s) (k_writes s) (k_bc s) (k_log s) (k_sb s) (k_it s) (k_ft s) (k_pipes s) v (k_out s).
Definition with_out (o : list (string * list Z)) (s : kfs) : kfs :=
  mk_kfs (k_hart s) (k_pid s) (k_cwd s) (k_ofile s) (k_name s) (k_disk s) (k_writes s) (k_bc s) (k_log s) (k_sb s) (k_it s) (k_ft s) (k_pipes s) (k_vm s) o.

(** Code of kernel/vm.c run inside a system call. *)
Definition in_vm {A} (m : M vmstate A) : M kfs A := λ s,
  '(a, v) ← m (k_vm s);
  Ret (a, with_vm v s).

Definition print (fmt : string) (args : list Z) : M kfs unit :=
  modify (λ s, with_out (k_out s ++ [(fmt, args)]) s).
