(* ===== verification/Bio.v ===== *)
(** * Buffer cache (kernel/bio.c) *)

From S2P Require Import Prelude Spinlock FsState.

(** ** Access to the state *)

Definition get_buf (i : nat) : M kfs buf := λ s,
  match bc_buf (k_bc s) !! i with
  | Some b => Ret (b, s)
  | None => Fault
  end.

Definition set_buf (i : nat) (b : buf) : M kfs unit :=
  modify (λ s, with_bc (mk_bcache (bc_lock (k_bc s)) (<[i := b]> (bc_buf (k_bc s))) (bc_lru (k_bc s))) s).

Definition set_lru (l : list nat) : M kfs unit :=
  modify (λ s, with_bc (mk_bcache (bc_lock (k_bc s)) (bc_buf (k_bc s)) l) s).

Definition set_bc_lock (l : spinlock) : M kfs unit :=
  modify (λ s, with_bc (mk_bcache l (bc_buf (k_bc s)) (bc_lru (k_bc s))) s).

Definition acquire_bc : M kfs unit :=
  s ← get;
  l ← lift (acquire (k_hart s) (bc_lock (k_bc s)));
  set_bc_lock l.

Definition release_bc : M kfs unit :=
  s ← get;
  l ← lift (release (k_hart s) (bc_lock (k_bc s)));
  set_bc_lock l.

Definition buf_with_lock (l : sleeplock) (b : buf) : buf :=
  mk_buf (b_valid b) (b_dev b) (b_blockno b) l (b_refcnt b) (b_data b).
Definition buf_with_refcnt (n : Z) (b : buf) : buf :=
  mk_buf (b_valid b) (b_dev b) (b_blockno b) (b_lock b) n (b_data b).
Definition buf_with_data (d : blk) (b : buf) : buf :=
  mk_buf (b_valid b) (b_dev b) (b_blockno b) (b_lock b) (b_refcnt b) d.
Definition buf_with_valid (v : Z) (b : buf) : buf :=
  mk_buf v (b_dev b) (b_blockno b) (b_lock b) (b_refcnt b) (b_data b).

Definition acquire_buf (i : nat) : M kfs unit :=
  s ← get;
  b ← get_buf i;
  l ← lift (acquiresleep (k_hart s) (k_pid s) (b_lock b));
  set_buf i (buf_with_lock l b).

Definition release_buf (i : nat) : M kfs unit :=
  s ← get;
  b ← get_buf i;
  l ← lift (releasesleep (k_hart s) (b_lock b));
  set_buf i (buf_with_lock l b).

Definition holding_buf (i : nat) : M kfs bool :=
  s ← get;
  b ← get_buf i;
  '(r, l) ← lift (holdingsleep (k_hart s) (k_pid s) (b_lock b));
  set_buf i (buf_with_lock l b);;
  mret r.

(** The contents of block [b] of a disk. *)
Definition disk_at (d : gmap Z blk) (b : Z) : blk := default ∅ (d !! b).

(** The disk device: a request moves the contents of a block between the
    disk and the buffer, and the caller waits for its end. *)
Definition virtio_disk_rw (i : nat) (write : bool) : M kfs unit :=
  b ← get_buf i;
  s ← get;
  if write then
    modify (with_disk (<[b_blockno b := b_data b]> (k_disk s)) (k_writes s ++ [(b_blockno b, b_data b)]))
  else set_buf i (buf_with_data (disk_at (k_disk s) (b_blockno b)) b).

(** ** The functions of bio.c *)

(** Each buffer is inserted at the front of the list. *)
Definition binit : M kfs unit :=
  set_bc_lock (initlock "bcache");;
  s ← get;
  modify (with_bc (mk_bcache (bc_lock (k_bc s))
    (buf_with_lock (initsleeplock "buffer") <$> bc_buf (k_bc s))
    (reverse (seq 0 (Z.to_nat NBUF))))).

(** The first loop of [bget], along the list. *)
Fixpoint find_cached (l : list nat) (dev blockno : Z) : M kfs (option nat) :=
  match l with
  | [] => mret None
  | i :: l =>
    b ← get_buf i;
    if (b_dev b =? dev) && (b_blockno b =? blockno) then mret (Some i)
    else find_cached l dev blockno
  end.

(** The second loop, against the direction of the list. *)
Fixpoint find_unused (l : list nat) : M kfs (option nat) :=
  match l with
  | [] => mret None
  | i :: l =>
    b ← get_buf i;
    if b_refcnt b =? 0 then mret (Some i) else find_unused l
  end.

Definition bget (dev blockno : Z) : M kfs nat :=
  acquire_bc;;
  s ← get;
  cached ← find_cached (bc_lru (k_bc s)) dev blockno;
  match cached with
  | Some i =>
    b ← get_buf i;
    set_buf i (buf_with_refcnt (u32 (b_refcnt b + 1)) b);;
    release_bc;;
    acquire_buf i;;
    mret i
  | None =>
    unused ← find_unused (reverse (bc_lru (k_bc s)));
    match unused with
    | Some i =>
      b ← get_buf i;
      set_buf i (mk_buf 0 dev blockno (b_lock b) 1 (b_data b));;
      release_bc;;
      acquire_buf i;;
      mret i
    | None => panic "bget: no buffers"
    end
  end.

Definition bread (dev blockno : Z) : M kfs nat :=
  i ← bget dev blockno;
  b ← get_buf i;
  (if b_valid b =? 0 then
     virtio_disk_rw i false;;
     b ← get_buf i;
     set_buf i (buf_with_valid 1 b)
   else mret tt);;
  mret i.

Definition bwrite (i : nat) : M kfs unit :=
  h ← holding_buf i;
  if negb h then panic "bwrite" else virtio_disk_rw i true.

Definition brelse (i : nat) : M kfs unit :=
  h ← holding_buf i;
  if negb h then panic "brelse"
  else
    release_buf i;;
    acquire_bc;;
    b ← get_buf i;
    set_buf i (buf_with_refcnt (u32 (b_refcnt b - 1)) b);;
    b ← get_buf i;
    (if b_refcnt b =? 0 then
       s ← get;
       set_lru (i :: filter (λ j, j ≠ i) (bc_lru (k_bc s)))
     else mret tt);;
    release_bc.

Definition bpin (i : nat) : M kfs unit :=
  acquire_bc;;
  b ← get_buf i;
  set_buf i (buf_with_refcnt (u32 (b_refcnt b + 1)) b);;
  release_bc.

Definition bunpin (i : nat) : M kfs unit :=
  acquire_bc;;
  b ← get_buf i;
  set_buf i (buf_with_refcnt (u32 (b_refcnt b - 1)) b);;
  release_bc.
