(* ===== verification/Log.v ===== *)
(** * Log (kernel/log.c) *)

From S2P Require Import Prelude Spinlock Mem FsState Bio.

(** ** Access to the state *)

Definition log_with_lock (l : spinlock) (g : log) : log :=
  mk_log l (lg_start g) (lg_outstanding g) (lg_committing g) (lg_dev g) (lg_lh g).
Definition log_with_outstanding (n : Z) (g : log) : log :=
  mk_log (lg_lock g) (lg_start g) n (lg_committing g) (lg_dev g) (lg_lh g).
Definition log_with_committing (n : Z) (g : log) : log :=
  mk_log (lg_lock g) (lg_start g) (lg_outstanding g) n (lg_dev g) (lg_lh g).
Definition log_with_lh (h : logheader) (g : log) : log :=
  mk_log (lg_lock g) (lg_start g) (lg_outstanding g) (lg_committing g) (lg_dev g) h.

Definition modify_log (f : log → log) : M kfs unit := modify (λ s, with_log (f (k_log s)) s).

Definition acquire_log : M kfs unit :=
  s ← get;
  l ← lift (acquire (k_hart s) (lg_lock (k_log s)));
  modify_log (log_with_lock l).

Definition release_log : M kfs unit :=
  s ← get;
  l ← lift (release (k_hart s) (lg_lock (k_log s)));
  modify_log (log_with_lock l).

(** [log.lh.block[i]] *)
Definition log_block (i : Z) : M kfs Z := λ s,
  match lh_block (lg_lh (k_log s)) !! Z.to_nat i with
  | Some b => if 0 <=? i then Ret (b, s) else Fault
  | None => Fault
  end.

Definition set_log_block (i b : Z) : M kfs unit :=
  h ← gets (λ s, lg_lh (k_log s));
  if (0 <=? i) && (i <? LOGBLOCKS) then
    modify_log (log_with_lh (mk_logheader (lh_n h) (<[Z.to_nat i := b]> (lh_block h))))
  else fault.

Definition set_log_n (n : Z) : M kfs unit :=
  h ← gets (λ s, lg_lh (k_log s));
  modify_log (log_with_lh (mk_logheader n (lh_block h))).

(** ** The on-disk header: [n] at offset 0, [block[i]] at [4 + 4 * i] *)

Fixpoint read_blocks (n : nat) (i : Z) (d : blk) : M kfs unit :=
  match n with
  | O => mret tt
  | S n => set_log_block i (s32 (ldn 4 d (4 + 4 * i)));; read_blocks n (i + 1) d
  end.

Definition read_head : M kfs unit :=
  g ← gets k_log;
  i ← bread (u32 (lg_dev g)) (u32 (lg_start g));
  b ← get_buf i;
  let lh := b_data b in
  let n := s32 (ldn 4 lh 0) in
  set_log_n n;;
  read_blocks (Z.to_nat n) 0 lh;;
  brelse i.

Fixpoint write_blocks (n : nat) (i : Z) (hb : blk) : M kfs blk :=
  match n with
  | O => mret hb
  | S n => b ← log_block i; write_blocks n (i + 1) (stn 4 hb (4 + 4 * i) b)
  end.

Definition write_head : M kfs unit :=
  g ← gets k_log;
  i ← bread (u32 (lg_dev g)) (u32 (lg_start g));
  b ← get_buf i;
  let n := lh_n (lg_lh g) in
  hb ← write_blocks (Z.to_nat n) 0 (stn 4 (b_data b) 0 n);
  b ← get_buf i;
  set_buf i (buf_with_data hb b);;
  bwrite i;;
  brelse i.

(** One round of the loop of [install_trans]. *)
Definition install_block (recovering : bool) (tail : Z) : M kfs unit :=
  dst ← log_block tail;
  (if recovering then print "recovering tail %d dst %d\n" [tail; dst] else mret tt);;
  g ← gets k_log;
  lbuf ← bread (u32 (lg_dev g)) (u32 (lg_start g + tail + 1));
  dst ← log_block tail;
  dbuf ← bread (u32 (lg_dev g)) (u32 dst);
  lb ← get_buf lbuf;
  db ← get_buf dbuf;
  set_buf dbuf (buf_with_data (b_data lb) db);;
  bwrite dbuf;;
  (if recovering then mret tt else bunpin dbuf);;
  brelse lbuf;;
  brelse dbuf.

Fixpoint install_loop (n : nat) (recovering : bool) (tail : Z) : M kfs unit :=
  match n with
  | O => mret tt
  | S n => install_block recovering tail;; install_loop n recovering (tail + 1)
  end.

Definition install_trans (recovering : bool) : M kfs unit :=
  n ← gets (λ s, lh_n (lg_lh (k_log s)));
  install_loop (Z.to_nat n) recovering 0.

Definition recover_from_log : M kfs unit :=
  read_head;;
  install_trans true;;
  set_log_n 0;;
  write_head.

(** [sizeof(struct logheader)] is 124, which is less than [BSIZE]. *)
Definition initlog (dev : Z) : M kfs unit :=
  modify_log (log_with_lock (initlock "log"));;
  sb ← gets k_sb;
  modify_log (λ g, mk_log (lg_lock g) (s32 (sb_logstart sb)) (lg_outstanding g) (lg_committing g) dev (lg_lh g));;
  recover_from_log.

(** A caller that has to wait for the end of a commit blocks. *)
Definition begin_op : M kfs unit :=
  acquire_log;;
  g ← gets k_log;
  if negb (lg_committing g =? 0) then block
  else if LOGBLOCKS <? lh_n (lg_lh g) + (lg_outstanding g + 1) * MAXOPBLOCKS then block
  else
    modify_log (log_with_outstanding (lg_outstanding g + 1));;
    release_log.

(** One round of the loop of [write_log]. *)
Definition log_one (tail : Z) : M kfs unit :=
  g ← gets k_log;
  to ← bread (u32 (lg_dev g)) (u32 (lg_start g + tail + 1));
  src ← log_block tail;
  from ← bread (u32 (lg_dev g)) (u32 src);
  fb ← get_buf from;
  tb ← get_buf to;
  set_buf to (buf_with_data (b_data fb) tb);;
  bwrite to;;
  brelse from;;
  brelse to.

Fixpoint log_loop (n : nat) (tail : Z) : M kfs unit :=
  match n with
  | O => mret tt
  | S n => log_one tail;; log_loop n (tail + 1)
  end.

Definition write_log : M kfs unit :=
  n ← gets (λ s, lh_n (lg_lh (k_log s)));
  log_loop (Z.to_nat n) 0.

Definition commit : M kfs unit :=
  n ← gets (λ s, lh_n (lg_lh (k_log s)));
  if 0 <? n then
    write_log;;
    write_head;;
    install_trans false;;
    set_log_n 0;;
    write_head
  else mret tt.

Definition end_op : M kfs unit :=
  acquire_log;;
  g ← gets k_log;
  modify_log (log_with_outstanding (lg_outstanding g - 1));;
  g ← gets k_log;
  if negb (lg_committing g =? 0) then panic "log.committing"
  else if lg_outstanding g =? 0 then
    modify_log (log_with_committing 1);;
    release_log;;
    commit;;
    acquire_log;;
    modify_log (log_with_committing 0);;
    release_log
  else release_log.

(** The index of [blockno] among the first [n] entries from [i] on, or the
    end. *)
Fixpoint absorb_loop (n : nat) (i blockno : Z) : M kfs Z :=
  match n with
  | O => mret i
  | S n =>
    b ← log_block i;
    if u32 b =? blockno then mret i else absorb_loop n (i + 1) blockno
  end.

Definition log_write (b : nat) : M kfs unit :=
  acquire_log;;
  g ← gets k_log;
  if LOGBLOCKS <=? lh_n (lg_lh g) then panic "too big a transaction"
  else if lg_outstanding g <? 1 then panic "log_write outside of trans"
  else
    bp ← get_buf b;
    i ← absorb_loop (Z.to_nat (lh_n (lg_lh g))) 0 (b_blockno bp);
    set_log_block i (s32 (b_blockno bp));;
    (if i =? lh_n (lg_lh g) then
       bpin b;;
       set_log_n (lh_n (lg_lh g) + 1)
     else mret tt);;
    release_log.
