(* ===== verification/BioSpec.v ===== *)
(** * Buffer cache: specification

    [bio_inv dev pid s V R H]: through the cache, block [x] of device [dev]
    has contents [V x]; [R x] references to it are held; the process has
    locked the buffers of the blocks in [H].  Buffers without references
    agree with the disk and may be recycled. *)

From S2P Require Import Prelude Spinlock FsState Bio.

Abbreviation bufs s := (bc_buf (k_bc s)).

(** Change one value of a function on block numbers. *)
Definition upd {A} (f : Z → A) (x : Z) (v : A) : Z → A := λ y, if decide (y = x) then v else f y.

Lemma upd_eq {A} (f : Z → A) x v : upd f x v x = v.
Proof. unfold upd. by rewrite decide_True. Qed.
Lemma upd_ne {A} (f : Z → A) x y v : y ≠ x → upd f x v y = f y.
Proof. intros. unfold upd. by rewrite decide_False. Qed.

(** ** Steps *)

Section steps.
Implicit Types (s : kfs) (Q : unit → kfs → Prop).

Lemma runs_get_buf i b s (Q : buf → kfs → Prop) : bufs s !! i = Some b → Q b s → runs (get_buf i) s Q.
Proof. intros Hb HQ. exists b, s. unfold get_buf. by rewrite Hb. Qed.

Definition set_bufs (l : list buf) (s : kfs) : kfs :=
  with_bc (mk_bcache (bc_lock (k_bc s)) l (bc_lru (k_bc s))) s.

Lemma runs_set_buf i b s Q : Q tt (set_bufs (<[i := b]> (bufs s)) s) → runs (set_buf i b) s Q.
Proof. intros HQ. eexists _, _. split; [reflexivity|exact HQ]. Qed.

Definition bc_locked (s : kfs) : kfs :=
  with_bc (mk_bcache (held_by (k_hart s) (bc_lock (k_bc s))) (bufs s) (bc_lru (k_bc s))) s.

Lemma runs_acquire_bc s Q : unlocked (bc_lock (k_bc s)) → Q tt (bc_locked s) → runs acquire_bc s Q.
Proof.
  intros Hu HQ. eexists _, _. split; [|exact HQ]. unfold acquire_bc. rewrite M_bind_unfold. cbn.
  rewrite acquire_unlocked by done. reflexivity.
Qed.

(** The lock is held, and was free with value [l] before. *)
Lemma runs_release_bc s l Q :
  unlocked l → bc_lock (k_bc s) = held_by (k_hart s) l →
  Q tt (with_bc (mk_bcache l (bufs s) (bc_lru (k_bc s))) s) → runs release_bc s Q.
Proof.
  intros Hu Hl HQ. eexists _, _. split; [|exact HQ]. unfold release_bc. rewrite M_bind_unfold. cbn.
  rewrite Hl, release_held by done. reflexivity.
Qed.

Lemma runs_acquire_buf i b s Q :
  bufs s !! i = Some b → sl_free (b_lock b) →
  (∀ l, sl_held (k_pid s) l → Q tt (set_bufs (<[i := buf_with_lock l b]> (bufs s)) s)) →
  runs (acquire_buf i) s Q.
Proof.
  intros Hb Hf HQ. destruct (acquiresleep_free (k_hart s) (k_pid s) _ Hf) as (l & Hl & Hh).
  eexists _, _. split; [|exact (HQ l Hh)]. unfold acquire_buf, get_buf. rewrite !M_bind_unfold. cbn.
  rewrite M_bind_unfold, Hb. cbn. rewrite M_bind_unfold. unfold lift. rewrite Hl. reflexivity.
Qed.

Lemma runs_release_buf i b s pid Q :
  bufs s !! i = Some b → sl_held pid (b_lock b) →
  (∀ l, sl_free l → Q tt (set_bufs (<[i := buf_with_lock l b]> (bufs s)) s)) →
  runs (release_buf i) s Q.
Proof.
  intros Hb Hf HQ. destruct (releasesleep_held (k_hart s) _ _ Hf) as (l & Hl & Hh).
  eexists _, _. split; [|exact (HQ l Hh)]. unfold release_buf, get_buf. rewrite !M_bind_unfold. cbn.
  rewrite M_bind_unfold, Hb. cbn. rewrite M_bind_unfold. unfold lift. rewrite Hl. reflexivity.
Qed.

Lemma runs_holding_buf i b s (Q : bool → kfs → Prop) :
  bufs s !! i = Some b → sl_held (k_pid s) (b_lock b) → Q true s → runs (holding_buf i) s Q.
Proof.
  intros Hb Hf HQ. exists true, s. split; [|exact HQ]. unfold holding_buf, get_buf. rewrite !M_bind_unfold. cbn.
  rewrite M_bind_unfold, Hb. cbn. rewrite M_bind_unfold. unfold lift. rewrite (holdingsleep_held _ _ _ Hf). cbn.
  replace (buf_with_lock (b_lock b) b) with b by (by destruct b). rewrite M_bind_unfold. cbn.
  rewrite list_insert_id by done. destruct s as [??????? c]. by destruct c.
Qed.
End steps.

(** ** The invariant *)

Record bio_inv (dev pid : Z) (s : kfs) (V : Z → blk) (R : Z → Z) (H : gset Z) : Prop := {
  bv_pid : k_pid s = pid;
  bv_lock : unlocked (bc_lock (k_bc s));
  bv_lru : bc_lru (k_bc s) ≡ₚ seq 0 (length (bufs s));
  bv_buf : ∀ i b, bufs s !! i = Some b → b_dev b = dev →
    b_refcnt b = R (b_blockno b) ∧ (b_valid b ≠ 0 → b_data b = V (b_blockno b)) ∧
    (if decide (b_blockno b ∈ H) then sl_held pid (b_lock b) else sl_free (b_lock b));
  bv_other : ∀ i b, bufs s !! i = Some b → b_dev b ≠ dev → b_refcnt b = 0 ∧ sl_free (b_lock b);
  bv_uniq : ∀ i j b b', bufs s !! i = Some b → bufs s !! j = Some b' → b_dev b = dev → b_dev b' = dev →
    b_blockno b = b_blockno b' → i = j;
  bv_refs : ∀ x, 0 < R x → ∃ i b, bufs s !! i = Some b ∧ b_dev b = dev ∧ b_blockno b = x ∧ b_valid b ≠ 0;
  bv_range : ∀ x, 0 ≤ R x < 2 ^ 31;
  bv_disk : ∀ x, R x = 0 → disk_at (k_disk s) x = V x;
  bv_held : ∀ x, x ∈ H → 0 < R x;
}.

(** Buffer [i] holds block [x]. *)
Definition is_buf (dev : Z) (s : kfs) (i : nat) (x : Z) : Prop :=
  ∃ b, bufs s !! i = Some b ∧ b_dev b = dev ∧ b_blockno b = x ∧ b_valid b ≠ 0.

(** The blocks with references are among [P], and there are more buffers. *)
Definition room (s : kfs) (R : Z → Z) : Prop :=
  ∃ P : list Z, (∀ x, 0 < R x → x ∈ P) ∧ (length P < length (bufs s))%nat.

Section inv.
Context (dev pid : Z).
Implicit Types (s : kfs) (V : Z → blk) (R : Z → Z) (H : gset Z).

(** With room there is an unused buffer. *)
Lemma room_unused s V R H :
  bio_inv dev pid s V R H → room s R → ∃ i b, bufs s !! i = Some b ∧ b_refcnt b = 0.
Proof.
  intros Hi (P & HP & Hlen). destruct (decide (Exists (λ b, b_refcnt b = 0) (bufs s))) as [He|Hne].
  { apply list.Exists_exists in He as (b & Hb & H0). apply list_elem_of_lookup in Hb as (i & Hi'). eauto. }
  exfalso. assert (Hall : ∀ i b, bufs s !! i = Some b → b_dev b = dev ∧ 0 < R (b_blockno b)).
  { intros i b Hb. assert (b_refcnt b ≠ 0) as Hr.
    { intros H0. apply Hne, list.Exists_exists. exists b. split; [by eapply list_elem_of_lookup_2|done]. }
    destruct (decide (b_dev b = dev)) as [Hd|Hd]; [|by destruct (bv_other _ _ _ _ _ _ Hi i b Hb Hd)].
    destruct (bv_buf _ _ _ _ _ _ Hi i b Hb Hd) as [E _]. pose proof (bv_range _ _ _ _ _ _ Hi (b_blockno b)). lia. }
  assert (Hnd : NoDup (b_blockno <$> bufs s)).
  { apply NoDup_alt. intros i j x Hx Hy. rewrite !list_lookup_fmap in Hx, Hy.
    destruct (bufs s !! i) as [b|] eqn:Eb; [|done]. destruct (bufs s !! j) as [b'|] eqn:Eb'; [|done].
    cbn in Hx, Hy. injection Hx as <-. injection Hy as Hy.
    by apply (bv_uniq _ _ _ _ _ _ Hi i j b b'); try done; [apply (Hall i)|apply (Hall j)]. }
  assert (Hsub : b_blockno <$> bufs s ⊆+ P).
  { apply NoDup_submseteq; [done|]. intros x (b & -> & Hb)%list_elem_of_fmap.
    apply list_elem_of_lookup in Hb as (i & Hb). by apply HP, (Hall i). }
  apply submseteq_length in Hsub. rewrite length_fmap in Hsub. lia.
Qed.
(** One buffer changes: it held block [x] already, or it was unused and no
    buffer held [x]. *)
Definition reusable s R x i b : Prop :=
  bufs s !! i = Some b ∧
  ((b_dev b = dev ∧ b_blockno b = x) ∨
   (b_refcnt b = 0 ∧ ∀ j c, bufs s !! j = Some c → ¬ (b_dev c = dev ∧ b_blockno c = x))).

Lemma bio_inv_update s s' V V' R R' H H' x i b b' :
  bio_inv dev pid s V R H → reusable s R x i b →
  k_pid s' = pid → unlocked (bc_lock (k_bc s')) → bc_lru (k_bc s') ≡ₚ bc_lru (k_bc s) →
  bufs s' = <[i := b']> (bufs s) → b_dev b' = dev → b_blockno b' = x →
  (∀ y, y ≠ x → V' y = V y ∧ R' y = R y ∧ (y ∈ H' ↔ y ∈ H) ∧ disk_at (k_disk s') y = disk_at (k_disk s) y) →
  b_refcnt b' = R' x → (b_valid b' ≠ 0 → b_data b' = V' x) →
  (if decide (x ∈ H') then sl_held pid (b_lock b') else sl_free (b_lock b')) →
  (0 < R' x → b_valid b' ≠ 0) → 0 ≤ R' x < 2 ^ 31 → (R' x = 0 → disk_at (k_disk s') x = V' x) →
  (x ∈ H' → 0 < R' x) → bio_inv dev pid s' V' R' H'.
Proof.
  intros Hi [Hb Hre] Hpid Hlk Hlru Hbufs Hd' Hx' Hsame Hr' Hv' Hl' Hval Hrng Hdisk Hheld.
  pose proof (lookup_lt_Some _ _ _ Hb) as Hlt.
  assert (Hlook : ∀ j c, bufs s' !! j = Some c → (j = i ∧ c = b') ∨ (j ≠ i ∧ bufs s !! j = Some c)).
  { intros j c. rewrite Hbufs. destruct (decide (j = i)) as [->|Hne].
    - rewrite list_lookup_insert_eq by done. intros [= ->]. by left.
    - rewrite list_lookup_insert_ne by done. by right. }
  assert (Hnot : ∀ j c, j ≠ i → bufs s !! j = Some c → b_dev c = dev → b_blockno c ≠ x).
  { intros j c Hj Hc Hdc E. destruct Hre as [[Hd Hx]|[_ Hno]]; [|by apply (Hno j c)].
    apply Hj, (bv_uniq _ _ _ _ _ _ Hi j i c b); try done. by rewrite E. }
  split; [done|done| | | | | | | |].
  - rewrite Hlru, Hbufs, length_insert. apply Hi.
  - intros j c Hc Hdc. apply Hlook in Hc as [[-> ->]|[Hj Hc]].
    + rewrite Hx'. split_and!; [done|done|done].
    + pose proof (Hnot j c Hj Hc Hdc) as Hne. destruct (Hsame _ Hne) as (-> & -> & HH & _).
      destruct (bv_buf _ _ _ _ _ _ Hi j c Hc Hdc) as (? & ? & Hlc). split_and!; [done|done|].
      repeat case_decide; try done; tauto.
  - intros j c Hc Hdc. apply Hlook in Hc as [[-> ->]|[Hj Hc]]; [done|]. by apply (bv_other _ _ _ _ _ _ Hi j c).
  - intros j k c d Hc Hdd Hdc Hdd' E. apply Hlook in Hc as [[-> ->]|[Hj Hc]], Hdd as [[-> ->]|[Hk Hdd]]; [done|..].
    + rewrite Hx' in E. by destruct (Hnot k d Hk Hdd Hdd').
    + rewrite Hx' in E. by destruct (Hnot j c Hj Hc Hdc).
    + by apply (bv_uniq _ _ _ _ _ _ Hi j k c d).
  - intros y Hy. rewrite Hbufs. destruct (decide (y = x)) as [->|Hne].
    { exists i, b'. rewrite list_lookup_insert_eq by done. auto. }
    destruct (Hsame _ Hne) as (_ & E & _ & _). rewrite E in Hy.
    destruct (bv_refs _ _ _ _ _ _ Hi y Hy) as (j & c & Hc & Hdc & Hyc & Hvc). exists j, c.
    rewrite list_lookup_insert_ne; [done|]. intros <-. rewrite Hb in Hc. injection Hc as <-.
    destruct Hre as [[_ Hx]|[H0 _]]; [congruence|]. destruct (bv_buf _ _ _ _ _ _ Hi i b Hb Hdc) as [Er _].
    rewrite H0, Hyc in Er. lia.
  - intros y. destruct (decide (y = x)) as [->|Hne]; [done|]. destruct (Hsame _ Hne) as (_ & -> & _). apply Hi.
  - intros y. destruct (decide (y = x)) as [->|Hne]; [done|]. destruct (Hsame _ Hne) as (-> & -> & _ & ->). apply Hi.
  - intros y. destruct (decide (y = x)) as [->|Hne]; [done|]. destruct (Hsame _ Hne) as (_ & -> & HH & _).
    rewrite HH. apply Hi.
Qed.

Lemma is_buf_update s s' R x i b b' j y :
  reusable s R x i b → bufs s' = <[i := b']> (bufs s) → b_dev b' = dev → b_blockno b' = x → b_valid b' ≠ 0 →
  is_buf dev s j y → (b_refcnt b = 0 → y = x ∨ j ≠ i) → is_buf dev s' j y.
Proof.
  intros [Hb Hre] Hbufs Hd' Hx' Hv' (c & Hc & Hdc & Hyc & Hvc) Hne. pose proof (lookup_lt_Some _ _ _ Hb) as Hlt.
  unfold is_buf. rewrite Hbufs. destruct (decide (j = i)) as [->|Hji].
  - exists b'. rewrite list_lookup_insert_eq by done. split_and!; [done|done| |done].
    rewrite Hb in Hc. injection Hc as <-. destruct Hre as [[_ Hx]|[H0 Hno]]; [congruence|].
    destruct (Hne H0) as [->|]; [done|done].
  - exists c. rewrite list_lookup_insert_ne by done. done.
Qed.

(** ** The search loops *)

Lemma find_cached_spec x s : ∀ l,
  (∀ i, i ∈ l → is_Some (bufs s !! i)) →
  runs (find_cached l dev x) s (λ r s', s' = s ∧
    match r with
    | Some i => i ∈ l ∧ ∃ b, bufs s !! i = Some b ∧ b_dev b = dev ∧ b_blockno b = x
    | None => ∀ i b, i ∈ l → bufs s !! i = Some b → ¬ (b_dev b = dev ∧ b_blockno b = x)
    end).
Proof.
  induction l as [|i l IH]; intros Hl; cbn [find_cached].
  { apply runs_ret. split; [done|]. intros i b Hi. by apply elem_of_nil in Hi. }
  destruct (Hl i (list_elem_of_here _ _)) as [b Hb]. apply runs_bind, (runs_get_buf i b); [done|].
  destruct (Z.eqb_spec (b_dev b) dev) as [Hd|Hd]; [destruct (Z.eqb_spec (b_blockno b) x) as [Hx|Hx]|]; cbn [andb].
  1: { apply runs_ret. split; [done|]. split; [by left|]. by exists b. }
  all: (eapply runs_mono; [apply IH; intros j Hj; apply Hl; by right|]);
    intros [j|] s' [-> Hr]; (split; [done|]);
    [destruct Hr as [Hj Hr]; split; [by right|done]|];
    intros j c [->|Hj]%elem_of_cons Hc; [rewrite Hb in Hc; injection Hc as <-; tauto|by apply (Hr j)].
Qed.

Lemma find_unused_spec s : ∀ l,
  (∀ i, i ∈ l → is_Some (bufs s !! i)) → (∃ i b, i ∈ l ∧ bufs s !! i = Some b ∧ b_refcnt b = 0) →
  runs (find_unused l) s (λ r s', s' = s ∧ ∃ i b, r = Some i ∧ bufs s !! i = Some b ∧ b_refcnt b = 0).
Proof.
  induction l as [|i l IH]; intros Hl (j & c & Hj & Hc & H0); cbn [find_unused]; [by apply elem_of_nil in Hj|].
  destruct (Hl i (list_elem_of_here _ _)) as [b Hb]. apply runs_bind, (runs_get_buf i b); [done|].
  destruct (Z.eqb_spec (b_refcnt b) 0) as [E|E].
  - apply runs_ret. split; [done|]. by exists i, b.
  - apply IH; [intros k Hk; apply Hl; by right|]. apply elem_of_cons in Hj as [->|Hj]; [|by exists j, c].
    rewrite Hb in Hc. injection Hc as <-. done.
Qed.

(** ** The operations *)

(** Replace one buffer. *)
Definition put_buf (i : nat) (b : buf) (s : kfs) : kfs := set_bufs (<[i := b]> (bufs s)) s.

Lemma bufs_put i b s : bufs (put_buf i b s) = <[i := b]> (bufs s).
Proof. done. Qed.

Lemma put_put i b b' s : put_buf i b' (put_buf i b s) = put_buf i b' s.
Proof. unfold put_buf, set_bufs, with_bc. cbn. by rewrite list_insert_insert_eq. Qed.

Lemma lru_some s V R H i : bio_inv dev pid s V R H → i ∈ bc_lru (k_bc s) ↔ is_Some (bufs s !! i).
Proof.
  intros Hi. rewrite (bv_lru _ _ _ _ _ _ Hi), elem_of_seq, lookup_lt_is_Some. lia.
Qed.

(** [bget] with the lock taken: change buffer [i] to [b'], give the lock
    back and lock the buffer. *)
Lemma lock_buf s i b b' (Q : nat → kfs → Prop) :
  k_pid s = pid → unlocked (bc_lock (k_bc s)) → bufs s !! i = Some b → sl_free (b_lock b') →
  (∀ l, sl_held pid l → Q i (put_buf i (buf_with_lock l b') s)) →
  runs (set_buf i b';; release_bc;; acquire_buf i;; mret i) (bc_locked s) Q.
Proof.
  intros Hp Hu Hb Hf HQ. pose proof (lookup_lt_Some _ _ _ Hb) as Hlt. apply runs_bind, runs_set_buf.
  apply runs_bind, (runs_release_bc _ (bc_lock (k_bc s))); [done|done|].
  apply runs_bind, (runs_acquire_buf i b'); [by apply list_lookup_insert_eq|done|].
  intros l Hl. apply runs_ret. cbn in Hl. rewrite Hp in Hl. specialize (HQ l Hl).
  unfold put_buf, set_bufs, with_bc in *. cbn in *. by rewrite list_insert_insert_eq.
Qed.

Lemma bget_spec s V R H x :
  bio_inv dev pid s V R H → x ∉ H → 0 < R x ∨ room s R →
  runs (bget dev x) s (λ i s', ∃ b b', reusable s R x i b ∧ s' = put_buf i b' s ∧
    b_dev b' = dev ∧ b_blockno b' = x ∧ b_refcnt b' = R x + 1 ∧ sl_held pid (b_lock b') ∧
    (b_valid b' ≠ 0 → b_data b' = V x) ∧ (b_valid b' = 0 → R x = 0)).
Proof.
  intros Hi HxH Hroom. pose proof (bv_range _ _ _ _ _ _ Hi x) as Hrng. pose proof (bv_lock _ _ _ _ _ _ Hi) as Hu.
  unfold bget. apply runs_bind, runs_acquire_bc; [done|]. apply runs_bind. eapply runs_eq; [reflexivity|].
  apply runs_bind. eapply runs_mono; [apply (find_cached_spec x (bc_locked s))|].
  { intros i Hin. by apply (lru_some s V R H). }
  intros [i|] s' [-> Hr].
  - destruct Hr as (_ & b & Hb & Hd & Hx). change (bufs s !! i = Some b) in Hb. apply runs_bind, (runs_get_buf i b); [done|].
    destruct (bv_buf _ _ _ _ _ _ Hi i b Hb Hd) as (Er & Hv & Hl). rewrite Hx in *. rewrite decide_False in Hl by done.
    apply (lock_buf s i b); [by apply Hi|done|done|done|]. intros l Hlk.
    exists b, (buf_with_lock l (buf_with_refcnt (u32 (b_refcnt b + 1)) b)). cbn. rewrite Er, u32_small by lia.
    ands; try done; [by split; [|left]|]. intros H0. destruct (decide (R x = 0)) as [|Hne]; [done|].
    destruct (bv_refs _ _ _ _ _ _ Hi x) as (j & c & Hc & Hdc & Hxc & Hvc); [lia|].
    assert (j = i) as -> by (by apply (bv_uniq _ _ _ _ _ _ Hi j i c b); try done; rewrite Hxc). congruence.
  - assert (Hno : ∀ j c, bufs s !! j = Some c → ¬ (b_dev c = dev ∧ b_blockno c = x)).
    { intros j c Hc. apply (Hr j c); [|done]. apply (lru_some s V R H j Hi). by rewrite Hc. }
    assert (R x = 0) as Hx0.
    { destruct (decide (R x = 0)) as [|Hne]; [done|].
      destruct (bv_refs _ _ _ _ _ _ Hi x) as (j & c & Hc & Hdc & Hxc & _); [lia|]. by destruct (Hno j c Hc). }
    destruct Hroom as [|Hroom]; [lia|]. destruct (room_unused s V R H Hi Hroom) as (j & c & Hc & Hc0).
    apply runs_bind. eapply runs_mono; [apply (find_unused_spec (bc_locked s))|].
    + intros i. rewrite elem_of_reverse. apply (lru_some s V R H i Hi).
    + exists j, c. split; [|done]. rewrite elem_of_reverse. apply (lru_some s V R H j Hi). by rewrite Hc.
    + intros r s' (-> & i & b & -> & Hb & H0). change (bufs s !! i = Some b) in Hb. apply runs_bind, (runs_get_buf i b); [done|].
      assert (Hf : sl_free (b_lock b)).
      { destruct (decide (b_dev b = dev)) as [Hd|Hd]; [|by apply (bv_other _ _ _ _ _ _ Hi i b)].
        destruct (bv_buf _ _ _ _ _ _ Hi i b Hb Hd) as (Er & _ & Hl). case_decide as HbH; [|done].
        apply (bv_held _ _ _ _ _ _ Hi) in HbH. lia. }
      apply (lock_buf s i b); [by apply Hi|done|done|done|]. intros l Hlk.
      exists b, (buf_with_lock l (mk_buf 0 dev x (b_lock b) 1 (b_data b))). cbn. rewrite Hx0.
      ands; try done. split; [done|by right].
Qed.

(** Everything but the buffers, the disk and the console is as before. *)
Record same_rest (s s' : kfs) : Prop := {
  sm_hart : k_hart s' = k_hart s;
  sm_pid : k_pid s' = k_pid s;
  sm_cwd : k_cwd s' = k_cwd s;
  sm_ofile : k_ofile s' = k_ofile s;
  sm_log : k_log s' = k_log s;
  sm_sb : k_sb s' = k_sb s;
  sm_it : k_it s' = k_it s;
  sm_ft : k_ft s' = k_ft s;
  sm_name : k_name s' = k_name s;
  sm_pipes : k_pipes s' = k_pipes s;
  sm_vm : k_vm s' = k_vm s;
  sm_len : length (bufs s') = length (bufs s);
}.

(** The same for code that also changes the log. *)
Record same_sys (s s' : kfs) : Prop := {
  ss_hart : k_hart s' = k_hart s;
  ss_pid : k_pid s' = k_pid s;
  ss_cwd : k_cwd s' = k_cwd s;
  ss_ofile : k_ofile s' = k_ofile s;
  ss_sb : k_sb s' = k_sb s;
  ss_it : k_it s' = k_it s;
  ss_ft : k_ft s' = k_ft s;
  ss_name : k_name s' = k_name s;
  ss_pipes : k_pipes s' = k_pipes s;
  ss_vm : k_vm s' = k_vm s;
  ss_len : length (bufs s') = length (bufs s);
}.

#[export] Instance same_sys_preorder : PreOrder same_sys.
Proof.
  split; [by intros s; split|]. intros s1 s2 s3 [] []. split; congruence.
Qed.

Lemma same_rest_sys s s' : same_rest s s' → same_sys s s'.
Proof. intros []. by split. Qed.

Definition same_disk (s s' : kfs) : Prop := k_disk s' = k_disk s ∧ k_writes s' = k_writes s.

Lemma same_rest_put i b s : same_rest s (put_buf i b s).
Proof. split; try done. cbn. apply length_insert. Qed.

Lemma bread_spec s V R H x :
  bio_inv dev pid s V R H → x ∉ H → 0 < R x ∨ room s R → R x + 1 < 2 ^ 31 →
  runs (bread dev x) s (λ i s', bio_inv dev pid s' V (upd R x (R x + 1)) ({[x]} ∪ H) ∧ is_buf dev s' i x ∧
    (∀ j y, 0 < R y → is_buf dev s j y → is_buf dev s' j y) ∧ same_rest s s' ∧ same_disk s s').
Proof.
  intros Hi HxH Hroom Hbig. unfold bread. apply runs_bind. eapply runs_mono; [by apply (bget_spec s V R H x)|].
  intros i s1 (b & b1 & Hre & -> & Hd1 & Hx1 & Hr1 & Hl1 & Hv1 & H01). pose proof Hre as [Hb _].
  pose proof (lookup_lt_Some _ _ _ Hb) as Hlt. pose proof (bv_range _ _ _ _ _ _ Hi x) as Hrng.
  set (b2 := if b_valid b1 =? 0 then buf_with_valid 1 (buf_with_data (disk_at (k_disk s) x) b1) else b1).
  apply runs_bind, (runs_get_buf i b1); [by apply list_lookup_insert_eq|]. apply runs_bind.
  assert (Hrun : runs (if b_valid b1 =? 0 then virtio_disk_rw i false;; b ← get_buf i; set_buf i (buf_with_valid 1 b) else mret tt)
    (put_buf i b1 s) (λ _ s', s' = put_buf i b2 s)).
  { unfold b2. destruct (Z.eqb_spec (b_valid b1) 0) as [E|E]; [|by apply runs_ret].
    apply runs_bind. unfold virtio_disk_rw. apply runs_bind, (runs_get_buf i b1); [by apply list_lookup_insert_eq|].
    apply runs_bind. eapply runs_eq; [reflexivity|]. apply runs_set_buf. fold (put_buf i (buf_with_data (disk_at (k_disk (put_buf i b1 s)) (b_blockno b1)) b1) (put_buf i b1 s)).
    rewrite put_put. apply runs_bind. eapply runs_get_buf; [by apply list_lookup_insert_eq|].
    apply runs_set_buf. fold (put_buf i (buf_with_valid 1 (buf_with_data (disk_at (k_disk (put_buf i b1 s)) (b_blockno b1)) b1))
      (put_buf i (buf_with_data (disk_at (k_disk (put_buf i b1 s)) (b_blockno b1)) b1) s)).
    rewrite put_put, Hx1. done. }
  eapply runs_mono; [exact Hrun|]. intros _ s' ->. apply runs_ret.
  assert (Hd2 : b_dev b2 = dev) by (unfold b2; destruct (_ =? _); done).
  assert (Hx2 : b_blockno b2 = x) by (unfold b2; destruct (_ =? _); done).
  assert (Hv2 : b_valid b2 ≠ 0) by (unfold b2; destruct (Z.eqb_spec (b_valid b1) 0); done).
  assert (HD2 : b_data b2 = V x).
  { unfold b2. destruct (Z.eqb_spec (b_valid b1) 0) as [E|E]; [|by apply Hv1]. cbn. apply Hi. auto. }
  ands.
  - eapply (bio_inv_update s _ V V R _ H _ x i b b2 Hi Hre); try done.
    + by apply Hi.
    + by apply Hi.
    + intros y Hy. rewrite upd_ne by done. ands; [done|done|set_solver|done].
    + rewrite upd_eq. unfold b2. destruct (_ =? _); done.
    + rewrite decide_True by set_solver. unfold b2. destruct (_ =? _); done.
    + rewrite upd_eq. lia.
    + rewrite upd_eq. lia.
    + rewrite upd_eq. lia.
  - exists b2. rewrite bufs_put, list_lookup_insert_eq by done. done.
  - intros j y Hy Hj. eapply is_buf_update; [exact Hre|done|done|done|done|done|]. intros H0.
    destruct (decide (y = x)) as [|Hne]; [by left|right]. intros ->. destruct Hj as (c & Hc & Hdc & Hyc & _).
    rewrite Hb in Hc. injection Hc as <-. destruct (bv_buf _ _ _ _ _ _ Hi i b Hb Hdc) as [Er _].
    rewrite Hyc, H0 in Er. lia.
  - apply same_rest_put.
  - done.
Qed.

(** The contents of a buffer. *)
Lemma runs_buf s V R H i x (Q : buf → kfs → Prop) :
  bio_inv dev pid s V R H → is_buf dev s i x →
  (∀ b, bufs s !! i = Some b → b_dev b = dev → b_blockno b = x → b_valid b ≠ 0 → b_data b = V x → Q b s) →
  runs (get_buf i) s Q.
Proof.
  intros Hi (b & Hb & Hd & Hx & Hv) HQ. apply (runs_get_buf i b); [done|]. apply HQ; try done.
  destruct (bv_buf _ _ _ _ _ _ Hi i b Hb Hd) as (_ & HV & _). rewrite <-Hx. by apply HV.
Qed.

Lemma is_buf_reusable s R i x b :
  is_buf dev s i x → bufs s !! i = Some b → reusable s R x i b ∧ b_dev b = dev ∧ b_blockno b = x ∧ b_valid b ≠ 0.
Proof.
  intros (c & Hc & Hd & Hx & Hv) Hb. rewrite Hb in Hc. injection Hc as <-. ands; try done. split; [done|by left].
Qed.

(** Changing the contents of a referenced buffer. *)
Lemma set_data_spec s V R H i x b d (Q : unit → kfs → Prop) :
  bio_inv dev pid s V R H → is_buf dev s i x → 0 < R x → bufs s !! i = Some b →
  (∀ s', bio_inv dev pid s' (upd V x d) R H → (∀ j y, is_buf dev s j y → is_buf dev s' j y) →
    same_rest s s' → same_disk s s' → Q tt s') →
  runs (set_buf i (buf_with_data d b)) s Q.
Proof.
  intros Hi Hx HR Hb HQ. destruct (is_buf_reusable s R i x b Hx Hb) as (Hre & Hd & Hxb & Hv).
  destruct (bv_buf _ _ _ _ _ _ Hi i b Hb Hd) as (Er & _ & Hl). rewrite Hxb in *.
  apply runs_set_buf. apply HQ; [|intros j y Hj|apply same_rest_put|done].
  - eapply (bio_inv_update s _ V (upd V x d) R R H H x i b _ Hi Hre); try done.
    + by apply Hi.
    + by apply Hi.
    + intros y Hy. rewrite upd_ne by done. done.
    + intros _. by rewrite upd_eq.
    + apply (bv_range _ _ _ _ _ _ Hi).
    + lia.
  - eapply is_buf_update; [exact Hre|reflexivity|done|done|done|done|]. intros H0. lia.
Qed.

Lemma bwrite_spec s V R H i x :
  bio_inv dev pid s V R H → is_buf dev s i x → x ∈ H →
  runs (bwrite i) s (λ _ s', bio_inv dev pid s' V R H ∧
    s' = with_disk (<[x := V x]> (k_disk s)) (k_writes s ++ [(x, V x)]) s).
Proof.
  intros Hi Hx HH. pose proof (bv_held _ _ _ _ _ _ Hi x HH) as HR.
  pose proof Hx as (b & Hb & _). destruct (is_buf_reusable s R i x b Hx Hb) as (Hre & Hd & Hxb & Hv).
  destruct (bv_buf _ _ _ _ _ _ Hi i b Hb Hd) as (Er & HD & Hl). rewrite Hxb in *. rewrite decide_True in Hl by done.
  unfold bwrite. apply runs_bind, (runs_holding_buf i b); [done|by rewrite (bv_pid _ _ _ _ _ _ Hi)|]. cbn [negb].
  unfold virtio_disk_rw. apply runs_bind, (runs_get_buf i b); [done|]. apply runs_bind. eapply runs_eq; [reflexivity|].
  apply runs_modify. rewrite Hxb, HD by done. split; [|done].
  eapply (bio_inv_update s _ V V R R H H x i b b Hi Hre); try done.
  - by apply Hi.
  - by apply Hi.
  - cbn. by rewrite list_insert_id.
  - intros y Hy. ands; [done..|]. cbn. unfold disk_at. by rewrite lookup_insert_ne.
  - by rewrite decide_True.
  - apply (bv_range _ _ _ _ _ _ Hi).
  - lia.
Qed.

(** Moving an element to the front. *)
Lemma filter_none (i : nat) (l : list nat) : i ∉ l → filter (λ j, j ≠ i) l = l.
Proof.
  induction l as [|j l IH]; [done|]. rewrite not_elem_of_cons. intros [Hne Hi].
  rewrite filter_cons_True by done. by rewrite IH.
Qed.

Lemma front_perm (i : nat) (l : list nat) : NoDup l → i ∈ l → i :: filter (λ j, j ≠ i) l ≡ₚ l.
Proof.
  induction l as [|j l IH]; intros Hnd Hi; [by apply elem_of_nil in Hi|].
  apply list.NoDup_cons in Hnd as [Hj Hnd]. destruct (decide (j = i)) as [->|Hne].
  - rewrite filter_cons_False by tauto. by rewrite filter_none.
  - apply elem_of_cons in Hi as [->|Hi]; [done|]. rewrite filter_cons_True by done.
    rewrite Permutation_swap. f_equiv. by apply IH.
Qed.

(** A held buffer with another reference count and lock. *)
Lemma refcnt_inv s s' V R H H' i x b l r lru :
  bio_inv dev pid s V R H → is_buf dev s i x → bufs s !! i = Some b → 0 ≤ r < 2 ^ 31 →
  s' = with_bc (mk_bcache (bc_lock (k_bc s)) (<[i := buf_with_lock l (buf_with_refcnt r b)]> (bufs s)) lru) s →
  lru ≡ₚ bc_lru (k_bc s) → (∀ y, y ≠ x → y ∈ H' ↔ y ∈ H) →
  (if decide (x ∈ H') then sl_held pid l else sl_free l) → (r = 0 → disk_at (k_disk s) x = V x) →
  (x ∈ H' → 0 < r) →
  bio_inv dev pid s' V (upd R x r) H' ∧ (∀ j y, is_buf dev s j y → is_buf dev s' j y) ∧
  same_rest s s' ∧ same_disk s s'.
Proof.
  intros Hi Hx Hb Hr -> Hlru HH Hl Hdisk Hh.
  destruct (is_buf_reusable s R i x b Hx Hb) as (Hre & Hd & Hxb & Hv).
  destruct (bv_buf _ _ _ _ _ _ Hi i b Hb Hd) as (Er & HD & _). rewrite Hxb in *. ands.
  - eapply (bio_inv_update s _ V V R _ H H' x i b _ Hi Hre); try done.
    + by apply Hi.
    + by apply Hi.
    + intros y Hy. rewrite upd_ne by done. ands; [done|done|by apply HH|done].
    + by rewrite upd_eq.
    + by rewrite upd_eq.
    + by rewrite upd_eq.
    + by rewrite upd_eq.
  - intros j y Hj. destruct (decide (j = i)) as [->|Hne].
    + destruct Hj as (c & Hc & Hdc & Hyc & Hvc). rewrite Hb in Hc. injection Hc as <-.
      exists (buf_with_lock l (buf_with_refcnt r b)). cbn. rewrite list_lookup_insert_eq by (by eapply lookup_lt_Some). done.
    + destruct Hj as (c & Hc & ?). exists c. cbn. rewrite list_lookup_insert_ne by done. done.
  - split; try done. cbn. apply length_insert.
  - done.
Qed.

Lemma brelse_spec s V R H i x :
  bio_inv dev pid s V R H → is_buf dev s i x → x ∈ H → (R x = 1 → disk_at (k_disk s) x = V x) →
  runs (brelse i) s (λ _ s', bio_inv dev pid s' V (upd R x (R x - 1)) (H ∖ {[x]}) ∧
    (∀ j y, is_buf dev s j y → is_buf dev s' j y) ∧ same_rest s s' ∧ same_disk s s').
Proof.
  intros Hi Hx HH Hclean. pose proof (bv_held _ _ _ _ _ _ Hi x HH) as HR. pose proof (bv_range _ _ _ _ _ _ Hi x).
  pose proof Hx as (b & Hb & _). destruct (is_buf_reusable s R i x b Hx Hb) as (Hre & Hd & Hxb & Hv).
  destruct (bv_buf _ _ _ _ _ _ Hi i b Hb Hd) as (Er & HD & Hl). rewrite Hxb in *. rewrite decide_True in Hl by done.
  pose proof (lookup_lt_Some _ _ _ Hb) as Hlt. pose proof (bv_lock _ _ _ _ _ _ Hi) as Hu.
  assert (Hnd : NoDup (bc_lru (k_bc s))) by (rewrite (bv_lru _ _ _ _ _ _ Hi); apply NoDup_seq).
  unfold brelse. apply runs_bind, (runs_holding_buf i b); [done|by rewrite (bv_pid _ _ _ _ _ _ Hi)|]. cbn [negb].
  apply runs_bind, (runs_release_buf i b s pid); [done|done|]. intros l Hlf.
  apply runs_bind, runs_acquire_bc; [done|].
  apply runs_bind, (runs_get_buf i (buf_with_lock l b)); [by apply list_lookup_insert_eq|].
  apply runs_bind, runs_set_buf. eapply runs_bind, runs_get_buf; [apply list_lookup_insert_eq; cbn; by rewrite length_insert|].
  cbn [b_refcnt buf_with_refcnt buf_with_lock]. rewrite Er, u32_small by lia. apply runs_bind.
  set (lru := if R x - 1 =? 0 then i :: filter (λ j, j ≠ i) (bc_lru (k_bc s)) else bc_lru (k_bc s)).
  assert (Hlru : lru ≡ₚ bc_lru (k_bc s)).
  { unfold lru. destruct (_ =? _); [|done]. apply front_perm; [done|]. apply (lru_some s V R H i Hi). by rewrite Hb. }
  set (b' := buf_with_lock l (buf_with_refcnt (R x - 1) b)).
  set (s' := with_bc (mk_bcache (bc_lock (k_bc s)) (<[i := b']> (bufs s)) lru) s).
  assert (Hfin : bio_inv dev pid s' V (upd R x (R x - 1)) (H ∖ {[x]}) ∧
    (∀ j y, is_buf dev s j y → is_buf dev s' j y) ∧ same_rest s s' ∧ same_disk s s').
  { eapply (refcnt_inv s s' V R H (H ∖ {[x]}) i x b l (R x - 1) lru); try done; try lia.
    - set_solver.
    - rewrite decide_False by set_solver. done.
    - intros. apply Hclean. lia.
    - set_solver. }
  assert (Hlast : ∀ s2, s2 = with_bc (mk_bcache (held_by (k_hart s) (bc_lock (k_bc s))) (<[i := b']> (bufs s)) lru) s →
    runs release_bc s2 (λ _ s', bio_inv dev pid s' V (upd R x (R x - 1)) (H ∖ {[x]}) ∧
      (∀ j y, is_buf dev s j y → is_buf dev s' j y) ∧ same_rest s s' ∧ same_disk s s')).
  { intros s2 ->. apply (runs_release_bc _ (bc_lock (k_bc s))); [done|done|]. exact Hfin. }
  unfold lru in *. destruct (R x - 1 =? 0).
  - apply runs_bind. eapply runs_eq; [reflexivity|]. eapply runs_eq; [reflexivity|]. apply Hlast.
    unfold with_bc, set_bufs, b'. cbn. by rewrite list_insert_insert_eq.
  - apply runs_ret. apply Hlast. unfold with_bc, set_bufs, b'. cbn. by rewrite list_insert_insert_eq.
Qed.

(** [bpin] and [bunpin] on a buffer that is referenced before and after. *)
Lemma repin_spec s V R H i x d b (Q : unit → kfs → Prop) :
  bio_inv dev pid s V R H → is_buf dev s i x → bufs s !! i = Some b → 0 < R x + d < 2 ^ 31 →
  (∀ s', bio_inv dev pid s' V (upd R x (R x + d)) H → (∀ j y, is_buf dev s j y → is_buf dev s' j y) →
    same_rest s s' → same_disk s s' → Q tt s') →
  runs (acquire_bc;; b ← get_buf i; set_buf i (buf_with_refcnt (u32 (b_refcnt b + d)) b);; release_bc) s Q.
Proof.
  intros Hi Hx Hb HR HQ. destruct (is_buf_reusable s R i x b Hx Hb) as (Hre & Hd & Hxb & Hv).
  destruct (bv_buf _ _ _ _ _ _ Hi i b Hb Hd) as (Er & HD & Hl). rewrite Hxb in *.
  pose proof (bv_lock _ _ _ _ _ _ Hi) as Hu. apply runs_bind, runs_acquire_bc; [done|].
  apply runs_bind, (runs_get_buf i b); [done|]. apply runs_bind, runs_set_buf.
  apply (runs_release_bc _ (bc_lock (k_bc s))); [done|done|]. rewrite Er, u32_small by lia.
  replace (buf_with_refcnt (R x + d) b) with (buf_with_lock (b_lock b) (buf_with_refcnt (R x + d) b)) by (by destruct b).
  destruct (refcnt_inv s _ V R H H i x b (b_lock b) (R x + d) _ Hi Hx Hb ltac:(lia) eq_refl (reflexivity _))
    as (H1 & H2 & H3 & H4); [done|done|lia|lia|]. by apply HQ.
Qed.
End inv.
