(* ===== verification/LogSpec.v ===== *)
(** * Log: commit and recovery

    What [commit] and [recover_from_log] do to the disk, as sequences of
    block writes. *)

From S2P Require Import Prelude Spinlock Mem FsState Bio Log BioSpec.

(** ** Sequences of writes *)

Definition put_all (w : list (Z * blk)) (d : gmap Z blk) : gmap Z blk :=
  foldl (λ d '(x, v), <[x := v]> d) d w.

Definition updl (V : Z → blk) (w : list (Z * blk)) : Z → blk := foldl (λ V '(x, v), upd V x v) V w.

Lemma updl_app V w w' x : updl V (w ++ w') x = updl (updl V w) w' x.
Proof. unfold updl. by rewrite foldl_app. Qed.
Lemma put_all_app w w' d : put_all (w ++ w') d = put_all w' (put_all w d).
Proof. unfold put_all. by rewrite foldl_app. Qed.

Lemma updl_ext V V' w x : (∀ y, V y = V' y) → updl V w x = updl V' w x.
Proof.
  revert V V'. induction w as [|[y v] w IH]; intros V V' HV; [apply HV|]. cbn. apply IH.
  intros z. unfold upd. by destruct (decide (z = y)).
Qed.

Lemma updl_notin V w x : x ∉ w.*1 → updl V w x = V x.
Proof.
  revert V. induction w as [|[y v] w IH]; intros V Hx; [done|]. cbn in *. apply not_elem_of_cons in Hx as [Hne Hx].
  unfold updl in *. rewrite IH by done. by apply upd_ne.
Qed.

Lemma disk_put_all w d x : disk_at (put_all w d) x = updl (disk_at d) w x.
Proof.
  revert d. induction w as [|[y v] w IH]; intros d; [done|]. cbn. unfold put_all in *. rewrite IH. apply updl_ext.
  intros z. unfold upd, disk_at. destruct (decide (z = y)) as [->|Hne]; [by rewrite lookup_insert_eq|by rewrite lookup_insert_ne].
Qed.

(** The last write to [x] wins, when there is only one. *)
Lemma updl_in V w x v : NoDup w.*1 → (x, v) ∈ w → updl V w x = v.
Proof.
  revert V. induction w as [|[y u] w IH]; intros V Hnd Hx; [by apply elem_of_nil in Hx|].
  cbn in Hnd. apply list.NoDup_cons in Hnd as [Hy Hnd]. apply elem_of_cons in Hx as [[= -> ->]|Hx].
  - cbn. change (updl (upd V y u) w y = u). rewrite updl_notin by done. apply upd_eq.
  - by apply IH.
Qed.

Section inv.
Context (dev pid : Z).

Lemma bio_inv_ext s V V' R R' H H' :
  bio_inv dev pid s V R H → (∀ x, V' x = V x) → (∀ x, R' x = R x) → (∀ x, x ∈ H' ↔ x ∈ H) →
  bio_inv dev pid s V' R' H'.
Proof.
  intros Hi HV HR HH. split; try by apply Hi.
  - intros i b Hb Hd. destruct (bv_buf _ _ _ _ _ _ Hi i b Hb Hd) as (E & Hv & Hl). rewrite HR, HV. ands; [done|done|].
    pose proof (HH (b_blockno b)). repeat case_decide; try done; tauto.
  - intros x. rewrite HR. apply Hi.
  - intros x. rewrite HR. apply Hi.
  - intros x. rewrite HR, HV. apply Hi.
  - intros x. rewrite HR, HH. apply Hi.
Qed.

Lemma same_rest_trans s1 s2 s3 : same_rest s1 s2 → same_rest s2 s3 → same_rest s1 s3.
Proof. intros [] []. split; congruence. Qed.
Lemma same_rest_refl s : same_rest s s.
Proof. by split. Qed.
Lemma same_rest_disk d w s : same_rest s (with_disk d w s).
Proof. by split. Qed.

Lemma room_same s s' R R' P :
  same_rest s s' → (∀ x, 0 < R x → x ∈ P) → (length P < length (bufs s))%nat →
  (∀ x, 0 < R' x → x ∈ P) → room s' R'.
Proof. intros [] _ Hl HP. exists P. split; [done|]. lia. Qed.

(** A state [s'] that differs from [s] by the writes [w] only. *)
Definition wrote (w : list (Z * blk)) (s s' : kfs) : Prop :=
  same_rest s s' ∧ k_disk s' = put_all w (k_disk s) ∧ k_writes s' = k_writes s ++ w.

Lemma wrote_nil s s' : same_rest s s' → same_disk s s' → wrote [] s s'.
Proof. intros H1 [H2 H3]. split; [done|]. by rewrite app_nil_r. Qed.

Lemma wrote_trans w w' s1 s2 s3 : wrote w s1 s2 → wrote w' s2 s3 → wrote (w ++ w') s1 s3.
Proof.
  intros (H1 & H2 & H3) (H4 & H5 & H6). split; [by eapply same_rest_trans|].
  rewrite H5, H2, H6, H3, put_all_app, app_assoc. done.
Qed.

Lemma wrote_one x v s : wrote [(x, v)] s (with_disk (<[x := v]> (k_disk s)) (k_writes s ++ [(x, v)]) s).
Proof. split; [apply same_rest_disk|done]. Qed.
End inv.

(** ** Copying a block

    Both loops copy one buffer into another one and write it.  The buffers
    [i] and [j] of the different blocks [x] and [y] are held. *)

Section copy.
Context (dev pid : Z).

Lemma copy_spec s V R H i j x y :
  bio_inv dev pid s V R H → is_buf dev s i x → is_buf dev s j y → x ∈ H → y ∈ H →
  runs (fb ← get_buf i; tb ← get_buf j; set_buf j (buf_with_data (b_data fb) tb);; bwrite j) s
    (λ _ s', bio_inv dev pid s' (upd V y (V x)) R H ∧ (∀ k z, is_buf dev s k z → is_buf dev s' k z) ∧
      wrote [(y, V x)] s s').
Proof.
  intros Hi Hx Hy HxH HyH. apply runs_bind. eapply (runs_buf dev pid s V R H i x); [done|done|].
  intros fb Hfb Hdf Hxf Hvf Hdataf. apply runs_bind. eapply (runs_buf dev pid s V R H j y); [done|done|].
  intros tb Htb Hdt Hyt Hvt Hdatat. apply runs_bind.
  apply (set_data_spec dev pid s V R H j y tb); [done|done|by apply Hi|done|]. rewrite Hdataf.
  intros s1 Hi1 Hk1 Hs1 Hd1. eapply runs_mono; [apply (bwrite_spec dev pid s1 _ R H j y Hi1)|]; [by apply Hk1|done|].
  intros _ s2 (Hi2 & ->). rewrite upd_eq in *. ands.
  - done.
  - intros k z Hk. by apply Hk1.
  - apply (wrote_trans [] [(y, V x)] s s1); [by apply wrote_nil|apply wrote_one].
Qed.

Lemma runs_bind_inv {A B} (m : M kfs A) (f : A → M kfs B) s (Q : B → kfs → Prop) :
  runs (m ≫= f) s Q → runs m s (λ a s', runs (f a) s' Q).
Proof.
  intros (b & s2 & Hm & HQ). rewrite M_bind_unfold in Hm. destruct (m s) as [[a s1]| | | |] eqn:E; try done.
  exists a, s1. split; [done|]. by exists b, s2.
Qed.

(** The same, followed by [k]. *)
Lemma copy_then s V R H i j x y (k : M kfs unit) (Q : unit → kfs → Prop) :
  bio_inv dev pid s V R H → is_buf dev s i x → is_buf dev s j y → x ∈ H → y ∈ H →
  (∀ s', bio_inv dev pid s' (upd V y (V x)) R H → (∀ l z, is_buf dev s l z → is_buf dev s' l z) →
    wrote [(y, V x)] s s' → runs k s' Q) →
  runs (fb ← get_buf i; tb ← get_buf j; set_buf j (buf_with_data (b_data fb) tb);; bwrite j;; k) s Q.
Proof.
  intros Hi Hx Hy HxH HyH HQ.
  pose proof (copy_spec s V R H i j x y Hi Hx Hy HxH HyH) as Hc.
  apply runs_bind. eapply runs_mono; [exact (runs_bind_inv _ _ _ _ Hc)|]. clear Hc. intros fb s1 Hc.
  apply runs_bind. eapply runs_mono; [exact (runs_bind_inv _ _ _ _ Hc)|]. clear Hc. intros tb s2 Hc.
  apply runs_bind. eapply runs_mono; [exact (runs_bind_inv _ _ _ _ Hc)|]. clear Hc. intros u s3 Hc.
  apply runs_bind. eapply runs_mono; [exact Hc|]. intros _ s4 (H1 & H2 & H3). by apply HQ.
Qed.
End copy.

(** ** The loops *)

Section loops.
Context (dev pid st : Z) (bs : list Z).
Hypotheses (Hdev : 0 ≤ dev < 2 ^ 31) (Hst : 0 ≤ st < 2 ^ 30).
(** The logged blocks: distinct block numbers outside the log. *)
Hypothesis (Hbs : NoDup bs).
Hypothesis (Hbr : ∀ b, b ∈ bs → 0 ≤ b < 2 ^ 31 ∧ (b < st ∨ st + LOGBLOCKS < b)).
Hypothesis (Hlen : Z.of_nat (length bs) ≤ LOGBLOCKS).

Record log_is (s : kfs) : Prop := {
  li_dev : lg_dev (k_log s) = dev;
  li_start : lg_start (k_log s) = st;
  li_n : lh_n (lg_lh (k_log s)) = Z.of_nat (length bs);
  li_blocks : ∃ tl, lh_block (lg_lh (k_log s)) = bs ++ tl;
}.

Lemma log_is_same s s' : same_rest s s' → log_is s → log_is s'.
Proof. intros [_ _ _ _ E _ _ _ _] []. by split; rewrite E. Qed.

Lemma runs_log_block s t b (Q : Z → kfs → Prop) :
  log_is s → bs !! t = Some b → Q b s → runs (log_block (Z.of_nat t)) s Q.
Proof.
  intros [_ _ _ (tl & Hb)] Ht HQ. eapply runs_eq; [|exact HQ]. unfold log_block.
  rewrite Nat2Z.id, Hb, lookup_app_l by (by eapply lookup_lt_Some). rewrite Ht.
  by rewrite (proj2 (Z.leb_le 0 _)) by lia.
Qed.

(** The log block of the [t]-th logged block. *)
Definition slot_of (t : nat) : Z := st + Z.of_nat t + 1.

Lemma block_facts t b : bs !! t = Some b → u32 b = b ∧ b ≠ slot_of t ∧ u32 (slot_of t) = slot_of t ∧ b ∈ bs ∧ (slot_of t ∉ bs).
Proof.
  intros Ht. pose proof (list_elem_of_lookup_2 _ _ _ Ht) as Hb. destruct (Hbr b Hb) as [? ?].
  pose proof (lookup_lt_Some _ _ _ Ht). unfold slot_of, LOGBLOCKS, MAXOPBLOCKS in *.
  rewrite !u32_small by lia. ands; [done|lia|done|done|].
  intros [_ ?]%Hbr. unfold LOGBLOCKS, MAXOPBLOCKS in *. lia.
Qed.

(** References: exactly the logged blocks are pinned, from index [t] on. *)
Definition pinned (t : nat) (R : Z → Z) : Prop := ∀ x, R x = if decide (x ∈ drop t bs) then 1 else 0.

Lemma pinned_room t R s x :
  pinned t R → (length bs < length (bufs s))%nat → 0 < R x ∨ room s R.
Proof.
  intros HR Hl. right. exists bs. split; [|done]. intros y Hy. rewrite HR in Hy. case_decide as Hd; [|lia].
  rewrite <-(take_drop t bs). apply elem_of_app. by right.
Qed.

(** [k] buffers more than references. *)
Definition rooms (k : nat) (s : kfs) (R : Z → Z) : Prop :=
  ∃ P : list Z, (∀ x, 0 < R x → x ∈ P) ∧ (k + length P < length (bufs s))%nat.

(** Reading the log block and the home block of the [t]-th entry. *)
Lemma bread_pair s V R t b (k : nat → nat → M kfs unit) (Q : unit → kfs → Prop) :
  bio_inv dev pid s V R ∅ → log_is s → bs !! t = Some b → R (slot_of t) = 0 → 0 ≤ R b ≤ 1 →
  rooms 0 s R → (R b = 0 → rooms 1 s R) →
  (∀ i j s2, bio_inv dev pid s2 V (upd (upd R (slot_of t) 1) b (R b + 1)) ({[b]} ∪ ({[slot_of t]} ∪ ∅)) →
    is_buf dev s2 i (slot_of t) → is_buf dev s2 j b → same_rest s s2 → same_disk s s2 → runs (k i j) s2 Q) →
  runs (i ← bread (u32 dev) (u32 (slot_of t)); src ← log_block (Z.of_nat t); j ← bread (u32 dev) (u32 src); k i j) s Q.
Proof.
  intros Hi Hlog Ht HRt HRb Hroom Hroom2 HQ. destruct (block_facts t b Ht) as (Ub & Hne & Us & Hbin & Hnin).
  rewrite Us, (u32_small dev) by lia. apply runs_bind.
  eapply runs_mono; [apply (bread_spec dev pid s V R ∅ (slot_of t) Hi); [set_solver|by right|lia]|].
  intros i s1 (Hi1 & Hib & Hk1 & Hs1 & Hd1). rewrite HRt in Hi1.
  apply runs_bind, (runs_log_block s1 t b); [by eapply log_is_same|done|]. apply runs_bind. rewrite Ub.
  eapply runs_mono; [apply (bread_spec dev pid s1 V _ _ b Hi1); [set_solver| |rewrite upd_ne by done; lia]|].
  { rewrite upd_ne by done. destruct (decide (R b = 0)) as [E|E]; [right|left; lia].
    destruct (Hroom2 E) as (P & HP & Hl). exists (slot_of t :: P). rewrite (sm_len _ _ Hs1). split; [|cbn; lia].
    intros x Hx. unfold upd in Hx. case_decide; [subst; by left|right; by apply HP]. }
  intros j s2 (Hi2 & Hjb & Hk2 & Hs2 & Hd2). rewrite (upd_ne _ _ b) in Hi2 by done. apply HQ; [done| |done| |].
  - apply Hk2; [rewrite upd_eq; lia|done].
  - by eapply same_rest_trans.
  - destruct Hd1, Hd2. split; congruence.
Qed.

(** Giving both back, in the order [x], [y]; both agree with the disk
    unless they keep references. *)
Lemma brelse_pair s V R i j x y :
  bio_inv dev pid s V R ({[y]} ∪ ({[x]} ∪ ∅)) → x ≠ y → is_buf dev s i x → is_buf dev s j y →
  (R x = 1 → disk_at (k_disk s) x = V x) → (R y = 1 → disk_at (k_disk s) y = V y) →
  runs (brelse i;; brelse j) s (λ _ s', bio_inv dev pid s' V (upd (upd R x (R x - 1)) y (R y - 1)) ∅ ∧
    same_rest s s' ∧ same_disk s s').
Proof.
  intros Hi Hne Hx Hy Hdx Hdy. apply runs_bind.
  eapply runs_mono; [apply (brelse_spec dev pid s V R _ i x Hi); [done|set_solver|done]|].
  intros _ s1 (Hi1 & Hk1 & Hs1 & Hd1).
  eapply runs_mono; [apply (brelse_spec dev pid s1 V _ _ j y Hi1); [by apply Hk1|set_solver|]|].
  { rewrite upd_ne by done. by destruct Hd1 as [-> _]. }
  intros _ s2 (Hi2 & Hk2 & Hs2 & Hd2). rewrite (upd_ne _ _ y) in Hi2 by done. ands.
  - eapply bio_inv_ext; [exact Hi2|done|done|set_solver].
  - by eapply same_rest_trans.
  - destruct Hd1, Hd2. split; congruence.
Qed.

Lemma log_one_spec s V R t b :
  bio_inv dev pid s V R ∅ → log_is s → pinned 0 R → (length bs < length (bufs s))%nat → bs !! t = Some b →
  runs (log_one (Z.of_nat t)) s (λ _ s',
    bio_inv dev pid s' (upd V (slot_of t) (V b)) R ∅ ∧ wrote [(slot_of t, V b)] s s').
Proof.
  intros Hi Hlog HR Hroom Ht. destruct (block_facts t b Ht) as (Ub & Hne & Us & Hbin & Hnin).
  assert (HRb : R b = 1) by (rewrite HR, decide_True by done; done).
  assert (HRt : R (slot_of t) = 0) by (rewrite HR, decide_False by done; done).
  unfold log_one. apply runs_bind, runs_gets. rewrite (li_dev _ Hlog), (li_start _ Hlog). fold (slot_of t).
  apply (bread_pair s V R t b (λ to from, fb ← get_buf from; tb ← get_buf to;
    set_buf to (buf_with_data (b_data fb) tb);; bwrite to;; brelse from;; brelse to)); try done; [lia| |lia|].
  { by destruct (pinned_room 0 R s (slot_of t) HR Hroom); [lia|]. }
  intros to from s2 Hi2 Hto Hfrom Hs2 Hd2. rewrite HRb in Hi2.
  eapply (copy_then dev pid s2 V _ _ from to b (slot_of t)); [exact Hi2|done|done|set_solver|set_solver|].
  intros s3 Hi3 Hk3 Hw3. pose proof Hw3 as (Hs3 & Hd3 & _).
  eapply runs_mono; [eapply (brelse_pair s3 _ _ from to b (slot_of t)); [|done|by apply Hk3|by apply Hk3| |]|].
  { eapply bio_inv_ext; [exact Hi3|done|done|set_solver]. }
  { rewrite upd_eq. lia. }
  { intros _. rewrite upd_eq, Hd3. cbn. unfold disk_at. by rewrite lookup_insert_eq. }
  intros _ s4 (Hi4 & Hs4 & Hd4). split.
  - eapply bio_inv_ext; [exact Hi4|done| |done]. intros x. unfold upd. repeat case_decide; subst; try done; lia.
  - apply (wrote_trans [] [_] s s2); [by apply wrote_nil|]. apply (wrote_trans [_] [] s2 s3); [done|by apply wrote_nil].
Qed.

Definition log_writes (V : Z → blk) (t : nat) : list (Z * blk) :=
  imap (λ i b, (slot_of (t + i), V b)) (drop t bs).
Definition install_writes (V : Z → blk) (t : nat) : list (Z * blk) :=
  imap (λ i b, (b, V (slot_of (t + i)))) (drop t bs).

Lemma log_writes_S V t b : bs !! t = Some b → log_writes V t = (slot_of t, V b) :: log_writes V (S t).
Proof.
  intros Ht. unfold log_writes. rewrite (drop_S _ _ _ Ht). cbn. rewrite Nat.add_0_r. f_equal.
  apply imap_ext. intros i x _. cbn. f_equal. f_equal. lia.
Qed.
Lemma install_writes_S V t b : bs !! t = Some b → install_writes V t = (b, V (slot_of t)) :: install_writes V (S t).
Proof.
  intros Ht. unfold install_writes. rewrite (drop_S _ _ _ Ht). cbn. rewrite Nat.add_0_r. f_equal.
  apply imap_ext. intros i x _. cbn. do 3 f_equal. lia.
Qed.

Lemma slot_notin t : (t < length bs)%nat → slot_of t ∉ bs.
Proof. intros [b Hb]%lookup_lt_is_Some_2. by destruct (block_facts t b Hb) as (_ & _ & _ & _ & ?). Qed.

Lemma log_writes_upd V t t' v :
  (t < length bs)%nat → log_writes (upd V (slot_of t) v) t' = log_writes V t'.
Proof.
  intros Ht. apply imap_ext. intros i x Hx. cbn. f_equal. apply upd_ne. intros ->.
  apply (slot_notin t Ht). rewrite <-(take_drop t' bs). apply elem_of_app. right. by eapply list_elem_of_lookup_2.
Qed.

Lemma install_writes_upd V t b v : b ∈ bs → install_writes (upd V b v) t = install_writes V t.
Proof.
  intros Hb. apply imap_ext. intros i x Hx. cbn. f_equal. apply upd_ne. intros E.
  apply (slot_notin (t + i)); [|by rewrite E]. apply lookup_lt_Some in Hx. rewrite length_drop in Hx. lia.
Qed.

Lemma log_loop_spec n : ∀ t s V R,
  bio_inv dev pid s V R ∅ → log_is s → pinned 0 R → (length bs < length (bufs s))%nat → (t + n = length bs)%nat →
  runs (log_loop n (Z.of_nat t)) s (λ _ s',
    bio_inv dev pid s' (updl V (log_writes V t)) R ∅ ∧ wrote (log_writes V t) s s').
Proof.
  induction n as [|n IH]; intros t s V R Hi Hlog HR Hroom Htn; cbn [log_loop].
  { apply runs_ret. assert (log_writes V t = []) as -> by (unfold log_writes; by rewrite drop_ge by lia).
    split; [done|]. apply wrote_nil; [apply same_rest_refl|done]. }
  destruct (lookup_lt_is_Some_2 bs t) as [b Hb]; [lia|]. apply runs_bind.
  eapply runs_mono; [by apply (log_one_spec s V R t b)|]. intros _ s1 (Hi1 & Hw1).
  replace (Z.of_nat t + 1) with (Z.of_nat (S t)) by lia. pose proof Hw1 as (Hsm & _).
  eapply runs_mono; [apply (IH (S t) s1 _ R Hi1); [by eapply log_is_same|done|by rewrite (sm_len _ _ Hsm)|lia]|].
  intros _ s2 (Hi2 & Hw2). rewrite log_writes_upd in Hi2, Hw2 by lia. rewrite (log_writes_S V t b Hb). split; [done|].
  by apply (wrote_trans [_] _ s s1).
Qed.

(** Printing. *)
Lemma bio_inv_out s V R H o : bio_inv dev pid s V R H → bio_inv dev pid (with_out o s) V R H.
Proof. intros []. by split. Qed.

(** The unpinning of [install_trans]. *)
Lemma unpin_spec (recovering : bool) s V R H j b :
  bio_inv dev pid s V (upd R b (if recovering then 1 else 2)) H → is_buf dev s j b →
  runs (if recovering then mret tt else bunpin j) s (λ _ s', bio_inv dev pid s' V (upd R b 1) H ∧
    (∀ l y, is_buf dev s l y → is_buf dev s' l y) ∧ same_rest s s' ∧ same_disk s s').
Proof.
  intros Hi Hb. destruct recovering; [apply runs_ret; ands; [done|done|apply same_rest_refl|done]|].
  pose proof Hb as (bb & Hbb & _).
  eapply (repin_spec dev pid s _ _ _ j b (-1) bb); [exact Hi|exact Hb|exact Hbb|rewrite upd_eq; lia|].
  intros s' Hi' Hk Hs Hd. ands; [|done..]. eapply bio_inv_ext; [exact Hi'|done| |done].
  intros x. rewrite upd_eq. unfold upd. by case_decide.
Qed.

(** The message of [install_trans]. *)
Lemma report_spec (recovering : bool) s V R fmt args :
  bio_inv dev pid s V R ∅ → runs (if recovering then print fmt args else mret tt) s
    (λ _ s', bio_inv dev pid s' V R ∅ ∧ same_rest s s' ∧ same_disk s s').
Proof.
  intros Hi. destruct recovering.
  - apply runs_modify. ands; [by apply bio_inv_out|by split|done].
  - apply runs_ret. ands; [done|apply same_rest_refl|done].
Qed.

Lemma rooms_same k s s' R : same_rest s s' → rooms k s R → rooms k s' R.
Proof. intros Hs (P & HP & Hl). exists P. by rewrite (sm_len _ _ Hs). Qed.

Lemma install_block_spec (recovering : bool) s V R t b :
  bio_inv dev pid s V R ∅ → log_is s → bs !! t = Some b → R (slot_of t) = 0 →
  R b = (if recovering then 0 else 1) → rooms 0 s R → (recovering = true → rooms 1 s R) →
  runs (install_block recovering (Z.of_nat t)) s (λ _ s',
    bio_inv dev pid s' (upd V b (V (slot_of t))) (upd R b 0) ∅ ∧ wrote [(b, V (slot_of t))] s s').
Proof.
  intros Hi Hlog Ht HRt HRb Hr0 Hr1. destruct (block_facts t b Ht) as (Ub & Hne & Us & Hbin & Hnin).
  unfold install_block. apply runs_bind, (runs_log_block s t b); [done|done|]. apply runs_bind.
  eapply runs_mono; [by apply report_spec|]. intros _ s0 (Hi0 & Hs0 & Hd0).
  pose proof (log_is_same _ _ Hs0 Hlog) as Hlog0. apply runs_bind, runs_gets.
  rewrite (li_dev _ Hlog0), (li_start _ Hlog0). fold (slot_of t).
  apply (bread_pair s0 V R t b (λ lbuf dbuf, lb ← get_buf lbuf; db ← get_buf dbuf;
    set_buf dbuf (buf_with_data (b_data lb) db);; bwrite dbuf;;
    (if recovering then mret tt else bunpin dbuf);; brelse lbuf;; brelse dbuf)); try done.
  { destruct recovering; lia. }
  { by eapply rooms_same. }
  { intros E. eapply rooms_same; [done|]. apply Hr1. destruct recovering; [done|lia]. }
  intros lbuf dbuf s2 Hi2 Hlb Hdb Hs2 Hd2.
  eapply (copy_then dev pid s2 V _ _ lbuf dbuf (slot_of t) b); [exact Hi2|done|done|set_solver|set_solver|].
  intros s3 Hi3 Hk3 Hw3. pose proof Hw3 as (Hs3 & Hd3 & _). apply runs_bind.
  replace (R b + 1) with (if recovering then 1 else 2) in Hi3 by (rewrite HRb; by destruct recovering).
  eapply runs_mono; [apply (unpin_spec recovering s3 _ _ _ dbuf b Hi3); by apply Hk3|].
  intros _ s4 (Hi4 & Hk4 & Hs4 & [Hd4 Hw4]).
  eapply runs_mono; [eapply (brelse_pair s4 _ _ lbuf dbuf (slot_of t) b Hi4); [done|by apply Hk4, Hk3|by apply Hk4, Hk3| |]|].
  { intros _. rewrite Hd4, Hd3, upd_ne by done. cbn. unfold disk_at. rewrite lookup_insert_ne by done.
    destruct Hd2 as [-> _]. by apply Hi0. }
  { intros _. rewrite upd_eq, Hd4, Hd3. cbn. unfold disk_at. by rewrite lookup_insert_eq. }
  intros _ s5 (Hi5 & Hs5 & Hd5). split.
  - eapply bio_inv_ext; [exact Hi5|done| |done]. intros x. unfold upd. repeat case_decide; subst; try done; lia.
  - apply (wrote_trans [] [_] s s0); [by apply wrote_nil|]. apply (wrote_trans [] [_] s0 s2); [by apply wrote_nil|].
    apply (wrote_trans [_] [] s2 s3); [done|]. apply (wrote_trans [] [] s3 s4); [by apply wrote_nil|by apply wrote_nil].
Qed.

(** References while installing from index [t] on. *)
Definition refs_from (recovering : bool) (t : nat) (R : Z → Z) : Prop :=
  ∀ x, R x = if decide (x ∈ drop t bs) then (if recovering then 0 else 1) else 0.

Lemma refs_from_S recovering t b R :
  bs !! t = Some b → refs_from recovering t R → refs_from recovering (S t) (upd R b 0).
Proof.
  intros Ht HR x. pose proof (drop_S _ _ _ Ht) as E.
  assert (Hnd : NoDup (drop t bs)) by (rewrite <-(take_drop t bs) in Hbs; by apply list.NoDup_app in Hbs as (_ & _ & ?)).
  rewrite E in Hnd. apply list.NoDup_cons in Hnd as [Hb _]. unfold upd. case_decide as Hx.
  - subst. by rewrite decide_False.
  - rewrite HR, E. repeat case_decide; try done; rewrite elem_of_cons in *; tauto.
Qed.

Lemma refs_rooms recovering t R s :
  refs_from recovering t R → (recovering = false → (length bs < length (bufs s))%nat) → (1 < length (bufs s))%nat →
  rooms 0 s R ∧ (recovering = true → rooms 1 s R).
Proof.
  intros HR Hl Hl1. split.
  - destruct recovering.
    { exists []. split; [|cbn; lia]. intros x Hx. rewrite HR in Hx. case_decide; lia. }
    exists bs. split; [|by apply Hl]. intros x Hx. rewrite HR in Hx. case_decide as Hd; [|lia].
    rewrite <-(take_drop t bs). apply elem_of_app. by right.
  - intros ->. exists []. split; [|done]. intros x Hx. rewrite HR in Hx. case_decide; lia.
Qed.

Lemma install_loop_spec recovering n : ∀ t s V R,
  bio_inv dev pid s V R ∅ → log_is s → refs_from recovering t R → (recovering = false → (length bs < length (bufs s))%nat) →
  (1 < length (bufs s))%nat → (t + n = length bs)%nat →
  runs (install_loop n recovering (Z.of_nat t)) s (λ _ s',
    bio_inv dev pid s' (updl V (install_writes V t)) (λ _, 0) ∅ ∧ wrote (install_writes V t) s s').
Proof.
  induction n as [|n IH]; intros t s V R Hi Hlog HR Hl Hl1 Htn; cbn [install_loop].
  { apply runs_ret. assert (install_writes V t = []) as -> by (unfold install_writes; by rewrite drop_ge by lia).
    split; [|apply wrote_nil; [apply same_rest_refl|done]]. eapply bio_inv_ext; [exact Hi|done| |done].
    intros x. rewrite HR, drop_ge by lia. by case_decide; [apply elem_of_nil in H|]. }
  destruct (lookup_lt_is_Some_2 bs t) as [b Hb]; [lia|]. destruct (block_facts t b Hb) as (_ & _ & _ & Hbin & _).
  destruct (refs_rooms recovering t R s HR Hl Hl1) as [Hr0 Hr1]. apply runs_bind.
  eapply runs_mono; [apply (install_block_spec recovering s V R t b); try done|].
  - rewrite HR. case_decide as Hd; [|done]. exfalso. apply (slot_notin t); [lia|].
    rewrite <-(take_drop t bs). apply elem_of_app. by right.
  - rewrite HR, decide_True; [done|]. rewrite (drop_S _ _ _ Hb). by left.
  - intros _ s1 (Hi1 & Hw1). replace (Z.of_nat t + 1) with (Z.of_nat (S t)) by lia. pose proof Hw1 as (Hsm & _).
    eapply runs_mono; [apply (IH (S t) s1 _ _ Hi1); [by eapply log_is_same|by apply refs_from_S| | |lia]|];
      [by rewrite (sm_len _ _ Hsm)..|].
    intros _ s2 (Hi2 & Hw2). rewrite install_writes_upd in Hi2, Hw2 by done. rewrite (install_writes_S V t b Hb).
    split; [done|]. by apply (wrote_trans [_] _ s s1).
Qed.

(** ** The header *)

Definition header (d : blk) : Prop :=
  ldn 4 d 0 = Z.of_nat (length bs) ∧ ∀ i b, bs !! i = Some b → ldn 4 d (4 + 4 * Z.of_nat i) = b.

Lemma write_blocks_spec s n : ∀ t hb,
  log_is s → (t + n = length bs)%nat →
  runs (write_blocks n (Z.of_nat t) hb) s (λ hb' s', s' = s ∧
    (∀ i b, (t ≤ i)%nat → bs !! i = Some b → ldn 4 hb' (4 + 4 * Z.of_nat i) = b) ∧
    agree_except [(4 + 4 * Z.of_nat t, 4 * Z.of_nat n)] hb hb').
Proof.
  induction n as [|n IH]; intros t hb Hlog Htn; cbn [write_blocks].
  { apply runs_ret. ands; [done| |apply agree_refl]. intros i b ? Hb. apply lookup_lt_Some in Hb. lia. }
  destruct (lookup_lt_is_Some_2 bs t) as [b Hb]; [lia|]. apply runs_bind, (runs_log_block s t b); [done|done|].
  replace (Z.of_nat t + 1) with (Z.of_nat (S t)) by lia.
  eapply runs_mono; [apply (IH (S t)); [done|lia]|]. intros hb' s' (-> & Hhb & Hag). ands; [done| |].
  - intros i c Hti Hc. destruct (decide (i = t)) as [->|Hne]; [|apply Hhb; [lia|done]].
    rewrite (agree_word _ _ _ 4 _ Hag) by (unfold avoids, dis; forall_list; cbn; lia).
    rewrite Hb in Hc. injection Hc as <-. apply (ldn_stn_eq 4). destruct (block_facts t b Hb) as (Ub & _ & _ & Hbin & _).
    destruct (Hbr b Hbin). cbn. lia.
  - intros x Hx. apply Forall_inv in Hx. rewrite Hag by (forall_list; lia). apply byte_at_stn. lia.
Qed.

Lemma write_head_spec s V R :
  bio_inv dev pid s V R ∅ → log_is s → R st = 0 → rooms 0 s R →
  runs write_head s (λ _ s', ∃ hb, header hb ∧ bio_inv dev pid s' (upd V st hb) R ∅ ∧ wrote [(st, hb)] s s').
Proof.
  intros Hi Hlog HR Hroom. unfold write_head. apply runs_bind, runs_gets.
  rewrite (li_dev _ Hlog), (li_start _ Hlog), (li_n _ Hlog), !u32_small, Nat2Z.id by lia. apply runs_bind.
  eapply runs_mono; [apply (bread_spec dev pid s V R ∅ st Hi); [set_solver|by right|lia]|].
  intros i s1 (Hi1 & Hb1 & _ & Hs1 & Hd1). pose proof (log_is_same _ _ Hs1 Hlog) as Hlog1.
  apply runs_bind. eapply (runs_buf dev pid s1 V _ _ i st); [exact Hi1|exact Hb1|]. intros b Hb _ _ _ Hdata. apply runs_bind.
  eapply runs_mono; [apply (write_blocks_spec s1 (length bs) 0); [done|done]|]. intros hb s' (-> & Hhb & Hag).
  apply runs_bind, (runs_get_buf i b); [done|]. apply runs_bind.
  eapply (set_data_spec dev pid s1 V _ _ i st b); [exact Hi1|done|rewrite upd_eq; lia|done|].
  intros s2 Hi2 Hk2 Hs2 Hd2. apply runs_bind.
  eapply runs_mono; [apply (bwrite_spec dev pid s2 _ _ _ i st Hi2); [by apply Hk2|set_solver]|].
  intros _ s3 (Hi3 & ->). rewrite upd_eq in *.
  eapply runs_mono; [apply (brelse_spec dev pid _ _ _ _ i st Hi3); [by apply Hk2|set_solver|]|].
  { intros _. rewrite upd_eq. cbn. unfold disk_at. by rewrite lookup_insert_eq. }
  intros _ s4 (Hi4 & _ & Hs4 & Hd4). exists hb. ands.
  - split; [|intros j c Hc; apply Hhb; [lia|done]].
    rewrite (agree_word _ _ _ 4 0 Hag) by (unfold avoids, dis; forall_list; cbn; lia).
    apply (ldn_stn_eq 4). unfold LOGBLOCKS, MAXOPBLOCKS in *. cbn. lia.
  - eapply bio_inv_ext; [exact Hi4|done| |set_solver]. intros x. rewrite upd_eq. unfold upd. case_decide; subst; [lia|done].
  - apply (wrote_trans [] [_] s s1); [by apply wrote_nil|]. apply (wrote_trans [] [_] s1 s2); [by apply wrote_nil|].
    apply (wrote_trans [_] [] s2 (with_disk (<[st:=hb]> (k_disk s2)) (k_writes s2 ++ [(st, hb)]) s2)); [apply wrote_one|by apply wrote_nil].
Qed.
End loops.
