(* ===== verification/LogCrash.v ===== *)
(** * Log: crash safety *)

From S2P Require Import Prelude Spinlock Mem FsState Bio Log BioSpec LogSpec.

Section commit.
Context (dev pid st : Z).
Hypotheses (Hdev : 0 ≤ dev < 2 ^ 31) (Hst : 0 ≤ st < 2 ^ 30).

(** Distinct block numbers outside the log, at most as many as fit. *)
Record loggable (bs : list Z) : Prop := {
  lb_nodup : NoDup bs;
  lb_range : ∀ b, b ∈ bs → 0 ≤ b < 2 ^ 31 ∧ (b < st ∨ st + LOGBLOCKS < b);
  lb_len : Z.of_nat (length bs) ≤ LOGBLOCKS;
}.

Lemma loggable_nil : loggable [].
Proof. split; [constructor|intros b Hb; by apply elem_of_nil in Hb|cbn; unfold LOGBLOCKS, MAXOPBLOCKS; lia]. Qed.

Lemma bio_inv_log s V R H g : bio_inv dev pid s V R H → bio_inv dev pid (with_log g s) V R H.
Proof. intros []. by split. Qed.

Lemma st_notin bs : loggable bs → st ∉ bs.
Proof. intros [_ Hr _] Hx. destruct (Hr _ Hx) as [_ ?]. unfold LOGBLOCKS, MAXOPBLOCKS in *. lia. Qed.

(** The log blocks, in order. *)
Lemma log_writes_addrs bs V t : (log_writes st bs V t).*1 = slot_of st <$> seq t (length bs - t).
Proof.
  unfold log_writes. apply list_eq. intros i. rewrite !list_lookup_fmap, list_lookup_imap, lookup_drop.
  destruct (bs !! (t + i)%nat) as [b|] eqn:E; cbn.
  - apply lookup_lt_Some in E. rewrite lookup_seq_lt by lia. done.
  - apply lookup_ge_None in E. rewrite lookup_seq_ge by lia. done.
Qed.

Lemma slot_inj t t' : slot_of st t = slot_of st t' → t = t'.
Proof. unfold slot_of. lia. Qed.

Lemma log_writes_nodup bs V : NoDup (log_writes st bs V 0).*1.
Proof. rewrite log_writes_addrs. apply NoDup_fmap_2; [intros x y; apply slot_inj|apply NoDup_seq]. Qed.

Lemma log_writes_in bs V i b : bs !! i = Some b → (slot_of st i, V b) ∈ log_writes st bs V 0.
Proof.
  intros Hi. apply list_elem_of_lookup. exists i. unfold log_writes. rewrite list_lookup_imap, lookup_drop.
  cbn. by rewrite Hi.
Qed.

Lemma log_writes_slots bs V x : x ∈ (log_writes st bs V 0).*1 → ∃ i, (i < length bs)%nat ∧ x = slot_of st i.
Proof.
  rewrite log_writes_addrs. intros (i & -> & Hi)%list_elem_of_fmap. apply elem_of_seq in Hi. exists i. split; [lia|done].
Qed.

(** The view after the log and the header are written. *)
Definition logged (bs : list Z) (V : Z → blk) (hb : blk) : Z → blk :=
  upd (updl V (log_writes st bs V 0)) st hb.

Lemma logged_slot bs V hb i b : bs !! i = Some b → logged bs V hb (slot_of st i) = V b.
Proof.
  intros Hi. unfold logged. rewrite upd_ne by (unfold slot_of; lia).
  apply updl_in; [apply log_writes_nodup|by apply log_writes_in].
Qed.

(** The home locations, with the contents to be installed. *)
Definition home_writes (bs : list Z) (V : Z → blk) : list (Z * blk) := (λ b, (b, V b)) <$> bs.

Lemma install_logged bs V hb : install_writes st bs (logged bs V hb) 0 = home_writes bs V.
Proof.
  unfold install_writes, home_writes. rewrite drop_0. apply list_eq. intros i.
  rewrite list_lookup_imap, list_lookup_fmap. destruct (bs !! i) as [b|] eqn:E; [|done]. cbn.
  by rewrite (logged_slot bs V hb i b).
Qed.

(** The disk writes of a commit. *)
Definition commit_writes (bs : list Z) (V : Z → blk) (hb hb0 : blk) : list (Z * blk) :=
  log_writes st bs V 0 ++ [(st, hb)] ++ home_writes bs V ++ [(st, hb0)].

Lemma runs_set_log_n s n (Q : unit → kfs → Prop) :
  Q tt (with_log (log_with_lh (mk_logheader n (lh_block (lg_lh (k_log s)))) (k_log s)) s) → runs (set_log_n n) s Q.
Proof. intros HQ. eexists _, _. split; [reflexivity|exact HQ]. Qed.

Lemma commit_spec bs s V R :
  loggable bs → bs ≠ [] → bio_inv dev pid s V R ∅ → log_is dev st bs s → pinned bs 0 R →
  (length bs < length (bufs s))%nat → (1 < length (bufs s))%nat →
  runs commit s (λ _ s', ∃ hb hb0, header bs hb ∧ header [] hb0 ∧
    k_disk s' = put_all (commit_writes bs V hb hb0) (k_disk s) ∧
    k_writes s' = k_writes s ++ commit_writes bs V hb hb0 ∧
    bio_inv dev pid s' (updl V (commit_writes bs V hb hb0)) (λ _, 0) ∅ ∧
    same_rest (with_log (log_with_lh (mk_logheader 0 (lh_block (lg_lh (k_log s)))) (k_log s)) s) s').
Proof.
  intros [Hnd Hr Hl] Hne Hi Hlog HR Hlen Hlen1. unfold commit. apply runs_bind, runs_gets.
  rewrite (li_n _ _ _ _ Hlog). rewrite (proj2 (Z.ltb_lt 0 _)) by (destruct bs; [done|cbn; lia]).
  apply runs_bind. unfold write_log. apply runs_bind, runs_gets. rewrite (li_n _ _ _ _ Hlog), Nat2Z.id.
  eapply runs_mono; [by apply (log_loop_spec dev pid st bs Hdev Hst Hnd Hr Hl (length bs) 0 s V R)|].
  intros _ s1 (Hi1 & Hw1). pose proof Hw1 as (Hs1 & _). pose proof (log_is_same _ _ _ _ _ Hs1 Hlog) as Hlog1.
  assert (HRst : R st = 0) by (rewrite HR, decide_False; [done|by apply st_notin]).
  apply runs_bind. eapply runs_mono; [apply (write_head_spec dev pid st bs Hdev Hst Hnd Hr Hl s1 _ R Hi1 Hlog1 HRst)|].
  { eapply rooms_same; [exact Hs1|]. by destruct (pinned_room bs 0 R s st HR Hlen); [lia|]. }
  intros _ s2 (hb & Hhb & Hi2 & Hw2). pose proof Hw2 as (Hs2 & _).
  pose proof (log_is_same _ _ _ _ _ Hs2 Hlog1) as Hlog2. fold (logged bs V hb) in Hi2.
  apply runs_bind. unfold install_trans. apply runs_bind, runs_gets. rewrite (li_n _ _ _ _ Hlog2), Nat2Z.id.
  eapply runs_mono; [apply (install_loop_spec dev pid st bs Hdev Hst Hnd Hr Hl false (length bs) 0 s2 _ R Hi2 Hlog2)|];
    [done|intros _; by rewrite (sm_len _ _ Hs2), (sm_len _ _ Hs1)|by rewrite (sm_len _ _ Hs2), (sm_len _ _ Hs1)|done|].
  intros _ s3 (Hi3 & Hw3). rewrite install_logged in Hi3, Hw3. pose proof Hw3 as (Hs3 & _).
  pose proof (log_is_same _ _ _ _ _ Hs3 Hlog2) as [E1 E2 E3 E4].
  apply runs_bind, runs_set_log_n. set (s4 := with_log _ s3).
  assert (Hi4 : bio_inv dev pid s4 (updl (logged bs V hb) (home_writes bs V)) (λ _, 0) ∅) by (by apply bio_inv_log).
  assert (Hlog4 : log_is dev st [] s4) by (split; [done|done|done|by eexists]).
  eapply runs_mono; [apply (write_head_spec dev pid st [] Hdev Hst (lb_nodup _ loggable_nil) (lb_range _ loggable_nil) (lb_len _ loggable_nil) s4 _ _ Hi4 Hlog4 eq_refl)|].
  { exists []. cbn. rewrite (sm_len _ _ Hs3), (sm_len _ _ Hs2), (sm_len _ _ Hs1). split; [lia|lia]. }
  intros _ s5 (hb0 & Hhb0 & Hi5 & Hw5). exists hb, hb0.
  destruct (wrote_trans _ _ _ _ _ (wrote_trans _ _ _ _ _ Hw1 Hw2) Hw3) as (_ & Hd & Hw).
  destruct Hw5 as (Hs5 & Hd5 & Hww5). ands; [done|done| | | |].
  - rewrite Hd5. change (k_disk s4) with (k_disk s3). rewrite Hd. unfold commit_writes. by rewrite !put_all_app.
  - rewrite Hww5. change (k_writes s4) with (k_writes s3). rewrite Hw. unfold commit_writes. by rewrite <-!app_assoc.
  - eapply bio_inv_ext; [exact Hi5| |done|done]. intros x. unfold commit_writes. by rewrite !updl_app.
  - pose proof (same_rest_trans _ _ _ (same_rest_trans _ _ _ Hs1 Hs2) Hs3) as Hs.
    eapply same_rest_trans; [|exact Hs5]. destruct Hs as [? ? ? ? Hlg]. split; try done. cbn. by rewrite Hlg.
Qed.

(** ** Recovery *)

Lemma read_blocks_spec bs d n : ∀ t s L,
  header bs d → loggable bs → (t + n = length bs)%nat →
  lh_block (lg_lh (k_log s)) = L → length L = Z.to_nat LOGBLOCKS → take t L = take t bs →
  runs (read_blocks n (Z.of_nat t) d) s (λ _ s', ∃ L',
    s' = with_log (log_with_lh (mk_logheader (lh_n (lg_lh (k_log s))) L') (k_log s)) s ∧
    length L' = Z.to_nat LOGBLOCKS ∧ take (length bs) L' = bs).
Proof.
  induction n as [|n IH]; intros t s L Hh [Hnd Hr Hl] Htn HL HLlen Htake; cbn [read_blocks].
  { apply runs_ret. exists L. ands; [|done|]. 2: { replace (length bs) with t by lia. rewrite Htake, take_ge by lia. done. }
    subst L. destruct s as [???????? l]. destruct l as [?????[]]. done. }
  destruct (lookup_lt_is_Some_2 bs t) as [b Hb]; [lia|]. destruct Hh as [Hn Hblk]. rewrite (Hblk t b Hb).
  destruct (Hr b (list_elem_of_lookup_2 _ _ _ Hb)) as [? _]. rewrite s32_small by lia.
  apply runs_bind. unfold set_log_block. apply runs_bind, runs_gets. cbn [fst].
  rewrite (proj2 (Z.leb_le 0 _)), (proj2 (Z.ltb_lt _ LOGBLOCKS)) by lia. cbn [andb]. apply runs_modify.
  replace (Z.of_nat t + 1) with (Z.of_nat (S t)) by lia. rewrite HL, Nat2Z.id.
  unfold LOGBLOCKS, MAXOPBLOCKS in *.
  eapply runs_mono; [apply (IH (S t) _ (<[t:=b]> L)); [by split|by split|lia|done|by rewrite length_insert|]|].
  - rewrite (take_S_r _ _ b), (take_S_r _ _ b) by (done || (apply list_lookup_insert_eq; lia)).
    rewrite take_insert_ge by lia. by rewrite Htake.
  - intros _ s' (L' & -> & HL' & Ht'). exists L'. done.
Qed.

(** The header decides what is installed. *)
Lemma read_head_spec bs s V :
  bio_inv dev pid s V (λ _, 0) ∅ → loggable bs → header bs (V st) →
  lg_dev (k_log s) = dev → lg_start (k_log s) = st → length (lh_block (lg_lh (k_log s))) = Z.to_nat LOGBLOCKS →
  (1 < length (bufs s))%nat →
  runs read_head s (λ _ s', bio_inv dev pid s' V (λ _, 0) ∅ ∧ log_is dev st bs s' ∧ same_disk s s' ∧
    ∃ L, length L = Z.to_nat LOGBLOCKS ∧
      same_rest (with_log (log_with_lh (mk_logheader (Z.of_nat (length bs)) L) (k_log s)) s) s').
Proof.
  intros Hi Hlb Hh Ed Es Hlen Hl1. pose proof Hlb as [Hnd Hr Hl]. unfold read_head. apply runs_bind, runs_gets.
  rewrite Ed, Es, !u32_small by lia. apply runs_bind.
  eapply runs_mono; [apply (bread_spec dev pid s V _ ∅ st Hi); [set_solver| |lia]|].
  { right. exists []. split; [intros; lia|cbn; lia]. }
  intros i s1 (Hi1 & Hb1 & _ & Hs1 & Hd1). apply runs_bind.
  eapply (runs_buf dev pid s1 V _ _ i st); [exact Hi1|exact Hb1|]. intros b Hb _ _ _ Hdata. rewrite Hdata.
  destruct Hh as [Hn Hblk]. unfold LOGBLOCKS, MAXOPBLOCKS in *. rewrite Hn, s32_small, Nat2Z.id by lia.
  apply runs_bind, runs_set_log_n. apply runs_bind. set (s2 := with_log _ s1).
  eapply runs_mono; [apply (read_blocks_spec bs (V st) (length bs) 0 s2 (lh_block (lg_lh (k_log s1))))|].
  1-6: first [done|by split|by rewrite (sm_log _ _ Hs1)].
  intros _ s3 (L' & -> & HL' & Ht').
  assert (Hi3 : bio_inv dev pid (with_log (log_with_lh (mk_logheader (lh_n (lg_lh (k_log s2))) L') (k_log s2)) s2) V
    (upd (λ _, 0) st (0 + 1)) ({[st]} ∪ ∅)) by (by apply bio_inv_log, bio_inv_log).
  eapply runs_mono; [apply (brelse_spec dev pid _ _ _ _ i st Hi3); [exact Hb1|set_solver|]|].
  { intros _. cbn. destruct Hd1 as [-> _]. by apply Hi. }
  intros _ s4 (Hi4 & _ & Hs4 & Hd4). ands.
  - eapply bio_inv_ext; [exact Hi4|done| |set_solver]. intros x. rewrite upd_eq. unfold upd. by case_decide.
  - eapply log_is_same; [exact Hs4|]. split; cbn; rewrite ?(sm_log _ _ Hs1); try done.
    exists (drop (length bs) L'). by rewrite <-Ht' at 1; rewrite take_drop.
  - destruct Hd1, Hd4. split; cbn in *; congruence.
  - exists L'. split; [done|]. eapply same_rest_trans; [|exact Hs4]. destruct Hs1 as [? ? ? ? Hlg]. split; try done.
    cbn. by rewrite Hlg.
Qed.

Lemma recover_spec bs s :
  bio_inv dev pid s (disk_at (k_disk s)) (λ _, 0) ∅ → loggable bs → header bs (disk_at (k_disk s) st) →
  lg_dev (k_log s) = dev → lg_start (k_log s) = st → length (lh_block (lg_lh (k_log s))) = Z.to_nat LOGBLOCKS →
  (1 < length (bufs s))%nat →
  runs recover_from_log s (λ _ s', ∃ hb0 L, header [] hb0 ∧
    k_disk s' = put_all (install_writes st bs (disk_at (k_disk s)) 0 ++ [(st, hb0)]) (k_disk s) ∧
    k_writes s' = k_writes s ++ install_writes st bs (disk_at (k_disk s)) 0 ++ [(st, hb0)] ∧
    bio_inv dev pid s' (disk_at (k_disk s')) (λ _, 0) ∅ ∧ length L = Z.to_nat LOGBLOCKS ∧
    same_rest (with_log (log_with_lh (mk_logheader 0 L) (k_log s)) s) s').
Proof.
  intros Hi Hlb Hh Ed Es Hlen Hl1. pose proof Hlb as [Hnd Hr Hl]. unfold recover_from_log. apply runs_bind.
  eapply runs_mono; [by apply (read_head_spec bs s)|]. intros _ s1 (Hi1 & Hlog1 & [Hd1 Hk1] & L & HL & Hs1).
  assert (Hlen1 : length (bufs s1) = length (bufs s)) by exact (sm_len _ _ Hs1).
  apply runs_bind. unfold install_trans. apply runs_bind, runs_gets. rewrite (li_n _ _ _ _ Hlog1), Nat2Z.id.
  eapply runs_mono; [apply (install_loop_spec dev pid st bs Hdev Hst Hnd Hr Hl true (length bs) 0 s1 _ _ Hi1 Hlog1)|];
    [intros x; by case_decide|done|by rewrite Hlen1|done|].
  intros _ s2 (Hi2 & Hs2 & Hd2 & Hk2). pose proof (log_is_same _ _ _ _ _ Hs2 Hlog1) as [E1 E2 E3 E4].
  apply runs_bind, runs_set_log_n. set (s3 := with_log _ s2).
  assert (Hlog3 : log_is dev st [] s3) by (split; [done|done|done|by eexists]).
  eapply runs_mono; [eapply (write_head_spec dev pid st [] Hdev Hst (lb_nodup _ loggable_nil) (lb_range _ loggable_nil) (lb_len _ loggable_nil) s3 _ _ (bio_inv_log _ _ _ _ _ Hi2) Hlog3 eq_refl)|].
  { exists []. cbn. rewrite (sm_len _ _ Hs2), Hlen1. split; lia. }
  intros _ s4 (hb0 & Hhb0 & Hi4 & Hs4 & Hd4 & Hk4). exists hb0, L. ands; [done| | | |done|].
  - rewrite Hd4. change (k_disk s3) with (k_disk s2). by rewrite Hd2, Hd1, put_all_app.
  - rewrite Hk4. change (k_writes s3) with (k_writes s2). by rewrite Hk2, Hk1, app_assoc.
  - eapply bio_inv_ext; [exact Hi4| |done|done]. intros x. by apply Hi4.
  - eapply same_rest_trans; [|exact Hs4]. pose proof (same_rest_trans _ _ _ Hs1 Hs2) as Hs. destruct Hs as [? ? ? ? Hlg].
    split; try done. cbn. by rewrite Hlg.
Qed.
End commit.

(** ** Crashes *)

(** Zeroed static variables. *)
Definition zero_lock : spinlock := mk_spinlock EmptyString 0 None.
Definition zero_buf : buf := mk_buf 0 0 0 (mk_sleeplock 0 zero_lock EmptyString 0) 0 ∅.

Definition zero_inode : inode :=
  mk_inode 0 0 0 (mk_sleeplock 0 zero_lock EmptyString 0) 0 0 0 0 0 0 (replicate (Z.to_nat (NDIRECT + 1)) 0).
Definition zero_file : file := mk_file FD_NONE 0 0 0 0 0 0 0.

(** The machine [s] after a reboot with disk [d]; the superblock has been
    read. *)
Definition reboot (d : gmap Z blk) (s : kfs) : kfs :=
  mk_kfs (k_hart s) (k_pid s) None [] [] d [] (mk_bcache zero_lock (replicate (Z.to_nat NBUF) zero_buf) [])
    (mk_log zero_lock 0 0 0 0 (mk_logheader 0 (replicate (Z.to_nat LOGBLOCKS) 0)))
    (k_sb s) (mk_itable zero_lock (replicate (Z.to_nat NINODE) zero_inode))
    (mk_ftable zero_lock (replicate (Z.to_nat NFILE) zero_file)) ∅ (k_vm s) [].

Lemma boot_inv dev pid s d :
  dev ≠ 0 → k_pid s = pid →
  runs binit (reboot d s) (λ _ s', bio_inv dev pid s' (disk_at d) (λ _, 0) ∅ ∧ k_disk s' = d ∧
    k_log s' = k_log (reboot d s) ∧ k_sb s' = k_sb s ∧ length (bufs s') = Z.to_nat NBUF ∧ same_sys (reboot d s) s' ∧ k_writes s' = []).
Proof.
  intros Hdev Hpid. unfold binit. apply runs_bind, runs_modify. apply runs_bind. eapply runs_eq; [reflexivity|].
  apply runs_modify. cbn [k_bc bc_buf bc_lock with_bc reboot k_disk k_log k_sb].
  ands; [|done|done|done|by rewrite length_fmap, length_replicate|split; cbn; try done; by rewrite length_fmap|done].
  split; cbn [k_bc bc_buf bc_lock with_bc reboot k_disk k_log k_sb bc_lru]; try done.
  - rewrite length_fmap, length_replicate. symmetry. apply (Permutation_rev (seq 0 (Z.to_nat NBUF))).
  - intros i b Hb Hd. rewrite list_lookup_fmap in Hb. apply fmap_Some in Hb as (b0 & Hb0 & ->).
    apply lookup_replicate in Hb0 as [-> _]. cbn in Hd. done.
  - intros i b Hb Hd. rewrite list_lookup_fmap in Hb. apply fmap_Some in Hb as (b0 & Hb0 & ->).
    apply lookup_replicate in Hb0 as [-> _]. done.
  - intros i j b b' Hb Hb' Hd _. rewrite list_lookup_fmap in Hb. apply fmap_Some in Hb as (b0 & Hb0 & ->).
    apply lookup_replicate in Hb0 as [-> _]. cbn in Hd. done.
Qed.

Section crash.
Context (dev pid st : Z).
Hypotheses (Hdev : 0 < dev < 2 ^ 31) (Hst : 0 ≤ st < 2 ^ 30).
#[local] Abbreviation loggable := (loggable st).

(** A block that is not part of the log. *)
Definition home (x : Z) : Prop := x < st ∨ st + LOGBLOCKS < x.

(** A state with [out] running operations that have logged the blocks
    [bs]; the process holds the buffers [H]. *)
Record txn (s : kfs) (V : Z → blk) (R : Z → Z) (H : gset Z) (out : Z) (bs : list Z) : Prop := {
  tx_bio : bio_inv dev pid s V R H;
  tx_log : log_is dev st bs s;
  tx_len : length (lh_block (lg_lh (k_log s))) = Z.to_nat LOGBLOCKS;
  tx_lock : unlocked (lg_lock (k_log s));
  tx_out : lg_outstanding (k_log s) = out;
  tx_com : lg_committing (k_log s) = 0;
  tx_ok : loggable bs;
}.

(** The state between two system calls: nothing is logged or pinned, and
    the log on the disk is empty. *)
Record idle (s : kfs) : Prop := {
  id_txn : txn s (disk_at (k_disk s)) (λ _, 0) ∅ 0 [];
  id_clear : header [] (disk_at (k_disk s) st);
  id_sb : sb_logstart (k_sb s) = st;
  id_bufs : length (bufs s) = Z.to_nat NBUF;
}.

(** Booting with a disk whose log contains [bs]. *)
Lemma boot_writes bs s d :
  k_pid s = pid → sb_logstart (k_sb s) = st → loggable bs → header bs (disk_at d st) →
  runs (binit;; initlog dev) (reboot d s) (λ _ s', idle s' ∧ same_sys (reboot d s) s' ∧ ∃ hb0, header [] hb0 ∧
    k_disk s' = put_all (install_writes st bs (disk_at d) 0 ++ [(st, hb0)]) d ∧
    k_writes s' = install_writes st bs (disk_at d) 0 ++ [(st, hb0)]).
Proof.
  intros Hpid Hsb Hlb Hh. apply runs_bind.
  eapply runs_mono; [apply (boot_inv dev pid s d); [lia|done]|].
  intros _ s1 (Hi1 & Hd1 & Hlog1 & Hsb1 & Hl1 & Hs1 & Hk1). unfold initlog. apply runs_bind, runs_modify.
  apply runs_bind, runs_gets. cbn [k_sb with_log]. rewrite Hsb1, Hsb. apply runs_bind, runs_modify. rewrite s32_small by lia.
  eapply runs_mono; [eapply (recover_spec dev pid st)|]; [lia|done| |exact Hlb|..].
  - apply bio_inv_log, bio_inv_log. cbn. by rewrite Hd1.
  - cbn. by rewrite Hd1.
  - done.
  - done.
  - cbn. by rewrite Hlog1.
  - cbn. rewrite Hl1. unfold NBUF, MAXOPBLOCKS. lia.
  - intros _ s' (hb0 & L & Hh0 & Hd' & Hk' & Hi' & HL & Hs'). ands.
    + split; [split| | |]; try done.
      * split; rewrite (sm_log _ _ Hs'); try done. by exists L.
      * by rewrite (sm_log _ _ Hs').
      * by rewrite (sm_log _ _ Hs').
      * rewrite (sm_log _ _ Hs'). cbn. by rewrite Hlog1.
      * rewrite (sm_log _ _ Hs'). cbn. by rewrite Hlog1.
      * apply loggable_nil.
      * rewrite Hd', put_all_app. cbn. unfold disk_at at 1. by rewrite lookup_insert_eq.
      * rewrite (sm_sb _ _ Hs'). cbn. by rewrite Hsb1.
      * rewrite (sm_len _ _ Hs'). exact Hl1.
    + transitivity s1; [done|]. apply same_rest_sys in Hs' as []. by split.
    + exists hb0. rewrite Hd', Hk'. cbn. by rewrite Hd1, Hk1.
Qed.

Lemma boot_recovers bs s d :
  k_pid s = pid → sb_logstart (k_sb s) = st → loggable bs → header bs (disk_at d st) →
  runs (binit;; initlog dev) (reboot d s) (λ _ s', idle s' ∧ ∀ x, home x →
    disk_at (k_disk s') x = updl (disk_at d) (install_writes st bs (disk_at d) 0) x).
Proof.
  intros Hpid Hsb Hlb Hh. eapply runs_mono; [by apply (boot_writes bs)|]. intros _ s' (Hid & _ & hb0 & _ & Hd' & _).
  split; [done|]. intros x Hx. rewrite Hd', disk_put_all, updl_app. cbn. apply upd_ne.
  unfold home, LOGBLOCKS, MAXOPBLOCKS in Hx. lia.
Qed.

(** Blocks outside the log do not see the first part of a commit. *)
Lemma log_writes_home bs V W x k :
  loggable bs → home x → (k ≤ length bs)%nat →
  updl W (take k (log_writes st bs V 0)) x = W x.
Proof.
  intros Hlb Hx Hk. apply updl_notin. intros Hin. rewrite fmap_take in Hin.
  assert (x ∈ (log_writes st bs V 0).*1) as (i & Hi & ->)%log_writes_slots.
  { rewrite <-(take_drop k (_.*1)). apply elem_of_app. by left. }
  pose proof (lb_len _ _ Hlb). unfold home, slot_of, LOGBLOCKS, MAXOPBLOCKS in *. lia.
Qed.

Lemma length_log_writes bs V : length (log_writes st bs V 0) = length bs.
Proof. unfold log_writes. by rewrite length_imap, drop_0. Qed.

Lemma home_writes_fst bs V : (home_writes bs V).*1 = bs.
Proof.
  unfold home_writes. rewrite <-list_fmap_compose. etransitivity; [|apply list_fmap_id]. by apply list_fmap_ext.
Qed.

Lemma home_in bs b : loggable bs → b ∈ bs → home b.
Proof. intros Hlb Hb. by destruct (lb_range _ _ Hlb b Hb). Qed.

Lemma home_not_st bs : loggable bs → st ∉ bs.
Proof. intros Hlb Hb. pose proof (home_in bs st Hlb Hb). unfold home, LOGBLOCKS, MAXOPBLOCKS in *. lia. Qed.

Lemma home_not_slot bs V x : loggable bs → home x → x ∉ (log_writes st bs V 0).*1.
Proof.
  intros Hlb Hx (i & Hi & ->)%log_writes_slots. pose proof (lb_len _ _ Hlb).
  unfold home, slot_of, LOGBLOCKS, MAXOPBLOCKS in *. lia.
Qed.

(** ** Crashes during recovery *)

Lemma install_writes_fst bs V : (install_writes st bs V 0).*1 = bs.
Proof.
  unfold install_writes. rewrite drop_0. apply list_eq. intros i. rewrite list_lookup_fmap, list_lookup_imap.
  by destruct (bs !! i).
Qed.

Lemma install_writes_ext bs V V' :
  (∀ i, (i < length bs)%nat → V (slot_of st i) = V' (slot_of st i)) → install_writes st bs V 0 = install_writes st bs V' 0.
Proof.
  intros HV. unfold install_writes. rewrite drop_0. apply imap_ext. intros i b Hb. cbn. by rewrite HV by (by eapply lookup_lt_Some).
Qed.

(** Installing part of the blocks, then all of them. *)
Lemma updl_again V W k x : NoDup W.*1 → updl (updl V (take k W)) W x = updl V W x.
Proof.
  intros Hnd. destruct (decide (x ∈ W.*1)) as [Hx|Hx].
  - apply list_elem_of_fmap in Hx as ([y v] & -> & Hin). cbn. by rewrite !(updl_in _ W y v).
  - rewrite !updl_notin; [done|done| |done]. rewrite fmap_take. intros Hin. apply Hx.
    rewrite <-(take_drop k (W.*1)). apply elem_of_app. by left.
Qed.

(** A crash while the log is installed: the next recovery finishes it. *)
Lemma recovery_interrupted bs s d hb0 k :
  k_pid s = pid → sb_logstart (k_sb s) = st → loggable bs → header bs (disk_at d st) → header [] hb0 →
  let W := install_writes st bs (disk_at d) 0 in
  runs (binit;; initlog dev) (reboot (put_all (take k (W ++ [(st, hb0)])) d) s) (λ _ s', idle s' ∧ ∀ x, home x →
    disk_at (k_disk s') x = updl (disk_at d) W x).
Proof.
  intros Hpid Hsb Hlb Hh Hh0 W. pose proof (install_writes_fst bs (disk_at d)) as Hfst. fold W in Hfst.
  assert (HlW : length W = length bs) by (by rewrite <-Hfst, length_fmap).
  destruct (decide (k ≤ length bs)%nat) as [Hk|Hk].
  - rewrite take_app_le by lia. set (dk := put_all _ d).
    assert (Hat : ∀ x, disk_at dk x = updl (disk_at d) (take k W) x) by (intros x; apply disk_put_all).
    assert (Hlog : ∀ x, x ∉ bs → disk_at dk x = disk_at d x).
    { intros x Hx. rewrite Hat. apply updl_notin. rewrite fmap_take, Hfst. intros Hin. apply Hx.
      rewrite <-(take_drop k bs). apply elem_of_app. by left. }
    eapply runs_mono; [apply (boot_recovers bs s dk); [done|done|done|]|].
    + by rewrite Hlog by (by apply home_not_st).
    + intros ? s' [Hid Hd]. split; [done|]. intros x Hx. rewrite Hd by done.
      rewrite (install_writes_ext bs (disk_at dk) (disk_at d)).
      * fold W. rewrite <-(updl_again (disk_at d) W k) by (rewrite Hfst; by apply Hlb). apply updl_ext. exact Hat.
      * intros i Hi. apply Hlog. by apply (slot_notin st bs Hst (lb_range _ _ Hlb) (lb_len _ _ Hlb)).
  - rewrite take_ge by (rewrite length_app, HlW; cbn; lia).
    eapply runs_mono; [apply (boot_recovers []); [done|done|apply loggable_nil|]|].
    + rewrite disk_put_all, updl_app. cbn. by rewrite upd_eq.
    + intros ? s' [Hid Hd]. split; [done|]. intros x Hx. rewrite Hd by done. cbn. rewrite disk_put_all, updl_app. cbn.
      apply upd_ne. unfold home, LOGBLOCKS, MAXOPBLOCKS in Hx. lia.
Qed.

(** The disk [d] before a commit, the contents [V] to be committed. *)
Context (bs : list Z) (V : Z → blk) (hb hb0 : blk) (d : gmap Z blk) (s : kfs).
Hypotheses (Hpid : k_pid s = pid) (Hsb : sb_logstart (k_sb s) = st) (Hlb : loggable bs)
  (Hlen : (length bs < Z.to_nat NBUF)%nat) (Hh : header bs hb) (Hh0 : header [] hb0).
Hypotheses (Hclear : header [] (disk_at d st)) (HV : ∀ x, x ∉ bs → disk_at d x = V x).

Lemma crash_before k :
  (k ≤ length bs)%nat →
  runs (binit;; initlog dev) (reboot (put_all (take k (commit_writes st bs V hb hb0)) d) s)
    (λ _ s', idle s' ∧ ∀ x, home x → disk_at (k_disk s') x = disk_at d x).
Proof.
  intros Hk. unfold commit_writes. rewrite take_app_le by (rewrite length_log_writes; lia).
  eapply runs_mono; [apply (boot_recovers []); [done|done|apply loggable_nil|]|].
  - rewrite disk_put_all, updl_notin; [done|]. rewrite fmap_take. intros Hin.
    assert (st ∈ (log_writes st bs V 0).*1) as (i & _ & E)%log_writes_slots; [|unfold slot_of in E; lia].
    rewrite <-(take_drop k (_.*1)). apply elem_of_app. by left.
  - intros ? s' [Hid Hd]. split; [done|]. intros x Hx. rewrite Hd by done. cbn. rewrite disk_put_all. by apply log_writes_home.
Qed.

Lemma home_updl W x j : x ∉ bs → updl W (take j (home_writes bs V)) x = W x.
Proof.
  intros Hx. apply updl_notin. rewrite fmap_take, home_writes_fst. intros Hin. apply Hx.
  rewrite <-(take_drop j bs). apply elem_of_app. by left.
Qed.

Lemma crash_mid j :
  runs (binit;; initlog dev)
    (reboot (put_all (log_writes st bs V 0 ++ [(st, hb)] ++ take j (home_writes bs V)) d) s)
    (λ _ s', idle s' ∧ ∀ x, home x → disk_at (k_disk s') x = V x).
Proof.
  set (dk := put_all _ d).
  assert (Hat : ∀ x, disk_at dk x = updl (upd (updl (disk_at d) (log_writes st bs V 0)) st hb) (take j (home_writes bs V)) x).
  { intros x. unfold dk. rewrite disk_put_all, !updl_app. done. }
  assert (Hslot : ∀ i b, bs !! i = Some b → disk_at dk (slot_of st i) = V b).
  { intros i b Hb. rewrite Hat, home_updl; [|apply (slot_notin st bs Hst (lb_range _ _ Hlb) (lb_len _ _ Hlb)); by eapply lookup_lt_Some].
    rewrite upd_ne by (unfold slot_of; lia). apply updl_in; [apply log_writes_nodup|by apply log_writes_in]. }
  eapply runs_mono; [apply (boot_recovers bs); [done|done|done|]|].
  - rewrite Hat, home_updl by (by apply home_not_st). by rewrite upd_eq.
  - intros ? s' [Hid Hd]. split; [done|]. intros x Hx. rewrite Hd by done.
    assert (E : install_writes st bs (disk_at dk) 0 = home_writes bs V).
    { unfold install_writes, home_writes. rewrite drop_0. apply list_eq. intros i.
      rewrite list_lookup_imap, list_lookup_fmap. destruct (bs !! i) as [b|] eqn:E; [|done]. cbn. by rewrite (Hslot i b). }
    rewrite E. destruct (decide (x ∈ bs)) as [Hin|Hnin].
    + apply updl_in; [rewrite home_writes_fst; by apply Hlb|]. by apply (list_elem_of_fmap_2 (λ b, (b, V b))).
    + rewrite updl_notin by (by rewrite home_writes_fst). rewrite Hat, home_updl by done.
      rewrite upd_ne by (unfold home, LOGBLOCKS, MAXOPBLOCKS in Hx; lia).
      rewrite updl_notin by (by apply home_not_slot). by apply HV.
Qed.

Lemma crash_after :
  runs (binit;; initlog dev) (reboot (put_all (commit_writes st bs V hb hb0) d) s)
    (λ _ s', idle s' ∧ ∀ x, home x → disk_at (k_disk s') x = V x).
Proof.
  assert (Hat : ∀ x, disk_at (put_all (commit_writes st bs V hb hb0) d) x =
    upd (updl (upd (updl (disk_at d) (log_writes st bs V 0)) st hb) (home_writes bs V)) st hb0 x).
  { intros x. unfold commit_writes. rewrite disk_put_all, !updl_app. done. }
  eapply runs_mono; [apply (boot_recovers []); [done|done|apply loggable_nil|]|].
  - by rewrite Hat, upd_eq.
  - intros ? s' [Hid Hd]. split; [done|]. intros x Hx. rewrite Hd by done. cbn.
    assert (x ≠ st) as Hne by (unfold home, LOGBLOCKS, MAXOPBLOCKS in Hx; lia). rewrite Hat, upd_ne by done.
    destruct (decide (x ∈ bs)) as [Hin|Hnin].
    + apply updl_in; [rewrite home_writes_fst; by apply Hlb|]. by apply (list_elem_of_fmap_2 (λ b, (b, V b))).
    + rewrite updl_notin by (by rewrite home_writes_fst). rewrite upd_ne by done.
      rewrite updl_notin by (by apply home_not_slot). by apply HV.
Qed.

(** Wherever the writes of a commit are cut, recovery yields the old
    contents or the new ones, and the header decides which. *)
Lemma crash_spec k :
  runs (binit;; initlog dev) (reboot (put_all (take k (commit_writes st bs V hb hb0)) d) s)
    (λ _ s', idle s' ∧ ∀ x, home x → disk_at (k_disk s') x = if decide (k ≤ length bs)%nat then disk_at d x else V x).
Proof.
  destruct (decide (k ≤ length bs)%nat) as [Hk|Hk]; [by apply crash_before|].
  destruct (decide (k ≤ 2 * length bs + 1)%nat) as [Hk2|Hk2].
  - replace (take k (commit_writes st bs V hb hb0)) with
      (log_writes st bs V 0 ++ [(st, hb)] ++ take (k - length bs - 1) (home_writes bs V)); [apply crash_mid|].
    assert (El : length (log_writes st bs V 0 ++ [(st, hb)]) = (length bs + 1)%nat)
      by (by rewrite length_app, length_log_writes).
    unfold commit_writes. rewrite !app_assoc. rewrite take_app_le.
    + rewrite take_app_ge by lia. rewrite El. do 2 f_equal. lia.
    + rewrite length_app, El. unfold home_writes. rewrite length_fmap. lia.
  - rewrite take_ge; [apply crash_after|]. unfold commit_writes. rewrite !length_app, length_log_writes. unfold home_writes.
    rewrite length_fmap. cbn. lia.
Qed.
End crash.
