(* ===== verification/LogTxn.v ===== *)
(** * Log: transactions *)

From S2P Require Import Prelude Spinlock Mem FsState Bio Log BioSpec LogSpec LogCrash.

Section steps.
Implicit Types (s : kfs) (Q : unit → kfs → Prop).

Definition log_locked s : kfs := with_log (log_with_lock (held_by (k_hart s) (lg_lock (k_log s))) (k_log s)) s.

Lemma runs_acquire_log s Q : unlocked (lg_lock (k_log s)) → Q tt (log_locked s) → runs acquire_log s Q.
Proof.
  intros Hu HQ. eexists _, _. split; [|exact HQ]. unfold acquire_log. rewrite M_bind_unfold. cbn.
  rewrite acquire_unlocked by done. reflexivity.
Qed.

Lemma runs_release_log s l Q :
  unlocked l → lg_lock (k_log s) = held_by (k_hart s) l →
  Q tt (with_log (log_with_lock l (k_log s)) s) → runs release_log s Q.
Proof.
  intros Hu Hl HQ. eexists _, _. split; [|exact HQ]. unfold release_log. rewrite M_bind_unfold. cbn.
  rewrite Hl, release_held by done. reflexivity.
Qed.
End steps.

Section txn.
Context (dev pid st : Z).
Hypotheses (Hdev : 0 < dev < 2 ^ 31) (Hst : 0 ≤ st < 2 ^ 30).
#[local] Abbreviation loggable := (loggable st).
#[local] Abbreviation txn := (txn dev pid st).
#[local] Abbreviation idle := (idle dev pid st).

Lemma txn_same s s' V V' R R' H H' out bs :
  txn s V R H out bs → bio_inv dev pid s' V' R' H' → same_rest s s' → txn s' V' R' H' out bs.
Proof.
  intros [T1 T2 T3 T4 T5 T6 T7] Hi Hs. pose proof (log_is_same _ _ _ _ _ Hs T2). by split; rewrite ?(sm_log _ _ Hs).
Qed.

Lemma begin_op_spec s V R :
  txn s V R ∅ 0 [] → runs begin_op s (λ _ s', txn s' V R ∅ 1 [] ∧ k_disk s' = k_disk s ∧ k_writes s' = k_writes s ∧
    same_sys s s' ∧ bufs s' = bufs s).
Proof.
  intros [T1 T2 T3 T4 T5 T6 T7]. unfold begin_op. apply runs_bind, runs_acquire_log; [done|].
  apply runs_bind, runs_gets. cbn [k_log with_log log_locked log_with_lock lg_committing lg_lh lg_outstanding].
  rewrite T5, T6, (li_n _ _ _ _ T2). change (Z.of_nat (length [])) with 0.
  change (LOGBLOCKS <? 0 + (0 + 1) * MAXOPBLOCKS) with false. change (negb (0 =? 0)) with false. cbn iota.
  apply runs_bind, runs_modify. apply (runs_release_log _ (lg_lock (k_log s))); [done|done|].
  ands; try done. split; try done; [by do 3 apply bio_inv_log|]. destruct T2. by split.
Qed.

Lemma absorb_spec bs s x n : ∀ t,
  log_is dev st bs s → loggable bs → (t + n = length bs)%nat → (x ∉ take t bs) →
  runs (absorb_loop n (Z.of_nat t) x) s (λ i s', s' = s ∧ ∃ k, i = Z.of_nat k ∧
    (bs !! k = Some x ∨ (k = length bs ∧ (x ∉ bs)))).
Proof.
  induction n as [|n IH]; intros t Hlog Hlb Htn Hx; cbn [absorb_loop].
  { apply runs_ret. split; [done|]. exists t. split; [done|]. right. split; [lia|]. by rewrite take_ge in Hx by lia. }
  destruct (lookup_lt_is_Some_2 bs t) as [b Hb]; [lia|].
  apply runs_bind, (runs_log_block dev st bs s t b); [done|done|].
  destruct (lb_range _ _ Hlb b (list_elem_of_lookup_2 _ _ _ Hb)) as [? _]. rewrite u32_small by lia.
  destruct (Z.eqb_spec b x) as [->|Hne].
  - apply runs_ret. split; [done|]. exists t. auto.
  - replace (Z.of_nat t + 1) with (Z.of_nat (S t)) by lia. apply IH; [done|done|lia|].
    rewrite (take_S_r _ _ _ Hb), elem_of_app, elem_of_cons, elem_of_nil. intros [?|[?|?]]; done.
Qed.

Lemma loggable_snoc bs x :
  loggable bs → x ∉ bs → home st x → 0 ≤ x < 2 ^ 31 → Z.of_nat (length bs) < LOGBLOCKS → loggable (bs ++ [x]).
Proof.
  intros [Q1 Q2 Q3] Hnin Hh Hx Hl. split.
  - apply list.NoDup_app. ands; [done| |apply NoDup_singleton]. intros y Hy [->|Hn]%elem_of_cons; [done|by apply elem_of_nil in Hn].
  - intros y [Hy|Hy]%elem_of_app; [by apply Q2|]. apply elem_of_cons in Hy as [->|Hy]; [done|by apply elem_of_nil in Hy].
  - rewrite length_app. cbn. lia.
Qed.

(** [log_write] of a held buffer: a block that is in the log already is
    absorbed, another one is added and pinned. *)
Lemma log_write_spec s V R H i x bs :
  txn s V R H 1 bs → is_buf dev s i x → x ∈ H → home st x → 0 ≤ x < 2 ^ 31 → R x + 1 < 2 ^ 31 →
  Z.of_nat (length bs) < LOGBLOCKS →
  runs (log_write i) s (λ _ s', ∃ bs' R', txn s' V R' H 1 bs' ∧ is_buf dev s' i x ∧
    (if decide (x ∈ bs) then bs' = bs ∧ R' = R else bs' = bs ++ [x] ∧ R' = upd R x (R x + 1)) ∧
    same_disk s s' ∧ same_sys s s').
Proof.
  intros [T1 T2 T3 T4 T5 T6 T7] Hib HxH Hhome Hxr HRx Hlen. pose proof Hib as (b & Hb & Hbd & Hbx & Hbv).
  unfold log_write. apply runs_bind, runs_acquire_log; [done|]. apply runs_bind, runs_gets.
  cbn [k_log with_log log_locked log_with_lock lg_committing lg_lh lg_outstanding]. rewrite (li_n _ _ _ _ T2), T5.
  rewrite (proj2 (Z.leb_gt LOGBLOCKS _)) by done. change (1 <? 1) with false. cbn iota.
  assert (Tl : log_is dev st bs (log_locked s)) by (destruct T2; by split).
  apply runs_bind, (runs_get_buf i b); [done|]. rewrite Hbx. apply runs_bind. rewrite Nat2Z.id.
  eapply runs_mono; [apply (absorb_spec bs _ x (length bs) 0 Tl T7 eq_refl); by apply not_elem_of_nil|].
  intros j s' (-> & k & -> & Hk). rewrite s32_small by lia. destruct T2 as [E1 E2 E3 (tl & E4)].
  assert (Hklen : (k ≤ length bs)%nat) by (destruct Hk as [?%lookup_lt_Some|[-> _]]; lia).
  apply runs_bind. unfold set_log_block. apply runs_bind, runs_gets.
  rewrite (proj2 (Z.leb_le 0 _)), (proj2 (Z.ltb_lt _ LOGBLOCKS)) by lia. cbn [andb]. apply runs_modify. rewrite Nat2Z.id.
  cbn [k_log with_log log_locked log_with_lock log_with_lh lg_lh lg_outstanding lh_n lh_block]. rewrite E4, E3.
  destruct Hk as [Hk|[-> Hnin]].
  - pose proof (lookup_lt_Some _ _ _ Hk).
    rewrite (proj2 (Z.eqb_neq _ _)) by lia. apply runs_bind, runs_ret.
    apply (runs_release_log _ (lg_lock (k_log s))); [done|done|]. exists bs, R. rewrite decide_True by (by eapply list_elem_of_lookup_2). ands; try done.
    rewrite insert_app_l, list_insert_id by done. split; try done; [by do 3 apply bio_inv_log| |cbn; by rewrite <-E4].
    split; cbn; try done. by exists tl.
  - rewrite Z.eqb_refl. apply runs_bind. apply runs_bind.
    assert (Hi1 : ∀ s1, bio_inv dev pid s V R H → k_bc s1 = k_bc s → k_disk s1 = k_disk s → k_pid s1 = k_pid s →
      bio_inv dev pid s1 V R H) by (intros s1 [] Ebc Ed Ep; split; rewrite ?Ebc, ?Ed, ?Ep; done).
    set (s2 := with_log _ (log_locked s)).
    apply (repin_spec dev pid s2 V R H i x 1 b); [by apply Hi1|done|done|pose proof (bv_held _ _ _ _ _ _ T1 x HxH); lia|].
    intros s3 Hi3 Hk3 Hs3 Hd3. apply runs_set_log_n.
    apply (runs_release_log _ (lg_lock (k_log s))); [done|cbn; by rewrite (sm_log _ _ Hs3), (sm_hart _ _ Hs3)|].
    exists (bs ++ [x]), (upd R x (R x + 1)). rewrite decide_False by done. cbn [k_log with_log log_with_lock log_with_lh lg_lh lh_block]. rewrite (sm_log _ _ Hs3).
    assert (Hnew : <[length bs:=x]> (bs ++ tl) = (bs ++ [x]) ++ tail tl).
    { rewrite insert_app_r_alt, Nat.sub_diag by lia. rewrite E4, length_app in T3. destruct tl as [|y tl]; [cbn in T3; unfold LOGBLOCKS, MAXOPBLOCKS in *; lia|].
      by rewrite <-app_assoc. }
    ands; try done.
    + split; try done; [by do 2 apply bio_inv_log| | |].
      * split; cbn; rewrite ?(sm_log _ _ Hs3); cbn; try done; [rewrite length_app; cbn; lia|]. rewrite Hnew. by eexists.
      * cbn. rewrite length_insert, <-E4. done.
      * by apply loggable_snoc.
    + by apply Hk3.
    + apply same_rest_sys in Hs3 as []. by split.
Qed.

(** ** Updates *)

(** The use of the log that its comment describes: read a block, change
    it, log it, release it. *)
Definition update_block (x : Z) (f : blk → blk) : M kfs unit :=
  i ← bread dev x;
  b ← get_buf i;
  set_buf i (buf_with_data (f (b_data b)) b);;
  log_write i;;
  brelse i.

Fixpoint update_blocks (us : list (Z * (blk → blk))) : M kfs unit :=
  match us with
  | [] => mret tt
  | (x, f) :: us => update_block x f;; update_blocks us
  end.

(** What a sequence of updates does to the contents, and the blocks it
    logs. *)
Definition updates (V : Z → blk) (us : list (Z * (blk → blk))) : Z → blk :=
  foldl (λ V '(x, f), upd V x (f (V x))) V us.

Fixpoint absorbed (bs : list Z) (xs : list Z) : list Z :=
  match xs with
  | [] => bs
  | x :: xs => absorbed (if decide (x ∈ bs) then bs else bs ++ [x]) xs
  end.

Lemma length_absorbed xs : ∀ bs, (length (absorbed bs xs) ≤ length bs + length xs)%nat.
Proof.
  induction xs as [|x xs IH]; intros bs; cbn; [lia|]. pose proof (IH (if decide (x ∈ bs) then bs else bs ++ [x])).
  case_decide; rewrite ?length_app in *; cbn in *; lia.
Qed.

Lemma elem_of_absorbed xs y : ∀ bs, y ∈ absorbed bs xs ↔ y ∈ bs ∨ y ∈ xs.
Proof.
  induction xs as [|x xs IH]; intros bs; cbn; [rewrite elem_of_nil; tauto|]. rewrite IH, elem_of_cons.
  case_decide; rewrite ?elem_of_app, ?elem_of_cons, ?elem_of_nil; [|tauto]. split; [tauto|]. intros [?|[->|?]]; auto.
Qed.

(** Inside an operation that has logged [bs], with no buffer held, and with
    the buffer [i] of block [x] held. *)
Definition in_op (s : kfs) (V : Z → blk) (bs : list Z) : Prop :=
  ∃ R, txn s V R ∅ 1 bs ∧ pinned bs 0 R.

Definition in_op_held (s : kfs) (V : Z → blk) (bs : list Z) (x : Z) (i : nat) : Prop :=
  ∃ R, txn s V (upd R x (R x + 1)) {[x]} 1 bs ∧ pinned bs 0 R ∧ is_buf dev s i x ∧
    (x ∉ bs → disk_at (k_disk s) x = V x).

Lemma bread_op s V bs x :
  in_op s V bs → (length bs < length (bufs s))%nat →
  runs (bread dev x) s (λ i s', in_op_held s' V bs x i ∧ same_sys s s' ∧ same_disk s s').
Proof.
  intros (R & HT & HR) Hroom. assert (HRx : 0 ≤ R x ≤ 1) by (rewrite HR; case_decide; lia).
  pose proof (tx_bio _ _ _ _ _ _ _ _ _ HT) as Hi.
  eapply runs_mono; [apply (bread_spec dev pid s V R ∅ x Hi); [set_solver|by eapply pinned_room|lia]|].
  intros i s1 (Hi1 & Hb1 & _ & Hs1 & Hd1). ands; [|by apply same_rest_sys|done]. exists R. ands; [|done|done|].
  - eapply txn_same; [exact HT| |exact Hs1]. eapply bio_inv_ext; [exact Hi1|done|done|set_solver].
  - intros Hx. destruct Hd1 as [-> _]. apply Hi. rewrite HR, drop_0. by apply decide_False.
Qed.

(** The contents of the held buffer. *)
Lemma runs_get_op s V bs x i (Q : buf → kfs → Prop) :
  in_op_held s V bs x i → (∀ b, b_data b = V x → bufs s !! i = Some b → Q b s) → runs (get_buf i) s Q.
Proof.
  intros (R & HT & _ & Hb & _) HQ. eapply (runs_buf dev pid s); [exact (tx_bio _ _ _ _ _ _ _ _ _ HT)|exact Hb|].
  intros. by apply HQ.
Qed.

Lemma brelse_op s V bs x i :
  in_op_held s V bs x i →
  runs (brelse i) s (λ _ s', in_op s' V bs ∧ same_sys s s' ∧ same_disk s s').
Proof.
  intros (R & HT & HR & Hb & Hclean). pose proof (tx_bio _ _ _ _ _ _ _ _ _ HT) as Hi.
  assert (HRx : 0 ≤ R x ≤ 1 ∧ (R x = 0 → x ∉ bs)) by (rewrite HR, drop_0; case_decide; split; [lia|done|lia|done]).
  eapply runs_mono; [apply (brelse_spec dev pid s V _ _ i x Hi Hb); [set_solver|]|].
  { rewrite upd_eq. intros. apply Hclean, HRx. lia. }
  intros _ s' (Hi' & _ & Hs & Hd). ands; [|by apply same_rest_sys|done]. exists R. split; [|done].
  eapply txn_same; [exact HT| |exact Hs]. eapply bio_inv_ext; [exact Hi'|done| |set_solver].
  intros y. unfold upd. case_decide; [subst|done]. rewrite decide_True by done. lia.
Qed.

(** Change, log and release. *)
Lemma finish_op s V bs x i f :
  in_op_held s V bs x i → home st x → 0 ≤ x < 2 ^ 31 → Z.of_nat (length bs) < LOGBLOCKS →
  runs (b ← get_buf i; set_buf i (buf_with_data (f (b_data b)) b);; log_write i;; brelse i) s
    (λ _ s', in_op s' (upd V x (f (V x))) (absorbed bs [x]) ∧ same_sys s s' ∧ same_disk s s').
Proof.
  intros Hh Hhome Hxr Hlen. apply runs_bind. apply (runs_get_op s V bs x i); [done|]. intros b Hdata Hb.
  destruct Hh as (R & HT & HR & Hb1 & _). rewrite Hdata.
  assert (HRx : 0 ≤ R x ≤ 1) by (rewrite HR; case_decide; lia). apply runs_bind.
  eapply (set_data_spec dev pid s V _ _ i x b); [exact (tx_bio _ _ _ _ _ _ _ _ _ HT)|exact Hb1|rewrite upd_eq; lia|exact Hb|].
  intros s2 Hi2 Hk2 Hs2 Hd2. pose proof (txn_same _ _ _ _ _ _ _ _ _ _ HT Hi2 Hs2) as HT2. apply runs_bind.
  eapply runs_mono; [apply (log_write_spec s2 _ _ _ i x bs HT2); [by apply Hk2|set_solver|done|done|rewrite upd_eq; lia|done]|].
  intros _ s3 (bs' & R' & HT3 & Hb3 & Hcase & Hd3 & Hs3). cbn [absorbed].
  assert (HR3 : R' x = 2 ∧ (∀ y, y ≠ x → R' y = R y)).
  { rewrite HR in Hcase. destruct (decide (x ∈ bs)) as [Hin|Hnin]; destruct Hcase as [-> ->]; rewrite !upd_eq.
    - rewrite drop_0, decide_True by done. split; [lia|]. intros y Hy. by rewrite upd_ne.
    - rewrite drop_0, decide_False by done. split; [lia|]. intros y Hy. by rewrite !upd_ne. }
  destruct HR3 as [HR3 HR3'].
  eapply runs_mono; [apply (brelse_spec dev pid s3 _ R' _ i x (tx_bio _ _ _ _ _ _ _ _ _ HT3) Hb3); [set_solver|lia]|].
  intros _ s4 (Hi4 & _ & Hs4 & Hd4). rewrite HR3 in Hi4.
  assert (Ebs : bs' = if decide (x ∈ bs) then bs else bs ++ [x]) by (destruct (decide (x ∈ bs)); tauto). rewrite <-Ebs. ands.
  - exists (upd R' x 1). split; [eapply txn_same; [exact HT3| |exact Hs4]; eapply bio_inv_ext; [exact Hi4|done|done|set_solver]|].
    intros y. rewrite drop_0, Ebs. unfold upd. destruct (decide (y = x)) as [->|Hne]; [|rewrite HR3', HR, drop_0 by done].
    + rewrite decide_True; [done|]. case_decide; [done|]. apply elem_of_app. right. by left.
    + destruct (decide (x ∈ bs)); [done|]. repeat case_decide; try done;
        rewrite elem_of_app, elem_of_cons, elem_of_nil in *; tauto.
  - apply same_rest_sys in Hs2, Hs4. etransitivity; [exact Hs2|]. by etransitivity.
  - destruct Hd2, Hd3, Hd4. split; congruence.
Qed.

Lemma update_block_spec s V bs x f :
  in_op s V bs → home st x → 0 ≤ x < 2 ^ 31 → Z.of_nat (length bs) < LOGBLOCKS → (length bs < length (bufs s))%nat →
  runs (update_block x f) s (λ _ s', in_op s' (upd V x (f (V x))) (absorbed bs [x]) ∧ same_sys s s' ∧ same_disk s s').
Proof.
  intros HT Hhome Hxr Hlen Hroom. unfold update_block. apply runs_bind. eapply runs_mono; [by apply (bread_op s V bs x)|].
  intros i s1 (Hh & Hs1 & Hd1). eapply runs_mono; [by apply (finish_op s1 V bs x i f)|].
  intros _ s2 (Ho & Hs2 & Hd2). ands; [done|by etransitivity|]. destruct Hd1, Hd2. split; congruence.
Qed.

Lemma update_blocks_spec us : ∀ s V bs,
  in_op s V bs → (∀ x, x ∈ us.*1 → home st x ∧ 0 ≤ x < 2 ^ 31) →
  Z.of_nat (length bs + length us) ≤ LOGBLOCKS → (length bs + length us ≤ length (bufs s))%nat →
  runs (update_blocks us) s (λ _ s', in_op s' (updates V us) (absorbed bs us.*1) ∧ same_sys s s' ∧ same_disk s s').
Proof.
  induction us as [|[x f] us IH]; intros s V bs HT Hxs Hlen Hroom; cbn [update_blocks].
  { apply runs_ret. ands; done. }
  cbn [length] in *. destruct (Hxs x) as [Hh Hr]; [by left|]. apply runs_bind.
  eapply runs_mono; [apply (update_block_spec s V bs x f HT Hh Hr); lia|].
  intros _ s1 (HT1 & Hs1 & Hd1). pose proof (ss_len _ _ Hs1) as Hl1. pose proof (length_absorbed [x] bs) as Hab. cbn [length] in Hab.
  eapply runs_mono; [apply (IH s1 _ _ HT1)|].
  - intros y Hy. apply Hxs. by right.
  - lia.
  - lia.
  - intros _ s2 (HT2 & Hs2 & Hd2). ands; [done|by etransitivity|]. destruct Hd1, Hd2. split; congruence.
Qed.

(** ** Transactions *)

(** The last [end_op] commits. *)
Definition committed (bs : list Z) (V : Z → blk) (W : list (Z * blk)) : Prop :=
  (bs = [] ∧ W = []) ∨ (bs ≠ [] ∧ ∃ hb hb0, header bs hb ∧ header [] hb0 ∧ W = commit_writes st bs V hb hb0).

Lemma commit_committed bs s V R :
  loggable bs → bio_inv dev pid s V R ∅ → log_is dev st bs s → pinned bs 0 R →
  (length bs < length (bufs s))%nat → (1 < length (bufs s))%nat →
  runs commit s (λ _ s', ∃ W, committed bs V W ∧ k_disk s' = put_all W (k_disk s) ∧ k_writes s' = k_writes s ++ W ∧
    bio_inv dev pid s' (updl V W) (λ _, 0) ∅ ∧
    same_rest (with_log (log_with_lh (mk_logheader 0 (lh_block (lg_lh (k_log s)))) (k_log s)) s) s').
Proof.
  intros Hlb Hi Hlog HR Hl Hl1. destruct (decide (bs = [])) as [->|Hne].
  - unfold commit. apply runs_bind, runs_gets. rewrite (li_n _ _ _ _ Hlog). change (0 <? Z.of_nat (length [])) with false.
    apply runs_ret. exists []. rewrite app_nil_r. ands; [by left|done|done| |].
    + eapply bio_inv_ext; [exact Hi|done| |done]. intros x. rewrite HR. by case_decide as Hx; [apply elem_of_nil in Hx|].
    + pose proof (li_n _ _ _ _ Hlog) as E. split; try done. cbn. destruct (k_log s) as [? ? ? ? ? []]. cbn in *. by rewrite E.
  - eapply runs_mono; [by apply (commit_spec dev pid st ltac:(lia) Hst bs s V R)|].
    intros _ s' (hb & hb0 & Hh & Hh0 & Hd & Hw & Hi' & Hs'). exists (commit_writes st bs V hb hb0). ands; try done.
    right. split; [done|]. by exists hb, hb0.
Qed.

Lemma end_op_spec s V R bs :
  txn s V R ∅ 1 bs → pinned bs 0 R → (length bs < length (bufs s))%nat → (1 < length (bufs s))%nat →
  runs end_op s (λ _ s', ∃ W, committed bs V W ∧ k_disk s' = put_all W (k_disk s) ∧ k_writes s' = k_writes s ++ W ∧
    txn s' (updl V W) (λ _, 0) ∅ 0 [] ∧ same_sys s s').
Proof.
  intros [T1 T2 T3 T4 T5 T6 T7] HR Hl Hl1. unfold end_op. apply runs_bind, runs_acquire_log; [done|].
  apply runs_bind, runs_gets. apply runs_bind, runs_modify. apply runs_bind, runs_gets.
  cbn [k_log with_log log_locked log_with_lock log_with_outstanding lg_committing lg_lh lg_outstanding]. rewrite T5, T6.
  change (negb (0 =? 0)) with false. change (1 - 1 =? 0) with true. cbn iota. apply runs_bind, runs_modify.
  apply runs_bind, (runs_release_log _ (lg_lock (k_log s))); [done|done|]. apply runs_bind. set (s1 := with_log _ _).
  eapply runs_mono; [apply (commit_committed bs s1 V R T7); [by do 4 apply bio_inv_log|destruct T2; by split|done|done|done]|].
  intros _ s2 (W & HW & Hd & Hw & Hi2 & Hs2).
  assert (Hg : k_log s2 = mk_log (lg_lock (k_log s)) st 0 1 dev (mk_logheader 0 (lh_block (lg_lh (k_log s))))).
  { destruct T2 as [E1 E2 _ _]. rewrite (sm_log _ _ Hs2). unfold s1, log_with_lh, log_with_lock, log_with_committing, log_with_outstanding. cbn. by rewrite E1, E2. }
  apply runs_bind, runs_acquire_log; [by rewrite Hg|]. apply runs_bind, runs_modify.
  apply (runs_release_log _ (lg_lock (k_log s))); [done|cbn; by rewrite Hg|]. exists W.
  ands; [done|done|done| |apply same_rest_sys in Hs2 as []; by split].
  split; cbn; rewrite ?Hg; try done; [by do 3 apply bio_inv_log| |apply loggable_nil].
  split; cbn; rewrite ?Hg; try done. by eexists.
Qed.

Lemma committed_home bs V W x : loggable bs → committed bs V W → home st x → updl V W x = V x.
Proof.
  intros Hlb [[-> ->]|[_ (hb & hb0 & _ & _ & ->)]] Hx; [done|].
  assert (x ≠ st) as Hne by (unfold home, LOGBLOCKS, MAXOPBLOCKS in Hx; lia).
  unfold commit_writes. rewrite !updl_app. cbn. rewrite upd_ne by done. destruct (decide (x ∈ bs)) as [Hin|Hnin].
  - apply updl_in; [rewrite home_writes_fst; by apply Hlb|]. by apply (list_elem_of_fmap_2 (λ b, (b, V b))).
  - rewrite updl_notin by (by rewrite home_writes_fst). rewrite upd_ne by done.
    apply updl_notin. by apply home_not_slot.
Qed.

Lemma committed_header bs V W d :
  committed bs V W → header [] (disk_at d st) → header [] (disk_at (put_all W d) st).
Proof.
  intros [[_ ->]|[_ (hb & hb0 & _ & Hh0 & ->)]] Hd; [done|]. unfold commit_writes.
  rewrite !app_assoc, put_all_app. cbn. unfold disk_at at 1. by rewrite lookup_insert_eq.
Qed.

(** Every prefix of the writes of a commit recovers to the old or to the
    new contents. *)
Definition recovers (W : list (Z * blk)) (V : Z → blk) (s : kfs) : Prop := ∀ k,
  runs (binit;; initlog dev) (reboot (put_all (take k W) (k_disk s)) s) (λ _ s2, idle s2 ∧
    ((∀ x, home st x → disk_at (k_disk s2) x = disk_at (k_disk s) x) ∨
     (∀ x, home st x → disk_at (k_disk s2) x = V x))).

Lemma committed_recovers bs V W s :
  k_pid s = pid → sb_logstart (k_sb s) = st → loggable bs → committed bs V W → (length bs < Z.to_nat NBUF)%nat →
  header [] (disk_at (k_disk s) st) → (∀ x, x ∉ bs → disk_at (k_disk s) x = V x) → recovers W V s.
Proof.
  intros Hpid Hsb Hlb HW Hlen Hclear HV k. destruct HW as [[-> ->]|[_ (hb & hb0 & Hh & Hh0 & ->)]].
  - rewrite take_nil. cbn [put_all foldl].
    eapply runs_mono; [apply (boot_recovers dev pid st Hdev Hst []); [done|done|apply loggable_nil|done]|].
    intros ? s' [Hid Hd]. split; [done|]. left. intros x Hx. by rewrite Hd.
  - eapply runs_mono; [by apply (crash_spec dev pid st Hdev Hst bs V hb hb0 (k_disk s) s Hpid Hsb Hlb Hlen Hh Hh0 Hclear HV k)|].
    intros ? s' [Hid Hd]. split; [done|]. case_decide; auto.
Qed.

Lemma in_op_disk s V bs x : in_op s V bs → x ∉ bs → disk_at (k_disk s) x = V x.
Proof.
  intros (R & HT & HR) Hx. apply (bv_disk _ _ _ _ _ _ (tx_bio _ _ _ _ _ _ _ _ _ HT)). rewrite HR, drop_0. by apply decide_False.
Qed.

(** [begin_op] with no other operation running. *)
Lemma begin_op_idle s :
  idle s → runs begin_op s (λ _ s1, in_op s1 (disk_at (k_disk s)) [] ∧ same_sys s s1).
Proof.
  intros [HT Hclear Hsb Hbufs]. eapply runs_mono; [by apply begin_op_spec|]. intros _ s1 (HT1 & _ & _ & Hs1 & _). split; [|done].
  eexists. split; [exact HT1|]. intros x. by case_decide as Hx; [apply elem_of_nil in Hx|].
Qed.

(** Any code between [begin_op] and [end_op] that logs what it changes. *)
Lemma operation_spec {A} s (m : M kfs A) (Q : A → kfs → (Z → blk) → Prop) :
  idle s →
  (∀ s1, in_op s1 (disk_at (k_disk s)) [] → same_sys s s1 → runs m s1 (λ a s2, ∃ V bs, in_op s2 V bs ∧
    Q a s2 V ∧ (length bs < Z.to_nat NBUF)%nat ∧ same_disk s1 s2 ∧ k_sb s2 = k_sb s1 ∧ length (bufs s2) = length (bufs s1))) →
  runs (begin_op;; a ← m; end_op;; mret a) s (λ a s', idle s' ∧ ∃ s2 V W, Q a s2 V ∧ same_sys s2 s' ∧
    (∀ x, home st x → disk_at (k_disk s') x = V x) ∧ k_writes s' = k_writes s ++ W ∧
    k_disk s' = put_all W (k_disk s) ∧ recovers W V s).
Proof.
  intros [HT Hclear Hsb Hbufs] Hm. apply runs_bind. eapply runs_mono; [by apply begin_op_spec|].
  intros _ s1 (HT1 & Hd1 & Hw1 & Hs1 & Hb1). apply runs_bind. eapply runs_mono; [apply Hm; [|done]|].
  { eexists. split; [exact HT1|]. intros x. by case_decide as Hx; [apply elem_of_nil in Hx|]. }
  intros a s2 (V & bs & Ho & HQ & Hlen & [Hd2 Hw2] & Hsb2 & Hl2). pose proof Ho as (R & HT2 & HR2).
  pose proof (tx_ok _ _ _ _ _ _ _ _ _ HT2) as Hlb. rewrite Hb1, Hbufs in Hl2.
  apply runs_bind. eapply runs_mono; [apply (end_op_spec s2 _ R _ HT2 HR2); rewrite Hl2; [done|unfold NBUF, MAXOPBLOCKS; lia]|].
  intros _ s3 (W & HW & Hd3 & Hw3 & HT3 & Hs3). apply runs_ret. pose proof (tx_bio _ _ _ _ _ _ _ _ _ HT3) as Hi3. split.
  - split.
    + eapply (txn_same s3); [exact HT3| |apply same_rest_refl]. eapply bio_inv_ext; [exact Hi3| |done|done].
      intros x. by apply Hi3.
    + rewrite Hd3, Hd2, Hd1. by eapply committed_header.
    + by rewrite (ss_sb _ _ Hs3), Hsb2, (ss_sb _ _ Hs1).
    + by rewrite (ss_len _ _ Hs3), Hl2.
  - exists s2, V, W. ands; [done|done| |congruence|congruence|].
    + intros x Hx. rewrite (bv_disk _ _ _ _ _ _ Hi3 x eq_refl). by apply (committed_home _ _ _ _ Hlb HW).
    + apply (committed_recovers _ _ _ _ (bv_pid _ _ _ _ _ _ (tx_bio _ _ _ _ _ _ _ _ _ HT)) Hsb Hlb HW); [done|done|].
      intros x Hx. rewrite <-Hd1, <-Hd2. by eapply in_op_disk.
Qed.

(** One operation that updates blocks. *)
Definition transaction (us : list (Z * (blk → blk))) : M kfs unit :=
  begin_op;; a ← update_blocks us; end_op;; mret a.

(** Updates that fit into one operation. *)
Definition small_txn (us : list (Z * (blk → blk))) : Prop :=
  (∀ x, x ∈ us.*1 → home st x ∧ 0 ≤ x < 2 ^ 31) ∧ Z.of_nat (length us) ≤ MAXOPBLOCKS.

Lemma transaction_spec s us :
  idle s → small_txn us →
  runs (transaction us) s (λ _ s', idle s' ∧ same_sys s s' ∧
    (∀ x, home st x → disk_at (k_disk s') x = updates (disk_at (k_disk s)) us x) ∧
    ∃ W, k_writes s' = k_writes s ++ W ∧ k_disk s' = put_all W (k_disk s) ∧ recovers W (updates (disk_at (k_disk s)) us) s).
Proof.
  intros Hid [Hus Hlen]. unfold MAXOPBLOCKS in Hlen. pose proof (id_bufs _ _ _ _ Hid) as Hbufs.
  eapply runs_mono; [apply (operation_spec s (update_blocks us) (λ _ s2 V, V = updates (disk_at (k_disk s)) us ∧ same_sys s s2) Hid)|].
  - intros s1 Ho Hs1. pose proof (ss_len _ _ Hs1) as Hl. rewrite Hbufs in Hl. unfold NBUF, MAXOPBLOCKS in Hl.
    eapply runs_mono; [apply (update_blocks_spec us s1 _ [] Ho Hus); cbn; [unfold LOGBLOCKS, MAXOPBLOCKS|]; lia|].
    intros _ s2 (Ho2 & Hs2 & Hd2). do 2 eexists.
    ands; [exact Ho2|done|by transitivity s1| |done|by apply Hs2|by apply Hs2].
    pose proof (length_absorbed us.*1 []) as Hab. rewrite length_fmap in Hab. cbn in Hab. unfold NBUF, MAXOPBLOCKS. lia.
  - intros _ s' (Hid' & s2 & V & W & [-> Hs2] & Hs' & Hh & Hw & Hd & Hr). ands; [done|by transitivity s2|done|]. by exists W.
Qed.

(** Rebooting depends on the disk and on what the boot code is given. *)
Lemma reboot_same s s' d : same_sys s s' → reboot d s' = reboot d s.
Proof. intros []. unfold reboot. congruence. Qed.

(** A sequence of transactions. *)
Fixpoint transactions (uss : list (list (Z * (blk → blk)))) : M kfs unit :=
  match uss with
  | [] => mret tt
  | us :: uss => transaction us;; transactions uss
  end.

(** The contents after all of them. *)
Definition all_updates (V : Z → blk) (uss : list (list (Z * (blk → blk)))) : Z → blk := foldl updates V uss.

Lemma updates_home V V' us :
  (∀ x, home st x → V x = V' x) → (∀ x, x ∈ us.*1 → home st x) → ∀ x, home st x → updates V us x = updates V' us x.
Proof.
  revert V V'. induction us as [|[y f] us IH]; intros V V' HV Hus x Hx; [by apply HV|]. cbn. apply IH; [| |done].
  - intros z Hz. unfold upd. rewrite (HV y) by (apply Hus; cbn; set_solver). case_decide; [done|by apply HV].
  - intros z Hz. apply Hus. cbn. set_solver.
Qed.

Lemma all_updates_home uss : ∀ V V',
  (∀ x, home st x → V x = V' x) → Forall small_txn uss → ∀ x, home st x → all_updates V uss x = all_updates V' uss x.
Proof.
  induction uss as [|us uss IH]; intros V V' HV Hus x Hx; [by apply HV|]. apply List.Forall_cons_iff in Hus as [[Hu _] Hus].
  cbn. apply IH; [|done|done]. intros y Hy. apply updates_home; [done|naive_solver|done].
Qed.

(** A crash at any disk write of the sequence leaves, after recovery, the
    effect of the first [j] transactions for some [j]. *)
Definition recovers_prefix (W : list (Z * blk)) (uss : list (list (Z * (blk → blk)))) (s : kfs) : Prop := ∀ k,
  runs (binit;; initlog dev) (reboot (put_all (take k W) (k_disk s)) s) (λ _ s2, idle s2 ∧
    ∃ j, (j ≤ length uss)%nat ∧ ∀ x, home st x → disk_at (k_disk s2) x = all_updates (disk_at (k_disk s)) (take j uss) x).

Lemma recovers_cons W1 W2 us uss s s1 :
  same_sys s s1 → k_disk s1 = put_all W1 (k_disk s) → Forall small_txn (us :: uss) →
  (∀ x, home st x → disk_at (k_disk s1) x = updates (disk_at (k_disk s)) us x) →
  recovers W1 (updates (disk_at (k_disk s)) us) s → recovers_prefix W2 uss s1 → recovers_prefix (W1 ++ W2) (us :: uss) s.
Proof.
  intros Hs Hd Hus Hh H1 H2 k. destruct (decide (k ≤ length W1)%nat) as [Hk|Hk].
  - rewrite take_app_le by done. eapply runs_mono; [apply (H1 k)|]. intros ? s2 [Hid [Hx|Hx]]; (split; [done|]).
    + exists 0%nat. split; [lia|]. intros x Hxh. cbn [take all_updates foldl]. by apply Hx.
    + exists 1%nat. split; [cbn; lia|]. intros x Hxh. cbn [take all_updates foldl]. by apply Hx.
  - rewrite take_app_ge, put_all_app, <-Hd by lia. rewrite <-(reboot_same s s1) by done.
    eapply runs_mono; [apply (H2 (k - length W1)%nat)|]. intros ? s2 [Hid (j & Hj & Hx)]. split; [done|].
    exists (S j). split; [cbn; lia|]. intros x Hxh. rewrite Hx by done. cbn. apply all_updates_home; [done| |done].
    apply List.Forall_cons_iff in Hus as [_ Hus]. by apply Forall_take.
Qed.

Lemma transactions_spec uss : ∀ s,
  idle s → Forall small_txn uss →
  runs (transactions uss) s (λ _ s', idle s' ∧ same_sys s s' ∧
    (∀ x, home st x → disk_at (k_disk s') x = all_updates (disk_at (k_disk s)) uss x) ∧
    ∃ W, k_writes s' = k_writes s ++ W ∧ k_disk s' = put_all W (k_disk s) ∧ recovers_prefix W uss s).
Proof.
  induction uss as [|us uss IH]; intros s Hid Hus; cbn [transactions].
  { apply runs_ret. ands; [done|done|done|]. exists []. rewrite app_nil_r. ands; [done|done|]. intros k. rewrite take_nil. cbn.
    pose proof Hid as [HT Hclear Hsb Hbufs].
    eapply runs_mono; [apply (boot_recovers dev pid st Hdev Hst []); [exact (bv_pid _ _ _ _ _ _ (tx_bio _ _ _ _ _ _ _ _ _ HT))|exact Hsb|apply loggable_nil|done]|].
    intros ? s2 [Hid2 Hd2]. split; [done|]. exists 0%nat. split; [done|]. intros x Hx. by rewrite Hd2. }
  pose proof Hus as [Hu Hus']%List.Forall_cons_iff. apply runs_bind. eapply runs_mono; [by apply transaction_spec|].
  intros _ s1 (Hid1 & Hs1 & Hh1 & W1 & Hw1 & Hd1 & Hr1). eapply runs_mono; [by apply IH|].
  intros _ s2 (Hid2 & Hs2 & Hh2 & W2 & Hw2 & Hd2 & Hr2). ands; [done|by transitivity s1| |].
  - intros x Hx. rewrite Hh2 by done. cbn. by apply all_updates_home.
  - exists (W1 ++ W2). rewrite Hw2, Hw1, Hd2, Hd1, put_all_app, app_assoc. ands; [done|done|]. by eapply recovers_cons.
Qed.
(** The step from [s] to [s'] is atomic with respect to crashes: whatever
    prefix of its disk writes reaches the disk, the machine comes up with the
    disk of [s] or with that of [s']. *)
Definition atomic (s s' : kfs) : Prop := ∃ W, k_writes s' = k_writes s ++ W ∧ ∀ k,
  runs (binit;; initlog dev) (reboot (put_all (take k W) (k_disk s)) s) (λ _ s2, idle s2 ∧
    ((∀ x, home st x → disk_at (k_disk s2) x = disk_at (k_disk s) x) ∨
     (∀ x, home st x → disk_at (k_disk s2) x = disk_at (k_disk s') x))).

Lemma operation_atomic {A} s (m : M kfs A) (Q : A → kfs → (Z → blk) → Prop) :
  idle s →
  (∀ s1, in_op s1 (disk_at (k_disk s)) [] → same_sys s s1 → runs m s1 (λ a s2, ∃ V bs, in_op s2 V bs ∧
    Q a s2 V ∧ (length bs < Z.to_nat NBUF)%nat ∧ same_disk s1 s2 ∧ k_sb s2 = k_sb s1 ∧ length (bufs s2) = length (bufs s1))) →
  runs (begin_op;; a ← m; end_op;; mret a) s (λ a s', idle s' ∧ atomic s s' ∧ ∃ s2 V, Q a s2 V ∧ same_sys s2 s' ∧
    ∀ x, home st x → disk_at (k_disk s') x = V x).
Proof.
  intros Hid Hm. eapply runs_mono; [by apply (operation_spec s m Q)|].
  intros a s' (Hid' & s2 & V & W & HQ & Hs & Hh & Hw & _ & Hr). ands; [done| |by exists s2, V].
  exists W. split; [done|]. intros k. eapply runs_mono; [apply (Hr k)|]. intros ? s3 [Hid3 [Hx|Hx]]; (split; [done|]); [by left|right].
  intros x Hhx. by rewrite Hx, Hh.
Qed.
End txn.
