(* ===== verification/Fs.v ===== *)
(** * File system (kernel/fs.c)

    Blocks, inodes, contents of inodes, directories and path names.  A
    pointer to an in-memory inode is its index in the table, [None] the
    null pointer.  Paths and names are lists of characters without the
    terminating zero.  The copy functions of kernel/vm.c on the memory of
    the current process are parameters: [copyout a l] stores the bytes [l]
    at the user address [a], [copyin a n] loads [n] bytes from [a], and
    returns those it could copy together with 0, or -1 if it stopped
    early. *)

From S2P Require Import Prelude Spinlock Mem KString Vm FsState Bio Log.

Definition s16 (x : Z) : Z := (x + 2 ^ 15) mod 2 ^ 16 - 2 ^ 15.

(** ** Contents of blocks *)

(** The [n] bytes from offset [off] on. *)
Definition get_bytes (d : blk) (off n : Z) : list Z := (λ i, ldn 1 d (off + i)) <$> seqZ 0 n.

Fixpoint put_bytes (d : blk) (off : Z) (l : list Z) : blk :=
  match l with
  | [] => d
  | x :: l => stn 1 (put_bytes d (off + 1) l) off x
  end.

(** Arrays of 32-bit words. *)
Definition get_words (d : blk) (off n : Z) : list Z := (λ i, ldn 4 d (off + 4 * i)) <$> seqZ 0 n.

Fixpoint put_words (d : blk) (off : Z) (l : list Z) : blk :=
  match l with
  | [] => d
  | x :: l => stn 4 (put_words d (off + 4) l) off x
  end.

(** [struct dinode] at offset [o] of a block. *)
Definition di_type (d : blk) (o : Z) : Z := s16 (ldn 2 d o).
Definition di_major (d : blk) (o : Z) : Z := s16 (ldn 2 d (o + 2)).
Definition di_minor (d : blk) (o : Z) : Z := s16 (ldn 2 d (o + 4)).
Definition di_nlink (d : blk) (o : Z) : Z := s16 (ldn 2 d (o + 6)).
Definition di_size (d : blk) (o : Z) : Z := ldn 4 d (o + 8).
Definition di_addrs (d : blk) (o : Z) : list Z := get_words d (o + 12) (NDIRECT + 1).

Definition IBLOCK (i : Z) (sb : superblock) : Z := i / IPB + sb_inodestart sb.
Definition BBLOCK (b : Z) (sb : superblock) : Z := b / BPB + sb_bmapstart sb.

(** Change the contents of a buffer. *)
Definition modify_data (i : nat) (f : blk → blk) : M kfs unit :=
  b ← get_buf i;
  set_buf i (buf_with_data (f (b_data b)) b).

(** ** Superblock and blocks *)

Definition readsb (dev : Z) : M kfs unit :=
  bp ← bread dev 1;
  b ← get_buf bp;
  let d := b_data b in
  modify (with_sb (mk_superblock (ldn 4 d 0) (ldn 4 d 4) (ldn 4 d 8) (ldn 4 d 12) (ldn 4 d 16)
                                 (ldn 4 d 20) (ldn 4 d 24) (ldn 4 d 28)));;
  brelse bp.

Definition bzero (dev bno : Z) : M kfs unit :=
  bp ← bread dev bno;
  modify_data bp (λ d, stn (Z.to_nat BSIZE) d 0 0);;
  log_write bp;;
  brelse bp.

(** The inner loop of [balloc]: the first clear bit among [n] from [bi]. *)
Fixpoint find_clear (n : nat) (d : blk) (bi : Z) : option Z :=
  match n with
  | O => None
  | S n =>
    let m := Z.shiftl 1 (bi mod 8) in
    if Z.land (ldn 1 d (bi / 8)) m =? 0 then Some bi else find_clear n d (bi + 1)
  end.

Fixpoint balloc_loop (fuel : nat) (dev b : Z) : M kfs Z :=
  match fuel with
  | O => out_of_fuel
  | S fuel =>
    sb ← gets k_sb;
    if b <? sb_size sb then
      bp ← bread dev (BBLOCK b sb);
      bb ← get_buf bp;
      match find_clear (Z.to_nat (Z.min BPB (sb_size sb - b))) (b_data bb) 0 with
      | Some bi =>
        let m := Z.shiftl 1 (bi mod 8) in
        modify_data bp (λ d, stn 1 d (bi / 8) (Z.lor (ldn 1 d (bi / 8)) m));;
        log_write bp;;
        brelse bp;;
        bzero dev (b + bi);;
        mret (b + bi)
      | None =>
        brelse bp;;
        balloc_loop fuel dev (b + BPB)
      end
    else
      print "balloc: out of blocks\n" [];;
      mret 0
  end.

(** One round for each block of the bitmap, and the last test. *)
Definition balloc (dev : Z) : M kfs Z :=
  sb ← gets k_sb;
  balloc_loop (Z.to_nat (sb_size sb / BPB + 2)) dev 0.

Definition bfree (dev b : Z) : M kfs unit :=
  sb ← gets k_sb;
  bp ← bread dev (BBLOCK b sb);
  let bi := b mod BPB in
  let m := Z.shiftl 1 (bi mod 8) in
  bb ← get_buf bp;
  if Z.land (ldn 1 (b_data bb) (bi / 8)) m =? 0 then panic "freeing free block"
  else
    modify_data bp (λ d, stn 1 d (bi / 8) (Z.land (ldn 1 d (bi / 8)) (Z.lnot m)));;
    log_write bp;;
    brelse bp.

(** ** Inodes *)

Definition get_inode (i : nat) : M kfs inode := λ s,
  match it_inode (k_it s) !! i with
  | Some ip => Ret (ip, s)
  | None => Fault
  end.

Definition set_inode (i : nat) (ip : inode) : M kfs unit :=
  modify (λ s, with_it (mk_itable (it_lock (k_it s)) (<[i := ip]> (it_inode (k_it s)))) s).

Definition set_it_lock (l : spinlock) : M kfs unit :=
  modify (λ s, with_it (mk_itable l (it_inode (k_it s))) s).

Definition acquire_it : M kfs unit :=
  s ← get;
  l ← lift (acquire (k_hart s) (it_lock (k_it s)));
  set_it_lock l.

Definition release_it : M kfs unit :=
  s ← get;
  l ← lift (release (k_hart s) (it_lock (k_it s)));
  set_it_lock l.

Definition inode_with_lock (l : sleeplock) (ip : inode) : inode :=
  mk_inode (i_dev ip) (i_inum ip) (i_ref ip) l (i_valid ip) (i_type ip) (i_major ip) (i_minor ip)
           (i_nlink ip) (i_size ip) (i_addrs ip).
Definition inode_with_ref (n : Z) (ip : inode) : inode :=
  mk_inode (i_dev ip) (i_inum ip) n (i_lock ip) (i_valid ip) (i_type ip) (i_major ip) (i_minor ip)
           (i_nlink ip) (i_size ip) (i_addrs ip).
Definition inode_with_valid (n : Z) (ip : inode) : inode :=
  mk_inode (i_dev ip) (i_inum ip) (i_ref ip) (i_lock ip) n (i_type ip) (i_major ip) (i_minor ip)
           (i_nlink ip) (i_size ip) (i_addrs ip).
Definition inode_with_type (n : Z) (ip : inode) : inode :=
  mk_inode (i_dev ip) (i_inum ip) (i_ref ip) (i_lock ip) (i_valid ip) n (i_major ip) (i_minor ip)
           (i_nlink ip) (i_size ip) (i_addrs ip).
Definition inode_with_nlink (n : Z) (ip : inode) : inode :=
  mk_inode (i_dev ip) (i_inum ip) (i_ref ip) (i_lock ip) (i_valid ip) (i_type ip) (i_major ip) (i_minor ip)
           n (i_size ip) (i_addrs ip).
Definition inode_with_size (n : Z) (ip : inode) : inode :=
  mk_inode (i_dev ip) (i_inum ip) (i_ref ip) (i_lock ip) (i_valid ip) (i_type ip) (i_major ip) (i_minor ip)
           (i_nlink ip) n (i_addrs ip).
Definition inode_with_addrs (l : list Z) (ip : inode) : inode :=
  mk_inode (i_dev ip) (i_inum ip) (i_ref ip) (i_lock ip) (i_valid ip) (i_type ip) (i_major ip) (i_minor ip)
           (i_nlink ip) (i_size ip) l.

Definition modify_inode (i : nat) (f : inode → inode) : M kfs unit :=
  ip ← get_inode i;
  set_inode i (f ip).

Definition acquire_inode (i : nat) : M kfs unit :=
  s ← get;
  ip ← get_inode i;
  l ← lift (acquiresleep (k_hart s) (k_pid s) (i_lock ip));
  set_inode i (inode_with_lock l ip).

Definition release_inode (i : nat) : M kfs unit :=
  s ← get;
  ip ← get_inode i;
  l ← lift (releasesleep (k_hart s) (i_lock ip));
  set_inode i (inode_with_lock l ip).

Definition holding_inode (i : nat) : M kfs bool :=
  s ← get;
  ip ← get_inode i;
  '(r, l) ← lift (holdingsleep (k_hart s) (k_pid s) (i_lock ip));
  set_inode i (inode_with_lock l ip);;
  mret r.

Definition iinit : M kfs unit :=
  set_it_lock (initlock "itable");;
  modify (λ s, with_it (mk_itable (it_lock (k_it s))
    (inode_with_lock (initsleeplock "inode") <$> it_inode (k_it s))) s).

(** The loop of [iget] over the table, from index [i] on: a hit, or the
    first empty slot seen. *)
Fixpoint iget_loop (l : list inode) (i : nat) (empty : option nat) (dev inum : Z) : nat + option nat :=
  match l with
  | [] => inr empty
  | ip :: l =>
    if (0 <? i_ref ip) && (i_dev ip =? dev) && (i_inum ip =? inum) then inl i
    else
      let empty := match empty with
                   | None => if i_ref ip =? 0 then Some i else None
                   | Some e => Some e
                   end in
      iget_loop l (S i) empty dev inum
  end.

Definition iget (dev inum : Z) : M kfs nat :=
  acquire_it;;
  l ← gets (λ s, it_inode (k_it s));
  match iget_loop l 0 None dev inum with
  | inl i =>
    modify_inode i (λ ip, inode_with_ref (s32 (i_ref ip + 1)) ip);;
    release_it;;
    mret i
  | inr None => panic "iget: no inodes"
  | inr (Some i) =>
    modify_inode i (λ ip, mk_inode dev inum 1 (i_lock ip) 0 (i_type ip) (i_major ip) (i_minor ip)
                                   (i_nlink ip) (i_size ip) (i_addrs ip));;
    release_it;;
    mret i
  end.

Definition idup (i : nat) : M kfs nat :=
  acquire_it;;
  modify_inode i (λ ip, inode_with_ref (s32 (i_ref ip + 1)) ip);;
  release_it;;
  mret i.

Fixpoint ialloc_loop (fuel : nat) (dev type inum : Z) : M kfs (option nat) :=
  match fuel with
  | O => out_of_fuel
  | S fuel =>
    sb ← gets k_sb;
    if inum <? sb_ninodes sb then
      bp ← bread dev (IBLOCK inum sb);
      bb ← get_buf bp;
      let o := (inum mod IPB) * sizeof_dinode in
      if di_type (b_data bb) o =? 0 then
        modify_data bp (λ d, stn 2 (stn (Z.to_nat sizeof_dinode) d o 0) o type);;
        log_write bp;;
        brelse bp;;
        i ← iget dev inum;
        mret (Some i)
      else
        brelse bp;;
        ialloc_loop fuel dev type (inum + 1)
    else
      print "ialloc: no inodes\n" [];;
      mret None
  end.

Definition ialloc (dev type : Z) : M kfs (option nat) :=
  sb ← gets k_sb;
  ialloc_loop (Z.to_nat (sb_ninodes sb + 1)) dev type 1.

(** The assignments of [iupdate] to the [dinode], and those of [ilock] to the
    in-memory inode. *)
Definition put_dinode (ip : inode) (o : Z) (d : blk) : blk :=
  let d := stn 2 d o (i_type ip) in
  let d := stn 2 d (o + 2) (i_major ip) in
  let d := stn 2 d (o + 4) (i_minor ip) in
  let d := stn 2 d (o + 6) (i_nlink ip) in
  let d := stn 4 d (o + 8) (i_size ip) in
  put_words d (o + 12) (i_addrs ip).

Definition get_dinode (d : blk) (o : Z) (ip : inode) : inode :=
  mk_inode (i_dev ip) (i_inum ip) (i_ref ip) (i_lock ip) (i_valid ip)
    (di_type d o) (di_major d o) (di_minor d o) (di_nlink d o) (di_size d o) (di_addrs d o).

Definition iupdate (i : nat) : M kfs unit :=
  ip ← get_inode i;
  sb ← gets k_sb;
  bp ← bread (i_dev ip) (IBLOCK (i_inum ip) sb);
  let o := (i_inum ip mod IPB) * sizeof_dinode in
  modify_data bp (put_dinode ip o);;
  log_write bp;;
  brelse bp.

Definition ilock (i : option nat) : M kfs unit :=
  match i with
  | None => panic "ilock"
  | Some i =>
    ip ← get_inode i;
    if i_ref ip <? 1 then panic "ilock"
    else
      acquire_inode i;;
      ip ← get_inode i;
      if i_valid ip =? 0 then
        sb ← gets k_sb;
        bp ← bread (i_dev ip) (IBLOCK (i_inum ip) sb);
        bb ← get_buf bp;
        let d := b_data bb in
        let o := (i_inum ip mod IPB) * sizeof_dinode in
        modify_inode i (get_dinode d o);;
        brelse bp;;
        modify_inode i (inode_with_valid 1);;
        ip ← get_inode i;
        if i_type ip =? 0 then panic "ilock: no type" else mret tt
      else mret tt
  end.

Definition iunlock (i : option nat) : M kfs unit :=
  match i with
  | None => panic "iunlock"
  | Some i =>
    h ← holding_inode i;
    ip ← get_inode i;
    if negb h || (i_ref ip <? 1) then panic "iunlock"
    else release_inode i
  end.

(** [ip->addrs[k]] *)
Definition get_addr (i : nat) (k : Z) : M kfs Z :=
  ip ← get_inode i;
  match i_addrs ip !! Z.to_nat k with
  | Some a => if 0 <=? k then mret a else fault
  | None => fault
  end.

Definition set_addr (i : nat) (k a : Z) : M kfs unit :=
  modify_inode i (λ ip, inode_with_addrs (<[Z.to_nat k := a]> (i_addrs ip)) ip).

(** The first loop of [itrunc], [n] direct blocks from [k] on. *)
Fixpoint trunc_direct (n : nat) (i : nat) (k : Z) : M kfs unit :=
  match n with
  | O => mret tt
  | S n =>
    a ← get_addr i k;
    (if negb (a =? 0) then
       ip ← get_inode i;
       bfree (i_dev ip) a;;
       set_addr i k 0
     else mret tt);;
    trunc_direct n i (k + 1)
  end.

(** The second loop, over the indirect block. *)
Fixpoint trunc_indirect (n : nat) (bp : nat) (dev j : Z) : M kfs unit :=
  match n with
  | O => mret tt
  | S n =>
    bb ← get_buf bp;
    let a := ldn 4 (b_data bb) (4 * j) in
    (if negb (a =? 0) then bfree dev a else mret tt);;
    trunc_indirect n bp dev (j + 1)
  end.

Definition itrunc (i : nat) : M kfs unit :=
  trunc_direct (Z.to_nat NDIRECT) i 0;;
  a ← get_addr i NDIRECT;
  (if negb (a =? 0) then
     ip ← get_inode i;
     bp ← bread (i_dev ip) a;
     trunc_indirect (Z.to_nat NINDIRECT) bp (i_dev ip) 0;;
     brelse bp;;
     a ← get_addr i NDIRECT;
     bfree (i_dev ip) a;;
     set_addr i NDIRECT 0
   else mret tt);;
  modify_inode i (inode_with_size 0);;
  iupdate i.

Definition iput (i : nat) : M kfs unit :=
  acquire_it;;
  ip ← get_inode i;
  (if (i_ref ip =? 1) && negb (i_valid ip =? 0) && (i_nlink ip =? 0) then
     acquire_inode i;;
     release_it;;
     itrunc i;;
     modify_inode i (inode_with_type 0);;
     iupdate i;;
     modify_inode i (inode_with_valid 0);;
     release_inode i;;
     acquire_it
   else mret tt);;
  modify_inode i (λ ip, inode_with_ref (s32 (i_ref ip - 1)) ip);;
  release_it.

Definition iunlockput (i : nat) : M kfs unit :=
  iunlock (Some i);;
  iput i.

Fixpoint ireclaim_loop (fuel : nat) (dev inum : Z) : M kfs unit :=
  match fuel with
  | O => out_of_fuel
  | S fuel =>
    sb ← gets k_sb;
    if inum <? sb_ninodes sb then
      bp ← bread dev (IBLOCK inum sb);
      bb ← get_buf bp;
      let o := (inum mod IPB) * sizeof_dinode in
      ip ← (if negb (di_type (b_data bb) o =? 0) && (di_nlink (b_data bb) o =? 0) then
              print "ireclaim: orphaned inode %d\n" [inum];;
              i ← iget dev inum;
              mret (Some i)
            else mret None);
      brelse bp;;
      match ip with
      | Some i =>
        begin_op;;
        ilock (Some i);;
        iunlock (Some i);;
        iput i;;
        end_op
      | None => mret tt
      end;;
      ireclaim_loop fuel dev (inum + 1)
    else mret tt
  end.

Definition ireclaim (dev : Z) : M kfs unit :=
  sb ← gets k_sb;
  ireclaim_loop (Z.to_nat (sb_ninodes sb + 1)) dev 1.

Definition fsinit (dev : Z) : M kfs unit :=
  readsb dev;;
  sb ← gets k_sb;
  if negb (sb_magic sb =? FSMAGIC) then panic "invalid file system"
  else
    initlog dev;;
    ireclaim dev.

(** ** Contents of inodes *)

Definition bmap (i : nat) (bn : Z) : M kfs Z :=
  if bn <? NDIRECT then
    addr ← get_addr i bn;
    if addr =? 0 then
      ip ← get_inode i;
      addr ← balloc (i_dev ip);
      if addr =? 0 then mret 0
      else
        set_addr i bn addr;;
        mret addr
    else mret addr
  else
    let bn := bn - NDIRECT in
    if bn <? NINDIRECT then
      addr ← get_addr i NDIRECT;
      ip ← get_inode i;
      addr ← (if addr =? 0 then
                addr ← balloc (i_dev ip);
                if addr =? 0 then mret 0
                else
                  set_addr i NDIRECT addr;;
                  mret addr
              else mret addr);
      if addr =? 0 then mret 0
      else
        bp ← bread (i_dev ip) addr;
        bb ← get_buf bp;
        let addr := ldn 4 (b_data bb) (4 * bn) in
        addr ← (if addr =? 0 then
                  addr ← balloc (i_dev ip);
                  if negb (addr =? 0) then
                    modify_data bp (λ d, stn 4 d (4 * bn) addr);;
                    log_write bp;;
                    mret addr
                  else mret addr
                else mret addr);
        brelse bp;;
        mret addr
    else panic "bmap: out of range".

(** [struct stat]: device, inode number, type, links, size. *)
Definition stati (i : nat) : M kfs (Z * Z * Z * Z * Z) :=
  ip ← get_inode i;
  mret (i_dev ip, i_inum ip, i_type ip, i_nlink ip, i_size ip).

Section contents.
Context (copyout : Z → list Z → M kfs Z) (copyin : Z → Z → M kfs (list Z * Z)).

(** Where [readi] delivers to: a user address, a physical page, or a local
    variable of the kernel, whose new contents are the second result. *)
Inductive dest := ToUser (a : Z) | ToKernel (a : Z) | ToLocal.

Definition either_copyout (dst : dest) (tot : Z) (l : list Z) : M kfs Z :=
  match dst with
  | ToUser a => copyout (u64 (a + tot)) l
  | ToKernel a => in_vm (store_bytes (a + tot) l);; mret 0
  | ToLocal => mret 0
  end.

Fixpoint readi_loop (fuel : nat) (i : nat) (dst : dest) (off n tot : Z) (acc : list Z) : M kfs (Z * list Z) :=
  match fuel with
  | O => out_of_fuel
  | S fuel =>
    if tot <? n then
      addr ← bmap i (off / BSIZE);
      if addr =? 0 then mret (tot, acc)
      else
        ip ← get_inode i;
        bp ← bread (i_dev ip) addr;
        bb ← get_buf bp;
        let m := Z.min (n - tot) (BSIZE - off mod BSIZE) in
        let l := get_bytes (b_data bb) (off mod BSIZE) m in
        r ← either_copyout dst tot l;
        if r =? -1 then
          brelse bp;;
          mret (-1, acc)
        else
          brelse bp;;
          readi_loop fuel i dst (off + m) n (tot + m) (acc ++ l)
    else mret (tot, acc)
  end.

(** Every round but the first and the last delivers a whole block. *)
Definition block_rounds (n : Z) : nat := Z.to_nat (n / BSIZE + 3).

Definition readi (i : nat) (dst : dest) (off n : Z) : M kfs (Z * list Z) :=
  ip ← get_inode i;
  if (i_size ip <? off) || (u32 (off + n) <? off) then mret (0, [])
  else
    let n := if i_size ip <? off + n then i_size ip - off else n in
    readi_loop (block_rounds n) i dst off n 0 [].

Inductive source := FromUser (a : Z) | FromLocal (l : list Z).

Definition either_copyin (src : source) (tot m : Z) : M kfs (list Z * Z) :=
  match src with
  | FromUser a => copyin (u64 (a + tot)) m
  | FromLocal l => mret (take (Z.to_nat m) (drop (Z.to_nat tot) l), 0)
  end.

(** Returns the final [tot] and [off]. *)
Fixpoint writei_loop (fuel : nat) (i : nat) (src : source) (off n tot : Z) : M kfs (Z * Z) :=
  match fuel with
  | O => out_of_fuel
  | S fuel =>
    if tot <? n then
      addr ← bmap i (off / BSIZE);
      if addr =? 0 then mret (tot, off)
      else
        ip ← get_inode i;
        bp ← bread (i_dev ip) addr;
        let m := Z.min (n - tot) (BSIZE - off mod BSIZE) in
        '(l, r) ← either_copyin src tot m;
        modify_data bp (λ d, put_bytes d (off mod BSIZE) l);;
        if r =? -1 then
          brelse bp;;
          mret (tot, off)
        else
          log_write bp;;
          brelse bp;;
          writei_loop fuel i src (off + m) n (tot + m)
    else mret (tot, off)
  end.

Definition writei (i : nat) (src : source) (off n : Z) : M kfs Z :=
  ip ← get_inode i;
  if (i_size ip <? off) || (u32 (off + n) <? off) then mret (-1)
  else if MAXFILE * BSIZE <? off + n then mret (-1)
  else
    '(tot, off) ← writei_loop (block_rounds n) i src off n 0;
    ip ← get_inode i;
    (if i_size ip <? off then modify_inode i (inode_with_size off) else mret tt);;
    iupdate i;;
    mret tot.

(** ** Directories *)

(** The characters up to the first zero. *)
Fixpoint until_nul (l : list Z) : list Z :=
  match l with
  | [] => []
  | c :: l => if c =? 0 then [] else c :: until_nul l
  end.

Definition namecmp (s t : list Z) : Z := str_diff (Z.to_nat DIRSIZ) (until_nul s) (until_nul t).

(** [struct dirent]: [inum] in the first two bytes, then the name. *)
Definition de_inum (l : list Z) : Z := nth 0 l 0 + 256 * nth 1 l 0.
Definition de_name (l : list Z) : list Z := drop 2 l.

(** [strncpy(de.name, name, DIRSIZ)]: padded with zeros. *)
Definition dirent_name (name : list Z) : list Z :=
  take (Z.to_nat DIRSIZ) (name ++ replicate (Z.to_nat DIRSIZ) 0).

Definition mk_dirent (inum : Z) (name : list Z) : list Z :=
  [u8 inum; u8 (inum / 256)] ++ dirent_name name.

(** The result is the entry's inode and offset. *)
Fixpoint dirlookup_loop (fuel : nat) (dp : nat) (name : list Z) (off : Z) : M kfs (option (nat * Z)) :=
  match fuel with
  | O => out_of_fuel
  | S fuel =>
    d ← get_inode dp;
    if off <? i_size d then
      '(n, de) ← readi dp ToLocal off sizeof_dirent;
      if negb (n =? sizeof_dirent) then panic "dirlookup read"
      else if de_inum de =? 0 then dirlookup_loop fuel dp name (off + sizeof_dirent)
      else if namecmp name (de_name de) =? 0 then
        d ← get_inode dp;
        i ← iget (i_dev d) (de_inum de);
        mret (Some (i, off))
      else dirlookup_loop fuel dp name (off + sizeof_dirent)
    else mret None
  end.

Definition dirlookup (dp : nat) (name : list Z) : M kfs (option (nat * Z)) :=
  d ← get_inode dp;
  if negb (i_type d =? T_DIR) then panic "dirlookup not DIR"
  else dirlookup_loop (Z.to_nat (i_size d / sizeof_dirent + 2)) dp name 0.

(** The loop of [dirlink]: the offset of the first free entry, or the size
    of the directory. *)
Fixpoint free_entry_loop (fuel : nat) (dp : nat) (off : Z) : M kfs Z :=
  match fuel with
  | O => out_of_fuel
  | S fuel =>
    d ← get_inode dp;
    if off <? i_size d then
      '(n, de) ← readi dp ToLocal off sizeof_dirent;
      if negb (n =? sizeof_dirent) then panic "dirlink read"
      else if de_inum de =? 0 then mret off
      else free_entry_loop fuel dp (off + sizeof_dirent)
    else mret off
  end.

Definition dirlink (dp : nat) (name : list Z) (inum : Z) : M kfs Z :=
  found ← dirlookup dp name;
  match found with
  | Some (i, _) =>
    iput i;;
    mret (-1)
  | None =>
    d ← get_inode dp;
    off ← free_entry_loop (Z.to_nat (i_size d / sizeof_dirent + 2)) dp 0;
    n ← writei dp (FromLocal (mk_dirent inum name)) off sizeof_dirent;
    if negb (n =? sizeof_dirent) then mret (-1) else mret 0
  end.

(** ** Paths *)

Definition slash : Z := 47.

(** The leading slashes are skipped. *)
Fixpoint skip_slashes (path : list Z) : list Z :=
  match path with
  | c :: p => if c =? slash then skip_slashes p else path
  | [] => []
  end.

(** The characters up to the next slash or the end, and the rest. *)
Fixpoint span_elem (path : list Z) : list Z * list Z :=
  match path with
  | c :: p => if c =? slash then ([], path) else let '(s, r) := span_elem p in (c :: s, r)
  | [] => ([], [])
  end.

(** The rest of the path and the element, cut to [DIRSIZ] characters. *)
Definition skipelem (path : list Z) : option (list Z * list Z) :=
  match skip_slashes path with
  | [] => None
  | path =>
    let '(s, path) := span_elem path in
    Some (skip_slashes path, take (Z.to_nat DIRSIZ) s)
  end.

(** The loop of [namex]; each round consumes a character of the path. *)
Fixpoint namex_loop (fuel : nat) (i : nat) (path : list Z) (nameiparent : bool) (name : list Z) :
    M kfs (option nat * list Z) :=
  match fuel with
  | O => out_of_fuel
  | S fuel =>
    match skipelem path with
    | Some (path, name) =>
      ilock (Some i);;
      ip ← get_inode i;
      if negb (i_type ip =? T_DIR) then
        iunlockput i;;
        mret (None, name)
      else if nameiparent && bool_decide (path = []) then
        iunlock (Some i);;
        mret (Some i, name)
      else
        next ← dirlookup i name;
        match next with
        | None =>
          iunlockput i;;
          mret (None, name)
        | Some (next, _) =>
          iunlockput i;;
          namex_loop fuel next path nameiparent name
        end
    | None =>
      if nameiparent then
        iput i;;
        mret (None, name)
      else mret (Some i, name)
    end
  end.

(** [myproc()->cwd], to be dereferenced. *)
Definition get_cwd : M kfs nat := λ s,
  match k_cwd s with
  | Some i => Ret (i, s)
  | None => Fault
  end.

(** Also returns the buffer [name]. *)
Definition namex (path : list Z) (nameiparent : bool) : M kfs (option nat * list Z) :=
  i ← (if bool_decide (head path = Some slash) then iget ROOTDEV ROOTINO
       else cwd ← get_cwd; idup cwd);
  namex_loop (S (length path)) i path nameiparent [].

Definition namei (path : list Z) : M kfs (option nat) :=
  '(i, _) ← namex path false;
  mret i.

Definition nameiparent (path : list Z) : M kfs (option nat * list Z) := namex path true.
End contents.
