(* ===== verification/FsBlocks.v ===== *)
(** * Allocation of disk blocks: what [balloc] and [bfree] do to the bitmap *)

From S2P Require Import Prelude Spinlock Mem KString Vm FsState Bio Log BioSpec LogSpec LogCrash LogTxn Fs.

(** Bit [bi] of a bitmap block. *)
Definition bit_at (d : blk) (bi : Z) : bool := Z.testbit (ldn 1 d (bi / 8)) (bi mod 8).

(** Block [b] is marked used in the contents [V]. *)
Definition used (sb : superblock) (V : Z → blk) (b : Z) : bool := bit_at (V (BBLOCK b sb)) (b mod BPB).

(** ** Bits *)

Lemma land_bit x k : 0 ≤ k → (Z.land x (Z.shiftl 1 k) =? 0) = negb (Z.testbit x k).
Proof.
  intros Hk. rewrite Z.shiftl_1_l. destruct (Z.testbit x k) eqn:E.
  - apply Z.eqb_neq. intros H. apply (f_equal (λ y, Z.testbit y k)) in H.
    by rewrite Z.land_spec, E, Z.pow2_bits_true, Z.testbit_0_l in H.
  - apply Z.eqb_eq, Z_bits_inj. intros n Hn. rewrite Z.land_spec, Z.testbit_0_l.
    destruct (decide (k = n)) as [->|Hne]; [by rewrite E|]. by rewrite Z.pow2_bits_false, andb_false_r by done.
Qed.

Lemma bit_at_pos bi : 0 ≤ bi mod 8 < 8.
Proof. apply Z.mod_pos_bound. lia. Qed.

Lemma byte_bits x : (∀ k, 8 ≤ k → Z.testbit x k = false) → 0 ≤ x → 0 ≤ x < 2 ^ 8.
Proof.
  intros Hk Hx. split; [done|]. destruct (decide (x = 0)) as [->|Hne]; [lia|].
  apply Z.log2_lt_pow2; [lia|]. destruct (Z.lt_ge_cases (Z.log2 x) 8) as [|Hge]; [done|].
  specialize (Hk _ Hge). rewrite Z.bit_log2 in Hk by lia. done.
Qed.

Lemma byte_high x k : 0 ≤ x < 2 ^ 8 → 8 ≤ k → Z.testbit x k = false.
Proof.
  intros Hx Hk. apply (Z.bits_above_log2 x k); [lia|]. destruct (decide (x = 0)) as [->|]; [cbn; lia|].
  enough (Z.log2 x < 8) by lia. apply Z.log2_lt_pow2; lia.
Qed.

(** Setting and clearing bit [bi]. *)
Definition mark (bi : Z) (d : blk) : blk :=
  stn 1 d (bi / 8) (Z.lor (ldn 1 d (bi / 8)) (Z.shiftl 1 (bi mod 8))).
Definition unmark (bi : Z) (d : blk) : blk :=
  stn 1 d (bi / 8) (Z.land (ldn 1 d (bi / 8)) (Z.lnot (Z.shiftl 1 (bi mod 8)))).

Lemma bit_at_stn d bi bj v :
  0 ≤ v < 2 ^ 8 →
  bit_at (stn 1 d (bi / 8) v) bj = if decide (bj / 8 = bi / 8) then Z.testbit v (bj mod 8) else bit_at d bj.
Proof.
  intros Hv. unfold bit_at. case_decide as E.
  - rewrite E. by rewrite (ldn_stn_eq 1) by (cbn in *; lia).
  - by rewrite ldn_stn_ne by (cbn; lia).
Qed.

Lemma same_bit bi bj : bj / 8 = bi / 8 → bj mod 8 = bi mod 8 → bj = bi.
Proof. intros. pose proof (Z.div_mod bi 8). pose proof (Z.div_mod bj 8). lia. Qed.

Lemma bit_at_mark bi bj d : bit_at (mark bi d) bj = bool_decide (bj = bi) || bit_at d bj.
Proof.
  pose proof (bit_at_pos bi). pose proof (bit_at_pos bj). pose proof (ldn_range 1 d (bi / 8)) as Hr.
  unfold mark. rewrite bit_at_stn.
  - unfold bit_at. case_decide as E; [|by rewrite bool_decide_false by congruence].
    rewrite Z.lor_spec, Z.shiftl_1_l, Z.pow2_bits_eqb, E by lia.
    destruct (Z.eqb_spec (bi mod 8) (bj mod 8)) as [Em|Em].
    + rewrite (bool_decide_true (bj = bi)) by (by apply same_bit). by rewrite orb_true_r.
    + rewrite bool_decide_false by congruence. by rewrite orb_false_r.
  - apply byte_bits; [|apply Z.lor_nonneg; split; [lia|]; apply Z.shiftl_nonneg; lia].
    intros k Hk. rewrite Z.lor_spec, (byte_high _ k), Z.shiftl_1_l, Z.pow2_bits_false by (cbn in *; lia). done.
Qed.

Lemma bit_at_unmark bi bj d : bit_at (unmark bi d) bj = negb (bool_decide (bj = bi)) && bit_at d bj.
Proof.
  pose proof (bit_at_pos bi). pose proof (bit_at_pos bj). pose proof (ldn_range 1 d (bi / 8)) as Hr.
  unfold unmark. rewrite bit_at_stn.
  - unfold bit_at. case_decide as E; [|by rewrite bool_decide_false by congruence].
    rewrite Z.land_spec, Z.lnot_spec, Z.shiftl_1_l, Z.pow2_bits_eqb, E by lia.
    destruct (Z.eqb_spec (bi mod 8) (bj mod 8)) as [Em|Em].
    + rewrite (bool_decide_true (bj = bi)) by (by apply same_bit). by rewrite andb_false_r.
    + rewrite bool_decide_false by congruence. by rewrite andb_true_r.
  - apply byte_bits; [|apply Z.land_nonneg; left; lia].
    intros k Hk. by rewrite Z.land_spec, (byte_high _ k) by (cbn in *; lia).
Qed.

(** [find_clear] returns the least clear bit. *)
Lemma find_clear_spec n d : ∀ bi, 0 ≤ bi →
  match find_clear n d bi with
  | Some r => bi ≤ r < bi + Z.of_nat n ∧ bit_at d r = false ∧ ∀ j, bi ≤ j < r → bit_at d j = true
  | None => ∀ j, bi ≤ j < bi + Z.of_nat n → bit_at d j = true
  end.
Proof.
  induction n as [|n IH]; intros bi Hbi; cbn [find_clear]; [intros; lia|].
  rewrite land_bit by apply bit_at_pos. fold (bit_at d bi). destruct (bit_at d bi) eqn:E; cbn [negb].
  - specialize (IH (bi + 1) ltac:(lia)). destruct (find_clear n d (bi + 1)) as [r|].
    + destruct IH as (Hr & Hc & Hj). split; [lia|]. split; [done|]. intros j ?. destruct (decide (j = bi)) as [->|]; [done|]. apply Hj. lia.
    + intros j ?. destruct (decide (j = bi)) as [->|]; [done|]. apply IH. lia.
  - split; [lia|]. split; [done|]. intros; lia.
Qed.

Lemma ldn_zeroed n d : ∀ a off, a ≤ off < a + Z.of_nat n → ldn 1 (stn n d a 0) off = 0.
Proof.
  induction n as [|n IH]; intros a off Ho; [lia|]. change (stn (S n) d a 0) with (<[a := u8 0]> (stn n d (a + 1) (0 / 2 ^ 8))).
  change (0 / 2 ^ 8) with 0. destruct (decide (off = a)) as [->|Hne].
  - change (ldn 1 ?m ?x) with (u8 (byte_at m x) + 2 ^ 8 * 0). by rewrite byte_at_insert_eq.
  - etransitivity; [|apply (IH (a + 1) off); lia]. apply ldn_ext. intros b Hb. apply byte_at_insert_ne. lia.
Qed.

(** ** The operations *)

Section ops.
Context (dev pid st : Z).
Hypotheses (Hdev : 0 < dev < 2 ^ 31) (Hst : 0 ≤ st < 2 ^ 30).
#[local] Abbreviation in_op := (in_op dev pid st).
#[local] Abbreviation in_op_held := (in_op_held dev pid st).

(** The geometry: the bitmap covers all blocks, lies outside the log, and
    marks the boot block, the log and itself as used. *)
Record bitmap_ok (sb : superblock) (V : Z → blk) : Prop := {
  bm_size : 0 ≤ sb_size sb < 2 ^ 31;
  bm_block : ∀ b, 0 ≤ b < sb_size sb → home st (BBLOCK b sb) ∧ 0 ≤ BBLOCK b sb < 2 ^ 31;
  bm_boot : used sb V 0 = true;
  bm_log : ∀ b, 0 ≤ b < sb_size sb → used sb V b = false → home st b;
  bm_self : ∀ b b', 0 ≤ b < sb_size sb → 0 ≤ b' < sb_size sb → used sb V b = false → b ≠ BBLOCK b' sb;
}.

(** Change, log and release, in the terms of fs.c. *)
Lemma modify_op s V bs x i f :
  in_op_held s V bs x i → home st x → 0 ≤ x < 2 ^ 31 → Z.of_nat (length bs) < LOGBLOCKS →
  runs (modify_data i f;; log_write i;; brelse i) s
    (λ _ s', in_op s' (upd V x (f (V x))) (absorbed bs [x]) ∧ same_sys s s' ∧ same_disk s s').
Proof.
  intros Hh Hx Hr Hl. destruct (finish_op dev pid st Hdev Hst s V bs x i f Hh Hx Hr Hl) as (a & s2 & Hrun & HQ).
  eapply runs_eq; [|exact HQ]. rewrite <-Hrun. unfold modify_data. rewrite !M_bind_unfold. by destruct (get_buf i s) as [[]| | | |].
Qed.

Lemma bzero_spec s V bs b :
  in_op s V bs → home st b → 0 ≤ b < 2 ^ 31 → Z.of_nat (length bs) < LOGBLOCKS → (length bs < length (bufs s))%nat →
  runs (bzero dev b) s (λ _ s', in_op s' (upd V b (stn (Z.to_nat BSIZE) (V b) 0 0)) (absorbed bs [b]) ∧
    same_sys s s' ∧ same_disk s s').
Proof.
  intros Ho Hh Hb Hl Hr. unfold bzero. apply runs_bind. eapply runs_mono; [by eapply bread_op|].
  intros i s1 (Hh1 & Hs1 & Hd1). eapply runs_mono; [by eapply modify_op|].
  intros _ s2 (Ho2 & Hs2 & Hd2). ands; [done|by etransitivity|]. destruct Hd1, Hd2. split; congruence.
Qed.

(** The contents after the allocation of block [b]. *)
Definition allocated (sb : superblock) (V : Z → blk) (b : Z) : Z → blk :=
  let V1 := upd V (BBLOCK b sb) (mark (b mod BPB) (V (BBLOCK b sb))) in
  upd V1 b (stn (Z.to_nat BSIZE) (V1 b) 0 0).

Lemma BBLOCK_chunk sb b bi : b mod BPB = 0 → 0 ≤ bi < BPB → BBLOCK (b + bi) sb = BBLOCK b sb ∧ (b + bi) mod BPB = bi.
Proof.
  unfold BBLOCK. intros Hb Hbi. assert (Hp : BPB ≠ 0) by done. pose proof (Z.div_mod b BPB Hp).
  replace (b + bi) with (bi + (b / BPB) * BPB) by lia. rewrite Z.div_add, Z.mod_add by done.
  rewrite (Z.div_small bi BPB), (Z.mod_small bi BPB) by done. split; [lia|done].
Qed.

Lemma in_op_print s V bs fmt args : in_op s V bs → runs (print fmt args) s (λ _ s', in_op s' V bs ∧ same_sys s s' ∧ same_disk s s').
Proof.
  intros (R & HT & HR). apply runs_modify. ands; [|by split|done]. exists R. split; [|done].
  destruct HT as [T1 T2 ? ? ? ? ?]. split; try done; [destruct T1; by split|destruct T2; by split].
Qed.

(** The least free block is marked and zeroed. *)
Definition alloc_post (s : kfs) (V : Z → blk) (bs : list Z) (r : Z) (s' : kfs) : Prop :=
  let sb := k_sb s in
  same_disk s s' ∧ same_sys s s' ∧
  (r = 0 ∧ in_op s' V bs ∧ (∀ j, 0 ≤ j < sb_size sb → used sb V j = true) ∨
   0 < r < sb_size sb ∧ used sb V r = false ∧ (∀ j, 0 ≤ j < r → used sb V j = true) ∧
   in_op s' (allocated sb V r) (absorbed bs [BBLOCK r sb; r])).

Lemma alloc_post_sys s0 s V bs r s' :
  same_sys s0 s → same_disk s0 s → alloc_post s V bs r s' → alloc_post s0 V bs r s'.
Proof.
  intros Hs Hd (Hd' & Hs' & H). unfold alloc_post. rewrite <-(ss_sb _ _ Hs). ands; [|by etransitivity|done].
  destruct Hd, Hd'. split; congruence.
Qed.

Lemma take_block s V bs b bi i :
  in_op_held s V bs (BBLOCK b (k_sb s)) i → bitmap_ok (k_sb s) V → b mod BPB = 0 → 0 ≤ bi < BPB →
  0 ≤ b → b + bi < sb_size (k_sb s) → Z.of_nat (length bs) + 1 < LOGBLOCKS → (length bs + 1 < length (bufs s))%nat →
  used (k_sb s) V (b + bi) = false → (∀ j, 0 ≤ j < b + bi → used (k_sb s) V j = true) →
  runs (modify_data i (mark bi);; log_write i;; brelse i;; bzero dev (b + bi);; mret (b + bi)) s (alloc_post s V bs).
Proof.
  intros Hh Hbm Hb8 Hbi Hb Hlt Hlen Hroom Hu Hless. destruct (BBLOCK_chunk (k_sb s) b bi Hb8 Hbi) as [EB Em].
  destruct (bm_block _ _ Hbm (b + bi)) as [Hhome Hrng]; [lia|]. rewrite <-EB in Hh.
  destruct (modify_op s V bs _ i (mark bi) Hh Hhome Hrng ltac:(lia)) as ([] & s1 & Hrun & Ho1 & Hs1 & Hd1).
  assert (Hrun' : runs (modify_data i (mark bi);; log_write i;; brelse i) s (λ _ s', s' = s1)) by (eexists _, _; by rewrite Hrun).
  apply runs_assoc3. eapply runs_mono; [exact Hrun'|]. intros _ ? ->.
  assert (Hne : b + bi ≠ 0) by (intros E; pose proof (bm_boot _ _ Hbm) as H0; rewrite E, H0 in Hu; done).
  apply runs_bind. pose proof (length_absorbed [BBLOCK (b + bi) (k_sb s)] bs) as Hab. cbn [length] in Hab.
  pose proof (bm_size _ _ Hbm). pose proof (ss_len _ _ Hs1).
  eapply runs_mono; [apply (bzero_spec s1 _ _ (b + bi) Ho1); [apply (bm_log _ _ Hbm); [lia|done]|lia|lia|lia]|].
  intros _ s2 (Ho2 & Hs2 & Hd2). apply runs_ret. unfold alloc_post, allocated. rewrite Em. ands.
  - destruct Hd1, Hd2. split; congruence.
  - by etransitivity.
  - right. ands; [lia|lia|done|done|exact Ho2].
Qed.

Lemma balloc_loop_spec fuel : ∀ s V bs b,
  in_op s V bs → bitmap_ok (k_sb s) V → 0 ≤ b < sb_size (k_sb s) + BPB → b mod BPB = 0 →
  sb_size (k_sb s) + BPB ≤ b + Z.of_nat fuel * BPB →
  Z.of_nat (length bs) + 1 < LOGBLOCKS → (length bs + 1 < length (bufs s))%nat →
  (∀ j, 0 ≤ j < b → j < sb_size (k_sb s) → used (k_sb s) V j = true) →
  runs (balloc_loop fuel dev b) s (alloc_post s V bs).
Proof.
  induction fuel as [|fuel IH]; intros s V bs b Ho Hbm Hb Hb8 Hfuel Hlen Hroom Hbefore; cbn [balloc_loop]; [lia|].
  apply runs_bind, runs_gets. destruct (Z.ltb_spec b (sb_size (k_sb s))) as [Hlt|Hge].
  - apply runs_bind. eapply runs_mono; [eapply bread_op; [done|done|exact Ho|lia]|]. intros i s1 (Hh1 & Hs1 & Hd1).
    rewrite <-(ss_sb _ _ Hs1) in *. pose proof (ss_len _ _ Hs1) as Hl1.
    apply runs_bind, (runs_get_op dev pid st s1 V bs (BBLOCK b (k_sb s1)) i); [done|]. intros bb Hdata _. rewrite Hdata.
    set (n := Z.to_nat _). pose proof (find_clear_spec n (V (BBLOCK b (k_sb s1))) 0 ltac:(lia)) as Hfc.
    assert (Hused : ∀ bi, 0 ≤ bi < BPB → used (k_sb s1) V (b + bi) = bit_at (V (BBLOCK b (k_sb s1))) bi).
    { intros bi Hbi. unfold used. by destruct (BBLOCK_chunk (k_sb s1) b bi Hb8 Hbi) as [-> ->]. }
    assert (Hn : Z.of_nat n = Z.min BPB (sb_size (k_sb s1) - b)) by (unfold n, BPB, BSIZE; lia).
    destruct (find_clear _ _ _) as [bi|].
    + destruct Hfc as (Hbi & Hclear & Hmin). eapply runs_mono; [apply (take_block s1 V bs b bi i Hh1 Hbm Hb8)|]; [lia|lia|lia|lia|lia| | |].
      * by rewrite Hused by lia.
      * intros j Hj. destruct (decide (j < b)) as [Hjb|Hjb]; [apply Hbefore; lia|].
        replace j with (b + (j - b)) by lia. rewrite Hused by lia. apply Hmin. lia.
      * intros r s'. by apply alloc_post_sys.
    + apply runs_bind. eapply runs_mono; [by eapply brelse_op|]. intros _ s2 (Ho2 & Hs2 & Hd2).
      rewrite <-(ss_sb _ _ Hs2) in *. pose proof (ss_len _ _ Hs2) as Hl2.
      eapply runs_mono; [apply (IH s2 V bs (b + BPB) Ho2 Hbm)|]; [lia| |lia|lia|lia| |].
      * rewrite <-Zplus_mod_idemp_r, Z.mod_same, Z.add_0_r by done. done.
      * intros j Hj Hjs. destruct (decide (j < b)) as [Hjb|Hjb]; [apply Hbefore; lia|].
        replace j with (b + (j - b)) by lia. rewrite Hused by lia. apply Hfc. lia.
      * intros r s' H'. eapply alloc_post_sys; [|exact Hd1|eapply alloc_post_sys; [exact Hs2|exact Hd2|exact H']]. done.
  - apply runs_bind. eapply runs_mono; [by apply in_op_print|]. intros _ s1 (Ho1 & Hs1 & Hd1). apply runs_ret.
    unfold alloc_post. ands; [done|done|]. left. ands; [done|done|]. intros j Hj. apply Hbefore; lia.
Qed.

Lemma balloc_spec s V bs :
  in_op s V bs → bitmap_ok (k_sb s) V → Z.of_nat (length bs) + 1 < LOGBLOCKS → (length bs + 1 < length (bufs s))%nat →
  runs (balloc dev) s (alloc_post s V bs).
Proof.
  intros Ho Hbm Hlen Hroom. unfold balloc. apply runs_bind, runs_gets. pose proof (bm_size _ _ Hbm) as Hsz.
  assert (Hp : BPB ≠ 0) by done. pose proof (Z.div_mod (sb_size (k_sb s)) BPB Hp). pose proof (Z.mod_pos_bound (sb_size (k_sb s)) BPB eq_refl).
  pose proof (Z.div_pos (sb_size (k_sb s)) BPB ltac:(lia) eq_refl). change BPB with 8192 in *.
  apply balloc_loop_spec; try done; [change BPB with 8192; lia|change BPB with 8192; lia|intros; lia].
Qed.
(** What an allocation changes. *)
Lemma used_mod sb b b' :
  BBLOCK b sb = BBLOCK b' sb → b mod BPB = b' mod BPB → 0 ≤ b → 0 ≤ b' → b = b'.
Proof.
  unfold BBLOCK. intros Hd Hm ? ?. assert (Hp : BPB ≠ 0) by done.
  pose proof (Z.div_mod b BPB Hp). pose proof (Z.div_mod b' BPB Hp). assert (b / BPB = b' / BPB) by lia. congruence.
Qed.

Lemma used_mark sb V b r :
  0 ≤ b → 0 ≤ r → used sb (upd V (BBLOCK r sb) (mark (r mod BPB) (V (BBLOCK r sb)))) b =
    bool_decide (b = r) || used sb V b.
Proof.
  intros Hb Hr. unfold used, upd. case_decide as E.
  - rewrite bit_at_mark, E. f_equal. apply bool_decide_ext. split; [|by intros ->]. intros. by apply (used_mod sb).
  - by rewrite bool_decide_false by congruence.
Qed.

Lemma used_unmark sb V b r :
  0 ≤ b → 0 ≤ r → used sb (upd V (BBLOCK r sb) (unmark (r mod BPB) (V (BBLOCK r sb)))) b =
    negb (bool_decide (b = r)) && used sb V b.
Proof.
  intros Hb Hr. unfold used, upd. case_decide as E.
  - rewrite bit_at_unmark, E. do 2 f_equal. apply bool_decide_ext. split; [|by intros ->]. intros. by apply (used_mod sb).
  - by rewrite bool_decide_false by congruence.
Qed.

Lemma used_allocated sb V r b :
  bitmap_ok sb V → 0 ≤ r < sb_size sb → used sb V r = false → 0 ≤ b < sb_size sb →
  used sb (allocated sb V r) b = bool_decide (b = r) || used sb V b.
Proof.
  intros Hbm Hr Hu Hb. rewrite <-(used_mark sb V b r) by lia. unfold used, allocated.
  by rewrite (upd_ne _ r) by (intros E; by apply (bm_self _ _ Hbm r b Hr Hb Hu)).
Qed.

Lemma allocated_other sb V r x : x ≠ r → x ≠ BBLOCK r sb → allocated sb V r x = V x.
Proof. intros. unfold allocated. by rewrite !upd_ne. Qed.

Lemma allocated_zero sb V r off : 0 ≤ off < BSIZE → ldn 1 (allocated sb V r r) off = 0.
Proof. intros. unfold allocated. rewrite upd_eq. apply ldn_zeroed. unfold BSIZE in *. lia. Qed.

(** The geometry survives. *)
Lemma bitmap_ok_allocated sb V r :
  bitmap_ok sb V → 0 ≤ r < sb_size sb → used sb V r = false → bitmap_ok sb (allocated sb V r).
Proof.
  intros Hbm Hr Hu. destruct Hbm as [B1 B2 B3 B4 B5]. assert (Hbm : bitmap_ok sb V) by done.
  assert (H' : ∀ b, 0 ≤ b < sb_size sb → used sb (allocated sb V r) b = false → used sb V b = false).
  { intros b Hb. rewrite used_allocated by done. by intros [_ ?]%orb_false_iff. }
  split; try done; [|by eauto..]. rewrite used_allocated by (done || lia). by rewrite B3, orb_true_r.
Qed.

(** ** Freeing *)

Lemma bfree_spec s V bs b :
  in_op s V bs → bitmap_ok (k_sb s) V → 0 ≤ b < sb_size (k_sb s) → used (k_sb s) V b = true →
  Z.of_nat (length bs) < LOGBLOCKS → (length bs < length (bufs s))%nat →
  runs (bfree dev b) s (λ _ s', same_disk s s' ∧ same_sys s s' ∧
    in_op s' (upd V (BBLOCK b (k_sb s)) (unmark (b mod BPB) (V (BBLOCK b (k_sb s))))) (absorbed bs [BBLOCK b (k_sb s)])).
Proof.
  intros Ho Hbm Hb Hu Hlen Hroom. unfold bfree. apply runs_bind, runs_gets. destruct (bm_block _ _ Hbm b Hb) as [Hhome Hrng].
  apply runs_bind. eapply runs_mono; [by eapply bread_op|]. intros i s1 (Hh1 & Hs1 & Hd1).
  apply runs_bind, (runs_get_op dev pid st s1 V bs (BBLOCK b (k_sb s)) i); [done|]. intros bb Hdata _. rewrite Hdata.
  rewrite land_bit by apply bit_at_pos. fold (bit_at (V (BBLOCK b (k_sb s))) (b mod BPB)).
  fold (used (k_sb s) V b). rewrite Hu. cbn [negb].
  eapply runs_mono; [by apply (modify_op s1 V bs _ i (unmark (b mod BPB)) Hh1)|].
  intros _ s2 (Ho2 & Hs2 & Hd2). ands; [|by etransitivity|done]. destruct Hd1, Hd2. split; congruence.
Qed.

Lemma bfree_free s V bs b :
  in_op s V bs → 0 ≤ b < sb_size (k_sb s) → used (k_sb s) V b = false → (length bs < length (bufs s))%nat →
  bfree dev b s = Panic "freeing free block".
Proof.
  intros Ho Hb Hu Hroom. unfold bfree. rewrite M_bind_unfold. cbn.
  destruct (bread_op dev pid st Hdev Hst s V bs (BBLOCK b (k_sb s)) Ho Hroom) as (i & s1 & Hr & Hh1 & _).
  rewrite M_bind_unfold, Hr. cbn.
  destruct (runs_get_op dev pid st s1 V bs (BBLOCK b (k_sb s)) i (λ bb s2, b_data bb = V (BBLOCK b (k_sb s)) ∧ s2 = s1) Hh1)
    as (bb & s2 & Hg & Hdata & ->); [done|].
  rewrite M_bind_unfold, Hg. cbn. rewrite Hdata, land_bit by apply bit_at_pos.
  fold (bit_at (V (BBLOCK b (k_sb s))) (b mod BPB)). fold (used (k_sb s) V b). by rewrite Hu.
Qed.
End ops.
