(* ===== verification/FsInode.v ===== *)
(** * Inodes (the on-disk format and the inode table) and paths *)

From S2P Require Import Prelude Spinlock Mem KString Vm FsState Bio Log BioSpec LogSpec LogCrash LogTxn Fs FsBlocks.

(** ** The on-disk format *)

(** An inode whose fields fit their C types. *)
Record inode_ok (ip : inode) : Prop := {
  io_type : - 2 ^ 15 ≤ i_type ip < 2 ^ 15;
  io_major : - 2 ^ 15 ≤ i_major ip < 2 ^ 15;
  io_minor : - 2 ^ 15 ≤ i_minor ip < 2 ^ 15;
  io_nlink : - 2 ^ 15 ≤ i_nlink ip < 2 ^ 15;
  io_size : 0 ≤ i_size ip < 2 ^ 32;
  io_len : length (i_addrs ip) = Z.to_nat (NDIRECT + 1);
  io_addrs : Forall (λ a, 0 ≤ a < 2 ^ 32) (i_addrs ip);
}.

Lemma stn_mod n d : ∀ a v, stn n d a (v mod 2 ^ (8 * Z.of_nat n)) = stn n d a v.
Proof.
  induction n as [|n IH]; intros a v; [done|].
  change (stn (S n) d a ?w) with (<[a := u8 w]> (stn n d (a + 1) (w / 2 ^ 8))).
  rewrite pow8_S. pose proof (Z.pow_pos_nonneg 2 (8 * Z.of_nat n)).
  assert (E1 : u8 (v mod (2 ^ 8 * 2 ^ (8 * Z.of_nat n))) = u8 v).
  { unfold u8. by rewrite Z.rem_mul_r, (Z.mul_comm (2 ^ 8) (_ mod _)), Z.mod_add, Z.mod_mod by lia. }
  assert (E2 : v mod (2 ^ 8 * 2 ^ (8 * Z.of_nat n)) / 2 ^ 8 = (v / 2 ^ 8) mod 2 ^ (8 * Z.of_nat n)).
  { rewrite Z.rem_mul_r, (Z.mul_comm (2 ^ 8) (_ mod _)), Z.div_add by lia.
    rewrite (Z.div_small (v mod 2 ^ 8)); [lia|]. apply Z.mod_pos_bound. lia. }
  by rewrite E1, E2, IH.
Qed.

(** A stored short reads back. *)
Lemma short_roundtrip d a v : - 2 ^ 15 ≤ v < 2 ^ 15 → s16 (ldn 2 (stn 2 d a v) a) = v.
Proof.
  intros Hv. rewrite <-(stn_mod 2). change (8 * Z.of_nat 2) with 16.
  pose proof (Z.mod_pos_bound v (2 ^ 16)). rewrite (ldn_stn_eq 2) by (change (8 * Z.of_nat 2) with 16; lia).
  unfold s16. rewrite Zplus_mod_idemp_l, Z.mod_small; lia.
Qed.

Lemma ldn_put_words l n b : ∀ d a, b + Z.of_nat n ≤ a ∨ a + 4 * Z.of_nat (length l) ≤ b →
  ldn n (put_words d a l) b = ldn n d b.
Proof.
  induction l as [|x l IH]; intros d a Hb; [done|]. cbn [put_words]. cbn [length] in Hb.
  rewrite ldn_stn_ne by (cbn; lia). apply IH. lia.
Qed.

Lemma get_put_words l : ∀ d a, Forall (λ x, 0 ≤ x < 2 ^ 32) l →
  get_words (put_words d a l) a (Z.of_nat (length l)) = l.
Proof.
  induction l as [|x l IH]; intros d a Hl; [done|]. apply Forall_cons_1 in Hl as [Hx Hl].
  unfold get_words. cbn [length]. rewrite seqZ_cons by lia. cbn [fmap list_fmap put_words]. f_equal.
  - rewrite Z.mul_0_r, Z.add_0_r. by apply (ldn_stn_eq 4).
  - etransitivity; [|exact (IH d (a + 4) Hl)]. unfold get_words.
    replace (Z.pred (Z.of_nat (S (length l)))) with (Z.of_nat (length l)) by lia.
    change (Z.succ 0) with (1 + 0). rewrite <-fmap_add_seqZ, <-list_fmap_compose. apply list_fmap_ext. intros i y Hy.
    apply list_elem_of_lookup_2, elem_of_seqZ in Hy. unfold compose.
    rewrite ldn_stn_ne by (cbn; lia). f_equal. lia.
Qed.

Lemma get_words_ext d d' a n :
  (∀ i, 0 ≤ i < n → ldn 4 d' (a + 4 * i) = ldn 4 d (a + 4 * i)) → get_words d' a n = get_words d a n.
Proof. intros H. unfold get_words. apply list_fmap_ext. intros i y Hy. apply H. by apply list_elem_of_lookup_2, elem_of_seqZ in Hy. Qed.

(** Reading back a stored inode. *)
Lemma dinode_roundtrip ip o d jp :
  inode_ok ip → get_dinode (put_dinode ip o d) o jp =
    mk_inode (i_dev jp) (i_inum jp) (i_ref jp) (i_lock jp) (i_valid jp) (i_type ip) (i_major ip) (i_minor ip)
             (i_nlink ip) (i_size ip) (i_addrs ip).
Proof.
  intros [H1 H2 H3 H4 H5 H6 H7]. unfold get_dinode, put_dinode, di_type, di_major, di_minor, di_nlink, di_size, di_addrs.
  assert (H6' : Z.of_nat (length (i_addrs ip)) = 13) by (rewrite H6; done).
  f_equal.
  - rewrite ldn_put_words, !ldn_stn_ne by (cbn; lia). by apply short_roundtrip.
  - rewrite ldn_put_words, !ldn_stn_ne by (cbn; lia). by apply short_roundtrip.
  - rewrite ldn_put_words, !ldn_stn_ne by (cbn; lia). by apply short_roundtrip.
  - rewrite ldn_put_words, ldn_stn_ne by (cbn; lia). by apply short_roundtrip.
  - rewrite ldn_put_words by (cbn; lia). by apply (ldn_stn_eq 4).
  - change (NDIRECT + 1) with 13. rewrite <-H6'. by apply get_put_words.
Qed.

(** The other inodes of the block stay. *)
Lemma dinode_other ip o o' d jp :
  length (i_addrs ip) = Z.to_nat (NDIRECT + 1) → o + 64 ≤ o' ∨ o' + 64 ≤ o →
  get_dinode (put_dinode ip o d) o' jp = get_dinode d o' jp.
Proof.
  intros Hl Ho. unfold get_dinode, put_dinode, di_type, di_major, di_minor, di_nlink, di_size, di_addrs.
  assert (Hl' : Z.of_nat (length (i_addrs ip)) = 13) by (rewrite Hl; done).
  f_equal; try (rewrite ldn_put_words, !ldn_stn_ne by (cbn; lia); done).
  apply get_words_ext. intros i Hi. change (NDIRECT + 1) with 13 in Hi. by rewrite ldn_put_words, !ldn_stn_ne by (cbn; lia).
Qed.

(** ** [iupdate] *)

Section ops.
Context (dev pid st : Z).
Hypotheses (Hdev : 0 < dev < 2 ^ 31) (Hst : 0 ≤ st < 2 ^ 30).
#[local] Abbreviation in_op := (in_op dev pid st).

(** The offset of inode [n] in its block. *)
Definition ioff (n : Z) : Z := (n mod IPB) * sizeof_dinode.

(** The on-disk inode [n]. *)
Definition dinode_of (sb : superblock) (V : Z → blk) (n : Z) (jp : inode) : inode :=
  get_dinode (V (IBLOCK n sb)) (ioff n) jp.

Lemma iupdate_spec s V bs i ip :
  in_op s V bs → it_inode (k_it s) !! i = Some ip → inode_ok ip → i_dev ip = dev →
  home st (IBLOCK (i_inum ip) (k_sb s)) → 0 ≤ IBLOCK (i_inum ip) (k_sb s) < 2 ^ 31 → 0 ≤ i_inum ip →
  Z.of_nat (length bs) < LOGBLOCKS → (length bs < length (bufs s))%nat →
  runs (iupdate i) s (λ _ s', same_disk s s' ∧ same_sys s s' ∧ ∃ V',
    in_op s' V' (absorbed bs [IBLOCK (i_inum ip) (k_sb s)]) ∧
    dinode_of (k_sb s) V' (i_inum ip) ip = ip ∧
    (∀ n jp, 0 ≤ n → n ≠ i_inum ip → dinode_of (k_sb s) V' n jp = dinode_of (k_sb s) V n jp) ∧
    ∀ x, x ≠ IBLOCK (i_inum ip) (k_sb s) → V' x = V x).
Proof.
  intros Ho Hip Hok Hd Hhome Hr Hn Hl Hroom. unfold iupdate. apply runs_bind.
  eapply runs_eq; [unfold get_inode; rewrite Hip; reflexivity|]. apply runs_bind, runs_gets. rewrite Hd.
  apply runs_bind. eapply runs_mono; [by eapply bread_op|]. intros b s1 (Hh1 & Hs1 & Hd1).
  eapply runs_mono; [by apply (modify_op dev pid st Hdev Hst s1 V bs _ b _ Hh1)|]. intros _ s2 (Ho2 & Hs2 & Hd2).
  ands; [destruct Hd1, Hd2; split; congruence|by etransitivity|]. eexists. ands; [exact Ho2|..].
  - unfold dinode_of, ioff. rewrite upd_eq, dinode_roundtrip by done. by destruct ip.
  - intros n jp Hn' Hne. unfold dinode_of, upd. case_decide as E; [|done]. rewrite E. apply dinode_other; [apply Hok|].
    unfold ioff, IBLOCK in *. change IPB with 16 in *. change sizeof_dinode with 64.
    pose proof (Z.div_mod n 16). pose proof (Z.div_mod (i_inum ip) 16). lia.
  - intros x Hx. by rewrite upd_ne.
Qed.
End ops.

(** ** The inode table *)

(** Every inode in use has one entry. *)
Definition one_entry (l : list inode) : Prop := ∀ i j ip jp,
  l !! i = Some ip → l !! j = Some jp → 0 < i_ref ip → 0 < i_ref jp →
  i_dev ip = i_dev jp → i_inum ip = i_inum jp → i = j.

Definition is_entry (dev inum : Z) (ip : inode) : Prop := 0 < i_ref ip ∧ i_dev ip = dev ∧ i_inum ip = inum.

#[export] Instance is_entry_dec dev inum ip : Decision (is_entry dev inum ip).
Proof. unfold is_entry. apply _. Defined.

Lemma iget_loop_spec dev inum l : ∀ i e,
  match iget_loop l i e dev inum with
  | inl r => ∃ k ip, r = (i + k)%nat ∧ l !! k = Some ip ∧ is_entry dev inum ip
  | inr r => (∀ ip, ip ∈ l → ¬ is_entry dev inum ip) ∧
      match r with
      | Some r => e = Some r ∨ e = None ∧ ∃ k ip, r = (i + k)%nat ∧ l !! k = Some ip ∧ i_ref ip = 0
      | None => e = None ∧ ∀ ip, ip ∈ l → i_ref ip ≠ 0
      end
  end.
Proof.
  induction l as [|ip l IH]; intros i e; cbn [iget_loop].
  { split; [by intros ? ?%elem_of_nil|]. destruct e; [by left|]. split; [done|by intros ? ?%elem_of_nil]. }
  destruct ((0 <? i_ref ip) && (i_dev ip =? dev) && (i_inum ip =? inum)) eqn:E.
  { exists 0%nat, ip. split; [lia|]. split; [done|]. unfold is_entry. rewrite !andb_true_iff, Z.ltb_lt, !Z.eqb_eq in E. tauto. }
  assert (Hn : ¬ is_entry dev inum ip).
  { intros (H1 & H2 & H3). by rewrite (proj2 (Z.ltb_lt _ _) H1), (proj2 (Z.eqb_eq _ _) H2), (proj2 (Z.eqb_eq _ _) H3) in E. }
  set (e' := match e with None => _ | Some _ => _ end). specialize (IH (S i) e').
  destruct (iget_loop l (S i) e' dev inum) as [r|r].
  - destruct IH as (k & jp & -> & Hk & Hj). exists (S k), jp. split; [lia|done].
  - destruct IH as [Hall Hr]. split; [intros jp [->|Hj]%elem_of_cons; [done|by apply Hall]|].
    destruct r as [r|].
    + destruct Hr as [Hr|(Hr & k & jp & -> & Hk & H0)].
      * unfold e' in Hr. destruct e; [by left|]. destruct (Z.eqb_spec (i_ref ip) 0); [|done]. injection Hr as <-.
        right. split; [done|]. exists 0%nat, ip. split; [lia|done].
      * unfold e' in Hr. destruct e; [done|]. right. split; [done|]. exists (S k), jp. split; [lia|done].
    + destruct Hr as [Hr H0]. unfold e' in Hr. destruct e; [done|]. destruct (Z.eqb_spec (i_ref ip) 0); [done|].
      split; [done|]. intros jp [->|Hj]%elem_of_cons; [done|by apply H0].
Qed.

(** The references held on inode [k = (dev, inum)]. *)
Definition weight (k : Z * Z) (ip : inode) : Z := if decide ((i_dev ip, i_inum ip) = k) then i_ref ip else 0.
Definition refs (l : list inode) (k : Z * Z) : Z := foldr (λ ip n, weight k ip + n) 0 l.

Lemma refs_insert l k i ip ip' :
  l !! i = Some ip → refs (<[i := ip']> l) k = refs l k - weight k ip + weight k ip'.
Proof.
  revert i. induction l as [|jp l IH]; intros [|i] Hi; try done.
  - injection Hi as ->. cbn. lia.
  - change (weight k jp + refs (<[i:=ip']> l) k = weight k jp + refs l k - weight k ip + weight k ip').
    rewrite (IH i Hi). lia.
Qed.

(** Between two operations on the table. *)
Record it_ok (s : kfs) : Prop := {
  ik_lock : unlocked (it_lock (k_it s));
  ik_one : one_entry (it_inode (k_it s));
  ik_ref : Forall (λ ip, 0 ≤ i_ref ip < 2 ^ 31) (it_inode (k_it s));
}.

Lemma weight_nonneg k ip : 0 ≤ i_ref ip → 0 ≤ weight k ip.
Proof. intros. unfold weight. case_decide; lia. Qed.

Lemma refs_weight l k i ip : Forall (λ ip, 0 ≤ i_ref ip < 2 ^ 31) l → l !! i = Some ip → 0 ≤ weight k ip ≤ refs l k.
Proof.
  revert i. induction l as [|jp l IH]; intros [|i] Hl Hi; try done; apply Forall_cons_1 in Hl as [Hj Hl].
  - injection Hi as ->. cbn. pose proof (weight_nonneg k ip). assert (0 ≤ refs l k); [|unfold refs in *; lia].
    clear -Hl. induction Hl as [|jp l Hj Hl IH]; cbn; [lia|]. pose proof (weight_nonneg k jp). unfold refs in *. lia.
  - cbn. pose proof (IH i Hl Hi). pose proof (weight_nonneg k jp). unfold refs in *. lia.
Qed.

(** The state after entry [i] has become [ip]. *)
Definition put_inode (i : nat) (ip : inode) (s : kfs) : kfs :=
  with_it (mk_itable (it_lock (k_it s)) (<[i := ip]> (it_inode (k_it s)))) s.

(** A critical section that changes one entry. *)
Lemma runs_entry {A} s i ip f (r : A) (Q : A → kfs → Prop) :
  it_inode (k_it s) !! i = Some ip → unlocked (it_lock (k_it s)) → Q r (put_inode i (f ip) s) →
  runs (modify_inode i f;; release_it;; mret r)
    (with_it (mk_itable (held_by (k_hart s) (it_lock (k_it s))) (it_inode (k_it s))) s) Q.
Proof.
  intros Hi Hu HQ. eexists _, _. split; [|exact HQ]. unfold modify_inode, get_inode, set_inode, release_it, set_it_lock, put_inode.
  rewrite !M_bind_unfold. cbn. rewrite Hi. cbn. rewrite M_bind_unfold. cbn. rewrite M_bind_unfold. cbn.
  by rewrite release_held.
Qed.

Lemma runs_acquire_it s Q :
  unlocked (it_lock (k_it s)) →
  Q tt (with_it (mk_itable (held_by (k_hart s) (it_lock (k_it s))) (it_inode (k_it s))) s) → runs acquire_it s Q.
Proof.
  intros Hu HQ. eexists _, _. split; [|exact HQ]. unfold acquire_it, set_it_lock. rewrite M_bind_unfold. cbn.
  by rewrite acquire_unlocked.
Qed.

(** Replacing an entry by one for the same inode, or an unused entry by
    one for an inode without entry. *)
Lemma one_entry_insert l i ip ip' :
  one_entry l → l !! i = Some ip →
  (0 < i_ref ip' → 0 < i_ref ip ∧ i_dev ip' = i_dev ip ∧ i_inum ip' = i_inum ip ∨
    ∀ jp, jp ∈ l → ¬ is_entry (i_dev ip') (i_inum ip') jp) →
  one_entry (<[i := ip']> l).
Proof.
  intros Ho Hi Hnew. assert (Hkey : ∀ j jp, j ≠ i → l !! j = Some jp → 0 < i_ref jp → 0 < i_ref ip' →
    i_dev ip' = i_dev jp → i_inum ip' = i_inum jp → False).
  { intros j jp Hne Hj Hr Hr' Hd Hn. destruct (Hnew Hr') as [(Hr0 & Hd0 & Hn0)|Hall].
    - apply Hne. symmetry. apply (Ho i j ip jp); congruence.
    - apply (Hall jp); [by eapply list_elem_of_lookup_2|]. by split. }
  intros a b x y Ha Hb Hx Hy Hd Hn.
  destruct (decide (a = i)) as [->|Hai]; destruct (decide (b = i)) as [->|Hbi]; [done|..];
    try rewrite list_lookup_insert_ne in Ha by done; try rewrite list_lookup_insert_ne in Hb by done.
  - rewrite list_lookup_insert_eq in Ha by (by eapply lookup_lt_Some). injection Ha as <-. exfalso. by apply (Hkey b y).
  - rewrite list_lookup_insert_eq in Hb by (by eapply lookup_lt_Some). injection Hb as <-. exfalso. by apply (Hkey a x).
  - by eapply Ho.
Qed.

Lemma iget_spec s dev inum :
  it_ok s → refs (it_inode (k_it s)) (dev, inum) + 1 < 2 ^ 31 →
  (∃ i ip, it_inode (k_it s) !! i = Some ip ∧ (is_entry dev inum ip ∨ i_ref ip = 0)) →
  runs (iget dev inum) s (λ i s', it_ok s' ∧
    (∃ ip, it_inode (k_it s') !! i = Some ip ∧ is_entry dev inum ip ∧ s' = put_inode i ip s) ∧
    ∀ k, refs (it_inode (k_it s')) k = refs (it_inode (k_it s)) k + (if decide (k = (dev, inum)) then 1 else 0)).
Proof.
  intros [Hu Hone Href] Hbig (i0 & ip0 & Hi0 & Hfree). unfold iget. apply runs_bind, runs_acquire_it; [done|].
  apply runs_bind, runs_gets. cbn [k_it with_it it_inode]. pose proof (iget_loop_spec dev inum (it_inode (k_it s)) 0 None) as Hl.
  assert (Hput : ∀ i ip ip', it_inode (k_it s) !! i = Some ip → is_entry dev inum ip' → i_ref ip' = weight (dev, inum) ip + 1 →
    (0 < i_ref ip → is_entry dev inum ip) → one_entry (<[i := ip']> (it_inode (k_it s))) →
    it_ok (put_inode i ip' s) ∧ (∃ ip2, it_inode (k_it (put_inode i ip' s)) !! i = Some ip2 ∧ is_entry dev inum ip2 ∧
      put_inode i ip' s = put_inode i ip2 s) ∧
    ∀ k, refs (it_inode (k_it (put_inode i ip' s))) k = refs (it_inode (k_it s)) k + (if decide (k = (dev, inum)) then 1 else 0)).
  { intros i ip ip' Hi He Hr Hold Hone'. pose proof (refs_weight _ (dev, inum) i ip Href Hi) as Hw. ands.
    - split; [done|done|]. apply Forall_insert; [done|lia].
    - exists ip'. cbn. rewrite list_lookup_insert_eq by (by eapply lookup_lt_Some). done.
    - intros k. cbn [put_inode with_it k_it it_inode]. rewrite (refs_insert _ _ _ _ _ Hi). destruct He as (_ & Ed & En).
      pose proof (proj1 (list.Forall_forall _ _) Href ip (list_elem_of_lookup_2 _ _ _ Hi)) as Hrng. cbn in Hrng.
      destruct (decide (k = (dev, inum))) as [->|Hk].
      + unfold weight at 2. rewrite decide_True by congruence. lia.
      + unfold weight at 2. rewrite decide_False by congruence. enough (weight k ip = 0) by lia.
        unfold weight. case_decide as Ek; [|done]. destruct (decide (0 < i_ref ip)) as [Hpos|]; [|lia].
        destruct (Hold Hpos) as (_ & ? & ?). congruence. }
  destruct (iget_loop _ _ _ _ _) as [i|[i|]].
  - destruct Hl as (k & ip & -> & Hk & He). cbn [Nat.add] in *. eapply runs_entry; [done|done|].
    pose proof He as (Hr & Ed & En). pose proof (refs_weight _ (dev, inum) k ip Href Hk) as Hw.
    assert (Ew : weight (dev, inum) ip = i_ref ip) by (unfold weight; rewrite decide_True; congruence).
    apply (Hput k ip); [done| | |done|].
    + split; cbn; [|done]. rewrite s32_small by lia. lia.
    + cbn. rewrite s32_small by lia. lia.
    + eapply one_entry_insert; [done|done|]. intros _. by left.
  - destruct Hl as [Hall [?|(_ & k & ip & -> & Hk & H0)]]; [done|]. cbn [Nat.add] in *. eapply runs_entry; [done|done|].
    apply (Hput k ip); [done|done| |lia|].
    + cbn. unfold weight. case_decide; lia.
    + eapply one_entry_insert; [done|done|]. intros _. right. exact Hall.
  - destruct Hl as [Hall [_ Hno]]. exfalso. apply list_elem_of_lookup_2 in Hi0. destruct Hfree as [He|H0].
    + by apply (Hall ip0).
    + by apply (Hno ip0).
Qed.

(** * Paths: [skipelem] against a reference definition, directory entries *)

(** The parts of a path between slashes. *)
Fixpoint split (l : list Z) : list (list Z) :=
  match l with
  | [] => [[]]
  | c :: l =>
    if c =? slash then [] :: split l
    else match split l with w :: ws => (c :: w) :: ws | [] => [[c]] end
  end.

(** Its elements: the parts that are not empty. *)
Definition words (l : list Z) : list (list Z) := filter (λ w, w ≠ []) (split l).

(** The names that repeated calls of [skipelem] deliver. *)
Fixpoint elems (fuel : nat) (path : list Z) : option (list (list Z)) :=
  match fuel with
  | O => None
  | S fuel =>
    match skipelem path with
    | None => Some []
    | Some (path, name) => cons name <$> elems fuel path
    end
  end.

Lemma words_skip l : words (skip_slashes l) = words l.
Proof.
  induction l as [|c l IH]; [done|]. cbn [skip_slashes]. destruct (Z.eqb_spec c slash) as [->|]; [|done].
  rewrite IH. unfold words. cbn [split]. by rewrite Z.eqb_refl, filter_cons_False by (by intros ?).
Qed.

Lemma skip_head l c p : skip_slashes l = c :: p → c ≠ slash.
Proof.
  induction l as [|x l IH]; cbn [skip_slashes]; [done|]. destruct (Z.eqb_spec x slash); [done|]. congruence.
Qed.

Lemma skip_length l : (length (skip_slashes l) ≤ length l)%nat.
Proof. induction l as [|c l IH]; cbn [skip_slashes]; [done|]. destruct (c =? slash); cbn; lia. Qed.

Lemma span_split l s r : span_elem l = (s, r) →
  l = s ++ r ∧ (slash ∉ s) ∧ (r = [] ∨ head r = Some slash) ∧
  split l = match r with [] => [s] | _ :: r => s :: split r end.
Proof.
  revert s r. induction l as [|c l IH]; intros s r; cbn [span_elem].
  - intros [= <- <-]. split_and!; [done|by intros ?%elem_of_nil|by left|done].
  - cbn [split]. destruct (Z.eqb_spec c slash) as [->|Hne].
    + intros [= <- <-]. split_and!; [done|by intros ?%elem_of_nil|by right|done].
    + destruct (span_elem l) as [s' r'] eqn:E. intros [= <- <-]. destruct (IH s' r' eq_refl) as (-> & Hs & Hr & ->).
      split_and!; [done|by intros [?|?]%elem_of_cons|done|]. by destruct r'.
Qed.

Lemma words_span l s r : span_elem l = (s, r) → s ≠ [] → words l = s :: words r.
Proof.
  intros H Hs. destruct (span_split l s r H) as (_ & _ & Hr & E). unfold words at 1. rewrite E.
  destruct r as [|c r]; rewrite filter_cons_True by done; [done|]. f_equal.
  destruct Hr as [?|Hr]; [done|]. injection Hr as ->. unfold words. cbn [split]. rewrite Z.eqb_refl.
  by rewrite filter_cons_False by (by intros ?).
Qed.

(** The two cases of [skipelem]. *)
Lemma skipelem_spec path :
  match skipelem path with
  | None => words path = []
  | Some (rest, name) => ∃ w, words path = w :: words rest ∧ name = take (Z.to_nat DIRSIZ) w ∧ (slash ∉ w) ∧ w ≠ [] ∧
      head rest ≠ Some slash ∧ (length rest < length path)%nat
  end.
Proof.
  unfold skipelem. rewrite <-(words_skip path). pose proof (skip_length path) as Hlen.
  destruct (skip_slashes path) as [|c p] eqn:E; [done|]. pose proof (skip_head _ _ _ E) as Hc.
  destruct (span_elem (c :: p)) as [s r] eqn:Es. pose proof (span_split _ _ _ Es) as (Hsr & Hs & Hr & _).
  assert (Hne : s ≠ []).
  { intros ->. cbn in Hsr. subst r. destruct Hr as [?|Hr]; [done|]. by injection Hr. }
  exists s. rewrite (words_span _ _ _ Es Hne), words_skip. split_and!; [done|done|done|done| |].
  - intros Hh. destruct (skip_slashes r) as [|x y] eqn:Er; [done|]. apply skip_head in Er. by injection Hh.
  - pose proof (skip_length r). apply (f_equal length) in Hsr. rewrite length_app in Hsr. destruct s; [done|]. cbn in *. lia.
Qed.

Lemma elems_spec fuel : ∀ path, (length path < fuel)%nat →
  elems fuel path = Some (take (Z.to_nat DIRSIZ) <$> words path).
Proof.
  induction fuel as [|fuel IH]; intros path Hf; [lia|]. cbn [elems]. pose proof (skipelem_spec path) as H.
  destruct (skipelem path) as [[rest name]|]; [|by rewrite H].
  destruct H as (w & -> & -> & _ & _ & _ & Hl). rewrite IH by lia. done.
Qed.

(** ** Directory entries *)

Lemma until_nul_app_zeros l n : (0 ∉ l) → until_nul (l ++ replicate n 0) = l.
Proof.
  induction l as [|c l IH]; intros Hl; cbn [app until_nul]; [by destruct n|].
  apply not_elem_of_cons in Hl as [Hc Hl]. destruct (Z.eqb_spec c 0); [done|]. by rewrite IH.
Qed.

Lemma until_nul_id l : (0 ∉ l) → until_nul l = l.
Proof. intros. rewrite <-(app_nil_r l) at 1. by apply (until_nul_app_zeros l 0). Qed.

(** The name stored in an entry is the name, cut to [DIRSIZ] characters. *)
Lemma dirent_name_spec name : (0 ∉ name) → until_nul (dirent_name name) = take (Z.to_nat DIRSIZ) name.
Proof.
  intros Hn. unfold dirent_name. destruct (decide (length name ≤ Z.to_nat DIRSIZ)%nat) as [Hl|Hl].
  - rewrite take_app_ge, (take_ge name), take_replicate by lia. by apply until_nul_app_zeros.
  - rewrite take_app_le by lia. apply until_nul_id. intros Hin. apply Hn. rewrite <-(take_drop (Z.to_nat DIRSIZ) name).
    apply elem_of_app. by left.
Qed.

(** The comparison of [dirlookup] with an entry written by [dirlink]. *)
Lemma namecmp_spec name name' :
  Forall (λ c, 0 < c) name → Forall (λ c, 0 < c) name' →
  namecmp name (dirent_name name') = 0 ↔ take (Z.to_nat DIRSIZ) name = take (Z.to_nat DIRSIZ) name'.
Proof.
  intros Hn Hn'.
  assert (H0 : ∀ l, Forall (λ c, 0 < c) l → 0 ∉ l) by (intros l Hl H; by apply (proj1 (list.Forall_forall _ _) Hl) in H).
  unfold namecmp. rewrite until_nul_id, dirent_name_spec by auto. rewrite str_diff_zero; [|done|by apply Forall_take].
  by rewrite take_take, Nat.min_id.
Qed.

(** The two parts of an entry. *)
Lemma mk_dirent_inum inum name : 0 ≤ inum < 2 ^ 16 → de_inum (mk_dirent inum name) = inum.
Proof.
  intros H. unfold de_inum, mk_dirent. cbn [nth app]. unfold u8. change (2 ^ 8) with 256. rewrite (Z.mod_small (inum / 256)).
  - pose proof (Z.div_mod inum 256). lia.
  - split; [apply Z.div_pos; lia|apply Z.div_lt_upper_bound; lia].
Qed.
