(* ===== verification/Pipe.v ===== *)
(** * Open files and pipes (kernel/file.c, kernel/pipe.c)

    A pointer to a [struct file] is its index in the table, a pipe is known
    by the address of its page.  The copies from and to user memory are
    those of kernel/vm.c on the page table of the current process.

    A call of [pipewrite] or [piperead] that has to wait is cut where it
    goes to sleep: [Asleep i] means that it has released the lock with [i]
    bytes transferred and continues with [pipewrite_from] or
    [piperead_from] after a wakeup.  The effect of [wakeup] on other
    processes is the subject of Proc.v. *)

From S2P Require Import Prelude Spinlock Riscv Mem Vm FsState Bio Log Fs.

(** ** User memory *)

Definition user_copyout (a : Z) (l : list Z) : M kfs Z :=
  s ← get;
  in_vm (copyout (v_pagetable (k_vm s)) a l).

Definition user_copyin (a n : Z) : M kfs (list Z * Z) :=
  s ← get;
  in_vm (copyin (v_pagetable (k_vm s)) a n).

(** ** The file table *)

Definition get_file (i : nat) : M kfs file := λ s,
  match ft_file (k_ft s) !! i with
  | Some f => Ret (f, s)
  | None => Fault
  end.

Definition set_file (i : nat) (f : file) : M kfs unit :=
  modify (λ s, with_ft (mk_ftable (ft_lock (k_ft s)) (<[i := f]> (ft_file (k_ft s)))) s).

Definition modify_file (i : nat) (g : file → file) : M kfs unit :=
  f ← get_file i;
  set_file i (g f).

Definition set_ft_lock (l : spinlock) : M kfs unit :=
  modify (λ s, with_ft (mk_ftable l (ft_file (k_ft s))) s).

Definition acquire_ft : M kfs unit :=
  s ← get;
  l ← lift (acquire (k_hart s) (ft_lock (k_ft s)));
  set_ft_lock l.

Definition release_ft : M kfs unit :=
  s ← get;
  l ← lift (release (k_hart s) (ft_lock (k_ft s)));
  set_ft_lock l.

Definition file_with_ref (n : Z) (f : file) : file :=
  mk_file (f_type f) n (f_readable f) (f_writable f) (f_pipe f) (f_ip f) (f_off f) (f_major f).
Definition file_with_off (n : Z) (f : file) : file :=
  mk_file (f_type f) (f_ref f) (f_readable f) (f_writable f) (f_pipe f) (f_ip f) n (f_major f).

Definition fileinit : M kfs unit := set_ft_lock (initlock "ftable").

(** The first file without references, from index [i] on. *)
Fixpoint find_file (l : list file) (i : nat) : option nat :=
  match l with
  | [] => None
  | f :: l => if f_ref f =? 0 then Some i else find_file l (S i)
  end.

Definition filealloc : M kfs (option nat) :=
  acquire_ft;;
  l ← gets (λ s, ft_file (k_ft s));
  match find_file l 0 with
  | Some i =>
    modify_file i (file_with_ref 1);;
    release_ft;;
    mret (Some i)
  | None =>
    release_ft;;
    mret None
  end.

Definition filedup (i : nat) : M kfs nat :=
  acquire_ft;;
  f ← get_file i;
  if f_ref f <? 1 then panic "filedup"
  else
    modify_file i (λ f, file_with_ref (s32 (f_ref f + 1)) f);;
    release_ft;;
    mret i.

(** ** Pipes *)

Definition PIPESIZE : Z := 512.

Definition get_pipe (pi : Z) : M kfs pipe := λ s,
  match k_pipes s !! pi with
  | Some p => Ret (p, s)
  | None => Fault
  end.

Definition set_pipe (pi : Z) (p : pipe) : M kfs unit :=
  modify (λ s, with_pipes (<[pi := p]> (k_pipes s)) s).

Definition pipe_with_lock (l : spinlock) (p : pipe) : pipe :=
  mk_pipe l (pi_data p) (pi_nread p) (pi_nwrite p) (pi_readopen p) (pi_writeopen p).

Definition acquire_pipe (pi : Z) : M kfs unit :=
  s ← get;
  p ← get_pipe pi;
  l ← lift (acquire (k_hart s) (pi_lock p));
  set_pipe pi (pipe_with_lock l p).

Definition release_pipe (pi : Z) : M kfs unit :=
  s ← get;
  p ← get_pipe pi;
  l ← lift (release (k_hart s) (pi_lock p));
  set_pipe pi (pipe_with_lock l p).

Definition pipeclose (pi writable : Z) : M kfs unit :=
  acquire_pipe pi;;
  p ← get_pipe pi;
  set_pipe pi (if negb (writable =? 0)
               then mk_pipe (pi_lock p) (pi_data p) (pi_nread p) (pi_nwrite p) (pi_readopen p) 0
               else mk_pipe (pi_lock p) (pi_data p) (pi_nread p) (pi_nwrite p) 0 (pi_writeopen p));;
  p ← get_pipe pi;
  if (pi_readopen p =? 0) && (pi_writeopen p =? 0) then
    release_pipe pi;;
    modify (λ s, with_pipes (delete pi (k_pipes s)) s);;
    in_vm (vm_kfree pi)
  else release_pipe pi.

Inductive outcome := Done (r : Z) | Asleep (i : Z).

(** [pi->data[pi->nwrite++ % PIPESIZE] = ch] *)
Definition pipe_put (ch : Z) (p : pipe) : pipe :=
  mk_pipe (pi_lock p) (<[pi_nwrite p mod PIPESIZE := ch]> (pi_data p)) (pi_nread p)
          (u32 (pi_nwrite p + 1)) (pi_readopen p) (pi_writeopen p).

Fixpoint pipewrite_loop (fuel : nat) (pi addr n i : Z) : M kfs outcome :=
  match fuel with
  | O => out_of_fuel
  | S fuel =>
    if i <? n then
      p ← get_pipe pi;
      s ← get;
      if (pi_readopen p =? 0) || negb (v_killed (k_vm s) =? 0) then
        release_pipe pi;;
        mret (Done (-1))
      else if pi_nwrite p =? u32 (pi_nread p + PIPESIZE) then
        release_pipe pi;;
        mret (Asleep i)
      else
        '(l, r) ← user_copyin (u64 (addr + i)) 1;
        if r =? -1 then
          release_pipe pi;;
          mret (Done i)
        else
          p ← get_pipe pi;
          set_pipe pi (pipe_put (nth 0 l 0) p);;
          pipewrite_loop fuel pi addr n (i + 1)
    else
      release_pipe pi;;
      mret (Done i)
  end.

Definition pipewrite_from (pi addr n i : Z) : M kfs outcome :=
  acquire_pipe pi;;
  pipewrite_loop (S (Z.to_nat (n - i))) pi addr n i.

(** [ch = pi->data[pi->nread % PIPESIZE]] and [pi->nread++] *)
Definition pipe_peek (p : pipe) : Z := byte_at (pi_data p) (pi_nread p mod PIPESIZE).

Definition pipe_advance (p : pipe) : pipe :=
  mk_pipe (pi_lock p) (pi_data p) (u32 (pi_nread p + 1)) (pi_nwrite p) (pi_readopen p) (pi_writeopen p).

Fixpoint piperead_loop (fuel : nat) (pi addr n i : Z) : M kfs Z :=
  match fuel with
  | O => out_of_fuel
  | S fuel =>
    if i <? n then
      p ← get_pipe pi;
      if pi_nread p =? pi_nwrite p then mret i
      else
        r ← user_copyout (u64 (addr + i)) [pipe_peek p];
        if r =? -1 then mret (if i =? 0 then -1 else i)
        else
          p ← get_pipe pi;
          set_pipe pi (pipe_advance p);;
          piperead_loop fuel pi addr n (i + 1)
    else mret i
  end.

Definition piperead_from (pi addr n : Z) : M kfs outcome :=
  acquire_pipe pi;;
  p ← get_pipe pi;
  s ← get;
  if (pi_nread p =? pi_nwrite p) && negb (pi_writeopen p =? 0) then
    release_pipe pi;;
    mret (if negb (v_killed (k_vm s) =? 0) then Done (-1) else Asleep 0)
  else
    i ← piperead_loop (S (Z.to_nat n)) pi addr n 0;
    release_pipe pi;;
    mret (Done i).

(** A whole call, if it need not wait. *)
Definition unless_asleep (m : M kfs outcome) : M kfs Z :=
  r ← m;
  match r with
  | Done r => mret r
  | Asleep _ => block
  end.

Definition pipewrite (pi addr n : Z) : M kfs Z := unless_asleep (pipewrite_from pi addr n 0).
Definition piperead (pi addr n : Z) : M kfs Z := unless_asleep (piperead_from pi addr n).

(** ** Operations on open files *)

Definition fileclose (i : nat) : M kfs unit :=
  acquire_ft;;
  f ← get_file i;
  if f_ref f <? 1 then panic "fileclose"
  else
    modify_file i (λ f, file_with_ref (s32 (f_ref f - 1)) f);;
    f ← get_file i;
    if 0 <? f_ref f then release_ft
    else
      let ff := f in
      modify_file i (λ f, mk_file FD_NONE 0 (f_readable f) (f_writable f) (f_pipe f) (f_ip f) (f_off f)
                                  (f_major f));;
      release_ft;;
      match f_type ff with
      | FD_PIPE => pipeclose (f_pipe ff) (f_writable ff)
      | FD_INODE | FD_DEVICE =>
        begin_op;;
        iput (f_ip ff);;
        end_op
      | FD_NONE => mret tt
      end.

(** The end of [pipealloc] when something is missing. *)
Definition pipealloc_bad (f0 f1 : option nat) : M kfs (option (nat * nat)) :=
  match f0 with Some f => fileclose f | None => mret tt end;;
  match f1 with Some f => fileclose f | None => mret tt end;;
  mret None.

Definition pipealloc : M kfs (option (nat * nat)) :=
  f0 ← filealloc;
  match f0 with
  | None => pipealloc_bad None None
  | Some i0 =>
    f1 ← filealloc;
    match f1 with
    | None => pipealloc_bad f0 None
    | Some i1 =>
      pi ← in_vm vm_kalloc;
      if pi =? 0 then pipealloc_bad f0 f1
      else
        set_pipe pi (mk_pipe (initlock "pipe") ∅ 0 0 1 1);;
        modify_file i0 (λ f, mk_file FD_PIPE (f_ref f) 1 0 pi (f_ip f) (f_off f) (f_major f));;
        modify_file i1 (λ f, mk_file FD_PIPE (f_ref f) 0 1 pi (f_ip f) (f_off f) (f_major f));;
        mret (Some (i0, i1))
    end
  end.

(** [struct stat] in memory: [dev], [ino], [type], [nlink], [size]; 24
    bytes.  The padding before [size], which the code leaves as it is on the
    stack, is 0 here. *)
Definition stat_bytes (st : Z * Z * Z * Z * Z) : list Z :=
  let '(dev, ino, type, nlink, size) := st in
  get_bytes (stn 8 (stn 2 (stn 2 (stn 4 (stn 4 ∅ 0 dev) 4 ino) 8 type) 10 nlink) 16 size) 0 24.

Definition filestat (i : nat) (addr : Z) : M kfs Z :=
  f ← get_file i;
  match f_type f with
  | FD_INODE | FD_DEVICE =>
    ilock (Some (f_ip f));;
    st ← stati (f_ip f);
    iunlock (Some (f_ip f));;
    r ← user_copyout addr (stat_bytes st);
    if r <? 0 then mret (-1) else mret 0
  | _ => mret (-1)
  end.

(** [devsw]: the functions of the device drivers, by major number. *)
Section files.
Context (devsw_read devsw_write : Z → option (Z → Z → M kfs Z)).

Definition fileread (i : nat) (addr n : Z) : M kfs Z :=
  f ← get_file i;
  if f_readable f =? 0 then mret (-1)
  else
    match f_type f with
    | FD_PIPE => piperead (f_pipe f) addr n
    | FD_DEVICE =>
      if (f_major f <? 0) || (NDEV <=? f_major f) then mret (-1)
      else
        match devsw_read (f_major f) with
        | None => mret (-1)
        | Some read => read addr n
        end
    | FD_INODE =>
      ilock (Some (f_ip f));;
      '(r, _) ← readi user_copyout (f_ip f) (ToUser addr) (f_off f) (u32 n);
      (if 0 <? r then modify_file i (λ f, file_with_off (u32 (f_off f + r)) f) else mret tt);;
      iunlock (Some (f_ip f));;
      mret r
    | FD_NONE => panic "fileread"
    end.

Definition max_write : Z := (MAXOPBLOCKS - 1 - 1 - 2) / 2 * BSIZE.

(** Returns the final [i]. *)
Fixpoint filewrite_loop (fuel : nat) (fi : nat) (addr n i : Z) : M kfs Z :=
  match fuel with
  | O => out_of_fuel
  | S fuel =>
    if i <? n then
      let n1 := if max_write <? n - i then max_write else n - i in
      f ← get_file fi;
      begin_op;;
      ilock (Some (f_ip f));;
      r ← writei user_copyin (f_ip f) (FromUser (u64 (addr + i))) (f_off f) n1;
      (if 0 <? r then modify_file fi (λ f, file_with_off (u32 (f_off f + r)) f) else mret tt);;
      iunlock (Some (f_ip f));;
      end_op;;
      if negb (r =? n1) then mret i
      else filewrite_loop fuel fi addr n (i + r)
    else mret i
  end.

Definition filewrite (fi : nat) (addr n : Z) : M kfs Z :=
  f ← get_file fi;
  if f_writable f =? 0 then mret (-1)
  else
    match f_type f with
    | FD_PIPE => pipewrite (f_pipe f) addr n
    | FD_DEVICE =>
      if (f_major f <? 0) || (NDEV <=? f_major f) then mret (-1)
      else
        match devsw_write (f_major f) with
        | None => mret (-1)
        | Some write => write addr n
        end
    | FD_INODE =>
      i ← filewrite_loop (S (S (Z.to_nat (n / max_write)))) fi addr n 0;
      mret (if i =? n then n else -1)
    | FD_NONE => panic "filewrite"
    end.
End files.
