(* ===== verification/PipeSpec.v ===== *)
(** * Pipes are bounded queues of bytes *)

From S2P Require Import Prelude Spinlock Riscv Mem KString Vm VmSpec VmCopy FsState Bio Log Fs Pipe.

(** ** The ring buffer *)

(** The number of bytes in the pipe; the counters wrap around. *)
Definition pipe_count (p : pipe) : Z := u32 (pi_nwrite p - pi_nread p).

Record pipe_ok (p : pipe) : Prop := {
  po_nread : 0 ≤ pi_nread p < 2 ^ 32;
  po_nwrite : 0 ≤ pi_nwrite p < 2 ^ 32;
  po_count : pipe_count p ≤ PIPESIZE;
}.

(** The bytes in the pipe, oldest first. *)
Definition queue (p : pipe) : list Z :=
  (λ k, byte_at (pi_data p) ((pi_nread p + k) mod PIPESIZE)) <$> seqZ 0 (pipe_count p).

Lemma pipe_count_range p : 0 ≤ pipe_count p < 2 ^ 32.
Proof. apply u32_range. Qed.

Lemma length_queue p : Z.of_nat (length (queue p)) = pipe_count p.
Proof. unfold queue. rewrite length_fmap, length_seqZ. pose proof (pipe_count_range p). lia. Qed.

Lemma u32_mod_pipe x : (u32 x) mod PIPESIZE = x mod PIPESIZE.
Proof.
  unfold u32, PIPESIZE. change (2 ^ 32) with (512 * 8388608). rewrite Z.rem_mul_r by lia.
  rewrite (Z.mul_comm 512 (_ mod _)), Z.mod_add, Z.mod_mod by lia. done.
Qed.

(** The code's tests. *)
Lemma pipe_full p : pipe_ok p → (pi_nwrite p =? u32 (pi_nread p + PIPESIZE)) = (pipe_count p =? PIPESIZE).
Proof.
  intros [H1 H2 H3]. apply eq_bool_prop_intro. rewrite !Is_true_true, !Z.eqb_eq. unfold pipe_count, u32, PIPESIZE in *. split.
  - intros ->. rewrite Zminus_mod_idemp_l. replace (pi_nread p + 512 - pi_nread p) with 512 by lia. done.
  - intros E. pose proof (Z.div_mod (pi_nwrite p - pi_nread p) (2 ^ 32)). rewrite E in *.
    assert ((pi_nwrite p - pi_nread p) / 2 ^ 32 = 0 ∨ (pi_nwrite p - pi_nread p) / 2 ^ 32 = -1) as [Hq|Hq] by lia; rewrite Hq in *.
    + rewrite Z.mod_small; lia.
    + replace (pi_nread p + 512) with (pi_nwrite p + 1 * 2 ^ 32) by lia. rewrite Z.mod_add, Z.mod_small; lia.
Qed.

Lemma pipe_empty p : pipe_ok p → (pi_nread p =? pi_nwrite p) = (pipe_count p =? 0).
Proof.
  intros [H1 H2 H3]. apply eq_bool_prop_intro. rewrite !Is_true_true, !Z.eqb_eq. unfold pipe_count, u32 in *. split.
  - intros ->. by rewrite Z.sub_diag.
  - intros E. pose proof (Z.div_mod (pi_nwrite p - pi_nread p) (2 ^ 32)). rewrite E in *. lia.
Qed.

Lemma count_put p c : pipe_ok p → pipe_count p < PIPESIZE → pipe_count (pipe_put c p) = pipe_count p + 1.
Proof.
  intros [H1 H2 H3] Hlt. unfold pipe_count, pipe_put in *. cbn. unfold u32 in *. rewrite Zminus_mod_idemp_l.
  replace (pi_nwrite p + 1 - pi_nread p) with (pi_nwrite p - pi_nread p + 1) by lia.
  rewrite <-Zplus_mod_idemp_l, Z.mod_small; [done|]. unfold PIPESIZE in *. pose proof (Z.mod_pos_bound (pi_nwrite p - pi_nread p) (2 ^ 32)). lia.
Qed.

(** Slots of the ring. *)
Lemma ring_slot a i j : 0 ≤ i < PIPESIZE → 0 ≤ j < PIPESIZE → (a + i) mod PIPESIZE = (a + j) mod PIPESIZE → i = j.
Proof.
  unfold PIPESIZE. intros Hi Hj E. pose proof (Z.div_mod (a + i) 512). pose proof (Z.div_mod (a + j) 512).
  rewrite E in *. assert ((a + i) / 512 = (a + j) / 512) by lia. lia.
Qed.

Lemma nwrite_slot p : pi_nwrite p mod PIPESIZE = (pi_nread p + pipe_count p) mod PIPESIZE.
Proof.
  rewrite <-Zplus_mod_idemp_r. unfold pipe_count. rewrite u32_mod_pipe, Zplus_mod_idemp_r. f_equal. lia.
Qed.

(** Writing appends. *)
Lemma queue_put p c :
  pipe_ok p → pipe_count p < PIPESIZE → pipe_ok (pipe_put c p) ∧ queue (pipe_put c p) = queue p ++ [c].
Proof.
  intros Hp Hlt. pose proof (count_put p c Hp Hlt) as Hc. pose proof (pipe_count_range p). split.
  - destruct Hp as [H1 H2 H3]. split; [done|apply u32_range|lia].
  - unfold queue. rewrite Hc, seqZ_app by lia. rewrite fmap_app. f_equal.
    + apply list_fmap_ext. intros i k Hk. apply list_elem_of_lookup_2, elem_of_seqZ in Hk. cbn. apply byte_at_insert_ne.
      rewrite nwrite_slot. intros E. apply ring_slot in E; lia.
    + rewrite (seqZ_cons (0 + pipe_count p) 1), Z.add_0_l by lia. cbn [fmap list_fmap pi_data pi_nread pipe_put].
      change (seqZ _ (Z.pred 1)) with (@nil Z). cbn [list_fmap]. by rewrite <-nwrite_slot, byte_at_insert_eq.
Qed.

(** Reading removes the oldest byte. *)
Lemma queue_advance p :
  pipe_ok p → 0 < pipe_count p → pipe_ok (pipe_advance p) ∧ queue p = pipe_peek p :: queue (pipe_advance p).
Proof.
  intros [H1 H2 H3] Hpos. assert (Hc : pipe_count (pipe_advance p) = pipe_count p - 1).
  { unfold pipe_count, pipe_advance in *. cbn. unfold u32 in *. rewrite Zminus_mod_idemp_r.
    replace (pi_nwrite p - (pi_nread p + 1)) with (pi_nwrite p - pi_nread p - 1) by lia.
    rewrite <-Zminus_mod_idemp_l, Z.mod_small; [done|]. pose proof (Z.mod_pos_bound (pi_nwrite p - pi_nread p) (2 ^ 32)). lia. }
  split; [split; [apply u32_range|done|lia]|]. unfold queue. rewrite Hc, (seqZ_cons 0 (pipe_count p)) by lia. cbn [fmap list_fmap].
  rewrite Z.add_0_r. f_equal. change (Z.succ 0) with (1 + 0). change (Z.pred (pipe_count p)) with (pipe_count p - 1).
  rewrite <-fmap_add_seqZ, <-list_fmap_compose. apply list_fmap_ext. intros i k _. unfold compose. cbn [pi_data pi_nread pipe_advance].
  f_equal. rewrite <-(Zplus_mod_idemp_l (u32 _)), u32_mod_pipe, Zplus_mod_idemp_l. f_equal. lia.
Qed.

(** ** Pipes of the system *)

Definition pipe_at (s : kfs) (pi : Z) (p : pipe) : Prop := k_pipes s !! pi = Some p.
Definition put_pipe (pi : Z) (p : pipe) (s : kfs) : kfs := with_pipes (<[pi := p]> (k_pipes s)) s.

(** Pipes that differ in their counters and contents only. *)
Definition same_ends (p p' : pipe) : Prop :=
  pi_lock p' = pi_lock p ∧ pi_readopen p' = pi_readopen p ∧ pi_writeopen p' = pi_writeopen p.

#[export] Instance same_ends_preorder : PreOrder same_ends.
Proof. split; [done|]. intros p q r (E1 & E2 & E3) (F1 & F2 & F3). unfold same_ends. by rewrite F1, F2, F3. Qed.

Lemma pipe_at_put s pi p : pipe_at (put_pipe pi p s) pi p.
Proof. apply lookup_insert_eq. Qed.
Lemma put_pipe_put s pi p q : put_pipe pi q (put_pipe pi p s) = put_pipe pi q s.
Proof. unfold put_pipe, with_pipes. cbn. by rewrite insert_insert_eq. Qed.
Lemma put_pipe_same s pi p : pipe_at s pi p → put_pipe pi p s = s.
Proof. intros H. unfold put_pipe, with_pipes. rewrite insert_id by done. by destruct s. Qed.

Lemma runs_get_pipe s pi p (Q : pipe → kfs → Prop) : pipe_at s pi p → Q p s → runs (get_pipe pi) s Q.
Proof. intros H HQ. exists p, s. unfold get_pipe. by rewrite H. Qed.

Lemma runs_acquire_pipe s pi p Q :
  pipe_at s pi p → unlocked (pi_lock p) → Q tt (put_pipe pi (pipe_with_lock (held_by (k_hart s) (pi_lock p)) p) s) →
  runs (acquire_pipe pi) s Q.
Proof.
  intros H Hu HQ. eexists _, _. split; [|exact HQ]. unfold acquire_pipe, get_pipe. rewrite !M_bind_unfold. cbn.
  rewrite M_bind_unfold, H. cbn. rewrite M_bind_unfold. unfold lift. rewrite acquire_unlocked by done. reflexivity.
Qed.

Lemma runs_release_pipe s pi p l Q :
  pipe_at s pi p → unlocked l → pi_lock p = held_by (k_hart s) l → Q tt (put_pipe pi (pipe_with_lock l p) s) →
  runs (release_pipe pi) s Q.
Proof.
  intros H Hu Hl HQ. eexists _, _. split; [|exact HQ]. unfold release_pipe, get_pipe. rewrite !M_bind_unfold. cbn.
  rewrite M_bind_unfold, H. cbn. rewrite M_bind_unfold. unfold lift. rewrite Hl, release_held by done. reflexivity.
Qed.

Lemma runs_in_vm {A} (m : M vmstate A) s (Q : A → kfs → Prop) :
  runs m (k_vm s) (λ a v, Q a (with_vm v s)) → runs (in_vm m) s Q.
Proof. intros (a & v & E & HQ). exists a, (with_vm v s). unfold in_vm. by rewrite E. Qed.

Lemma with_vm_same s : with_vm (k_vm s) s = s.
Proof. by destruct s. Qed.

Lemma pipe_with_lock_ok l p : pipe_ok p → pipe_ok (pipe_with_lock l p) ∧ queue (pipe_with_lock l p) = queue p.
Proof. intros [H1 H2 H3]. split; [by split|done]. Qed.

(** The current process and its memory, as both calls need it. *)
Record user_ok (s : kfs) (T : gmap (list Z) Z) (flags a n : Z) : Prop := {
  uo_inv : pt_rep (v_mem (k_vm s)) T (v_pagetable (k_vm s));
  uo_range : user_range (v_mem (k_vm s)) T flags a n;
}.

Lemma user_ok_drop s T flags a n : 0 < n → user_ok s T flags a n → user_ok s T flags (a + 1) (n - 1).
Proof. intros Hn [H1 H2]. split; [done|]. by apply user_range_drop; [|lia]. Qed.

Lemma user_range_take m T flags a n k : user_range m T flags a n → k ≤ n → user_range m T flags a k.
Proof. intros [U1 U2 U3 U4] Hk. split; [done|lia|intros; apply U3; lia|intros; apply U4; [lia|lia|done]]. Qed.

(** ** Writing *)

Definition room (p : pipe) : Z := PIPESIZE - pipe_count p.

Lemma pipewrite_loop_S fuel pi addr n i :
  pipewrite_loop (S fuel) pi addr n i =
  if i <? n then
    p ← get_pipe pi;
    s ← get;
    if (pi_readopen p =? 0) || negb (v_killed (k_vm s) =? 0) then
      release_pipe pi;; mret (Done (-1))
    else if pi_nwrite p =? u32 (pi_nread p + PIPESIZE) then
      release_pipe pi;; mret (Asleep i)
    else
      '(l, r) ← user_copyin (u64 (addr + i)) 1;
      if r =? -1 then
        release_pipe pi;; mret (Done i)
      else
        p ← get_pipe pi;
        set_pipe pi (pipe_put (nth 0 l 0) p);;
        pipewrite_loop fuel pi addr n (i + 1)
  else
    release_pipe pi;; mret (Done i).
Proof. reflexivity. Qed.

(** As many bytes as there is room for go into the queue, in order; the
    call is complete if all did, and sleeps otherwise. *)
Definition written (s : kfs) T (pi : Z) (p : pipe) (l : spinlock) (addr n i : Z) (r : outcome) (s' : kfs) : Prop :=
  let k := Z.min (n - i) (room p) in
  r = (if i + k =? n then Done n else Asleep (i + k)) ∧
  ∃ p', s' = put_pipe pi p' s ∧ pipe_ok p' ∧ pi_lock p' = l ∧ same_ends p (pipe_with_lock (pi_lock p) p') ∧
    queue p' = queue p ++ user_bytes (v_mem (k_vm s)) T (addr + i) k.

Lemma runs_user_copyin s T a n (Q : list Z * Z → kfs → Prop) :
  user_ok s T 0 a n → 0 ≤ n → Q (user_bytes (v_mem (k_vm s)) T a n, 0) s → runs (user_copyin a n) s Q.
Proof.
  intros [Hv Hu] Hn HQ. unfold user_copyin. apply runs_bind. eapply runs_eq; [reflexivity|]. apply runs_in_vm.
  eapply runs_eq; [by apply (copyin_spec _ (k_vm s) T)|]. by rewrite with_vm_same.
Qed.

Lemma user_bytes_0 m T a : user_bytes m T a 0 = [].
Proof. done. Qed.
Lemma user_bytes_1 m T a : user_bytes m T a 1 = [bt m (user_addr m T (a + 0))].
Proof. done. Qed.

Lemma written_stop s T pi p l addr n i r :
  pipe_at s pi p → pipe_ok p → unlocked l → pi_lock p = held_by (k_hart s) l → 0 ≤ i ≤ n →
  (i = n ∧ r = Done i ∨ i < n ∧ room p = 0 ∧ r = Asleep i) →
  runs (release_pipe pi;; mret r) s (written s T pi p l addr n i).
Proof.
  intros Hp Hok Hl Hlk Hi Hr. assert (Hk : Z.min (n - i) (room p) = 0).
  { pose proof (po_count p Hok). unfold room in *. destruct Hr as [(-> & _)|(? & E & _)]; lia. }
  apply runs_bind, (runs_release_pipe s pi p l); [done..|]. apply runs_ret. unfold written. rewrite Hk, Z.add_0_r. split.
  - destruct Hr as [(-> & ->)|(? & _ & ->)]; [by rewrite Z.eqb_refl|]. by rewrite (proj2 (Z.eqb_neq i n)) by lia.
  - exists (pipe_with_lock l p). destruct (pipe_with_lock_ok l p Hok) as [Ho Hq].
    ands; [done|done|done|done|]. by rewrite Hq, user_bytes_0, app_nil_r.
Qed.

Lemma pipewrite_loop_spec fuel : ∀ s T pi p l addr n i,
  pipe_at s pi p → pipe_ok p → unlocked l → pi_lock p = held_by (k_hart s) l → 0 ≤ i ≤ n → n - i < Z.of_nat fuel →
  pi_readopen p ≠ 0 → v_killed (k_vm s) = 0 → user_ok s T 0 (addr + i) (n - i) →
  runs (pipewrite_loop fuel pi addr n i) s (written s T pi p l addr n i).
Proof.
  induction fuel as [|fuel IH]; intros s T pi p l addr n i Hp Hok Hl Hlk Hi Hf Hro Hk Hu; [lia|]. rewrite pipewrite_loop_S.
  destruct (Z.ltb_spec i n) as [Hin|Hin]; [|by apply written_stop; [..|left; split; [lia|]]].
  apply runs_bind, (runs_get_pipe s pi p); [done|]. apply runs_bind. eapply runs_eq; [reflexivity|].
  rewrite (proj2 (Z.eqb_neq _ 0)), Hk, pipe_full by done. cbn [orb negb Z.eqb].
  destruct (Z.eqb_spec (pipe_count p) PIPESIZE) as [Hfull|Hroom].
  { apply written_stop; [done..|]. right. unfold room. by ands; [lia|lia|]. }
  pose proof (po_count p Hok) as Hc. pose proof (uo_range _ _ _ _ _ Hu) as Hr.
  pose proof (ur_lo _ _ _ _ _ Hr). pose proof (ur_hi _ _ _ _ _ Hr) as Hhi. change MAXVA with (2 ^ 38) in Hhi.
  rewrite u64_small by lia. apply runs_bind. eapply (runs_user_copyin s T); [split; [apply Hu|eapply user_range_take; [done|lia]]|lia|].
  rewrite user_bytes_1. cbn [Z.eqb nth]. apply runs_bind, (runs_get_pipe s pi p); [done|].
  set (c := bt _ _). destruct (queue_put p c Hok ltac:(lia)) as [Hok' Hq']. pose proof (count_put p c Hok ltac:(lia)) as Hc'.
  apply runs_bind, runs_modify. change (with_pipes _ s) with (put_pipe pi (pipe_put c p) s).
  eapply runs_mono; [apply (IH (put_pipe pi (pipe_put c p) s) T pi (pipe_put c p) l); try done; [apply pipe_at_put|lia|lia|]|].
  { replace (addr + (i + 1)) with (addr + i + 1) by lia. replace (n - (i + 1)) with (n - i - 1) by lia.
    apply user_ok_drop in Hu; [|lia]. destruct Hu. by split. }
  intros r s' (-> & p' & -> & Hp' & El & Ends & Hq). unfold written.
  assert (Ek : Z.min (n - i) (room p) = 1 + Z.min (n - (i + 1)) (room (pipe_put c p))) by (unfold room; lia).
  set (k := Z.min (n - (i + 1)) _) in *. rewrite Ek. split.
  { by replace (i + (1 + k)) with (i + 1 + k) by lia. }
  exists p'. ands; [by rewrite put_pipe_put|done|done|done|]. rewrite Hq, Hq', <-app_assoc. f_equal.
  rewrite (user_bytes_app _ _ _ (1 + k) 1) by (unfold room in *; lia). rewrite user_bytes_1. f_equal.
  by replace (addr + (i + 1)) with (addr + i + 1) by lia; replace (1 + k - 1) with k by lia.
Qed.

Lemma pipewrite_from_spec s T pi p addr n i :
  pipe_at s pi p → pipe_ok p → unlocked (pi_lock p) → 0 ≤ i ≤ n → pi_readopen p ≠ 0 → v_killed (k_vm s) = 0 →
  user_ok s T 0 (addr + i) (n - i) →
  runs (pipewrite_from pi addr n i) s (written s T pi p (pi_lock p) addr n i).
Proof.
  intros Hp Hok Hl Hi Hro Hk Hu. unfold pipewrite_from. apply runs_bind, (runs_acquire_pipe s pi p); [done|done|].
  set (p1 := pipe_with_lock _ p). destruct (pipe_with_lock_ok (held_by (k_hart s) (pi_lock p)) p Hok) as [Hok1 Hq1].
  eapply runs_mono; [apply (pipewrite_loop_spec _ (put_pipe pi p1 s) T pi p1 (pi_lock p)); try done; [apply pipe_at_put|lia|]|].
  { destruct Hu. by split. }
  intros r s' (-> & p' & -> & Hp' & El & (E1 & E2 & E3) & Hq). split; [done|]. exists p'. rewrite put_pipe_put, Hq. by ands.
Qed.

(** ** Reading *)

Lemma piperead_loop_S fuel pi addr n i :
  piperead_loop (S fuel) pi addr n i =
  if i <? n then
    p ← get_pipe pi;
    if pi_nread p =? pi_nwrite p then mret i
    else
      r ← user_copyout (u64 (addr + i)) [pipe_peek p];
      if r =? -1 then mret (if i =? 0 then -1 else i)
      else
        p ← get_pipe pi;
        set_pipe pi (pipe_advance p);;
        piperead_loop fuel pi addr n (i + 1)
  else mret i.
Proof. reflexivity. Qed.

Lemma runs_user_copyout s T a l (Q : Z → kfs → Prop) :
  user_ok s T PTE_W a (Z.of_nat (length l)) →
  (∀ m', pt_rep m' T (v_pagetable (k_vm s)) →
    (∀ va, mapping m' T va = mapping (v_mem (k_vm s)) T va) → stored (v_mem (k_vm s)) T a l m' →
    Q 0 (with_vm (vm_with_mem m' (k_vm s)) s)) →
  runs (user_copyout a l) s Q.
Proof.
  intros [Hv Hu] HQ. unfold user_copyout. apply runs_bind. eapply runs_eq; [reflexivity|]. apply runs_in_vm.
  eapply runs_mono; [by apply (copyout_spec _ (k_vm s) T)|]. intros r v (-> & m' & -> & H1 & H2 & H3). by apply HQ.
Qed.

(** [l] is removed from the front of the queue and stored at [a]. *)
Definition moved (s : kfs) T (pi : Z) (p : pipe) (a : Z) (l : list Z) (s' : kfs) : Prop :=
  ∃ m' p', s' = with_vm (vm_with_mem m' (k_vm s)) (put_pipe pi p' s) ∧
    pt_rep m' T (v_pagetable (k_vm s)) ∧ (∀ va, mapping m' T va = mapping (v_mem (k_vm s)) T va) ∧
    stored (v_mem (k_vm s)) T a l m' ∧ pipe_ok p' ∧ same_ends p p' ∧ queue p = l ++ queue p'.

Lemma moved_nil s T pi p a : pt_rep (v_mem (k_vm s)) T (v_pagetable (k_vm s)) → pipe_at s pi p → pipe_ok p → moved s T pi p a [] s.
Proof.
  intros Hv Hp Hok. exists (v_mem (k_vm s)), p. rewrite put_pipe_same by done.
  assert (E : vm_with_mem (v_mem (k_vm s)) (k_vm s) = k_vm s) by (by destruct (k_vm s)).
  rewrite E, with_vm_same. ands; [done|done|done|split; [cbn; lia|done]|done|done|done].
Qed.

(** A step, then the rest. *)
Lemma moved_cons s T pi p a x l m1 s' :
  pipe_ok p → 0 < pipe_count p → x = pipe_peek p →
  user_range (v_mem (k_vm s)) T PTE_W a (Z.of_nat (length (x :: l))) →
  (∀ va, mapping m1 T va = mapping (v_mem (k_vm s)) T va) → stored (v_mem (k_vm s)) T a [x] m1 →
  moved (put_pipe pi (pipe_advance p) (with_vm (vm_with_mem m1 (k_vm s)) s)) T pi (pipe_advance p) (a + 1) l s' →
  moved s T pi p a (x :: l) s'.
Proof.
  intros Hok Hc -> Hu Hm Hst (m' & p' & Es & Hv & Hm' & Hst' & Hok' & Hends & Hq).
  destruct (queue_advance p Hok Hc) as [_ Hqp]. exists m', p'. ands.
  - rewrite Es. unfold put_pipe, with_pipes, with_vm. cbn. by rewrite insert_insert_eq.
  - exact Hv.
  - intros va. by rewrite Hm', <-Hm.
  - change (pipe_peek p :: l) with ([pipe_peek p] ++ l) in *. by eapply stored_app.
  - done.
  - etransitivity; [|exact Hends]. done.
  - by rewrite Hqp, Hq.
Qed.

Lemma queue_empty p : pipe_count p = 0 → queue p = [].
Proof. intros E. pose proof (length_queue p) as H. rewrite E in H. by destruct (queue p). Qed.

Lemma piperead_loop_spec fuel : ∀ s T pi p addr n i,
  pipe_at s pi p → pipe_ok p → 0 ≤ i ≤ n → n - i < Z.of_nat fuel → user_ok s T PTE_W (addr + i) (n - i) →
  runs (piperead_loop fuel pi addr n i) s (λ r s', let l := take (Z.to_nat (n - i)) (queue p) in
    r = i + Z.of_nat (length l) ∧ moved s T pi p (addr + i) l s').
Proof.
  induction fuel as [|fuel IH]; intros s T pi p addr n i Hp Hok Hi Hf Hu; [lia|]. rewrite piperead_loop_S.
  destruct (Z.ltb_spec i n) as [Hin|Hin].
  2: { apply runs_ret. replace (Z.to_nat (n - i)) with 0%nat by lia. rewrite take_0. cbv zeta. split; [symmetry; apply Z.add_0_r|]. apply moved_nil; [apply Hu|done|done]. }
  apply runs_bind, (runs_get_pipe s pi p); [done|]. rewrite pipe_empty by done.
  destruct (Z.eqb_spec (pipe_count p) 0) as [He|He].
  { apply runs_ret. rewrite queue_empty, take_nil by done. cbv zeta. split; [symmetry; apply Z.add_0_r|]. apply moved_nil; [apply Hu|done|done]. }
  pose proof (pipe_count_range p). destruct (queue_advance p Hok ltac:(lia)) as [Hok' Hq].
  pose proof (uo_range _ _ _ _ _ Hu) as Hr. pose proof (ur_lo _ _ _ _ _ Hr). pose proof (ur_hi _ _ _ _ _ Hr) as Hhi.
  change MAXVA with (2 ^ 38) in Hhi. rewrite u64_small by lia. apply runs_bind.
  apply (runs_user_copyout s T); [split; [apply Hu|eapply user_range_take; [done|cbn; lia]]|]. intros m1 Hv1 Hm1 Hst1.
  cbn [Z.eqb]. apply runs_bind, (runs_get_pipe _ pi p); [done|]. apply runs_bind, runs_modify.
  set (s1 := with_vm (vm_with_mem m1 (k_vm s)) s). change (with_pipes _ s1) with (put_pipe pi (pipe_advance p) s1).
  eapply runs_mono; [apply (IH (put_pipe pi (pipe_advance p) s1) T pi (pipe_advance p)); [apply pipe_at_put|done|lia|lia|]|].
  { replace (addr + (i + 1)) with (addr + i + 1) by lia. replace (n - (i + 1)) with (n - i - 1) by lia.
    apply user_ok_drop; [lia|]. split; [exact Hv1|]. by apply (user_range_ext_map (v_mem (k_vm s))). }
  intros r s' [-> Hmv]. rewrite Hq. replace (Z.to_nat (n - i)) with (S (Z.to_nat (n - (i + 1)))) by lia. cbn [take length].
  set (l := take _ _) in *. split; [lia|]. eapply moved_cons; [done|lia|done| |exact Hm1|exact Hst1|].
  - eapply user_range_take; [done|]. cbn [length]. unfold l. rewrite length_take. lia.
  - by replace (addr + i + 1) with (addr + (i + 1)) by lia.
Qed.

(** A read returns what is there, up to [n] bytes, if there is something or
    no writer is left, and sleeps otherwise. *)
Lemma piperead_from_spec s T pi p addr n :
  pipe_at s pi p → pipe_ok p → unlocked (pi_lock p) → 0 ≤ n → v_killed (k_vm s) = 0 → user_ok s T PTE_W addr n →
  runs (piperead_from pi addr n) s (λ r s',
    if (pipe_count p =? 0) && negb (pi_writeopen p =? 0) then r = Asleep 0 ∧ s' = s
    else let l := take (Z.to_nat n) (queue p) in r = Done (Z.of_nat (length l)) ∧ moved s T pi p addr l s').
Proof.
  intros Hp Hok Hl Hn Hk Hu. unfold piperead_from. apply runs_bind, (runs_acquire_pipe s pi p); [done|done|].
  set (p1 := pipe_with_lock _ p). destruct (pipe_with_lock_ok (held_by (k_hart s) (pi_lock p)) p Hok) as [Hok1 Hq1].
  assert (Epp : pipe_with_lock (pi_lock p) p1 = p) by (by destruct p).
  apply runs_bind, (runs_get_pipe _ pi p1); [apply pipe_at_put|]. apply runs_bind. eapply runs_eq; [reflexivity|].
  rewrite pipe_empty by done. change (pipe_count p1) with (pipe_count p). change (pi_writeopen p1) with (pi_writeopen p).
  destruct (_ && _) eqn:Eb.
  - apply runs_bind, (runs_release_pipe _ pi p1 (pi_lock p)); [apply pipe_at_put|done|done|]. apply runs_ret.
    cbn [put_pipe with_pipes k_vm]. rewrite Hk, Epp, put_pipe_put, put_pipe_same by done. done.
  - apply runs_bind. eapply runs_mono; [apply (piperead_loop_spec _ _ T pi p1); [apply pipe_at_put|done|lia|lia|]|].
    { rewrite Z.add_0_r, Z.sub_0_r. destruct Hu. by split. }
    intros r s' [-> (m' & p' & -> & Hv & Hm & Hst & Hok' & (E1 & E2 & E3) & Hq)]. fold p1 in Hq1. rewrite Z.sub_0_r, Hq1 in Hst, Hq |- *. rewrite Z.add_0_r in Hst.
    apply runs_bind, (runs_release_pipe _ pi p' (pi_lock p)); [apply pipe_at_put|done|done|]. apply runs_ret. split; [done|].
    exists m', (pipe_with_lock (pi_lock p) p'). destruct (pipe_with_lock_ok (pi_lock p) p' Hok') as [Ho2 Hq2].
    ands; [|exact Hv|done|done|done|done|by rewrite Hq2].
    unfold put_pipe, with_pipes, with_vm. cbn. by rewrite !insert_insert_eq.
Qed.
