(* ===== verification/SysFile.v ===== *)
(** * File system calls (kernel/sysfile.c, kernel/exec.c, kernel/fcntl.h)

    Paths and strings fetched from user memory are lists of characters; a
    [char *argv[]] of the kernel is the list of its strings, each with the
    page that holds it. *)

From S2P Require Import Prelude Spinlock Riscv Mem Vm FsState Bio Log Fs Pipe.

Definition O_RDONLY : Z := 0x000.
Definition O_WRONLY : Z := 0x001.
Definition O_RDWR : Z := 0x002.
Definition O_CREATE : Z := 0x200.
Definition O_TRUNC : Z := 0x400.

Definition MAXARG : Z := 32.
Definition MAXPATH : Z := 128.
Definition USERSTACK : Z := 1.

Definition dot : list Z := [46].
Definition dotdot : list Z := [46; 46].

(** ** File descriptors *)

(** The descriptor and the file, or [None] for the result -1. *)
Definition argfd (n : Z) : M kfs (option (Z * nat)) :=
  fd ← in_vm (argint n);
  s ← get;
  if (fd <? 0) || (NOFILE <=? fd) then mret None
  else
    match k_ofile s !! Z.to_nat fd with
    | Some (Some f) => mret (Some (fd, f))
    | Some None => mret None
    | None => fault
    end.

(** The first free descriptor, from [fd] on. *)
Fixpoint find_fd (l : list (option nat)) (fd : Z) : option Z :=
  match l with
  | [] => None
  | Some _ :: l => find_fd l (fd + 1)
  | None :: _ => Some fd
  end.

Definition set_ofile (fd : Z) (f : option nat) : M kfs unit :=
  modify (λ s, with_ofile (<[Z.to_nat fd := f]> (k_ofile s)) s).

Definition fdalloc (f : nat) : M kfs Z :=
  s ← get;
  match find_fd (k_ofile s) 0 with
  | Some fd =>
    set_ofile fd (Some f);;
    mret fd
  | None => mret (-1)
  end.

Definition sys_dup : M kfs Z :=
  a ← argfd 0;
  match a with
  | None => mret (-1)
  | Some (_, f) =>
    fd ← fdalloc f;
    if fd <? 0 then mret (-1)
    else
      filedup f;;
      mret fd
  end.

Definition sys_close : M kfs Z :=
  a ← argfd 0;
  match a with
  | None => mret (-1)
  | Some (fd, f) =>
    set_ofile fd None;;
    fileclose f;;
    mret 0
  end.

Definition sys_fstat : M kfs Z :=
  st ← in_vm (argaddr 1);
  a ← argfd 0;
  match a with
  | None => mret (-1)
  | Some (_, f) => filestat f st
  end.

Section rw.
Context (devsw_read devsw_write : Z → option (Z → Z → M kfs Z)).

Definition sys_read : M kfs Z :=
  p ← in_vm (argaddr 1);
  n ← in_vm (argint 2);
  a ← argfd 0;
  match a with
  | None => mret (-1)
  | Some (_, f) => fileread devsw_read f p n
  end.

Definition sys_write : M kfs Z :=
  p ← in_vm (argaddr 1);
  n ← in_vm (argint 2);
  a ← argfd 0;
  match a with
  | None => mret (-1)
  | Some (_, f) => filewrite devsw_write f p n
  end.
End rw.

(** ** Directories *)

(** The label [bad] of [sys_link]. *)
Definition link_bad (ip : nat) : M kfs Z :=
  ilock (Some ip);;
  modify_inode ip (λ i, inode_with_nlink (s16 (i_nlink i - 1)) i);;
  iupdate ip;;
  iunlockput ip;;
  end_op;;
  mret (-1).

Definition sys_link : M kfs Z :=
  old ← in_vm (argstr 0 MAXPATH);
  match old with
  | None => mret (-1)
  | Some old =>
    new ← in_vm (argstr 1 MAXPATH);
    match new with
    | None => mret (-1)
    | Some new =>
      begin_op;;
      ip ← namei user_copyout old;
      match ip with
      | None => end_op;; mret (-1)
      | Some ip =>
        ilock (Some ip);;
        i ← get_inode ip;
        if i_type i =? T_DIR then
          iunlockput ip;;
          end_op;;
          mret (-1)
        else
          modify_inode ip (λ i, inode_with_nlink (s16 (i_nlink i + 1)) i);;
          iupdate ip;;
          iunlock (Some ip);;
          '(dp, name) ← nameiparent user_copyout new;
          match dp with
          | None => link_bad ip
          | Some dp =>
            ilock (Some dp);;
            d ← get_inode dp;
            i ← get_inode ip;
            r ← (if negb (i_dev d =? i_dev i) then mret (-1)
                 else dirlink user_copyout user_copyin dp name (i_inum i));
            if r <? 0 then
              iunlockput dp;;
              link_bad ip
            else
              iunlockput dp;;
              iput ip;;
              end_op;;
              mret 0
          end
      end
    end
  end.

Fixpoint isdirempty_loop (fuel : nat) (dp : nat) (off : Z) : M kfs bool :=
  match fuel with
  | O => out_of_fuel
  | S fuel =>
    d ← get_inode dp;
    if off <? i_size d then
      '(n, de) ← readi user_copyout dp ToLocal off sizeof_dirent;
      if negb (n =? sizeof_dirent) then panic "isdirempty: readi"
      else if negb (de_inum de =? 0) then mret false
      else isdirempty_loop fuel dp (off + sizeof_dirent)
    else mret true
  end.

Definition isdirempty (dp : nat) : M kfs bool :=
  d ← get_inode dp;
  isdirempty_loop (Z.to_nat (i_size d / sizeof_dirent + 2)) dp (2 * sizeof_dirent).

(** The label [bad] of [sys_unlink]. *)
Definition unlink_bad (dp : nat) : M kfs Z :=
  iunlockput dp;;
  end_op;;
  mret (-1).

Definition sys_unlink : M kfs Z :=
  path ← in_vm (argstr 0 MAXPATH);
  match path with
  | None => mret (-1)
  | Some path =>
    begin_op;;
    '(dp, name) ← nameiparent user_copyout path;
    match dp with
    | None => end_op;; mret (-1)
    | Some dp =>
      ilock (Some dp);;
      if (namecmp name dot =? 0) || (namecmp name dotdot =? 0) then unlink_bad dp
      else
        r ← dirlookup user_copyout dp name;
        match r with
        | None => unlink_bad dp
        | Some (ip, off) =>
          ilock (Some ip);;
          i ← get_inode ip;
          if i_nlink i <? 1 then panic "unlink: nlink < 1"
          else
            empty ← (if i_type i =? T_DIR then isdirempty ip else mret true);
            if negb (empty : bool) then
              iunlockput ip;;
              unlink_bad dp
            else
              n ← writei user_copyin dp (FromLocal (replicate (Z.to_nat sizeof_dirent) 0)) off sizeof_dirent;
              if negb (n =? sizeof_dirent) then panic "unlink: writei"
              else
                i ← get_inode ip;
                (if i_type i =? T_DIR then
                   modify_inode dp (λ d, inode_with_nlink (s16 (i_nlink d - 1)) d);;
                   iupdate dp
                 else mret tt);;
                iunlockput dp;;
                modify_inode ip (λ i, inode_with_nlink (s16 (i_nlink i - 1)) i);;
                iupdate ip;;
                iunlockput ip;;
                end_op;;
                mret 0
        end
    end
  end.

(** The label [fail] of [create]. *)
Definition create_fail (ip dp : nat) : M kfs (option nat) :=
  modify_inode ip (inode_with_nlink 0);;
  iupdate ip;;
  iunlockput ip;;
  iunlockput dp;;
  mret None.

Definition create (path : list Z) (type major minor : Z) : M kfs (option nat) :=
  '(dp, name) ← nameiparent user_copyout path;
  match dp with
  | None => mret None
  | Some dp =>
    ilock (Some dp);;
    r ← dirlookup user_copyout dp name;
    match r with
    | Some (ip, _) =>
      iunlockput dp;;
      ilock (Some ip);;
      i ← get_inode ip;
      if (type =? T_FILE) && ((i_type i =? T_FILE) || (i_type i =? T_DEVICE)) then mret (Some ip)
      else
        iunlockput ip;;
        mret None
    | None =>
      d ← get_inode dp;
      ip ← ialloc (i_dev d) type;
      match ip with
      | None =>
        iunlockput dp;;
        mret None
      | Some ip =>
        ilock (Some ip);;
        modify_inode ip (λ i, mk_inode (i_dev i) (i_inum i) (i_ref i) (i_lock i) (i_valid i) (i_type i)
                                       major minor 1 (i_size i) (i_addrs i));;
        iupdate ip;;
        i ← get_inode ip;
        r ← (if type =? T_DIR then
               r ← dirlink user_copyout user_copyin ip dot (i_inum i);
               if r <? 0 then mret r
               else
                 d ← get_inode dp;
                 dirlink user_copyout user_copyin ip dotdot (i_inum d)
             else mret 0);
        if r <? 0 then create_fail ip dp
        else
          r ← dirlink user_copyout user_copyin dp name (i_inum i);
          if r <? 0 then create_fail ip dp
          else
            (if type =? T_DIR then
               modify_inode dp (λ d, inode_with_nlink (s16 (i_nlink d + 1)) d);;
               iupdate dp
             else mret tt);;
            iunlockput dp;;
            mret (Some ip)
      end
    end
  end.

(** The early return of [sys_open] once the inode is locked. *)
Definition open_bad (ip : nat) : M kfs Z :=
  iunlockput ip;;
  end_op;;
  mret (-1).

(** [sys_open] from the allocation of the file on. *)
Definition open_file (ip : nat) (omode : Z) : M kfs Z :=
  i ← get_inode ip;
  if (i_type i =? T_DEVICE) && ((i_major i <? 0) || (NDEV <=? i_major i)) then open_bad ip
  else
    f ← filealloc;
    match f with
    | None => open_bad ip
    | Some f =>
      fd ← fdalloc f;
      if fd <? 0 then
        fileclose f;;
        open_bad ip
      else
        let readable := if Z.land omode O_WRONLY =? 0 then 1 else 0 in
        let writable := if negb (Z.land omode O_WRONLY =? 0) || negb (Z.land omode O_RDWR =? 0) then 1 else 0 in
        modify_file f (λ x,
          if i_type i =? T_DEVICE
          then mk_file FD_DEVICE (f_ref x) readable writable (f_pipe x) ip (f_off x) (i_major i)
          else mk_file FD_INODE (f_ref x) readable writable (f_pipe x) ip 0 (f_major x));;
        (if negb (Z.land omode O_TRUNC =? 0) && (i_type i =? T_FILE) then itrunc ip else mret tt);;
        iunlock (Some ip);;
        end_op;;
        mret fd
    end.

Definition sys_open : M kfs Z :=
  omode ← in_vm (argint 1);
  path ← in_vm (argstr 0 MAXPATH);
  match path with
  | None => mret (-1)
  | Some path =>
    begin_op;;
    if negb (Z.land omode O_CREATE =? 0) then
      ip ← create path T_FILE 0 0;
      match ip with
      | None => end_op;; mret (-1)
      | Some ip => open_file ip omode
      end
    else
      ip ← namei user_copyout path;
      match ip with
      | None => end_op;; mret (-1)
      | Some ip =>
        ilock (Some ip);;
        i ← get_inode ip;
        if (i_type i =? T_DIR) && negb (omode =? O_RDONLY) then open_bad ip
        else open_file ip omode
      end
  end.

(** The end of [sys_mkdir] and [sys_mknod]. *)
Definition finish_create (ip : option nat) : M kfs Z :=
  match ip with
  | None => end_op;; mret (-1)
  | Some ip =>
    iunlockput ip;;
    end_op;;
    mret 0
  end.

Definition sys_mkdir : M kfs Z :=
  begin_op;;
  path ← in_vm (argstr 0 MAXPATH);
  match path with
  | None => end_op;; mret (-1)
  | Some path =>
    ip ← create path T_DIR 0 0;
    finish_create ip
  end.

Definition sys_mknod : M kfs Z :=
  begin_op;;
  major ← in_vm (argint 1);
  minor ← in_vm (argint 2);
  path ← in_vm (argstr 0 MAXPATH);
  match path with
  | None => end_op;; mret (-1)
  | Some path =>
    ip ← create path T_DEVICE (s16 major) (s16 minor);
    finish_create ip
  end.

Definition sys_chdir : M kfs Z :=
  begin_op;;
  path ← in_vm (argstr 0 MAXPATH);
  match path with
  | None => end_op;; mret (-1)
  | Some path =>
    ip ← namei user_copyout path;
    match ip with
    | None => end_op;; mret (-1)
    | Some ip =>
      ilock (Some ip);;
      i ← get_inode ip;
      if negb (i_type i =? T_DIR) then
        iunlockput ip;;
        end_op;;
        mret (-1)
      else
        iunlock (Some ip);;
        cwd ← get_cwd;
        iput cwd;;
        end_op;;
        modify (with_cwd (Some ip));;
        mret 0
    end
  end.

(** ** Pipes *)

(** The four bytes of an [int]. *)
Definition int_bytes (x : Z) : list Z := get_bytes (stn 4 ∅ 0 x) 0 4.

Definition sys_pipe : M kfs Z :=
  fdarray ← in_vm (argaddr 0);
  r ← pipealloc;
  match r with
  | None => mret (-1)
  | Some (rf, wf) =>
    fd0 ← fdalloc rf;
    if fd0 <? 0 then
      fileclose rf;;
      fileclose wf;;
      mret (-1)
    else
      fd1 ← fdalloc wf;
      if fd1 <? 0 then
        set_ofile fd0 None;;
        fileclose rf;;
        fileclose wf;;
        mret (-1)
      else
        r ← user_copyout fdarray (int_bytes fd0);
        r ← (if r <? 0 then mret r else user_copyout (u64 (fdarray + 4)) (int_bytes fd1));
        if r <? 0 then
          set_ofile fd0 None;;
          set_ofile fd1 None;;
          fileclose rf;;
          fileclose wf;;
          mret (-1)
        else mret 0
  end.

(** ** Programs (kernel/exec.c, kernel/elf.h) *)

Definition ELF_MAGIC : Z := 0x464C457F.
Definition ELF_PROG_LOAD : Z := 1.

(** The field of [n] bytes at offset [off] of a structure. *)
Definition field (n : nat) (off : Z) (l : list Z) : Z := ldn n (put_bytes ∅ 0 l) off.

Definition sizeof_elfhdr : Z := 64.
Definition elf_magic (l : list Z) : Z := field 4 0 l.
Definition elf_entry (l : list Z) : Z := field 8 24 l.
Definition elf_phoff (l : list Z) : Z := field 8 32 l.
Definition elf_phnum (l : list Z) : Z := field 2 56 l.

Definition sizeof_proghdr : Z := 56.
Definition ph_type (l : list Z) : Z := field 4 0 l.
Definition ph_flags (l : list Z) : Z := field 4 4 l.
Definition ph_off (l : list Z) : Z := field 8 8 l.
Definition ph_vaddr (l : list Z) : Z := field 8 16 l.
Definition ph_filesz (l : list Z) : Z := field 8 32 l.
Definition ph_memsz (l : list Z) : Z := field 8 40 l.

Definition flags2perm (flags : Z) : Z :=
  let perm := if negb (Z.land flags 0x1 =? 0) then PTE_X else 0 in
  if negb (Z.land flags 0x2 =? 0) then Z.lor perm PTE_W else perm.

Fixpoint loadseg_loop (fuel : nat) (pagetable va : Z) (ip : nat) (offset sz i : Z) : M kfs Z :=
  match fuel with
  | O => out_of_fuel
  | S fuel =>
    if i <? sz then
      pa ← in_vm (walkaddr pagetable (u64 (va + i)));
      if pa =? 0 then panic "loadseg: address should exist"
      else
        let n := if sz - i <? PGSIZE then sz - i else PGSIZE in
        '(r, _) ← readi user_copyout ip (ToKernel pa) (u32 (offset + i)) n;
        if negb (r =? n) then mret (-1)
        else loadseg_loop fuel pagetable va ip offset sz (i + PGSIZE)
    else mret 0
  end.

Definition loadseg (pagetable va : Z) (ip : nat) (offset sz : Z) : M kfs Z :=
  loadseg_loop (Z.to_nat (sz / PGSIZE + 2)) pagetable va ip offset sz 0.

(** The label [bad] of [kexec]. *)
Definition exec_bad (pagetable sz : Z) (ip : option nat) : M kfs Z :=
  (if negb (pagetable =? 0) then in_vm (proc_freepagetable pagetable sz) else mret tt);;
  match ip with
  | Some ip =>
    iunlockput ip;;
    end_op
  | None => mret tt
  end;;
  mret (-1).

(** The loop over the program headers, [n] to go: whether all were loaded,
    and the final [sz]. *)
Fixpoint load_loop (n : nat) (pagetable : Z) (ip : nat) (off sz : Z) : M kfs (bool * Z) :=
  match n with
  | O => mret (true, sz)
  | S n =>
    '(r, ph) ← readi user_copyout ip ToLocal (u32 off) sizeof_proghdr;
    if negb (r =? sizeof_proghdr) then mret (false, sz)
    else if negb (ph_type ph =? ELF_PROG_LOAD) then load_loop n pagetable ip (s32 (off + sizeof_proghdr)) sz
    else if ph_memsz ph <? ph_filesz ph then mret (false, sz)
    else if u64 (ph_vaddr ph + ph_memsz ph) <? ph_vaddr ph then mret (false, sz)
    else if negb (ph_vaddr ph mod PGSIZE =? 0) then mret (false, sz)
    else
      sz1 ← in_vm (uvmalloc pagetable sz (u64 (ph_vaddr ph + ph_memsz ph)) (flags2perm (ph_flags ph)));
      if sz1 =? 0 then mret (false, sz)
      else
        r ← loadseg pagetable (ph_vaddr ph) ip (u32 (ph_off ph)) (u32 (ph_filesz ph));
        if r <? 0 then mret (false, sz1)
        else load_loop n pagetable ip (s32 (off + sizeof_proghdr)) sz1
  end.

(** The loop that pushes the argument strings: the final [sp] and the
    addresses, or [None] if one does not fit. *)
Fixpoint push_args (pagetable stackbase : Z) (argv : list (list Z)) (argc sp : Z) (ustack : list Z) :
    M kfs (option (Z * list Z)) :=
  match argv with
  | [] => mret (Some (sp, ustack))
  | arg :: argv =>
    if MAXARG <=? argc then mret None
    else
      let sp := u64 (sp - (Z.of_nat (length arg) + 1)) in
      let sp := sp - sp mod 16 in
      if sp <? stackbase then mret None
      else
        r ← in_vm (copyout pagetable sp (arg ++ [0]));
        if r <? 0 then mret None
        else push_args pagetable stackbase argv (argc + 1) sp (ustack ++ [sp])
  end.

(** The characters after the last slash. *)
Fixpoint last_elem (path last : list Z) : list Z :=
  match path with
  | [] => last
  | c :: p => last_elem p (if c =? slash then p else last)
  end.

Definition word_bytes (x : Z) : list Z := get_bytes (stn 8 ∅ 0 x) 0 8.

(** [kexec] from the stack on. *)
Definition exec_stack (path : list Z) (argv : list (list Z)) (elf : list Z) (pagetable sz : Z) : M kfs Z :=
  s ← get;
  let oldsz := v_sz (k_vm s) in
  let sz := PGROUNDUP sz in
  sz1 ← in_vm (uvmalloc pagetable sz (u64 (sz + (USERSTACK + 1) * PGSIZE)) PTE_W);
  if sz1 =? 0 then exec_bad pagetable sz None
  else
    let sz := sz1 in
    in_vm (uvmclear pagetable (u64 (sz - (USERSTACK + 1) * PGSIZE)));;
    let stackbase := sz - USERSTACK * PGSIZE in
    args ← push_args pagetable stackbase argv 0 sz [];
    match args with
    | None => exec_bad pagetable sz None
    | Some (sp, ustack) =>
      let argc := Z.of_nat (length ustack) in
      let sp := u64 (sp - (argc + 1) * 8) in
      let sp := sp - sp mod 16 in
      if sp <? stackbase then exec_bad pagetable sz None
      else
        r ← in_vm (copyout pagetable sp (concat (word_bytes <$> ustack ++ [0])));
        if r <? 0 then exec_bad pagetable sz None
        else
          s ← get;
          let tf := v_trapframe (k_vm s) in
          in_vm (store64 (tf + 120) sp);;
          modify (with_name (take 15 (last_elem path path)));;
          let oldpagetable := v_pagetable (k_vm s) in
          in_vm (modify (λ v, vm_with_sz sz (vm_with_pagetable pagetable v)));;
          in_vm (store64 (tf + 24) (elf_entry elf));;
          in_vm (store64 (tf + 48) sp);;
          in_vm (proc_freepagetable oldpagetable oldsz);;
          mret argc
    end.

Definition kexec (path : list Z) (argv : list (list Z)) : M kfs Z :=
  begin_op;;
  ip ← namei user_copyout path;
  match ip with
  | None =>
    end_op;;
    mret (-1)
  | Some ip =>
    ilock (Some ip);;
    '(r, elf) ← readi user_copyout ip ToLocal 0 sizeof_elfhdr;
    if negb (r =? sizeof_elfhdr) then exec_bad 0 0 (Some ip)
    else if negb (elf_magic elf =? ELF_MAGIC) then exec_bad 0 0 (Some ip)
    else
      pagetable ← in_vm proc_pagetable;
      if pagetable =? 0 then exec_bad 0 0 (Some ip)
      else
        '(ok, sz) ← load_loop (Z.to_nat (elf_phnum elf)) pagetable ip (s32 (elf_phoff elf)) 0;
        if negb (ok : bool) then exec_bad pagetable sz (Some ip)
        else
          iunlockput ip;;
          end_op;;
          exec_stack path argv elf pagetable sz
  end.

(** The loop of [sys_exec]: whether it reached the null pointer, the pages
    allocated and the strings in them. *)
Fixpoint exec_args (fuel : nat) (uargv i : Z) (argv : list (Z * list Z)) : M kfs (bool * list (Z * list Z)) :=
  match fuel with
  | O => out_of_fuel
  | S fuel =>
    if MAXARG <=? i then mret (false, argv)
    else
      uarg ← in_vm (fetchaddr (u64 (uargv + 8 * i)));
      match uarg with
      | None => mret (false, argv)
      | Some uarg =>
        if uarg =? 0 then mret (true, argv)
        else
          page ← in_vm vm_kalloc;
          if page =? 0 then mret (false, argv)
          else
            str ← in_vm (fetchstr uarg PGSIZE);
            match str with
            | None => mret (false, argv ++ [(page, [])])
            | Some str => exec_args fuel uargv (i + 1) (argv ++ [(page, str)])
            end
      end
  end.

Fixpoint free_args (argv : list (Z * list Z)) : M kfs unit :=
  match argv with
  | [] => mret tt
  | (page, _) :: argv => in_vm (vm_kfree page);; free_args argv
  end.

Definition sys_exec : M kfs Z :=
  uargv ← in_vm (argaddr 1);
  path ← in_vm (argstr 0 MAXPATH);
  match path with
  | None => mret (-1)
  | Some path =>
    '(ok, argv) ← exec_args (Z.to_nat (MAXARG + 1)) uargv 0 [];
    ret ← (if (ok : bool) then kexec path argv.*2 else mret (-1));
    free_args argv;;
    mret ret
  end.
