(* ===== verification/Proc.v ===== *)
(** * Processes (kernel/proc.c, kernel/proc.h, kernel/sysproc.c and the interrupt
    part of kernel/spinlock.c)

    The code of hart [h] on the whole kernel state.  File system and memory
    code runs through [run_as i], which gives it the fields of process [i]
    and stores them back.  A call that switches to the scheduler is cut at
    [swtch] (kernel/swtch.S): [sched_out] is what runs before it,
    [sched_in] what runs when the thread is resumed, and a call that goes
    to sleep returns [Asleep]. *)

From S2P Require Import Prelude Spinlock Riscv Mem Buddy KString Vm FsState Bio Log Fs Pipe SysFile.

Inductive procstate := UNUSED | USED | SLEEPING | RUNNABLE | RUNNING | ZOMBIE.

#[export] Instance procstate_eq_dec : EqDecision procstate.
Proof. solve_decision. Defined.

(** The addresses that processes sleep on. *)
Inductive chan :=
  | CProc (i : nat)
  | CTicks
  | CPipeRead (pi : Z)
  | CPipeWrite (pi : Z)
  | CLog
  | CBuf (i : nat)
  | CInode (i : nat)
  | CCons
  | CUart
  | CDiskFree
  | CDiskBuf (i : nat).

#[export] Instance chan_eq_dec : EqDecision chan.
Proof. solve_decision. Defined.

(** [struct proc]; [p_context] are the 14 registers of [struct context],
    first [ra] and [sp]. *)
Record proc := mk_proc {
  p_lock : spinlock;
  p_state : procstate;
  p_chan : option chan;
  p_killed : Z;
  p_xstate : Z;
  p_pid : Z;
  p_parent : option nat;
  p_kstack : Z;
  p_sz : Z;
  p_pagetable : Z;
  p_trapframe : Z;
  p_context : list Z;
  p_ofile : list (option nat);
  p_cwd : option nat;
  p_name : list Z;
}.

(** [struct cpu]; [c_sie] is the interrupt enable bit of the hart. *)
Record cpu := mk_cpu {
  c_proc : option nat;
  c_noff : Z;
  c_intena : bool;
  c_sie : bool;
}.

Record kernel := mk_kernel {
  n_fs : kfs;
  n_procs : list proc;
  n_cpus : list cpu;
  n_initproc : option nat;
  n_nextpid : Z;
  n_pid_lock : spinlock;
  n_wait_lock : spinlock;
  n_ticks : Z;
  n_tickslock : spinlock;
  n_caches_head : Z;
  n_small_mem_caches : list Z;
}.

Definition with_fs (f : kfs) (s : kernel) : kernel :=
  mk_kernel f (n_procs s) (n_cpus s) (n_initproc s) (n_nextpid s) (n_pid_lock s) (n_wait_lock s) (n_ticks s) (n_tickslock s)
    (n_caches_head s) (n_small_mem_caches s).
Definition with_procs (l : list proc) (s : kernel) : kernel :=
  mk_kernel (n_fs s) l (n_cpus s) (n_initproc s) (n_nextpid s) (n_pid_lock s) (n_wait_lock s) (n_ticks s) (n_tickslock s)
    (n_caches_head s) (n_small_mem_caches s).
Definition with_cpus (l : list cpu) (s : kernel) : kernel :=
  mk_kernel (n_fs s) (n_procs s) l (n_initproc s) (n_nextpid s) (n_pid_lock s) (n_wait_lock s) (n_ticks s) (n_tickslock s)
    (n_caches_head s) (n_small_mem_caches s).
Definition with_initproc (i : option nat) (s : kernel) : kernel :=
  mk_kernel (n_fs s) (n_procs s) (n_cpus s) i (n_nextpid s) (n_pid_lock s) (n_wait_lock s) (n_ticks s) (n_tickslock s)
    (n_caches_head s) (n_small_mem_caches s).
Definition with_nextpid (n : Z) (s : kernel) : kernel :=
  mk_kernel (n_fs s) (n_procs s) (n_cpus s) (n_initproc s) n (n_pid_lock s) (n_wait_lock s) (n_ticks s) (n_tickslock s)
    (n_caches_head s) (n_small_mem_caches s).
Definition with_pid_lock (l : spinlock) (s : kernel) : kernel :=
  mk_kernel (n_fs s) (n_procs s) (n_cpus s) (n_initproc s) (n_nextpid s) l (n_wait_lock s) (n_ticks s) (n_tickslock s)
    (n_caches_head s) (n_small_mem_caches s).
Definition with_wait_lock (l : spinlock) (s : kernel) : kernel :=
  mk_kernel (n_fs s) (n_procs s) (n_cpus s) (n_initproc s) (n_nextpid s) (n_pid_lock s) l (n_ticks s) (n_tickslock s)
    (n_caches_head s) (n_small_mem_caches s).
Definition with_ticks (t : Z) (s : kernel) : kernel :=
  mk_kernel (n_fs s) (n_procs s) (n_cpus s) (n_initproc s) (n_nextpid s) (n_pid_lock s) (n_wait_lock s) t (n_tickslock s)
    (n_caches_head s) (n_small_mem_caches s).
Definition with_tickslock (l : spinlock) (s : kernel) : kernel :=
  mk_kernel (n_fs s) (n_procs s) (n_cpus s) (n_initproc s) (n_nextpid s) (n_pid_lock s) (n_wait_lock s) (n_ticks s) l
    (n_caches_head s) (n_small_mem_caches s).

Definition with_slab (c : Z) (l : list Z) (s : kernel) : kernel :=
  mk_kernel (n_fs s) (n_procs s) (n_cpus s) (n_initproc s) (n_nextpid s) (n_pid_lock s) (n_wait_lock s) (n_ticks s) (n_tickslock s)
    c l.

Definition proc_with_lock (l : spinlock) (p : proc) : proc :=
  mk_proc l (p_state p) (p_chan p) (p_killed p) (p_xstate p) (p_pid p) (p_parent p) (p_kstack p) (p_sz p)
    (p_pagetable p) (p_trapframe p) (p_context p) (p_ofile p) (p_cwd p) (p_name p).
Definition proc_with_state (st : procstate) (p : proc) : proc :=
  mk_proc (p_lock p) st (p_chan p) (p_killed p) (p_xstate p) (p_pid p) (p_parent p) (p_kstack p) (p_sz p)
    (p_pagetable p) (p_trapframe p) (p_context p) (p_ofile p) (p_cwd p) (p_name p).
Definition proc_with_chan (c : option chan) (p : proc) : proc :=
  mk_proc (p_lock p) (p_state p) c (p_killed p) (p_xstate p) (p_pid p) (p_parent p) (p_kstack p) (p_sz p)
    (p_pagetable p) (p_trapframe p) (p_context p) (p_ofile p) (p_cwd p) (p_name p).
Definition proc_with_killed (k : Z) (p : proc) : proc :=
  mk_proc (p_lock p) (p_state p) (p_chan p) k (p_xstate p) (p_pid p) (p_parent p) (p_kstack p) (p_sz p)
    (p_pagetable p) (p_trapframe p) (p_context p) (p_ofile p) (p_cwd p) (p_name p).
Definition proc_with_xstate (x : Z) (p : proc) : proc :=
  mk_proc (p_lock p) (p_state p) (p_chan p) (p_killed p) x (p_pid p) (p_parent p) (p_kstack p) (p_sz p)
    (p_pagetable p) (p_trapframe p) (p_context p) (p_ofile p) (p_cwd p) (p_name p).
Definition proc_with_pid (n : Z) (p : proc) : proc :=
  mk_proc (p_lock p) (p_state p) (p_chan p) (p_killed p) (p_xstate p) n (p_parent p) (p_kstack p) (p_sz p)
    (p_pagetable p) (p_trapframe p) (p_context p) (p_ofile p) (p_cwd p) (p_name p).
Definition proc_with_parent (i : option nat) (p : proc) : proc :=
  mk_proc (p_lock p) (p_state p) (p_chan p) (p_killed p) (p_xstate p) (p_pid p) i (p_kstack p) (p_sz p)
    (p_pagetable p) (p_trapframe p) (p_context p) (p_ofile p) (p_cwd p) (p_name p).
Definition proc_with_kstack (a : Z) (p : proc) : proc :=
  mk_proc (p_lock p) (p_state p) (p_chan p) (p_killed p) (p_xstate p) (p_pid p) (p_parent p) a (p_sz p)
    (p_pagetable p) (p_trapframe p) (p_context p) (p_ofile p) (p_cwd p) (p_name p).
Definition proc_with_vm (sz pagetable trapframe : Z) (p : proc) : proc :=
  mk_proc (p_lock p) (p_state p) (p_chan p) (p_killed p) (p_xstate p) (p_pid p) (p_parent p) (p_kstack p) sz
    pagetable trapframe (p_context p) (p_ofile p) (p_cwd p) (p_name p).
Definition proc_with_context (c : list Z) (p : proc) : proc :=
  mk_proc (p_lock p) (p_state p) (p_chan p) (p_killed p) (p_xstate p) (p_pid p) (p_parent p) (p_kstack p) (p_sz p)
    (p_pagetable p) (p_trapframe p) c (p_ofile p) (p_cwd p) (p_name p).
Definition proc_with_files (o : list (option nat)) (cwd : option nat) (p : proc) : proc :=
  mk_proc (p_lock p) (p_state p) (p_chan p) (p_killed p) (p_xstate p) (p_pid p) (p_parent p) (p_kstack p) (p_sz p)
    (p_pagetable p) (p_trapframe p) (p_context p) o cwd (p_name p).
Definition proc_with_name (n : list Z) (p : proc) : proc :=
  mk_proc (p_lock p) (p_state p) (p_chan p) (p_killed p) (p_xstate p) (p_pid p) (p_parent p) (p_kstack p) (p_sz p)
    (p_pagetable p) (p_trapframe p) (p_context p) (p_ofile p) (p_cwd p) n.

Definition get_proc (i : nat) : M kernel proc := λ s,
  match n_procs s !! i with
  | Some p => Ret (p, s)
  | None => Fault
  end.

Definition modify_proc (i : nat) (f : proc → proc) : M kernel unit :=
  p ← get_proc i;
  modify (λ s, with_procs (<[i := f p]> (n_procs s)) s).

Section hart.
Context (h : nat).

(** ** Interrupts and locks *)

Definition mycpu : M kernel cpu := λ s,
  match n_cpus s !! h with
  | Some c => Ret (c, s)
  | None => Fault
  end.

Definition set_cpu (c : cpu) : M kernel unit := modify (λ s, with_cpus (<[h := c]> (n_cpus s)) s).

Definition intr_on : M kernel unit :=
  c ← mycpu; set_cpu (mk_cpu (c_proc c) (c_noff c) (c_intena c) true).

Definition intr_off : M kernel unit :=
  c ← mycpu; set_cpu (mk_cpu (c_proc c) (c_noff c) (c_intena c) false).

Definition intr_get : M kernel bool :=
  c ← mycpu; mret (c_sie c).

Definition push_off : M kernel unit :=
  old ← intr_get;
  intr_off;;
  c ← mycpu;
  set_cpu (mk_cpu (c_proc c) (c_noff c + 1) (if c_noff c =? 0 then old else c_intena c) (c_sie c)).

Definition pop_off : M kernel unit :=
  c ← mycpu;
  i ← intr_get;
  if (i : bool) then panic "pop_off - interruptible"
  else if c_noff c <? 1 then panic "pop_off"
  else
    set_cpu (mk_cpu (c_proc c) (c_noff c - 1) (c_intena c) (c_sie c));;
    if (c_noff c - 1 =? 0) && c_intena c then intr_on else mret tt.

Definition acquire_p (i : nat) : M kernel unit :=
  push_off;;
  p ← get_proc i;
  l ← lift (acquire h (p_lock p));
  modify_proc i (proc_with_lock l).

Definition release_p (i : nat) : M kernel unit :=
  p ← get_proc i;
  l ← lift (release h (p_lock p));
  modify_proc i (proc_with_lock l);;
  pop_off.

Definition acquire_pid : M kernel unit :=
  push_off;;
  s ← get;
  l ← lift (acquire h (n_pid_lock s));
  modify (with_pid_lock l).

Definition release_pid : M kernel unit :=
  s ← get;
  l ← lift (release h (n_pid_lock s));
  modify (with_pid_lock l);;
  pop_off.

Definition acquire_wait : M kernel unit :=
  push_off;;
  s ← get;
  l ← lift (acquire h (n_wait_lock s));
  modify (with_wait_lock l).

Definition release_wait : M kernel unit :=
  s ← get;
  l ← lift (release h (n_wait_lock s));
  modify (with_wait_lock l);;
  pop_off.

Definition acquire_ticks : M kernel unit :=
  push_off;;
  s ← get;
  l ← lift (acquire h (n_tickslock s));
  modify (with_tickslock l).

Definition release_ticks : M kernel unit :=
  s ← get;
  l ← lift (release h (n_tickslock s));
  modify (with_tickslock l);;
  pop_off.

Definition myproc : M kernel (option nat) :=
  push_off;;
  c ← mycpu;
  pop_off;;
  mret (c_proc c).

(** [myproc()], to be dereferenced. *)
Definition cur : M kernel nat :=
  p ← myproc;
  match p with
  | Some i => mret i
  | None => fault
  end.

(** ** File system and memory code in the context of process [i] *)

Definition view (p : proc) (f : kfs) : kfs :=
  let v := k_vm f in
  mk_kfs h (p_pid p) (p_cwd p) (p_ofile p) (p_name p) (k_disk f) (k_writes f) (k_bc f) (k_log f) (k_sb f)
    (k_it f) (k_ft f) (k_pipes f)
    (mk_vmstate h (v_end v) (v_etext v) (v_trampoline v) (v_mem v) (v_tree v) (p_pagetable p) (p_sz p)
                (p_trapframe p) (p_killed p))
    (k_out f).

Definition unview (f : kfs) (p : proc) : proc :=
  proc_with_name (k_name f) (proc_with_files (k_ofile f) (k_cwd f)
    (proc_with_vm (v_sz (k_vm f)) (v_pagetable (k_vm f)) (v_trapframe (k_vm f)) p)).

Definition run_as {A} (i : nat) (m : M kfs A) : M kernel A :=
  s ← get;
  p ← get_proc i;
  '(a, f) ← lift (m (view p (n_fs s)));
  modify (with_fs f);;
  modify_proc i (unview f);;
  mret a.

(** ** Allocation *)

(** The loop of [procinit], from process [i] on. *)
Fixpoint init_procs (l : list proc) (i : Z) : list proc :=
  match l with
  | [] => []
  | p :: l =>
    proc_with_kstack (KSTACK i) (proc_with_state UNUSED (proc_with_lock (initlock "proc") p)) ::
    init_procs l (i + 1)
  end.

Definition procinit : M kernel unit :=
  modify (with_pid_lock (initlock "nextpid"));;
  modify (with_wait_lock (initlock "wait_lock"));;
  modify (λ s, with_procs (init_procs (n_procs s) 0) s).

Definition allocpid : M kernel Z :=
  acquire_pid;;
  pid ← gets n_nextpid;
  modify (with_nextpid (s32 (pid + 1)));;
  release_pid;;
  mret pid.

Definition freeproc (i : nat) : M kernel unit :=
  p ← get_proc i;
  (if negb (p_trapframe p =? 0) then run_as i (in_vm (vm_kfree (p_trapframe p))) else mret tt);;
  modify_proc i (λ p, proc_with_vm (p_sz p) (p_pagetable p) 0 p);;
  (if negb (p_pagetable p =? 0) then run_as i (in_vm (proc_freepagetable (p_pagetable p) (p_sz p)))
   else mret tt);;
  modify_proc i (λ p,
    mk_proc (p_lock p) UNUSED None 0 0 0 None (p_kstack p) 0 0 (p_trapframe p) (p_context p) (p_ofile p)
            (p_cwd p) []).

(** The first loop of [allocproc], [n] slots from [i] on; the slot found
    is locked. *)
Fixpoint find_unused (n : nat) (i : nat) : M kernel (option nat) :=
  match n with
  | O => mret None
  | S n =>
    acquire_p i;;
    p ← get_proc i;
    if decide (p_state p = UNUSED) then mret (Some i)
    else
      release_p i;;
      find_unused n (S i)
  end.

(** [forkret] is the address of the function. *)
Definition allocproc (forkret : Z) : M kernel (option nat) :=
  f ← find_unused (Z.to_nat NPROC) 0;
  match f with
  | None => mret None
  | Some i =>
    pid ← allocpid;
    modify_proc i (λ p, proc_with_state USED (proc_with_pid pid p));;
    tf ← run_as i (in_vm vm_kalloc);
    modify_proc i (λ p, proc_with_vm (p_sz p) (p_pagetable p) tf p);;
    if tf =? 0 then
      freeproc i;;
      release_p i;;
      mret None
    else
      pt ← run_as i (in_vm proc_pagetable);
      modify_proc i (λ p, proc_with_vm (p_sz p) pt (p_trapframe p) p);;
      if pt =? 0 then
        freeproc i;;
        release_p i;;
        mret None
      else
        modify_proc i (λ p, proc_with_context ([forkret; p_kstack p + PGSIZE] ++ replicate 12 0) p);;
        mret (Some i)
  end.

Definition userinit (forkret : Z) : M kernel unit :=
  p ← allocproc forkret;
  modify (with_initproc p);;
  match p with
  | None => fault
  | Some i =>
    cwd ← run_as i (namei user_copyout [slash]);
    modify_proc i (λ p, proc_with_files (p_ofile p) cwd p);;
    modify_proc i (proc_with_state RUNNABLE);;
    release_p i
  end.

(** The loop of [kfork] over the open files, from descriptor [fd] on. *)
Fixpoint dup_files (i np : nat) (l : list (option nat)) (fd : nat) : M kernel unit :=
  match l with
  | [] => mret tt
  | f :: l =>
    match f with
    | Some f =>
      f ← run_as i (filedup f);
      modify_proc np (λ p, proc_with_files (<[fd := Some f]> (p_ofile p)) (p_cwd p) p)
    | None => mret tt
    end;;
    dup_files i np l (S fd)
  end.

Definition sizeof_trapframe : Z := 288.

Definition kfork (forkret : Z) : M kernel Z :=
  i ← cur;
  np ← allocproc forkret;
  match np with
  | None => mret (-1)
  | Some np =>
    p ← get_proc i;
    n ← get_proc np;
    r ← run_as i (in_vm (uvmcopy (p_pagetable p) (p_pagetable n) (p_sz p)));
    if r <? 0 then
      freeproc np;;
      release_p np;;
      mret (-1)
    else
      modify_proc np (λ n, proc_with_vm (p_sz p) (p_pagetable n) (p_trapframe n) n);;
      run_as i (in_vm (memmove (p_trapframe n) (p_trapframe p) sizeof_trapframe));;
      run_as i (in_vm (store64 (p_trapframe n + 112) 0));;
      dup_files i np (p_ofile p) 0;;
      cwd ← (match p_cwd p with Some c => run_as i (idup c) | None => fault end);
      modify_proc np (λ n, proc_with_files (p_ofile n) (Some cwd) n);;
      modify_proc np (proc_with_name (take 15 (p_name p)));;
      n ← get_proc np;
      let pid := p_pid n in
      release_p np;;
      acquire_wait;;
      modify_proc np (proc_with_parent (Some i));;
      release_wait;;
      acquire_p np;;
      modify_proc np (proc_with_state RUNNABLE);;
      release_p np;;
      mret pid
  end.

(** ** Sleeping and waking *)

(** The loop of [wakeup], [n] processes from [i] on. *)
Fixpoint wakeup_loop (n : nat) (i : nat) (c : option chan) : M kernel unit :=
  match n with
  | O => mret tt
  | S n =>
    me ← myproc;
    (if decide (me = Some i) then mret tt
     else
       acquire_p i;;
       p ← get_proc i;
       (if decide (p_state p = SLEEPING ∧ p_chan p = c) then modify_proc i (proc_with_state RUNNABLE)
        else mret tt);;
       release_p i);;
    wakeup_loop n (S i) c
  end.

Definition wakeup (c : option chan) : M kernel unit := wakeup_loop (Z.to_nat NPROC) 0 c.

(** [sched] up to [swtch]; the result is the saved [intena]. *)
Definition sched_out : M kernel bool :=
  i ← cur;
  p ← get_proc i;
  if negb (holding h (p_lock p)) then panic "sched p->lock"
  else
    c ← mycpu;
    if negb (c_noff c =? 1) then panic "sched locks"
    else if decide (p_state p = RUNNING) then panic "sched RUNNING"
    else
      e ← intr_get;
      if (e : bool) then panic "sched interruptible" else mret (c_intena c).

(** [sched] after [swtch]. *)
Definition sched_in (intena : bool) : M kernel unit :=
  c ← mycpu;
  set_cpu (mk_cpu (c_proc c) (c_noff c) intena (c_sie c)).

Definition yield_out : M kernel bool :=
  i ← cur;
  acquire_p i;;
  modify_proc i (proc_with_state RUNNABLE);;
  sched_out.

Definition yield_in (i : nat) (intena : bool) : M kernel unit :=
  sched_in intena;;
  release_p i.

(** [sleep] up to [swtch]; [release_lk] releases the condition lock. *)
Definition sleep_out (c : option chan) (release_lk : M kernel unit) : M kernel bool :=
  i ← cur;
  acquire_p i;;
  release_lk;;
  modify_proc i (proc_with_chan c);;
  modify_proc i (proc_with_state SLEEPING);;
  sched_out.

Definition sleep_in (i : nat) (intena : bool) (acquire_lk : M kernel unit) : M kernel unit :=
  sched_in intena;;
  modify_proc i (proc_with_chan None);;
  release_p i;;
  acquire_lk.

(** ** The scheduler *)

(** One iteration of the inner loop of [scheduler] up to [swtch]: whether
    it switches to process [i]. *)
Definition scheduler_pick (i : nat) : M kernel bool :=
  acquire_p i;;
  p ← get_proc i;
  if decide (p_state p = RUNNABLE) then
    modify_proc i (proc_with_state RUNNING);;
    c ← mycpu;
    set_cpu (mk_cpu (Some i) (c_noff c) (c_intena c) (c_sie c));;
    mret true
  else
    release_p i;;
    mret false.

(** The rest of the iteration, when process [i] has switched back. *)
Definition scheduler_return (i : nat) : M kernel unit :=
  c ← mycpu;
  set_cpu (mk_cpu None (c_noff c) (c_intena c) (c_sie c));;
  release_p i.

(** The inner loop, [n] processes from [i] on, up to the first switch. *)
Fixpoint scheduler_scan (n : nat) (i : nat) : M kernel (option nat) :=
  match n with
  | O => mret None
  | S n =>
    found ← scheduler_pick i;
    if (found : bool) then mret (Some i) else scheduler_scan n (S i)
  end.

(** [forkret] of a process that is not the first one, up to the return to
    user space. *)
Definition forkret_in (i : nat) : M kernel unit := release_p i.

(** ** Exit, wait, kill *)

Fixpoint close_files (i : nat) (l : list (option nat)) (fd : nat) : M kernel unit :=
  match l with
  | [] => mret tt
  | f :: l =>
    match f with
    | Some f =>
      run_as i (fileclose f);;
      modify_proc i (λ p, proc_with_files (<[fd := None]> (p_ofile p)) (p_cwd p) p)
    | None => mret tt
    end;;
    close_files i l (S fd)
  end.

Fixpoint reparent_loop (n : nat) (pp : nat) (i : nat) : M kernel unit :=
  match n with
  | O => mret tt
  | S n =>
    p ← get_proc pp;
    (if decide (p_parent p = Some i) then
       s ← get;
       modify_proc pp (proc_with_parent (n_initproc s));;
       wakeup (CProc <$> n_initproc s)
     else mret tt);;
    reparent_loop n (S pp) i
  end.

Definition reparent (i : nat) : M kernel unit := reparent_loop (Z.to_nat NPROC) 0 i.

(** Up to the switch to the scheduler, from which it does not return. *)
Definition kexit (status : Z) : M kernel unit :=
  i ← cur;
  s ← get;
  if decide (n_initproc s = Some i) then panic "init exiting"
  else
    p ← get_proc i;
    close_files i (p_ofile p) 0;;
    run_as i begin_op;;
    match p_cwd p with
    | Some c => run_as i (iput c)
    | None => fault
    end;;
    run_as i end_op;;
    modify_proc i (λ p, proc_with_files (p_ofile p) None p);;
    acquire_wait;;
    reparent i;;
    p ← get_proc i;
    wakeup (CProc <$> p_parent p);;
    acquire_p i;;
    modify_proc i (λ p, proc_with_state ZOMBIE (proc_with_xstate status p));;
    release_wait;;
    sched_out;;
    mret tt.

(** The scan of [kwait], [n] processes from [pp] on: the result of the
    call, or whether there are children. *)
Fixpoint kwait_loop (n : nat) (pp : nat) (i : nat) (addr : Z) (havekids : bool) : M kernel (Z + bool) :=
  match n with
  | O => mret (inr havekids)
  | S n =>
    p ← get_proc pp;
    if decide (p_parent p = Some i) then
      acquire_p pp;;
      p ← get_proc pp;
      if decide (p_state p = ZOMBIE) then
        let pid := p_pid p in
        r ← (if negb (addr =? 0) then run_as i (user_copyout addr (int_bytes (p_xstate p))) else mret 0);
        if r <? 0 then
          release_p pp;;
          release_wait;;
          mret (inl (-1))
        else
          freeproc pp;;
          release_p pp;;
          release_wait;;
          mret (inl pid)
      else
        release_p pp;;
        kwait_loop n (S pp) i addr true
    else kwait_loop n (S pp) i addr havekids
  end.

Definition killed (i : nat) : M kernel Z :=
  acquire_p i;;
  p ← get_proc i;
  release_p i;;
  mret (p_killed p).

(** One round of the outer loop of [kwait], with [wait_lock] held;
    [Asleep]: it goes to sleep on the process, holding [wait_lock]. *)
Definition kwait_round (i : nat) (addr : Z) : M kernel outcome :=
  r ← kwait_loop (Z.to_nat NPROC) 0 i addr false;
  match r with
  | inl r => mret (Done r)
  | inr havekids =>
    k ← (if negb havekids then mret 1 else killed i);
    if negb (k =? 0) then
      release_wait;;
      mret (Done (-1))
    else mret (Asleep 0)
  end.

Definition kwait (addr : Z) : M kernel outcome :=
  i ← cur;
  acquire_wait;;
  kwait_round i addr.

Fixpoint kkill_loop (n : nat) (i : nat) (pid : Z) : M kernel Z :=
  match n with
  | O => mret (-1)
  | S n =>
    acquire_p i;;
    p ← get_proc i;
    if p_pid p =? pid then
      modify_proc i (proc_with_killed 1);;
      (if decide (p_state p = SLEEPING) then modify_proc i (proc_with_state RUNNABLE) else mret tt);;
      release_p i;;
      mret 0
    else
      release_p i;;
      kkill_loop n (S i) pid
  end.

Definition kkill (pid : Z) : M kernel Z := kkill_loop (Z.to_nat NPROC) 0 pid.

Definition setkilled (i : nat) : M kernel unit :=
  acquire_p i;;
  modify_proc i (proc_with_killed 1);;
  release_p i.

(** The lines of [procdump]: number, state, name. *)
Definition state_name (st : procstate) : string :=
  match st with
  | UNUSED => "unused"
  | USED => "used"
  | SLEEPING => "sleep "
  | RUNNABLE => "runble"
  | RUNNING => "run   "
  | ZOMBIE => "zombie"
  end.

Definition procdump (l : list proc) : list (Z * string * list Z) :=
  (λ p, (p_pid p, state_name (p_state p), p_name p)) <$> filter (λ p, p_state p ≠ UNUSED) l.

(** ** System calls (kernel/sysproc.c) *)

Definition SBRK_EAGER : Z := 1.

Definition sys_exit : M kernel unit :=
  i ← cur;
  n ← run_as i (in_vm (argint 0));
  kexit n.

Definition sys_getpid : M kernel Z :=
  i ← cur;
  p ← get_proc i;
  mret (p_pid p).

Definition sys_fork (forkret : Z) : M kernel Z := kfork forkret.

Definition sys_wait : M kernel outcome :=
  i ← cur;
  p ← run_as i (in_vm (argaddr 0));
  kwait p.

Definition sys_sbrk : M kernel Z :=
  i ← cur;
  n ← run_as i (in_vm (argint 0));
  t ← run_as i (in_vm (argint 1));
  p ← get_proc i;
  let addr := p_sz p in
  if (t =? SBRK_EAGER) || (n <? 0) then
    r ← run_as i (in_vm (growproc n));
    if r <? 0 then mret (-1) else mret addr
  else if u64 (addr + n) <? addr then mret (-1)
  else if TRAPFRAME <? u64 (addr + n) then mret (-1)
  else
    modify_proc i (λ p, proc_with_vm (u64 (p_sz p + n)) (p_pagetable p) (p_trapframe p) p);;
    mret addr.

(** The loop of [sys_pause], with [tickslock] held. *)
Definition pause_round (i : nat) (ticks0 n : Z) : M kernel outcome :=
  s ← get;
  if u32 (n_ticks s - ticks0) <? n then
    k ← killed i;
    if negb (k =? 0) then
      release_ticks;;
      mret (Done (-1))
    else mret (Asleep 0)
  else
    release_ticks;;
    mret (Done 0).

Definition sys_pause : M kernel outcome :=
  i ← cur;
  n ← run_as i (in_vm (argint 0));
  let n := if n <? 0 then 0 else n in
  acquire_ticks;;
  ticks0 ← gets n_ticks;
  pause_round i ticks0 n.

Definition sys_kill : M kernel Z :=
  i ← cur;
  pid ← run_as i (in_vm (argint 0));
  kkill pid.

Definition sys_uptime : M kernel Z :=
  acquire_ticks;;
  xticks ← gets n_ticks;
  release_ticks;;
  mret xticks.
End hart.
