(* ===== verification/ProcSpec.v ===== *)
(** * Processes: interrupts, wakeups and the scheduler

    What the operations of one hart do when no other hart holds the locks
    they take. *)

From S2P Require Import Prelude Spinlock Riscv Mem Buddy KString Vm FsState Bio Log Fs Pipe SysFile Proc.

Definition put_proc (i : nat) (p : proc) (s : kernel) : kernel := with_procs (<[i := p]> (n_procs s)) s.
Definition put_cpu (h : nat) (c : cpu) (s : kernel) : kernel := with_cpus (<[h := c]> (n_cpus s)) s.

(** ** Disabling interrupts *)

Definition pushed (c : cpu) : cpu := mk_cpu (c_proc c) (c_noff c + 1) (if c_noff c =? 0 then c_sie c else c_intena c) false.
Definition popped (c : cpu) : cpu :=
  mk_cpu (c_proc c) (c_noff c - 1) (c_intena c) ((c_noff c - 1 =? 0) && c_intena c).

(** Interrupts are off while [push_off]s are pending. *)
Definition cpu_ok (c : cpu) : Prop := 0 ≤ c_noff c ∧ (0 < c_noff c → c_sie c = false).

(** [c_intena] means nothing while no [push_off] is pending. *)
Definition settle (c : cpu) : cpu := mk_cpu (c_proc c) (c_noff c) (if c_noff c =? 0 then c_sie c else c_intena c) (c_sie c).

Lemma pushed_ok c : cpu_ok c → cpu_ok (pushed c).
Proof. intros [H _]. split; cbn; [lia|done]. Qed.

Lemma popped_pushed c : cpu_ok c → popped (pushed c) = settle c.
Proof.
  intros [H Hs]. unfold popped, pushed, settle. cbn. replace (c_noff c + 1 - 1) with (c_noff c) by lia.
  destruct (Z.eqb_spec (c_noff c) 0); [done|]. by rewrite Hs by lia.
Qed.

Lemma settle_settle c : settle (settle c) = settle c.
Proof. unfold settle. cbn. by destruct (c_noff c =? 0). Qed.
Lemma settle_ok c c' : settle c = settle c' → cpu_ok c → cpu_ok c'.
Proof. unfold settle, cpu_ok. intros E. injection E as E1 E2 _ E4. by rewrite E2, E4. Qed.
Lemma settle_proc c c' : settle c = settle c' → c_proc c = c_proc c'.
Proof. intros E. by injection E. Qed.
Lemma settle_popped_pushed c c' : cpu_ok c' → c = popped (pushed c') → settle c = settle c'.
Proof. intros H ->. by rewrite popped_pushed, settle_settle. Qed.

Section hart.
Context (h : nat).
Implicit Types (s : kernel) (c : cpu) (p : proc) (Q : unit → kernel → Prop).

Lemma put_cpu_put s c c' : put_cpu h c' (put_cpu h c s) = put_cpu h c' s.
Proof. unfold put_cpu, with_cpus. cbn. by rewrite list_insert_insert_eq. Qed.
Lemma cpu_put s c c0 : n_cpus s !! h = Some c0 → n_cpus (put_cpu h c s) !! h = Some c.
Proof. intros H. apply list_lookup_insert_eq. by eapply lookup_lt_Some. Qed.
Lemma put_cpu_same s c : n_cpus s !! h = Some c → put_cpu h c s = s.
Proof. intros H. unfold put_cpu, with_cpus. rewrite list_insert_id by done. by destruct s. Qed.

Lemma runs_mycpu s c (Q : cpu → kernel → Prop) : n_cpus s !! h = Some c → Q c s → runs (mycpu h) s Q.
Proof. intros H HQ. exists c, s. unfold mycpu. by rewrite H. Qed.

Lemma runs_push_off s c Q : n_cpus s !! h = Some c → Q tt (put_cpu h (pushed c) s) → runs (push_off h) s Q.
Proof.
  intros H HQ. unfold push_off, intr_get, intr_off. apply runs_bind, runs_bind, (runs_mycpu s c); [done|].
  apply runs_ret. apply runs_bind, runs_bind, (runs_mycpu s c); [done|]. apply runs_modify.
  apply runs_bind, (runs_mycpu _ _ _ (cpu_put s _ c H)). apply runs_modify. fold (put_cpu h).
  change (with_cpus (<[h:=?x]> (n_cpus ?y)) ?y) with (put_cpu h x y). by rewrite put_cpu_put.
Qed.

Lemma runs_pop_off s c Q :
  n_cpus s !! h = Some c → c_sie c = false → 1 ≤ c_noff c → Q tt (put_cpu h (popped c) s) → runs (pop_off h) s Q.
Proof.
  intros H Hs Hn HQ. unfold pop_off, intr_get, intr_on. apply runs_bind, (runs_mycpu s c); [done|].
  apply runs_bind, runs_bind, (runs_mycpu s c); [done|]. apply runs_ret. rewrite Hs, (proj2 (Z.ltb_ge _ 1)) by lia.
  apply runs_bind, runs_modify. unfold popped in HQ. destruct (_ && _) eqn:E.
  - apply runs_bind, (runs_mycpu _ _ _ (cpu_put s _ c H)). apply runs_modify.
    change (with_cpus (<[h:=?x]> (n_cpus ?y)) ?y) with (put_cpu h x y).
    change (with_cpus (<[h:=?x]> (n_cpus s)) s) with (put_cpu h x s). by rewrite put_cpu_put.
  - apply runs_ret. exact HQ.
Qed.

(** [n] times *)
Fixpoint times (n : nat) (m : M kernel unit) : M kernel unit :=
  match n with
  | O => mret tt
  | S n => m;; times n m
  end.

Lemma push_times n : ∀ s c, n_cpus s !! h = Some c → cpu_ok c →
  runs (times n (push_off h)) s (λ _ s', ∃ c', s' = put_cpu h c' s ∧ cpu_ok c' ∧ c_proc c' = c_proc c ∧
    c_noff c' = c_noff c + Z.of_nat n ∧ (0 < n → c_sie c' = false)%nat ∧
    c_intena c' = if (c_noff c =? 0) && negb (n =? 0)%nat then c_sie c else c_intena c).
Proof.
  induction n as [|n IH]; intros s c Hc Hok; cbn [times].
  { apply runs_ret. exists c. rewrite put_cpu_same by done. ands; [done|done|done|lia|lia|by rewrite andb_false_r]. }
  apply runs_bind, (runs_push_off s c); [done|].
  eapply runs_mono; [apply (IH _ (pushed c)); [by eapply cpu_put|by apply pushed_ok]|].
  intros _ s' (c' & -> & Hok' & Ep & En & Hs & Ei). exists c'. rewrite put_cpu_put.
  pose proof (proj1 Hok). cbn [pushed c_noff c_proc c_intena c_sie] in *. ands; [done|done|done|lia|intros _; apply Hok'; lia|].
  rewrite Ei. destruct Hok. rewrite (proj2 (Z.eqb_neq (c_noff c + 1) 0)) by lia. cbn. by rewrite andb_true_r.
Qed.

Lemma pop_times n : ∀ s c, n_cpus s !! h = Some c → cpu_ok c → Z.of_nat n ≤ c_noff c →
  runs (times n (pop_off h)) s (λ _ s', s' = put_cpu h (mk_cpu (c_proc c) (c_noff c - Z.of_nat n) (c_intena c)
    (if (0 <? n)%nat && (c_noff c =? Z.of_nat n) then c_intena c else c_sie c)) s).
Proof.
  induction n as [|n IH]; intros s c Hc Hok Hn; cbn [times].
  { apply runs_ret. rewrite Z.sub_0_r. cbn. rewrite put_cpu_same; [done|]. rewrite Hc. by destruct c. }
  destruct Hok as [H0 Hs]. apply runs_bind, (runs_pop_off s c); [done|apply Hs; lia|lia|].
  eapply runs_mono; [apply (IH _ (popped c)); [by eapply cpu_put|split; cbn; [lia|]|cbn; lia]|].
  { intros Hp. by rewrite (proj2 (Z.eqb_neq _ 0)) by lia. }
  intros _ s' ->. rewrite put_cpu_put. f_equal. cbn [popped c_noff c_proc c_intena c_sie].
  replace (c_noff c - 1 - Z.of_nat n) with (c_noff c - Z.of_nat (S n)) by lia. f_equal.
  rewrite Hs by lia. change (0 <? S n)%nat with true. cbn [andb].
  destruct (Nat.ltb_spec 0 n), (Z.eqb_spec (c_noff c - 1) (Z.of_nat n)), (Z.eqb_spec (c_noff c) (Z.of_nat (S n))),
    (Z.eqb_spec (c_noff c - 1) 0); try lia; cbn; by destruct (c_intena c).
Qed.

(** ** Process locks *)

Lemma runs_get_proc s i p (Q : proc → kernel → Prop) : n_procs s !! i = Some p → Q p s → runs (get_proc i) s Q.
Proof. intros H HQ. exists p, s. unfold get_proc. by rewrite H. Qed.

Lemma runs_modify_proc s i p f Q : n_procs s !! i = Some p → Q tt (put_proc i (f p) s) → runs (modify_proc i f) s Q.
Proof. intros H HQ. unfold modify_proc. apply runs_bind, (runs_get_proc s i p); [done|]. by apply runs_modify. Qed.

Lemma runs_acquire_p s c i p Q :
  n_cpus s !! h = Some c → n_procs s !! i = Some p → unlocked (p_lock p) →
  Q tt (put_proc i (proc_with_lock (held_by h (p_lock p)) p) (put_cpu h (pushed c) s)) → runs (acquire_p h i) s Q.
Proof.
  intros Hc Hp Hl HQ. unfold acquire_p. apply runs_bind, (runs_push_off s c); [done|].
  apply runs_bind, (runs_get_proc _ i p); [done|]. apply runs_bind. eapply runs_eq; [unfold lift; rewrite acquire_unlocked by done; reflexivity|].
  by apply (runs_modify_proc _ i p).
Qed.

Lemma runs_release_p s c i p l Q :
  n_cpus s !! h = Some c → n_procs s !! i = Some p → unlocked l → p_lock p = held_by h l → c_sie c = false → 1 ≤ c_noff c →
  Q tt (put_cpu h (popped c) (put_proc i (proc_with_lock l p) s)) → runs (release_p h i) s Q.
Proof.
  intros Hc Hp Hl El Hs Hn HQ. unfold release_p. apply runs_bind, (runs_get_proc _ i p); [done|].
  apply runs_bind. eapply runs_eq; [unfold lift; rewrite El, release_held by done; reflexivity|].
  apply runs_bind, (runs_modify_proc _ i p); [done|]. by apply (runs_pop_off _ c).
Qed.

Lemma runs_myproc s c (Q : option nat → kernel → Prop) :
  n_cpus s !! h = Some c → cpu_ok c → Q (c_proc c) (put_cpu h (settle c) s) → runs (myproc h) s Q.
Proof.
  intros Hc Hok HQ. unfold myproc. apply runs_bind, (runs_push_off s c); [done|].
  apply runs_bind, (runs_mycpu _ (pushed c)); [by eapply cpu_put|].
  destruct Hok as [H0 Hs]. apply runs_bind, (runs_pop_off _ (pushed c)); [by eapply cpu_put|done|cbn; lia|].
  apply runs_ret. by rewrite put_cpu_put, popped_pushed by done.
Qed.

(** ** Scanning the process table *)

Lemma put_proc_put s i p p' : put_proc i p' (put_proc i p s) = put_proc i p' s.
Proof. unfold put_proc, with_procs. cbn. by rewrite list_insert_insert_eq. Qed.
Lemma proc_put s i p p0 : n_procs s !! i = Some p0 → n_procs (put_proc i p s) !! i = Some p.
Proof. intros H. apply list_lookup_insert_eq. by eapply lookup_lt_Some. Qed.
Lemma put_proc_same s i p : n_procs s !! i = Some p → put_proc i p s = s.
Proof. intros H. unfold put_proc, with_procs. rewrite list_insert_id by done. by destruct s. Qed.
Lemma put_cpu_proc s i p c : put_cpu h c (put_proc i p s) = put_proc i p (put_cpu h c s).
Proof. done. Qed.

(** The critical section of process [i]: entry and exit. *)
Definition in_section s c i p : kernel := put_proc i (proc_with_lock (held_by h (p_lock p)) p) (put_cpu h (pushed c) s).

Lemma runs_locked {A} s c i p (k : proc → M kernel A) (Q : A → kernel → Prop) :
  n_cpus s !! h = Some c → n_procs s !! i = Some p → unlocked (p_lock p) →
  runs (k (proc_with_lock (held_by h (p_lock p)) p)) (in_section s c i p) Q →
  runs (acquire_p h i;; q ← get_proc i; k q) s Q.
Proof.
  intros Hc Hp Hl HQ. apply runs_bind, (runs_acquire_p s c i p); [done..|].
  apply runs_bind. by eapply runs_get_proc; [eapply proc_put|].
Qed.

Lemma runs_unlock s c i p p0 Q :
  n_cpus s !! h = Some c → cpu_ok c → n_procs s !! i = Some p0 → unlocked (p_lock p) →
  Q tt (put_proc i p (put_cpu h (settle c) s)) → runs (release_p h i) (in_section s c i p) Q.
Proof.
  intros Hc Hok Hp Hl HQ. eapply (runs_release_p _ (pushed c) i _ (p_lock p)); [by eapply cpu_put|by eapply proc_put|done|done|done|
    destruct Hok; cbn; lia|].
  unfold in_section. rewrite put_proc_put, put_cpu_proc, put_cpu_put, popped_pushed by done. by destruct p.
Qed.

Lemma runs_section_modify s c i p p0 f Q :
  n_procs s !! i = Some p0 → (∀ l, f (proc_with_lock l p) = proc_with_lock l (f p)) → p_lock (f p) = p_lock p →
  Q tt (in_section s c i (f p)) → runs (modify_proc i f) (in_section s c i p) Q.
Proof.
  intros Hp Hf Hl HQ. eapply runs_modify_proc; [by eapply proc_put|]. unfold in_section. rewrite put_proc_put, Hf, <-Hl. exact HQ.
Qed.

(** What [wakeup] does to one process. *)
Definition woken (ch : option chan) (p : proc) : proc :=
  if decide (p_state p = SLEEPING ∧ p_chan p = ch) then proc_with_state RUNNABLE p else p.

Lemma wake_one s c i p ch (Q : unit → kernel → Prop) :
  n_cpus s !! h = Some c → cpu_ok c → n_procs s !! i = Some p → unlocked (p_lock p) →
  Q tt (put_proc i (woken ch p) (put_cpu h (settle c) s)) →
  runs (acquire_p h i;; p ← get_proc i;
        (if decide (p_state p = SLEEPING ∧ p_chan p = ch) then modify_proc i (proc_with_state RUNNABLE)
         else mret tt);;
        release_p h i) s Q.
Proof.
  intros Hc Hok Hp Hl HQ. apply (runs_locked s c i p); [done..|]. cbn [p_state p_chan proc_with_lock]. unfold woken in HQ. apply runs_bind.
  destruct (decide _).
  - eapply runs_section_modify; [done|done|done|]. by eapply runs_unlock.
  - apply runs_ret. by eapply runs_unlock.
Qed.

(** All process locks are free. *)
Definition locks_free s : Prop := ∀ i p, n_procs s !! i = Some p → unlocked (p_lock p).

(** The state after a scan that changed process [j] by [f j]. *)
Definition scanned s c (f : nat → proc → proc) (s' : kernel) : Prop :=
  ∃ c', settle c' = settle c ∧ s' = put_cpu h c' (with_procs (imap f (n_procs s)) s).

Lemma scanned_refl s c (f : nat → proc → proc) :
  n_cpus s !! h = Some c → (∀ j p, n_procs s !! j = Some p → f j p = p) → scanned s c f s.
Proof.
  intros Hc Hf. exists c. split; [done|]. assert (E : imap f (n_procs s) = n_procs s).
  { apply list_eq. intros j. rewrite list_lookup_imap. destruct (n_procs s !! j) eqn:E; [|done]. cbn. by rewrite (Hf j). }
  rewrite E. rewrite <-(put_cpu_same s c Hc) at 1. by destruct s.
Qed.

Lemma scanned_step s c s1 c1 s' (f g : nat → proc → proc) i p :
  n_procs s !! i = Some p → settle c1 = settle c → s1 = put_proc i (f i p) (put_cpu h c1 s) →
  (∀ j q, j ≠ i → g j q = f j q) → g i (f i p) = f i p → scanned s1 c1 g s' → scanned s c f s'.
Proof.
  intros Hp Hc -> Hne He (c' & Hc' & ->). exists c'. split; [by rewrite Hc'|].
  unfold put_cpu, put_proc, with_procs, with_cpus. cbn. rewrite list_insert_insert_eq. f_equal.
  apply list_eq. intros j. rewrite !list_lookup_imap. destruct (decide (j = i)) as [->|Hj].
  - rewrite list_lookup_insert_eq by (by eapply lookup_lt_Some). rewrite Hp. cbn. by rewrite He.
  - rewrite list_lookup_insert_ne by done. destruct (n_procs s !! j); [|done]. cbn. by rewrite Hne.
Qed.

Definition wake_from (i : nat) (me : option nat) (ch : option chan) (j : nat) (p : proc) : proc :=
  if decide ((i ≤ j)%nat ∧ me ≠ Some j) then woken ch p else p.

Lemma wake_from_S i me ch j q : j ≠ i → wake_from (S i) me ch j q = wake_from i me ch j q.
Proof.
  intros Hj. unfold wake_from. assert (Hiff : (S i ≤ j)%nat ∧ me ≠ Some j ↔ (i ≤ j)%nat ∧ me ≠ Some j) by (split; intros []; (split; [lia|done])).
  by rewrite (decide_ext _ _ _ _ Hiff).
Qed.

Lemma wakeup_loop_spec n : ∀ s c i ch,
  n_cpus s !! h = Some c → cpu_ok c → locks_free s → length (n_procs s) = (i + n)%nat →
  runs (wakeup_loop h n i ch) s (λ _, scanned s c (wake_from i (c_proc c) ch)).
Proof.
  induction n as [|n IH]; intros s c i ch Hc Hok Hfree Hlen; cbn [wakeup_loop].
  { apply runs_ret. apply scanned_refl; [done|]. intros j p Hj. apply lookup_lt_Some in Hj.
    unfold wake_from. rewrite decide_False; [done|lia]. }
  destruct (lookup_lt_is_Some_2 (n_procs s) i ltac:(lia)) as [p Hp].
  apply runs_bind, (runs_myproc s c); [done|done|]. set (s0 := put_cpu h (settle c) s).
  assert (Hc0 : n_cpus s0 !! h = Some (settle c)) by (by eapply cpu_put).
  assert (Hok0 : cpu_ok (settle c)) by (by apply (settle_ok c); [rewrite settle_settle|]).
  apply runs_bind. apply (runs_mono _ _ (λ _ s1, s1 = put_proc i (wake_from i (c_proc c) ch i p) s0)).
  { unfold wake_from. destruct (decide (c_proc c = Some i)) as [Hme|Hme].
    - apply runs_ret. rewrite decide_False by naive_solver. by rewrite put_proc_same.
    - rewrite decide_True by done. apply (wake_one s0 (settle c) i p); [done|done|done|by apply (Hfree i)|].
      unfold s0. by rewrite put_cpu_put, settle_settle. }
  intros _ s1 Es1. eapply runs_mono; [apply (IH s1 (settle c)); [|done| |]|].
  - rewrite Es1. exact Hc0.
  - rewrite Es1. intros j q Hj. cbn in Hj. destruct (decide (j = i)) as [->|Hne].
    + rewrite list_lookup_insert_eq in Hj by (by eapply lookup_lt_Some). injection Hj as <-.
      unfold wake_from, woken. repeat destruct (decide _); exact (Hfree i p Hp).
    + rewrite list_lookup_insert_ne in Hj by done. by apply (Hfree j).
  - rewrite Es1. cbn. rewrite length_insert. lia.
  - intros ? s' Hsc. eapply (scanned_step s c s1 (settle c)); [done|apply settle_settle|done|intros; by apply wake_from_S| |exact Hsc].
    unfold wake_from at 1. by rewrite decide_False by lia.
Qed.

Lemma wakeup_spec s c ch :
  n_cpus s !! h = Some c → cpu_ok c → locks_free s → length (n_procs s) = Z.to_nat NPROC →
  runs (wakeup h ch) s (λ _, scanned s c (λ j p, if decide (c_proc c = Some j) then p else woken ch p)).
Proof.
  intros Hc Hok Hfree Hlen. eapply runs_mono; [by apply (wakeup_loop_spec _ s c)|]. intros ? s' (c' & Ec & ->).
  exists c'. split; [done|]. do 2 f_equal. apply imap_ext. intros j p _. unfold wake_from.
  destruct (decide (_ ∧ _)), (decide _); (done || exfalso; naive_solver lia).
Qed.

(** The first process from [i] on that satisfies [P]. *)
Definition first_from (P : proc → Prop) `{∀ p, Decision (P p)} (i : nat) (l : list proc) : option (nat * proc) :=
  prod_map (Nat.add i) id <$> list_find P (drop i l).

Lemma first_from_here P `{∀ p, Decision (P p)} i l p : l !! i = Some p → P p → first_from P i l = Some (i, p).
Proof.
  intros Hp HP. unfold first_from. rewrite (drop_S _ _ _ Hp). cbn. rewrite decide_True by done. cbn. by rewrite Nat.add_0_r.
Qed.

Lemma first_from_next P `{∀ p, Decision (P p)} i l p : l !! i = Some p → ¬ P p → first_from P i l = first_from P (S i) l.
Proof.
  intros Hp HP. unfold first_from. rewrite (drop_S _ _ _ Hp). cbn. rewrite decide_False by done.
  destruct (list_find P (drop (S i) l)) as [[k q]|]; [|done]. cbn. by rewrite Nat.add_succ_r.
Qed.

Lemma first_from_end P `{∀ p, Decision (P p)} i l : (length l ≤ i)%nat → first_from P i l = None.
Proof. intros. unfold first_from. by rewrite drop_ge by done. Qed.

(** *** Killing *)

Definition kill (p : proc) : proc :=
  let p := proc_with_killed 1 p in
  if decide (p_state p = SLEEPING) then proc_with_state RUNNABLE p else p.

Definition kill_post s c pid i (r : Z) (s' : kernel) : Prop :=
  ∃ c', settle c' = settle c ∧
  match first_from (λ p, p_pid p = pid) i (n_procs s) with
  | Some (j, p) => r = 0 ∧ s' = put_cpu h c' (put_proc j (kill p) s)
  | None => r = -1 ∧ s' = put_cpu h c' s
  end.

Lemma kkill_loop_spec n : ∀ s c i pid,
  n_cpus s !! h = Some c → cpu_ok c → locks_free s → length (n_procs s) = (i + n)%nat →
  runs (kkill_loop h n i pid) s (kill_post s c pid i).
Proof.
  induction n as [|n IH]; intros s c i pid Hc Hok Hfree Hlen; cbn [kkill_loop].
  { apply runs_ret. exists c. by rewrite first_from_end, put_cpu_same by (done || lia). }
  destruct (lookup_lt_is_Some_2 (n_procs s) i ltac:(lia)) as [p Hp]. pose proof (Hfree i p Hp) as Hl.
  apply (runs_locked s c i p); [done..|]. cbn [p_pid p_state proc_with_lock].
  destruct (Z.eqb_spec (p_pid p) pid) as [Epid|Epid].
  - apply runs_bind. eapply runs_section_modify; [done|done|done|]. apply runs_bind.
    assert (Hend : ∀ (Q : Z → kernel → Prop), Q 0 (put_proc i (kill p) (put_cpu h (settle c) s)) →
      runs (release_p h i;; mret 0) (in_section s c i (kill p)) Q).
    { intros Q HQ. apply runs_bind. eapply runs_unlock; [done|done|done| |by apply runs_ret].
      unfold kill. by destruct (decide _). }
    assert (HQ : kill_post s c pid i 0 (put_proc i (kill p) (put_cpu h (settle c) s))).
    { exists (settle c). by rewrite settle_settle, (first_from_here _ i _ p). }
    unfold kill in *. cbn [p_state proc_with_killed] in *. destruct (decide (p_state p = SLEEPING)).
    + eapply runs_section_modify; [done|done|done|]. by apply Hend.
    + apply runs_ret. by apply Hend.
  - apply runs_bind. eapply runs_unlock; [done|done|done|done|]. set (s1 := put_cpu h (settle c) s).
    assert (E : put_proc i p s1 = s1) by (by apply put_proc_same). rewrite E.
    eapply runs_mono; [apply (IH s1 (settle c)); [by eapply cpu_put|by apply (settle_ok c); [rewrite settle_settle|]|exact Hfree|cbn; lia]|].
    intros r s' (c' & Ec & Hm). exists c'. split; [by rewrite Ec, settle_settle|]. rewrite (first_from_next _ i _ p) by done.
    change (n_procs s1) with (n_procs s) in Hm. destruct (first_from _ (S i) _) as [[j q]|]; destruct Hm as [-> ->]; (split; [done|]).
    + rewrite !put_cpu_proc. unfold s1. by rewrite put_cpu_put.
    + unfold s1. by rewrite put_cpu_put.
Qed.

Lemma kkill_spec s c pid :
  n_cpus s !! h = Some c → cpu_ok c → locks_free s → length (n_procs s) = Z.to_nat NPROC →
  runs (kkill h pid) s (kill_post s c pid 0).
Proof. intros. by apply kkill_loop_spec. Qed.

(** *** Choosing a process to run *)

(** The hart runs process [i], whose lock it holds until the process
    releases it. *)
Definition dispatched s c (i : nat) (p : proc) : kernel :=
  put_cpu h (mk_cpu (Some i) (c_noff c + 1) (if c_noff c =? 0 then c_sie c else c_intena c) false)
    (put_proc i (proc_with_lock (held_by h (p_lock p)) (proc_with_state RUNNING p)) s).

Definition scan_post s c i (r : option nat) (s' : kernel) : Prop :=
  match first_from (λ p, p_state p = RUNNABLE) i (n_procs s) with
  | Some (j, p) => r = Some j ∧ ∃ c', settle c' = settle c ∧ s' = dispatched s c' j p
  | None => r = None ∧ ∃ c', settle c' = settle c ∧ s' = put_cpu h c' s
  end.

Lemma scheduler_scan_spec n : ∀ s c i,
  n_cpus s !! h = Some c → cpu_ok c → locks_free s → length (n_procs s) = (i + n)%nat →
  runs (scheduler_scan h n i) s (scan_post s c i).
Proof.
  induction n as [|n IH]; intros s c i Hc Hok Hfree Hlen; cbn [scheduler_scan].
  { apply runs_ret. unfold scan_post. rewrite first_from_end by lia. split; [done|]. exists c. by rewrite put_cpu_same. }
  destruct (lookup_lt_is_Some_2 (n_procs s) i ltac:(lia)) as [p Hp]. pose proof (Hfree i p Hp) as Hl.
  apply runs_bind. unfold scheduler_pick. apply (runs_locked s c i p); [done..|]. cbn [p_state proc_with_lock].
  destruct (decide (p_state p = RUNNABLE)) as [Er|Er].
  - apply runs_bind. eapply runs_section_modify; [done|done|done|].
    apply runs_bind, (runs_mycpu _ (pushed c)); [by eapply cpu_put|]. apply runs_bind, runs_modify, runs_ret, runs_ret.
    unfold scan_post. rewrite (first_from_here _ i _ p) by done. split; [done|]. exists c. split; [done|].
    change (with_cpus (<[h:=?x]> (n_cpus ?y)) ?y) with (put_cpu h x y). unfold in_section, dispatched.
    by rewrite put_cpu_proc, put_cpu_put.
  - apply runs_bind. eapply runs_unlock; [done|done|done|done|]. apply runs_ret. set (s1 := put_cpu h (settle c) s).
    assert (E : put_proc i p s1 = s1) by (by apply put_proc_same). rewrite E.
    eapply runs_mono; [apply (IH s1 (settle c)); [by eapply cpu_put|by apply (settle_ok c); [rewrite settle_settle|]|exact Hfree|cbn; lia]|].
    intros r s' Hm. unfold scan_post in *. rewrite (first_from_next _ i _ p) by done. change (n_procs s1) with (n_procs s) in Hm.
    destruct (first_from _ (S i) _) as [[j q]|]; destruct Hm as [-> (c' & Ec & ->)]; (split; [done|]); exists c'; rewrite Ec, settle_settle.
    + unfold s1, dispatched. by rewrite !put_cpu_proc, put_cpu_put.
    + unfold s1. by rewrite put_cpu_put.
Qed.
End hart.
