(* ===== verification/ProcInv.v ===== *)
(** * The process table while several harts work on it

    [inv C s] relates the kernel state to a description [C] of what each
    hart is doing: the process it has switched to, the process it runs, the
    process locks it holds and its nesting of [push_off].  Every operation
    of kernel/proc.c on one hart leaves the other harts' part of the
    invariant alone. *)

From S2P Require Import Prelude Spinlock Riscv Mem Buddy KString Vm FsState Bio Log Fs Pipe SysFile Proc ProcSpec.

Record cv := mk_cv {
  cv_me : option nat;
  cv_cur : option nat;
  cv_held : gset nat;
  cv_noff : Z;
}.

(** The lock is held by hart [h]. *)
Definition locked_by (h : nat) (l : spinlock) : Prop := lk_locked l = 1 ∧ lk_cpu l = Some h.

Definition cpu_is (v : cv) (c : cpu) : Prop :=
  c_proc c = cv_me v ∧ c_noff c = cv_noff v ∧ (0 < cv_noff v → c_sie c = false).

Record inv (C : nat → cv) (s : kernel) : Prop := {
  iv_state : ∀ j p, n_procs s !! j = Some p → p_state p = RUNNING ↔ ∃ h, cv_cur (C h) = Some j;
  iv_held : ∀ j p h, n_procs s !! j = Some p → j ∈ cv_held (C h) → locked_by h (p_lock p);
  iv_free : ∀ j p, n_procs s !! j = Some p → unlocked (p_lock p) ∨ ∃ h, j ∈ cv_held (C h);
  iv_cpu : ∀ h c, n_cpus s !! h = Some c → cpu_is (C h) c;
  iv_uniq : ∀ h h' j, cv_me (C h) = Some j → cv_me (C h') = Some j → h = h';
  iv_cur : ∀ h j, cv_cur (C h) = Some j → cv_me (C h) = Some j;
  iv_me : ∀ h j, cv_me (C h) = Some j → cv_cur (C h) = Some j ∨ j ∈ cv_held (C h);
}.

Definition set_cv (C : nat → cv) (h : nat) (v : cv) : nat → cv := λ k, if decide (k = h) then v else C k.

Lemma set_cv_eq C h v : set_cv C h v h = v.
Proof. unfold set_cv. by rewrite decide_True. Qed.
Lemma set_cv_ne C h v k : k ≠ h → set_cv C h v k = C k.
Proof. intros. unfold set_cv. by rewrite decide_False. Qed.

Section hart.
Context (C : nat → cv) (h : nat).
Implicit Types (s : kernel) (me cur : option nat) (H : gset nat) (n : Z).

(** Hart [h] is as described, the others are as in [C]. *)
Definition on me cur H n s : Prop := inv (set_cv C h (mk_cv me cur H n)) s.

(** No hart runs process [j]. *)
Definition off cur (j : nat) : Prop := cur ≠ Some j ∧ ∀ k, k ≠ h → cv_cur (C k) ≠ Some j.

Lemma on_off me cur H n s j p : on me cur H n s → n_procs s !! j = Some p → p_state p ≠ RUNNING → off cur j.
Proof.
  intros Hi Hp Hs. pose proof (iv_state _ _ Hi j p Hp) as E. split.
  - intros ->. apply Hs, E. exists h. by rewrite set_cv_eq.
  - intros k Hne Hc. apply Hs, E. exists k. by rewrite set_cv_ne.
Qed.

Lemma running_off v j : (∃ k, cv_cur (set_cv C h v k) = Some j) → off (cv_cur v) j → False.
Proof.
  intros [k Hk] [H1 H2]. destruct (decide (k = h)) as [->|Hne].
  - by rewrite set_cv_eq in Hk.
  - rewrite set_cv_ne in Hk by done. by apply (H2 k).
Qed.

(** ** Changes of state that keep the invariant *)

(** The current hart's [struct cpu]. *)
Lemma on_cpu me cur H n s c n' :
  on me cur H n s → c_proc c = me → c_noff c = n' → (0 < n' → c_sie c = false) → on me cur H n' (put_cpu h c s).
Proof.
  intros [I1 I2 I3 I4 I5 I6 I7] Ep En Es.
  assert (E : ∀ k, cv_me (set_cv C h (mk_cv me cur H n') k) = cv_me (set_cv C h (mk_cv me cur H n) k) ∧
    cv_cur (set_cv C h (mk_cv me cur H n') k) = cv_cur (set_cv C h (mk_cv me cur H n) k) ∧
    cv_held (set_cv C h (mk_cv me cur H n') k) = cv_held (set_cv C h (mk_cv me cur H n) k)).
  { intros k. unfold set_cv. by destruct (decide (k = h)). }
  split.
  - intros j p Hp. rewrite (I1 j p Hp). split; intros [k Hk]; exists k; by destruct (E k) as (_ & <- & _) || destruct (E k) as (_ & -> & _).
  - intros j p k Hp. destruct (E k) as (_ & _ & ->). by apply I2.
  - intros j p Hp. destruct (I3 j p Hp) as [Hf|[k Hk]]; [by left|right]. exists k. by destruct (E k) as (_ & _ & ->).
  - intros k c' Hk. cbn in Hk. destruct (decide (k = h)) as [->|Hne].
    + rewrite set_cv_eq. apply list_lookup_insert_Some in Hk as [(_ & <- & _)|[? _]]; [by split|done].
    + rewrite list_lookup_insert_ne in Hk by done. rewrite set_cv_ne by done. specialize (I4 k c' Hk). by rewrite set_cv_ne in I4.
  - intros k k' j. destruct (E k) as (-> & _), (E k') as (-> & _). apply I5.
  - intros k j. destruct (E k) as (-> & -> & _). apply I6.
  - intros k j. destruct (E k) as (-> & -> & ->). apply I7.
Qed.

(** A process changes in other fields than its state and its lock. *)
Lemma on_proc me cur H n s i p q :
  on me cur H n s → n_procs s !! i = Some p → p_state q = p_state p → p_lock q = p_lock p → on me cur H n (put_proc i q s).
Proof.
  intros [I1 I2 I3 I4 I5 I6 I7] Hp Es El. split; [| | |done|done|done|done].
  all: intros j r; intros; match goal with Hj : _ !! j = Some r |- _ => cbn in Hj; apply list_lookup_insert_Some in Hj as [(<- & <- & _)|[_ Hj]] end.
  - rewrite Es. by apply I1.
  - by apply I1.
  - rewrite El. by eapply I2.
  - by eapply I2.
  - rewrite El. by apply (I3 i p).
  - by apply I3.
Qed.

(** The state of a process that no hart runs. *)
Lemma on_proc_state me cur H n s i p st :
  on me cur H n s → n_procs s !! i = Some p → off cur i → st ≠ RUNNING → on me cur H n (put_proc i (proc_with_state st p) s).
Proof.
  intros [I1 I2 I3 I4 I5 I6 I7] Hp Hoff Hst. split; [| | |done|done|done|done].
  all: intros j r; intros; match goal with Hj : _ !! j = Some r |- _ => cbn in Hj; apply list_lookup_insert_Some in Hj as [(<- & <- & _)|[_ Hj]] end.
  - cbn. split; [done|]. intros Hk. by destruct (running_off _ _ Hk Hoff).
  - by apply I1.
  - by apply (I2 i p).
  - by eapply I2.
  - by apply (I3 i p).
  - by apply I3.
Qed.

(** The hart stops running its process. *)
Lemma on_stop me H n s i p st :
  on me (Some i) H n s → n_procs s !! i = Some p → i ∈ H → st ≠ RUNNING → on me None H n (put_proc i (proc_with_state st p) s).
Proof.
  intros [I1 I2 I3 I4 I5 I6 I7] Hp Hin Hst.
  assert (E : ∀ k, cv_me (set_cv C h (mk_cv me None H n) k) = cv_me (set_cv C h (mk_cv me (Some i) H n) k) ∧
    cv_held (set_cv C h (mk_cv me None H n) k) = cv_held (set_cv C h (mk_cv me (Some i) H n) k)).
  { intros k. unfold set_cv. by destruct (decide (k = h)). }
  assert (Hmi : me = Some i) by (pose proof (I6 h i) as E6; rewrite set_cv_eq in E6; by apply E6).
  split.
  - intros j r Hj. cbn in Hj. apply list_lookup_insert_Some in Hj as [(<- & <- & _)|[Hne Hj]].
    + cbn. split; [done|]. intros [k Hk]. destruct (decide (k = h)) as [->|Hkh]; [by rewrite set_cv_eq in Hk|].
      rewrite set_cv_ne in Hk by done. exfalso. apply Hkh, (I5 k h i); [apply I6; by rewrite set_cv_ne|by rewrite set_cv_eq].
    + rewrite (I1 j r Hj). split; intros [k Hk]; exists k; unfold set_cv in *; destruct (decide (k = h)); cbn in *; congruence.
  - intros j r k Hj. destruct (E k) as (_ & ->). cbn in Hj. apply list_lookup_insert_Some in Hj as [(<- & <- & _)|[_ Hj]]; [by apply (I2 i p)|by apply (I2 j r)].
  - intros j r Hj. assert (Hex : (∃ k, j ∈ cv_held (set_cv C h (mk_cv me (Some i) H n) k)) → ∃ k, j ∈ cv_held (set_cv C h (mk_cv me None H n) k)).
    { intros [k Hk]. exists k. by destruct (E k) as (_ & ->). }
    cbn in Hj. apply list_lookup_insert_Some in Hj as [(<- & <- & _)|[_ Hj]]; [destruct (I3 i p Hp)|destruct (I3 j r Hj)]; auto.
  - intros k c Hk. specialize (I4 k c Hk). unfold set_cv in *. by destruct (decide (k = h)).
  - intros k k' j. destruct (E k) as (-> & _), (E k') as (-> & _). apply I5.
  - intros k j Hk. destruct (E k) as (-> & _). apply I6. unfold set_cv in *. by destruct (decide (k = h)).
  - intros k j Hk. destruct (decide (k = h)) as [->|Hkh]; [|by specialize (I7 k j); rewrite set_cv_ne in * by done; apply I7].
    rewrite set_cv_eq in *. right. cbn in *. congruence.
Qed.

(** Taking and giving back a process lock. *)
Lemma on_lock me cur H n s i p :
  on me cur H n s → n_procs s !! i = Some p → lk_locked (p_lock p) = 0 →
  (i ∉ H) ∧ on me cur ({[i]} ∪ H) n (put_proc i (proc_with_lock (held_by h (p_lock p)) p) s).
Proof.
  intros [I1 I2 I3 I4 I5 I6 I7] Hp Hl.
  assert (Hfree : ∀ k, i ∉ cv_held (set_cv C h (mk_cv me cur H n) k)) by (intros k Hk; destruct (I2 i p k Hp Hk); congruence).
  assert (E : ∀ k, cv_me (set_cv C h (mk_cv me cur ({[i]} ∪ H) n) k) = cv_me (set_cv C h (mk_cv me cur H n) k) ∧
    cv_cur (set_cv C h (mk_cv me cur ({[i]} ∪ H) n) k) = cv_cur (set_cv C h (mk_cv me cur H n) k) ∧
    ∀ j, j ∈ cv_held (set_cv C h (mk_cv me cur ({[i]} ∪ H) n) k) ↔ j ∈ cv_held (set_cv C h (mk_cv me cur H n) k) ∨ k = h ∧ j = i).
  { intros k. unfold set_cv. destruct (decide (k = h)); cbn; (split; [done|split; [done|intros j]]); set_solver. }
  split; [specialize (Hfree h); by rewrite set_cv_eq in Hfree|]. split.
  - intros j r Hj. assert (∃ r0, n_procs s !! j = Some r0 ∧ p_state r = p_state r0) as (r0 & Hr0 & ->).
    { cbn in Hj. apply list_lookup_insert_Some in Hj as [(<- & <- & _)|[_ Hj]]; eauto. }
    rewrite (I1 j r0 Hr0). split; intros [k Hk]; exists k; by destruct (E k) as (_ & <- & _) || destruct (E k) as (_ & -> & _).
  - intros j r k Hj Hk. apply E in Hk. cbn in Hj. apply list_lookup_insert_Some in Hj as [(<- & <- & _)|[Hne Hj]].
    + destruct Hk as [Hk|[-> _]]; [by destruct (Hfree k)|]. by split.
    + destruct Hk as [Hk|[_ ->]]; [by apply (I2 j r)|done].
  - intros j r Hj. cbn in Hj. apply list_lookup_insert_Some in Hj as [(<- & <- & _)|[Hne Hj]].
    + right. exists h. apply E. by right.
    + destruct (I3 j r Hj) as [?|[k Hk]]; [by left|right]. exists k. apply E. by left.
  - intros k c Hk. specialize (I4 k c Hk). unfold set_cv in *. by destruct (decide (k = h)).
  - intros k k' j. destruct (E k) as (-> & _), (E k') as (-> & _). apply I5.
  - intros k j. destruct (E k) as (-> & -> & _). apply I6.
  - intros k j Hk. destruct (E k) as (Em & -> & Eh). rewrite Em in Hk. destruct (I7 k j Hk); [by left|right]. apply Eh. by left.
Qed.

Lemma on_unlock me cur H n s i p :
  on me cur H n s → n_procs s !! i = Some p → holding h (p_lock p) = true → (me = Some i → cur = Some i) →
  i ∈ H ∧ on me cur (H ∖ {[i]}) n (put_proc i (proc_with_lock (mk_spinlock (lk_name (p_lock p)) 0 None) p) s).
Proof.
  intros [I1 I2 I3 I4 I5 I6 I7] Hp Hl Hmc. unfold holding in Hl. apply andb_prop in Hl as [Hl1 Hl2].
  apply bool_decide_eq_true in Hl2. apply negb_true_iff, Z.eqb_neq in Hl1.
  assert (Hin : i ∈ H).
  { destruct (I3 i p Hp) as [[? _]|[k Hk]]; [done|]. destruct (I2 i p k Hp Hk) as [_ E]. assert (k = h) as -> by congruence.
    by rewrite set_cv_eq in Hk. }
  assert (Hon : ∀ k, i ∈ cv_held (set_cv C h (mk_cv me cur H n) k) → k = h).
  { intros k Hk. destruct (I2 i p k Hp Hk). congruence. }
  assert (E : ∀ k, cv_me (set_cv C h (mk_cv me cur (H ∖ {[i]}) n) k) = cv_me (set_cv C h (mk_cv me cur H n) k) ∧
    cv_cur (set_cv C h (mk_cv me cur (H ∖ {[i]}) n) k) = cv_cur (set_cv C h (mk_cv me cur H n) k) ∧
    ∀ j, j ∈ cv_held (set_cv C h (mk_cv me cur (H ∖ {[i]}) n) k) ↔ j ∈ cv_held (set_cv C h (mk_cv me cur H n) k) ∧ j ≠ i).
  { intros k. specialize (Hon k). unfold set_cv in *. destruct (decide (k = h)); cbn in *; (split; [done|split; [done|intros j]]); [set_solver|].
    split; [|tauto]. intros Hj. split; [done|]. intros ->. auto. }
  split; [done|]. split.
  - intros j r Hj. assert (∃ r0, n_procs s !! j = Some r0 ∧ p_state r = p_state r0) as (r0 & Hr0 & ->).
    { cbn in Hj. apply list_lookup_insert_Some in Hj as [(<- & <- & _)|[_ Hj]]; eauto. }
    rewrite (I1 j r0 Hr0). split; intros [k Hk]; exists k; by destruct (E k) as (_ & <- & _) || destruct (E k) as (_ & -> & _).
  - intros j r k Hj Hk. apply E in Hk as [Hk Hne]. cbn in Hj. apply list_lookup_insert_Some in Hj as [(<- & _)|[_ Hj]]; [done|by apply (I2 j r)].
  - intros j r Hj. cbn in Hj. apply list_lookup_insert_Some in Hj as [(<- & <- & _)|[Hne Hj]]; [by left|].
    destruct (I3 j r Hj) as [?|[k Hk]]; [by left|right]. exists k. by apply E.
  - intros k c Hk. specialize (I4 k c Hk). unfold set_cv in *. by destruct (decide (k = h)).
  - intros k k' j. destruct (E k) as (-> & _), (E k') as (-> & _). apply I5.
  - intros k j. destruct (E k) as (-> & -> & _). apply I6.
  - intros k j Hk. destruct (E k) as (Em & Ec & Eh). rewrite Em in Hk. rewrite Ec. destruct (I7 k j Hk) as [?|Hj]; [by left|].
    destruct (decide (j = i)) as [->|Hji]; [left|right; by apply Eh]. assert (k = h) as -> by auto. rewrite set_cv_eq in *. by apply Hmc.
Qed.

(** The scheduler switches to a process and back. *)
Lemma on_run H n s i p c c0 :
  on None None H n s → n_procs s !! i = Some p → p_state p = RUNNABLE → i ∈ H → n_cpus s !! h = Some c0 →
  c_proc c = Some i → c_noff c = n → (0 < n → c_sie c = false) →
  on (Some i) (Some i) H n (put_cpu h c (put_proc i (proc_with_state RUNNING p) s)).
Proof.
  intros [I1 I2 I3 I4 I5 I6 I7] Hp Hst Hin Hc0 Ep En Es.
  assert (Hno : ∀ k, k ≠ h → cv_me (C k) ≠ Some i).
  { intros k Hk Hme. specialize (I7 k i). rewrite set_cv_ne in I7 by done. destruct (I7 Hme) as [Hcur|Hheld].
    - assert (p_state p = RUNNING) by (apply (I1 i p Hp); exists k; by rewrite set_cv_ne). congruence.
    - destruct (I2 i p k Hp) as [_ E1]; [by rewrite set_cv_ne|]. destruct (I2 i p h Hp) as [_ E2]; [by rewrite set_cv_eq|]. congruence. }
  split.
  - intros j r Hj. cbn in Hj. apply list_lookup_insert_Some in Hj as [(<- & <- & _)|[Hne Hj]].
    + cbn. split; [|done]. intros _. exists h. by rewrite set_cv_eq.
    + rewrite (I1 j r Hj). split; intros [k Hk]; exists k; unfold set_cv in *; destruct (decide (k = h)); cbn in *; congruence.
  - intros j r k Hj Hk. assert (j ∈ cv_held (set_cv C h (mk_cv None None H n) k)).
    { unfold set_cv in *. by destruct (decide (k = h)). }
    cbn in Hj. apply list_lookup_insert_Some in Hj as [(<- & <- & _)|[_ Hj]]; [by apply (I2 i p)|by apply (I2 j r)].
  - intros j r Hj. assert (Hex : (∃ k, j ∈ cv_held (set_cv C h (mk_cv None None H n) k)) → ∃ k, j ∈ cv_held (set_cv C h (mk_cv (Some i) (Some i) H n) k)).
    { intros [k Hk]. exists k. unfold set_cv in *. by destruct (decide (k = h)). }
    cbn in Hj. apply list_lookup_insert_Some in Hj as [(<- & <- & _)|[_ Hj]]; [destruct (I3 i p Hp)|destruct (I3 j r Hj)]; auto.
  - intros k c' Hk. cbn in Hk. destruct (decide (k = h)) as [->|Hne].
    + rewrite set_cv_eq. rewrite list_lookup_insert_eq in Hk by (by eapply lookup_lt_Some). injection Hk as <-. by split.
    + rewrite list_lookup_insert_ne in Hk by done. specialize (I4 k c' Hk). by rewrite set_cv_ne in * by done.
  - intros k k' j. unfold set_cv. destruct (decide (k = h)) as [->|Hk], (decide (k' = h)) as [->|Hk']; cbn; intros E1 E2; simplify_eq; [done|by destruct (Hno k')|by destruct (Hno k)|].
    apply (I5 k k' j); by rewrite set_cv_ne.
  - intros k j. specialize (I6 k j). unfold set_cv in *. by destruct (decide (k = h)).
  - intros k j. specialize (I7 k j). unfold set_cv in *. destruct (decide (k = h)); [|done]. cbn. by left.
Qed.

Lemma on_return me H n s c :
  on me None H n s → c_proc c = None → c_noff c = n → (0 < n → c_sie c = false) → on None None H n (put_cpu h c s).
Proof.
  intros [I1 I2 I3 I4 I5 I6 I7] Ep En Es.
  assert (E : ∀ k, cv_cur (set_cv C h (mk_cv None None H n) k) = cv_cur (set_cv C h (mk_cv me None H n) k) ∧
    cv_held (set_cv C h (mk_cv None None H n) k) = cv_held (set_cv C h (mk_cv me None H n) k)).
  { intros k. unfold set_cv. by destruct (decide (k = h)). }
  split.
  - intros j p Hp. rewrite (I1 j p Hp). split; intros [k Hk]; exists k; by destruct (E k) as (<- & _) || destruct (E k) as (-> & _).
  - intros j p k Hp. destruct (E k) as (_ & ->). by apply I2.
  - intros j p Hp. destruct (I3 j p Hp) as [Hf|[k Hk]]; [by left|right]. exists k. by destruct (E k) as (_ & ->).
  - intros k c' Hk. cbn in Hk. destruct (decide (k = h)) as [->|Hne].
    + rewrite set_cv_eq. apply list_lookup_insert_Some in Hk as [(_ & <- & _)|[? _]]; [by split|done].
    + rewrite list_lookup_insert_ne in Hk by done. specialize (I4 k c' Hk). by rewrite set_cv_ne in * by done.
  - intros k k' j. specialize (I5 k k' j). unfold set_cv in *. by destruct (decide (k = h)), (decide (k' = h)).
  - intros k j. specialize (I6 k j). unfold set_cv in *. by destruct (decide (k = h)).
  - intros k j. specialize (I7 k j). unfold set_cv in *. by destruct (decide (k = h)).
Qed.

(** ** The operations *)

#[local] Abbreviation tri P m Q := (triple P m Q).

Lemma t_mycpu P (Q : cpu → kernel → Prop) : (∀ c s, P s → n_cpus s !! h = Some c → Q c s) → tri P (mycpu h) Q.
Proof. intros HQ s c s' HP E. unfold mycpu in E. destruct (n_cpus s !! h) eqn:Ec; [|done]. injection E as <- <-. auto. Qed.

Lemma t_get_proc P i (Q : proc → kernel → Prop) : (∀ p s, P s → n_procs s !! i = Some p → Q p s) → tri P (get_proc i) Q.
Proof. intros HQ s p s' HP E. unfold get_proc in E. destruct (n_procs s !! i) eqn:Ep; [|done]. injection E as <- <-. auto. Qed.

Lemma t_get_proc_keep P i : tri P (get_proc i) (λ _, P).
Proof. by apply t_get_proc. Qed.

Lemma t_modify_proc P i f Q : (∀ p s, P s → n_procs s !! i = Some p → Q tt (put_proc i (f p) s)) → tri P (modify_proc i f) Q.
Proof.
  intros HQ. eapply triple_bind; [apply t_get_proc; intros p s HP Hp; exact (conj HP Hp)|]. intros p.
  apply triple_modify. intros s [HP Hp]. by apply HQ.
Qed.

Lemma on_cpu_at me cur H n s c : on me cur H n s → n_cpus s !! h = Some c → c_proc c = me ∧ c_noff c = n ∧ (0 < n → c_sie c = false).
Proof. intros Hi Hc. pose proof (iv_cpu _ _ Hi h c Hc) as E. by rewrite set_cv_eq in E. Qed.

Lemma t_push me cur H n : tri (on me cur H n) (push_off h) (λ _, on me cur H (n + 1)).
Proof.
  intros s [] s' Hi E. destruct (n_cpus s !! h) as [c|] eqn:Hc.
  - destruct (on_cpu_at _ _ _ _ _ _ Hi Hc) as (Ep & En & Es).
    assert (Hr : runs (push_off h) s (λ _ s', s' = put_cpu h (pushed c) s)) by (by apply (runs_push_off h s c)).
    destruct Hr as (? & s2 & E2 & ->). rewrite E in E2. injection E2 as _ ->.
    eapply on_cpu; [done|done|cbn; lia|done].
  - unfold push_off, intr_get in E. rewrite !M_bind_unfold in E. unfold mycpu in E. by rewrite Hc in E.
Qed.

Lemma t_pop me cur H n : tri (on me cur H n) (pop_off h) (λ _, on me cur H (n - 1)).
Proof.
  unfold pop_off, intr_get, intr_on. eapply triple_bind; [apply t_mycpu; intros c s Hi Hc; exact (conj Hi Hc)|]. intros c.
  eapply triple_bind with (R := λ i s, (i = c_sie c ∧ c_noff c = n ∧ c_proc c = me) ∧ on me cur H n s).
  { eapply triple_bind; [apply t_mycpu; intros c' s HP Hc'; exact (conj HP Hc')|]. intros c'. apply triple_ret.
    intros s [[Hi Hc] Hc']. destruct (on_cpu_at _ _ _ _ _ _ Hi Hc) as (? & ? & _). split; [|done]. ands; congruence. }
  intros i. apply triple_pure. intros (-> & En & Ep). destruct (c_sie c); [by apply triple_stop|].
  destruct (c_noff c <? 1); [by apply triple_stop|]. eapply triple_bind with (R := λ _, on me cur H (n - 1)).
  { apply triple_modify. intros s Hi. eapply (on_cpu me cur H n); [done|done|cbn; lia|done]. }
  intros ?. destruct (_ && _) eqn:E; [|by apply triple_ret]. apply andb_prop in E as [E%Z.eqb_eq _].
  eapply triple_bind; [apply t_mycpu; intros c' s HP Hc'; exact (conj HP Hc')|]. intros c'. apply triple_modify. intros s [Hi Hc'].
  destruct (on_cpu_at _ _ _ _ _ _ Hi Hc') as (? & ? & _). eapply (on_cpu me cur H (n - 1)); [done|done|done|lia].
Qed.

Lemma acquire_inv k l l' : acquire k l = Ret l' → lk_locked l = 0 ∧ l' = held_by k l.
Proof.
  unfold acquire. destruct (holding k l); [done|]. destruct (Z.eqb_spec (lk_locked l) 0) as [E|]; [|done]. cbn.
  intros E'. by injection E' as <-.
Qed.

Lemma release_inv k l l' : release k l = Ret l' → holding k l = true ∧ l' = mk_spinlock (lk_name l) 0 None.
Proof. unfold release. destruct (holding k l); [|done]. cbn. intros E'. by injection E' as <-. Qed.

Lemma t_acquire me cur H n i :
  tri (on me cur H n) (acquire_p h i) (λ _ s, (i ∉ H) ∧ on me cur ({[i]} ∪ H) (n + 1) s).
Proof.
  eapply triple_bind; [apply t_push|]. intros ?. eapply triple_bind; [apply t_get_proc; intros p s Hi Hp; exact (conj Hi Hp)|].
  intros p. eapply triple_bind; [apply triple_lift; intros l s El Hs; exact (conj El Hs)|]. intros l.
  apply triple_pure. intros [Hl ->]%acquire_inv. apply t_modify_proc. intros q s [Hi Hp] Hq.
  assert (q = p) as -> by congruence. by apply on_lock.
Qed.

Lemma t_release me cur H n i :
  (me = Some i → cur = Some i) →
  tri (on me cur H n) (release_p h i) (λ _ s, i ∈ H ∧ on me cur (H ∖ {[i]}) (n - 1) s).
Proof.
  intros Hmc. eapply triple_bind; [apply t_get_proc; intros p s Hi Hp; exact (conj Hi Hp)|].
  intros p. eapply triple_bind; [apply triple_lift; intros l s El Hs; exact (conj El Hs)|]. intros l.
  apply triple_pure. intros [Hl ->]%release_inv. eapply triple_bind with (R := λ _ s, i ∈ H ∧ on me cur (H ∖ {[i]}) n s).
  - apply t_modify_proc. intros q s [Hi Hp] Hq. assert (q = p) as -> by congruence. exact (on_unlock _ _ _ _ _ _ _ Hi Hp Hl Hmc).
  - intros []. apply triple_pure. intros Hin. eapply triple_conseq; [apply t_pop|done|]. by intros [] s.
Qed.

(** Release of the lock taken last. *)
Lemma t_release_last me cur H n i :
  (me = Some i → cur = Some i) → i ∉ H → tri (on me cur ({[i]} ∪ H) (n + 1)) (release_p h i) (λ _, on me cur H n).
Proof.
  intros Hmc Hi. eapply triple_conseq; [by apply t_release|done|]. intros _ s [_ Hs].
  replace (({[i]} ∪ H) ∖ {[i]}) with H in Hs by set_solver. by replace (n + 1 - 1) with n in Hs by lia.
Qed.

(** Everything outside the process table and the harts. *)
Lemma on_frame me cur H n s s' : n_procs s' = n_procs s → n_cpus s' = n_cpus s → on me cur H n s → on me cur H n s'.
Proof. intros Ep Ec [I1 I2 I3 I4 I5 I6 I7]. split; rewrite ?Ep, ?Ec; done. Qed.

Lemma t_frame me cur H n (f : kernel → kernel) :
  (∀ s, n_procs (f s) = n_procs s ∧ n_cpus (f s) = n_cpus s) → tri (on me cur H n) (modify f) (λ _, on me cur H n).
Proof. intros Hf. apply triple_modify. intros s. destruct (Hf s). by apply on_frame. Qed.

Lemma t_lock me cur H n (lk : kernel → spinlock) (f : spinlock → kernel → kernel) :
  (∀ l s, n_procs (f l s) = n_procs s ∧ n_cpus (f l s) = n_cpus s) →
  tri (on me cur H n) (push_off h;; s ← get; l ← lift (acquire h (lk s)); modify (f l)) (λ _, on me cur H (n + 1)).
Proof.
  intros Hf. eapply triple_bind; [apply t_push|]. intros ?. eapply triple_bind; [apply triple_get_keep|].
  intros s0. eapply triple_bind; [apply triple_lift_keep|]. intros l. by apply t_frame.
Qed.

Lemma t_unlock me cur H n (lk : kernel → spinlock) (f : spinlock → kernel → kernel) :
  (∀ l s, n_procs (f l s) = n_procs s ∧ n_cpus (f l s) = n_cpus s) →
  tri (on me cur H n) (s ← get; l ← lift (release h (lk s)); modify (f l);; pop_off h) (λ _, on me cur H (n - 1)).
Proof.
  intros Hf. eapply triple_bind; [apply triple_get_keep|].
  intros s0. eapply triple_bind; [apply triple_lift_keep|]. intros l.
  eapply triple_bind; [by apply t_frame|]. intros ?. apply t_pop.
Qed.

Lemma t_acquire_wait me cur H n : tri (on me cur H n) (acquire_wait h) (λ _, on me cur H (n + 1)).
Proof. by apply t_lock. Qed.
Lemma t_release_wait me cur H n : tri (on me cur H n) (release_wait h) (λ _, on me cur H (n - 1)).
Proof. by apply t_unlock. Qed.
Lemma t_acquire_ticks me cur H n : tri (on me cur H n) (acquire_ticks h) (λ _, on me cur H (n + 1)).
Proof. by apply t_lock. Qed.
Lemma t_release_ticks me cur H n : tri (on me cur H n) (release_ticks h) (λ _, on me cur H (n - 1)).
Proof. by apply t_unlock. Qed.
Lemma t_acquire_pid me cur H n : tri (on me cur H n) (acquire_pid h) (λ _, on me cur H (n + 1)).
Proof. by apply t_lock. Qed.
Lemma t_release_pid me cur H n : tri (on me cur H n) (release_pid h) (λ _, on me cur H (n - 1)).
Proof. by apply t_unlock. Qed.

(** Fields of a process other than its state and its lock. *)
Lemma t_modify_same me cur H n i f :
  (∀ p, p_state (f p) = p_state p ∧ p_lock (f p) = p_lock p) → tri (on me cur H n) (modify_proc i f) (λ _, on me cur H n).
Proof. intros Hf. apply t_modify_proc. intros p s Hi Hp. destruct (Hf p). by eapply on_proc. Qed.

Lemma t_modify_state me cur H n i f st :
  off cur i → st ≠ RUNNING → (∀ p, p_state (f p) = st ∧ p_lock (f p) = p_lock p) →
  tri (on me cur H n) (modify_proc i f) (λ _, on me cur H n).
Proof.
  intros Ho Hst Hf. apply t_modify_proc. intros p s Hi Hp. destruct (Hf p) as [Es El].
  pose proof (on_proc_state _ _ _ _ _ _ _ st Hi Hp Ho Hst) as Hi'.
  pose proof (on_proc _ _ _ _ _ i _ (f p) Hi' (proc_put _ _ _ _ Hp) Es El) as Hi2. by rewrite put_proc_put in Hi2.
Qed.

Lemma t_stop me H n i f st :
  i ∈ H → st ≠ RUNNING → (∀ p, p_state (f p) = st ∧ p_lock (f p) = p_lock p) →
  tri (on me (Some i) H n) (modify_proc i f) (λ _, on me None H n).
Proof.
  intros Hin Hst Hf. apply t_modify_proc. intros p s Hi Hp. destruct (Hf p) as [Es El].
  pose proof (on_stop _ _ _ _ _ _ st Hi Hp Hin Hst) as Hi'.
  pose proof (on_proc _ _ _ _ _ i _ (f p) Hi' (proc_put _ _ _ _ Hp) Es El) as Hi2. by rewrite put_proc_put in Hi2.
Qed.

(** File system and memory code touches neither states nor locks. *)
Lemma t_run_as {A} me cur H n i (m : M kfs A) : tri (on me cur H n) (run_as h i m) (λ _, on me cur H n).
Proof.
  eapply triple_bind; [apply triple_get_keep|]. intros s0.
  eapply triple_bind; [apply t_get_proc_keep|]. intros p.
  eapply triple_bind; [apply triple_lift_keep|]. intros [a f].
  eapply triple_bind; [by apply t_frame|]. intros ?. eapply triple_bind; [by apply t_modify_same|].
  intros ?. by apply triple_ret.
Qed.

Lemma t_myproc me cur H n : tri (on me cur H n) (myproc h) (λ r s, r = me ∧ on me cur H n s).
Proof.
  eapply triple_bind; [apply t_push|]. intros ?. eapply triple_bind.
  { apply t_mycpu. intros c s Hi Hc. exact (conj (proj1 (on_cpu_at _ _ _ _ _ _ Hi Hc)) Hi). }
  intros c. apply triple_pure. intros ->. eapply triple_bind; [apply t_pop|]. intros ?. apply triple_ret. intros s Hi.
  split; [done|]. by replace (n + 1 - 1) with n in Hi by lia.
Qed.

Lemma t_cur me cur H n : tri (on me cur H n) (Proc.cur h) (λ i s, me = Some i ∧ on me cur H n s).
Proof.
  eapply triple_bind; [apply t_myproc|]. intros r. apply triple_pure. intros ->. destruct me as [i|].
  - by apply triple_ret.
  - by apply triple_stop.
Qed.

(** A process and what its state says about the harts. *)
Lemma t_proc me cur H n i :
  tri (on me cur H n) (get_proc i) (λ p s, (p_state p ≠ RUNNING → off cur i) ∧ on me cur H n s).
Proof. apply t_get_proc. intros p s Hi Hp. split; [|done]. by eapply on_off. Qed.
End hart.
