(* ===== verification/ProcOps.v ===== *)
(** * The operations of kernel/proc.c keep the process table consistent *)

From S2P Require Import Prelude Spinlock Riscv Mem Buddy KString Vm FsState Bio Log Fs Pipe SysFile Proc ProcSpec ProcInv.

(** One step of a sequence, by the lemma about it. *)
Tactic Notation "step" uconstr(lem) := eapply triple_bind; [eapply lem|intros ?; cbv beta].

Section hart.
Context (C : nat → cv) (h : nat).
Implicit Types (s : kernel) (me cur : option nat) (H : gset nat) (n : Z).
#[local] Abbreviation on := (on C h).
#[local] Abbreviation off := (off C h).

(** ** The scheduler *)

Lemma t_pick i :
  triple (on None None ∅ 0) (scheduler_pick h i) (λ b : bool, if b then on (Some i) (Some i) {[i]} 1 else on None None ∅ 0).
Proof.
  unfold scheduler_pick. step t_acquire. apply triple_pure. intros Hi.
  eapply triple_bind; [apply t_get_proc; intros p s Hon Hp; exact (conj Hon Hp)|]. intros p. destruct (decide (p_state p = RUNNABLE)) as [Er|Er].
  - replace ({[i]} ∪ ∅) with ({[i]} : gset nat) by set_solver.
    eapply triple_bind with (R := λ _ s, ∃ s0, on None None {[i]} 1 s0 ∧ n_procs s0 !! i = Some p ∧ s = put_proc i (proc_with_state RUNNING p) s0).
    { apply t_modify_proc. intros q s [Hon Hp] Hq. assert (q = p) as -> by congruence. by exists s. }
    intros ?. eapply triple_bind; [apply t_mycpu; intros c s HR Hc; exact (conj HR Hc)|]. intros c.
    eapply triple_bind with (R := λ _, on (Some i) (Some i) {[i]} 1).
    + apply triple_modify. intros s [(s0 & Hon & Hp & ->) Hc]. destruct (on_cpu_at _ _ _ _ _ _ _ _ Hon Hc) as (Ep & En & Es).
      apply (on_run C h {[i]} 1 s0 i p _ c); [done|done|done|set_solver|done|done|done|done].
    + intros ?. by apply triple_ret.
  - apply triple_pre with (P' := on None None ({[i]} ∪ ∅) (0 + 1)); [|by intros s []].
    step t_release_last; [done|done|]. by apply triple_ret.
Qed.

Lemma t_return i : triple (on (Some i) None {[i]} 1) (scheduler_return h i) (λ _, on None None ∅ 0).
Proof.
  unfold scheduler_return. eapply triple_bind; [apply t_mycpu; intros c s Hon Hc; exact (conj Hon Hc)|]. intros c.
  eapply triple_bind with (R := λ _, on None None {[i]} 1).
  { apply triple_modify. intros s [Hon Hc]. destruct (on_cpu_at _ _ _ _ _ _ _ _ Hon Hc) as (Ep & En & Es).
    by apply (on_return C h (Some i)). }
  intros ?. eapply triple_conseq; [by apply (t_release C h None None {[i]} 1)|done|]. intros _ s [_ Hs].
  by replace ({[i]} ∖ {[i]}) with (∅ : gset nat) in Hs by set_solver.
Qed.

Lemma t_sched_out me cur H n :
  triple (on me cur H n) (sched_out h) (λ _ s, n = 1 ∧ on me cur H n s).
Proof.
  unfold sched_out. step t_cur. apply triple_pure. intros ->. step t_get_proc_keep.
  destruct (negb _); [by apply triple_stop|].
  eapply triple_bind with (R := λ c s, c_noff c = n ∧ on (Some a) cur H n s).
  { apply t_mycpu. intros c s Hon Hc. by destruct (on_cpu_at _ _ _ _ _ _ _ _ Hon Hc) as (_ & En & _). }
  intros c. apply triple_pure. intros En. destruct (Z.eqb_spec (c_noff c) 1) as [E1|]; [|by apply triple_stop].
  cbn [negb]. destruct (decide _); [by apply triple_stop|]. eapply triple_bind with (R := λ _, on (Some a) cur H n).
  { unfold intr_get. eapply triple_bind; [apply t_mycpu; intros c' s HP Hc'; exact HP|]. intros ?. by apply triple_ret. }
  intros []; [by apply triple_stop|]. apply triple_ret. intros s Hon. split; [lia|done].
Qed.

Lemma t_sched_in me cur H n e : triple (on me cur H n) (sched_in h e) (λ _, on me cur H n).
Proof.
  unfold sched_in. eapply triple_bind; [apply t_mycpu; intros c s Hon Hc; exact (conj Hon Hc)|]. intros c. apply triple_modify.
  intros s [Hon Hc]. destruct (on_cpu_at _ _ _ _ _ _ _ _ Hon Hc) as (Ep & En & Es). by apply (on_cpu C h me cur H n).
Qed.

(** A process that gives up the hart. *)
Lemma t_yield_out i : triple (on (Some i) (Some i) ∅ 0) (yield_out h) (λ _, on (Some i) None {[i]} 1).
Proof.
  unfold yield_out. step t_cur. apply triple_pure. intros E. injection E as <-. step t_acquire. apply triple_pure. intros _.
  replace ({[i]} ∪ ∅) with ({[i]} : gset nat) by set_solver.
  eapply triple_bind; [apply (t_stop C h (Some i) {[i]} _ i _ RUNNABLE); [set_solver|done|done]|]. intros ?.
  eapply triple_conseq; [apply t_sched_out|done|]. by intros e s [_ ?].
Qed.

(** [sleep] with a condition lock that nests as the code's locks do. *)
Lemma t_sleep_out i ch release_lk n :
  (∀ H m, triple (on (Some i) (Some i) H m) release_lk (λ _, on (Some i) (Some i) H (m - 1))) →
  triple (on (Some i) (Some i) ∅ n) (sleep_out h ch release_lk) (λ _, on (Some i) None {[i]} 1).
Proof.
  intros Hlk. unfold sleep_out. step t_cur. apply triple_pure. intros E. injection E as <-. step t_acquire. apply triple_pure. intros _.
  replace ({[i]} ∪ ∅) with ({[i]} : gset nat) by set_solver. step Hlk. step t_modify_same; [done|].
  eapply triple_bind; [apply (t_stop C h (Some i) {[i]} _ i _ SLEEPING); [set_solver|done|done]|]. intros ?.
  intros s e s' Hon E. destruct (t_sched_out _ _ _ _ s e s' Hon E) as [E1 Hon']. by rewrite E1 in Hon'.
Qed.

(** Back in a process: it releases its lock. *)
Lemma t_resume i : triple (on (Some i) (Some i) {[i]} 1) (release_p h i) (λ _, on (Some i) (Some i) ∅ 0).
Proof.
  eapply triple_conseq; [by apply t_release|done|]. intros _ s [_ Hs].
  by replace ({[i]} ∖ {[i]}) with (∅ : gset nat) in Hs by set_solver.
Qed.

Lemma t_yield_in i e : triple (on (Some i) (Some i) {[i]} 1) (yield_in h i e) (λ _, on (Some i) (Some i) ∅ 0).
Proof. unfold yield_in. step t_sched_in. apply t_resume. Qed.

Lemma t_sleep_in i e acquire_lk n :
  triple (on (Some i) (Some i) ∅ 0) acquire_lk (λ _, on (Some i) (Some i) ∅ n) →
  triple (on (Some i) (Some i) {[i]} 1) (sleep_in h i e acquire_lk) (λ _, on (Some i) (Some i) ∅ n).
Proof. intros Hlk. unfold sleep_in. step t_sched_in. step t_modify_same; [done|]. step t_resume. exact Hlk. Qed.

(** ** Wakeups and kills *)

(** A critical section of process [i] that changes its state at most from
    [SLEEPING] to [RUNNABLE]. *)
Lemma t_wakeup_loop k : ∀ me cur H n i ch, (∀ j, me = Some j → cur = Some j) →
  triple (on me cur H n) (wakeup_loop h k i ch) (λ _, on me cur H n).
Proof.
  induction k as [|k IH]; intros me cur H n i ch Hmc; cbn [wakeup_loop]; [by apply triple_ret|].
  step t_myproc. apply triple_pure. intros ->. eapply triple_bind with (R := λ _, on me cur H n); [|intros ?; by apply IH].
  destruct (decide (me = Some i)) as [_|Hne]; [by apply triple_ret|]. step t_acquire. apply triple_pure. intros Hi.
  step t_proc. apply triple_pure. intros Hoff. eapply triple_bind with (R := λ _, on me cur ({[i]} ∪ H) (n + 1)).
  - destruct (decide _) as [[Es _]|]; [|by apply triple_ret]. apply (t_modify_state C h me cur _ _ i _ RUNNABLE); [apply Hoff; by rewrite Es|done|done].
  - intros ?. by apply t_release_last; [auto|].
Qed.

Lemma t_wakeup me cur H n ch : (∀ j, me = Some j → cur = Some j) → triple (on me cur H n) (wakeup h ch) (λ _, on me cur H n).
Proof. apply t_wakeup_loop. Qed.

Lemma t_kkill_loop k : ∀ me cur H n i pid, (∀ j, me = Some j → cur = Some j) →
  triple (on me cur H n) (kkill_loop h k i pid) (λ _, on me cur H n).
Proof.
  induction k as [|k IH]; intros me cur H n i pid Hmc; cbn [kkill_loop]; [by apply triple_ret|].
  step t_acquire. apply triple_pure. intros Hi. step t_proc. apply triple_pure. intros Hoff. destruct (_ =? _).
  - step t_modify_same; [done|]. eapply triple_bind with (R := λ _, on me cur ({[i]} ∪ H) (n + 1)).
    + destruct (decide _) as [Es|]; [|by apply triple_ret]. apply (t_modify_state C h me cur _ _ i _ RUNNABLE); [apply Hoff; by rewrite Es|done|done].
    + intros ?. step t_release_last; [auto|done|]. by apply triple_ret.
  - step t_release_last; [auto|done|]. by apply IH.
Qed.

Lemma t_kkill me cur H n pid : (∀ j, me = Some j → cur = Some j) → triple (on me cur H n) (kkill h pid) (λ _, on me cur H n).
Proof. apply t_kkill_loop. Qed.

Lemma t_setkilled me cur H n i : (me = Some i → cur = Some i) → triple (on me cur H n) (setkilled h i) (λ _, on me cur H n).
Proof.
  intros Hmc. unfold setkilled. step t_acquire. apply triple_pure. intros Hi. step t_modify_same; [done|]. by apply t_release_last.
Qed.

Lemma t_killed me cur H n i : (me = Some i → cur = Some i) → triple (on me cur H n) (killed h i) (λ _, on me cur H n).
Proof.
  intros Hmc. unfold killed. step t_acquire. apply triple_pure. intros Hi. step t_get_proc_keep.
  step t_release_last; [done|done|]. by apply triple_ret.
Qed.

(** ** Creating processes *)

Lemma t_allocpid me cur H n : triple (on me cur H n) (allocpid h) (λ _, on me cur H n).
Proof.
  unfold allocpid. step t_acquire_pid. step triple_gets_keep. step t_frame; [done|]. step t_release_pid. apply triple_ret.
  intros s Hs. by replace (n + 1 - 1) with n in Hs by lia.
Qed.

Lemma t_freeproc me cur H n i : off cur i → triple (on me cur H n) (freeproc h i) (λ _, on me cur H n).
Proof.
  intros Hoff. unfold freeproc. step t_get_proc_keep. eapply triple_bind with (R := λ _, on me cur H n).
  { destruct (negb _); [apply t_run_as|by apply triple_ret]. }
  intros ?. step t_modify_same; [done|]. eapply triple_bind with (R := λ _, on me cur H n).
  { destruct (negb _); [apply t_run_as|by apply triple_ret]. }
  intros ?. by apply (t_modify_state C h me cur H n i _ UNUSED).
Qed.

(** A process slot that the hart has locked and nobody runs. *)
Definition taken me cur H n (r : option nat) s : Prop :=
  match r with
  | Some j => ((j ∉ H) ∧ off cur j) ∧ on me cur ({[j]} ∪ H) (n + 1) s
  | None => on me cur H n s
  end.

Lemma t_find_unused k : ∀ me cur H n i, (∀ j, me = Some j → cur = Some j) →
  triple (on me cur H n) (find_unused h k i) (taken me cur H n).
Proof.
  induction k as [|k IH]; intros me cur H n i Hmc; cbn [find_unused]; [by apply triple_ret|].
  step t_acquire. apply triple_pure. intros Hi. step t_proc. apply triple_pure. intros Hoff. destruct (decide _) as [Es|].
  - apply triple_ret. intros s Hs. split; [|done]. split; [done|]. apply Hoff. by rewrite Es.
  - step t_release_last; [auto|done|]. by apply IH.
Qed.

(** Giving the slot back. *)
Lemma t_give_up {A} me cur H n i (r : A) : (∀ j, me = Some j → cur = Some j) → i ∉ H → off cur i →
  triple (on me cur ({[i]} ∪ H) (n + 1)) (freeproc h i;; release_p h i;; mret r) (λ _, on me cur H n).
Proof. intros Hmc Hi Hoff. step t_freeproc; [done|]. step t_release_last; [auto|done|]. by apply triple_ret. Qed.

Lemma t_allocproc me cur H n fr : (∀ j, me = Some j → cur = Some j) →
  triple (on me cur H n) (allocproc h fr) (taken me cur H n).
Proof.
  intros Hmc. unfold allocproc. step t_find_unused; [done|]. destruct a as [i|]; [|by apply triple_ret]. cbn [taken].
  apply triple_pure. intros [Hi Hoff]. step t_allocpid. step (t_modify_state C h me cur _ _ i _ USED); [done|done|done|].
  step t_run_as. step t_modify_same; [done|].
  assert (Hgive : triple (on me cur ({[i]} ∪ H) (n + 1)) (freeproc h i;; release_p h i;; mret None) (taken me cur H n)).
  { step t_freeproc; [done|]. step t_release_last; [auto|done|]. by apply triple_ret. }
  destruct (_ =? 0); [exact Hgive|].
  step t_run_as. step t_modify_same; [done|]. destruct (_ =? 0); [exact Hgive|].
  step t_modify_same; [done|]. by apply triple_ret.
Qed.

Lemma t_dup_files l : ∀ me cur H n i np fd, triple (on me cur H n) (dup_files h i np l fd) (λ _, on me cur H n).
Proof.
  induction l as [|[f|] l IH]; intros me cur H n i np fd; cbn [dup_files]; [by apply triple_ret|..].
  - eapply triple_bind with (R := λ _, on me cur H n); [|intros ?; apply IH]. step t_run_as. by apply t_modify_same.
  - eapply triple_bind with (R := λ _, on me cur H n); [by apply triple_ret|intros ?; apply IH].
Qed.

Lemma t_kfork i fr : triple (on (Some i) (Some i) ∅ 0) (kfork h fr) (λ _, on (Some i) (Some i) ∅ 0).
Proof.
  unfold kfork. step t_cur. apply triple_pure. intros E. injection E as <-. step t_allocproc; [done|].
  destruct a as [np|]; [|by apply triple_ret]. cbn [taken]. apply triple_pure. intros [Hnp Hoff].
  step t_get_proc_keep. step t_get_proc_keep. step t_run_as. destruct (_ <? 0); [by apply t_give_up|].
  step t_modify_same; [done|]. step t_run_as. step t_run_as. step t_dup_files.
  eapply triple_bind with (R := λ _, on (Some i) (Some i) ({[np]} ∪ ∅) (0 + 1)).
  { destruct (p_cwd _); [apply t_run_as|by apply triple_stop]. }
  intros ?. step t_modify_same; [done|]. step t_modify_same; [done|]. step t_get_proc_keep.
  step t_release_last; [done|done|]. step t_acquire_wait. step t_modify_same; [done|]. step t_release_wait.
  step t_acquire. apply triple_pure. intros _. step (t_modify_state C h _ _ _ _ np _ RUNNABLE); [done|done|done|].
  step t_release_last; [done|done|]. by apply triple_ret.
Qed.

(** ** Exit and wait *)

Lemma t_close_files l : ∀ me cur H n i fd, triple (on me cur H n) (close_files h i l fd) (λ _, on me cur H n).
Proof.
  induction l as [|[f|] l IH]; intros me cur H n i fd; cbn [close_files]; [by apply triple_ret|..].
  - eapply triple_bind with (R := λ _, on me cur H n); [|intros ?; apply IH]. step t_run_as. by apply t_modify_same.
  - eapply triple_bind with (R := λ _, on me cur H n); [by apply triple_ret|intros ?; apply IH].
Qed.

Lemma t_reparent_loop k : ∀ me cur H n pp i, (∀ j, me = Some j → cur = Some j) →
  triple (on me cur H n) (reparent_loop h k pp i) (λ _, on me cur H n).
Proof.
  induction k as [|k IH]; intros me cur H n pp i Hmc; cbn [reparent_loop]; [by apply triple_ret|].
  step t_get_proc_keep. eapply triple_bind with (R := λ _, on me cur H n); [|intros ?; by apply IH].
  destruct (decide _); [|by apply triple_ret]. step triple_get_keep. step t_modify_same; [done|]. by apply t_wakeup.
Qed.

Lemma t_kexit i status : triple (on (Some i) (Some i) ∅ 0) (kexit h status) (λ _, on (Some i) None {[i]} 1).
Proof.
  unfold kexit. step t_cur. apply triple_pure. intros E. injection E as <-. step triple_get_keep.
  destruct (decide _); [by apply triple_stop|]. step t_get_proc_keep. step t_close_files. step t_run_as.
  eapply triple_bind with (R := λ _, on (Some i) (Some i) ∅ 0).
  { destruct (p_cwd _); [apply t_run_as|by apply triple_stop]. }
  intros ?. step t_run_as. step t_modify_same; [done|]. step t_acquire_wait. unfold reparent. step t_reparent_loop; [done|]. step t_get_proc_keep.
  step t_wakeup; [done|]. step t_acquire. apply triple_pure. intros _. replace ({[i]} ∪ ∅) with ({[i]} : gset nat) by set_solver.
  step (t_stop C h (Some i) {[i]} _ i _ ZOMBIE); [set_solver|done|done|]. step t_release_wait.
  eapply triple_bind; [apply t_sched_out|]. intros ?. apply triple_pure. intros En. apply triple_ret. intros s. by rewrite En.
Qed.

(** The scan of [kwait]; it has released [wait_lock] if it has a result. *)
Lemma t_kwait_loop k : ∀ n pp i addr hk,
  triple (on (Some i) (Some i) ∅ n) (kwait_loop h k pp i addr hk)
    (λ r, match r with inl _ => on (Some i) (Some i) ∅ (n - 1) | inr _ => on (Some i) (Some i) ∅ n end).
Proof.
  induction k as [|k IH]; intros n pp i addr hk; cbn [kwait_loop]; [by apply triple_ret|].
  step t_get_proc_keep. destruct (decide _); [|apply IH]. step t_acquire. apply triple_pure. intros Hpp.
  step t_proc. apply triple_pure. intros Hoff. destruct (decide _) as [Es|].
  - eapply triple_bind with (R := λ _, on (Some i) (Some i) ({[pp]} ∪ ∅) (n + 1)).
    { destruct (negb _); [apply t_run_as|by apply triple_ret]. }
    intros ?. destruct (_ <? 0).
    + step t_release_last; [done|done|]. step t_release_wait. by apply triple_ret.
    + step t_freeproc; [apply Hoff; by rewrite Es|]. step t_release_last; [done|done|]. step t_release_wait. by apply triple_ret.
  - step t_release_last; [done|done|]. apply IH.
Qed.

Lemma t_kwait_round i addr :
  triple (on (Some i) (Some i) ∅ 1) (kwait_round h i addr)
    (λ r, match r with Done _ => on (Some i) (Some i) ∅ 0 | Asleep _ => on (Some i) (Some i) ∅ 1 end).
Proof.
  unfold kwait_round. step t_kwait_loop. destruct a as [r|hk]; [by apply triple_ret|].
  eapply triple_bind with (R := λ _, on (Some i) (Some i) ∅ 1).
  { destruct (negb hk); [by apply triple_ret|by apply t_killed]. }
  intros ?. destruct (negb _); [|by apply triple_ret]. step t_release_wait. by apply triple_ret.
Qed.

Lemma t_kwait i addr :
  triple (on (Some i) (Some i) ∅ 0) (kwait h addr)
    (λ r, match r with Done _ => on (Some i) (Some i) ∅ 0 | Asleep _ => on (Some i) (Some i) ∅ 1 end).
Proof. unfold kwait. step t_cur. apply triple_pure. intros E. injection E as <-. step t_acquire_wait. apply t_kwait_round. Qed.

Lemma t_pause_round i ticks0 k :
  triple (on (Some i) (Some i) ∅ 1) (pause_round h i ticks0 k)
    (λ r, match r with Done _ => on (Some i) (Some i) ∅ 0 | Asleep _ => on (Some i) (Some i) ∅ 1 end).
Proof.
  unfold pause_round. step triple_get_keep. destruct (_ <? k).
  - step t_killed; [done|]. destruct (negb _); [|by apply triple_ret]. step t_release_ticks. by apply triple_ret.
  - step t_release_ticks. by apply triple_ret.
Qed.
End hart.
