(* ===== verification/ProcSteps.v ===== *)
(** * Several harts: the scheduler as a step relation

    A hart is in the scheduler loop ([Idle]), on its way into a process
    ([Entering]: it has switched and still holds the process lock), in a
    process, or on its way back ([Leaving]).  A step is one hart executing
    code of kernel/proc.c up to the next switch or to the end of the call;
    the steps of different harts interleave.  [kfork], [kexit], [kwait],
    [wakeup] and [kkill] are single steps (up to their switch), although they
    release and take process locks on the way: what other harts could do
    between two of their locked sections is not part of this model.  [thread i] says where the
    kernel thread of process [i] continues when it is resumed. *)

From S2P Require Import Prelude Spinlock Riscv Mem Buddy KString Vm FsState Bio Log Fs Pipe SysFile Proc ProcSpec ProcInv ProcOps.

Inductive ctl := Idle | Entering (i : nat) | Running (i : nat) | Leaving (i : nat).

Inductive thread :=
  | TFresh
  | TYield (intena : bool)
  | TWait (addr : Z) (intena : bool)
  | TPause (ticks0 n : Z) (intena : bool).

Inductive next := Stay | Leave (t : thread).

(** What a process does in the kernel. *)
Inductive op :=
  | OYield
  | OWakeup (ch : option chan)
  | OKill (pid : Z)
  | OSetkilled (j : nat)
  | OFork (forkret : Z)
  | OExit (status : Z)
  | OWait (addr : Z)
  | OPause (n : Z)
  | OFile (call : M kfs Z).

Section hart.
Context (h : nat).

Definition wait_tail (i : nat) (addr : Z) (r : outcome) : M kernel next :=
  match r with
  | Done _ => mret Stay
  | Asleep _ =>
    e ← sleep_out h (Some (CProc i)) (release_wait h);
    mret (Leave (TWait addr e))
  end.

Definition pause_tail (i : nat) (ticks0 n : Z) (r : outcome) : M kernel next :=
  match r with
  | Done _ => mret Stay
  | Asleep _ =>
    e ← sleep_out h (Some CTicks) (release_ticks h);
    mret (Leave (TPause ticks0 n e))
  end.

Definition perform (i : nat) (o : op) : M kernel next :=
  match o with
  | OYield => e ← yield_out h; mret (Leave (TYield e))
  | OWakeup ch => wakeup h ch;; mret Stay
  | OKill pid => kkill h pid;; mret Stay
  | OSetkilled j => setkilled h j;; mret Stay
  | OFork forkret => kfork h forkret;; mret Stay
  | OExit status => kexit h status;; mret (Leave TFresh)
  | OWait addr => r ← kwait h addr; wait_tail i addr r
  | OPause n =>
    acquire_ticks h;;
    ticks0 ← gets n_ticks;
    r ← pause_round h i ticks0 n;
    pause_tail i ticks0 n r
  | OFile call => run_as h i call;; mret Stay
  end.

(** The process is resumed. *)
Definition resume (i : nat) (t : thread) : M kernel next :=
  match t with
  | TFresh => forkret_in h i;; mret Stay
  | TYield e => yield_in h i e;; mret Stay
  | TWait addr e =>
    sleep_in h i e (acquire_wait h);;
    r ← kwait_round h i addr;
    wait_tail i addr r
  | TPause ticks0 n e =>
    sleep_in h i e (acquire_ticks h);;
    r ← pause_round h i ticks0 n;
    pause_tail i ticks0 n r
  end.
End hart.

Record system := mk_system {
  y_ctl : nat → ctl;
  y_thread : nat → thread;
  y_kernel : kernel;
}.

Definition set_at {A} (f : nat → A) (k : nat) (a : A) : nat → A := λ j, if decide (j = k) then a else f j.

(** Hart [h], running process [i], has executed code with result [n]. *)
Definition after (h i : nat) (n : next) (s : kernel) (y : system) : system :=
  match n with
  | Stay => mk_system (set_at (y_ctl y) h (Running i)) (y_thread y) s
  | Leave t => mk_system (set_at (y_ctl y) h (Leaving i)) (set_at (y_thread y) i t) s
  end.

Inductive step (y : system) : system → Prop :=
  | step_init h forkret s :
    y_ctl y h = Idle → userinit h forkret (y_kernel y) = Ret (tt, s) →
    step y (mk_system (y_ctl y) (y_thread y) s)
  | step_pick h i b s :
    y_ctl y h = Idle → scheduler_pick h i (y_kernel y) = Ret (b, s) →
    step y (mk_system (if b : bool then set_at (y_ctl y) h (Entering i) else y_ctl y) (y_thread y) s)
  | step_intr h (b : bool) s :
    y_ctl y h = Idle → (if b then intr_on h else intr_off h) (y_kernel y) = Ret (tt, s) →
    step y (mk_system (y_ctl y) (y_thread y) s)
  | step_resume h i n s :
    y_ctl y h = Entering i → resume h i (y_thread y i) (y_kernel y) = Ret (n, s) → step y (after h i n s y)
  | step_perform h i o n s :
    y_ctl y h = Running i → perform h i o (y_kernel y) = Ret (n, s) → step y (after h i n s y)
  | step_return h i s :
    y_ctl y h = Leaving i → scheduler_return h i (y_kernel y) = Ret (tt, s) →
    step y (mk_system (set_at (y_ctl y) h Idle) (y_thread y) s).

(** ** The invariant *)

Definition cv_of (k : ctl) : cv :=
  match k with
  | Idle => mk_cv None None ∅ 0
  | Entering i => mk_cv (Some i) (Some i) {[i]} 1
  | Running i => mk_cv (Some i) (Some i) ∅ 0
  | Leaving i => mk_cv (Some i) None {[i]} 1
  end.

Definition views (f : nat → ctl) : nat → cv := λ h, cv_of (f h).

(** The invariant holds for functions that agree pointwise. *)
#[export] Instance inv_proper : Proper (pointwise_relation nat (=) ==> eq ==> iff) inv.
Proof.
  assert (Himp : ∀ C C' s, pointwise_relation nat (=) C C' → inv C s → inv C' s).
  { intros C C' s E [I1 I2 I3 I4 I5 I6 I7]. split.
    - intros j p Hp. rewrite (I1 j p Hp). by setoid_rewrite E.
    - intros j p h. rewrite <-E. apply I2.
    - intros j p Hp. setoid_rewrite <-E. by apply I3.
    - intros h c. rewrite <-E. apply I4.
    - intros h h' j. rewrite <-!E. apply I5.
    - intros h j. rewrite <-E. apply I6.
    - intros h j. rewrite <-E. apply I7. }
  intros C C' E s s' <-. split; apply Himp; [done|]. intros k. by symmetry.
Qed.

Lemma views_set f h k : pointwise_relation nat (=) (set_cv (views f) h (cv_of k)) (views (set_at f h k)).
Proof. intros j. unfold set_cv, views, set_at. by destruct (decide (j = h)). Qed.

Lemma views_same f h k : f h = k → pointwise_relation nat (=) (set_cv (views f) h (cv_of k)) (views f).
Proof. intros E j. unfold set_cv, views. destruct (decide (j = h)) as [->|]; [by rewrite E|done]. Qed.

(** The invariant, seen from hart [h]. *)
Definition at_ctl f h (k : ctl) (s : kernel) : Prop := inv (set_cv (views f) h (cv_of k)) s.

Lemma at_ctl_open f h k s : f h = k → inv (views f) s → at_ctl f h k s.
Proof. intros E Hi. unfold at_ctl. by rewrite views_same. Qed.
Lemma at_ctl_close f h k s : at_ctl f h k s → inv (views (set_at f h k)) s.
Proof. unfold at_ctl. by rewrite views_set. Qed.
Lemma at_ctl_same f h k s : f h = k → at_ctl f h k s → inv (views f) s.
Proof. intros E. unfold at_ctl. by rewrite views_same. Qed.

(** The place a process is in after its code has run. *)
Definition place (i : nat) (n : next) : ctl := match n with Stay => Running i | Leave _ => Leaving i end.

Section steps.
Context (f : nat → ctl) (h i : nat).

Lemma t_wait_tail addr r :
  triple (match r with Done _ => on (views f) h (Some i) (Some i) ∅ 0 | Asleep _ => on (views f) h (Some i) (Some i) ∅ 1 end)
    (wait_tail h i addr r) (λ n, at_ctl f h (place i n)).
Proof.
  destruct r; cbn [wait_tail]; [by apply triple_ret|].
  step t_sleep_out; [intros; apply t_release_wait|]. by apply triple_ret.
Qed.

Lemma t_pause_tail ticks0 k r :
  triple (match r with Done _ => on (views f) h (Some i) (Some i) ∅ 0 | Asleep _ => on (views f) h (Some i) (Some i) ∅ 1 end)
    (pause_tail h i ticks0 k r) (λ n, at_ctl f h (place i n)).
Proof.
  destruct r; cbn [pause_tail]; [by apply triple_ret|].
  step t_sleep_out; [intros; apply t_release_ticks|]. by apply triple_ret.
Qed.

Lemma t_perform o : triple (at_ctl f h (Running i)) (perform h i o) (λ n, at_ctl f h (place i n)).
Proof.
  unfold at_ctl. cbn [cv_of]. destruct o; cbn [perform].
  - step t_yield_out. by apply triple_ret.
  - step t_wakeup; [done|]. by apply triple_ret.
  - step t_kkill; [done|]. by apply triple_ret.
  - step t_setkilled; [done|]. by apply triple_ret.
  - step t_kfork. by apply triple_ret.
  - step t_kexit. by apply triple_ret.
  - step t_kwait. apply t_wait_tail.
  - step t_acquire_ticks. step triple_gets_keep. step t_pause_round. apply t_pause_tail.
  - step t_run_as. by apply triple_ret.
Qed.

Lemma t_resume_thread t : triple (at_ctl f h (Entering i)) (resume h i t) (λ n, at_ctl f h (place i n)).
Proof.
  unfold at_ctl. cbn [cv_of]. destruct t; cbn [resume].
  - step t_resume. by apply triple_ret.
  - step t_yield_in. by apply triple_ret.
  - step t_sleep_in; [apply (t_acquire_wait _ _ _ _ _ 0)|]. step t_kwait_round. apply t_wait_tail.
  - step t_sleep_in; [apply (t_acquire_ticks _ _ _ _ _ 0)|]. step t_pause_round. apply t_pause_tail.
Qed.

Lemma t_userinit fr : triple (at_ctl f h Idle) (userinit h fr) (λ _, at_ctl f h Idle).
Proof.
  unfold at_ctl. cbn [cv_of]. unfold userinit. step t_allocproc; [done|]. destruct a as [j|]; cbn [taken].
  2: { step t_frame; [done|]. by apply triple_stop. }
  apply triple_pure. intros [Hj Hoff]. step t_frame; [done|]. step t_run_as. step t_modify_same; [done|].
  step (t_modify_state _ _ _ _ _ _ j _ RUNNABLE); [done|done|done|]. by apply t_release_last.
Qed.

Lemma t_intr (b : bool) : triple (at_ctl f h Idle) (if b then intr_on h else intr_off h) (λ _, at_ctl f h Idle).
Proof.
  assert (Hset : ∀ e, triple (at_ctl f h Idle) (c ← mycpu h; set_cpu h (mk_cpu (c_proc c) (c_noff c) (c_intena c) e)) (λ _, at_ctl f h Idle)).
  { intros e. eapply triple_bind; [apply t_mycpu; intros c s Hon Hc; exact (conj Hon Hc)|]. intros c. apply triple_modify. intros s [Hon Hc].
    destruct (on_cpu_at _ _ _ _ _ _ _ _ Hon Hc) as (Ep & En & Es). by apply (on_cpu (views f) h None None ∅ 0). }
  destruct b; apply Hset.
Qed.
End steps.

Lemma after_inv h i n s y : at_ctl (y_ctl y) h (place i n) s → inv (views (y_ctl (after h i n s y))) (y_kernel (after h i n s y)).
Proof. intros Hs. apply at_ctl_close in Hs. by destruct n. Qed.

Lemma sched_step_inv y y' : inv (views (y_ctl y)) (y_kernel y) → step y y' → inv (views (y_ctl y')) (y_kernel y').
Proof.
  intros Hi Hstep. destruct Hstep as [h fr s Hc E|h i b s Hc E|h b s Hc E|h i n s Hc E|h i o n s Hc E|h i s Hc E];
    apply (at_ctl_open _ _ _ _ Hc) in Hi.
  - apply (at_ctl_same _ h Idle); [done|]. exact (t_userinit _ _ _ _ _ _ Hi E).
  - pose proof (t_pick _ _ _ _ _ _ Hi E) as Hs. destruct b; [by apply (at_ctl_close _ _ (Entering i))|by apply (at_ctl_same _ h Idle)].
  - apply (at_ctl_same _ h Idle); [done|]. exact (t_intr _ _ _ _ _ _ Hi E).
  - apply after_inv. exact (t_resume_thread _ _ _ _ _ _ _ Hi E).
  - apply after_inv. exact (t_perform _ _ _ _ _ _ _ Hi E).
  - apply at_ctl_close. exact (t_return _ _ _ _ _ _ Hi E).
Qed.

(** The state in which the harts enter [scheduler]: no process runs, no
    process lock is held, interrupts are not nested. *)
Record initial (y : system) : Prop := {
  in_ctl : ∀ h, y_ctl y h = Idle;
  in_procs : ∀ i p, n_procs (y_kernel y) !! i = Some p → p_state p ≠ RUNNING ∧ unlocked (p_lock p);
  in_cpus : ∀ h c, n_cpus (y_kernel y) !! h = Some c → c_proc c = None ∧ c_noff c = 0;
}.

Lemma initial_inv y : initial y → inv (views (y_ctl y)) (y_kernel y).
Proof.
  intros [E H1 H2]. unfold views. split.
  - intros j p Hp. destruct (H1 j p Hp). split; [done|]. intros [h Hh]. by rewrite E in Hh.
  - intros j p h _ Hin. rewrite E in Hin. set_solver.
  - intros j p Hp. left. by destruct (H1 j p Hp).
  - intros h c Hc. rewrite E. destruct (H2 h c Hc). by split.
  - intros h h' j Hj. by rewrite E in Hj.
  - intros h j Hj. by rewrite E in Hj.
  - intros h j Hj. by rewrite E in Hj.
Qed.

Lemma sched_reachable_inv y y' : initial y → rtc step y y' → inv (views (y_ctl y')) (y_kernel y').
Proof. intros Hi Hr. apply initial_inv in Hi. induction Hr as [|y y1 y' Hs _ IH]; [done|]. by apply IH, (sched_step_inv y). Qed.

(** ** Switching never panics *)

Section progress.
Context (f : nat → ctl) (s : kernel) (h i : nat) (p : proc) (c : cpu).
Context (Hinv : inv (views f) s) (Hp : n_procs s !! i = Some p) (Hc : n_cpus s !! h = Some c).

Lemma inv_cpu_ok : cpu_ok c.
Proof.
  destruct (iv_cpu _ _ Hinv h c Hc) as (_ & En & Es). unfold cpu_ok. rewrite En.
  split; [unfold views; destruct (f h); cbn; lia|done].
Qed.

Lemma running_unlocked : f h = Running i → unlocked (p_lock p).
Proof.
  intros E. destruct (iv_free _ _ Hinv i p Hp) as [?|[k Hk]]; [done|].
  assert (Hme : cv_me (views f k) = Some i).
  { unfold views in *. destruct (f k); cbn in *; set_solver. }
  assert (k = h) as ->. { apply (iv_uniq _ _ Hinv k h i Hme). unfold views. by rewrite E. }
  unfold views in Hk. rewrite E in Hk. cbn in Hk. set_solver.
Qed.

Lemma holder_lock : i ∈ cv_held (views f h) → ∃ l, unlocked l ∧ p_lock p = held_by h l.
Proof.
  intros Hin. destruct (iv_held _ _ Hinv i p h Hp Hin) as [E1 E2]. exists (mk_spinlock (lk_name (p_lock p)) 0 None).
  split; [done|]. unfold held_by. cbn. rewrite <-E1, <-E2. by destruct (p_lock p).
Qed.

(** A process that is resumed after a [yield], and the scheduler after a
    process has switched back. *)
Lemma yield_in_runs e :
  f h = Entering i →
  runs (yield_in h i e) s (λ _ s', ∃ p' c', n_procs s' !! i = Some p' ∧ p_state p' = p_state p ∧ unlocked (p_lock p') ∧
    n_cpus s' !! h = Some c' ∧ c_noff c' = 0 ∧ c_sie c' = e).
Proof.
  intros E. destruct holder_lock as (l & Hl & El); [unfold views; rewrite E; set_solver|].
  destruct (iv_cpu _ _ Hinv h c Hc) as (Ep & En & Es). unfold views in *. rewrite E in *. cbn in En, Es.
  unfold yield_in, sched_in. apply runs_bind, runs_bind, (runs_mycpu h s c); [done|]. apply runs_modify.
  eapply (runs_release_p h _ _ i p l); [by eapply (cpu_put h s)|done|done|done|cbn; by apply Es|cbn; lia|].
  eexists _, _. ands; [by eapply (proc_put _ i)|done|done|by eapply cpu_put, (cpu_put h s)|cbn; lia|cbn; by rewrite En].
Qed.

Lemma scheduler_return_runs :
  f h = Leaving i →
  runs (scheduler_return h i) s (λ _ s', ∃ p' c', n_procs s' !! i = Some p' ∧ p_state p' = p_state p ∧ unlocked (p_lock p') ∧
    n_cpus s' !! h = Some c' ∧ c_noff c' = 0 ∧ c_proc c' = None).
Proof.
  intros E. destruct holder_lock as (l & Hl & El); [unfold views; rewrite E; set_solver|].
  destruct (iv_cpu _ _ Hinv h c Hc) as (Ep & En & Es). unfold views in *. rewrite E in *. cbn in En, Es.
  unfold scheduler_return. apply runs_bind, (runs_mycpu h s c); [done|]. apply runs_bind, runs_modify.
  eapply (runs_release_p h _ _ i p l); [by eapply (cpu_put h s)|done|done|done|cbn; by apply Es|cbn; lia|].
  eexists _, _. ands; [by eapply (proc_put _ i)|done|done|by eapply cpu_put, (cpu_put h s)|cbn; lia|done].
Qed.

(** [yield] up to the switch. *)
Lemma yield_out_runs :
  f h = Running i →
  runs (yield_out h) s (λ e s', e = c_sie c ∧ ∃ p', n_procs s' !! i = Some p' ∧ p_state p' = RUNNABLE).
Proof.
  intros E. pose proof inv_cpu_ok as Hok. pose proof (running_unlocked E) as Hl.
  destruct (iv_cpu _ _ Hinv h c Hc) as (Ep & En & _). unfold views in Ep, En. rewrite E in Ep, En. cbn in Ep, En.
  unfold yield_out, Proc.cur. apply runs_bind, runs_bind, (runs_myproc h s c); [done|done|]. rewrite Ep. apply runs_ret.
  set (s0 := put_cpu h (settle c) s). assert (Hc0 : n_cpus s0 !! h = Some (settle c)) by (by eapply cpu_put).
  apply runs_bind, (runs_acquire_p h s0 (settle c) i p); [done|done|done|]. fold (in_section h s0 (settle c) i p).
  apply runs_bind. eapply runs_section_modify; [done|done|done|]. set (s1 := in_section _ _ _ _ _).
  assert (Hc1 : n_cpus s1 !! h = Some (pushed (settle c))) by (by eapply (cpu_put h s0)).
  assert (Hok1 : cpu_ok (pushed (settle c))) by (apply pushed_ok; by apply (settle_ok c); [rewrite settle_settle|]).
  unfold sched_out, Proc.cur. apply runs_bind, runs_bind, (runs_myproc h s1 (pushed (settle c))); [done|done|].
  cbn [c_proc pushed settle]. rewrite Ep. apply runs_ret.
  assert (Hp1 : n_procs s1 !! i = Some (proc_with_lock (held_by h (p_lock p)) (proc_with_state RUNNABLE p))) by (by eapply proc_put).
  set (s2 := put_cpu h _ s1). apply runs_bind. eapply runs_get_proc; [exact Hp1|].
  assert (Hhold : holding h (held_by h (p_lock p)) = true) by (unfold holding; cbn; by rewrite bool_decide_true).
  cbn [p_lock proc_with_lock proc_with_state p_state]. rewrite Hhold. cbn [negb].
  assert (Hc2 : n_cpus s2 !! h = Some (settle (pushed (settle c)))) by (by eapply (cpu_put h s1)).
  apply runs_bind, (runs_mycpu h _ _ _ Hc2). cbn [c_noff settle pushed]. rewrite En. cbn [Z.add Z.eqb negb Pos.eqb].
  rewrite decide_False by done. unfold intr_get. apply runs_bind, runs_bind, (runs_mycpu h _ _ _ Hc2). apply runs_ret.
  cbn [c_sie settle pushed]. apply runs_ret. split; [|by exists (proc_with_lock (held_by h (p_lock p)) (proc_with_state RUNNABLE p))].
  cbn. by rewrite En.
Qed.
End progress.
