(* ===== verification/Printf.v ===== *)
(** * Formatted output (kernel/printf.c, user/printf.c)

    The formatting code of the kernel and of the user library, each as the
    sequence of characters it passes to [consputc] or [putc].  The table of
    digits is an argument of both: lower case in the kernel, upper case in
    the library.  An argument list that does not match the format, and a
    store behind the end of a local buffer, are a [Fault]. *)

From S2P Require Import Prelude.

(** ** Variable arguments *)

Inductive arg := AInt (z : Z) | AStr (s : option (list Z)).

Definition va_int (ap : list arg) : res (Z * list arg) :=
  match ap with
  | AInt z :: ap => Ret (z, ap)
  | _ => Fault
  end.

Definition va_str (ap : list arg) : res (option (list Z) * list arg) :=
  match ap with
  | AStr s :: ap => Ret (s, ap)
  | _ => Fault
  end.

Definition percent : Z := zchar "%".
Definition minus : Z := zchar "-".

(** ** The kernel (kernel/printf.c) *)

Definition digits : list Z := zstr "0123456789abcdef".

(** [buf[i++] = c] on a buffer of 20 characters. *)
Definition put20 (buf : list Z) (c : Z) : res (list Z) :=
  if (length buf <? 20)%nat then Ret (buf ++ [c]) else Fault.

Definition digit (digits : list Z) (d : Z) : res Z :=
  match digits !! Z.to_nat d with
  | Some c => Ret c
  | None => Fault
  end.

(** The loop of [printint]; 64 rounds, since [base] is at least 2. *)
Fixpoint printint_loop (fuel : nat) (digits : list Z) (x base : Z) (buf : list Z) : res (list Z) :=
  match fuel with
  | O => OutOfFuel
  | S fuel =>
    c ← digit digits (x mod base);
    buf ← put20 buf c;
    let x := x / base in
    if negb (x =? 0) then printint_loop fuel digits x base buf else Ret buf
  end.

(** [-xx] of the least number is a signed overflow in C; here it is the
    wrap-around of the machine. *)
Definition printint (digits : list Z) (xx base : Z) (sign : bool) : res (list Z) :=
  let sign := sign && (xx <? 0) in
  let x := if sign then u64 (- xx) else u64 xx in
  buf ← printint_loop 64 digits x base [];
  buf ← (if sign then put20 buf minus else Ret buf);
  Ret (rev buf).

Fixpoint printptr_loop (n : nat) (digits : list Z) (x : Z) : res (list Z) :=
  match n with
  | O => Ret []
  | S n =>
    c ← digit digits (Z.shiftr x (8 * 8 - 4));
    out ← printptr_loop n digits (u64 (Z.shiftl x 4));
    Ret (c :: out)
  end.

Definition printptr (digits : list Z) (x : Z) : res (list Z) :=
  out ← printptr_loop (8 * 2) digits x;
  Ret (zchar "0" :: zchar "x" :: out).

(** The text before the terminator. *)
Fixpoint upto_nul (s : list Z) : list Z :=
  match s with
  | [] => []
  | c :: s => if c =? 0 then [] else c :: upto_nul s
  end.

Definition null_text : list Z := zstr "(null)".

(** The format loop of [printf]; the format is the part from index [i] on. *)
Fixpoint printf_loop (fuel : nat) (digits : list Z) (fmt : list Z) (ap : list arg) : res (list Z) :=
  match fuel with
  | O => OutOfFuel
  | S fuel =>
    let cx := char_at fmt 0 in
    if cx =? 0 then Ret []
    else if negb (cx =? percent) then
      out ← printf_loop fuel digits (drop 1 fmt) ap;
      Ret (cx :: out)
    else
      let fmt := drop 1 fmt in
      let c0 := char_at fmt 0 in
      let c1 := if negb (c0 =? 0) then char_at fmt 1 else 0 in
      let c2 := if negb (c1 =? 0) then char_at fmt 2 else 0 in
      let number (v : Z → Z) (base : Z) (sign : bool) (skip : nat) :=
        '(z, ap) ← va_int ap;
        o ← printint digits (v z) base sign;
        out ← printf_loop fuel digits (drop (1 + skip) fmt) ap;
        Ret (o ++ out) in
      if c0 =? zchar "d" then number s32 10 true 0%nat
      else if (c0 =? zchar "l") && (c1 =? zchar "d") then number s64 10 true 1%nat
      else if (c0 =? zchar "l") && (c1 =? zchar "l") && (c2 =? zchar "d") then number s64 10 true 2%nat
      else if c0 =? zchar "u" then number u32 10 false 0%nat
      else if (c0 =? zchar "l") && (c1 =? zchar "u") then number s64 10 false 1%nat
      else if (c0 =? zchar "l") && (c1 =? zchar "l") && (c2 =? zchar "u") then number s64 10 false 2%nat
      else if c0 =? zchar "x" then number u32 16 false 0%nat
      else if (c0 =? zchar "l") && (c1 =? zchar "x") then number s64 16 false 1%nat
      else if (c0 =? zchar "l") && (c1 =? zchar "l") && (c2 =? zchar "x") then number s64 16 false 2%nat
      else if c0 =? zchar "p" then
        '(z, ap) ← va_int ap;
        o ← printptr digits (u64 z);
        out ← printf_loop fuel digits (drop 1 fmt) ap;
        Ret (o ++ out)
      else if c0 =? zchar "c" then
        '(z, ap) ← va_int ap;
        out ← printf_loop fuel digits (drop 1 fmt) ap;
        Ret (s32 z :: out)
      else if c0 =? zchar "s" then
        '(s, ap) ← va_str ap;
        let s := match s with None => null_text | Some s => s end in
        out ← printf_loop fuel digits (drop 1 fmt) ap;
        Ret (upto_nul s ++ out)
      else if c0 =? percent then
        out ← printf_loop fuel digits (drop 1 fmt) ap;
        Ret (percent :: out)
      else if c0 =? 0 then Ret []
      else
        out ← printf_loop fuel digits (drop 1 fmt) ap;
        Ret (percent :: c0 :: out)
  end.

(** The characters printed; every round consumes a character. *)
Definition printf_chars (digits : list Z) (fmt : list Z) (ap : list arg) : res (list Z) :=
  printf_loop (S (length fmt)) digits fmt ap.

(** ** The user library (user/printf.c) *)

Module User.
Definition digits : list Z := zstr "0123456789ABCDEF".

(** [putc] stores the character in a [char] and writes this byte. *)
Definition putc (c : Z) : Z := u8 c.

Definition printint (digits : list Z) (xx base : Z) (sgn : bool) : res (list Z) :=
  let neg := sgn && (xx <? 0) in
  let x := if neg then u64 (- xx) else u64 xx in
  buf ← printint_loop 64 digits x base [];
  buf ← (if neg then put20 buf minus else Ret buf);
  Ret (putc <$> rev buf).

Definition printptr (digits : list Z) (x : Z) : res (list Z) :=
  out ← printptr_loop (8 * 2) digits x;
  Ret (putc <$> zchar "0" :: zchar "x" :: out).

(** [state] is true behind a percent sign. *)
Fixpoint vprintf_loop (fuel : nat) (digits : list Z) (state : bool) (fmt : list Z) (ap : list arg) : res (list Z) :=
  match fuel with
  | O => OutOfFuel
  | S fuel =>
    let c0 := char_at fmt 0 in
    if c0 =? 0 then Ret []
    else if negb state then
      if c0 =? percent then vprintf_loop fuel digits true (drop 1 fmt) ap
      else
        out ← vprintf_loop fuel digits false (drop 1 fmt) ap;
        Ret (putc c0 :: out)
    else
      let c1 := if negb (c0 =? 0) then char_at fmt 1 else 0 in
      let c2 := if negb (c1 =? 0) then char_at fmt 2 else 0 in
      let number (v : Z → Z) (base : Z) (sign : bool) (skip : nat) :=
        '(z, ap) ← va_int ap;
        o ← printint digits (v z) base sign;
        out ← vprintf_loop fuel digits false (drop (1 + skip) fmt) ap;
        Ret (o ++ out) in
      if c0 =? zchar "d" then number s32 10 true 0%nat
      else if (c0 =? zchar "l") && (c1 =? zchar "d") then number s64 10 true 1%nat
      else if (c0 =? zchar "l") && (c1 =? zchar "l") && (c2 =? zchar "d") then number s64 10 true 2%nat
      else if c0 =? zchar "u" then number u32 10 false 0%nat
      else if (c0 =? zchar "l") && (c1 =? zchar "u") then number s64 10 false 1%nat
      else if (c0 =? zchar "l") && (c1 =? zchar "l") && (c2 =? zchar "u") then number s64 10 false 2%nat
      else if c0 =? zchar "x" then number u32 16 false 0%nat
      else if (c0 =? zchar "l") && (c1 =? zchar "x") then number s64 16 false 1%nat
      else if (c0 =? zchar "l") && (c1 =? zchar "l") && (c2 =? zchar "x") then number s64 16 false 2%nat
      else if c0 =? zchar "p" then
        '(z, ap) ← va_int ap;
        o ← printptr digits (u64 z);
        out ← vprintf_loop fuel digits false (drop 1 fmt) ap;
        Ret (o ++ out)
      else if c0 =? zchar "c" then
        '(z, ap) ← va_int ap;
        out ← vprintf_loop fuel digits false (drop 1 fmt) ap;
        Ret (putc (u32 z) :: out)
      else if c0 =? zchar "s" then
        '(s, ap) ← va_str ap;
        let s := match s with None => null_text | Some s => s end in
        out ← vprintf_loop fuel digits false (drop 1 fmt) ap;
        Ret ((putc <$> upto_nul s) ++ out)
      else if c0 =? percent then
        out ← vprintf_loop fuel digits false (drop 1 fmt) ap;
        Ret (putc percent :: out)
      else
        out ← vprintf_loop fuel digits false (drop 1 fmt) ap;
        Ret (putc percent :: putc c0 :: out)
  end.

Definition vprintf (digits : list Z) (fmt : list Z) (ap : list arg) : res (list Z) :=
  vprintf_loop (S (length fmt)) digits false fmt ap.
End User.
