(* ===== verification/PrintfSpec.v ===== *)
(** * Formatted output: numbers and formats *)

From S2P Require Import Prelude Printf.

(** ** Reading a printed number *)

Definition digit_value (c : Z) : Z :=
  if (zchar "0" <=? c) && (c <=? zchar "9") then c - zchar "0"
  else if (zchar "a" <=? c) && (c <=? zchar "f") then c - zchar "a" + 10
  else c - zchar "A" + 10.

Definition number_value (base : Z) (l : list Z) : Z := foldl (λ v c, v * base + digit_value c) 0 l.

Definition signed_value (base : Z) (l : list Z) : Z :=
  match l with
  | c :: l' => if c =? minus then - number_value base l' else number_value base l
  | [] => 0
  end.

(** A table with the digits of base 16. *)
Definition good_digits (digits : list Z) : Prop :=
  ∀ d, 0 ≤ d < 16 → ∃ c, digits !! Z.to_nat d = Some c ∧ digit_value c = d ∧ c ≠ minus ∧ (c = zchar "0" → d = 0).

Lemma below_16 (P : Z → Prop) :
  P 0 → P 1 → P 2 → P 3 → P 4 → P 5 → P 6 → P 7 → P 8 → P 9 → P 10 → P 11 → P 12 → P 13 → P 14 → P 15 → ∀ d, 0 ≤ d < 16 → P d.
Proof.
  intros. assert (Hd : d = 0 ∨ d = 1 ∨ d = 2 ∨ d = 3 ∨ d = 4 ∨ d = 5 ∨ d = 6 ∨ d = 7 ∨ d = 8 ∨ d = 9 ∨ d = 10 ∨ d = 11 ∨ d = 12 ∨
    d = 13 ∨ d = 14 ∨ d = 15) by lia.
  by repeat destruct Hd as [->|Hd]; [..|rewrite Hd].
Qed.

Lemma kernel_digits : good_digits digits.
Proof. refine (below_16 _ _ _ _ _ _ _ _ _ _ _ _ _ _ _ _ _); eexists; (split; [reflexivity|]; split; [reflexivity|]; split; [discriminate|]; by vm_compute). Qed.

Lemma user_digits : good_digits User.digits.
Proof. refine (below_16 _ _ _ _ _ _ _ _ _ _ _ _ _ _ _ _ _); eexists; (split; [reflexivity|]; split; [reflexivity|]; split; [discriminate|]; by vm_compute). Qed.

Lemma head_rev_cons {A} (x : A) l : l ≠ [] → head (rev (x :: l)) = head (rev l).
Proof.
  intros Hl. cbn. destruct (rev l) eqn:E; [|done]. apply (f_equal (@rev A)) in E. by rewrite rev_involutive in E.
Qed.

Section number.
Context (digits : list Z) (Hd : good_digits digits) (base : Z) (Hbase : 2 ≤ base ≤ 16).

(** The digits that the loop appends, least significant first. *)
Lemma printint_loop_spec k : ∀ fuel x buf,
  0 ≤ x < base ^ Z.of_nat (S k) → (S k ≤ fuel)%nat → (length buf + S k ≤ 20)%nat →
  ∃ l, printint_loop fuel digits x base buf = Ret (buf ++ l) ∧ (1 ≤ length l ≤ S k)%nat ∧
    foldr (λ c v, v * base + digit_value c) 0 l = x ∧ Forall (λ c, c ≠ minus) l ∧ (head (rev l) = Some (zchar "0") → x = 0).
Proof.
  induction k as [|k IH]; intros fuel x buf Hx Hf Hb; (destruct fuel as [|fuel]; [lia|]); cbn [printint_loop];
    pose proof (Z.mod_pos_bound x base ltac:(lia)) as Hm; pose proof (Z.div_mod x base ltac:(lia)) as Hdm;
    destruct (Hd (x mod base) ltac:(lia)) as (c & Hc & Hv & Hminus & Hzero);
    unfold digit; rewrite Hc, res_bind_Ret; unfold put20; rewrite (proj2 (Nat.ltb_lt _ 20)) by lia; rewrite res_bind_Ret.
  - assert (E : x / base = 0) by (apply Z.div_small; change (Z.of_nat 1) with 1 in Hx; lia). rewrite E. cbn.
    exists [c]. split; [done|]. split; [cbn; lia|]. split; [cbn; rewrite Hv; lia|]. split; [by constructor|].
    intros [= ->]. specialize (Hzero eq_refl). lia.
  - destruct (Z.eqb_spec (x / base) 0) as [E|E]; cbn [negb].
    + exists [c]. split; [done|]. split; [cbn; lia|]. split; [cbn; rewrite Hv; lia|]. split; [by constructor|].
      intros [= ->]. specialize (Hzero eq_refl). lia.
    + destruct (IH fuel (x / base) (buf ++ [c])) as (l & -> & Hl & Hval & Hall & Hlast); [|lia|rewrite length_app; cbn; lia|].
      { split; [apply Z.div_pos; lia|]. apply Z.div_lt_upper_bound; [lia|]. rewrite <-Z.pow_succ_r by lia. rewrite <-Nat2Z.inj_succ. lia. }
      exists (c :: l). split; [by rewrite <-app_assoc|]. split; [cbn; lia|]. split; [cbn; rewrite Hval, Hv; lia|]. split; [by constructor|].
      rewrite head_rev_cons by (intros ->; cbn in Hl; lia). intros Hz. by destruct (E (Hlast Hz)).
Qed.

Lemma number_value_rev l : number_value base (rev l) = foldr (λ c v, v * base + digit_value c) 0 l.
Proof. unfold number_value. induction l as [|c l IH]; [done|]. cbn. rewrite foldl_app. cbn. by rewrite IH. Qed.

Lemma signed_value_plain l : Forall (λ c, c ≠ minus) l → signed_value base l = number_value base l.
Proof. destruct l as [|c l]; [done|]. intros H. apply List.Forall_cons_iff in H as [Hc _]. cbn [signed_value]. by rewrite (proj2 (Z.eqb_neq _ _)). Qed.
End number.

(** [printint] prints the number, in at most 20 characters, without
    leading zeros. *)
Lemma printint_spec digits xx base sign :
  good_digits digits → base = 10 ∨ base = 16 → - 2 ^ 63 ≤ xx < 2 ^ 63 →
  ∃ l, printint digits xx base sign = Ret l ∧ (length l ≤ 20)%nat ∧
    signed_value base l = (if sign then xx else u64 xx) ∧ (head l = Some (zchar "0") → xx = 0).
Proof.
  intros Hd Hb Hx. assert (Hb' : 2 ≤ base ≤ 16) by lia. unfold printint.
  assert (Hpow : 2 ^ 64 ≤ base ^ 20 ∧ 2 ^ 63 < base ^ 19) by (destruct Hb as [-> | ->]; (split; [apply Z.leb_le|apply Z.ltb_lt]; reflexivity)).
  destruct sign; cbn [andb].
  - destruct (Z.ltb_spec xx 0) as [Hneg|Hpos].
    + unwrap. destruct (printint_loop_spec digits Hd base Hb' 18 64 (- xx) []) as (l & -> & Hl & Hv & Hall & Hz); [|lia|cbn; lia|].
      { change (Z.of_nat 19) with 19. lia. }
      rewrite !res_bind_Ret. unfold put20. rewrite (proj2 (Nat.ltb_lt _ 20)) by (cbn; lia). rewrite res_bind_Ret. cbn [app].
      eexists. split; [done|]. rewrite length_rev, length_app, rev_app_distr. split; [cbn; lia|]. split; [|done].
      cbn [rev app signed_value]. rewrite Z.eqb_refl, number_value_rev, Hv. lia.
    + unwrap. destruct (printint_loop_spec digits Hd base Hb' 18 64 xx []) as (l & -> & Hl & Hv & Hall & Hz); [|lia|cbn; lia|].
      { change (Z.of_nat 19) with 19. lia. }
      rewrite !res_bind_Ret. cbn [app]. eexists. split; [done|]. rewrite length_rev. split; [lia|]. split; [|done].
      rewrite signed_value_plain by (by apply List.Forall_rev). by rewrite number_value_rev.
  - pose proof (u64_range xx). destruct (printint_loop_spec digits Hd base Hb' 19 64 (u64 xx) []) as (l & -> & Hl & Hv & Hall & Hz); [|lia|cbn; lia|].
    { change (Z.of_nat 20) with 20. lia. }
    rewrite !res_bind_Ret. cbn [app]. eexists. split; [done|]. rewrite length_rev. split; [lia|]. split.
    + rewrite signed_value_plain by (by apply List.Forall_rev). by rewrite number_value_rev.
    + intros Hl0. specialize (Hz Hl0). unfold u64 in Hz. pose proof (Z.div_mod xx (2 ^ 64)). lia.
Qed.

(** ** The kernel and the library format alike *)

(** The characters of [m] as [putc] of the library writes them.  ([consputc]
    takes an [int] and sends its low byte as well, except for 256, which it
    turns into an erased column.) *)
Definition as_bytes (m : res (list Z)) : res (list Z) := m ≫= λ l : list Z, Ret (User.putc <$> l).

Lemma as_bytes_bind {A} (m : res A) f : as_bytes (m ≫= f) = m ≫= λ a, as_bytes (f a).
Proof. by destruct m. Qed.

Lemma bind_ext {A B} (m : res A) (f g : A → res B) : (∀ a, f a = g a) → m ≫= f = m ≫= g.
Proof. intros E. destruct m; cbn; auto. Qed.

Lemma as_bytes_app (m : res (list Z)) o : as_bytes (m ≫= λ out, Ret (o ++ out)) = as_bytes m ≫= λ out, Ret ((User.putc <$> o) ++ out).
Proof. destruct m; cbn; [|done..]. by rewrite fmap_app. Qed.

Lemma user_printint digits xx base sign : User.printint digits xx base sign = as_bytes (printint digits xx base sign).
Proof. unfold User.printint, printint, as_bytes. rewrite res_bind_assoc. apply bind_ext. intros buf. by rewrite res_bind_assoc. Qed.

Lemma user_printptr digits x : User.printptr digits x = as_bytes (printptr digits x).
Proof. unfold User.printptr, printptr, as_bytes. by rewrite !res_bind_assoc. Qed.

Lemma putc_char z : User.putc (s32 z) = User.putc (u32 z).
Proof.
  unfold User.putc, u8, s32, u32. rewrite <-(Zplus_mod_idemp_l _ (2 ^ 31)). set (x := z mod 2 ^ 32).
  pose proof (Z.mod_pos_bound z (2 ^ 32) ltac:(done)). fold x in H.
  destruct (Z.lt_ge_cases x (2 ^ 31)).
  - rewrite (Z.mod_small (x + 2 ^ 31)) by lia. f_equal. lia.
  - replace (x + 2 ^ 31) with (x - 2 ^ 31 + 1 * 2 ^ 32) by lia. rewrite Z.mod_add, (Z.mod_small (x - 2 ^ 31)) by lia.
    replace (x - 2 ^ 31 - 2 ^ 31) with (x + (- 2 ^ 24) * 2 ^ 8) by lia. by rewrite Z.mod_add.
Qed.

(** A conversion that takes an argument and goes on with the format. *)
Lemma as_bytes_conversion {A} (m : res A) (o : A → res (list Z)) (u : A → res (list Z)) (k k' : A → res (list Z)) :
  (∀ a, u a = as_bytes (o a)) → (∀ a, as_bytes (k a) = k' a) →
  as_bytes (m ≫= λ a, o a ≫= λ o, k a ≫= λ out, Ret (o ++ out)) = m ≫= λ a, u a ≫= λ o, k' a ≫= λ out, Ret (o ++ out).
Proof.
  intros Hu Hk. rewrite as_bytes_bind. apply bind_ext. intros a. rewrite Hu, <-Hk. destruct (o a); cbn; [|done..].
  by rewrite as_bytes_app.
Qed.

Lemma char_at_drop l i j : char_at (drop i l) j = char_at l (i + j).
Proof. unfold char_at. by rewrite lookup_drop. Qed.

Lemma char_at_nonempty l : char_at l 0 ≠ 0 → (0 < length l)%nat.
Proof. destruct l; [done|]. cbn. lia. Qed.

Lemma printf_vprintf digits n : ∀ fmt ap f1 f2, (length fmt ≤ n)%nat → (length fmt < f1)%nat → (length fmt < f2)%nat →
  as_bytes (printf_loop f1 digits fmt ap) = User.vprintf_loop f2 digits false fmt ap.
Proof.
  induction n as [|n IH]; intros fmt ap f1 f2 Hn H1 H2; (destruct f1 as [|f1]; [lia|]); (destruct f2 as [|f2]; [lia|]);
    cbn [printf_loop User.vprintf_loop]; (destruct (Z.eqb_spec (char_at fmt 0) 0) as [E0|E0]; [done|]);
    apply char_at_nonempty in E0; [lia|]. cbn [negb].
  destruct (Z.eqb_spec (char_at fmt 0) percent) as [Ep|Ep]; cbn [negb].
  2:{ change (char_at fmt 0 :: ?l) with ([char_at fmt 0] ++ l). rewrite as_bytes_app, (IH _ _ _ f2); [done|rewrite length_drop; lia..]. }
  destruct f2 as [|f2]; [lia|]. cbn [User.vprintf_loop]. set (rest := drop 1 fmt) in *.
  destruct (Z.eqb_spec (char_at rest 0) 0) as [Ez|Ez]; [by rewrite Ez|]. cbn [negb].
  pose proof (char_at_nonempty rest Ez) as Hrest. unfold rest in Hrest. rewrite length_drop in Hrest.
  assert (IH' : ∀ k ap', as_bytes (printf_loop f1 digits (drop (S k) rest) ap') = User.vprintf_loop f2 digits false (drop (S k) rest) ap').
  { intros k ap'. apply IH; unfold rest; rewrite !length_drop; lia. }
  assert (Hnum : ∀ v b s k, as_bytes (va_int ap ≫= λ '(z, ap), printint digits (v z) b s ≫= λ o,
      printf_loop f1 digits (drop (S k) rest) ap ≫= λ out, Ret (o ++ out)) =
    va_int ap ≫= λ '(z, ap), User.printint digits (v z) b s ≫= λ o, User.vprintf_loop f2 digits false (drop (S k) rest) ap ≫= λ out, Ret (o ++ out)).
  { intros v b s k. destruct (va_int ap) as [[z ap']| | | |]; cbn [mbind res_mbind res_bind]; [|done..].
    apply (as_bytes_conversion (Ret tt) (λ _, printint digits (v z) b s) (λ _, User.printint digits (v z) b s)
      (λ _, printf_loop f1 digits (drop (S k) rest) ap') (λ _, User.vprintf_loop f2 digits false (drop (S k) rest) ap')); intros _; [apply user_printint|apply IH']. }
  repeat match goal with |- as_bytes (if ?b then _ else _) = _ => destruct b; [apply Hnum|] end.
  destruct (_ =? zchar "p").
  { destruct (va_int ap) as [[z ap']| | | |]; cbn [mbind res_mbind res_bind]; [|done..].
    apply (as_bytes_conversion (Ret tt) (λ _, printptr digits (u64 z)) (λ _, User.printptr digits (u64 z))
      (λ _, printf_loop f1 digits (drop 1 rest) ap') (λ _, User.vprintf_loop f2 digits false (drop 1 rest) ap')); intros _; [apply user_printptr|apply IH']. }
  destruct (_ =? zchar "c").
  { destruct (va_int ap) as [[z ap']| | | |]; cbn [mbind res_mbind res_bind]; [|done..]. rewrite <-IH', <-putc_char. exact (as_bytes_app _ [s32 z]). }
  destruct (_ =? zchar "s").
  { destruct (va_str ap) as [[z ap']| | | |]; cbn [mbind res_mbind res_bind]; [|done..]. rewrite <-IH'. exact (as_bytes_app _ _). }
  rewrite <-IH'. destruct (_ =? percent); [exact (as_bytes_app _ [percent])|exact (as_bytes_app _ [percent; char_at rest 0])].
Qed.

Lemma printf_chars_vprintf digits fmt ap : as_bytes (printf_chars digits fmt ap) = User.vprintf digits fmt ap.
Proof. apply (printf_vprintf digits (length fmt)); lia. Qed.

(** ** Every format is printed to its end *)

Lemma bind_fuel {A B} (m : res A) (f : A → res B) : m ≠ OutOfFuel → (∀ a, f a ≠ OutOfFuel) → m ≫= f ≠ OutOfFuel.
Proof. destruct m; cbn; auto. Qed.

Lemma s64_range x : - 2 ^ 63 ≤ s64 x < 2 ^ 63.
Proof. unfold s64. pose proof (Z.mod_pos_bound (x + 2 ^ 63) (2 ^ 64)). lia. Qed.
Lemma s32_range x : - 2 ^ 31 ≤ s32 x < 2 ^ 31.
Proof. unfold s32. pose proof (Z.mod_pos_bound (x + 2 ^ 31) (2 ^ 32)). lia. Qed.

Lemma printint_fuel digits x base sign :
  good_digits digits → base = 10 ∨ base = 16 → - 2 ^ 63 ≤ x < 2 ^ 63 → printint digits x base sign ≠ OutOfFuel.
Proof. intros Hd Hb Hx. by destruct (printint_spec digits x base sign Hd Hb Hx) as (l & -> & _). Qed.

Lemma printptr_loop_fuel n digits : ∀ x, printptr_loop n digits x ≠ OutOfFuel.
Proof.
  induction n as [|n IH]; intros x; cbn [printptr_loop]; [done|]. apply bind_fuel; [by unfold digit; destruct (_ !! _)|]. intros c.
  by apply bind_fuel.
Qed.

Lemma va_int_fuel ap : va_int ap ≠ OutOfFuel.
Proof. by destruct ap as [|[]]. Qed.
Lemma va_str_fuel ap : va_str ap ≠ OutOfFuel.
Proof. by destruct ap as [|[]]. Qed.

Lemma printf_loop_fuel digits n : good_digits digits → ∀ fmt ap f, (length fmt ≤ n)%nat → (length fmt < f)%nat → printf_loop f digits fmt ap ≠ OutOfFuel.
Proof.
  intros Hd. induction n as [|n IH]; intros fmt ap f Hn Hf; (destruct f as [|f]; [lia|]); cbn [printf_loop];
    (destruct (Z.eqb_spec (char_at fmt 0) 0) as [E0|E0]; [done|]); apply char_at_nonempty in E0; [lia|].
  assert (IH' : ∀ k ap', printf_loop f digits (drop (S k) fmt) ap' ≠ OutOfFuel).
  { intros k ap'. apply IH; rewrite length_drop; lia. }
  destruct (negb _); [by apply bind_fuel|].
  assert (Hnum : ∀ v b s k, (∀ z, - 2 ^ 63 ≤ v z < 2 ^ 63) → b = 10 ∨ b = 16 → va_int ap ≫= (λ '(z, ap), printint digits (v z) b s ≫= λ o,
      printf_loop f digits (drop (S k) (drop 1 fmt)) ap ≫= λ out, Ret (o ++ out)) ≠ OutOfFuel).
  { intros v b s k Hv Hb. apply bind_fuel; [apply va_int_fuel|]. intros [z ap']. apply bind_fuel; [by apply printint_fuel|]. intros o.
    rewrite drop_drop. by apply bind_fuel. }
  assert (H32 : ∀ z, - 2 ^ 63 ≤ s32 z < 2 ^ 63) by (intros z; pose proof (s32_range z); lia).
  assert (Hu32 : ∀ z, - 2 ^ 63 ≤ u32 z < 2 ^ 63) by (intros z; pose proof (u32_range z); lia).
  pose proof s64_range as H64.
  repeat match goal with |- (if ?b then _ ≫= (λ '(z, ap), printint _ _ _ _ ≫= _) else _) ≠ _ => destruct b; [apply Hnum; auto|] end.
  rewrite !drop_drop. repeat match goal with |- (if ?b then _ else _) ≠ _ => destruct b end; try done; try (by apply bind_fuel).
  - apply bind_fuel; [apply va_int_fuel|]. intros [z ap']. apply bind_fuel; [|intros o; by apply bind_fuel].
    unfold printptr. apply bind_fuel; [apply printptr_loop_fuel|done].
  - apply bind_fuel; [apply va_int_fuel|]. intros [z ap']. by apply bind_fuel.
  - apply bind_fuel; [apply va_str_fuel|]. intros [z ap']. by apply bind_fuel.
Qed.

Lemma printf_chars_fuel digits fmt ap : good_digits digits → printf_chars digits fmt ap ≠ OutOfFuel.
Proof. intros Hd. apply (printf_loop_fuel digits (length fmt)); [done|lia|lia]. Qed.

(** ** The text apart from the digits *)

(** A printed character is one of the format or of an argument, or an entry
    of the table of digits. *)
Inductive piece := Lit (c : Z) | Dig (d : nat).

Definition shown (table : list Z) (p : piece) : Z :=
  match p with
  | Lit c => c
  | Dig d => nth d table 0
  end.

Definition show (table : list Z) (r : res (list piece)) : res (list Z) := r ≫= λ l : list piece, Ret (shown table <$> l).

(** An output that depends on the table in its digits only. *)
Definition uniform (m : list Z → res (list Z)) : Prop :=
  ∃ r, ∀ table, length table = 16%nat → m table = show table r.

Lemma uniform_lits l : uniform (λ _, Ret l).
Proof. exists (Ret (Lit <$> l)). intros table _. cbn. f_equal. by induction l; f_equal/=. Qed.

Lemma uniform_app m k : uniform m → uniform k → uniform (λ t, o ← m t; out ← k t; Ret (o ++ out)).
Proof.
  intros [r Hm] [r' Hk]. exists (o ← r; out ← r'; Ret (o ++ out)). intros t Ht. rewrite (Hm t Ht), (Hk t Ht).
  destruct r as [o| | | |]; [|done..]. destruct r' as [out| | | |]; [|done..]. cbn. by rewrite fmap_app.
Qed.

Lemma uniform_lits_app l k : uniform k → uniform (λ t, out ← k t; Ret (l ++ out)).
Proof. intros Hk. exact (uniform_app (λ _, Ret l) k (uniform_lits l) Hk). Qed.

Lemma uniform_va {A} (m : res A) (k : A → list Z → res (list Z)) : (∀ a, uniform (k a)) → uniform (λ t, a ← m; k a t).
Proof. intros Hk. destruct m as [a|s| | |]; [exact (Hk a)|by exists (Panic s)|by exists Fault|by exists Block|by exists OutOfFuel]. Qed.

Lemma digit_shown table d : length table = 16%nat → 0 ≤ d < 16 → digit table d = Ret (shown table (Dig (Z.to_nat d))).
Proof.
  intros Ht Hd. unfold digit. destruct (lookup_lt_is_Some_2 table (Z.to_nat d)) as [c Hc]; [lia|]. rewrite Hc. cbn.
  by rewrite (nth_lookup_Some table (Z.to_nat d) 0 c Hc).
Qed.

(** The buffer of [printint] as pieces. *)
Lemma printint_loop_uniform base fuel : 2 ≤ base ≤ 16 → ∀ x ps,
  ∃ r, ∀ table, length table = 16%nat → printint_loop fuel table x base (shown table <$> ps) = show table r.
Proof.
  intros Hb. induction fuel as [|fuel IH]; intros x ps; [by exists OutOfFuel|].
  pose proof (Z.mod_pos_bound x base ltac:(lia)) as Hm. set (ps' := ps ++ [Dig (Z.to_nat (x mod base))]).
  assert (E : ∀ table, length table = 16%nat → printint_loop (S fuel) table x base (shown table <$> ps) =
    if (length ps <? 20)%nat then
      if negb (x / base =? 0) then printint_loop fuel table (x / base) base (shown table <$> ps') else Ret (shown table <$> ps')
    else Fault).
  { intros table Ht. cbn [printint_loop]. rewrite (digit_shown table _ Ht) by lia. rewrite res_bind_Ret. unfold put20.
    rewrite length_fmap. destruct (_ <? _)%nat; [|done]. rewrite res_bind_Ret. unfold ps'. by rewrite fmap_app. }
  destruct (IH (x / base) ps') as [r Hr].
  exists (if (length ps <? 20)%nat then if negb (x / base =? 0) then r else Ret ps' else Fault).
  intros table Ht. rewrite (E table Ht). destruct (_ <? _)%nat; [|done]. destruct (negb _); [by apply Hr|done].
Qed.

Lemma printint_uniform xx base sign : base = 10 ∨ base = 16 → uniform (λ t, printint t xx base sign).
Proof.
  intros Hb. unfold printint. set (x := if sign && (xx <? 0) then u64 (- xx) else u64 xx).
  destruct (printint_loop_uniform base 64 ltac:(lia) x []) as [r Hr].
  exists (r ≫= λ ps : list piece, if sign && (xx <? 0) then if (length ps <? 20)%nat then Ret (rev (ps ++ [Lit minus])) else Fault else Ret (rev ps)).
  intros table Ht. change (printint_loop 64 table x base []) with (printint_loop 64 table x base (shown table <$> [])).
  rewrite (Hr table Ht). destruct r as [ps| | | |]; [|done..]. unfold show. rewrite !res_bind_Ret. unfold put20. rewrite length_fmap.
  destruct (sign && _); [destruct (_ <? _)%nat|]; cbn [mbind res_mbind res_bind]; [|done|];
    rewrite ?rev_app_distr; cbn [rev app fmap list_fmap]; f_equal; [f_equal|]; symmetry; exact (map_rev (shown table) ps).
Qed.

Lemma printptr_loop_uniform n : ∀ x, 0 ≤ x < 2 ^ 64 → uniform (λ t, printptr_loop n t x).
Proof.
  induction n as [|n IH]; intros x Hx; cbn [printptr_loop]; [exact (uniform_lits [])|].
  pose proof (u64_range (Z.shiftl x 4)) as Hs. destruct (IH (u64 (Z.shiftl x 4)) ltac:(lia)) as [r Hr].
  assert (0 ≤ Z.shiftr x (8 * 8 - 4) < 16).
  { rewrite Z.shiftr_div_pow2 by lia. change (8 * 8 - 4) with 60. split; [apply Z.div_pos; lia|apply Z.div_lt_upper_bound; lia]. }
  exists (out ← r; Ret (Dig (Z.to_nat (Z.shiftr x (8 * 8 - 4))) :: out)). intros table Ht.
  rewrite (digit_shown table _ Ht) by done. rewrite res_bind_Ret, (Hr table Ht). by destruct r.
Qed.

Lemma printptr_uniform x : uniform (λ t, printptr t (u64 x)).
Proof. apply (uniform_lits_app [zchar "0"; zchar "x"] (λ t, printptr_loop (8 * 2) t (u64 x))), printptr_loop_uniform, u64_range. Qed.

Lemma printf_uniform n : ∀ fmt ap f, (length fmt ≤ n)%nat → uniform (λ t, printf_loop f t fmt ap).
Proof.
  induction n as [|n IH]; intros fmt ap f Hn; (destruct f as [|f]; [by exists OutOfFuel|]); cbn [printf_loop];
    (destruct (Z.eqb_spec (char_at fmt 0) 0) as [E0|E0]; [exact (uniform_lits [])|]); apply char_at_nonempty in E0; [lia|].
  assert (IH' : ∀ k ap', uniform (λ t, printf_loop f t (drop (S k) fmt) ap')).
  { intros k ap'. apply IH. rewrite length_drop. lia. }
  destruct (negb _); [exact (uniform_lits_app [_] _ (IH' 0%nat ap))|].
  assert (Hnum : ∀ v b s k, b = 10 ∨ b = 16 → uniform (λ t, '(z, ap) ← va_int ap; o ← printint t (v z) b s;
      out ← printf_loop f t (drop (S k) (drop 1 fmt)) ap; Ret (o ++ out))).
  { intros v b s k Hb. apply (uniform_va (va_int ap)). intros [z ap']. rewrite drop_drop.
    apply uniform_app; [by apply printint_uniform|apply (IH' (S k))]. }
  repeat match goal with |- uniform (λ t, if ?b then _ ≫= (λ '(z, ap), printint _ _ _ _ ≫= _) else _) => destruct b; [apply Hnum; auto|] end.
  rewrite !drop_drop. destruct (_ =? zchar "p").
  { apply (uniform_va (va_int ap)). intros [z ap']. apply uniform_app; [apply printptr_uniform|apply (IH' 1%nat)]. }
  destruct (_ =? zchar "c"); [apply (uniform_va (va_int ap)); intros [z ap']; exact (uniform_lits_app [_] _ (IH' 1%nat ap'))|].
  destruct (_ =? zchar "s"); [apply (uniform_va (va_str ap)); intros [z ap']; exact (uniform_lits_app _ _ (IH' 1%nat ap'))|].
  destruct (_ =? percent); [exact (uniform_lits_app [_] _ (IH' 1%nat ap))|].
  destruct (_ =? 0); [exact (uniform_lits [])|exact (uniform_lits_app [_; _] _ (IH' 1%nat ap))].
Qed.
