(* ===== verification/Machine.v ===== *)
(** * The machine below the kernel (kernel/riscv.h, kernel/memlayout.h, the
    static variables of the drivers)

    [machine D] is the kernel state of Proc.v together with the control
    registers of every hart, the variables of console.c, uart.c, printf.c,
    virtio_disk.c, vm.c, proc.c and main.c that the other files do not
    have, and a bus of devices [D].  The devices are not part of the
    program: what they answer to a load or a store of one of their
    registers is the class [Bus]. *)

From stdpp Require Import functions.
From S2P Require Import Prelude Spinlock Riscv Vm FsState Proc.

(** ** Devices *)

(** Memory-mapped registers: what a load returns (it may change the
    device) and what a store does. *)
Class Bus (D : Type) := {
  bus_load : Z → D → Z * D;
  bus_store : Z → Z → D → D;
}.

(** ** Control registers *)

Inductive csr :=
  | MHARTID | MSTATUS | MEPC | SSTATUS | SIP | SIE | MIE | SEPC | MEDELEG | MIDELEG | STVEC | STIMECMP | MENVCFG
  | PMPCFG0 | PMPADDR0 | SATP | SCAUSE | STVAL | MCOUNTEREN | TIME | TP | SSCRATCH.

#[export] Instance csr_eq_dec : EqDecision csr.
Proof. solve_decision. Defined.

Definition csrs := csr → Z.

Definition MSTATUS_MPP_MASK : Z := Z.shiftl 3 11.
Definition MSTATUS_MPP_M : Z := Z.shiftl 3 11.
Definition MSTATUS_MPP_S : Z := Z.shiftl 1 11.
Definition MSTATUS_MPP_U : Z := Z.shiftl 0 11.
Definition SSTATUS_SPP : Z := Z.shiftl 1 8.
Definition SSTATUS_SPIE : Z := Z.shiftl 1 5.
Definition SSTATUS_UPIE : Z := Z.shiftl 1 4.
Definition SSTATUS_SIE : Z := Z.shiftl 1 1.
Definition SSTATUS_UIE : Z := Z.shiftl 1 0.
Definition SIE_SEIE : Z := Z.shiftl 1 9.
Definition SIE_STIE : Z := Z.shiftl 1 5.
Definition MIE_STIE : Z := Z.shiftl 1 5.

Definition UART0_IRQ : Z := 10.
Definition VIRTIO0_IRQ : Z := 1.
Definition PLIC_SENABLE (hart : Z) : Z := PLIC + 0x2080 + hart * 0x100.
Definition PLIC_SPRIORITY (hart : Z) : Z := PLIC + 0x201000 + hart * 0x2000.
Definition PLIC_SCLAIM (hart : Z) : Z := PLIC + 0x201004 + hart * 0x2000.

(** ** Variables of the console and the serial line *)

Definition INPUT_BUF_SIZE : Z := 128.

(** [cons] (kernel/console.c). *)
Record console := mk_console {
  cs_lock : spinlock;
  cs_buf : gmap Z Z;
  cs_r : Z;
  cs_w : Z;
  cs_e : Z;
}.

(** [tx_lock] and [tx_busy] (kernel/uart.c). *)
Record uart := mk_uart {
  tx_lock : spinlock;
  tx_busy : Z;
}.

(** [pr], [panicking] and [panicked] (kernel/printf.c). *)
Record printer := mk_printer {
  pr_lock : spinlock;
  panicking : Z;
  panicked : Z;
}.

(** ** Variables of the disk driver (kernel/virtio_disk.c, kernel/virtio.h)

    The three structures that the driver shares with the device are
    values here, and the addresses in them are symbolic: what a descriptor
    can point to is a command header, the data of a buffer or a status
    byte.  The field [disk] of [struct buf] is in [d_busy], by the index
    of the buffer. *)

Definition NUM : Z := 8.

Inductive dma :=
  | DNull
  | DOps (i : nat)
  | DData (b : nat)
  | DStatus (i : nat).

#[export] Instance dma_eq_dec : EqDecision dma.
Proof. solve_decision. Defined.

Record virtq_desc := mk_virtq_desc {
  vd_addr : dma;
  vd_len : Z;
  vd_flags : Z;
  vd_next : Z;
}.

Record virtq_avail := mk_virtq_avail {
  va_flags : Z;
  va_idx : Z;
  va_ring : list Z;
}.

Record virtq_used_elem := mk_virtq_used_elem {
  ve_id : Z;
  ve_len : Z;
}.

Record virtq_used := mk_virtq_used {
  vu_flags : Z;
  vu_idx : Z;
  vu_ring : list virtq_used_elem;
}.

Record virtio_blk_req := mk_virtio_blk_req {
  rq_type : Z;
  rq_reserved : Z;
  rq_sector : Z;
}.

(** An element of [info]: the buffer, if any, and the status byte. *)
Record info := mk_info {
  in_b : option nat;
  in_status : Z;
}.

(** [d_pages] are the addresses of the pages of [desc], [avail] and
    [used]. *)
Record disk := mk_disk {
  d_pages : Z * Z * Z;
  d_desc : list virtq_desc;
  d_avail : virtq_avail;
  d_used : virtq_used;
  d_free : list Z;
  d_used_idx : Z;
  d_info : list info;
  d_ops : list virtio_blk_req;
  d_lock : spinlock;
  d_busy : list Z;
}.

(** ** The machine *)

Record machine (D : Type) := mk_machine {
  m_kernel : kernel;
  m_csrs : list csrs;
  m_dev : D;
  m_cons : console;
  m_uart : uart;
  m_printer : printer;
  m_disk : disk;
  m_kernel_pagetable : Z;
  m_first : Z;
  m_started : Z;
}.
Arguments mk_machine {D}.
Arguments m_kernel {D}.
Arguments m_csrs {D}.
Arguments m_dev {D}.
Arguments m_cons {D}.
Arguments m_uart {D}.
Arguments m_printer {D}.
Arguments m_disk {D}.
Arguments m_kernel_pagetable {D}.
Arguments m_first {D}.
Arguments m_started {D}.

Section machine.
Context {D : Type} `{Bus D} (h : nat).
Implicit Types s : machine D.

Definition with_kernel (k : kernel) s : machine D :=
  mk_machine k (m_csrs s) (m_dev s) (m_cons s) (m_uart s) (m_printer s) (m_disk s) (m_kernel_pagetable s) (m_first s) (m_started s).
Definition with_csrs (l : list csrs) s : machine D :=
  mk_machine (m_kernel s) l (m_dev s) (m_cons s) (m_uart s) (m_printer s) (m_disk s) (m_kernel_pagetable s) (m_first s) (m_started s).
Definition with_dev (d : D) s : machine D :=
  mk_machine (m_kernel s) (m_csrs s) d (m_cons s) (m_uart s) (m_printer s) (m_disk s) (m_kernel_pagetable s) (m_first s) (m_started s).
Definition with_cons (c : console) s : machine D :=
  mk_machine (m_kernel s) (m_csrs s) (m_dev s) c (m_uart s) (m_printer s) (m_disk s) (m_kernel_pagetable s) (m_first s) (m_started s).
Definition with_uart (u : uart) s : machine D :=
  mk_machine (m_kernel s) (m_csrs s) (m_dev s) (m_cons s) u (m_printer s) (m_disk s) (m_kernel_pagetable s) (m_first s) (m_started s).
Definition with_printer (p : printer) s : machine D :=
  mk_machine (m_kernel s) (m_csrs s) (m_dev s) (m_cons s) (m_uart s) p (m_disk s) (m_kernel_pagetable s) (m_first s) (m_started s).
Definition with_vdisk (d : disk) s : machine D :=
  mk_machine (m_kernel s) (m_csrs s) (m_dev s) (m_cons s) (m_uart s) (m_printer s) d (m_kernel_pagetable s) (m_first s) (m_started s).
Definition with_kernel_pagetable (p : Z) s : machine D :=
  mk_machine (m_kernel s) (m_csrs s) (m_dev s) (m_cons s) (m_uart s) (m_printer s) (m_disk s) p (m_first s) (m_started s).
Definition with_first (n : Z) s : machine D :=
  mk_machine (m_kernel s) (m_csrs s) (m_dev s) (m_cons s) (m_uart s) (m_printer s) (m_disk s) (m_kernel_pagetable s) n (m_started s).
Definition with_started (n : Z) s : machine D :=
  mk_machine (m_kernel s) (m_csrs s) (m_dev s) (m_cons s) (m_uart s) (m_printer s) (m_disk s) (m_kernel_pagetable s) (m_first s) n.

(** Code of the other kernel files. *)
Definition in_kernel {A} (m : M kernel A) : M (machine D) A := λ s,
  '(a, k) ← m (m_kernel s);
  Ret (a, with_kernel k s).

(** ** Device registers *)

Definition load_dev (a : Z) : M (machine D) Z := λ s,
  let '(v, d) := bus_load a (m_dev s) in
  Ret (v, with_dev d s).

Definition store_dev (a v : Z) : M (machine D) unit :=
  modify (λ s, with_dev (bus_store a v (m_dev s)) s).

(** Through a [volatile unsigned char *] and a [uint32 *]. *)
Definition load_reg8 (a : Z) : M (machine D) Z := v ← load_dev a; mret (u8 v).
Definition store_reg8 (a v : Z) : M (machine D) unit := store_dev a (u8 v).
Definition load_reg32 (a : Z) : M (machine D) Z := v ← load_dev a; mret (u32 v).
Definition store_reg32 (a v : Z) : M (machine D) unit := store_dev a (u32 v).

(** ** Control registers of this hart *)

Definition csrr (r : csr) : M (machine D) Z := λ s,
  match (m_csrs s !! h : option csrs) with
  | Some f => Ret (f r, s)
  | None => Fault
  end.

Definition csrw (r : csr) (x : Z) : M (machine D) unit := λ s,
  match (m_csrs s !! h : option csrs) with
  | Some f => Ret (tt, with_csrs (<[h := <[r := x]> f]> (m_csrs s)) s)
  | None => Fault
  end.

Definition r_mhartid := csrr MHARTID.
Definition r_mstatus := csrr MSTATUS.
Definition w_mstatus := csrw MSTATUS.
Definition w_mepc := csrw MEPC.

(** The interrupt enable bit of [sstatus] is the field [c_sie] of the
    hart, the other bits are in the register file. *)
Definition r_sstatus : M (machine D) Z :=
  x ← csrr SSTATUS;
  i ← in_kernel (intr_get h);
  mret (if (i : bool) then Z.lor x SSTATUS_SIE else Z.land x (Z.lnot SSTATUS_SIE)).

Definition w_sstatus (x : Z) : M (machine D) unit :=
  csrw SSTATUS x;;
  in_kernel (if negb (Z.land x SSTATUS_SIE =? 0) then intr_on h else intr_off h).

Definition r_sip := csrr SIP.
Definition w_sip := csrw SIP.
Definition r_sie := csrr SIE.
Definition w_sie := csrw SIE.
Definition r_mie := csrr MIE.
Definition w_mie := csrw MIE.
Definition r_sepc := csrr SEPC.
Definition w_sepc := csrw SEPC.
Definition r_medeleg := csrr MEDELEG.
Definition w_medeleg := csrw MEDELEG.
Definition r_mideleg := csrr MIDELEG.
Definition w_mideleg := csrw MIDELEG.
Definition w_stvec := csrw STVEC.
Definition r_stvec := csrr STVEC.
Definition r_stimecmp := csrr STIMECMP.
Definition w_stimecmp := csrw STIMECMP.
Definition r_menvcfg := csrr MENVCFG.
Definition w_menvcfg := csrw MENVCFG.
Definition w_pmpcfg0 := csrw PMPCFG0.
Definition w_pmpaddr0 := csrw PMPADDR0.
Definition r_satp := csrr SATP.
Definition w_satp := csrw SATP.
Definition r_scause := csrr SCAUSE.
Definition r_stval := csrr STVAL.
Definition r_mcounteren := csrr MCOUNTEREN.
Definition w_mcounteren := csrw MCOUNTEREN.
Definition r_time := csrr TIME.
Definition r_tp := csrr TP.
Definition w_tp := csrw TP.

(** [cpuid] (kernel/proc.c): the hart keeps its number in [tp]. *)
Definition cpuid : M (machine D) Z :=
  id ← r_tp;
  mret (s32 id).

(** ** Locks of the drivers *)

(** A lock variable of the machine. *)
Record lockvar := mk_lockvar {
  lv_get : machine D → spinlock;
  lv_set : spinlock → machine D → machine D;
}.

Definition acquire_m (v : lockvar) : M (machine D) unit :=
  in_kernel (push_off h);;
  s ← get;
  l ← lift (acquire h (lv_get v s));
  modify (lv_set v l).

Definition release_m (v : lockvar) : M (machine D) unit :=
  s ← get;
  l ← lift (release h (lv_get v s));
  modify (lv_set v l);;
  in_kernel (pop_off h).

Definition initlock_m (v : lockvar) (name : string) : M (machine D) unit :=
  modify (lv_set v (initlock name)).

Definition cons_lock : lockvar := mk_lockvar (λ s, cs_lock (m_cons s))
  (λ l s, with_cons (mk_console l (cs_buf (m_cons s)) (cs_r (m_cons s)) (cs_w (m_cons s)) (cs_e (m_cons s))) s).
Definition uart_lock : lockvar := mk_lockvar (λ s, tx_lock (m_uart s))
  (λ l s, with_uart (mk_uart l (tx_busy (m_uart s))) s).
Definition print_lock : lockvar := mk_lockvar (λ s, pr_lock (m_printer s))
  (λ l s, with_printer (mk_printer l (panicking (m_printer s)) (panicked (m_printer s))) s).
Definition ticks_lock : lockvar := mk_lockvar (λ s, n_tickslock (m_kernel s))
  (λ l s, with_kernel (with_tickslock l (m_kernel s)) s).

(** [sleep] up to the switch, and after it, on a lock of the machine. *)
Definition sleep_on (c : chan) (v : lockvar) : M (machine D) bool :=
  i ← in_kernel (cur h);
  in_kernel (acquire_p h i);;
  release_m v;;
  in_kernel (modify_proc i (proc_with_chan (Some c));;
             modify_proc i (proc_with_state SLEEPING);;
             sched_out h).

Definition resume_on (i : nat) (intena : bool) (v : lockvar) : M (machine D) unit :=
  in_kernel (sched_in h intena;;
             modify_proc i (proc_with_chan None);;
             release_p h i);;
  acquire_m v.
End machine.
Arguments lockvar : clear implicits.
