(* ===== verification/MachineSpec.v ===== *)
(** * Locks, wakeups and sleeping, as the drivers use them *)

From S2P Require Import Prelude Spinlock Riscv Mem Vm FsState Fs Pipe Proc ProcSpec Machine.

(** Hart [h] runs process [me] with [n] pending calls of [push_off], and no
    process lock is taken. *)
Record hart_at (h : nat) (k : kernel) (me : option nat) (n : Z) : Prop := {
  ha_cpu : ∃ c, n_cpus k !! h = Some c ∧ cpu_ok c ∧ c_proc c = me ∧ c_noff c = n;
  ha_free : locks_free k;
  ha_procs : length (n_procs k) = Z.to_nat NPROC;
  ha_me : ∀ p, me = Some p → (p < length (n_procs k))%nat;
}.

(** What locking, waking and interrupt control leave alone: everything but
    the harts, the locks and the states of the processes. *)
Definition calm (k : kernel) : kfs * list proc := (n_fs k, proc_with_state UNUSED <$> n_procs k).

Lemma calm_proc k k' i p : calm k' = calm k → n_procs k' !! i = Some p →
  ∃ q, n_procs k !! i = Some q ∧ proc_with_state UNUSED p = proc_with_state UNUSED q.
Proof.
  intros E Hp. injection E as _ E. apply (f_equal (lookup i)) in E. rewrite !list_lookup_fmap, Hp in E.
  destruct (n_procs k !! i) as [q|]; [|done]. apply (inj Some) in E. by exists q.
Qed.

Lemma calm_procs_length k k' : calm k' = calm k → length (n_procs k') = length (n_procs k).
Proof. intros E. injection E as _ E. apply (f_equal length) in E. by rewrite !length_fmap in E. Qed.

Section hart.
Context (h : nat).
Implicit Types (k : kernel) (me : option nat) (n : Z).

(** Only the hart changes. *)
Lemma hart_put k me n c : hart_at h k me n → cpu_ok c → c_proc c = me → hart_at h (put_cpu h c k) me (c_noff c).
Proof.
  intros [(c0 & Hc & _) Hf Hl Hm] Hok Hp. split; [|done..]. exists c. split; [by eapply cpu_put|done].
Qed.

Lemma runs_push k me n (Q : unit → kernel → Prop) :
  hart_at h k me n → (∀ k', hart_at h k' me (n + 1) → calm k' = calm k → Q tt k') → runs (push_off h) k Q.
Proof.
  intros Hk HQ. destruct Hk as [(c & Hc & Hok & Hp & Hn) Hf Hl Hm] eqn:E. apply (runs_push_off h k c); [done|]. apply HQ; [|done].
  rewrite <-Hn. change (c_noff c + 1) with (c_noff (pushed c)). eapply hart_put; [done|by apply pushed_ok|done].
Qed.

Lemma popped_ok c : cpu_ok c → 1 ≤ c_noff c → cpu_ok (popped c).
Proof. intros [H0 Hs] H1. split; cbn; [lia|]. intros Hp. by rewrite (proj2 (Z.eqb_neq _ 0)) by lia. Qed.

Lemma runs_pop_procs k me n (Q : unit → kernel → Prop) :
  hart_at h k me n → 1 ≤ n → (∀ k', hart_at h k' me (n - 1) → calm k' = calm k → n_procs k' = n_procs k → Q tt k') → runs (pop_off h) k Q.
Proof.
  intros Hk H1 HQ. destruct Hk as [(c & Hc & Hok & Hp & Hn) Hf Hl Hm] eqn:E.
  apply (runs_pop_off h k c); [done|apply Hok; lia|lia|]. apply HQ; [|done..].
  rewrite <-Hn. change (c_noff c - 1) with (c_noff (popped c)). eapply hart_put; [done|apply popped_ok; [done|lia]|done].
Qed.

Lemma runs_pop k me n (Q : unit → kernel → Prop) :
  hart_at h k me n → 1 ≤ n → (∀ k', hart_at h k' me (n - 1) → calm k' = calm k → Q tt k') → runs (pop_off h) k Q.
Proof. intros Hk H1 HQ. eapply runs_pop_procs; [done|done|]. auto. Qed.

(** Nobody but the hart's own process is left asleep on the channel. *)
Definition all_awake k me (ch : option chan) : Prop :=
  ∀ i p, n_procs k !! i = Some p → me ≠ Some i → ¬ (p_state p = SLEEPING ∧ p_chan p = ch).

Lemma runs_wake_all k me n ch (Q : unit → kernel → Prop) :
  hart_at h k me n → (∀ k', hart_at h k' me n → calm k' = calm k → all_awake k' me ch → Q tt k') → runs (wakeup h ch) k Q.
Proof.
  intros [(c & Hc & Hok & Hp & Hn) Hf Hl Hm] HQ. eapply runs_mono; [by apply (wakeup_spec h k c)|].
  intros [] k' (c' & Ec & ->). set (f := λ j p, if decide (c_proc c = Some j) then p else woken ch p).
  assert (Hw : ∀ j p, p_lock (f j p) = p_lock p ∧ proc_with_state UNUSED (f j p) = proc_with_state UNUSED p).
  { intros j p. unfold f, woken. by repeat destruct (decide _). }
  apply HQ; [split; cbn| |].
  - exists c'. split; [apply list_lookup_insert_eq; by eapply lookup_lt_Some|].
    split; [by apply (settle_ok c)|]. split; [by rewrite <-Hp; apply settle_proc|]. rewrite <-Hn. by injection Ec.
  - intros j p Hj. cbn in Hj. rewrite list_lookup_imap in Hj. destruct (n_procs k !! j) as [q|] eqn:Eq; [|done].
    injection Hj as <-. rewrite (proj1 (Hw j q)). by apply (Hf j).
  - by rewrite length_imap.
  - intros p E. rewrite length_imap. by apply Hm.
  - unfold calm. cbn. f_equal. apply list_eq. intros j. rewrite !list_lookup_fmap, list_lookup_imap.
    destruct (n_procs k !! j) as [q|]; [|done]. cbn. by rewrite (proj2 (Hw j q)).
  - intros i p Hi Hme. cbn in Hi. rewrite list_lookup_imap in Hi. destruct (n_procs k !! i) as [q|]; [|done]. injection Hi as <-.
    unfold f. rewrite decide_False by congruence. unfold woken. destruct (decide _) as [|Hd]; [by intros []|done].
Qed.

Lemma runs_wake k me n ch (Q : unit → kernel → Prop) :
  hart_at h k me n → (∀ k', hart_at h k' me n → calm k' = calm k → Q tt k') → runs (wakeup h ch) k Q.
Proof. intros Hk HQ. eapply runs_wake_all; [done|]. auto. Qed.

Lemma runs_cur k p n (Q : nat → kernel → Prop) :
  hart_at h k (Some p) n → (∀ k', hart_at h k' (Some p) n → calm k' = calm k → Q p k') → runs (cur h) k Q.
Proof.
  intros Hk HQ. destruct Hk as [(c & Hc & Hok & Hp & Hn) Hf Hl Hm] eqn:E. unfold cur. apply runs_bind, (runs_myproc h k c); [done|done|].
  rewrite Hp. apply runs_ret, HQ; [|done]. rewrite <-Hn. change (c_noff c) with (c_noff (settle c)).
  eapply hart_put; [done| |done]. apply (settle_ok c); [by rewrite settle_settle|done].
Qed.

(** The critical section of a process that only reads it. *)
Lemma runs_killed k me n i p (Q : Z → kernel → Prop) :
  hart_at h k me n → n_procs k !! i = Some p → (∀ k', hart_at h k' me n → calm k' = calm k → Q (p_killed p) k') → runs (killed h i) k Q.
Proof.
  intros Hk Hi HQ. destruct Hk as [(c & Hc & Hok & Hp & Hn) Hf Hl Hm] eqn:E. unfold killed.
  apply (runs_locked h k c i p); [done|done|by apply (Hf i)|]. apply runs_bind. eapply runs_unlock; [done|done|done|by apply (Hf i)|].
  apply runs_ret, HQ; rewrite put_proc_same by done; [|done]. rewrite <-Hn. change (c_noff c) with (c_noff (settle c)).
  eapply hart_put; [done| |done]. apply (settle_ok c); [by rewrite settle_settle|done].
Qed.
End hart.

Section machine.
Context {D : Type} `{Bus D} (h : nat).
Implicit Types (s : machine D) (v : lockvar D).

Lemma runs_in_kernel {A} (m : M kernel A) s (Q : A → machine D → Prop) :
  runs m (m_kernel s) (λ a k, Q a (with_kernel k s)) → runs (in_kernel m) s Q.
Proof. intros (a & k & Hm & HQ). exists a, (with_kernel k s). split; [|done]. unfold in_kernel. by rewrite Hm. Qed.

(** A lock variable outside the kernel state of Proc.v. *)
Class LockVar v : Prop := {
  lv_get_set s l : lv_get v (lv_set v l s) = l;
  lv_get_kernel s k : lv_get v (with_kernel k s) = lv_get v s;
  lv_set_kernel s l : m_kernel (lv_set v l s) = m_kernel s;
  lv_set_with s l k : lv_set v l (with_kernel k s) = with_kernel k (lv_set v l s);
  lv_set_set s l l' : lv_set v l (lv_set v l' s) = lv_set v l s;
  lv_set_same s : lv_set v (lv_get v s) s = s;
}.

Lemma with_kernel_twice s k k' : with_kernel k (with_kernel k' s) = with_kernel k s.
Proof. done. Qed.

Section lock.
Context (v : lockvar D) `{!LockVar v}.

Lemma runs_acquire_m s me n (Q : unit → machine D → Prop) :
  unlocked (lv_get v s) → hart_at h (m_kernel s) me n →
  (∀ k, hart_at h k me (n + 1) → calm k = calm (m_kernel s) → Q tt (with_kernel k (lv_set v (held_by h (lv_get v s)) s))) →
  runs (acquire_m h v) s Q.
Proof.
  intros Hl Hk HQ. unfold acquire_m. apply runs_bind, runs_in_kernel. eapply runs_push; [done|]. intros k Hk' E.
  apply runs_bind. eapply runs_eq; [reflexivity|]. rewrite lv_get_kernel. apply runs_bind.
  eapply runs_eq; [unfold lift; rewrite acquire_unlocked by done; reflexivity|]. apply runs_modify.
  rewrite lv_set_with. by apply HQ.
Qed.

Lemma runs_release_procs s l me n (Q : unit → machine D → Prop) :
  lv_get v s = held_by h l → unlocked l → hart_at h (m_kernel s) me n → 1 ≤ n →
  (∀ k, hart_at h k me (n - 1) → calm k = calm (m_kernel s) → n_procs k = n_procs (m_kernel s) → Q tt (with_kernel k (lv_set v l s))) →
  runs (release_m h v) s Q.
Proof.
  intros El Hl Hk H1 HQ. unfold release_m. apply runs_bind. eapply runs_eq; [reflexivity|]. apply runs_bind.
  eapply runs_eq; [unfold lift; rewrite El, release_held by done; reflexivity|]. apply runs_bind, runs_modify, runs_in_kernel.
  rewrite lv_set_kernel. eapply runs_pop_procs; [done|done|]. intros k Hk' E Ep. by apply HQ.
Qed.

Lemma runs_release_m s l me n (Q : unit → machine D → Prop) :
  lv_get v s = held_by h l → unlocked l → hart_at h (m_kernel s) me n → 1 ≤ n →
  (∀ k, hart_at h k me (n - 1) → calm k = calm (m_kernel s) → Q tt (with_kernel k (lv_set v l s))) →
  runs (release_m h v) s Q.
Proof. intros El Hl Hk H1 HQ. eapply runs_release_procs; [done|done|done|done|]. auto. Qed.

(** Going to sleep releases the lock; nothing but the hart and the
    process that sleeps changes in the kernel. *)
Lemma runs_sleep_on s l p ch (Q : bool → machine D → Prop) :
  lv_get v s = held_by h l → unlocked l → hart_at h (m_kernel s) (Some p) 1 →
  (∀ b k, n_fs k = n_fs (m_kernel s) → Q b (with_kernel k (lv_set v l s))) →
  runs (sleep_on h ch v) s Q.
Proof.
  intros El Hl Hk HQ. unfold sleep_on. apply runs_bind, runs_in_kernel. eapply runs_cur; [done|].
  intros k1 Hk1 E1. destruct Hk1 as [(c & Hc & Hok & Hp & Hn) Hf Hlen Hm].
  destruct (lookup_lt_is_Some_2 (n_procs k1) p ltac:(by apply Hm)) as [q Hq].
  apply runs_bind, runs_in_kernel. cbn [m_kernel with_kernel].
  apply (runs_acquire_p h k1 c p q); [done|done|by apply (Hf p)|]. rewrite with_kernel_twice.
  set (k2 := put_proc p (proc_with_lock (held_by h (p_lock q)) q) (put_cpu h (pushed c) k1)).
  apply runs_bind. unfold release_m. apply runs_bind. eapply runs_eq; [reflexivity|]. rewrite lv_get_kernel. apply runs_bind.
  eapply runs_eq; [unfold lift; rewrite El, release_held by done; reflexivity|]. apply runs_bind, runs_modify, runs_in_kernel.
  rewrite lv_set_with. cbn [m_kernel with_kernel].
  eapply (runs_pop_off h k2 (pushed c)); [by eapply cpu_put|done|cbn; lia|]. rewrite with_kernel_twice.
  set (k3 := put_cpu h (popped (pushed c)) k2). apply runs_in_kernel. cbn [m_kernel with_kernel].
  assert (Hq2 : n_procs k3 !! p = Some (proc_with_lock (held_by h (p_lock q)) q)) by (by eapply proc_put).
  apply runs_bind. eapply runs_modify_proc; [exact Hq2|]. apply runs_bind.
  eapply runs_modify_proc; [by eapply proc_put|]. unfold sched_out. apply runs_bind.
  set (k4 := put_proc p _ (put_proc p _ k3)).
  assert (Hc4 : n_cpus k4 !! h = Some (settle c)).
  { unfold k4, k3. rewrite popped_pushed by done. eapply (cpu_put h k2). by eapply cpu_put. }
  unfold cur. apply runs_bind, (runs_myproc h k4 (settle c)); [done|apply (settle_ok c); [by rewrite settle_settle|done]|].
  cbn [settle c_proc]. rewrite Hp. apply runs_ret. apply runs_bind. eapply runs_get_proc; [eapply proc_put; by eapply proc_put|].
  cbn. unfold holding. cbn. rewrite bool_decide_true by done. cbn.
  apply runs_bind. eapply runs_mycpu; [by eapply cpu_put|]. cbn [c_noff settle]. rewrite Hn. cbn.
  apply runs_bind. unfold intr_get. apply runs_bind. eapply runs_mycpu; [by eapply cpu_put|]. apply runs_ret.
  cbn [c_sie settle]. rewrite (proj2 Hok) by lia. apply runs_ret. rewrite with_kernel_twice. apply HQ.
  cbn. by injection E1.
Qed.
End lock.
End machine.

#[export] Instance cons_lock_var {D} : LockVar (@cons_lock D).
Proof. split; try done. by intros [? ? ? []]. Qed.
#[export] Instance uart_lock_var {D} : LockVar (@uart_lock D).
Proof. split; try done. by intros [? ? ? ? []]. Qed.
#[export] Instance print_lock_var {D} : LockVar (@print_lock D).
Proof. split; try done. by intros [? ? ? ? ? []]. Qed.
