(* ===== verification/Asm.v ===== *)
(** * Assembly code (kernel/trampoline.S, kernel/kernelvec.S, kernel/swtch.S,
    kernel/entry.S)

    The code of a file is a list of instructions.  [exec] runs it on a hart:
    its registers, its control registers and the physical memory; an access
    to memory goes through the page table that [satp] selects.  [call] is
    what the called C functions do up to their return, [symbol] gives the
    addresses of variables and [pc] those of the pieces of code. *)

From stdpp Require Import functions.
From S2P Require Import Prelude Riscv Mem Vm Machine.

Module Reg.
Inductive reg :=
  | zero | ra | sp | gp | tp | t0 | t1 | t2 | s0 | s1 | a0 | a1 | a2 | a3 | a4 | a5 | a6 | a7
  | s2 | s3 | s4 | s5 | s6 | s7 | s8 | s9 | s10 | s11 | t3 | t4 | t5 | t6.
End Reg.
Import Reg.

#[export] Instance reg_eq_dec : EqDecision reg.
Proof. solve_decision. Defined.

Inductive instr :=
  | Li (rd : reg) (imm : Z)
  | La (rd : reg) (sym : string)
  | Addi (rd rs : reg) (imm : Z)
  | Add (rd rs1 rs2 : reg)
  | Mul (rd rs1 rs2 : reg)
  | Sd (rs : reg) (off : Z) (base : reg)
  | Ld (rd : reg) (off : Z) (base : reg)
  | Csrw (c : csr) (rs : reg)
  | Csrr (rd : reg) (c : csr)
  | Sfence_vma
  | Jalr (rs : reg)
  | Call (sym : string)
  | Ret_ra
  | Sret.

(** ** A hart *)

Record hart := mk_hart {
  x_regs : reg → Z;
  x_csrs : csrs;
  x_mem : gmap Z Z;
}.

Definition with_regs (f : reg → Z) (x : hart) : hart := mk_hart f (x_csrs x) (x_mem x).
Definition with_reg (r : reg) (v : Z) (x : hart) : hart :=
  if decide (r = zero) then x else with_regs (<[r := u64 v]> (x_regs x)) x.
Definition with_csr (c : csr) (v : Z) (x : hart) : hart := mk_hart (x_regs x) (<[c := v]> (x_csrs x)) (x_mem x).
Definition with_memory (m : gmap Z Z) (x : hart) : hart := mk_hart (x_regs x) (x_csrs x) m.

Definition reg_of (x : hart) (r : reg) : Z := if decide (r = zero) then 0 else x_regs x r.

(** Sv39 translation of a data access in supervisor mode, with pages of
    4096 bytes only: the three levels are walked, and the page must be
    readable (writable for a store) and not a user page. *)
Definition sv39_table (m : gmap Z Z) (table level va : Z) : option Z :=
  let pte := ld64 m (table + 8 * PX level va) in
  if has pte PTE_V && negb (has pte PTE_R || has pte PTE_W || has pte PTE_X) then Some (PTE2PA pte) else None.

Definition sv39_leaf (m : gmap Z Z) (table : Z) (store : bool) (va : Z) : option Z :=
  let pte := ld64 m (table + 8 * PX 0 va) in
  if has pte PTE_V && has pte PTE_R && (negb store || has pte PTE_W) && negb (has pte PTE_U)
  then Some (PTE2PA pte + va mod PGSIZE) else None.

Definition translate (m : gmap Z Z) (satp : Z) (store : bool) (va : Z) : option Z :=
  if satp =? 0 then Some va
  else if negb (Z.shiftr satp 60 =? 8) || negb (va <? MAXVA) then None
  else
    match sv39_table m (Z.shiftl (Z.land satp (Z.ones 44)) 12) 2 va with
    | None => None
    | Some table =>
      match sv39_table m table 1 va with
      | None => None
      | Some table => sv39_leaf m table store va
      end
    end.

(** Aligned words of RAM. *)
Definition load_word (x : hart) (a : Z) : res Z :=
  if negb (a mod 8 =? 0) then Fault
  else
    match translate (x_mem x) (x_csrs x SATP) false a with
    | Some pa => if (KERNBASE <=? pa) && (pa + 8 <=? PHYSTOP) then Ret (ld64 (x_mem x) pa) else Fault
    | None => Fault
    end.

Definition store_word (x : hart) (a v : Z) : res hart :=
  if negb (a mod 8 =? 0) then Fault
  else
    match translate (x_mem x) (x_csrs x SATP) true a with
    | Some pa => if (KERNBASE <=? pa) && (pa + 8 <=? PHYSTOP) then Ret (with_memory (st64 (x_mem x) pa v) x) else Fault
    | None => Fault
    end.

(** How a piece of code ends: at its last instruction, with a return or
    with [sret]. *)
Inductive ending := Falls | Returned (pc : Z) | Trap_returned (pc : Z).

(** Calls by name or by address. *)
Inductive target := Named (f : string) | At (a : Z).

Section exec.
Context (symbol : string → Z) (pc : list instr → Z) (call : target → hart → res hart).

Fixpoint exec (code : list instr) (x : hart) : res (ending * hart) :=
  match code with
  | [] => Ret (Falls, x)
  | i :: code =>
    match i with
    | Li rd imm => exec code (with_reg rd imm x)
    | La rd sym => exec code (with_reg rd (symbol sym) x)
    | Addi rd rs imm => exec code (with_reg rd (reg_of x rs + imm) x)
    | Add rd rs1 rs2 => exec code (with_reg rd (reg_of x rs1 + reg_of x rs2) x)
    | Mul rd rs1 rs2 => exec code (with_reg rd (reg_of x rs1 * reg_of x rs2) x)
    | Sd rs off base => x' ← store_word x (u64 (reg_of x base + off)) (reg_of x rs); exec code x'
    | Ld rd off base => v ← load_word x (u64 (reg_of x base + off)); exec code (with_reg rd v x)
    | Csrw c rs => exec code (with_csr c (reg_of x rs) x)
    | Csrr rd c => exec code (with_reg rd (x_csrs x c) x)
    | Sfence_vma => exec code x
    | Jalr rs => x' ← call (At (reg_of x rs)) (with_reg ra (pc code) x); exec code x'
    | Call f => x' ← call (Named f) (with_reg ra (pc code) x); exec code x'
    | Ret_ra => Ret (Returned (reg_of x ra), x)
    | Sret => Ret (Trap_returned (x_csrs x SEPC), x)
    end
  end.
End exec.

(** ** kernel/trampoline.S *)

Definition uservec : list instr := [
  Csrw SSCRATCH a0;
  Li a0 TRAPFRAME;
  Sd ra 40 a0;
  Sd sp 48 a0;
  Sd gp 56 a0;
  Sd tp 64 a0;
  Sd t0 72 a0;
  Sd t1 80 a0;
  Sd t2 88 a0;
  Sd s0 96 a0;
  Sd s1 104 a0;
  Sd a1 120 a0;
  Sd a2 128 a0;
  Sd a3 136 a0;
  Sd a4 144 a0;
  Sd a5 152 a0;
  Sd a6 160 a0;
  Sd a7 168 a0;
  Sd s2 176 a0;
  Sd s3 184 a0;
  Sd s4 192 a0;
  Sd s5 200 a0;
  Sd s6 208 a0;
  Sd s7 216 a0;
  Sd s8 224 a0;
  Sd s9 232 a0;
  Sd s10 240 a0;
  Sd s11 248 a0;
  Sd t3 256 a0;
  Sd t4 264 a0;
  Sd t5 272 a0;
  Sd t6 280 a0;
  Csrr t0 SSCRATCH;
  Sd t0 112 a0;
  Ld sp 8 a0;
  Ld tp 32 a0;
  Ld t0 16 a0;
  Ld t1 0 a0;
  Sfence_vma;
  Csrw SATP t1;
  Sfence_vma;
  Jalr t0 ].

Definition userret : list instr := [
  Sfence_vma;
  Csrw SATP a0;
  Sfence_vma;
  Li a0 TRAPFRAME;
  Ld ra 40 a0;
  Ld sp 48 a0;
  Ld gp 56 a0;
  Ld tp 64 a0;
  Ld t0 72 a0;
  Ld t1 80 a0;
  Ld t2 88 a0;
  Ld s0 96 a0;
  Ld s1 104 a0;
  Ld a1 120 a0;
  Ld a2 128 a0;
  Ld a3 136 a0;
  Ld a4 144 a0;
  Ld a5 152 a0;
  Ld a6 160 a0;
  Ld a7 168 a0;
  Ld s2 176 a0;
  Ld s3 184 a0;
  Ld s4 192 a0;
  Ld s5 200 a0;
  Ld s6 208 a0;
  Ld s7 216 a0;
  Ld s8 224 a0;
  Ld s9 232 a0;
  Ld s10 240 a0;
  Ld s11 248 a0;
  Ld t3 256 a0;
  Ld t4 264 a0;
  Ld t5 272 a0;
  Ld t6 280 a0;
  Ld a0 112 a0;
  Sret ].

(** [jalr] returns to [userret], which follows [uservec]. *)
Definition trampoline : list instr := uservec ++ userret.

(** [struct trapframe] (kernel/proc.h): where a user register is. *)
Definition trapframe_offset (r : reg) : Z :=
  match r with
  | zero => 0
  | ra => 40 | sp => 48 | gp => 56 | tp => 64 | t0 => 72 | t1 => 80 | t2 => 88 | s0 => 96 | s1 => 104
  | a0 => 112 | a1 => 120 | a2 => 128 | a3 => 136 | a4 => 144 | a5 => 152 | a6 => 160 | a7 => 168
  | s2 => 176 | s3 => 184 | s4 => 192 | s5 => 200 | s6 => 208 | s7 => 216 | s8 => 224 | s9 => 232
  | s10 => 240 | s11 => 248 | t3 => 256 | t4 => 264 | t5 => 272 | t6 => 280
  end.

(** ** kernel/kernelvec.S *)

Definition kernelvec : list instr := [
  Addi sp sp (-256);
  Sd ra 0 sp;
  Sd gp 16 sp;
  Sd tp 24 sp;
  Sd t0 32 sp;
  Sd t1 40 sp;
  Sd t2 48 sp;
  Sd a0 72 sp;
  Sd a1 80 sp;
  Sd a2 88 sp;
  Sd a3 96 sp;
  Sd a4 104 sp;
  Sd a5 112 sp;
  Sd a6 120 sp;
  Sd a7 128 sp;
  Sd t3 216 sp;
  Sd t4 224 sp;
  Sd t5 232 sp;
  Sd t6 240 sp;
  Call "kerneltrap";
  Ld ra 0 sp;
  Ld gp 16 sp;
  Ld t0 32 sp;
  Ld t1 40 sp;
  Ld t2 48 sp;
  Ld a0 72 sp;
  Ld a1 80 sp;
  Ld a2 88 sp;
  Ld a3 96 sp;
  Ld a4 104 sp;
  Ld a5 112 sp;
  Ld a6 120 sp;
  Ld a7 128 sp;
  Ld t3 216 sp;
  Ld t4 224 sp;
  Ld t5 232 sp;
  Ld t6 240 sp;
  Addi sp sp 256;
  Sret ].

(** ** kernel/swtch.S *)

Definition swtch : list instr := [
  Sd ra 0 a0;
  Sd sp 8 a0;
  Sd s0 16 a0;
  Sd s1 24 a0;
  Sd s2 32 a0;
  Sd s3 40 a0;
  Sd s4 48 a0;
  Sd s5 56 a0;
  Sd s6 64 a0;
  Sd s7 72 a0;
  Sd s8 80 a0;
  Sd s9 88 a0;
  Sd s10 96 a0;
  Sd s11 104 a0;
  Ld ra 0 a1;
  Ld sp 8 a1;
  Ld s0 16 a1;
  Ld s1 24 a1;
  Ld s2 32 a1;
  Ld s3 40 a1;
  Ld s4 48 a1;
  Ld s5 56 a1;
  Ld s6 64 a1;
  Ld s7 72 a1;
  Ld s8 80 a1;
  Ld s9 88 a1;
  Ld s10 96 a1;
  Ld s11 104 a1;
  Ret_ra ].

(** [struct context] (kernel/proc.h). *)
Definition context_offset (r : reg) : option Z :=
  match r with
  | ra => Some 0 | sp => Some 8 | s0 => Some 16 | s1 => Some 24 | s2 => Some 32 | s3 => Some 40 | s4 => Some 48
  | s5 => Some 56 | s6 => Some 64 | s7 => Some 72 | s8 => Some 80 | s9 => Some 88 | s10 => Some 96 | s11 => Some 104
  | _ => None
  end.

(** ** kernel/entry.S *)

(** Up to the call of [start], which does not return. *)
Definition _entry : list instr := [
  La sp "stack0";
  Li a0 (1024 * 4);
  Csrr a1 MHARTID;
  Addi a1 a1 1;
  Mul a0 a0 a1;
  Add sp sp a0;
  Call "start" ].
