(* ===== verification/AsmSpec.v ===== *)
(** * Assembly code: saving and restoring registers *)

From stdpp Require Import functions.
From S2P Require Import Prelude Riscv Mem Vm VmSpec Machine Asm.
Import Reg.

(** Closed, decidable goals, and all elements of a concrete list. *)
Ltac decided := apply (bool_decide_unpack _); by vm_compute.
Ltac all_in_list := repeat (apply List.Forall_cons; [by vm_compute|]); apply List.Forall_nil.

Lemma csr_eq (c : csr) v (f : csrs) : (<[c := v]> f : csrs) c = v.
Proof. apply fn_lookup_insert. Qed.

Lemma csr_ne (c c' : csr) v (f : csrs) : c ≠ c' → (<[c := v]> f : csrs) c' = f c'.
Proof. apply fn_lookup_insert_ne. Qed.

(** ** Frames

    [n] bytes at the virtual address [va], mapped to RAM at [pa], whatever
    is stored in the ranges [R]. *)
Record frame (R : list (Z * Z)) (m : gmap Z Z) (satp va pa n : Z) : Prop := {
  fr_va : 0 ≤ va ∧ va + n ≤ 2 ^ 64 ∧ va mod 8 = 0;
  fr_pa : KERNBASE ≤ pa ∧ pa + n ≤ PHYSTOP;
  fr_map : ∀ m' store i, agree_except R m m' → 0 ≤ i < n → translate m' satp store (va + i) = Some (pa + i);
}.

Lemma frame_agree R m m' satp va pa n : frame R m satp va pa n → agree_except R m m' → frame R m' satp va pa n.
Proof. intros [F1 F2 F3] Ha. split; [done..|]. intros m2 st i Ha2 Hi. apply F3; [by eapply agree_trans|done]. Qed.

Definition slot (n : Z) '((_, o) : reg * Z) : Prop := 0 ≤ o ∧ o + 8 ≤ n ∧ o mod 8 = 0.

Lemma slot_align a o n r : a mod 8 = 0 → slot n (r, o) → (a + o) mod 8 = 0.
Proof. intros Ha (_ & _ & Ho). rewrite Z.add_mod, Ha, Ho by done. done. Qed.

Section frame.
Context (R : list (Z * Z)) (satp va pa n : Z).

Lemma frame_store x r o v :
  frame R (x_mem x) (x_csrs x SATP) va pa n → slot n (r, o) →
  store_word x (u64 (va + o)) v = Ret (with_memory (st64 (x_mem x) (pa + o) v) x).
Proof.
  intros [(F1 & F2 & F3) F4 F5] Hs. pose proof (slot_align va o n r F3 Hs) as Hal. destruct Hs as (S1 & S2 & _).
  unfold store_word. rewrite u64_small, Hal by lia. cbn [negb Z.eqb]. rewrite F5 by (apply agree_refl || lia).
  by rewrite (proj2 (Z.leb_le _ _)), (proj2 (Z.leb_le _ _)) by lia.
Qed.

Lemma frame_load x r o :
  frame R (x_mem x) (x_csrs x SATP) va pa n → slot n (r, o) →
  load_word x (u64 (va + o)) = Ret (ld64 (x_mem x) (pa + o)).
Proof.
  intros [(F1 & F2 & F3) F4 F5] Hs. pose proof (slot_align va o n r F3 Hs) as Hal. destruct Hs as (S1 & S2 & _).
  unfold load_word. rewrite u64_small, Hal by lia. cbn [negb Z.eqb]. rewrite F5 by (apply agree_refl || lia).
  by rewrite (proj2 (Z.leb_le _ _)), (proj2 (Z.leb_le _ _)) by lia.
Qed.
End frame.

(** ** Runs of stores and loads *)

Definition saves (l : list (reg * Z)) (b : reg) : list instr := (λ '(r, o), Sd r o b) <$> l.
Definition loads (l : list (reg * Z)) (b : reg) : list instr := (λ '(r, o), Ld r o b) <$> l.

Definition save_all (f : reg → Z) (pa : Z) (l : list (reg * Z)) (m : gmap Z Z) : gmap Z Z :=
  foldl (λ m '(r, o), st64 m (pa + o) (f r)) m l.
Definition load_all (m : gmap Z Z) (pa : Z) (l : list (reg * Z)) (f : reg → Z) : reg → Z :=
  foldl (λ f '(r, o), <[r := ld64 m (pa + o)]> f) f l.

Lemma save_all_agree f pa lo hi l : ∀ m, Forall (λ '(_, o), lo ≤ o ∧ o + 8 ≤ hi) l → agree_except [(pa + lo, hi - lo)] m (save_all f pa l m).
Proof.
  induction l as [|[r o] l IH]; intros m Hl; [apply agree_refl|]. apply list.Forall_cons in Hl as [Ho Hl]. cbn [save_all foldl].
  eapply agree_trans; [|by apply IH]. apply agree_store; [apply agree_refl|]. apply Exists_cons_hd. cbn. lia.
Qed.

(** A word that the list does not store. *)
Lemma save_all_other f pa n l : ∀ m o, Forall (slot n) l → o mod 8 = 0 → o ∉ l.*2 → ld64 (save_all f pa l m) (pa + o) = ld64 m (pa + o).
Proof.
  induction l as [|[r o'] l IH]; intros m o Hl Ho Hn; [done|]. apply list.Forall_cons in Hl as [(_ & _ & Ho') Hl].
  rewrite fmap_cons, not_elem_of_cons in Hn. destruct Hn as [Hne Hn]. cbn [save_all foldl snd] in *.
  change (ld64 (save_all f pa l (st64 m (pa + o') (f r))) (pa + o) = ld64 m (pa + o)). rewrite IH by done. apply ldn_stn_ne.
  pose proof (Z.div_mod o 8). pose proof (Z.div_mod o' 8). assert (o / 8 ≠ o' / 8) by lia. cbn. lia.
Qed.

Lemma save_all_saved f pa n l : ∀ m r o,
  Forall (slot n) l → NoDup l.*2 → (∀ r, 0 ≤ f r < 2 ^ 64) → (r, o) ∈ l → ld64 (save_all f pa l m) (pa + o) = f r.
Proof.
  induction l as [|[r' o'] l IH]; intros m r o Hl Hd Hf Hin; [by apply not_elem_of_nil in Hin|].
  pose proof Hl as Hl'. apply list.Forall_cons in Hl as [(_ & _ & Ho') Hl].
  rewrite fmap_cons in Hd. apply list.NoDup_cons in Hd as [Hn Hd]. cbn [snd] in *. cbn [save_all foldl].
  change (ld64 (save_all f pa l (st64 m (pa + o') (f r'))) (pa + o) = f r).
  apply elem_of_cons in Hin as [E|Hin]; [|by apply IH]. simplify_eq. rewrite (save_all_other f pa n) by done. by apply ld64_st64.
Qed.

Lemma load_all_other m pa l : ∀ f r, r ∉ l.*1 → load_all m pa l f r = f r.
Proof.
  induction l as [|[r' o] l IH]; intros f r Hn; [done|]. rewrite fmap_cons, not_elem_of_cons in Hn. destruct Hn as [Hne Hn]. cbn [fst] in *.
  change (load_all m pa l (<[r' := ld64 m (pa + o)]> f) r = f r). rewrite IH by done. by apply fn_lookup_insert_ne.
Qed.

Lemma load_all_loaded m pa l : ∀ f r o, NoDup l.*1 → (r, o) ∈ l → load_all m pa l f r = ld64 m (pa + o).
Proof.
  induction l as [|[r' o'] l IH]; intros f r o Hd Hin; [by apply not_elem_of_nil in Hin|].
  rewrite fmap_cons in Hd. apply list.NoDup_cons in Hd as [Hn Hd]. cbn [fst] in *.
  change (load_all m pa l (<[r' := ld64 m (pa + o')]> f) r = ld64 m (pa + o)).
  apply elem_of_cons in Hin as [E|Hin]; [|by apply IH]. simplify_eq. rewrite load_all_other by done. apply fn_lookup_insert.
Qed.

Section exec.
Context (symbol : string → Z) (pc : list instr → Z) (call : target → hart → res hart).

Lemma exec_saves R b va pa n l : ∀ code x,
  frame R (x_mem x) (x_csrs x SATP) va pa n → Exists (λ '(a, k), a ≤ pa ∧ pa + n ≤ a + k) R → reg_of x b = va →
  Forall (slot n) l → zero ∉ l.*1 →
  exec symbol pc call (saves l b ++ code) x = exec symbol pc call code (with_memory (save_all (x_regs x) pa l (x_mem x)) x).
Proof.
  induction l as [|[r o] l IH]; intros code x Hf HR Hb Hl Hz; [by destruct x|].
  apply list.Forall_cons in Hl as [Hs Hl]. rewrite fmap_cons, not_elem_of_cons in Hz. destruct Hz as [Hz Hz']. cbn [fst] in Hz.
  change (saves ((r, o) :: l) b) with (Sd r o b :: saves l b). rewrite <-app_comm_cons. cbn [exec]. rewrite Hb, (frame_store R va pa n x r o _ Hf Hs). rewrite res_bind_Ret.
  unfold reg_of at 1. rewrite decide_False by done. set (x1 := with_memory _ x). change (reg_of x b) with (reg_of x1 b) in Hb.
  rewrite (IH code x1); [done| |done|done|done|done]. eapply frame_agree; [exact Hf|]. apply agree_store; [apply agree_refl|].
  destruct Hs as (S1 & S2 & _). eapply List.Exists_impl; [|exact HR]. intros [a k] ?. cbn. lia.
Qed.

Lemma exec_loads R b va pa n l : ∀ code x,
  frame R (x_mem x) (x_csrs x SATP) va pa n → reg_of x b = va → Forall (slot n) l → zero ∉ l.*1 → b ∉ l.*1 →
  exec symbol pc call (loads l b ++ code) x = exec symbol pc call code (with_regs (load_all (x_mem x) pa l (x_regs x)) x).
Proof.
  induction l as [|[r o] l IH]; intros code x Hf Hb Hl Hz Hbl; [by destruct x|].
  apply list.Forall_cons in Hl as [Hs Hl]. rewrite fmap_cons, not_elem_of_cons in Hz, Hbl. destruct Hz as [Hz Hz'], Hbl as [Hb1 Hb2]. cbn [fst] in *.
  change (loads ((r, o) :: l) b) with (Ld r o b :: loads l b). rewrite <-app_comm_cons. cbn [exec]. rewrite Hb, (frame_load R va pa n x r o Hf Hs). rewrite res_bind_Ret.
  unfold with_reg. rewrite decide_False by done. rewrite (u64_small (ld64 _ _)) by apply ld64_range.
  set (x1 := with_regs _ x). rewrite (IH code x1); [done|exact Hf| |done|done|done].
  rewrite <-Hb. unfold reg_of, x1, with_regs. cbn [x_regs]. case_decide; [done|]. by apply fn_lookup_insert_ne.
Qed.

(** ** kernel/trampoline.S *)

(** The registers in the order in which the code stores and loads them. *)
Definition user_regs : list reg :=
  [ra; sp; gp; tp; t0; t1; t2; s0; s1; a1; a2; a3; a4; a5; a6; a7; s2; s3; s4; s5; s6; s7; s8; s9; s10; s11; t3; t4; t5; t6].
Definition user_slots : list (reg * Z) := (λ r, (r, trapframe_offset r)) <$> user_regs.

Lemma uservec_eq : uservec =
  [Csrw SSCRATCH a0; Li a0 TRAPFRAME] ++ saves user_slots a0 ++ Csrr t0 SSCRATCH :: saves [(t0, 112)] a0 ++
  loads [(sp, 8); (tp, 32); (t0, 16); (t1, 0)] a0 ++ [Sfence_vma; Csrw SATP t1; Sfence_vma; Jalr t0].
Proof. done. Qed.

Lemma userret_eq : userret =
  [Sfence_vma; Csrw SATP a0; Sfence_vma; Li a0 TRAPFRAME] ++ loads user_slots a0 ++ [Ld a0 112 a0; Sret].
Proof. done. Qed.

Lemma user_slots_ok : Forall (slot PGSIZE) user_slots.
Proof. all_in_list. Qed.

Lemma user_slots_in r : r ≠ zero → r ≠ a0 → (r, trapframe_offset r) ∈ user_slots.
Proof. intros. unfold user_slots. apply list_elem_of_fmap. exists r. split; [done|]. destruct r; try done; decided. Qed.

Definition regs_ok (x : hart) : Prop := ∀ r, 0 ≤ x_regs x r < 2 ^ 64.

(** The hart at the entry of [usertrap], from the user's state [x]. *)
Record entered (x : hart) (tf : Z) (y : hart) : Prop := {
  en_sp : x_regs y sp = ld64 (x_mem x) (tf + 8);
  en_tp : x_regs y tp = ld64 (x_mem x) (tf + 32);
  en_satp : x_csrs y SATP = ld64 (x_mem x) tf;
  en_csrs : ∀ c, c ≠ SATP → c ≠ SSCRATCH → x_csrs y c = x_csrs x c;
  en_saved : ∀ r, r ≠ zero → ld64 (x_mem y) (tf + trapframe_offset r) = x_regs x r;
  en_mem : agree_except [(tf + 40, 248)] (x_mem x) (x_mem y);
}.

(** What [uservec] stores. *)
Definition saved_user (f : reg → Z) (tf : Z) (m : gmap Z Z) : gmap Z Z :=
  st64 (save_all (<[a0 := TRAPFRAME]> f) tf user_slots m) (tf + 112) (f a0).

Lemma saved_user_agree f tf m : agree_except [(tf + 40, 248)] m (saved_user f tf m).
Proof.
  unfold saved_user. apply agree_store; [|apply Exists_cons_hd; cbn; lia]. apply (save_all_agree _ tf 40 288). all_in_list.
Qed.

Lemma saved_user_reg f tf m r : (∀ r, 0 ≤ f r < 2 ^ 64) → r ≠ zero → ld64 (saved_user f tf m) (tf + trapframe_offset r) = f r.
Proof.
  intros Hf Hz. unfold saved_user. destruct (decide (r = a0)) as [->|Ha]; [by apply ld64_st64|].
  rewrite ldn_stn_ne by (destruct r; cbn; try done; lia). rewrite (save_all_saved _ tf PGSIZE _ _ r).
  - by apply fn_lookup_insert_ne.
  - exact user_slots_ok.
  - decided.
  - intros r'. destruct (decide (r' = a0)) as [->|N]; [rewrite fn_lookup_insert; by vm_compute|]. by rewrite fn_lookup_insert_ne.
  - by apply user_slots_in.
Qed.

Lemma uservec_saves code x tf :
  frame [(tf, PGSIZE)] (x_mem x) (x_csrs x SATP) TRAPFRAME tf PGSIZE → regs_ok x →
  ∃ y, x_regs y a0 = TRAPFRAME ∧ x_csrs y = <[SSCRATCH := x_regs x a0]> (x_csrs x) ∧ x_mem y = saved_user (x_regs x) tf (x_mem x) ∧
    exec symbol pc call ([Csrw SSCRATCH a0; Li a0 TRAPFRAME] ++ saves user_slots a0 ++ Csrr t0 SSCRATCH :: saves [(t0, 112)] a0 ++ code) x =
    exec symbol pc call code y.
Proof.
  intros Hf Hr. cbn [app exec]. set (x1 := with_reg a0 TRAPFRAME (with_csr SSCRATCH (reg_of x a0) x)).
  assert (Hfr : Exists (λ '(a, k), a ≤ tf ∧ tf + PGSIZE ≤ a + k) [(tf, PGSIZE)]) by (apply Exists_cons_hd; lia).
  rewrite (exec_saves [(tf, PGSIZE)] a0 TRAPFRAME tf PGSIZE user_slots _ x1); [|done|done|done|exact user_slots_ok|decided].
  set (m1 := save_all (x_regs x1) tf user_slots (x_mem x1)). cbn [exec]. set (x2 := with_reg t0 _ _).
  assert (Hf2 : frame [(tf, PGSIZE)] (x_mem x2) (x_csrs x2 SATP) TRAPFRAME tf PGSIZE).
  { eapply frame_agree; [exact Hf|]. change (x_mem x2) with m1. rewrite <-(Z.add_0_r tf) at 1. apply (save_all_agree _ tf 0 PGSIZE). all_in_list. }
  rewrite (exec_saves [(tf, PGSIZE)] a0 TRAPFRAME tf PGSIZE [(t0, 112)] _ x2); [|done|done|done|all_in_list|decided].
  eexists. split; [|split; [|split; [|reflexivity]]]; [done|done|].
  change (st64 m1 (tf + 112) (u64 (x_regs x a0)) = saved_user (x_regs x) tf (x_mem x)). by rewrite u64_small.
Qed.

Lemma uservec_runs code x tf :
  frame [(tf, PGSIZE)] (x_mem x) (x_csrs x SATP) TRAPFRAME tf PGSIZE → regs_ok x →
  ∃ y, entered x tf y ∧
    exec symbol pc call (uservec ++ code) x = (z ← call (At (ld64 (x_mem x) (tf + 16))) y; exec symbol pc call code z).
Proof.
  intros Hf Hr. pose proof (saved_user_agree (x_regs x) tf (x_mem x)) as A.
  assert (Hw : ∀ o, 0 ≤ o ≤ 32 → ld64 (saved_user (x_regs x) tf (x_mem x)) (tf + o) = ld64 (x_mem x) (tf + o)).
  { intros o Ho. apply (agree_ldn _ _ _ 8 _ A). forall_list. cbn. lia. }
  set (l := [(sp, 8); (tp, 32); (t0, 16); (t1, 0)]).
  destruct (uservec_saves (loads l a0 ++ [Sfence_vma; Csrw SATP t1; Sfence_vma; Jalr t0] ++ code) x tf Hf Hr) as (y & Ea & Ec & Em & E).
  rewrite <-Em in A, Hw.
  change (uservec ++ code) with ([Csrw SSCRATCH a0; Li a0 TRAPFRAME] ++ saves user_slots a0 ++ Csrr t0 SSCRATCH :: saves [(t0, 112)] a0 ++
    loads l a0 ++ [Sfence_vma; Csrw SATP t1; Sfence_vma; Jalr t0] ++ code).
  rewrite E, (exec_loads [(tf, PGSIZE)] a0 TRAPFRAME tf PGSIZE l _ y); [| |done|all_in_list|decided|decided].
  2: { rewrite Ec, csr_ne by done. eapply frame_agree; [exact Hf|]. eapply agree_weaken; [exact A|]. unfold PGSIZE. in_ranges. }
  set (f := load_all _ _ _ _).
  assert (L : ∀ r o, (r, o) ∈ l → 0 ≤ o ≤ 32 → f r = ld64 (x_mem x) (tf + o)).
  { intros r o Hin Ho. rewrite <-Hw by done. apply load_all_loaded; [decided|done]. }
  assert (Et1 : f t1 = ld64 (x_mem x) tf) by (rewrite (L t1 0), Z.add_0_r; [done|decided|lia]).
  exists (with_reg ra (pc code) (with_csr SATP (f t1) (with_regs f y))). split; cycle 1.
  { rewrite <-(L t0 16); [done|decided|lia]. }
  assert (R : ∀ r, r ≠ ra → x_regs (with_reg ra (pc code) (with_csr SATP (f t1) (with_regs f y))) r = f r).
  { intros r Hne. unfold with_reg. rewrite decide_False by done. by apply fn_lookup_insert_ne. }
  split.
  - rewrite R by done. apply L; [decided|lia].
  - rewrite R by done. apply L; [decided|lia].
  - etransitivity; [apply csr_eq|done].
  - intros c N1 N2. etransitivity; [by apply csr_ne|]. etransitivity; [exact (f_equal (λ g : csrs, g c) Ec)|]. by apply csr_ne.
  - intros r Hz. etransitivity; [exact (f_equal (λ m, ld64 m _) Em)|]. by apply saved_user_reg.
  - exact A.
Qed.

Lemma userret_runs x tf :
  frame [(tf, PGSIZE)] (x_mem x) (x_regs x a0) TRAPFRAME tf PGSIZE →
  ∃ y, exec symbol pc call userret x = Ret (Trap_returned (x_csrs x SEPC), y) ∧
    (∀ r, r ≠ zero → x_regs y r = ld64 (x_mem x) (tf + trapframe_offset r)) ∧
    x_mem y = x_mem x ∧ x_csrs y = <[SATP := x_regs x a0]> (x_csrs x).
Proof.
  intros Hf. rewrite userret_eq. cbn [app exec]. set (x1 := with_reg a0 TRAPFRAME _).
  assert (Hf1 : frame [(tf, PGSIZE)] (x_mem x1) (x_csrs x1 SATP) TRAPFRAME tf PGSIZE).
  { change (x_csrs x1) with (<[SATP := x_regs x a0]> (x_csrs x)). by rewrite csr_eq. }
  rewrite (exec_loads [(tf, PGSIZE)] a0 TRAPFRAME tf PGSIZE user_slots _ x1 Hf1); [|done|exact user_slots_ok|decided|decided].
  set (f := load_all _ _ _ _).
  cbn [exec].
  assert (Ea : reg_of (with_regs f x1) a0 = TRAPFRAME) by (apply load_all_other; decided).
  rewrite Ea, (frame_load [(tf, PGSIZE)] TRAPFRAME tf PGSIZE _ a0 112), res_bind_Ret by (exact Hf1 || by vm_compute).
  eexists. split; [reflexivity|]. split; [|by split]. intros r Hz. unfold with_reg. rewrite decide_False by done. cbn [x_regs with_regs].
  rewrite u64_small by apply ld64_range. destruct (decide (r = a0)) as [->|Ha]; [apply fn_lookup_insert|]. rewrite fn_lookup_insert_ne by done.
  apply load_all_loaded; [decided|by apply user_slots_in].
Qed.

(** ** kernel/kernelvec.S *)

Definition kernel_slots : list (reg * Z) :=
  [(ra, 0); (gp, 16); (t0, 32); (t1, 40); (t2, 48); (a0, 72); (a1, 80); (a2, 88); (a3, 96); (a4, 104); (a5, 112);
   (a6, 120); (a7, 128); (t3, 216); (t4, 224); (t5, 232); (t6, 240)].

Definition callee_saved : list reg := [sp; s0; s1; s2; s3; s4; s5; s6; s7; s8; s9; s10; s11].

(** What the calling convention promises of a call in state [y] that
    returns in state [z], to a caller with a frame at [pa]. *)
Record preserves (va pa n : Z) (y z : hart) : Prop := {
  ps_regs : ∀ r, r ∈ callee_saved → x_regs z r = x_regs y r;
  ps_frame : frame [] (x_mem z) (x_csrs z SATP) va pa n;
  ps_mem : ∀ o, 0 ≤ o ∧ o + 8 ≤ n → ld64 (x_mem z) (pa + o) = ld64 (x_mem y) (pa + o);
}.

Lemma kernelvec_eq : kernelvec =
  Addi sp sp (-256) :: saves (take 2 kernel_slots ++ (tp, 24) :: drop 2 kernel_slots) sp ++ Call "kerneltrap" ::
  loads kernel_slots sp ++ [Addi sp sp 256; Sret].
Proof. done. Qed.

Lemma kernel_slots_in r : r ≠ zero → r ≠ tp → r ∉ callee_saved → ∃ o, (r, o) ∈ kernel_slots ∧ 0 ≤ o ∧ o + 8 ≤ 256.
Proof.
  intros N1 N2 N3. destruct r; try done; try (exfalso; apply N3; decided);
    (eexists; split; [repeat first [apply list_elem_of_here|apply list_elem_of_further]|lia]).
Qed.

Lemma callee_saved_apart r : r ∈ callee_saved → (r ∉ kernel_slots.*1) ∧ r ≠ ra.
Proof. intros H. destruct r; solve [split; [decided|done]|exfalso; revert H; apply (bool_decide_unpack (_ ∉ _)); by vm_compute]. Qed.

Lemma kernel_saved f pa m r o : (∀ r, 0 ≤ f r < 2 ^ 64) → (r, o) ∈ kernel_slots →
  ld64 (save_all f pa (take 2 kernel_slots ++ (tp, 24) :: drop 2 kernel_slots) m) (pa + o) = f r.
Proof.
  intros Hf Hin. apply (save_all_saved f pa 256); [all_in_list|decided|done|]. rewrite <-(take_drop 2 kernel_slots) in Hin.
  apply elem_of_app in Hin as [Hin|Hin]; apply elem_of_app; [by left|right]. by apply list_elem_of_further.
Qed.

(** The registers after the restore, from those after the call. *)
Lemma kernel_restored (f : reg → Z) g m pa sp0 :
  (∀ r, 0 ≤ f r < 2 ^ 64) → f sp = sp0 → (∀ r, r ∈ callee_saved → r ≠ sp → g r = f r) →
  (∀ r o, (r, o) ∈ kernel_slots → 0 ≤ o ∧ o + 8 ≤ 256 → ld64 m (pa + o) = f r) →
  ∀ r, r ≠ zero → r ≠ tp → <[sp := u64 sp0]> (load_all m pa kernel_slots g) r = f r.
Proof.
  intros Hf Hsp Hg Hm r N1 N2. destruct (decide (r = sp)) as [->|N3].
  { rewrite fn_lookup_insert, <-Hsp. by apply u64_small. }
  rewrite fn_lookup_insert_ne by done. destruct (decide (r ∈ callee_saved)) as [Hc|Hc].
  - rewrite load_all_other by by apply callee_saved_apart. by apply Hg.
  - destruct (kernel_slots_in r N1 N2 Hc) as (o & Hin & Ho). rewrite (load_all_loaded _ _ _ _ r o); [by apply Hm|decided|done].
Qed.

Lemma kernelvec_runs x pa :
  regs_ok x → 256 ≤ x_regs x sp → frame [(pa, 256)] (x_mem x) (x_csrs x SATP) (x_regs x sp - 256) pa 256 →
  (∀ y, x_regs y sp = x_regs x sp - 256 → x_csrs y = x_csrs x → frame [(pa, 256)] (x_mem y) (x_csrs y SATP) (x_regs x sp - 256) pa 256 →
    ∃ z, call (Named "kerneltrap") y = Ret z ∧ preserves (x_regs x sp - 256) pa 256 y z) →
  ∃ y z x', call (Named "kerneltrap") y = Ret z ∧ x_csrs y = x_csrs x ∧ agree_except [(pa, 256)] (x_mem x) (x_mem y) ∧
    exec symbol pc call kernelvec x = Ret (Trap_returned (x_csrs z SEPC), x') ∧
    (∀ r, r ≠ zero → r ≠ tp → x_regs x' r = x_regs x r) ∧ x_regs x' tp = x_regs z tp ∧ x_mem x' = x_mem z ∧ x_csrs x' = x_csrs z.
Proof.
  intros Hr Hsp Hf Hcall. rewrite kernelvec_eq. cbn [exec]. set (l := take 2 kernel_slots ++ (tp, 24) :: drop 2 kernel_slots).
  set (x1 := with_reg sp _ x). set (va := x_regs x sp - 256) in *.
  assert (Esp : x_regs x1 sp = va).
  { etransitivity; [apply fn_lookup_insert|]. change (u64 (x_regs x sp - 256) = va). apply u64_small. pose proof (Hr sp). lia. }
  rewrite (exec_saves [(pa, 256)] sp va pa 256 l _ x1); [|done|apply Exists_cons_hd; lia|exact Esp|all_in_list|decided].
  set (m1 := save_all (x_regs x1) pa l (x_mem x1)). cbn [exec]. set (y := with_reg ra _ _).
  assert (A : agree_except [(pa, 256)] (x_mem x) m1).
  { rewrite <-(Z.add_0_r pa) at 1. apply (save_all_agree _ pa 0 256). all_in_list. }
  assert (Hx1 : ∀ r, r ≠ sp → x_regs x1 r = x_regs x r) by (intros r N; by apply fn_lookup_insert_ne).
  assert (Hy : ∀ r, r ≠ ra → r ≠ sp → x_regs y r = x_regs x r).
  { intros r N1 N2. etransitivity; [by apply fn_lookup_insert_ne|]. by apply Hx1. }
  assert (Eysp : x_regs y sp = va) by (etransitivity; [by apply fn_lookup_insert_ne|exact Esp]).
  destruct (Hcall y Eysp eq_refl) as (z & Ez & [P1 P2 P3]); [by eapply frame_agree|]. rewrite Ez, res_bind_Ret.
  assert (Ezsp : x_regs z sp = va) by (rewrite P1 by decided; done).
  rewrite (exec_loads [] sp va pa 256 kernel_slots _ z P2); [|exact Ezsp|all_in_list|decided|decided]. cbn [exec].
  set (f := load_all _ _ _ _). exists y, z. eexists. split; [done|]. split; [done|]. split; [done|]. split; [reflexivity|].
  assert (Ef : reg_of (with_regs f z) sp = va) by (rewrite <-Ezsp; apply load_all_other; decided). rewrite Ef.
  replace (va + 256) with (x_regs x sp) by (unfold va; lia). split; [|split; [|done]].
  - intros r N1 N2. apply (kernel_restored (x_regs x) (x_regs z) (x_mem z) pa (x_regs x sp) Hr eq_refl); [| |done|done].
    + intros r' Hc N. rewrite P1 by done. apply Hy; [|done]. by apply callee_saved_apart.
    + intros r' o Hin Ho. rewrite P3 by lia. etransitivity; [apply kernel_saved; [|done]|].
      * intros r2. destruct (decide (r2 = sp)) as [->|N]; [rewrite Esp; pose proof (Hr sp); lia|]. rewrite Hx1 by done. apply Hr.
      * apply Hx1. intros ->. apply (list_elem_of_fmap_2 fst) in Hin. revert Hin. apply (bool_decide_unpack (_ ∉ _)). by vm_compute.
  - etransitivity; [by apply fn_lookup_insert_ne|]. apply load_all_other. decided.
Qed.

(** ** kernel/swtch.S *)

Definition context_slots : list (reg * Z) :=
  [(ra, 0); (sp, 8); (s0, 16); (s1, 24); (s2, 32); (s3, 40); (s4, 48); (s5, 56); (s6, 64); (s7, 72); (s8, 80);
   (s9, 88); (s10, 96); (s11, 104)].

Lemma context_slots_in r o : context_offset r = Some o ↔ (r, o) ∈ context_slots.
Proof.
  split.
  - intros E. destruct r; try done; injection E as <-; decided.
  - intros Hin. cbn in Hin. repeat (apply elem_of_cons in Hin as [[= -> ->]|Hin]; [done|]). by apply not_elem_of_nil in Hin.
Qed.

Lemma swtch_runs x po pn :
  regs_ok x → frame [(po, 112)] (x_mem x) (x_csrs x SATP) (x_regs x a0) po 112 →
  frame [(po, 112)] (x_mem x) (x_csrs x SATP) (x_regs x a1) pn 112 → po + 112 ≤ pn ∨ pn + 112 ≤ po →
  ∃ y, exec symbol pc call swtch x = Ret (Returned (ld64 (x_mem x) pn), y) ∧
    (∀ r o, context_offset r = Some o → x_regs y r = ld64 (x_mem x) (pn + o) ∧ ld64 (x_mem y) (po + o) = x_regs x r) ∧
    (∀ r, context_offset r = None → x_regs y r = x_regs x r) ∧ x_csrs y = x_csrs x ∧
    agree_except [(po, 112)] (x_mem x) (x_mem y).
Proof.
  intros Hr Ho Hn Hd. change swtch with (saves context_slots a0 ++ loads context_slots a1 ++ [Ret_ra]).
  rewrite (exec_saves [(po, 112)] a0 (x_regs x a0) po 112); [|done|apply Exists_cons_hd; lia|done|all_in_list|decided].
  set (m1 := save_all _ _ _ _).
  assert (A : agree_except [(po, 112)] (x_mem x) m1).
  { rewrite <-(Z.add_0_r po) at 1. apply (save_all_agree _ po 0 112). all_in_list. }
  rewrite (exec_loads [(po, 112)] a1 (x_regs x a1) pn 112); [|by eapply frame_agree|done|all_in_list|decided|decided].
  cbn [exec]. set (f := load_all _ _ _ _).
  assert (Ef : ∀ r o, (r, o) ∈ context_slots → f r = ld64 (x_mem x) (pn + o)).
  { intros r o Hin. unfold f. rewrite (load_all_loaded _ _ _ _ r o); [|decided|done]. apply (agree_ldn _ _ _ 8 _ A). forall_list.
    apply context_slots_in in Hin. destruct r; try done; injection Hin as <-; cbn; lia. }
  exists (with_regs f (with_memory m1 x)). split; [|split; [|split; [|by split]]].
  - rewrite <-(Z.add_0_r pn) at 1. rewrite <-(Ef ra 0) by decided. done.
  - intros r o Hc%context_slots_in. split; [by apply Ef|]. apply (save_all_saved _ po 112); [all_in_list|decided|exact Hr|done].
  - intros r Hc. apply load_all_other. intros ([r' o] & -> & Hin)%list_elem_of_fmap. apply context_slots_in in Hin. cbn in Hc. congruence.
Qed.

(** ** kernel/entry.S *)

Lemma _entry_runs x :
  0 ≤ x_csrs x MHARTID < 8 → 0 ≤ symbol "stack0" ∧ symbol "stack0" + 4096 * 8 < 2 ^ 64 →
  ∃ y, exec symbol pc call _entry x = (z ← call (Named "start") y; Ret (Falls, z)) ∧
    x_regs y sp = symbol "stack0" + (x_csrs x MHARTID + 1) * 4096 ∧ x_csrs y = x_csrs x ∧ x_mem y = x_mem x.
Proof.
  intros Hh Hs. cbn [_entry exec]. eexists. split; [reflexivity|]. split; [|done].
  etransitivity; [by apply fn_lookup_insert_ne|]. etransitivity; [apply fn_lookup_insert|].
  change (u64 (u64 (symbol "stack0") + u64 (u64 4096 * u64 (u64 (x_csrs x MHARTID) + 1))) = symbol "stack0" + (x_csrs x MHARTID + 1) * 4096).
  rewrite (u64_small (symbol _)), (u64_small 4096), (u64_small (x_csrs x MHARTID)), (u64_small (x_csrs x MHARTID + 1)) by lia.
  rewrite (u64_small (4096 * _)) by lia. rewrite u64_small by lia. lia.
Qed.
End exec.

(** ** Frames from page tables *)

Lemma has_PA2PTE pa f g : 0 ≤ pa < 2 ^ 56 → 0 ≤ g < 2 ^ 10 → has (Z.lor (PA2PTE pa) f) g = has f g.
Proof.
  intros Hpa Hg. unfold has. rewrite Z.land_lor_distr_l. replace (Z.land (PA2PTE pa) g) with 0; [done|]. symmetry. unfold PA2PTE.
  assert (Hd : 0 ≤ pa / 2 ^ 12 < 2 ^ 44) by (split; [apply Z.div_pos; lia|apply Z.div_lt_upper_bound; lia]).
  rewrite u64_small by (rewrite Z_shiftl_mul, Z_shiftr_div by lia; lia).
  apply Z_bits_inj. intros n Hn. rewrite Z.land_spec, Z.bits_0. destruct (decide (n < 10)) as [H|H].
  - by rewrite Z.shiftl_spec_low.
  - rewrite <-(Z.mod_small g (2 ^ 10)) by done. rewrite Z.mod_pow2_bits_high by lia. apply andb_false_r.
Qed.

Lemma MAKE_SATP_root root : is_page root →
  MAKE_SATP root ≠ 0 ∧ Z.shiftr (MAKE_SATP root) 60 = 8 ∧ Z.shiftl (Z.land (MAKE_SATP root) (Z.ones 44)) 12 = root.
Proof.
  intros Hp. pose proof (is_page_56 _ Hp) as H56. destruct Hp as (Hm & _ & _). unfold MAKE_SATP, SATP_SV39.
  assert (Hd : 0 ≤ root / 2 ^ 12 < 2 ^ 44) by (split; [apply Z.div_pos; lia|apply Z.div_lt_upper_bound; lia]).
  assert (E : Z.shiftr (Z.lor (Z.shiftl 8 60) (Z.shiftr root 12)) 60 = 8).
  { rewrite Z.shiftr_lor. rewrite (shiftr_small (Z.shiftr root 12)) by (rewrite ?Z_shiftr_div by lia; change (2 ^ 60) with (2 ^ 44 * 65536); lia). done. }
  split; [|split; [done|]].
  - intros E0. rewrite E0 in E. done.
  - rewrite Z.land_lor_distr_l. change (Z.land (Z.shiftl 8 60) (Z.ones 44)) with 0. rewrite Z.lor_0_l, Z.land_ones by lia.
    rewrite Z_shiftr_div, Z_shiftl_mul by lia. rewrite Z.mod_small by lia. pose proof (Z.div_mod root (2 ^ 12)). change PGSIZE with (2 ^ 12) in Hm. lia.
Qed.

Definition apart_from_tables (T : gmap (list Z) Z) (R : list (Z * Z)) : Prop :=
  ∀ k p, T !! k = Some p → Forall (λ '(a, n), p + PGSIZE ≤ a ∨ a + n ≤ p) R.

Lemma agree_tables R m m' T root : pt_rep m T root → apart_from_tables T R → agree_except R m m' →
  pt_rep m' T root ∧ ∀ va, mapping m' T va = mapping m T va.
Proof.
  intros HR HT Ha. apply pt_rep_ext; [done|]. intros k p b Hk Hb. apply (agree_ldn R m m' 1 b Ha).
  eapply Forall_impl; [|exact (HT k p Hk)]. intros [a n] ?. change (Z.of_nat 1) with 1. lia.
Qed.

(** An inner table. *)
Lemma sv39_table_rep m T root k p level va q :
  pt_rep m T root → T !! k = Some p → (length k < 2)%nat → 0 ≤ level → T !! (k ++ [PX level va]) = Some q →
  sv39_table m p level va = Some q.
Proof.
  intros HR Hk Hl Hlv Hq. pose proof (pr_entry _ _ _ HR k p (PX level va) Hk Hl (PX_range _ _ Hlv)) as E. rewrite Hq in E.
  pose proof (pr_page _ _ _ HR _ _ Hq) as Hpg. pose proof (is_page_56 _ Hpg). unfold sv39_table. rewrite E, !has_PA2PTE by done.
  cbn [andb orb negb]. rewrite PTE2PA_page; [done|done|by destruct Hpg|done].
Qed.

Lemma translate_table R m m' T root va pa st i :
  pt_rep m T root → apart_from_tables T R → agree_except R m m' → va mod PGSIZE = 0 → 0 ≤ va < MAXVA → is_page pa →
  mapping m T va = Some (new_pte va pa (Z.lor PTE_R PTE_W) va) → 0 ≤ i < PGSIZE →
  translate m' (MAKE_SATP root) st (va + i) = Some (pa + i).
Proof.
  intros HR HT Ha Hal Hva Hpa Hm Hi. destruct (agree_tables R m m' T root HR HT Ha) as [HR' Hm'].
  destruct (MAKE_SATP_root root) as (N & E60 & Er); [by eapply pr_page; [|apply HR]|].
  assert (Epg : (va + i) / PGSIZE = va / PGSIZE) by (apply page_range; [done|lia]).
  assert (EP : ∀ l, 0 ≤ l → PX l (va + i) = PX l va) by (intros; by apply PX_same).
  assert (Emod : (va + i) mod PGSIZE = i).
  { rewrite Z.add_mod, Hal, Z.add_0_l, Zmod_mod by done. by apply Z.mod_small. }
  assert (HM : va + i < MAXVA).
  { assert (MAXVA = 67108864 * 4096) as EM by done. pose proof (Z.div_mod va PGSIZE). unfold PGSIZE in *. lia. }
  rewrite <-Hm' in Hm. unfold mapping in Hm. destruct (T !! [PX 2 va; PX 1 va]) as [p0|] eqn:E0; [|done]. cbv zeta in Hm.
  destruct (has (ld64 m' (p0 + 8 * PX 0 va)) PTE_V) eqn:HV; [|done]. injection Hm as Hm.
  destruct (proj1 (pr_closed _ _ _ HR' [PX 2 va] (PX 1 va) (mk_is_Some _ _ E0))) as [p1 E1].
  unfold translate. rewrite (proj2 (Z.eqb_neq _ _) N), E60, (proj2 (Z.ltb_lt _ _) HM), Er. cbn [Z.eqb negb orb].
  rewrite (sv39_table_rep m' T root [] root 2 (va + i) p1 HR' (pr_root _ _ _ HR')) by (cbn; rewrite ?EP by done; (done || lia)).
  rewrite (sv39_table_rep m' T root [PX 2 va] p1 1 (va + i) p0 HR' E1) by (cbn; rewrite ?EP by done; (done || lia)).
  unfold sv39_leaf. rewrite EP, Hm, Emod by done. unfold new_pte.
  assert (PGROUNDDOWN va = va) as Erd by (rewrite PGROUNDDOWN_div; pose proof (Z.div_mod va PGSIZE); unfold PGSIZE in *; lia).
  rewrite Erd, Z.sub_diag, Z.add_0_r, <-Z.lor_assoc. pose proof (is_page_56 _ Hpa). rewrite !has_PA2PTE by done.
  rewrite PTE2PA_page; [by destruct st|done|by destruct Hpa|done].
Qed.

(** A page that is mapped readable and writable for the kernel only. *)
Lemma table_frame R m T root va pa :
  pt_rep m T root → apart_from_tables T R → va mod PGSIZE = 0 → 0 ≤ va < MAXVA → is_page pa →
  mapping m T va = Some (new_pte va pa (Z.lor PTE_R PTE_W) va) → frame R m (MAKE_SATP root) va pa PGSIZE.
Proof.
  intros HR HT Hal Hva Hpa Hm. split.
  - split; [lia|]. assert (MAXVA = 274877906944) as E by done. unfold PGSIZE in *. split; [lia|]. pose proof (Z.div_mod va 4096). 
    replace va with (va / 4096 * 512 * 8) by lia. apply Z.mod_mul. done.
  - destruct Hpa. unfold PGSIZE in *. lia.
  - intros m' st i Ha Hi. by apply (translate_table R m m' T).
Qed.
