(* ===== verification/Console.v ===== *)
(** * The serial line, kernel messages and the console (kernel/uart.c,
    kernel/printf.c, kernel/console.c)

    The code runs on hart [h].  A loop that polls the UART is cut off after
    [spin] rounds; how many rounds it takes depends on the device.  Calls
    that sleep are cut there and return what they need to go on: [uartwrite]
    the bytes that are left, [consolewrite] and [consoleread] their local
    variables. *)

From S2P Require Import Prelude Spinlock Riscv Mem Vm FsState Fs Pipe Proc Printf Machine.

(** ** Registers of the UART *)

Definition RHR : Z := 0.
Definition THR : Z := 0.
Definition IER : Z := 1.
Definition IER_RX_ENABLE : Z := Z.shiftl 1 0.
Definition IER_TX_ENABLE : Z := Z.shiftl 1 1.
Definition FCR : Z := 2.
Definition FCR_FIFO_ENABLE : Z := Z.shiftl 1 0.
Definition FCR_FIFO_CLEAR : Z := Z.shiftl 3 1.
Definition ISR : Z := 2.
Definition LCR : Z := 3.
Definition LCR_EIGHT_BITS : Z := Z.shiftl 3 0.
Definition LCR_BAUD_LATCH : Z := Z.shiftl 1 7.
Definition LSR : Z := 5.
Definition LSR_RX_READY : Z := Z.shiftl 1 0.
Definition LSR_TX_IDLE : Z := Z.shiftl 1 5.

Definition Reg (reg : Z) : Z := UART0 + reg.

(** ** Control characters *)

Definition BACKSPACE : Z := 0x100.
Definition C (x : Z) : Z := x - zchar "@".
Definition newline : Z := 10.
Definition carriage_return : Z := 13.
Definition delete : Z := 127.
Definition back : Z := 8.

Section console.
Context {D : Type} `{Bus D} (h spin : nat).
Abbreviation Mm := (M (machine D)).

Definition ReadReg (reg : Z) : Mm Z := load_reg8 (Reg reg).
Definition WriteReg (reg v : Z) : Mm unit := store_reg8 (Reg reg) v.

(** ** kernel/uart.c *)

Definition uartinit : Mm unit :=
  WriteReg IER 0x00;;
  WriteReg LCR LCR_BAUD_LATCH;;
  WriteReg 0 0x03;;
  WriteReg 1 0x00;;
  WriteReg LCR LCR_EIGHT_BITS;;
  WriteReg FCR (Z.lor FCR_FIFO_ENABLE FCR_FIFO_CLEAR);;
  WriteReg IER (Z.lor IER_TX_ENABLE IER_RX_ENABLE);;
  initlock_m uart_lock "uart".

Definition set_tx_busy (b : Z) : Mm unit :=
  modify (λ s, with_uart (mk_uart (tx_lock (m_uart s)) b) s).

(** The loop of [uartwrite] with [tx_lock] held; [Some (l, b)]: it sleeps
    with the bytes [l] left and the saved interrupt state [b]. *)
Fixpoint uartwrite_loop (buf : list Z) : Mm (option (list Z * bool)) :=
  match buf with
  | [] =>
    release_m h uart_lock;;
    mret None
  | c :: buf' =>
    s ← get;
    if negb (tx_busy (m_uart s) =? 0) then
      b ← sleep_on h CUart uart_lock;
      mret (Some (buf, b))
    else
      WriteReg THR c;;
      set_tx_busy 1;;
      uartwrite_loop buf'
  end.

Definition uartwrite (buf : list Z) : Mm (option (list Z * bool)) :=
  acquire_m h uart_lock;;
  uartwrite_loop buf.

(** [while((ReadReg(LSR) & LSR_TX_IDLE) == 0);] *)
Fixpoint wait_tx_idle (fuel : nat) : Mm unit :=
  match fuel with
  | O => out_of_fuel
  | S fuel =>
    v ← ReadReg LSR;
    if Z.land v LSR_TX_IDLE =? 0 then wait_tx_idle fuel else mret tt
  end.

Definition uartputc_sync (c : Z) : Mm unit :=
  s ← get;
  (if panicking (m_printer s) =? 0 then in_kernel (push_off h) else mret tt);;
  if negb (panicked (m_printer s) =? 0) then block
  else
    wait_tx_idle spin;;
    WriteReg THR c;;
    s ← get;
    if panicking (m_printer s) =? 0 then in_kernel (pop_off h) else mret tt.

Definition uartgetc : Mm Z :=
  v ← ReadReg LSR;
  if negb (Z.land v LSR_RX_READY =? 0) then ReadReg RHR else mret (-1).

(** ** Output of the kernel *)

Definition consputc (c : Z) : Mm unit :=
  if c =? BACKSPACE then
    uartputc_sync back;; uartputc_sync (zchar " ");; uartputc_sync back
  else uartputc_sync c.

Fixpoint consputs (l : list Z) : Mm unit :=
  match l with
  | [] => mret tt
  | c :: l => consputc c;; consputs l
  end.

Definition printf (fmt : list Z) (ap : list arg) : Mm Z :=
  s ← get;
  (if panicking (m_printer s) =? 0 then acquire_m h print_lock else mret tt);;
  out ← lift (printf_chars digits fmt ap);
  consputs out;;
  s ← get;
  (if panicking (m_printer s) =? 0 then release_m h print_lock else mret tt);;
  mret 0.

(** [panic] up to its endless loop. *)
Definition panic_message (msg : list Z) : Mm unit :=
  modify (λ s, with_printer (mk_printer (pr_lock (m_printer s)) 1 (panicked (m_printer s))) s);;
  printf (zstr "panic: ") [];;
  printf (zstr "%s" ++ [newline]) [AStr (Some msg)];;
  modify (λ s, with_printer (mk_printer (pr_lock (m_printer s)) (panicking (m_printer s)) 1) s).

Definition printfinit : Mm unit := initlock_m print_lock "pr".

Fixpoint procdump_loop (l : list (Z * string * list Z)) : Mm unit :=
  match l with
  | [] => mret tt
  | (pid, state, name) :: l =>
    printf (zstr "%d %s %s") [AInt pid; AStr (Some (zstr state)); AStr (Some name)];;
    printf [newline] [];;
    procdump_loop l
  end.

Definition procdump_print : Mm unit :=
  printf [newline] [];;
  s ← get;
  procdump_loop (procdump (n_procs (m_kernel s))).

(** ** kernel/console.c *)

Definition modify_cons (f : console → console) : Mm unit := modify (λ s, with_cons (f (m_cons s)) s).

Definition cons_with_r (r : Z) (c : console) : console := mk_console (cs_lock c) (cs_buf c) r (cs_w c) (cs_e c).
Definition cons_with_w (w : Z) (c : console) : console := mk_console (cs_lock c) (cs_buf c) (cs_r c) w (cs_e c).
Definition cons_with_e (e : Z) (c : console) : console := mk_console (cs_lock c) (cs_buf c) (cs_r c) (cs_w c) e.
Definition cons_store (i x : Z) (c : console) : console :=
  mk_console (cs_lock c) (<[i := x]> (cs_buf c)) (cs_r c) (cs_w c) (cs_e c).

(** A user or kernel address as the source or target of a copy. *)
Definition console_copyin (user_src : bool) (i : nat) (a n : Z) : Mm (list Z * Z) :=
  in_kernel (run_as h i
    (if user_src then user_copyin a n else l ← in_vm (load_bytes (Z.to_nat n) a); mret (l, 0))).

Definition console_copyout (user_dst : bool) (i : nat) (a c : Z) : Mm Z :=
  in_kernel (run_as h i (either_copyout user_copyout (if user_dst then ToUser a else ToKernel a) 0 [c])).

(** How a call of [consolewrite] stops: with its result, or asleep in
    [uartwrite] with the bytes [l] of the batch of [nn] at [i] left. *)
Inductive write_state :=
  | Wrote (r : Z)
  | WriteAsleep (i nn : Z) (l : list Z) (intena : bool).

Fixpoint consolewrite_loop (fuel : nat) (user_src : bool) (src n i : Z) : Mm write_state :=
  match fuel with
  | O => out_of_fuel
  | S fuel =>
    if i <? n then
      let nn := if n - i <? 32 then n - i else 32 in
      p ← in_kernel (cur h);
      '(l, r) ← console_copyin user_src p (u64 (src + i)) nn;
      if r =? -1 then mret (Wrote i)
      else
        w ← uartwrite l;
        match w with
        | Some (l, b) => mret (WriteAsleep i nn l b)
        | None => consolewrite_loop fuel user_src src n (i + nn)
        end
    else mret (Wrote i)
  end.

Definition consolewrite_from (user_src : bool) (src n i : Z) : Mm write_state :=
  consolewrite_loop (S (Z.to_nat (n - i))) user_src src n i.

Definition consolewrite (user_src : bool) (src n : Z) : Mm write_state := consolewrite_from user_src src n 0.

(** Process [p] goes on in [uartwrite]. *)
Definition consolewrite_resume (p : nat) (user_src : bool) (src n i nn : Z) (l : list Z) (b : bool) : Mm write_state :=
  resume_on h p b uart_lock;;
  w ← uartwrite_loop l;
  match w with
  | Some (l, b) => mret (WriteAsleep i nn l b)
  | None => consolewrite_from user_src src n (i + nn)
  end.

(** How a call of [consoleread] stops: with its result, or asleep with
    [dst] and [n]. *)
Inductive read_state :=
  | Got (r : Z)
  | ReadAsleep (dst n : Z) (intena : bool).

Definition read_end (target n : Z) : Mm read_state :=
  release_m h cons_lock;;
  mret (Got (s32 (target - n))).

(** The loop of [consoleread], with [cons.lock] held. *)
Fixpoint consoleread_loop (fuel : nat) (user_dst : bool) (target dst n : Z) : Mm read_state :=
  match fuel with
  | O => out_of_fuel
  | S fuel =>
    if 0 <? n then
      s ← get;
      let co := m_cons s in
      if cs_r co =? cs_w co then
        p ← in_kernel (cur h);
        k ← in_kernel (killed h p);
        if negb (k =? 0) then
          release_m h cons_lock;;
          mret (Got (-1))
        else
          b ← sleep_on h CCons cons_lock;
          mret (ReadAsleep dst n b)
      else
        let c := byte_at (cs_buf co) (cs_r co mod INPUT_BUF_SIZE) in
        modify_cons (cons_with_r (u32 (cs_r co + 1)));;
        if c =? C (zchar "D") then
          (if n <? target then modify_cons (λ co, cons_with_r (u32 (cs_r co - 1)) co) else mret tt);;
          read_end target n
        else
          p ← in_kernel (cur h);
          r ← console_copyout user_dst p dst c;
          if r =? -1 then read_end target n
          else if c =? newline then read_end target (n - 1)
          else consoleread_loop fuel user_dst target (u64 (dst + 1)) (n - 1)
    else read_end target n
  end.

Definition consoleread_from (user_dst : bool) (target dst n : Z) : Mm read_state :=
  consoleread_loop (S (Z.to_nat n)) user_dst target dst n.

Definition consoleread (user_dst : bool) (dst n : Z) : Mm read_state :=
  acquire_m h cons_lock;;
  consoleread_from user_dst (u32 n) dst n.

Definition consoleread_resume (p : nat) (user_dst : bool) (target dst n : Z) (b : bool) : Mm read_state :=
  resume_on h p b cons_lock;;
  consoleread_from user_dst target dst n.

(** Control-U: erase the line. *)
Fixpoint kill_line (fuel : nat) : Mm unit :=
  match fuel with
  | O => out_of_fuel
  | S fuel =>
    s ← get;
    let co := m_cons s in
    if negb (cs_e co =? cs_w co) &&
       negb (byte_at (cs_buf co) (u32 (cs_e co - 1) mod INPUT_BUF_SIZE) =? newline) then
      modify_cons (cons_with_e (u32 (cs_e co - 1)));;
      consputc BACKSPACE;;
      kill_line fuel
    else mret tt
  end.

Definition erase_char : Mm unit :=
  s ← get;
  let co := m_cons s in
  if negb (cs_e co =? cs_w co) then
    modify_cons (cons_with_e (u32 (cs_e co - 1)));;
    consputc BACKSPACE
  else mret tt.

Definition add_char (c : Z) : Mm unit :=
  s ← get;
  let co := m_cons s in
  if negb (c =? 0) && (u32 (cs_e co - cs_r co) <? INPUT_BUF_SIZE) then
    let c := if c =? carriage_return then newline else c in
    consputc c;;
    modify_cons (λ co, cons_with_e (u32 (cs_e co + 1)) (cons_store (cs_e co mod INPUT_BUF_SIZE) (u8 c) co));;
    s ← get;
    let co := m_cons s in
    if (c =? newline) || (c =? C (zchar "D")) || (u32 (cs_e co - cs_r co) =? INPUT_BUF_SIZE) then
      modify_cons (cons_with_w (cs_e co));;
      in_kernel (wakeup h (Some CCons))
    else mret tt
  else mret tt.

Definition consoleintr (c : Z) : Mm unit :=
  acquire_m h cons_lock;;
  (if c =? C (zchar "P") then procdump_print
   else if c =? C (zchar "U") then
     s ← get;
     kill_line (S (Z.to_nat (u32 (cs_e (m_cons s) - cs_w (m_cons s)))))
   else if (c =? C (zchar "H")) || (c =? delete) then erase_char
   else add_char c);;
  release_m h cons_lock.

(** The input loop of [uartintr]. *)
Fixpoint uartintr_loop (fuel : nat) : Mm unit :=
  match fuel with
  | O => out_of_fuel
  | S fuel =>
    c ← uartgetc;
    if c =? -1 then mret tt
    else
      consoleintr c;;
      uartintr_loop fuel
  end.

Definition uartintr : Mm unit :=
  ReadReg ISR;;
  acquire_m h uart_lock;;
  v ← ReadReg LSR;
  (if negb (Z.land v LSR_TX_IDLE =? 0) then
     set_tx_busy 0;;
     in_kernel (wakeup h (Some CUart))
   else mret tt);;
  release_m h uart_lock;;
  uartintr_loop spin.

(** The entry of the console in the device table is the pair of
    [consoleread] and [consolewrite]. *)
Definition consoleinit : Mm unit :=
  initlock_m cons_lock "cons";;
  uartinit.
End console.
