(* ===== verification/ConsoleSpec.v ===== *)
(** * The console: an edited line, a queue of finished lines, and reading *)

From S2P Require Import Prelude Spinlock Riscv Mem KString Vm VmSpec VmCopy FsState Bio Log Fs Pipe PipeSpec Proc ProcSpec Printf PrintfSpec Machine MachineSpec Console.

(** ** The ring buffer *)

(** [l] is in the buffer from index [i] on. *)
Definition in_ring (b : gmap Z Z) (i : Z) (l : list Z) : Prop :=
  ∀ k x, l !! k = Some x → byte_at b ((i + Z.of_nat k) mod INPUT_BUF_SIZE) = x.

Lemma u32_mod_ring x : (u32 x) mod INPUT_BUF_SIZE = x mod INPUT_BUF_SIZE.
Proof.
  unfold u32, INPUT_BUF_SIZE. change (2 ^ 32) with (128 * 33554432). rewrite Z.rem_mul_r by lia.
  rewrite (Z.mul_comm 128 (_ mod _)), Z.mod_add, Z.mod_mod by lia. done.
Qed.

Lemma ring_inj a i j : 0 ≤ i < INPUT_BUF_SIZE → 0 ≤ j < INPUT_BUF_SIZE → (a + i) mod INPUT_BUF_SIZE = (a + j) mod INPUT_BUF_SIZE → i = j.
Proof.
  unfold INPUT_BUF_SIZE. intros Hi Hj E. pose proof (Z.div_mod (a + i) 128). pose proof (Z.div_mod (a + j) 128). lia.
Qed.

Lemma in_ring_app b i l1 l2 : in_ring b i (l1 ++ l2) ↔ in_ring b i l1 ∧ in_ring b (i + Z.of_nat (length l1)) l2.
Proof.
  split.
  - intros Hr. split; intros k x Hk.
    + apply Hr. by apply lookup_app_l_Some.
    + specialize (Hr (length l1 + k)%nat x). rewrite lookup_app_r in Hr by lia. replace (length l1 + k - length l1)%nat with k in Hr by lia.
      rewrite <-(Hr Hk). f_equal. f_equal. lia.
  - intros [H1 H2] k x Hk. apply lookup_app_Some in Hk as [Hk|[Hle Hk]]; [by apply H1|].
    rewrite <-(H2 _ x Hk). f_equal. f_equal. lia.
Qed.

Lemma in_ring_store b i l x : Z.of_nat (length l) < INPUT_BUF_SIZE → in_ring b i l →
  in_ring (<[(i + Z.of_nat (length l)) mod INPUT_BUF_SIZE := x]> b) i (l ++ [x]).
Proof.
  intros Hl Hr k y Hk. apply lookup_app_Some in Hk as [Hk|[Hle Hk]].
  - rewrite byte_at_insert_ne; [by apply Hr|]. apply lookup_lt_Some in Hk. intros E. apply ring_inj in E; lia.
  - apply list_lookup_singleton_Some in Hk as [E <-]. replace k with (length l) by lia. by rewrite byte_at_insert_eq.
Qed.

Lemma in_ring_u32 b i l : in_ring b (u32 i) l ↔ in_ring b i l.
Proof.
  split; intros Hr k x Hk; rewrite <-(Hr k x Hk); f_equal.
  - by rewrite <-Zplus_mod_idemp_l, <-(u32_mod_ring i), Zplus_mod_idemp_l.
  - by rewrite <-Zplus_mod_idemp_l, u32_mod_ring, Zplus_mod_idemp_l.
Qed.

(** ** The contents of the console *)

(** [q] are the characters of finished lines that were not read, [line]
    the characters that can still be edited. *)
Record cons_ok (co : console) (q line : list Z) : Prop := {
  ck_range : 0 ≤ cs_r co < 2 ^ 32 ∧ 0 ≤ cs_w co < 2 ^ 32 ∧ 0 ≤ cs_e co < 2 ^ 32;
  ck_w : cs_w co = u32 (cs_r co + Z.of_nat (length q));
  ck_e : cs_e co = u32 (cs_w co + Z.of_nat (length line));
  ck_size : Z.of_nat (length q + length line) ≤ INPUT_BUF_SIZE;
  ck_ring : in_ring (cs_buf co) (cs_r co) (q ++ line);
  ck_line : newline ∉ line;
}.

(** What a character does. *)
Definition type_char (c : Z) (q line : list Z) : list Z * list Z :=
  if c =? C (zchar "P") then (q, line)
  else if c =? C (zchar "U") then (q, [])
  else if (c =? C (zchar "H")) || (c =? delete) then (q, take (length line - 1) line)
  else if negb (c =? 0) && (Z.of_nat (length q + length line) <? INPUT_BUF_SIZE) then
    let c := if c =? carriage_return then newline else c in
    if (c =? newline) || (c =? C (zchar "D")) || (Z.of_nat (length q + length line) + 1 =? INPUT_BUF_SIZE)
    then (q ++ line ++ [c], []) else (q, line ++ [c])
  else (q, line).

(** The characters it sends back. *)
Definition sent_for (c : Z) : list Z := if c =? BACKSPACE then [back; zchar " "; back] else [u8 c].

Definition echo (c : Z) (q line : list Z) : list Z :=
  if c =? C (zchar "U") then concat (replicate (length line) (sent_for BACKSPACE))
  else if (c =? C (zchar "H")) || (c =? delete) then (if bool_decide (line = []) then [] else sent_for BACKSPACE)
  else if negb (c =? 0) && (Z.of_nat (length q + length line) <? INPUT_BUF_SIZE) then
    [if c =? carriage_return then newline else c]
  else [].

Lemma u32_sub a b : 0 ≤ a < 2 ^ 32 → 0 ≤ b < 2 ^ 32 → u32 (u32 (a + b) - a) = b.
Proof. intros Ha Hb. unfold u32. rewrite Zminus_mod_idemp_l. replace (a + b - a) with b by lia. by apply Z.mod_small. Qed.

Section facts.
Context (co : console) (q line : list Z) (Hok : cons_ok co q line).

Lemma cons_queue_length : u32 (cs_w co - cs_r co) = Z.of_nat (length q).
Proof. destruct Hok as [(? & ? & ?) -> _ Hs _ _]. apply u32_sub; unfold INPUT_BUF_SIZE in Hs; lia. Qed.

Lemma cons_line_length : u32 (cs_e co - cs_w co) = Z.of_nat (length line).
Proof. destruct Hok as [(? & ? & ?) _ -> Hs _ _]. apply u32_sub; unfold INPUT_BUF_SIZE in Hs; lia. Qed.

Lemma cons_total : cs_e co = u32 (cs_r co + Z.of_nat (length q + length line)).
Proof. destruct Hok as [_ Ew -> _ _ _]. rewrite Ew. unfold u32. rewrite Zplus_mod_idemp_l. f_equal. lia. Qed.

Lemma cons_total_length : u32 (cs_e co - cs_r co) = Z.of_nat (length q + length line).
Proof. rewrite cons_total. destruct Hok as [(? & ? & ?) _ _ Hs _ _]. apply u32_sub; unfold INPUT_BUF_SIZE in Hs; lia. Qed.

Lemma cons_line_empty : (cs_e co =? cs_w co) = bool_decide (line = []).
Proof.
  pose proof cons_line_length as E. destruct Hok as [(? & ? & ?) _ Ee Hs _ _]. apply eq_bool_prop_intro.
  rewrite Is_true_true, Z.eqb_eq, bool_decide_spec. split.
  - intros Ew. rewrite Ew, Z.sub_diag in E. change (u32 0) with 0 in E. destruct line; [done|]. cbn [length] in E. lia.
  - intros ->. rewrite Ee. cbn [length]. rewrite Z.add_0_r. by apply u32_small.
Qed.

Lemma cons_queue_empty : (cs_r co =? cs_w co) = bool_decide (q = []).
Proof.
  pose proof cons_queue_length as E. destruct Hok as [(? & ? & ?) Ew _ Hs _ _]. apply eq_bool_prop_intro.
  rewrite Is_true_true, Z.eqb_eq, bool_decide_spec. split.
  - intros Ew'. rewrite Ew', Z.sub_diag in E. change (u32 0) with 0 in E. destruct q; [done|]. cbn [length] in E. lia.
  - intros ->. rewrite Ew. cbn [length]. rewrite Z.add_0_r. symmetry. by apply u32_small.
Qed.

(** The last character of the line. *)
Lemma cons_last l x : line = l ++ [x] →
  byte_at (cs_buf co) (u32 (cs_e co - 1) mod INPUT_BUF_SIZE) = x ∧ cons_ok (cons_with_e (u32 (cs_e co - 1)) co) q l.
Proof.
  intros El. pose proof cons_total as Et. destruct Hok as [Hr Ew Ee Hs Hri Hn]. subst line. rewrite length_app in *. cbn [length] in *.
  assert (Ee' : u32 (cs_e co - 1) = u32 (cs_w co + Z.of_nat (length l))).
  { rewrite Ee. unfold u32. rewrite Zminus_mod_idemp_l. f_equal. lia. }
  split.
  - rewrite Ee', u32_mod_ring, Ew, <-Zplus_mod_idemp_l, u32_mod_ring, Zplus_mod_idemp_l.
    rewrite app_assoc in Hri. rewrite <-(Hri (length (q ++ l)) x) by (by rewrite lookup_app_r, Nat.sub_diag by lia).
    rewrite length_app. do 2 f_equal. lia.
  - split; cbn; [split; [tauto|]; split; [tauto|apply u32_range]|done|done|lia| |].
    + rewrite app_assoc in Hri. by apply in_ring_app in Hri as [Hri _].
    + set_solver.
Qed.

(** A character at the end of the line. *)
Lemma cons_add c : Z.of_nat (length q + length line) < INPUT_BUF_SIZE →
  let co' := cons_with_e (u32 (cs_e co + 1)) (cons_store (cs_e co mod INPUT_BUF_SIZE) c co) in
  cs_e co' = u32 (cs_w co + Z.of_nat (length (line ++ [c]))) ∧ in_ring (cs_buf co') (cs_r co) (q ++ line ++ [c]).
Proof.
  intros Hlt. pose proof cons_total as Et. destruct Hok as [Hr Ew Ee Hs Hri Hn]. cbn. rewrite length_app. cbn [length]. split.
  - rewrite Ee. unfold u32. rewrite Zplus_mod_idemp_l. f_equal. lia.
  - rewrite Et, u32_mod_ring, app_assoc. rewrite <-length_app. apply in_ring_store; [rewrite length_app; lia|done].
Qed.
End facts.

(** ** Sending characters *)

Section uart.
Context {D : Type} `{Bus D} (sent : D → list Z) (spin : nat).

Definition after_polls (n : nat) (d : D) : D := Nat.iter n (λ d, (bus_load (Reg LSR) d).2) d.

(** What the code relies on of a UART: a load of a register sends nothing,
    a store to the transmit register sends the byte, and the transmitter is
    idle again within [spin] looks at the status register. *)
Record uart_works : Prop := {
  uw_load : ∀ a d, sent (bus_load a d).2 = sent d;
  uw_send : ∀ v d, sent (bus_store (Reg THR) v d) = sent d ++ [v];
  uw_idle : ∀ d, ∃ n, (n < spin)%nat ∧ Z.land (u8 (bus_load (Reg LSR) (after_polls n d)).1) LSR_TX_IDLE ≠ 0;
}.

Context (Hu : uart_works) (h : nat).
Implicit Types s : machine D.

(** The console variables are [co], the bytes [out] have been sent, and
    the kernel and the printer are calm at [K]. *)
Definition con s (co : console) (out : list Z) (me : option nat) (n : Z) (K : kfs * list proc * printer) : Prop :=
  m_cons s = co ∧ sent (m_dev s) = out ∧ hart_at h (m_kernel s) me n ∧ calm (m_kernel s) = K.1 ∧
  m_printer s = K.2 ∧ panicking K.2 = 0 ∧ panicked K.2 = 0.

Lemma runs_wait_idle n : ∀ fuel s co out me k K (Q : unit → machine D → Prop),
  con s co out me k K → (n < fuel)%nat → Z.land (u8 (bus_load (Reg LSR) (after_polls n (m_dev s))).1) LSR_TX_IDLE ≠ 0 →
  (∀ s', con s' co out me k K → Q tt s') → runs (wait_tx_idle fuel) s Q.
Proof.
  induction n as [|n IH]; intros fuel s co out me k K Q Hs Hf Hi HQ; (destruct fuel as [|fuel]; [lia|]); cbn [wait_tx_idle];
    pose proof (uw_load Hu (Reg LSR) (m_dev s)) as Hl; unfold ReadReg, load_reg8, load_dev;
    apply runs_bind, runs_bind; destruct (bus_load (Reg LSR) (m_dev s)) as [v d] eqn:E; (eapply runs_eq; [by rewrite E|]); apply runs_ret;
    (assert (Hs' : con (with_dev d s) co out me k K) by (destruct Hs as (? & ? & ?); split; [done|]; split; [cbn in *; congruence|done])).
  - change (after_polls 0 (m_dev s)) with (m_dev s) in Hi. rewrite E in Hi. cbn [fst] in Hi. rewrite (proj2 (Z.eqb_neq _ 0)) by done. by apply runs_ret, HQ.
  - destruct (Z.eqb_spec (Z.land (u8 v) LSR_TX_IDLE) 0); [|by apply runs_ret, HQ].
    eapply (IH fuel); [exact Hs'|lia| |exact HQ]. cbn [m_dev with_dev]. unfold after_polls in *. rewrite Nat.iter_succ_r, E in Hi. exact Hi.
Qed.

Lemma uartputc_runs s co out me k K c (Q : unit → machine D → Prop) :
  con s co out me k K → 0 ≤ k → (∀ s', con s' co (out ++ [u8 c]) me k K → Q tt s') → runs (uartputc_sync h spin c) s Q.
Proof.
  intros (E1 & E2 & Hk & Ek & Ep & E3 & E4) Hk0 HQ. unfold uartputc_sync. apply runs_bind. eapply runs_eq; [reflexivity|].
  rewrite Ep, E3, E4. cbn [Z.eqb negb]. apply runs_bind, runs_in_kernel. eapply runs_push; [done|]. intros k1 Hk1 Ek1.
  destruct (uw_idle Hu (m_dev s)) as (n & Hn & Hi). apply runs_bind.
  eapply (runs_wait_idle n spin _ co out me (k + 1) K); [|done|exact Hi|].
  { split; [done|]. split; [done|]. split; [done|]. split; [by rewrite <-Ek, <-Ek1|done]. }
  intros s2 (F1 & F2 & Hk2 & F3 & Fp & F4 & F5). apply runs_bind. unfold WriteReg, store_reg8, store_dev. apply runs_modify.
  apply runs_bind. eapply runs_eq; [reflexivity|]. cbn [m_printer with_dev]. rewrite Fp, F4. cbn [Z.eqb]. apply runs_in_kernel.
  eapply runs_pop; [exact Hk2|lia|]. intros k3 Hk3 Ek3. apply HQ. split; [done|]. split; [cbn; by rewrite (uw_send Hu), F2|].
  split; [cbn; by replace k with (k + 1 - 1) by lia|]. split; [|done]. cbn. rewrite <-F3. exact Ek3.
Qed.

Lemma consputc_runs s co out me k K c (Q : unit → machine D → Prop) :
  con s co out me k K → 0 ≤ k → (∀ s', con s' co (out ++ sent_for c) me k K → Q tt s') → runs (consputc h spin c) s Q.
Proof.
  intros Hs Hk HQ. unfold consputc, sent_for in *. destruct (c =? BACKSPACE); [|by eapply uartputc_runs].
  apply runs_bind. eapply uartputc_runs; [done|done|]. intros s1 Hs1. apply runs_bind. eapply uartputc_runs; [exact Hs1|done|]. intros s2 Hs2.
  eapply uartputc_runs; [exact Hs2|done|]. intros s3 Hs3. apply HQ. by rewrite <-!app_assoc in Hs3.
Qed.

Lemma runs_modify_cons s co out me k K g (Q : unit → machine D → Prop) :
  con s co out me k K → (∀ s', con s' (g co) out me k K → Q tt s') → runs (modify_cons g) s Q.
Proof. intros (<- & Hs) HQ. by apply runs_modify, HQ. Qed.

Lemma runs_get_cons {A} s co out me k K (f : machine D → M (machine D) A) (Q : A → machine D → Prop) :
  con s co out me k K → (m_cons s = co → runs (f s) s Q) → runs (s ← get; f s) s Q.
Proof. intros (E & _) HQ. apply runs_bind. eapply runs_eq; [reflexivity|]. by apply HQ. Qed.

(** ** Kernel messages *)

Lemma consputs_runs l : ∀ s co out me k K (Q : unit → machine D → Prop),
  con s co out me k K → 0 ≤ k → (∀ s', con s' co (out ++ concat (sent_for <$> l)) me k K → Q tt s') → runs (consputs h spin l) s Q.
Proof.
  induction l as [|c l IH]; intros s co out me k K Q Hs Hk HQ; cbn [consputs].
  - apply runs_ret, HQ. cbn. by rewrite app_nil_r.
  - apply runs_bind. eapply consputc_runs; [done|done|]. intros s1 Hs1. eapply IH; [exact Hs1|done|]. intros s' Hs'. apply HQ.
    by rewrite <-app_assoc in Hs'.
Qed.

Lemma printf_runs s co out me k K pr fmt ap l (Q : Z → machine D → Prop) :
  con s co out me k (K, pr) → 0 ≤ k → unlocked (pr_lock pr) → printf_chars digits fmt ap = Ret l →
  (∀ s', con s' co (out ++ concat (sent_for <$> l)) me k (K, pr) → Q 0 s') → runs (printf h spin fmt ap) s Q.
Proof.
  intros (E1 & E2 & Hk & Ek & Ep & E3 & E4) Hk0 Hl Hf HQ. unfold printf. apply runs_bind. eapply runs_eq; [reflexivity|]. cbn [fst snd] in *.
  rewrite Ep, E3. cbn [Z.eqb]. apply runs_bind. eapply (runs_acquire_m h print_lock); [cbn; by rewrite Ep|done|]. intros k1 Hk1 Ek1.
  set (s1 := with_kernel k1 _). set (pr1 := mk_printer (held_by h (pr_lock pr)) (panicking pr) (panicked pr)).
  assert (Hs1 : con s1 co out me (k + 1) (K, pr1)).
  { split; [done|]. split; [done|]. split; [done|]. split; [cbn; congruence|]. split; [cbn; by rewrite Ep|done]. }
  apply runs_bind. rewrite Hf. eapply runs_eq; [reflexivity|]. apply runs_bind. eapply consputs_runs; [exact Hs1|lia|].
  intros s2 (F1 & F2 & Hk2 & Fk & Fp & F3 & F4). apply runs_bind. eapply runs_eq; [reflexivity|]. cbn [fst snd] in *. rewrite Fp, F3. cbn [Z.eqb].
  apply runs_bind. eapply (runs_release_m h print_lock s2 (pr_lock pr)); [cbn; by rewrite Fp|done|exact Hk2|lia|]. intros k3 Hk3 Ek3.
  apply runs_ret, HQ. split; [done|]. split; [done|]. split; [cbn; by replace k with (k + 1 - 1) by lia|]. split; [cbn; congruence|].
  split; [|done]. cbn. rewrite Fp. by destruct pr.
Qed.

(** A line of the process list. *)
Lemma procdump_line pid state name : ∃ l, printf_chars digits (zstr "%d %s %s") [AInt pid; AStr (Some state); AStr (Some name)] = Ret l.
Proof.
  destruct (printint_spec digits (s32 pid) 10 true kernel_digits ltac:(by left)) as (l & E & _); [pose proof (s32_range pid); lia|].
  eexists. cbv -[printint digits s32 upto_nul app]. rewrite E. reflexivity.
Qed.

Lemma procdump_loop_runs ps : ∀ s co out me k K pr (Q : unit → machine D → Prop),
  con s co out me k (K, pr) → 0 ≤ k → unlocked (pr_lock pr) → (∀ s' text, con s' co (out ++ text) me k (K, pr) → Q tt s') →
  runs (procdump_loop h spin ps) s Q.
Proof.
  induction ps as [|[[pid state] name] ps IH]; intros s co out me k K pr Q Hs Hk Hl HQ; cbn [procdump_loop].
  - apply runs_ret. apply (HQ s []). by rewrite app_nil_r.
  - destruct (procdump_line pid (zstr state) name) as [l El]. apply runs_bind. eapply printf_runs; [done|done|done|exact El|]. intros s1 Hs1.
    apply runs_bind. eapply printf_runs; [exact Hs1|done|done|reflexivity|]. intros s2 Hs2. eapply IH; [exact Hs2|done|done|].
    intros s' text Hs'. eapply HQ. by rewrite <-!app_assoc in Hs'.
Qed.

Lemma procdump_runs s co out me k K pr (Q : unit → machine D → Prop) :
  con s co out me k (K, pr) → 0 ≤ k → unlocked (pr_lock pr) → (∀ s' text, con s' co (out ++ text) me k (K, pr) → Q tt s') →
  runs (procdump_print h spin) s Q.
Proof.
  intros Hs Hk Hl HQ. unfold procdump_print. apply runs_bind. eapply printf_runs; [done|done|done|reflexivity|]. intros s1 Hs1.
  apply runs_bind. eapply runs_eq; [reflexivity|]. eapply procdump_loop_runs; [exact Hs1|done|done|]. intros s' text Hs'. eapply HQ.
  by rewrite <-app_assoc in Hs'.
Qed.

(** ** Editing *)

Lemma kill_line_runs line : ∀ s co q out me k K (Q : unit → machine D → Prop),
  con s co out me k K → 0 ≤ k → cons_ok co q line →
  (∀ s' co', con s' co' (out ++ concat (replicate (length line) (sent_for BACKSPACE))) me k K → cons_ok co' q [] → cs_lock co' = cs_lock co → Q tt s') →
  runs (kill_line h spin (S (length line))) s Q.
Proof.
  induction line as [|x l IH] using rev_ind; intros s co q out me k K Q Hs Hk Hok HQ; cbn [kill_line];
    (eapply runs_get_cons; [done|]; intros ->); rewrite (cons_line_empty _ _ _ Hok).
  - rewrite bool_decide_true by done. cbn [negb andb]. apply runs_ret. eapply (HQ s co); [|done|done]. cbn. by rewrite app_nil_r.
  - rewrite bool_decide_false by (by destruct l). destruct (cons_last co q _ Hok l x eq_refl) as [El Hok'].
    assert (Hx : x ≠ newline) by (intros ->; apply (ck_line _ _ _ Hok); set_solver). rewrite El, (proj2 (Z.eqb_neq _ _)) by done. cbn [negb andb].
    apply runs_bind. eapply runs_modify_cons; [done|]. intros s1 Hs1. apply runs_bind. eapply consputc_runs; [exact Hs1|done|]. intros s2 Hs2.
    rewrite length_app, Nat.add_1_r. eapply IH; [exact Hs2|done|exact Hok'|]. intros s' co' Hs' Hc El'. eapply HQ; [|done|done].
    rewrite length_app, Nat.add_1_r. cbn [replicate concat]. by rewrite app_assoc.
Qed.

Lemma take_removelast {A} (l : list A) x : take (length (l ++ [x]) - 1) (l ++ [x]) = l.
Proof. rewrite length_app. cbn. rewrite Nat.add_sub. by rewrite take_app_length. Qed.

Lemma erase_char_runs s co q line out me k K (Q : unit → machine D → Prop) :
  con s co out me k K → 0 ≤ k → cons_ok co q line →
  (∀ s' co', con s' co' (out ++ if bool_decide (line = []) then [] else sent_for BACKSPACE) me k K →
     cons_ok co' q (take (length line - 1) line) → cs_lock co' = cs_lock co → Q tt s') →
  runs (erase_char h spin) s Q.
Proof.
  intros Hs Hk Hok HQ. unfold erase_char. eapply runs_get_cons; [done|]. intros ->. rewrite (cons_line_empty _ _ _ Hok).
  destruct line as [|x l _] using rev_ind.
  - rewrite bool_decide_true in HQ |- * by done. cbn [negb]. apply runs_ret. eapply HQ; [|done|done]. by rewrite app_nil_r.
  - rewrite bool_decide_false in HQ |- * by (by destruct l). cbn [negb]. destruct (cons_last co q _ Hok l x eq_refl) as [_ Hok'].
    apply runs_bind. eapply runs_modify_cons; [done|]. intros s1 Hs1. eapply consputc_runs; [exact Hs1|done|]. intros s2 Hs2.
    eapply HQ; [exact Hs2|by rewrite take_removelast|done].
Qed.

(** Whether the line is handed to the readers. *)
Definition commits (c : Z) (q line : list Z) : bool :=
  bool_decide ((type_char c q line).1 ≠ q).

Lemma add_char_runs s co q line out me k K c (Q : unit → machine D → Prop) :
  con s co out me k K → 0 ≤ k → cons_ok co q line → 0 ≤ c < 256 →
  c ≠ C (zchar "P") → c ≠ C (zchar "U") → c ≠ C (zchar "H") → c ≠ delete →
  (∀ s' co', con s' co' (out ++ echo c q line) me k K → cons_ok co' (type_char c q line).1 (type_char c q line).2 → cs_lock co' = cs_lock co →
     (commits c q line = true → all_awake (m_kernel s') me (Some CCons)) → Q tt s') →
  runs (add_char h spin c) s Q.
Proof.
  intros Hs Hk Hok Hc NP NU NH ND HQ. unfold add_char. eapply runs_get_cons; [done|]. intros ->.
  rewrite (cons_total_length _ _ _ Hok). unfold echo, type_char, commits in HQ. unfold type_char in HQ.
  rewrite (proj2 (Z.eqb_neq _ _) NP), (proj2 (Z.eqb_neq _ _) NU), (proj2 (Z.eqb_neq _ _) NH), (proj2 (Z.eqb_neq _ _) ND) in HQ. cbn [orb] in HQ.
  destruct (negb (c =? 0) && _) eqn:Eg.
  2:{ apply runs_ret. eapply HQ; [by rewrite app_nil_r|done|done|]. cbn [fst]. by rewrite bool_decide_false by auto. }
  apply andb_true_iff in Eg as [_ Hlt%Z.ltb_lt]. set (x := if c =? carriage_return then newline else c) in *.
  assert (Hx : 0 ≤ x < 256) by (unfold x; destruct (c =? _); [done|lia]).
  apply runs_bind. eapply consputc_runs; [done|done|]. intros s1 Hs1.
  unfold sent_for in Hs1. rewrite (proj2 (Z.eqb_neq x BACKSPACE)) in Hs1 by (unfold BACKSPACE; lia). unfold BACKSPACE in Hs1. rewrite u8_small in * by lia.
  apply runs_bind. eapply runs_modify_cons; [exact Hs1|]. cbv beta. intros s2 Hs2. destruct (cons_add co q line Hok x Hlt) as [Ee Hring].
  eapply runs_get_cons; [exact Hs2|]. intros ->. set (co' := cons_with_e _ _) in *. pose proof (ck_range _ _ _ Hok) as Hrange.
  assert (Etot : u32 (cs_e co' - cs_r co') = Z.of_nat (length q + length line) + 1).
  { change (cs_r co') with (cs_r co). rewrite Ee, (ck_w _ _ _ Hok), length_app. cbn [length].
    unfold u32. rewrite Zplus_mod_idemp_l, Zminus_mod_idemp_l. unfold INPUT_BUF_SIZE in Hlt. rewrite Z.mod_small; lia. }
  rewrite Etot. destruct (_ || _) eqn:Eb.
  - apply runs_bind. eapply runs_modify_cons; [exact Hs2|]. intros s3 (F1 & F2 & F3 & F4 & F5). apply runs_in_kernel.
    eapply runs_wake_all; [exact F3|]. intros k' Hk' Ek' Haw. eapply (HQ _ (cons_with_w (cs_e co') co')); [| |done|done].
    + split; [done|]. split; [done|]. split; [done|]. split; [cbn; by rewrite Ek'|done].
    + cbn [fst snd]. split; cbn; [pose proof (u32_range (cs_e co + 1)); tauto| | |rewrite !length_app; cbn; lia|by rewrite app_nil_r|apply not_elem_of_nil].
      * change (cs_e co') with (u32 (cs_e co + 1)) in Ee. rewrite Ee, (ck_w _ _ _ Hok), !length_app. unfold u32. rewrite Zplus_mod_idemp_l. f_equal. cbn [length]. lia.
      * rewrite Z.add_0_r. unfold u32. by rewrite Z.mod_mod.
  - apply runs_ret. rewrite !orb_false_iff in Eb. destruct Eb as [[Enl%Z.eqb_neq _] Efull%Z.eqb_neq].
    eapply (HQ _ co'); [exact Hs2| |done|cbn [fst]; by rewrite bool_decide_false by auto].
    cbn [fst snd]. split; [cbn; pose proof (u32_range (cs_e co + 1)); tauto|by apply Hok|exact Ee|rewrite length_app; cbn [length]; lia|exact Hring|].
    intros [Hin|Hin%list_elem_of_singleton]%elem_of_app; [by apply (ck_line _ _ _ Hok)|congruence].
Qed.

Definition cons_with_lock (l : spinlock) (co : console) : console := mk_console l (cs_buf co) (cs_r co) (cs_w co) (cs_e co).

Lemma cons_ok_lock co l q line : cons_ok co q line → cons_ok (cons_with_lock l co) q line.
Proof. by intros []. Qed.

(** The bytes sent for [c]: the echo, or the process list. *)
Definition answers (c : Z) (q line : list Z) (text : list Z) : Prop := c = C (zchar "P") ∨ text = echo c q line.

(** The end of the handler. *)
Lemma consoleintr_end s co l q line out me k K (P : Prop) :
  con s co out me (k + 1) K → 0 ≤ k → cons_ok co q line → cs_lock co = held_by h l → unlocked l →
  (P → all_awake (m_kernel s) me (Some CCons)) →
  runs (release_m h cons_lock) s (λ _ s', ∃ co', con s' co' out me k K ∧ cons_ok co' q line ∧ cs_lock co' = l ∧
    (P → all_awake (m_kernel s') me (Some CCons))).
Proof.
  intros (F1 & F2 & Hk & F3 & F4) Hk0 Hok El Hl Haw.
  eapply (runs_release_procs h cons_lock s l); [cbn; by rewrite F1, El|done|exact Hk|lia|]. intros k3 Hk3 Ek3 Ep3.
  exists (cons_with_lock l co). split; [|split; [by apply cons_ok_lock|split; [done|]]].
  - split; [cbn; by rewrite F1|]. split; [done|]. split; [cbn; by replace k with (k + 1 - 1) by lia|]. split; [cbn; congruence|done].
  - intros HP. intros i p Hp. apply (Haw HP i p). cbn in Hp. by rewrite <-Ep3.
Qed.

Lemma type_char_kept c q line line' : type_char c q line = (q, line') → commits c q line = false.
Proof. intros E. unfold commits. rewrite E. apply bool_decide_false. auto. Qed.

Lemma consoleintr_runs s co q line out me k K c :
  con s co out me k K → 0 ≤ k → unlocked (cs_lock co) → unlocked (pr_lock K.2) → cons_ok co q line → 0 ≤ c < 256 →
  runs (consoleintr h spin c) s (λ _ s', ∃ co' text, con s' co' (out ++ text) me k K ∧ answers c q line text ∧
    cons_ok co' (type_char c q line).1 (type_char c q line).2 ∧ cs_lock co' = cs_lock co ∧
    (commits c q line = true → all_awake (m_kernel s') me (Some CCons))).
Proof.
  intros (E1 & E2 & Hk & E3 & E4) Hk0 Hl Hpl Hok Hc. unfold consoleintr. apply runs_bind.
  eapply (runs_acquire_m h cons_lock); [cbn; by rewrite E1|done|]. intros k1 Hk1 Ek1. cbn [cons_lock lv_get lv_set].
  set (s1 := with_kernel k1 _). set (co1 := cons_with_lock (held_by h (cs_lock co)) co).
  assert (Hs1 : con s1 co1 out me (k + 1) K).
  { split; [cbn; by rewrite E1|]. split; [done|]. split; [done|]. split; [cbn; congruence|done]. }
  assert (Hok1 : cons_ok co1 q line) by (by apply cons_ok_lock).
  assert (Hend : ∀ s2 co2 text, con s2 co2 (out ++ text) me (k + 1) K → answers c q line text →
    cons_ok co2 (type_char c q line).1 (type_char c q line).2 → cs_lock co2 = cs_lock co1 →
    (commits c q line = true → all_awake (m_kernel s2) me (Some CCons)) →
    runs (release_m h cons_lock) s2 (λ _ s', ∃ co' text, con s' co' (out ++ text) me k K ∧ answers c q line text ∧
      cons_ok co' (type_char c q line).1 (type_char c q line).2 ∧ cs_lock co' = cs_lock co ∧
      (commits c q line = true → all_awake (m_kernel s') me (Some CCons)))).
  { intros s2 co2 text Hs2 Ht Hok2 El Haw. eapply runs_mono; [by eapply (consoleintr_end s2 co2 (cs_lock co))|].
    intros ? s' (co' & ? & ? & ? & ?). by exists co', text. }
  apply runs_bind. destruct (Z.eqb_spec c (C (zchar "P"))) as [EP|NP].
  { assert (Et : type_char c q line = (q, line)) by (by rewrite EP). pose proof (type_char_kept _ _ _ _ Et) as Ec. destruct K as [K pr].
    eapply procdump_runs; [exact Hs1|lia|done|]. intros s2 text Hs2. eapply (Hend s2 co1 text); [done|by left|by rewrite Et|done|by rewrite Ec]. }
  destruct (Z.eqb_spec c (C (zchar "U"))) as [EU|NU].
  { assert (Et : type_char c q line = (q, [])) by (by rewrite EU). pose proof (type_char_kept _ _ _ _ Et) as Ec.
    eapply runs_get_cons; [exact Hs1|]. intros ->. rewrite (cons_line_length _ _ _ Hok1), Nat2Z.id.
    eapply kill_line_runs; [exact Hs1|lia|exact Hok1|]. intros s2 co2 Hs2 Hok2 El2.
    eapply (Hend s2 co2); [exact Hs2|right; by rewrite EU|by rewrite Et|done|by rewrite Ec]. }
  destruct (_ || _) eqn:EH.
  { assert (Et : type_char c q line = (q, take (length line - 1) line)).
    { unfold type_char. rewrite (proj2 (Z.eqb_neq _ _) NP), (proj2 (Z.eqb_neq _ _) NU). by rewrite EH. }
    pose proof (type_char_kept _ _ _ _ Et) as Ec.
    eapply erase_char_runs; [exact Hs1|lia|exact Hok1|]. intros s2 co2 Hs2 Hok2 El2.
    eapply (Hend s2 co2); [exact Hs2| |by rewrite Et|done|by rewrite Ec]. right. unfold echo. rewrite (proj2 (Z.eqb_neq _ _) NU). by rewrite EH. }
  apply orb_false_iff in EH as [NH%Z.eqb_neq ND%Z.eqb_neq].
  eapply add_char_runs; [exact Hs1|lia|exact Hok1|done..|]. intros s2 co2 Hs2 Hok2 El2 Haw. eapply (Hend s2 co2); [done|by right|done|done|done].
Qed.
End uart.

(** * The console: reading a line *)

(** What a read of at most [n] characters takes from the queue: the
    characters, the rest of the queue, and whether the read is complete
    (or has to wait for more).  A control-D ends a read; it is consumed
    only by a read that has no characters yet. *)
Fixpoint read_line (first : bool) (n : nat) (q : list Z) : list Z * list Z * bool :=
  match n with
  | O => ([], q, true)
  | S n =>
    match q with
    | [] => ([], [], false)
    | c :: q' =>
      if c =? C (zchar "D") then ([], if first then q' else q, true)
      else if c =? newline then ([c], q', true)
      else let '(l, r, d) := read_line false n q' in (c :: l, r, d)
    end
  end.

Lemma read_line_length first n q : (length (read_line first n q).1.1 ≤ n)%nat.
Proof.
  revert first q. induction n as [|n IH]; intros first q; [done|]. destruct q as [|c q]; cbn [read_line]; [cbn; lia|].
  destruct (c =? _); [cbn; lia|]. destruct (c =? _); [cbn; lia|]. specialize (IH false q). destruct (read_line false n q) as [[l r] d]. cbn in *. lia.
Qed.

(** Taking a character from the queue, and giving it back. *)
Lemma cons_take co c q line : cons_ok co (c :: q) line →
  byte_at (cs_buf co) (cs_r co mod INPUT_BUF_SIZE) = c ∧ cons_ok (cons_with_r (u32 (cs_r co + 1)) co) q line ∧
  cons_with_r (u32 (u32 (cs_r co + 1) - 1)) (cons_with_r (u32 (cs_r co + 1)) co) = co.
Proof.
  intros [Hr Ew Ee Hs Hri Hn]. ands.
  - specialize (Hri 0%nat c eq_refl). by rewrite Z.add_0_r in Hri.
  - split; cbn; [pose proof (u32_range (cs_r co + 1)); tauto| |done|cbn in Hs; lia| |done].
    + rewrite Ew. unfold u32. rewrite Zplus_mod_idemp_l. f_equal. cbn [length]. lia.
    + apply in_ring_u32. change (c :: q) with ([c] ++ q) in Hri. rewrite <-app_assoc in Hri. by apply in_ring_app in Hri as [_ Hri].
  - unfold cons_with_r. cbn. destruct co. cbn in *. f_equal. unfold u32. rewrite Zminus_mod_idemp_l.
    replace (cs_r + 1 - 1) with cs_r by lia. apply Z.mod_small. tauto.
Qed.

Lemma view_state h st p f : view h (proc_with_state st p) f = view h p f.
Proof. done. Qed.

Lemma unview_view h p f : unview (view h p f) p = p.
Proof. by destruct p. Qed.

Section read.
Context {D : Type} `{Bus D} (h : nat) (p : nat) (pr : proc) (V : kfs) (T : gmap (list Z) Z).
Implicit Types s : machine D.

(** The process's view of the kernel with memory [m]. *)
Definition vm_at (m : gmap Z Z) : kfs := with_vm (vm_with_mem m (k_vm V)) V.

(** The process [p] runs with the console lock held. *)
Definition reading s (co : console) (m : gmap Z Z) : Prop :=
  m_cons s = co ∧ hart_at h (m_kernel s) (Some p) 1 ∧
  (∃ p', n_procs (m_kernel s) !! p = Some p' ∧ proc_with_state UNUSED p' = proc_with_state UNUSED pr) ∧
  view h pr (n_fs (m_kernel s)) = vm_at m.

Lemma view_same p' f : proc_with_state UNUSED p' = proc_with_state UNUSED pr → view h p' f = view h pr f.
Proof. intros E. by rewrite <-(view_state h UNUSED p'), <-(view_state h UNUSED pr), E. Qed.

Lemma reading_calm s s' co m : reading s co m → m_cons s' = co → hart_at h (m_kernel s') (Some p) 1 → calm (m_kernel s') = calm (m_kernel s) → reading s' co m.
Proof.
  intros (_ & _ & (p' & Hp & Ep) & Hv) Ec Hk E. split; [done|]. split; [done|]. split; [|injection E as -> _; done].
  destruct (lookup_lt_is_Some_2 (n_procs (m_kernel s')) p) as [p2 Hp2]; [by apply (ha_me _ _ _ _ Hk)|].
  exists p2. split; [done|]. destruct (calm_proc _ _ p p2 E Hp2) as (q & Hq & Eq). rewrite Eq, <-Ep. congruence.
Qed.

(** A byte for the user. *)
Lemma copyout_runs s co m a c (Q : Z → machine D → Prop) :
  reading s co m → user_ok (vm_at m) T PTE_W a 1 → 0 ≤ a < 2 ^ 64 →
  (∀ s' m', reading s' co m' → pt_rep m' T (v_pagetable (k_vm V)) → (∀ va, mapping m' T va = mapping m T va) → stored m T a [c] m' → Q 0 s') →
  runs (console_copyout h true p a c) s Q.
Proof.
  intros (Ec & Hk & (p' & Hp & Ep) & Hv) Hu Ha HQ. unfold console_copyout. apply runs_in_kernel. unfold run_as.
  apply runs_bind. eapply runs_eq; [reflexivity|]. apply runs_bind, (runs_get_proc _ p p'); [done|]. apply runs_bind.
  rewrite (view_same p' _ Ep), Hv. cbn [either_copyout]. rewrite Z.add_0_r, u64_small by done.
  destruct (runs_user_copyout (vm_at m) T a [c] (λ r f, r = 0 ∧ ∃ m', f = vm_at m' ∧ pt_rep m' T (v_pagetable (k_vm V)) ∧
    (∀ va, mapping m' T va = mapping m T va) ∧ stored m T a [c] m')) as (r & f & E & -> & m' & -> & H1 & H2 & H3); [done| |].
  { intros m' G1 G2 G3. split; [done|]. by exists m'. }
  eapply runs_eq; [unfold lift; rewrite E; reflexivity|]. apply runs_bind, runs_modify, runs_bind, (runs_modify_proc _ p p'); [done|]. apply runs_ret.
  assert (Eun : unview (vm_at m') p' = p').
  { rewrite <-(unview_view h p' (n_fs (m_kernel s))) at 2. rewrite (view_same p' _ Ep), Hv. done. }
  rewrite Eun, put_proc_same by done. apply (HQ _ m'); [|done..]. split; [done|]. split; [by destruct Hk|]. split; [by exists p'|].
  cbn. change (view h pr (vm_at m')) with (with_vm (vm_with_mem m' (k_vm (view h pr (vm_at m)))) (view h pr (vm_at m))).
  assert (Evv : view h pr (vm_at m) = vm_at m) by (by rewrite <-Hv). by rewrite Evv.
Qed.

Context (target : Z).

Lemma read_end_runs s co m l n (Q : read_state → machine D → Prop) :
  reading s co m → cs_lock co = held_by h l → unlocked l → 0 ≤ n ≤ target → target < 2 ^ 31 →
  (∀ s', m_cons s' = cons_with_lock l co → view h pr (n_fs (m_kernel s')) = vm_at m → Q (Got (target - n)) s') →
  runs (read_end h target n) s Q.
Proof.
  intros (Ec & Hk & Hp & Hv) El Hl Hn Ht HQ. unfold read_end. apply runs_bind.
  eapply (runs_release_m h cons_lock s l); [cbn; by rewrite Ec|done|exact Hk|lia|]. intros k Hk' E. apply runs_ret. unwrap.
  apply HQ; [cbn; by rewrite Ec|]. cbn. injection E as -> _. exact Hv.
Qed.

(** Where a read of [l] to [dst] leaves the console and the memory. *)
Definition read_to (q line : list Z) (lk : spinlock) (m : gmap Z Z) (dst : Z) (l : list Z) s' : Prop :=
  cs_lock (m_cons s') = lk ∧ cons_ok (m_cons s') q line ∧ ∃ m', view h pr (n_fs (m_kernel s')) = vm_at m' ∧ stored m T dst l m'.

Lemma stored_nil m a : stored m T a [] m.
Proof. split; [cbn; lia|done]. Qed.

(** The end of a read that has stored [l]. *)
Lemma read_stop s co q line lk m m0 dst l n :
  reading s co m → cons_ok co q line → cs_lock co = held_by h lk → unlocked lk → 0 ≤ n ≤ target → target < 2 ^ 31 → stored m0 T dst l m →
  runs (read_end h target n) s (λ r s', r = Got (target - n) ∧ read_to q line lk m0 dst l s').
Proof.
  intros Hs Hok El Hl Hn Ht Hst. eapply read_end_runs; [done|done|done|lia|done|]. intros s' Ec' Hv'. split; [done|]. unfold read_to.
  rewrite Ec'. split; [done|]. split; [by apply cons_ok_lock|]. by exists m.
Qed.

(** A read that finds nothing goes to sleep. *)
Lemma read_sleep s co line lk m dst n :
  reading s co m → cons_ok co [] line → cs_lock co = held_by h lk → unlocked lk → p_killed pr = 0 →
  runs (p ← in_kernel (cur h);
        k ← in_kernel (killed h p);
        if negb (k =? 0) then release_m h cons_lock;; mret (Got (-1))
        else b ← sleep_on h CCons cons_lock; mret (ReadAsleep dst n b)) s
    (λ r s', (∃ b, r = ReadAsleep dst n b) ∧ read_to [] line lk m dst [] s').
Proof.
  intros (Ec & Hk & (p' & Hp & Ep) & Hv) Hok El Hl Hkill. apply runs_bind, runs_in_kernel. eapply runs_cur; [done|]. intros k1 Hk1 Ek1.
  destruct (calm_proc _ _ p p' (eq_sym Ek1) Hp) as (p1 & Hp1 & Ep1). apply runs_bind, runs_in_kernel. cbn [m_kernel with_kernel].
  eapply (runs_killed h k1 _ _ p p1); [done|done|]. intros k2 Hk2 Ek2.
  assert (Ekill : p_killed p1 = 0) by (rewrite <-Hkill; apply (f_equal p_killed) in Ep1, Ep; cbn in Ep1, Ep; congruence).
  rewrite Ekill. cbn [Z.eqb negb]. apply runs_bind. eapply (runs_sleep_on h cons_lock _ lk); [cbn; by rewrite Ec|done|exact Hk2|].
  intros b k3 E3. apply runs_ret. split; [by exists b|]. unfold read_to. cbn. rewrite Ec. split; [done|]. split; [by apply cons_ok_lock|].
  exists m. split; [|apply stored_nil]. rewrite E3. cbn. injection Ek2 as -> _. injection Ek1 as -> _. exact Hv.
Qed.

(** The result of a read of [n] characters to [dst]. *)
Definition read_result (q line : list Z) (lk : spinlock) (m : gmap Z Z) (dst n : Z) (r : read_state) s' : Prop :=
  let '(l, q', complete) := read_line (n =? target) (Z.to_nat n) q in
  (if complete then r = Got (target - n + Z.of_nat (length l))
   else ∃ b, r = ReadAsleep (dst + Z.of_nat (length l)) (n - Z.of_nat (length l)) b) ∧ read_to q' line lk m dst l s'.

(** One more character in front. *)
Lemma read_result_cons c q line lk m m1 dst n r s' :
  0 < n ≤ target → c ≠ C (zchar "D") → c ≠ newline →
  user_range m T PTE_W dst n → (∀ va, mapping m1 T va = mapping m T va) → stored m T dst [c] m1 →
  read_result q line lk m1 (dst + 1) (n - 1) r s' → read_result (c :: q) line lk m dst n r s'.
Proof.
  intros Hn ND NN Hr Hmap Hst. unfold read_result. replace (Z.to_nat n) with (S (Z.to_nat (n - 1))) by lia. cbn [read_line].
  rewrite (proj2 (Z.eqb_neq c (C _))), (proj2 (Z.eqb_neq c newline)), (proj2 (Z.eqb_neq (n - 1) target)) by (done || lia).
  pose proof (read_line_length false (Z.to_nat (n - 1)) q) as Hlen. destruct (read_line false (Z.to_nat (n - 1)) q) as [[l q'] complete].
  cbn [fst] in Hlen. intros (Hres & El' & Hok' & m' & Hv' & Hst'). split.
  { destruct complete; [rewrite Hres; f_equal; cbn [length]; lia|]. destruct Hres as [b ->]. exists b. f_equal; cbn [length]; lia. }
  split; [done|]. split; [done|]. exists m'. split; [done|]. change (c :: l) with ([c] ++ l).
  eapply stored_app; [|exact Hmap|exact Hst|exact Hst']. eapply user_range_take; [exact Hr|]. cbn [length app]. lia.
Qed.

Lemma consoleread_loop_runs fuel : ∀ s co q line lk m dst n,
  reading s co m → cons_ok co q line → cs_lock co = held_by h lk → unlocked lk → p_killed pr = 0 →
  0 ≤ n ≤ target → target < 2 ^ 31 → n < Z.of_nat fuel → user_ok (vm_at m) T PTE_W dst n → 0 ≤ dst →
  runs (consoleread_loop h fuel true target dst n) s (read_result q line lk m dst n).
Proof.
  induction fuel as [|fuel IH]; intros s co q line lk m dst n Hs Hok El Hl Hkill Hn Ht Hf Hu Hd; [lia|]. cbn [consoleread_loop].
  destruct (Z.ltb_spec 0 n) as [Hpos|Hzero].
  2:{ assert (n = 0) by lia. subst n. eapply runs_mono; [eapply (read_stop s co q line lk m m dst []); [done|done|done|done|lia|done|apply stored_nil]|].
      intros r s' [-> Hto]. split; [f_equal; cbn; lia|done]. }
  apply runs_bind. eapply runs_eq; [reflexivity|]. pose proof Hs as (Ec & Hk & Hp & Hv). rewrite Ec, (cons_queue_empty _ _ _ Hok).
  destruct q as [|c q].
  { rewrite bool_decide_true by done. eapply runs_mono; [by eapply read_sleep|]. intros r s' [[b ->] Hto]. unfold read_result.
    replace (Z.to_nat n) with (S (Z.to_nat (n - 1))) by lia. split; [exists b; f_equal; cbn; lia|done]. }
  rewrite bool_decide_false by done. destruct (cons_take co c q line Hok) as (Eb & Hok1 & Eback). rewrite Eb. apply runs_bind, runs_modify.
  set (co1 := cons_with_r (u32 (cs_r co + 1)) co) in *. set (s1 := with_cons _ s). assert (Hs1 : reading s1 co1 m) by (split; [cbn; by rewrite Ec|done]).
  destruct (Z.eqb_spec c (C (zchar "D"))) as [ED|ND].
  - assert (Hr : ∀ q2 r s', q2 = (if n =? target then q else c :: q) → r = Got (target - n) ∧ read_to q2 line lk m dst [] s' →
      read_result (c :: q) line lk m dst n r s').
    { intros q2 r s' -> [-> Hto]. unfold read_result. replace (Z.to_nat n) with (S (Z.to_nat (n - 1))) by lia. cbn [read_line].
      rewrite (proj2 (Z.eqb_eq _ _) ED). split; [f_equal; cbn; lia|done]. }
    apply runs_bind. destruct (Z.ltb_spec n target), (Z.eqb_spec n target); try lia.
    + apply runs_modify. eapply runs_mono; [eapply (read_stop _ co (c :: q) line lk m m dst []); [|done|done|done|lia|done|apply stored_nil]|intros r s'; by apply Hr].
      split; [cbn; rewrite Ec; exact Eback|done].
    + apply runs_ret. eapply runs_mono; [eapply (read_stop s1 co1 q line lk m m dst []); [done|done|done|done|lia|done|apply stored_nil]|intros r s'; by apply Hr].
  - apply runs_bind, runs_in_kernel. eapply runs_cur; [apply Hs1|]. intros k2 Hk2 Ek2. apply runs_bind.
    pose proof (uo_range _ _ _ _ _ Hu) as Hr. pose proof (ur_hi _ _ _ _ _ Hr) as Hhi. change MAXVA with (2 ^ 38) in Hhi.
    eapply (copyout_runs _ co1 m); [eapply (reading_calm s1); [done|cbn; by rewrite Ec|done|done]| |lia|].
    { split; [apply Hu|]. eapply user_range_take; [done|lia]. }
    intros s3 m3 Hs3 Hpt Hmap Hst. cbn [Z.eqb]. destruct (Z.eqb_spec c newline) as [EN|NN].
    + eapply runs_mono; [eapply (read_stop s3 co1 q line lk m3 m dst [c]); [done|done|done|done|lia|done|done]|]. intros r s' [-> Hto]. unfold read_result.
      replace (Z.to_nat n) with (S (Z.to_nat (n - 1))) by lia. cbn [read_line]. rewrite (proj2 (Z.eqb_neq c (C _))), (proj2 (Z.eqb_eq _ _) EN) by done.
      split; [f_equal; cbn; lia|done].
    + unwrap. eapply runs_mono; [apply (IH s3 co1 q line lk m3 (dst + 1) (n - 1)); [done|done|done|done|done|lia|done|lia| |lia]|].
      { apply user_ok_drop; [lia|]. split; [exact Hpt|]. by apply (user_range_ext_map m). }
      intros r s' Hres. apply (read_result_cons c q line lk m m3); [lia|done..].
Qed.
End read.
