(* ===== verification/Virtio.v ===== *)
(** * The disk driver (kernel/virtio_disk.c, kernel/virtio.h)

    Code of hart [h].  [virtio_disk_rw] is cut where it sleeps:
    [rw_alloc] is its first loop and the submission of the request,
    [rw_wait] the wait for the end of the request and the rest. *)

From S2P Require Import Prelude Spinlock Riscv Mem KString Vm FsState Bio Proc Machine.

(** ** Constants *)

Definition VIRTIO_MMIO_MAGIC_VALUE : Z := 0x000.
Definition VIRTIO_MMIO_VERSION : Z := 0x004.
Definition VIRTIO_MMIO_DEVICE_ID : Z := 0x008.
Definition VIRTIO_MMIO_VENDOR_ID : Z := 0x00c.
Definition VIRTIO_MMIO_DEVICE_FEATURES : Z := 0x010.
Definition VIRTIO_MMIO_DRIVER_FEATURES : Z := 0x020.
Definition VIRTIO_MMIO_QUEUE_SEL : Z := 0x030.
Definition VIRTIO_MMIO_QUEUE_NUM_MAX : Z := 0x034.
Definition VIRTIO_MMIO_QUEUE_NUM : Z := 0x038.
Definition VIRTIO_MMIO_QUEUE_READY : Z := 0x044.
Definition VIRTIO_MMIO_QUEUE_NOTIFY : Z := 0x050.
Definition VIRTIO_MMIO_INTERRUPT_STATUS : Z := 0x060.
Definition VIRTIO_MMIO_INTERRUPT_ACK : Z := 0x064.
Definition VIRTIO_MMIO_STATUS : Z := 0x070.
Definition VIRTIO_MMIO_QUEUE_DESC_LOW : Z := 0x080.
Definition VIRTIO_MMIO_QUEUE_DESC_HIGH : Z := 0x084.
Definition VIRTIO_MMIO_DRIVER_DESC_LOW : Z := 0x090.
Definition VIRTIO_MMIO_DRIVER_DESC_HIGH : Z := 0x094.
Definition VIRTIO_MMIO_DEVICE_DESC_LOW : Z := 0x0a0.
Definition VIRTIO_MMIO_DEVICE_DESC_HIGH : Z := 0x0a4.

Definition VIRTIO_CONFIG_S_ACKNOWLEDGE : Z := 1.
Definition VIRTIO_CONFIG_S_DRIVER : Z := 2.
Definition VIRTIO_CONFIG_S_DRIVER_OK : Z := 4.
Definition VIRTIO_CONFIG_S_FEATURES_OK : Z := 8.

Definition VIRTIO_BLK_F_RO : Z := 5.
Definition VIRTIO_BLK_F_SCSI : Z := 7.
Definition VIRTIO_BLK_F_CONFIG_WCE : Z := 11.
Definition VIRTIO_BLK_F_MQ : Z := 12.
Definition VIRTIO_F_ANY_LAYOUT : Z := 27.
Definition VIRTIO_RING_F_INDIRECT_DESC : Z := 28.
Definition VIRTIO_RING_F_EVENT_IDX : Z := 29.

Definition VRING_DESC_F_NEXT : Z := 1.
Definition VRING_DESC_F_WRITE : Z := 2.
Definition VIRTIO_BLK_T_IN : Z := 0.
Definition VIRTIO_BLK_T_OUT : Z := 1.

Definition sizeof_virtio_blk_req : Z := 16.

(** The address of register [r]. *)
Definition R (r : Z) : Z := VIRTIO0 + r.

(** ** Updates of the structures *)

Definition disk_with_rings (a : virtq_avail) (u : virtq_used) (d : disk) : disk :=
  mk_disk (d_pages d) (d_desc d) a u (d_free d) (d_used_idx d) (d_info d) (d_ops d) (d_lock d) (d_busy d).
Definition disk_with_desc (l : list virtq_desc) (d : disk) : disk :=
  mk_disk (d_pages d) l (d_avail d) (d_used d) (d_free d) (d_used_idx d) (d_info d) (d_ops d) (d_lock d) (d_busy d).
Definition disk_with_free (l : list Z) (d : disk) : disk :=
  mk_disk (d_pages d) (d_desc d) (d_avail d) (d_used d) l (d_used_idx d) (d_info d) (d_ops d) (d_lock d) (d_busy d).
Definition disk_with_used_idx (n : Z) (d : disk) : disk :=
  mk_disk (d_pages d) (d_desc d) (d_avail d) (d_used d) (d_free d) n (d_info d) (d_ops d) (d_lock d) (d_busy d).
Definition disk_with_info (l : list info) (d : disk) : disk :=
  mk_disk (d_pages d) (d_desc d) (d_avail d) (d_used d) (d_free d) (d_used_idx d) l (d_ops d) (d_lock d) (d_busy d).
Definition disk_with_ops (l : list virtio_blk_req) (d : disk) : disk :=
  mk_disk (d_pages d) (d_desc d) (d_avail d) (d_used d) (d_free d) (d_used_idx d) (d_info d) l (d_lock d) (d_busy d).
Definition disk_with_lock (l : spinlock) (d : disk) : disk :=
  mk_disk (d_pages d) (d_desc d) (d_avail d) (d_used d) (d_free d) (d_used_idx d) (d_info d) (d_ops d) l (d_busy d).
Definition disk_with_busy (l : list Z) (d : disk) : disk :=
  mk_disk (d_pages d) (d_desc d) (d_avail d) (d_used d) (d_free d) (d_used_idx d) (d_info d) (d_ops d) (d_lock d) l.
Definition disk_with_pages (p : Z * Z * Z) (d : disk) : disk :=
  mk_disk p (d_desc d) (d_avail d) (d_used d) (d_free d) (d_used_idx d) (d_info d) (d_ops d) (d_lock d) (d_busy d).

Definition no_desc : virtq_desc := mk_virtq_desc DNull 0 0 0.

(** [memset] of the pages with the descriptors and the rings. *)
Definition zero_queues (d : disk) : disk :=
  disk_with_desc (replicate (Z.to_nat NUM) no_desc)
    (disk_with_rings (mk_virtq_avail 0 0 (replicate (Z.to_nat NUM) 0))
                     (mk_virtq_used 0 0 (replicate (Z.to_nat NUM) (mk_virtq_used_elem 0 0))) d).

(** The chain that [virtio_disk_rw] formats for buffer [b] in the
    descriptors [i0], [i1], [i2]. *)
Definition format_chain (i0 i1 i2 b : nat) (write : bool) (sector : Z) (d : disk) : disk :=
  let op := mk_virtio_blk_req (if write then VIRTIO_BLK_T_OUT else VIRTIO_BLK_T_IN) 0 sector in
  let d := disk_with_ops (<[i0 := op]> (d_ops d)) d in
  let d := disk_with_desc (<[i0 := mk_virtq_desc (DOps i0) sizeof_virtio_blk_req VRING_DESC_F_NEXT (Z.of_nat i1)]> (d_desc d)) d in
  let flags := Z.lor (if write then 0 else VRING_DESC_F_WRITE) VRING_DESC_F_NEXT in
  let d := disk_with_desc (<[i1 := mk_virtq_desc (DData b) BSIZE flags (Z.of_nat i2)]> (d_desc d)) d in
  let d := disk_with_info (alter (λ i, mk_info (in_b i) 0xff) i0 (d_info d)) d in
  disk_with_desc (<[i2 := mk_virtq_desc (DStatus i0) 1 VRING_DESC_F_WRITE 0]> (d_desc d)) d.

(** [b->disk = 1] and the entry for the interrupt handler. *)
Definition record_buf (i0 b : nat) (d : disk) : disk :=
  let d := disk_with_busy (<[b := 1]> (d_busy d)) d in
  disk_with_info (alter (λ i, mk_info (Some b) (in_status i)) i0 (d_info d)) d.

(** The head of the chain into the available ring. *)
Definition offer (i0 : nat) (d : disk) : disk :=
  let a := d_avail d in
  disk_with_rings (mk_virtq_avail (va_flags a) (u16 (va_idx a + 1))
    (<[Z.to_nat (va_idx a mod NUM) := Z.of_nat i0]> (va_ring a))) (d_used d) d.

(** The first descriptor that is free, from index [i] on. *)
Fixpoint find_free (l : list Z) (i : nat) : option nat :=
  match l with
  | [] => None
  | f :: l => if negb (f =? 0) then Some i else find_free l (S i)
  end.

(** How a call of [virtio_disk_rw] stops: at its end, asleep without
    descriptors, or asleep with a request in the chain from [i0] on. *)
Inductive rw_state :=
  | RwDone
  | RwNoDesc (intena : bool)
  | RwSubmitted (i0 : nat) (intena : bool).

Section driver.
Context {D : Type} `{Bus D} (h : nat).
Abbreviation Mm := (M (machine D)).

Definition vdisk_lock : lockvar D :=
  mk_lockvar (λ s, d_lock (m_disk s)) (λ l s, with_vdisk (disk_with_lock l (m_disk s)) s).

Definition get_disk : Mm disk := gets m_disk.
Definition modify_disk (f : disk → disk) : Mm unit := modify (λ s, with_vdisk (f (m_disk s)) s).

(** Memory code before there are processes. *)
Definition in_boot {A} (m : M kfs A) : Mm A :=
  in_kernel (λ s, '(a, f) ← m (n_fs s); Ret (a, with_fs f s)).

(** ** Initialisation *)

Definition clear_feature (features bit : Z) : Z := Z.land features (Z.lnot (Z.shiftl 1 bit)).

(** Feature negotiation; the result is the status word. *)
Definition negotiate : Mm Z :=
  let status := 0 in
  store_reg32 (R VIRTIO_MMIO_STATUS) status;;
  let status := Z.lor status VIRTIO_CONFIG_S_ACKNOWLEDGE in
  store_reg32 (R VIRTIO_MMIO_STATUS) status;;
  let status := Z.lor status VIRTIO_CONFIG_S_DRIVER in
  store_reg32 (R VIRTIO_MMIO_STATUS) status;;
  features ← load_reg32 (R VIRTIO_MMIO_DEVICE_FEATURES);
  let features := clear_feature features VIRTIO_BLK_F_RO in
  let features := clear_feature features VIRTIO_BLK_F_SCSI in
  let features := clear_feature features VIRTIO_BLK_F_CONFIG_WCE in
  let features := clear_feature features VIRTIO_BLK_F_MQ in
  let features := clear_feature features VIRTIO_F_ANY_LAYOUT in
  let features := clear_feature features VIRTIO_RING_F_EVENT_IDX in
  let features := clear_feature features VIRTIO_RING_F_INDIRECT_DESC in
  store_reg32 (R VIRTIO_MMIO_DRIVER_FEATURES) features;;
  let status := Z.lor status VIRTIO_CONFIG_S_FEATURES_OK in
  store_reg32 (R VIRTIO_MMIO_STATUS) status;;
  status ← load_reg32 (R VIRTIO_MMIO_STATUS);
  if Z.land status VIRTIO_CONFIG_S_FEATURES_OK =? 0 then panic "virtio disk FEATURES_OK unset"
  else mret status.

(** Pages for the queue. *)
Definition alloc_queues : Mm unit :=
  desc ← in_boot (in_vm vm_kalloc);
  avail ← in_boot (in_vm vm_kalloc);
  used ← in_boot (in_vm vm_kalloc);
  modify_disk (disk_with_pages (desc, avail, used));;
  if (desc =? 0) || (avail =? 0) || (used =? 0) then panic "virtio disk kalloc"
  else
    in_boot (in_vm (memset desc 0 PGSIZE));;
    in_boot (in_vm (memset avail 0 PGSIZE));;
    in_boot (in_vm (memset used 0 PGSIZE));;
    modify_disk zero_queues;;
    store_reg32 (R VIRTIO_MMIO_QUEUE_NUM) NUM;;
    store_reg32 (R VIRTIO_MMIO_QUEUE_DESC_LOW) desc;;
    store_reg32 (R VIRTIO_MMIO_QUEUE_DESC_HIGH) (Z.shiftr desc 32);;
    store_reg32 (R VIRTIO_MMIO_DRIVER_DESC_LOW) avail;;
    store_reg32 (R VIRTIO_MMIO_DRIVER_DESC_HIGH) (Z.shiftr avail 32);;
    store_reg32 (R VIRTIO_MMIO_DEVICE_DESC_LOW) used;;
    store_reg32 (R VIRTIO_MMIO_DEVICE_DESC_HIGH) (Z.shiftr used 32).

(** One of the four tests that look for the device. *)
Definition check_reg (r v : Z) : Mm unit :=
  x ← load_reg32 (R r);
  if negb (x =? v) then panic "could not find virtio disk" else mret tt.

Definition virtio_disk_init : Mm unit :=
  initlock_m vdisk_lock "virtio_disk";;
  check_reg VIRTIO_MMIO_MAGIC_VALUE 0x74726976;;
  check_reg VIRTIO_MMIO_VERSION 2;;
  check_reg VIRTIO_MMIO_DEVICE_ID 2;;
  check_reg VIRTIO_MMIO_VENDOR_ID 0x554d4551;;
  status ← negotiate;
  store_reg32 (R VIRTIO_MMIO_QUEUE_SEL) 0;;
  ready ← load_reg32 (R VIRTIO_MMIO_QUEUE_READY);
  if negb (ready =? 0) then panic "virtio disk should not be ready"
  else
    max ← load_reg32 (R VIRTIO_MMIO_QUEUE_NUM_MAX);
    if max =? 0 then panic "virtio disk has no queue 0"
    else if max <? NUM then panic "virtio disk max queue too short"
    else
      alloc_queues;;
      store_reg32 (R VIRTIO_MMIO_QUEUE_READY) 0x1;;
      modify_disk (disk_with_free (replicate (Z.to_nat NUM) 1));;
      store_reg32 (R VIRTIO_MMIO_STATUS) (Z.lor status VIRTIO_CONFIG_S_DRIVER_OK).

(** ** Descriptors *)

Definition alloc_desc : Mm Z :=
  d ← get_disk;
  match find_free (d_free d) 0 with
  | Some i =>
    modify_disk (λ d, disk_with_free (<[i := 0]> (d_free d)) d);;
    mret (Z.of_nat i)
  | None => mret (-1)
  end.

Definition free_desc (i : Z) : Mm unit :=
  if NUM <=? i then panic "free_desc 1"
  else if i <? 0 then fault
  else
    d ← get_disk;
    match d_free d !! Z.to_nat i with
    | None => fault
    | Some f =>
      if negb (f =? 0) then panic "free_desc 2"
      else
        modify_disk (λ d, disk_with_desc (<[Z.to_nat i := no_desc]> (d_desc d)) d);;
        modify_disk (λ d, disk_with_free (<[Z.to_nat i := 1]> (d_free d)) d);;
        in_kernel (wakeup h (Some CDiskFree))
    end.

Fixpoint free_chain_loop (fuel : nat) (i : Z) : Mm unit :=
  match fuel with
  | O => out_of_fuel
  | S fuel =>
    d ← get_disk;
    match d_desc d !! Z.to_nat i with
    | None => fault
    | Some c =>
      let flag := vd_flags c in
      let nxt := vd_next c in
      free_desc i;;
      if negb (Z.land flag VRING_DESC_F_NEXT =? 0) then free_chain_loop fuel nxt else mret tt
    end
  end.

(** A descriptor that has been freed is not freed twice, so there are at
    most [NUM] rounds. *)
Definition free_chain (i : Z) : Mm unit := free_chain_loop (Z.to_nat NUM + 1) i.

Fixpoint free_descs (l : list Z) : Mm unit :=
  match l with
  | [] => mret tt
  | i :: l => free_desc i;; free_descs l
  end.

(** [n] more descriptors behind those in [idx]; [None] stands for -1. *)
Fixpoint alloc_descs (n : nat) (idx : list Z) : Mm (option (list Z)) :=
  match n with
  | O => mret (Some idx)
  | S n =>
    i ← alloc_desc;
    if i <? 0 then
      free_descs idx;;
      mret None
    else alloc_descs n (idx ++ [i])
  end.

Definition alloc3_desc : Mm (option (list Z)) := alloc_descs 3 [].

(** ** Requests *)

Definition rw_wait (b i0 : nat) : Mm rw_state :=
  d ← get_disk;
  match d_busy d !! b with
  | None => fault
  | Some n =>
    if n =? 1 then
      intena ← sleep_on h (CDiskBuf b) vdisk_lock;
      mret (RwSubmitted i0 intena)
    else
      modify_disk (λ d, disk_with_info (alter (λ i, mk_info None (in_status i)) i0 (d_info d)) d);;
      free_chain (Z.of_nat i0);;
      release_m h vdisk_lock;;
      mret RwDone
  end.

Definition rw_submit (b : nat) (write : bool) (sector : Z) (i0 i1 i2 : nat) : Mm unit :=
  modify_disk (format_chain i0 i1 i2 b write sector);;
  modify_disk (record_buf i0 b);;
  modify_disk (offer i0);;
  store_reg32 (R VIRTIO_MMIO_QUEUE_NOTIFY) 0.

Definition rw_alloc (b : nat) (write : bool) (sector : Z) : Mm rw_state :=
  r ← alloc3_desc;
  match r with
  | None =>
    intena ← sleep_on h CDiskFree vdisk_lock;
    mret (RwNoDesc intena)
  | Some [i0; i1; i2] =>
    rw_submit b write sector (Z.to_nat i0) (Z.to_nat i1) (Z.to_nat i2);;
    rw_wait b (Z.to_nat i0)
  | Some _ => fault
  end.

(** The sector of buffer [b]. *)
Definition sector_of (b : nat) : Mm Z := λ s,
  match bc_buf (k_bc (n_fs (m_kernel s))) !! b with
  | Some bb => Ret (u32 (b_blockno bb * (BSIZE / 512)), s)
  | None => Fault
  end.

Definition virtio_disk_rw (b : nat) (write : bool) : Mm rw_state :=
  sector ← sector_of b;
  acquire_m h vdisk_lock;;
  rw_alloc b write sector.

(** The calls go on when their process [p] runs again. *)
Definition rw_resume_alloc (p : nat) (intena : bool) (b : nat) (write : bool) (sector : Z) : Mm rw_state :=
  resume_on h p intena vdisk_lock;;
  rw_alloc b write sector.

Definition rw_resume_wait (p : nat) (intena : bool) (b i0 : nat) : Mm rw_state :=
  resume_on h p intena vdisk_lock;;
  rw_wait b i0.

(** ** The interrupt handler *)

Fixpoint intr_loop (fuel : nat) : Mm unit :=
  match fuel with
  | O => out_of_fuel
  | S fuel =>
    d ← get_disk;
    if d_used_idx d =? vu_idx (d_used d) then mret tt
    else
      match vu_ring (d_used d) !! Z.to_nat (d_used_idx d mod NUM) with
      | None => fault
      | Some e =>
        match d_info d !! Z.to_nat (ve_id e) with
        | None => fault
        | Some i =>
          if negb (in_status i =? 0) then panic "virtio_disk_intr status"
          else
            match in_b i with
            | None => fault
            | Some b =>
              modify_disk (λ d, disk_with_busy (<[b := 0]> (d_busy d)) d);;
              in_kernel (wakeup h (Some (CDiskBuf b)));;
              modify_disk (λ d, disk_with_used_idx (u16 (d_used_idx d + 1)) d);;
              intr_loop fuel
            end
        end
      end
  end.

(** The loop handles the entries that the device has added. *)
Definition virtio_disk_intr : Mm unit :=
  acquire_m h vdisk_lock;;
  v ← load_reg32 (R VIRTIO_MMIO_INTERRUPT_STATUS);
  store_reg32 (R VIRTIO_MMIO_INTERRUPT_ACK) (Z.land v 0x3);;
  d ← get_disk;
  intr_loop (S (Z.to_nat (u16 (vu_idx (d_used d) - d_used_idx d))));;
  release_m h vdisk_lock.
End driver.
