(* ===== verification/VirtioSpec.v ===== *)
(** * The disk driver: descriptors and rings

    The invariant of the driver's structures, and what each of its
    functions does to it.  [dinv d X F O T U seen]: the requests in
    progress are [F], by the head of their chains; the descriptors [X] are
    allocated and in no chain yet; the heads [O] are in the available ring
    and not yet taken by the device, [T] are with the device, [U] are in
    the used ring and not yet handled by the driver; [seen] is the index in
    the available ring up to which the device has read. *)

From S2P Require Import Prelude Spinlock Riscv Mem KString Vm FsState Bio Proc ProcSpec Machine MachineSpec Virtio.

(** ** Requests in progress *)

(** Offered to the device, taken by it, finished by it, and known by the
    driver to be finished.  A finished request has a status. *)
Inductive phase := Offered | Taken | Finished | Seen.

#[export] Instance phase_eq_dec : EqDecision phase.
Proof. solve_decision. Defined.

Record flight := mk_flight {
  fl_i1 : nat;
  fl_i2 : nat;
  fl_b : nat;
  fl_write : bool;
  fl_sector : Z;
  fl_phase : phase;
  fl_status : Z;
}.

Definition with_phase (p : phase) (st : Z) (f : flight) : flight :=
  mk_flight (fl_i1 f) (fl_i2 f) (fl_b f) (fl_write f) (fl_sector f) p st.

Definition done_phase (p : phase) : bool := match p with Offered | Taken => false | Finished | Seen => true end.

Definition chain (i0 : nat) (f : flight) : list nat := [i0; fl_i1 f; fl_i2 f].

(** Descriptor [x] belongs to a request. *)
Definition in_use (F : gmap nat flight) (x : nat) : Prop := ∃ i0 f, F !! i0 = Some f ∧ x ∈ chain i0 f.

Definition op_of (f : flight) : virtio_blk_req :=
  mk_virtio_blk_req (if fl_write f then VIRTIO_BLK_T_OUT else VIRTIO_BLK_T_IN) 0 (fl_sector f).

Definition data_flags (write : bool) : Z := Z.lor (if write then 0 else VRING_DESC_F_WRITE) VRING_DESC_F_NEXT.

(** What the structures hold for a request. *)
Record flight_ok (d : disk) (i0 : nat) (f : flight) : Prop := {
  fo_desc0 : d_desc d !! i0 = Some (mk_virtq_desc (DOps i0) sizeof_virtio_blk_req VRING_DESC_F_NEXT (Z.of_nat (fl_i1 f)));
  fo_desc1 : d_desc d !! fl_i1 f = Some (mk_virtq_desc (DData (fl_b f)) BSIZE (data_flags (fl_write f)) (Z.of_nat (fl_i2 f)));
  fo_desc2 : d_desc d !! fl_i2 f = Some (mk_virtq_desc (DStatus i0) 1 VRING_DESC_F_WRITE 0);
  fo_ops : d_ops d !! i0 = Some (op_of f);
  fo_info : ∃ st, d_info d !! i0 = Some (mk_info (Some (fl_b f)) st) ∧
    (done_phase (fl_phase f) = true → st = fl_status f) ∧ (fl_phase f = Seen → fl_status f = 0);
  fo_busy : d_busy d !! fl_b f = Some (if decide (fl_phase f = Seen) then 0 else 1);
}.

(** ** Rings *)

(** The entries [l] from index [i] on. *)
Definition window {A} (ring : list A) (i : Z) (l : list A) : Prop :=
  ∀ k x, l !! k = Some x → ring !! Z.to_nat ((i + Z.of_nat k) mod NUM) = Some x.

Lemma u16_mod_num x : (u16 x) mod NUM = x mod NUM.
Proof.
  unfold u16, NUM. change (2 ^ 16) with (8 * 8192). rewrite Z.rem_mul_r by lia.
  rewrite (Z.mul_comm 8 (_ mod _)), Z.mod_add, Z.mod_mod by lia. done.
Qed.

Lemma num_slot a i j : 0 ≤ i < NUM → 0 ≤ j < NUM → (a + i) mod NUM = (a + j) mod NUM → i = j.
Proof.
  unfold NUM. intros Hi Hj E. pose proof (Z.div_mod (a + i) 8). pose proof (Z.div_mod (a + j) 8). lia.
Qed.

Lemma window_push {A} (ring : list A) i l x :
  length ring = Z.to_nat NUM → (length l < Z.to_nat NUM)%nat → window ring i l →
  window (<[Z.to_nat ((i + Z.of_nat (length l)) mod NUM) := x]> ring) i (l ++ [x]).
Proof.
  intros Hr Hl Hw k y Hk. pose proof (Z.mod_pos_bound (i + Z.of_nat k) NUM ltac:(done)).
  pose proof (Z.mod_pos_bound (i + Z.of_nat (length l)) NUM ltac:(done)).
  apply lookup_app_Some in Hk as [Hk|[Hk1 Hk2]].
  - rewrite list_lookup_insert_ne; [by apply Hw|]. apply lookup_lt_Some in Hk. intros E.
    apply Z2Nat.inj in E; [|lia..]. apply num_slot in E; unfold NUM in *; lia.
  - apply list_lookup_singleton_Some in Hk2 as [E <-]. replace k with (length l) by lia.
    apply list_lookup_insert_eq. unfold NUM in *. lia.
Qed.

Lemma window_pop {A} (ring : list A) i x l : window ring i (x :: l) → window ring (u16 (i + 1)) l.
Proof.
  intros Hw k y Hk. specialize (Hw (S k) y Hk). rewrite <-Hw. do 2 f_equal.
  rewrite <-Zplus_mod_idemp_l, u16_mod_num, Zplus_mod_idemp_l. f_equal. lia.
Qed.

Lemma window_head {A} (ring : list A) i x l : window ring i (x :: l) → ring !! Z.to_nat (i mod NUM) = Some x.
Proof. intros Hw. specialize (Hw 0%nat x eq_refl). by rewrite Z.add_0_r in Hw. Qed.

(** ** The invariant *)

Definition heads (F : gmap nat flight) (p : phase) (l : list nat) : Prop :=
  NoDup l ∧ ∀ i, i ∈ l ↔ ∃ f, F !! i = Some f ∧ fl_phase f = p.

(** Who owns the descriptors. *)
Record owned (d : disk) (X : list nat) (F : gmap nat flight) : Prop := {
  ow_free : ∀ x, (x < Z.to_nat NUM)%nat → ∃ v, d_free d !! x = Some v ∧ (v = 0 ∨ v = 1) ∧ (v = 0 ↔ x ∈ X ∨ in_use F x);
  ow_new : NoDup X ∧ ∀ x, x ∈ X → (x < Z.to_nat NUM)%nat ∧ ¬ in_use F x;
  ow_chain : ∀ i0 f, F !! i0 = Some f → NoDup (chain i0 f) ∧ ∀ x, x ∈ chain i0 f → (x < Z.to_nat NUM)%nat;
  ow_disjoint : ∀ i0 f j0 g x, F !! i0 = Some f → F !! j0 = Some g → x ∈ chain i0 f → x ∈ chain j0 g → i0 = j0;
}.

Record lengths (d : disk) : Prop := {
  le_desc : length (d_desc d) = Z.to_nat NUM;
  le_free : length (d_free d) = Z.to_nat NUM;
  le_info : length (d_info d) = Z.to_nat NUM;
  le_ops : length (d_ops d) = Z.to_nat NUM;
  le_avail : length (va_ring (d_avail d)) = Z.to_nat NUM;
  le_used : length (vu_ring (d_used d)) = Z.to_nat NUM;
}.

(** The rings and the lists of heads. *)
Record rings (d : disk) (F : gmap nat flight) (O T U : list nat) (seen : Z) : Prop := {
  ri_idx : 0 ≤ va_idx (d_avail d) < 2 ^ 16 ∧ 0 ≤ vu_idx (d_used d) < 2 ^ 16 ∧ 0 ≤ d_used_idx d < 2 ^ 16 ∧ 0 ≤ seen < 2 ^ 16;
  ri_avail : u16 (va_idx (d_avail d) - seen) = Z.of_nat (length O) ∧ window (va_ring (d_avail d)) seen (Z.of_nat <$> O);
  ri_used : u16 (vu_idx (d_used d) - d_used_idx d) = Z.of_nat (length U) ∧
            window (ve_id <$> vu_ring (d_used d)) (d_used_idx d) (Z.of_nat <$> U);
  ri_offered : heads F Offered O;
  ri_taken : heads F Taken T;
  ri_finished : heads F Finished U;
}.

Record dinv (d : disk) (X : list nat) (F : gmap nat flight) (O T U : list nat) (seen : Z) : Prop := {
  dv_len : lengths d;
  dv_owned : owned d X F;
  dv_flights : ∀ i0 f, F !! i0 = Some f → flight_ok d i0 f;
  dv_bufs : ∀ i0 f j0 g, F !! i0 = Some f → F !! j0 = Some g → fl_b f = fl_b g → i0 = j0;
  dv_rings : rings d F O T U seen;
}.

(** There are fewer heads than descriptors. *)
Lemma heads_short d X F p l x : owned d X F → heads F p l → (x < Z.to_nat NUM)%nat → (x ∉ l) → (length l < Z.to_nat NUM)%nat.
Proof.
  intros Ho [Hnd Hl] Hx Hnx. assert (Hle : (length (x :: l) ≤ length (seq 0 (Z.to_nat NUM)))%nat).
  { apply submseteq_length, NoDup_submseteq; [by constructor|]. intros y Hy. apply elem_of_seq. apply elem_of_cons in Hy as [->|Hy]; [lia|].
    apply Hl in Hy as (f & Hf & _). apply (ow_chain _ _ _ Ho) in Hf as [_ Hf]. specialize (Hf y ltac:(left)). lia. }
  rewrite length_seq in Hle. cbn in Hle. lia.
Qed.

(** ** Allocation *)

Definition free_at (i : nat) (d : disk) : disk :=
  disk_with_free (<[i := 1]> (d_free d)) (disk_with_desc (<[i := no_desc]> (d_desc d)) d).
Definition take_at (i : nat) (d : disk) : disk := disk_with_free (<[i := 0]> (d_free d)) d.

Lemma find_free_spec l i : match find_free l i with
  | Some j => ∃ v, (i ≤ j)%nat ∧ l !! (j - i)%nat = Some v ∧ v ≠ 0
  | None => ∀ k v, l !! k = Some v → v = 0 end.
Proof.
  revert i. induction l as [|f l IH]; intros i; cbn [find_free]; [done|]. destruct (Z.eqb_spec f 0) as [->|Hf]; cbn [negb].
  - specialize (IH (S i)). destruct (find_free l (S i)) as [j|].
    + destruct IH as (v & Hj & Hv & Hne). exists v. replace (j - i)%nat with (S (j - S i)) by lia. split; [lia|done].
    + intros [|k] v Hk; [by injection Hk|]. by apply (IH k).
  - exists f. rewrite Nat.sub_diag. split; [lia|done].
Qed.

Lemma in_use_delete F i0 f x : F !! i0 = Some f → in_use F x → in_use (delete i0 F) x ∨ x ∈ chain i0 f.
Proof.
  intros Hf (j & g & Hj & Hx). destruct (decide (j = i0)) as [->|]; [right; congruence|].
  left. exists j, g. by rewrite lookup_delete_ne.
Qed.

Lemma owned_take d X F i v : owned d X F → d_free d !! i = Some v → v ≠ 0 → (i < Z.to_nat NUM)%nat →
  length (d_free d) = Z.to_nat NUM → owned (take_at i d) (X ++ [i]) F.
Proof.
  intros [Hf [Hn1 Hn2] Hc Hd] Hi Hv Hlt Hlen. destruct (Hf i Hlt) as (v' & Hv' & _ & Hiff). rewrite Hi in Hv'. injection Hv' as <-.
  assert (Hni : ¬ (i ∈ X ∨ in_use F i)) by (intros Hin; by apply Hv, Hiff).
  split; [|split|done|done].
  - intros x Hx. destruct (decide (x = i)) as [->|Hne].
    + exists 0. cbn. rewrite list_lookup_insert_eq by lia. split; [done|]. split; [by left|]. split; [|done]. intros _. left. set_solver.
    + destruct (Hf x Hx) as (w & Hw & H01 & Hiff'). exists w. cbn. rewrite list_lookup_insert_ne by done. split; [done|]. split; [done|].
      rewrite Hiff', elem_of_app, list_elem_of_singleton. naive_solver.
  - apply list.NoDup_app. split; [done|]. split; [set_solver|apply list.NoDup_singleton].
  - intros x [Hx|Hx%list_elem_of_singleton]%elem_of_app; [by apply Hn2|]. subst x. split; [done|]. naive_solver.
Qed.

Lemma owned_free d X X' F i : owned d X F → X ≡ₚ i :: X' → length (d_free d) = Z.to_nat NUM → owned (free_at i d) X' F.
Proof.
  intros [Hf [Hn1 Hn2] Hc Hd] Hp Hlen. assert (Hnd : NoDup (i :: X')) by (by rewrite <-Hp). apply list.NoDup_cons in Hnd as [Hi Hnd'].
  assert (HiX : i ∈ X) by (rewrite Hp; left). split; [|split|done|done]; [|done|].
  - intros x Hx. destruct (decide (x = i)) as [->|Hne].
    + exists 1. cbn. rewrite list_lookup_insert_eq by lia. split; [done|]. split; [by right|]. split; [done|].
      intros [?|?]; [done|]. by destruct (Hn2 i HiX).
    + destruct (Hf x Hx) as (w & Hw & H01 & Hiff). exists w. cbn. rewrite list_lookup_insert_ne by done. split; [done|]. split; [done|].
      rewrite Hiff. setoid_rewrite Hp. rewrite elem_of_cons. naive_solver.
  - intros x Hx. apply Hn2. rewrite Hp. by right.
Qed.

Lemma flight_ok_free d i0 f i : flight_ok d i0 f → (i ∉ chain i0 f) → flight_ok (free_at i d) i0 f.
Proof.
  intros [H0 H1 H2 H3 H4 H5] Hi. unfold chain in Hi. rewrite !not_elem_of_cons in Hi. destruct Hi as (? & ? & ? & _).
  split; cbn; rewrite ?list_lookup_insert_ne by done; done.
Qed.

Lemma dinv_take d X F O T U seen i v : dinv d X F O T U seen → d_free d !! i = Some v → v ≠ 0 → dinv (take_at i d) (X ++ [i]) F O T U seen.
Proof.
  intros [Hl Ho Hf Hb Hr] Hi Hv. pose proof (le_free _ Hl). assert (i < Z.to_nat NUM)%nat by (apply lookup_lt_Some in Hi; lia).
  split; [destruct Hl; split; cbn; rewrite ?length_insert; done|by eapply owned_take| |done|by destruct Hr].
  intros i0 f Hi0. by destruct (Hf i0 f Hi0).
Qed.

Lemma dinv_free d X X' F O T U seen i : dinv d X F O T U seen → X ≡ₚ i :: X' → dinv (free_at i d) X' F O T U seen.
Proof.
  intros [Hl Ho Hf Hb Hr] Hp. split; [destruct Hl; split; cbn; rewrite ?length_insert; done| | |done|by destruct Hr].
  - eapply owned_free; [done|done|apply Hl].
  - intros i0 f Hi0. apply flight_ok_free; [by apply Hf|]. intros Hin. apply (ow_new _ _ _ Ho) with i; [rewrite Hp; left|]. by exists i0, f.
Qed.

(** ** Changes of the requests *)

Definition has_phase (F : gmap nat flight) (i : nat) (p : phase) : Prop := ∃ f, F !! i = Some f ∧ fl_phase f = p.

Lemma heads_other F p l i f : heads F p l → ¬ has_phase F i p → fl_phase f ≠ p → heads (<[i := f]> F) p l.
Proof.
  intros [Hnd Hl] Hi Hf. split; [done|]. intros j. rewrite Hl. destruct (decide (j = i)) as [->|Hne].
  - rewrite lookup_insert_eq. split; [done|]. intros (g & E & Hg). by simplify_eq.
  - by rewrite lookup_insert_ne.
Qed.

Lemma heads_add F p l i f : heads F p l → ¬ has_phase F i p → fl_phase f = p → heads (<[i := f]> F) p (l ++ [i]).
Proof.
  intros [Hnd Hl] Hi Hf. split.
  - apply list.NoDup_app. split; [done|]. split; [|apply list.NoDup_singleton].
    intros j Hj ->%list_elem_of_singleton. by apply Hi, Hl.
  - intros j. rewrite elem_of_app, list_elem_of_singleton, Hl. destruct (decide (j = i)) as [->|Hne].
    + rewrite lookup_insert_eq. naive_solver.
    + rewrite lookup_insert_ne by done. naive_solver.
Qed.

Lemma heads_remove F p l l' i f : heads F p l → l ≡ₚ i :: l' → fl_phase f ≠ p → heads (<[i := f]> F) p l'.
Proof.
  intros [Hnd Hl] Hp Hf. assert (Hnd' : NoDup (i :: l')) by (by rewrite <-Hp). apply list.NoDup_cons in Hnd' as [Hi Hnd']. split; [done|].
  intros j. destruct (decide (j = i)) as [->|Hne].
  - rewrite lookup_insert_eq. naive_solver.
  - rewrite lookup_insert_ne by done. rewrite <-Hl, Hp, elem_of_cons. naive_solver.
Qed.

Lemma heads_delete F p l i : heads F p l → ¬ has_phase F i p → heads (delete i F) p l.
Proof.
  intros [Hnd Hl] Hi. split; [done|]. intros j. rewrite Hl. destruct (decide (j = i)) as [->|Hne].
  - rewrite lookup_delete_eq. naive_solver.
  - by rewrite lookup_delete_ne.
Qed.

Lemma in_use_phase F i f p st x : F !! i = Some f → in_use (<[i := with_phase p st f]> F) x ↔ in_use F x.
Proof.
  intros Hf. split; intros (j & g & Hj & Hx); destruct (decide (j = i)) as [->|Hne].
  - rewrite lookup_insert_eq in Hj. simplify_eq. by exists i, f.
  - rewrite lookup_insert_ne in Hj by done. by exists j, g.
  - simplify_eq. exists i, (with_phase p st f). by rewrite lookup_insert_eq.
  - exists j, g. by rewrite lookup_insert_ne.
Qed.

(** Looking up a request after a change of phase. *)
Lemma lookup_phase (F : gmap nat flight) (i : nat) f p st (j : nat) g :
  F !! i = Some f → <[i := with_phase p st f]> F !! j = Some g →
  ∃ g', F !! j = Some g' ∧ g = if decide (j = i) then with_phase p st g' else g'.
Proof.
  intros Hf Hj. destruct (decide (j = i)) as [->|Hne].
  - rewrite lookup_insert_eq in Hj. simplify_eq. by exists f.
  - rewrite lookup_insert_ne in Hj by done. by exists g.
Qed.

Lemma owned_phase d d' X F i f p st : owned d X F → F !! i = Some f → d_free d' = d_free d → owned d' X (<[i := with_phase p st f]> F).
Proof.
  intros [Hf [Hn1 Hn2] Hc Hd] Hi E. split.
  - intros x Hx. destruct (Hf x Hx) as (v & Hv & H01 & Hiff). exists v. rewrite E. split; [done|]. split; [done|].
    by rewrite Hiff, in_use_phase.
  - split; [done|]. intros x Hx. rewrite in_use_phase by done. by apply Hn2.
  - intros j g (g' & Hg & ->)%(lookup_phase F i f p st); [|done]. specialize (Hc j g' Hg). by destruct (decide (j = i)).
  - intros j g j' g2 x (g' & Hg & ->)%(lookup_phase F i f p st) (g2' & Hg2 & ->)%(lookup_phase F i f p st); [|done..].
    intros H1 H2. apply (Hd j g' j' g2' x); [done|done| |].
    + by destruct (decide (j = i)).
    + by destruct (decide (j' = i)).
Qed.

Lemma bufs_phase (F : gmap nat flight) (i : nat) f p st :
  F !! i = Some f → (∀ j g j' g', F !! j = Some g → F !! j' = Some g' → fl_b g = fl_b g' → j = j') →
  ∀ j g j' g', <[i := with_phase p st f]> F !! j = Some g → <[i := with_phase p st f]> F !! j' = Some g' → fl_b g = fl_b g' → j = j'.
Proof.
  intros Hi Hb j g j' g' (g1 & H1 & ->)%(lookup_phase F i f p st) (g2 & H2 & ->)%(lookup_phase F i f p st) E; [|done..].
  apply (Hb j g1 j' g2); [done|done|]. by destruct (decide (j = i)), (decide (j' = i)).
Qed.

(** A ring index that moves by one. *)
Lemma u16_window_push a b n : u16 (a - b) = n → n < 2 ^ 16 - 1 → u16 (u16 (a + 1) - b) = n + 1.
Proof.
  intros E Hn. pose proof (u16_range (a - b)). unfold u16 in *. rewrite Zminus_mod_idemp_l. replace (a + 1 - b) with (a - b + 1) by lia.
  rewrite <-Zplus_mod_idemp_l, E, Z.mod_small; lia.
Qed.

Lemma u16_window_pop a b n : u16 (a - b) = n + 1 → 0 ≤ n → u16 (a - u16 (b + 1)) = n.
Proof.
  intros E Hn. pose proof (u16_range (a - b)). unfold u16 in *. rewrite Zminus_mod_idemp_r. replace (a - (b + 1)) with (a - b - 1) by lia.
  rewrite <-Zminus_mod_idemp_l, E, Z.mod_small; lia.
Qed.

(** A request of the flight at [i] keeps the others' phases apart. *)
Lemma has_phase_at F i f p : F !! i = Some f → has_phase F i p ↔ fl_phase f = p.
Proof. intros Hi. split; [intros (g & Hg & E); congruence|]. intros E. by exists f. Qed.

(** ** The device takes a request *)

Lemma dinv_take_dev d X F i O T U seen f :
  dinv d X F (i :: O) T U seen → F !! i = Some f → dinv d X (<[i := with_phase Taken (fl_status f) f]> F) O (T ++ [i]) U (u16 (seen + 1)).
Proof.
  intros [Hl Ho Hf Hb [Hidx [Ha1 Ha2] Hu HO HT HU]] Hi.
  assert (Hp : fl_phase f = Offered) by (apply (has_phase_at F i); [done|]; by apply HO; left).
  split; [done|by eapply owned_phase| |by eapply bufs_phase|split].
  - intros j g (g' & Hg & ->)%(lookup_phase F i f Taken (fl_status f)); [|done]. destruct (decide (j = i)) as [->|]; [|by apply Hf].
    assert (g' = f) as -> by congruence. destruct (Hf i f Hi) as [? ? ? ? (st & Hst & Hst') Hbusy]. split; [done..| |].
    + by exists st.
    + rewrite Hp in Hbusy. exact Hbusy.
  - pose proof (u16_range (seen + 1)). tauto.
  - split; [|by eapply window_pop]. apply u16_window_pop; [|lia]. rewrite Ha1. cbn. lia.
  - done.
  - eapply heads_remove; [done|done|done].
  - apply heads_add; [done| |done]. rewrite (has_phase_at F i f) by done. by rewrite Hp.
  - apply heads_other; [done| |done]. rewrite (has_phase_at F i f) by done. by rewrite Hp.
Qed.

(** ** The device finishes a request *)

(** Status [st] in status byte [j], and an entry for head [i] in the used
    ring. *)
Definition finish (i j : nat) (st len : Z) (d : disk) : disk :=
  let u := d_used d in
  let u := mk_virtq_used (vu_flags u) (u16 (vu_idx u + 1))
    (<[Z.to_nat (vu_idx u mod NUM) := mk_virtq_used_elem (Z.of_nat i) len]> (vu_ring u)) in
  disk_with_rings (d_avail d) u (disk_with_info (alter (λ n, mk_info (in_b n) st) j (d_info d)) d).

Lemma heads_lt d X F p l i : owned d X F → heads F p l → i ∈ l → (i < Z.to_nat NUM)%nat.
Proof. intros Ho [_ Hl] (f & Hf & _)%Hl. apply (ow_chain _ _ _ Ho) in Hf as [_ Hf]. apply Hf. left. Qed.

Lemma window_end i n : 0 ≤ i < 2 ^ 16 → i mod NUM = (n + u16 (i - n)) mod NUM.
Proof.
  intros Hi. rewrite <-(u16_mod_num (n + _)). unfold u16. rewrite Zplus_mod_idemp_r. replace (n + (i - n)) with i by lia.
  by rewrite (Z.mod_small i (2 ^ 16)) by lia.
Qed.

Lemma dinv_finish d X F i f O T T' U seen st len :
  dinv d X F O T U seen → F !! i = Some f → T ≡ₚ i :: T' →
  dinv (finish i i st len d) X (<[i := with_phase Finished st f]> F) O T' (U ++ [i]) seen.
Proof.
  intros [Hl Ho Hf Hb [Hidx Ha [Hu1 Hu2] HO HT HU]] Hi HTp.
  assert (Hp : fl_phase f = Taken) by (apply (has_phase_at F i); [done|]; apply HT; rewrite HTp; left).
  assert (HiU : i ∉ U) by (intros [g [Hg Eg]]%HU; congruence).
  assert (Hi8 : (i < Z.to_nat NUM)%nat) by (eapply heads_lt; [done|exact HT|rewrite HTp; left]).
  pose proof (heads_short d X F Finished U i Ho HU Hi8 HiU) as Hshort.
  split; [destruct Hl; split; cbn; rewrite ?length_alter, ?length_insert; done|by eapply owned_phase| |by eapply bufs_phase|split].
  - intros j g (g' & Hg & ->)%(lookup_phase F i f Finished st); [|done]. destruct (Hf j g' Hg) as [? ? ? ? (st0 & Hst & Hst') Hbusy].
    destruct (decide (j = i)) as [->|Hne]; cbn.
    + simplify_eq. split; [done..| |]; cbn.
      * exists st. split; [|done]. by rewrite list_lookup_alter_eq, Hst.
      * rewrite Hp in Hbusy. exact Hbusy.
    + split; [done..| |done]. exists st0. split; [|done]. cbn. by rewrite list_lookup_alter_ne.
  - cbn. pose proof (u16_range (vu_idx (d_used d) + 1)). tauto.
  - done.
  - cbn. rewrite length_app. unfold NUM in Hshort. split; [rewrite (u16_window_push _ _ _ Hu1); [cbn; lia|lia]|].
    rewrite fmap_app, list_fmap_insert. cbn [fmap list_fmap ve_id].
    rewrite (window_end _ (d_used_idx d)) by tauto. rewrite Hu1, <-(length_fmap Z.of_nat U).
    apply window_push; [rewrite length_fmap; apply Hl|rewrite length_fmap; done|done].
  - apply heads_other; [done| |done]. rewrite (has_phase_at F i f) by done. by rewrite Hp.
  - eapply heads_remove; [done|done|done].
  - apply heads_add; [done| |done]. rewrite (has_phase_at F i f) by done. by rewrite Hp.
Qed.

(** ** The interrupt handler sees the end of a request *)

Definition acknowledge (b : nat) (d : disk) : disk :=
  disk_with_used_idx (u16 (d_used_idx d + 1)) (disk_with_busy (<[b := 0]> (d_busy d)) d).

Lemma dinv_seen d X F i f O T U seen :
  dinv d X F O T (i :: U) seen → F !! i = Some f → fl_status f = 0 →
  dinv (acknowledge (fl_b f) d) X (<[i := with_phase Seen 0 f]> F) O T U seen.
Proof.
  intros [Hl Ho Hf Hb [Hidx Ha [Hu1 Hu2] HO HT HU]] Hi H0.
  assert (Hp : fl_phase f = Finished) by (apply (has_phase_at F i); [done|]; apply HU; left).
  split; [destruct Hl; split; done|by eapply owned_phase| |by eapply bufs_phase|split].
  - intros j g (g' & Hg & ->)%(lookup_phase F i f Seen 0); [|done]. destruct (Hf j g' Hg) as [? ? ? ? (st & Hst & Hst') Hbusy].
    destruct (decide (j = i)) as [->|Hne]; cbn.
    + simplify_eq. split; [done..| |]; cbn.
      * exists st. split; [done|]. split; [|done]. intros _. destruct Hst' as [-> _]; [done|by rewrite Hp].
      * rewrite list_lookup_insert_eq; [done|]. by eapply lookup_lt_Some.
    + split; [done..| |]; cbn; [by exists st|]. rewrite list_lookup_insert_ne; [done|]. intros E. apply Hne. by apply (Hb j g' i f).
  - cbn. pose proof (u16_range (d_used_idx d + 1)). tauto.
  - done.
  - cbn. split; [|by eapply window_pop]. apply u16_window_pop; [|lia]. rewrite Hu1. cbn. lia.
  - apply heads_other; [done| |done]. rewrite (has_phase_at F i f) by done. by rewrite Hp.
  - apply heads_other; [done| |done]. rewrite (has_phase_at F i f) by done. by rewrite Hp.
  - eapply heads_remove; [done|done|done].
Qed.

(** ** A new request *)

Definition submitted (i0 i1 i2 b : nat) (write : bool) (sector : Z) (d : disk) : disk :=
  offer i0 (record_buf i0 b (format_chain i0 i1 i2 b write sector d)).

Lemma flight_ok_submitted i0 i1 i2 b write sector d :
  lengths d → (i0 < Z.to_nat NUM)%nat → (i1 < Z.to_nat NUM)%nat → (i2 < Z.to_nat NUM)%nat → NoDup [i0; i1; i2] →
  (b < length (d_busy d))%nat → flight_ok (submitted i0 i1 i2 b write sector d) i0 (mk_flight i1 i2 b write sector Offered 0).
Proof.
  intros Hl H0 H1 H2 Hnd Hb. rewrite !list.NoDup_cons, !not_elem_of_cons in Hnd. destruct Hnd as ((? & ? & _) & (? & _) & _).
  destruct Hl. destruct (lookup_lt_is_Some_2 (d_info d) i0 ltac:(lia)) as [n Hn].
  split; cbn [submitted offer record_buf format_chain d_desc d_ops d_info d_busy disk_with_rings disk_with_info disk_with_busy disk_with_desc disk_with_ops fl_i1 fl_i2 fl_b fl_write].
  - rewrite !list_lookup_insert_ne by congruence. rewrite list_lookup_insert_eq by lia. done.
  - rewrite list_lookup_insert_ne by congruence. rewrite list_lookup_insert_eq by (rewrite length_insert; lia). done.
  - rewrite list_lookup_insert_eq by (rewrite !length_insert; lia). done.
  - rewrite list_lookup_insert_eq by lia. done.
  - exists 0xff. by rewrite !list_lookup_alter_eq, Hn.
  - rewrite list_lookup_insert_eq by done. done.
Qed.

Lemma flight_ok_other i0 i1 i2 b write sector d j g :
  flight_ok d j g → (i0 ∉ chain j g) → (i1 ∉ chain j g) → (i2 ∉ chain j g) → fl_b g ≠ b →
  flight_ok (submitted i0 i1 i2 b write sector d) j g.
Proof.
  intros [G0 G1 G2 G3 (st & G4 & G5) G6] H0 H1 H2 Hb. unfold chain in *. rewrite !not_elem_of_cons in H0, H1, H2.
  destruct H0 as (? & ? & ? & _), H1 as (? & ? & ? & _), H2 as (? & ? & ? & _).
  split; cbn [submitted offer record_buf format_chain d_desc d_ops d_info d_busy disk_with_rings disk_with_info disk_with_busy disk_with_desc disk_with_ops];
    rewrite ?list_lookup_insert_ne by done; try done.
  exists st. by rewrite !list_lookup_alter_ne.
Qed.

Lemma in_use_insert F i f x : F !! i = None → in_use (<[i := f]> F) x ↔ x ∈ chain i f ∨ in_use F x.
Proof.
  intros Hi. split.
  - intros (j & g & Hj & Hx). destruct (decide (j = i)) as [->|Hne]; [rewrite lookup_insert_eq in Hj; simplify_eq; by left|].
    rewrite lookup_insert_ne in Hj by done. right. by exists j, g.
  - intros [Hx|(j & g & Hj & Hx)]; [exists i, f; by rewrite lookup_insert_eq|].
    exists j, g. rewrite lookup_insert_ne; [done|]. congruence.
Qed.

Lemma owned_submit d d' F i f : owned d (chain i f) F → d_free d' = d_free d → owned d' [] (<[i := f]> F).
Proof.
  intros [Hf [Hn1 Hn2] Hc Hd] E. assert (Hi : F !! i = None).
  { destruct (F !! i) as [g|] eqn:Eg; [|done]. destruct (Hn2 i ltac:(left)) as [_ []]. exists i, g. split; [done|left]. }
  split.
  - intros x Hx. destruct (Hf x Hx) as (v & Hv & H01 & Hiff). exists v. rewrite E. split; [done|]. split; [done|].
    rewrite Hiff, in_use_insert by done. split; [intros; by right|]. intros [Hnil|?]; [|done]. by apply elem_of_nil in Hnil.
  - split; [constructor|]. intros x Hx. by apply elem_of_nil in Hx.
  - intros j g Hj. destruct (decide (j = i)) as [->|Hne].
    + rewrite lookup_insert_eq in Hj. simplify_eq. split; [done|]. intros x Hx. by apply Hn2.
    + rewrite lookup_insert_ne in Hj by done. by apply Hc.
  - intros j g j' g' x Hj Hj' Hx Hx'. destruct (decide (j = i)) as [->|], (decide (j' = i)) as [->|]; [done|..].
    + rewrite lookup_insert_eq in Hj. rewrite lookup_insert_ne in Hj' by done. simplify_eq.
      destruct (Hn2 x Hx) as [_ []]. by exists j', g'.
    + rewrite lookup_insert_eq in Hj'. rewrite lookup_insert_ne in Hj by done. simplify_eq.
      destruct (Hn2 x Hx') as [_ []]. by exists j, g.
    + rewrite lookup_insert_ne in Hj, Hj' by done. by apply (Hd j g j' g' x).
Qed.

Lemma dinv_submit d F O T U seen i0 i1 i2 b write sector :
  dinv d [i0; i1; i2] F O T U seen → (b < length (d_busy d))%nat → (∀ j g, F !! j = Some g → fl_b g ≠ b) →
  dinv (submitted i0 i1 i2 b write sector d) [] (<[i0 := mk_flight i1 i2 b write sector Offered 0]> F) (O ++ [i0]) T U seen.
Proof.
  intros [Hl Ho Hf Hb [Hidx [Ha1 Ha2] Hu HO HT HU]] Hlen Hnew. destruct (ow_new _ _ _ Ho) as [Hnd Hnot].
  assert (Hlt : ∀ x, x ∈ [i0; i1; i2] → (x < Z.to_nat NUM)%nat) by (intros x Hx; by apply Hnot).
  assert (Hi : F !! i0 = None).
  { destruct (F !! i0) as [g|] eqn:Eg; [|done]. destruct (Hnot i0 ltac:(left)) as [_ []]. exists i0, g. split; [done|left]. }
  assert (Hnp : ∀ p, ¬ has_phase F i0 p) by (intros p (g & Hg & _); congruence).
  assert (HiO : i0 ∉ O) by (intros Hin%HO; by apply (Hnp Offered)).
  pose proof (heads_short d _ F Offered O i0 Ho HO (Hlt i0 ltac:(left)) HiO) as Hshort.
  split; [| by apply (owned_submit d _ F i0 (mk_flight i1 i2 b write sector Offered 0))| | |split].
  - destruct Hl. split; cbn; rewrite ?length_alter, ?length_insert, ?length_alter; done.
  - intros j g Hj. destruct (decide (j = i0)) as [->|Hne].
    + rewrite lookup_insert_eq in Hj. injection Hj as <-. apply flight_ok_submitted; [done|apply Hlt; set_solver..|done|done].
    + rewrite lookup_insert_ne in Hj by done. apply flight_ok_other; [by apply Hf| | | |by apply (Hnew j)].
      all: intros Hin; eapply Hnot; [|exists j, g; done]; set_solver.
  - intros j g j' g' Hj Hj' E. destruct (decide (j = i0)) as [->|], (decide (j' = i0)) as [->|]; [done|..].
    + rewrite lookup_insert_eq in Hj. rewrite lookup_insert_ne in Hj' by done. simplify_eq. by destruct (Hnew j' g' Hj').
    + rewrite lookup_insert_eq in Hj'. rewrite lookup_insert_ne in Hj by done. simplify_eq. by destruct (Hnew j g Hj).
    + rewrite lookup_insert_ne in Hj, Hj' by done. by apply (Hb j g j' g').
  - cbn. pose proof (u16_range (va_idx (d_avail d) + 1)). tauto.
  - cbn. rewrite length_app. unfold NUM in Hshort. split; [rewrite (u16_window_push _ _ _ Ha1); [cbn; lia|lia]|].
    rewrite fmap_app. rewrite (window_end _ seen) by tauto. rewrite Ha1, <-(length_fmap Z.of_nat O).
    apply window_push; [apply Hl|rewrite length_fmap; done|done].
  - done.
  - by apply heads_add.
  - by apply heads_other.
  - by apply heads_other.
Qed.

(** ** The end of a request *)

Definition forget (i : nat) (d : disk) : disk := disk_with_info (alter (λ n, mk_info None (in_status n)) i (d_info d)) d.

Lemma owned_forget d d' F i f : owned d [] F → F !! i = Some f → d_free d' = d_free d → owned d' (chain i f) (delete i F).
Proof.
  intros [Hf [Hn1 Hn2] Hc Hd] Hi E. assert (Hdel : ∀ j g, delete i F !! j = Some g → F !! j = Some g ∧ j ≠ i).
  { intros j g Hj. by apply lookup_delete_Some in Hj as [? ?]. }
  assert (Hnot : ∀ x, x ∈ chain i f → ¬ in_use (delete i F) x).
  { intros x Hx (j & g & [Hj Hne]%Hdel & Hx'). by apply Hne, (Hd j g i f x). }
  split.
  - intros x Hx. destruct (Hf x Hx) as (v & Hv & H01 & Hiff). exists v. rewrite E. split; [done|]. split; [done|]. rewrite Hiff. split.
    + intros [Hnil|Hin]; [by apply elem_of_nil in Hnil|]. destruct (in_use_delete F i f x Hi Hin); tauto.
    + intros [Hx'|(j & g & [Hj _]%Hdel & Hx')]; right; [by exists i, f|by exists j, g].
  - destruct (Hc i f Hi) as [Hnd Hlt]. split; [done|]. intros x Hx. split; [by apply Hlt|by apply Hnot].
  - intros j g [Hj _]%Hdel. by apply Hc.
  - intros j g j' g' x [Hj _]%Hdel [Hj' _]%Hdel. by apply Hd.
Qed.

Lemma dinv_forget d F O T U seen i f :
  dinv d [] F O T U seen → F !! i = Some f → fl_phase f = Seen → dinv (forget i d) (chain i f) (delete i F) O T U seen.
Proof.
  intros [Hl Ho Hf Hb [Hidx Ha Hu HO HT HU]] Hi Hp.
  assert (Hdel : ∀ j g, delete i F !! j = Some g → F !! j = Some g ∧ j ≠ i) by (intros j g Hj; by apply lookup_delete_Some in Hj as [? ?]).
  split; [destruct Hl; split; cbn; rewrite ?length_alter; done|by eapply owned_forget| | |split; try done].
  - intros j g [Hj Hne]%Hdel. destruct (Hf j g Hj) as [? ? ? ? (st & Hst & Hst') ?]. split; [done..| |done].
    exists st. cbn. by rewrite list_lookup_alter_ne.
  - intros j g j' g' [Hj _]%Hdel [Hj' _]%Hdel. by apply Hb.
  - apply heads_delete; [done|]. rewrite (has_phase_at F i f) by done. by rewrite Hp.
  - apply heads_delete; [done|]. rewrite (has_phase_at F i f) by done. by rewrite Hp.
  - apply heads_delete; [done|]. rewrite (has_phase_at F i f) by done. by rewrite Hp.
Qed.

(** * The disk driver: its functions keep the invariant and do not panic *)

#[export] Instance vdisk_lock_var {D} : LockVar (@vdisk_lock D).
Proof. split; try done. by intros [? ? ? ? ? ? []]. Qed.

Lemma dinv_lock d l X F O T U seen : dinv d X F O T U seen → dinv (disk_with_lock l d) X F O T U seen.
Proof.
  intros [Hl Ho Hf Hb Hr]. split; [by destruct Hl|by destruct Ho| |done|by destruct Hr].
  intros i g Hi. by destruct (Hf i g Hi).
Qed.

Section runs.
Context {D : Type} `{Bus D} (h : nat).
Implicit Types s : machine D.

(** The driver's variables are [d], hart [h] runs process [me] with [n]
    pending calls of [push_off], and the rest of the kernel is [f]. *)
Definition at_disk s (d : disk) (me : option nat) (n : Z) (f : kfs) : Prop :=
  m_disk s = d ∧ hart_at h (m_kernel s) me n ∧ n_fs (m_kernel s) = f.

Context (me : option nat) (f : kfs).

Lemma runs_get_disk s d n (Q : disk → machine D → Prop) : at_disk s d me n f → Q d s → runs get_disk s Q.
Proof. intros (<- & _) HQ. by apply runs_gets. Qed.

Lemma runs_modify_disk s d n g (Q : unit → machine D → Prop) :
  at_disk s d me n f → (∀ s', at_disk s' (g d) me n f → Q tt s') → runs (modify_disk g) s Q.
Proof. intros (<- & Hk & Hf) HQ. apply runs_modify, HQ. done. Qed.

Lemma runs_disk_wake s d n ch (Q : unit → machine D → Prop) :
  at_disk s d me n f → (∀ s', at_disk s' d me n f → Q tt s') → runs (in_kernel (wakeup h ch)) s Q.
Proof.
  intros (<- & Hk & Hf) HQ. apply runs_in_kernel. eapply runs_wake; [done|]. intros k' Hk' E. apply HQ.
  split; [done|]. split; [done|]. cbn. rewrite <-Hf. by injection E.
Qed.

Lemma runs_disk_load s d n a (Q : Z → machine D → Prop) :
  at_disk s d me n f → (∀ v s', at_disk s' d me n f → Q v s') → runs (load_reg32 a) s Q.
Proof.
  intros Hs HQ. unfold load_reg32, load_dev. destruct (bus_load a (m_dev s)) as [v dv] eqn:E.
  apply runs_bind. eapply runs_eq; [by rewrite E|]. apply runs_ret, HQ. exact Hs.
Qed.

Lemma runs_disk_store s d n a v (Q : unit → machine D → Prop) :
  at_disk s d me n f → (∀ s', at_disk s' d me n f → Q tt s') → runs (store_reg32 a v) s Q.
Proof. intros Hs HQ. apply runs_modify, HQ. exact Hs. Qed.

(** ** Descriptors *)

Lemma free_desc_runs s d n i (Q : unit → machine D → Prop) :
  at_disk s d me n f → (i < Z.to_nat NUM)%nat → d_free d !! i = Some 0 →
  (∀ s', at_disk s' (free_at i d) me n f → Q tt s') → runs (free_desc h (Z.of_nat i)) s Q.
Proof.
  intros Hs Hi Hf HQ. unfold free_desc. unfold NUM in *. rewrite (proj2 (Z.leb_gt 8 _)), (proj2 (Z.ltb_ge _ 0)) by lia.
  apply runs_bind. eapply runs_get_disk; [done|]. rewrite Nat2Z.id, Hf. cbn.
  apply runs_bind. eapply runs_modify_disk; [done|]. intros s1 H1. apply runs_bind. eapply runs_modify_disk; [exact H1|].
  intros s2 H2. eapply runs_disk_wake; [exact H2|]. exact HQ.
Qed.

Lemma alloc_desc_runs s d n (Q : Z → machine D → Prop) :
  at_disk s d me n f →
  (∀ i v s', d_free d !! i = Some v → v ≠ 0 → at_disk s' (take_at i d) me n f → Q (Z.of_nat i) s') →
  (at_disk s d me n f → Q (-1) s) → runs alloc_desc s Q.
Proof.
  intros Hs HQ1 HQ2. unfold alloc_desc. apply runs_bind. eapply runs_get_disk; [done|]. pose proof (find_free_spec (d_free d) 0) as Hf.
  destruct (find_free (d_free d) 0) as [i|]; [|by apply runs_ret, HQ2].
  destruct Hf as (v & _ & Hv & Hne). rewrite Nat.sub_0_r in Hv. apply runs_bind. eapply runs_modify_disk; [done|].
  intros s1 H1. apply runs_ret. by eapply HQ1.
Qed.

Lemma owned_new_lookup d X F i : owned d X F → i ∈ X → (i < Z.to_nat NUM)%nat ∧ d_free d !! i = Some 0.
Proof.
  intros Ho Hi. destruct (ow_new _ _ _ Ho) as [_ Hn]. destruct (Hn i Hi) as [Hlt _]. split; [done|].
  destruct (ow_free _ _ _ Ho i Hlt) as (v & Hv & _ & Hiff). rewrite Hv. f_equal. apply Hiff. by left.
Qed.

Lemma free_descs_runs X : ∀ s d n F O T U seen (Q : unit → machine D → Prop),
  at_disk s d me n f → dinv d X F O T U seen →
  (∀ d' s', at_disk s' d' me n f → d_busy d' = d_busy d → d_lock d' = d_lock d → dinv d' [] F O T U seen → Q tt s') →
  runs (free_descs h (Z.of_nat <$> X)) s Q.
Proof.
  induction X as [|i X IH]; intros s d n F O T U seen Q Hs Hd HQ; cbn [fmap list_fmap free_descs]; [by apply runs_ret, (HQ d)|].
  destruct (owned_new_lookup d (i :: X) F i) as [Hlt Hz]; [apply Hd|left|]. apply runs_bind.
  eapply free_desc_runs; [done|done|done|]. intros s1 H1. eapply IH; [exact H1|by eapply dinv_free|]. intros d' s' Hs' Eb El Hd'.
  by apply (HQ d').
Qed.

Lemma alloc_descs_runs m : ∀ X s d n F O T U seen (Q : option (list Z) → machine D → Prop),
  at_disk s d me n f → dinv d X F O T U seen →
  (∀ X' d' s', at_disk s' d' me n f → d_busy d' = d_busy d → d_lock d' = d_lock d → length X' = (length X + m)%nat →
     dinv d' X' F O T U seen → Q (Some (Z.of_nat <$> X')) s') →
  (∀ d' s', at_disk s' d' me n f → d_busy d' = d_busy d → d_lock d' = d_lock d → dinv d' [] F O T U seen → Q None s') →
  runs (alloc_descs h m (Z.of_nat <$> X)) s Q.
Proof.
  induction m as [|m IH]; intros X s d n F O T U seen Q Hs Hd HQ1 HQ2; cbn [alloc_descs].
  { apply runs_ret. by apply (HQ1 X d); [..|lia|]. }
  apply runs_bind. eapply alloc_desc_runs; [done| |].
  - intros i v s1 Hi Hv H1. rewrite (proj2 (Z.ltb_ge _ 0)) by lia.
    replace ((Z.of_nat <$> X) ++ [Z.of_nat i]) with (Z.of_nat <$> X ++ [i]) by (by rewrite fmap_app).
    eapply IH; [exact H1|by eapply dinv_take| |].
    + intros X' d' s' Hs' Eb El Hlen Hd'. apply (HQ1 X' d'); [done..| |done]. rewrite length_app in Hlen. cbn in Hlen. lia.
    + intros d' s' Hs' Eb El Hd'. by apply (HQ2 d').
  - intros _. cbn. apply runs_bind. eapply free_descs_runs; [done|done|]. intros d' s' Hs' Eb El Hd'. apply runs_ret. by apply (HQ2 d').
Qed.

Lemma free_chain_step s d n X F O T U seen i c m (Q : unit → machine D → Prop) :
  at_disk s d me n f → dinv d (i :: X) F O T U seen → d_desc d !! i = Some c →
  (∀ s', at_disk s' (free_at i d) me n f → dinv (free_at i d) X F O T U seen →
     runs (if negb (Z.land (vd_flags c) VRING_DESC_F_NEXT =? 0) then free_chain_loop h m (vd_next c) else mret tt) s' Q) →
  runs (free_chain_loop h (S m) (Z.of_nat i)) s Q.
Proof.
  intros Hs Hd Hc HQ. destruct (owned_new_lookup d _ F i ltac:(apply Hd) ltac:(left)) as [Hlt Hz]. cbn [free_chain_loop].
  apply runs_bind. eapply runs_get_disk; [done|]. rewrite Nat2Z.id, Hc. apply runs_bind. eapply free_desc_runs; [done|done|done|].
  intros s1 Hs1. apply HQ; [done|]. by eapply dinv_free.
Qed.

(** The three descriptors of a chain. *)
Lemma free_chain_runs s d n F O T U seen i g (Q : unit → machine D → Prop) :
  at_disk s d me n f → dinv d (chain i g) F O T U seen →
  d_desc d !! i = Some (mk_virtq_desc (DOps i) sizeof_virtio_blk_req VRING_DESC_F_NEXT (Z.of_nat (fl_i1 g))) →
  d_desc d !! fl_i1 g = Some (mk_virtq_desc (DData (fl_b g)) BSIZE (data_flags (fl_write g)) (Z.of_nat (fl_i2 g))) →
  d_desc d !! fl_i2 g = Some (mk_virtq_desc (DStatus i) 1 VRING_DESC_F_WRITE 0) →
  (∀ d' s', at_disk s' d' me n f → d_busy d' = d_busy d → d_lock d' = d_lock d → dinv d' [] F O T U seen → Q tt s') →
  runs (free_chain h (Z.of_nat i)) s Q.
Proof.
  intros Hs Hd E0 E1 E2 HQ. assert (Hnd : NoDup (chain i g)) by apply (ow_new _ _ _ (dv_owned _ _ _ _ _ _ _ Hd)).
  unfold chain in *. rewrite !list.NoDup_cons, !not_elem_of_cons in Hnd. destruct Hnd as ((? & ? & _) & (? & _) & _).
  unfold free_chain. change (Z.to_nat NUM + 1)%nat with 9%nat.
  eapply free_chain_step; [done|done|done|]. intros s1 Hs1 Hd1. cbn [vd_flags vd_next]. change (negb _) with true. cbv iota.
  eapply free_chain_step; [done|done|cbn; by rewrite list_lookup_insert_ne|]. intros s2 Hs2 Hd2. cbn [vd_flags vd_next].
  replace (negb _) with true by (by destruct (fl_write g)).
  eapply free_chain_step; [done|done|cbn; by rewrite !list_lookup_insert_ne|]. intros s3 Hs3 Hd3. cbn [vd_flags vd_next].
  change (negb _) with false. cbv iota. apply runs_ret. by eapply HQ.
Qed.

End runs.

(** ** Requests and interrupts *)

Section requests.
Context {D : Type} `{Bus D} (h : nat).
Implicit Types s : machine D.

(** A state between two calls, with [nb] buffers. *)
Definition rests s (f : kfs) (nb : nat) (F : gmap nat flight) (O T U : list nat) (seen : Z) : Prop :=
  n_fs (m_kernel s) = f ∧ length (d_busy (m_disk s)) = nb ∧ unlocked (d_lock (m_disk s)) ∧ dinv (m_disk s) [] F O T U seen.

(** A state inside a call of process [p]. *)
Definition inside s (p : nat) (f : kfs) (nb : nat) (F : gmap nat flight) (O T U : list nat) (seen : Z) : Prop :=
  ∃ d l, at_disk h s d (Some p) 1 f ∧ length (d_busy d) = nb ∧ d_lock d = held_by h l ∧ unlocked l ∧ dinv d [] F O T U seen.

Lemma runs_disk_acquire s p me n f nb F O T U seen (Q : unit → machine D → Prop) :
  rests s f nb F O T U seen → hart_at h (m_kernel s) me n →
  (∀ d l s', at_disk h s' d me (n + 1) f → length (d_busy d) = nb → d_lock d = held_by h l → unlocked l → dinv d [] F O T U seen →
     (me = Some p → n = 0 → inside s' p f nb F O T U seen) → Q tt s') →
  runs (acquire_m h vdisk_lock) s Q.
Proof.
  intros (Hf & Hb & Hl & Hd) Hk HQ. eapply (runs_acquire_m h vdisk_lock); [done|done|]. intros k Hk' E.
  set (s' := with_kernel _ _). assert (Hat : at_disk h s' (m_disk s') me (n + 1) f).
  { split; [done|]. split; [done|]. cbn. rewrite <-Hf. by injection E. }
  assert (Hd' : dinv (m_disk s') [] F O T U seen) by (by apply dinv_lock).
  apply (HQ (m_disk s') (d_lock (m_disk s)) s'); [done|done|done|done|done|]. intros -> ->. by exists (m_disk s'), (d_lock (m_disk s)).
Qed.

Lemma runs_disk_sleep s p f nb F O T U seen ch (Q : bool → machine D → Prop) :
  inside s p f nb F O T U seen → (∀ b s', rests s' f nb F O T U seen → Q b s') → runs (sleep_on h ch vdisk_lock) s Q.
Proof.
  intros (d & l & (Ed & Hk & Hf) & Hb & El & Hl & Hd) HQ. subst d. eapply (runs_sleep_on h vdisk_lock); [exact El|done|done|].
  intros b k E. apply HQ. split; [cbn; congruence|]. split; [done|]. split; [done|]. by apply dinv_lock.
Qed.

Lemma rw_wait_runs s p f nb F O T U seen i g :
  inside s p f nb F O T U seen → F !! i = Some g →
  runs (rw_wait h (fl_b g) i) s (λ r s',
    if decide (fl_phase g = Seen) then r = RwDone ∧ rests s' f nb (delete i F) O T U seen
    else ∃ b, r = RwSubmitted i b ∧ rests s' f nb F O T U seen).
Proof.
  intros (d & l & Hs & Hb & El & Hl & Hd) Hi. destruct (dv_flights _ _ _ _ _ _ _ Hd i g Hi) as [E0 E1 E2 _ _ Ebusy].
  unfold rw_wait. apply runs_bind. eapply runs_get_disk; [done|]. rewrite Ebusy. destruct (decide _) as [Hp|Hp]; cbn.
  - apply runs_bind. eapply runs_modify_disk; [done|]. intros s1 Hs1. apply runs_bind.
    eapply (free_chain_runs h (Some p) f s1 (forget i d) 1 (delete i F) _ _ _ _ i g); [exact Hs1|by apply dinv_forget|done|done|done|].
    intros d' s2 (Ed & Hk2 & Hf2) Eb El' Hd'. apply runs_bind. subst d'.
    eapply (runs_release_m h vdisk_lock s2 l); [exact (eq_trans El' El)|done|done|lia|]. intros k Hk E. apply runs_ret. split; [done|].
    split; [cbn; rewrite <-Hf2; by injection E|]. split; [cbn; by rewrite Eb|]. split; [done|]. by apply dinv_lock.
  - apply runs_bind. eapply runs_disk_sleep; [by exists d, l|]. intros b s' Hs'. apply runs_ret. by exists b.
Qed.

Lemma rw_submit_runs s p f nb F O T U seen i0 i1 i2 b write sector (Q : unit → machine D → Prop) :
  (∃ d l, at_disk h s d (Some p) 1 f ∧ length (d_busy d) = nb ∧ d_lock d = held_by h l ∧ unlocked l ∧ dinv d [i0; i1; i2] F O T U seen) →
  (b < nb)%nat → (∀ j g, F !! j = Some g → fl_b g ≠ b) →
  (∀ s', inside s' p f nb (<[i0 := mk_flight i1 i2 b write sector Offered 0]> F) (O ++ [i0]) T U seen → Q tt s') →
  runs (rw_submit b write sector i0 i1 i2) s Q.
Proof.
  intros (d & l & Hs & Hb & El & Hl & Hd) Hlt Hnew HQ. unfold rw_submit. apply runs_bind. eapply runs_modify_disk; [done|]. intros s1 Hs1.
  apply runs_bind. eapply runs_modify_disk; [exact Hs1|]. intros s2 Hs2. apply runs_bind. eapply runs_modify_disk; [exact Hs2|]. intros s3 Hs3.
  eapply runs_disk_store; [exact Hs3|]. intros s4 Hs4. apply HQ. exists (submitted i0 i1 i2 b write sector d), l.
  split; [done|]. split; [cbn; by rewrite length_insert|]. split; [done|]. split; [done|]. apply dinv_submit; [done|lia|done].
Qed.

Lemma rw_alloc_runs s p f nb F O T U seen b write sector :
  inside s p f nb F O T U seen → (b < nb)%nat → (∀ j g, F !! j = Some g → fl_b g ≠ b) →
  runs (rw_alloc h b write sector) s (λ r s',
    (∃ e, r = RwNoDesc e ∧ rests s' f nb F O T U seen) ∨
    (∃ i0 i1 i2 e, r = RwSubmitted i0 e ∧ F !! i0 = None ∧
       rests s' f nb (<[i0 := mk_flight i1 i2 b write sector Offered 0]> F) (O ++ [i0]) T U seen)).
Proof.
  intros (d & l & Hs & Hb & El & Hl & Hd) Hlt Hnew. unfold rw_alloc, alloc3_desc. apply runs_bind.
  eapply (alloc_descs_runs h (Some p) f 3 []); [exact Hs|exact Hd| |].
  - intros X' d' s' Hs' Eb El' Hlen Hd'. destruct X' as [|i0 [|i1 [|i2 [|]]]]; try discriminate Hlen. cbn [fmap list_fmap].
    rewrite !Nat2Z.id. apply runs_bind. eapply (rw_submit_runs s' p f nb F O T U seen); [|done|done|].
    + exists d', l. by rewrite Eb, El'.
    + intros s2 Hs2. assert (Hi : F !! i0 = None).
      { destruct (F !! i0) as [g|] eqn:Eg; [|done]. destruct (ow_new _ _ _ (dv_owned _ _ _ _ _ _ _ Hd')) as [_ Hn].
        destruct (Hn i0 ltac:(left)) as [_ []]. exists i0, g. split; [done|left]. }
      eapply runs_mono; [apply (rw_wait_runs s2 p f nb _ _ _ _ _ i0 (mk_flight i1 i2 b write sector Offered 0) Hs2); by rewrite lookup_insert_eq|].
      intros r s3. cbn. intros (e & -> & Hr). right. by exists i0, i1, i2, e.
  - intros d' s' Hs' Eb El' Hd'. apply runs_bind. eapply runs_disk_sleep; [exists d', l; by rewrite Eb, El'|].
    intros e s2 Hs2. apply runs_ret. left. by exists e.
Qed.

(** The requests in [U] are seen. *)
Definition see (U : list nat) (i : nat) (g : flight) : flight := if decide (i ∈ U) then with_phase Seen 0 g else g.

(** The requests in [U] have succeeded. *)
Definition succeeded (F : gmap nat flight) (U : list nat) : Prop := ∀ i g, i ∈ U → F !! i = Some g → fl_status g = 0.

(** The entry of the used ring that the handler looks at. *)
Lemma used_entry d F O T i U seen g :
  dinv d [] F O T (i :: U) seen → F !! i = Some g → d_used_idx d ≠ vu_idx (d_used d) ∧
  ∃ e, vu_ring (d_used d) !! Z.to_nat (d_used_idx d mod NUM) = Some e ∧ Z.to_nat (ve_id e) = i ∧
    d_info d !! i = Some (mk_info (Some (fl_b g)) (fl_status g)).
Proof.
  intros Hd Hg. assert (Hh : heads F Finished (i :: U)) by apply (dv_rings _ _ _ _ _ _ _ Hd).
  destruct (proj1 (proj2 Hh i) ltac:(left)) as (g' & Hg' & Hp). rewrite Hg in Hg'. injection Hg' as <-.
  destruct (dv_flights _ _ _ _ _ _ _ Hd i g Hg) as [_ _ _ _ (st & Einfo & Hst & _) _].
  destruct (ri_used _ _ _ _ _ _ (dv_rings _ _ _ _ _ _ _ Hd)) as [Hu Hw]. apply window_head in Hw. rewrite list_lookup_fmap in Hw.
  apply fmap_Some in Hw as (e & He & Eid). split.
  - intros E. rewrite E, Z.sub_diag in Hu. change (u16 0) with 0 in Hu. cbn [length] in Hu. lia.
  - exists e. split; [done|]. rewrite <-Eid, Nat2Z.id. split; [done|]. rewrite Einfo, Hst; [done|]. by rewrite Hp.
Qed.

Lemma intr_loop_runs U : ∀ s d me n f nb F O T seen l,
  at_disk h s d me n f → length (d_busy d) = nb → d_lock d = held_by h l → dinv d [] F O T U seen → succeeded F U →
  runs (intr_loop h (S (length U))) s (λ _ s', ∃ d' F', at_disk h s' d' me n f ∧ length (d_busy d') = nb ∧ d_lock d' = held_by h l ∧
    dinv d' [] F' O T [] seen ∧ ∀ i, F' !! i = see U i <$> F !! i).
Proof.
  induction U as [|i U IH]; intros s d me n f nb F O T seen l Hs Hb El Hd Hok; cbn [intr_loop length].
  - apply runs_bind. eapply runs_get_disk; [done|]. destruct (ri_used _ _ _ _ _ _ (dv_rings _ _ _ _ _ _ _ Hd)) as [Hu _].
    destruct (ri_idx _ _ _ _ _ _ (dv_rings _ _ _ _ _ _ _ Hd)) as (_ & H1 & H2 & _). unfold u16 in Hu. cbn [length] in Hu.
    assert (E : d_used_idx d = vu_idx (d_used d)) by (pose proof (Z.div_mod (vu_idx (d_used d) - d_used_idx d) (2 ^ 16)); lia).
    rewrite E, Z.eqb_refl. apply runs_ret. exists d, F. ands; try done. intros i. unfold see. destruct (F !! i); [|done]. cbn.
    rewrite decide_False; [done|apply not_elem_of_nil].
  - assert (Hh : heads F Finished (i :: U)) by apply (dv_rings _ _ _ _ _ _ _ Hd).
    destruct (proj1 (proj2 Hh i) ltac:(left)) as (g & Hg & _). pose proof (Hok i g ltac:(left) Hg) as H0.
    destruct (used_entry d F O T i U seen g Hd Hg) as (Hne & e & He & Eid & Einfo). apply runs_bind. eapply runs_get_disk; [done|].
    rewrite (proj2 (Z.eqb_neq _ _)) by done. rewrite He, Eid, Einfo. cbn [in_status in_b]. rewrite H0. cbn [Z.eqb negb].
    apply runs_bind. eapply runs_modify_disk; [done|]. intros s1 Hs1. apply runs_bind. eapply runs_disk_wake; [exact Hs1|]. intros s2 Hs2.
    apply runs_bind. eapply runs_modify_disk; [exact Hs2|]. intros s3 Hs3. eapply runs_mono.
    + eapply (IH s3 (acknowledge (fl_b g) d) me n f nb _ O T seen l); [exact Hs3|cbn; by rewrite length_insert|done|by eapply dinv_seen|].
      intros j g' Hj (g1 & H1 & ->)%(lookup_phase F i g Seen 0); [|done]. destruct (decide (j = i)); [done|]. by apply (Hok j); [right|].
    + intros _ s' (d' & F' & Hs' & Hb' & El' & Hd' & HF). exists d', F'. ands; try done. intros j. rewrite HF. unfold see.
      destruct (decide (j = i)) as [->|Hj].
      * rewrite lookup_insert_eq, Hg. cbn. rewrite (decide_True (P := i ∈ i :: U)) by left. by destruct (decide _).
      * rewrite lookup_insert_ne by done. destruct (F !! j); [|done]. cbn. f_equal.
        apply decide_ext. rewrite elem_of_cons. naive_solver.
Qed.

(** A request that has failed makes the handler panic. *)
Lemma intr_loop_panics U : ∀ s d me n f F O T seen,
  at_disk h s d me n f → dinv d [] F O T U seen → (∃ i g, i ∈ U ∧ F !! i = Some g ∧ fl_status g ≠ 0) →
  intr_loop h (S (length U)) s = Panic "virtio_disk_intr status".
Proof.
  induction U as [|i U IH]; intros s d me n f F O T seen Hs Hd (j & gj & Hj & Hgj & Hst); [by apply elem_of_nil in Hj|].
  cbn [intr_loop length]. assert (Hh : heads F Finished (i :: U)) by apply (dv_rings _ _ _ _ _ _ _ Hd).
  destruct (proj1 (proj2 Hh i) ltac:(left)) as (g & Hg & _).
  destruct (used_entry d F O T i U seen g Hd Hg) as (Hne & e & He & Eid & Einfo). apply panics_later. eapply runs_get_disk; [done|].
  rewrite (proj2 (Z.eqb_neq _ _)) by done. rewrite He, Eid, Einfo. cbn [in_status in_b].
  destruct (Z.eqb_spec (fl_status g) 0) as [E|E]; cbn [negb]; [|done].
  apply panics_later. eapply runs_modify_disk; [done|]. intros s1 Hs1. apply panics_later. eapply runs_disk_wake; [exact Hs1|]. intros s2 Hs2.
  apply panics_later. eapply runs_modify_disk; [exact Hs2|]. intros s3 Hs3.
  apply (IH s3 (acknowledge (fl_b g) d) me n f (<[i := with_phase Seen 0 g]> F) O T seen); [exact Hs3|by eapply dinv_seen|].
  exists j, gj. apply elem_of_cons in Hj as [->|Hj]; [congruence|]. split; [done|]. rewrite lookup_insert_ne; [done|]. congruence.
Qed.

Lemma virtio_disk_intr_runs s me n f nb F O T U seen :
  rests s f nb F O T U seen → hart_at h (m_kernel s) me n → 0 ≤ n → succeeded F U →
  runs (virtio_disk_intr h) s (λ _ s', ∃ F', rests s' f nb F' O T [] seen ∧ ∀ i, F' !! i = see U i <$> F !! i).
Proof.
  intros Hr Hk Hn Hok. unfold virtio_disk_intr. apply runs_bind. eapply (runs_disk_acquire s 0 me n); [done|done|].
  intros d l s1 Hs1 Hb El Hl Hd _. apply runs_bind. eapply runs_disk_load; [exact Hs1|]. intros v s2 Hs2.
  apply runs_bind. eapply runs_disk_store; [exact Hs2|]. intros s3 Hs3. apply runs_bind. eapply runs_get_disk; [exact Hs3|].
  destruct (ri_used _ _ _ _ _ _ (dv_rings _ _ _ _ _ _ _ Hd)) as [Hu _]. rewrite Hu, Nat2Z.id. apply runs_bind.
  eapply runs_mono; [by eapply intr_loop_runs|]. intros _ s4 (d' & F' & (Ed & Hk4 & Hf4) & Hb' & El' & Hd' & HF). subst d'.
  eapply (runs_release_m h vdisk_lock); [exact El'|done|done|lia|]. intros k Hk5 E. exists F'. split; [|done].
  split; [cbn; rewrite <-Hf4; by injection E|]. split; [done|]. split; [done|]. by apply dinv_lock.
Qed.

Lemma virtio_disk_intr_panics s me n f nb F O T U seen :
  rests s f nb F O T U seen → hart_at h (m_kernel s) me n → (∃ i g, i ∈ U ∧ F !! i = Some g ∧ fl_status g ≠ 0) →
  virtio_disk_intr h s = Panic "virtio_disk_intr status".
Proof.
  intros Hr Hk Hbad. unfold virtio_disk_intr. apply panics_later. eapply (runs_disk_acquire s 0 me n); [done|done|].
  intros d l s1 Hs1 Hb El Hl Hd _. apply panics_later. eapply runs_disk_load; [exact Hs1|]. intros v s2 Hs2.
  apply panics_later. eapply runs_disk_store; [exact Hs2|]. intros s3 Hs3. apply panics_later. eapply runs_get_disk; [exact Hs3|].
  destruct (ri_used _ _ _ _ _ _ (dv_rings _ _ _ _ _ _ _ Hd)) as [Hu _]. rewrite Hu, Nat2Z.id.
  apply panics_here. by eapply intr_loop_panics.
Qed.

(** The statuses of the requests that the handler has not looked at, as the
    structures have them. *)
Definition unseen (d : disk) : nat := Z.to_nat (u16 (vu_idx (d_used d) - d_used_idx d)).

Definition unseen_status (d : disk) (k : nat) : option Z :=
  e ← vu_ring (d_used d) !! Z.to_nat ((d_used_idx d + Z.of_nat k) mod NUM);
  in_status <$> d_info d !! Z.to_nat (ve_id e).

Definition no_errors (d : disk) : bool := forallb (λ k, bool_decide (unseen_status d k = Some 0)) (seq 0 (unseen d)).

Lemma no_errors_spec d F O T U seen : dinv d [] F O T U seen →
  if no_errors d then succeeded F U else ∃ i g, i ∈ U ∧ F !! i = Some g ∧ fl_status g ≠ 0.
Proof.
  intros Hd. pose proof (dv_rings _ _ _ _ _ _ _ Hd) as [_ _ [Hu Hw] _ _ [_ HU]].
  assert (Hlen : unseen d = length U) by (unfold unseen; by rewrite Hu, Nat2Z.id).
  assert (Hat : ∀ k i, U !! k = Some i → ∃ g, F !! i = Some g ∧ unseen_status d k = Some (fl_status g)).
  { intros k i Hk. destruct (proj1 (HU i)) as (g & Hg & Hp); [by eapply list_elem_of_lookup_2|]. exists g. split; [done|].
    specialize (Hw k (Z.of_nat i)). rewrite !list_lookup_fmap, Hk in Hw. specialize (Hw eq_refl). unfold unseen_status.
    destruct (vu_ring (d_used d) !! _) as [e|]; [|done]. injection Hw as Eid. cbn [mbind option_bind]. rewrite Eid, Nat2Z.id.
    destruct (dv_flights _ _ _ _ _ _ _ Hd i g Hg) as [_ _ _ _ (st & Einfo & Hst & _) _]. rewrite Einfo. cbn. rewrite Hst; [done|]. by rewrite Hp. }
  destruct (no_errors d) eqn:E.
  - intros i g Hi Hg. apply list_elem_of_lookup in Hi as [k Hk]. destruct (Hat k i Hk) as (g' & Hg' & Hs). rewrite Hg in Hg'. injection Hg' as <-.
    assert (Hk' : bool_decide (unseen_status d k = Some 0) = true).
    { unfold no_errors in E. rewrite forallb_forall in E. apply E. apply list_elem_of_In, elem_of_seq. apply lookup_lt_Some in Hk. lia. }
    apply bool_decide_eq_true in Hk'. congruence.
  - assert (Hex : existsb (λ k, negb (bool_decide (unseen_status d k = Some 0))) (seq 0 (unseen d)) = true).
    { apply not_false_iff_true. intros Hno. apply not_true_iff_false in E. apply E. apply forallb_forall. intros k Hk.
      rewrite <-not_true_iff_false in Hno. destruct (bool_decide (unseen_status d k = Some 0)) eqn:Eb; [done|]. destruct Hno.
      apply existsb_exists. exists k. by rewrite Eb. }
    apply existsb_exists in Hex as (k & Hk%list_elem_of_In%elem_of_seq & Hb). destruct (lookup_lt_is_Some_2 U k) as [i Hi]; [lia|].
    destruct (Hat k i Hi) as (g & Hg & Hs). exists i, g. split; [by eapply list_elem_of_lookup_2|]. split; [done|].
    intros E0. rewrite Hs, E0 in Hb. by rewrite bool_decide_true in Hb.
Qed.
End requests.
