(* ===== verification/VirtioSystem.v ===== *)
(** * The disk driver, the device and the processes that use the disk

    The states that processes, interrupts and the device reach together.
    The code between two points where a process can be switched is one
    step: it runs with [vdisk_lock] held.  The rest of the kernel may do
    what it likes between the steps, except that nobody else uses the disk
    or a buffer with a request in progress (its owner holds the sleep lock
    of the buffer).  The device may end a request with an error status.
    [call_history] follows a call of [virtio_disk_rw] along a sequence of
    such steps. *)

From S2P Require Import Prelude Spinlock Riscv Mem KString Vm FsState Bio Proc ProcSpec Machine MachineSpec Virtio VirtioSpec.

(** ** The device *)

(** The request that starts at descriptor [i], as the virtio standard
    reads it: buffer, direction, sector, status byte. *)
Definition decode (d : disk) (i : nat) : option (nat * bool * Z * nat) :=
  c0 ← d_desc d !! i;
  match vd_addr c0 with
  | DOps o =>
    r ← d_ops d !! o;
    c1 ← d_desc d !! Z.to_nat (vd_next c0);
    match vd_addr c1 with
    | DData b =>
      c2 ← d_desc d !! Z.to_nat (vd_next c1);
      match vd_addr c2 with
      | DStatus j =>
        let write := rq_type r =? VIRTIO_BLK_T_OUT in
        if (vd_len c0 =? sizeof_virtio_blk_req) && (vd_flags c0 =? VRING_DESC_F_NEXT) &&
           ((rq_type r =? VIRTIO_BLK_T_OUT) || (rq_type r =? VIRTIO_BLK_T_IN)) &&
           (vd_len c1 =? BSIZE) && (vd_flags c1 =? data_flags write) &&
           (vd_len c2 =? 1) && (vd_flags c2 =? VRING_DESC_F_WRITE)
        then Some (b, write, rq_sector r, j) else None
      | _ => None
      end
    | _ => None
    end
  | _ => None
  end.

(** New contents of a block of the disk or of a buffer. *)
Definition deposit (b : nat) (write : bool) (sector : Z) (data : blk) (f : kfs) : kfs :=
  let block := sector / (BSIZE / 512) in
  match bc_buf (k_bc f) !! b with
  | None => f
  | Some bb =>
    if write then with_disk (<[block := data]> (k_disk f)) (k_writes f ++ [(block, data)]) f
    else with_bc (mk_bcache (bc_lock (k_bc f)) (<[b := buf_with_data data bb]> (bc_buf (k_bc f))) (bc_lru (k_bc f))) f
  end.

(** The transfer between a block of the disk and a buffer. *)
Definition transfer (b : nat) (write : bool) (sector : Z) (f : kfs) : kfs :=
  match bc_buf (k_bc f) !! b with
  | None => f
  | Some bb => deposit b write sector (if write then b_data bb else disk_at (k_disk f) (sector / (BSIZE / 512))) f
  end.

(** A request that ends with status [st]: with status 0 the data has been
    transferred; with another one the block or the buffer that it was for
    can hold anything. *)
Definition handled (st : Z) (b : nat) (write : bool) (sector : Z) (f f' : kfs) : Prop :=
  if decide (st = 0) then f' = transfer b write sector f
  else f' = f ∨ ∃ data, f' = deposit b write sector data f.

(** What the driver relies on: a device that handles the request at [i],
    if it is a well-formed one, stores a status that says whether the data
    has been transferred, and adds the request to the used ring. *)
Definition virtio_device (handle : nat → disk * kfs → disk * kfs → Prop) : Prop :=
  ∀ i d f d' f' b write sector j,
    handle i (d, f) (d', f') → decode d i = Some (b, write, sector, j) →
    ∃ st len, 0 ≤ st < 256 ∧ d' = finish i j st len d ∧ handled st b write sector f f'.

(** ** The system *)

(** A call of [virtio_disk_rw] in progress: without descriptors, or with a
    request. *)
Inductive call := NoDesc (write : bool) (sector : Z) | InFlight (write : bool) (i0 : nat).

Inductive event := Submit (b : nat) (write : bool) | Serve (b : nat) (write : bool) | Complete (b : nat) (write : bool).

Definition event_buf (e : event) : nat := match e with Submit b _ | Serve b _ | Complete b _ => b end.

(** [y_calls]: the calls in progress, by buffer. *)
Record sys (D : Type) := mk_sys {
  y_machine : machine D;
  y_seen : Z;
  y_taken : list nat;
  y_calls : gmap nat call;
  y_trace : list event;
}.
Arguments mk_sys {D}.
Arguments y_machine {D}.
Arguments y_seen {D}.
Arguments y_taken {D}.
Arguments y_calls {D}.
Arguments y_trace {D}.

Section system.
Context {D : Type} `{Bus D} (handle : nat → disk * kfs → disk * kfs → Prop).
Implicit Types (s : machine D) (y : sys D) (F : gmap nat flight).

Definition bufs y : list buf := bc_buf (k_bc (n_fs (m_kernel (y_machine y)))).

(** Buffer [b] can be transferred: its block is on a disk of less than
    2^31 blocks. *)
Definition valid_buf (l : list buf) (b : nat) (sector : Z) : Prop :=
  (b < Z.to_nat NBUF)%nat ∧ ∃ bb, l !! b = Some bb ∧ 0 ≤ b_blockno bb < 2 ^ 31 ∧ sector = u32 (b_blockno bb * (BSIZE / 512)).

Definition alloc_result y (b : nat) (write : bool) (sector : Z) (r : rw_state) (m : machine D) : sys D :=
  match r with
  | RwNoDesc _ => mk_sys m (y_seen y) (y_taken y) (<[b := NoDesc write sector]> (y_calls y)) (y_trace y)
  | RwSubmitted i0 _ => mk_sys m (y_seen y) (y_taken y) (<[b := InFlight write i0]> (y_calls y)) (y_trace y ++ [Submit b write])
  | RwDone => mk_sys m (y_seen y) (y_taken y) (delete b (y_calls y)) (y_trace y ++ [Submit b write; Complete b write])
  end.

Definition wait_result y (b : nat) (write : bool) (r : rw_state) (m : machine D) : sys D :=
  match r with
  | RwDone => mk_sys m (y_seen y) (y_taken y) (delete b (y_calls y)) (y_trace y ++ [Complete b write])
  | _ => mk_sys m (y_seen y) (y_taken y) (y_calls y) (y_trace y)
  end.

Definition rw_again (h b : nat) (write : bool) (sector : Z) : M (machine D) rw_state :=
  acquire_m h vdisk_lock;; rw_alloc h b write sector.

Definition rw_check (h b i0 : nat) : M (machine D) rw_state := acquire_m h vdisk_lock;; rw_wait h b i0.

(** Process [p] on hart [h] can run driver code. *)
Definition ready y (h p : nat) : Prop := hart_at h (m_kernel (y_machine y)) (Some p) 0.

Definition set_disk_fs (d : disk) (f : kfs) s : machine D := with_vdisk d (with_kernel (with_fs f (m_kernel s)) s).

Inductive step y : sys D → Prop :=
  | step_start h p b write sector r m :
      y_calls y !! b = None → valid_buf (bufs y) b sector → ready y h p →
      virtio_disk_rw h b write (y_machine y) = Ret (r, m) → step y (alloc_result y b write sector r m)
  | step_again h p b write sector r m :
      y_calls y !! b = Some (NoDesc write sector) → ready y h p →
      rw_again h b write sector (y_machine y) = Ret (r, m) → step y (alloc_result y b write sector r m)
  | step_check h p b write i0 r m :
      y_calls y !! b = Some (InFlight write i0) → ready y h p →
      rw_check h b i0 (y_machine y) = Ret (r, m) → step y (wait_result y b write r m)
  | step_intr h me n m :
      hart_at h (m_kernel (y_machine y)) me n → 0 ≤ n → virtio_disk_intr h (y_machine y) = Ret (tt, m) →
      step y (mk_sys m (y_seen y) (y_taken y) (y_calls y) (y_trace y))
  | step_take i :
      y_seen y ≠ va_idx (d_avail (m_disk (y_machine y))) →
      va_ring (d_avail (m_disk (y_machine y))) !! Z.to_nat (y_seen y mod NUM) = Some (Z.of_nat i) →
      step y (mk_sys (y_machine y) (u16 (y_seen y + 1)) (y_taken y ++ [i]) (y_calls y) (y_trace y))
  | step_serve i taken d f :
      y_taken y ≡ₚ i :: taken → handle i (m_disk (y_machine y), n_fs (m_kernel (y_machine y))) (d, f) →
      step y (mk_sys (set_disk_fs d f (y_machine y)) (y_seen y) taken (y_calls y)
        (y_trace y ++ match decode (m_disk (y_machine y)) i with Some (b, write, _, _) => [Serve b write] | None => [] end))
  | step_kernel m :
      m_disk m = m_disk (y_machine y) → k_disk (n_fs (m_kernel m)) = k_disk (n_fs (m_kernel (y_machine y))) →
      (∀ b, is_Some (y_calls y !! b) → bc_buf (k_bc (n_fs (m_kernel m))) !! b = bufs y !! b) →
      step y (mk_sys m (y_seen y) (y_taken y) (y_calls y) (y_trace y)).

(** After [virtio_disk_init]. *)
Definition started y : Prop :=
  let d := m_disk (y_machine y) in
  d_desc d = replicate (Z.to_nat NUM) no_desc ∧ d_free d = replicate (Z.to_nat NUM) 1 ∧
  d_avail d = mk_virtq_avail 0 0 (replicate (Z.to_nat NUM) 0) ∧
  d_used d = mk_virtq_used 0 0 (replicate (Z.to_nat NUM) (mk_virtq_used_elem 0 0)) ∧ d_used_idx d = 0 ∧
  length (d_info d) = Z.to_nat NUM ∧ length (d_ops d) = Z.to_nat NUM ∧ length (d_busy d) = Z.to_nat NBUF ∧ unlocked (d_lock d) ∧
  y_seen y = 0 ∧ y_taken y = [] ∧ y_calls y = ∅ ∧ y_trace y = [].

Inductive reached : sys D → Prop :=
  | reached_start y : started y → reached y
  | reached_step y y' : reached y → step y y' → reached y'.

(** ** Protocol of the events of a buffer *)

Inductive pstate := PIdle | PSubmitted (write : bool) | PServed (write : bool).

Definition pstep (b : nat) (st : option pstate) (e : event) : option pstate :=
  if decide (event_buf e = b) then
    match st, e with
    | Some PIdle, Submit _ w => Some (PSubmitted w)
    | Some (PSubmitted w), Serve _ w' => if eqb w w' then Some (PServed w) else None
    | Some (PServed w), Complete _ w' => if eqb w w' then Some PIdle else None
    | _, _ => None
    end
  else st.

(** Submission, service and completion of [b] alternate in [tr]; the
    result is how far the current request is. *)
Definition protocol (b : nat) (tr : list event) : option pstate := foldl (pstep b) (Some PIdle) tr.
Arguments protocol : simpl never.

(** ** The invariant *)

Definition progress (F : gmap nat flight) (c : option call) : pstate :=
  match c with
  | Some (InFlight w i) =>
    match F !! i with
    | Some g => match fl_phase g with Offered | Taken => PSubmitted w | _ => PServed w end
    | None => PIdle
    end
  | _ => PIdle
  end.

Record calls_ok y (F : gmap nat flight) : Prop := {
  co_flight : ∀ i g, F !! i = Some g →
    y_calls y !! fl_b g = Some (InFlight (fl_write g) i) ∧ valid_buf (bufs y) (fl_b g) (fl_sector g);
  co_call : ∀ b w i, y_calls y !! b = Some (InFlight w i) → ∃ g, F !! i = Some g ∧ fl_b g = b ∧ fl_write g = w;
  co_nodesc : ∀ b w sector, y_calls y !! b = Some (NoDesc w sector) → valid_buf (bufs y) b sector;
  co_trace : ∀ b, protocol b (y_trace y) = Some (progress F (y_calls y !! b));
}.

(** The state, with the requests [F] in progress. *)
Definition sysat y (F : gmap nat flight) : Prop :=
  ∃ O U, rests (y_machine y) (n_fs (m_kernel (y_machine y))) (Z.to_nat NBUF) F O (y_taken y) U (y_seen y) ∧ calls_ok y F.

Definition sysinv y : Prop := ∃ F, sysat y F.

(** ** What a step does to the call for a buffer *)

Definition y_fs y : kfs := n_fs (m_kernel (y_machine y)).

Definition same_buf y y' (b : nat) : Prop := bufs y' !! b = bufs y !! b.

Definition of_buf (b : nat) (ev : list event) : list event := filter (λ e, event_buf e = b) ev.

(** In the step from [y] to [y'], with the events [ev]: a call that returns
    was for a request that is seen; a call that waits for descriptors has
    just begun or has waited before; a call that waits for its request has
    submitted it in this step, or the request is as it was, or the device has
    handled it. *)
Definition evolves_at y F y' F' (ev : list event) (b : nat) : Prop :=
  match y_calls y' !! b with
  | None => ∀ w, Complete b w ∈ ev → of_buf b ev = [Complete b w] ∧ y_fs y' = y_fs y ∧
      ∃ i g, y_calls y !! b = Some (InFlight w i) ∧ F !! i = Some g ∧ fl_phase g = Seen
  | Some (NoDesc w sector) => of_buf b ev = [] ∧ same_buf y y' b ∧
      (y_calls y !! b = None ∨ y_calls y !! b = Some (NoDesc w sector))
  | Some (InFlight w i) =>
      (of_buf b ev = [Submit b w] ∧ same_buf y y' b ∧ (y_calls y !! b = None ∨ ∃ sector, y_calls y !! b = Some (NoDesc w sector)) ∧
        ∃ g', F' !! i = Some g' ∧ done_phase (fl_phase g') = false) ∨
      (y_calls y !! b = Some (InFlight w i) ∧ ∃ g g', F !! i = Some g ∧ F' !! i = Some g' ∧
        ((of_buf b ev = [] ∧ same_buf y y' b ∧ done_phase (fl_phase g') = done_phase (fl_phase g) ∧ fl_status g' = fl_status g) ∨
         (of_buf b ev = [Serve b w] ∧ done_phase (fl_phase g) = false ∧ done_phase (fl_phase g') = true ∧
            (fl_status g' = 0 → Bio.virtio_disk_rw b w (y_fs y) = Ret (tt, y_fs y')))))
  end.

Definition evolves y F y' F' : Prop := ∃ ev, y_trace y' = y_trace y ++ ev ∧ ∀ b, evolves_at y F y' F' ev b.

Lemma evolves_quiet y F y' F' ev b :
  calls_ok y F → y_calls y' !! b = y_calls y !! b → (is_Some (y_calls y !! b) → same_buf y y' b) → of_buf b ev = [] →
  (∀ i g, F !! i = Some g → fl_b g = b →
     ∃ g', F' !! i = Some g' ∧ done_phase (fl_phase g') = done_phase (fl_phase g) ∧ fl_status g' = fl_status g) →
  evolves_at y F y' F' ev b.
Proof.
  intros HC Ec Hb Hev HF. unfold evolves_at. rewrite Ec. destruct (y_calls y !! b) as [[w sector|w i]|] eqn:E.
  - split; [done|]. split; [by apply Hb|by right].
  - right. split; [done|]. destruct (co_call _ _ HC b w i E) as (g & Hg & Eb & _). destruct (HF i g Hg Eb) as (g' & Hg' & ? & ?).
    exists g, g'. split; [done|]. split; [done|]. left. split; [done|]. split; [by apply Hb|done].
  - intros w Hw. assert (Hin : Complete b w ∈ of_buf b ev) by (by apply list_elem_of_filter). rewrite Hev in Hin. by apply elem_of_nil in Hin.
Qed.

Lemma of_buf_nil b : of_buf b [] = [].
Proof. done. Qed.
Lemma of_buf_same b e : event_buf e = b → of_buf b [e] = [e].
Proof. intros. unfold of_buf. by rewrite filter_cons_True. Qed.
Lemma of_buf_other b e : event_buf e ≠ b → of_buf b [e] = [].
Proof. intros. unfold of_buf. by rewrite filter_cons_False. Qed.

Lemma runs_result {S A} (m : M S A) (st : S) (Q : A → S → Prop) a st' : runs m st Q → m st = Ret (a, st') → Q a st'.
Proof. intros (a' & s' & E & HQ) E'. rewrite E in E'. by injection E' as -> ->. Qed.

Lemma protocol_snoc b tr e : protocol b (tr ++ [e]) = pstep b (protocol b tr) e.
Proof. unfold protocol. by rewrite foldl_app. Qed.

Lemma pstep_other b st e : event_buf e ≠ b → pstep b st e = st.
Proof. intros. unfold pstep. by rewrite decide_False. Qed.

Lemma pstep_same b st e : event_buf e = b → pstep b st e =
    match st, e with
    | Some PIdle, Submit _ w => Some (PSubmitted w)
    | Some (PSubmitted w), Serve _ w' => if eqb w w' then Some (PServed w) else None
    | Some (PServed w), Complete _ w' => if eqb w w' then Some PIdle else None
    | _, _ => None
    end.
Proof. intros. unfold pstep. by rewrite decide_True. Qed.

(** *** The start *)

Lemma started_inv y : started y → sysat y ∅.
Proof.
  intros (E1 & E2 & E3 & E4 & E5 & L1 & L2 & L3 & Hl & E6 & E7 & E8 & E9). exists [], []. split.
  - split; [done|]. split; [done|]. split; [done|]. assert (Hnone : ∀ x, ¬ in_use ∅ x) by (intros x (i & g & Hi & _); by rewrite lookup_empty in Hi).
    assert (Hh : ∀ p, heads ∅ p []).
    { intros p. split; [constructor|]. intros i. split; [intros Hi; by apply elem_of_nil in Hi|]. intros (g & Hg & _). by rewrite lookup_empty in Hg. }
    split.
    + split; rewrite ?E1, ?E2, ?E3, ?E4; done.
    + split; [|split; [constructor|]| |].
      * intros x Hx. exists 1. rewrite E2, lookup_replicate_2 by done. split; [done|]. split; [by right|]. split; [done|].
        intros [Hn|Hu]; [by apply elem_of_nil in Hn|by apply Hnone in Hu].
      * intros x Hx. by apply elem_of_nil in Hx.
      * intros i g Hi. by rewrite lookup_empty in Hi.
      * intros i g ? ? ? Hi. by rewrite lookup_empty in Hi.
    + intros i g Hi. by rewrite lookup_empty in Hi.
    + intros i g ? ? Hi. by rewrite lookup_empty in Hi.
    + rewrite E6, E7. split; rewrite ?E3, ?E4, ?E5; cbn; try done; (split; [done|]; intros k x Hk; by rewrite lookup_nil in Hk).
  - split; rewrite ?E8, ?E9.
    + intros i g Hi. by rewrite lookup_empty in Hi.
    + intros b w i Hb. by rewrite lookup_empty in Hb.
    + intros b w i Hb. by rewrite lookup_empty in Hb.
    + intros b. by rewrite lookup_empty.
Qed.

(** *** Processes *)

Definition not_flying (c : option call) : Prop := ∀ w i, c ≠ Some (InFlight w i).

Lemma progress_not_flying F c : not_flying c → progress F c = PIdle.
Proof. intros Hc. destruct c as [[]|]; [done| |done]. by destruct (Hc write i0). Qed.

(** The call for buffer [b] has no request yet. *)
Definition waiting y (b : nat) (write : bool) (sector : Z) : Prop :=
  y_calls y !! b = None ∨ y_calls y !! b = Some (NoDesc write sector).

Lemma waiting_not_flying y b write sector : waiting y b write sector → not_flying (y_calls y !! b).
Proof. by intros [-> | ->]. Qed.

Lemma no_desc_inv y F O U b write sector m e :
  calls_ok y F → waiting y b write sector → valid_buf (bufs y) b sector →
  rests m (y_fs y) (Z.to_nat NBUF) F O (y_taken y) U (y_seen y) →
  let y' := alloc_result y b write sector (RwNoDesc e) m in sysat y' F ∧ evolves y F y' F.
Proof.
  intros HC Hw Hv Hm. pose proof HC as [C1 C2 C3 C4]. pose proof (waiting_not_flying _ _ _ _ Hw) as Hc. pose proof (proj1 Hm) as Ef.
  cbn [alloc_result]. split.
  - exists O, U. cbn. rewrite Ef. split; [done|]. split; cbn; unfold bufs; cbn; rewrite ?Ef.
    + intros i g Hg. destruct (C1 i g Hg) as [E ?]. rewrite lookup_insert_ne; [done|]. intros ->. by destruct (Hc _ _ E).
    + intros b' w i Hb'. destruct (decide (b' = b)) as [->|]; [by rewrite lookup_insert_eq in Hb'|]. rewrite lookup_insert_ne in Hb' by done. by apply C2.
    + intros b' w i Hb'. destruct (decide (b' = b)) as [->|]; [rewrite lookup_insert_eq in Hb'; by simplify_eq|].
      rewrite lookup_insert_ne in Hb' by done. by apply (C3 _ w).
    + intros b'. rewrite C4. destruct (decide (b' = b)) as [->|]; [|by rewrite lookup_insert_ne].
      rewrite lookup_insert_eq, !progress_not_flying; done.
  - exists []. split; [by rewrite app_nil_r|]. intros b'. assert (Hb : ∀ x, same_buf y (mk_sys m (y_seen y) (y_taken y) (<[b:=NoDesc write sector]> (y_calls y)) (y_trace y)) x).
    { intros x. unfold same_buf, bufs. cbn. by rewrite Ef. }
    destruct (decide (b' = b)) as [->|Hne].
    + unfold evolves_at. cbn [y_calls]. rewrite lookup_insert_eq. split; [done|]. by split.
    + apply evolves_quiet; [done|cbn; by rewrite lookup_insert_ne|intros _; apply Hb|done|]. intros i g Hg _. by exists g.
Qed.

Lemma submit_inv y F O U b write sector m i0 i1 i2 e :
  let g0 := mk_flight i1 i2 b write sector Offered 0 in
  calls_ok y F → waiting y b write sector → valid_buf (bufs y) b sector → F !! i0 = None →
  rests m (y_fs y) (Z.to_nat NBUF) (<[i0 := g0]> F) (O ++ [i0]) (y_taken y) U (y_seen y) →
  let y' := alloc_result y b write sector (RwSubmitted i0 e) m in sysat y' (<[i0 := g0]> F) ∧ evolves y F y' (<[i0 := g0]> F).
Proof.
  intros g0 HC Hw Hv Hi Hm. pose proof HC as [C1 C2 C3 C4]. pose proof (waiting_not_flying _ _ _ _ Hw) as Hc. pose proof (proj1 Hm) as Ef.
  cbn [alloc_result]. split.
  - exists (O ++ [i0]), U. cbn. rewrite Ef. split; [done|]. split; cbn; unfold bufs; cbn; rewrite ?Ef.
    + intros i g Hg. destruct (decide (i = i0)) as [->|].
      * rewrite lookup_insert_eq in Hg. injection Hg as <-. cbn. by rewrite lookup_insert_eq.
      * rewrite lookup_insert_ne in Hg by done. destruct (C1 i g Hg) as [E ?]. rewrite lookup_insert_ne; [done|]. intros ->. by destruct (Hc _ _ E).
    + intros b' w i Hb'. destruct (decide (b' = b)) as [->|].
      * rewrite lookup_insert_eq in Hb'. simplify_eq. eexists. by rewrite lookup_insert_eq.
      * rewrite lookup_insert_ne in Hb' by done. destruct (C2 _ _ _ Hb') as (g & Hg & ?). exists g. rewrite lookup_insert_ne; [done|congruence].
    + intros b' w i Hb'. destruct (decide (b' = b)) as [->|]; [by rewrite lookup_insert_eq in Hb'|].
      rewrite lookup_insert_ne in Hb' by done. by apply (C3 _ w).
    + intros b'. rewrite protocol_snoc, C4. destruct (decide (b' = b)) as [->|].
      * rewrite pstep_same, lookup_insert_eq, progress_not_flying by done. cbn. by rewrite lookup_insert_eq.
      * rewrite pstep_other, lookup_insert_ne by done. f_equal. destruct (y_calls y !! b') as [[|w i]|] eqn:Ec; [done| |done]. cbn.
        destruct (C2 _ _ _ Ec) as (g & Hg & _). rewrite lookup_insert_ne; [done|congruence].
  - exists [Submit b write]. split; [done|]. intros b'.
    assert (Hb : ∀ x, same_buf y (mk_sys m (y_seen y) (y_taken y) (<[b:=InFlight write i0]> (y_calls y)) (y_trace y ++ [Submit b write])) x).
    { intros x. unfold same_buf, bufs. cbn. by rewrite Ef. }
    destruct (decide (b' = b)) as [->|Hne].
    + unfold evolves_at. cbn [y_calls]. rewrite lookup_insert_eq. left. split; [by apply of_buf_same|]. split; [done|]. split.
      * destruct Hw; [by left|right; by exists sector].
      * exists g0. by rewrite lookup_insert_eq.
    + apply evolves_quiet; [done|cbn; by rewrite lookup_insert_ne|intros _; apply Hb|by apply of_buf_other|]. intros i g Hg _. exists g.
      rewrite lookup_insert_ne; [done|congruence].
Qed.

Lemma rw_again_runs y F h p b write sector :
  sysat y F → waiting y b write sector → valid_buf (bufs y) b sector → ready y h p →
  runs (rw_again h b write sector) (y_machine y) (λ r m, let y' := alloc_result y b write sector r m in
    ∃ F', sysat y' F' ∧ evolves y F y' F').
Proof.
  intros (O & U & Hr & HC) Hw Hv Hready. pose proof (waiting_not_flying _ _ _ _ Hw) as Hc. unfold rw_again. apply runs_bind.
  eapply (runs_disk_acquire h (y_machine y) p (Some p) 0); [done|done|]. intros d l s1 Hs1 Hb El Hl Hd Hin.
  eapply runs_mono; [eapply (rw_alloc_runs h s1 p); [by apply Hin|apply Hv|]|].
  { intros j g Hg <-. destruct (co_flight _ _ HC j g Hg) as [E _]. by destruct (Hc _ _ E). }
  intros r m [(e & -> & Hm)|(i0 & i1 & i2 & e & -> & Hi & Hm)]; eexists; [by eapply no_desc_inv|by eapply submit_inv].
Qed.

Lemma virtio_disk_rw_again y h b write sector :
  valid_buf (bufs y) b sector → virtio_disk_rw h b write (y_machine y) = rw_again h b write sector (y_machine y).
Proof.
  intros (_ & bb & Hb & _ & ->). unfold virtio_disk_rw. rewrite M_bind_unfold. unfold sector_of. unfold bufs in Hb. by rewrite Hb.
Qed.

Lemma complete_inv y F O U i0 g m :
  calls_ok y F → F !! i0 = Some g → fl_phase g = Seen →
  rests m (y_fs y) (Z.to_nat NBUF) (delete i0 F) O (y_taken y) U (y_seen y) →
  let y' := wait_result y (fl_b g) (fl_write g) RwDone m in sysat y' (delete i0 F) ∧ evolves y F y' (delete i0 F).
Proof.
  intros HC Hg Hp Hm. pose proof HC as [C1 C2 C3 C4]. destruct (C1 i0 g Hg) as [Hc _]. pose proof (proj1 Hm) as Ef.
  assert (Hother : ∀ i g', delete i0 F !! i = Some g' → F !! i = Some g' ∧ fl_b g' ≠ fl_b g).
  { intros i g' [Hne Hg']%lookup_delete_Some. split; [done|]. intros E. destruct (C1 _ _ Hg') as [E1 _]. rewrite E, Hc in E1. congruence. }
  cbn [wait_result]. split.
  - exists O, U. cbn. rewrite Ef. split; [done|]. split; cbn; unfold bufs; cbn; rewrite ?Ef.
    + intros i g' [Hg' Hne]%Hother. rewrite lookup_delete_ne by done. by apply C1.
    + intros b' w i [Hne Hb']%lookup_delete_Some. destruct (C2 _ _ _ Hb') as (g' & Hg' & E1 & E2). exists g'. split; [|done].
      rewrite lookup_delete_ne; [done|]. intros <-. congruence.
    + intros b' w i [Hne Hb']%lookup_delete_Some. by apply (C3 _ w).
    + intros b'. rewrite protocol_snoc, C4. destruct (decide (b' = fl_b g)) as [->|].
      * rewrite pstep_same, lookup_delete_eq, Hc by done. cbn. rewrite Hg, Hp. cbn. by rewrite eqb_reflx.
      * rewrite pstep_other, lookup_delete_ne by done. f_equal. destruct (y_calls y !! b') as [[|w i]|] eqn:Ec; [done| |done]. cbn.
        destruct (C2 _ _ _ Ec) as (g' & Hg' & E1 & _). rewrite lookup_delete_ne; [done|]. intros <-. congruence.
  - exists [Complete (fl_b g) (fl_write g)]. split; [done|]. intros b'. destruct (decide (b' = fl_b g)) as [->|Hne].
    + unfold evolves_at. cbn [y_calls]. rewrite lookup_delete_eq. intros w [= ->]%list_elem_of_singleton.
      split; [by apply of_buf_same|]. split; [exact Ef|]. by exists i0, g.
    + apply evolves_quiet; [done|cbn; by rewrite lookup_delete_ne| |by apply of_buf_other|].
      * intros _. unfold same_buf, bufs. cbn. by rewrite Ef.
      * intros i g' Hg' Eb. exists g'. rewrite lookup_delete_ne; [done|]. congruence.
Qed.

(** Steps in which the processes and the device do nothing to a request. *)
Lemma evolves_same y F F' m seen taken :
  calls_ok y F → n_fs (m_kernel m) = y_fs y →
  (∀ i g, F !! i = Some g → ∃ g', F' !! i = Some g' ∧ done_phase (fl_phase g') = done_phase (fl_phase g) ∧ fl_status g' = fl_status g) →
  evolves y F (mk_sys m seen taken (y_calls y) (y_trace y)) F'.
Proof.
  intros HC Ef HF. exists []. split; [by rewrite app_nil_r|]. intros b. apply evolves_quiet; [done|done| |done|].
  - intros _. unfold same_buf, bufs. cbn. by rewrite Ef.
  - intros i g Hg _. by apply HF.
Qed.

Lemma rw_check_runs y F h p b write i0 :
  sysat y F → y_calls y !! b = Some (InFlight write i0) → ready y h p →
  runs (rw_check h b i0) (y_machine y) (λ r m, let y' := wait_result y b write r m in
    ∃ F', sysat y' F' ∧ evolves y F y' F').
Proof.
  intros (O & U & Hr & HC) Hc Hready. destruct (co_call _ _ HC _ _ _ Hc) as (g & Hg & <- & <-). unfold rw_check. apply runs_bind.
  eapply (runs_disk_acquire h (y_machine y) p (Some p) 0); [done|done|]. intros d l s1 Hs1 Hb El Hl Hd Hin.
  eapply runs_mono; [eapply (rw_wait_runs h s1 p); [by apply Hin|done]|]. intros r m. destruct (decide _) as [Hp|Hp].
  - intros [-> Hm]. eexists. by eapply complete_inv.
  - intros (e & -> & Hm). pose proof (proj1 Hm) as Ef. exists F. split.
    + exists O, U. cbn. rewrite Ef. split; [done|]. destruct HC as [C1 C2 C3 C4]. split; cbn; unfold bufs; cbn; rewrite ?Ef; done.
    + apply evolves_same; [done|done|]. intros i g' Hg'. by exists g'.
Qed.

(** *** Interrupts *)

(** A change of the requests that the processes do not notice. *)
Lemma calls_ok_change y F F' m seen taken :
  calls_ok y F → n_fs (m_kernel m) = n_fs (m_kernel (y_machine y)) →
  (∀ i, F' !! i = None ↔ F !! i = None) →
  (∀ i g g', F !! i = Some g → F' !! i = Some g' → fl_b g' = fl_b g ∧ fl_write g' = fl_write g ∧ fl_sector g' = fl_sector g ∧
     (fl_phase g' = Offered ∨ fl_phase g' = Taken ↔ fl_phase g = Offered ∨ fl_phase g = Taken)) →
  calls_ok (mk_sys m seen taken (y_calls y) (y_trace y)) F'.
Proof.
  intros [C1 C2 C3 C4] Ef Hnone Hsame.
  assert (Hf : ∀ i g', F' !! i = Some g' → ∃ g, F !! i = Some g ∧ fl_b g' = fl_b g ∧ fl_write g' = fl_write g ∧ fl_sector g' = fl_sector g ∧
     (fl_phase g' = Offered ∨ fl_phase g' = Taken ↔ fl_phase g = Offered ∨ fl_phase g = Taken)).
  { intros i g' Hg'. destruct (F !! i) as [g|] eqn:E; [exists g; split; [done|]; by apply (Hsame i)|]. apply Hnone in E. congruence. }
  assert (Hb : ∀ i g, F !! i = Some g → ∃ g', F' !! i = Some g').
  { intros i g Hg. destruct (F' !! i) as [g'|] eqn:E; [by exists g'|]. apply Hnone in E. congruence. }
  split; cbn; unfold bufs; cbn; rewrite ?Ef.
  - intros i g' Hg'. destruct (Hf i g' Hg') as (g & Hg & -> & -> & -> & _). by apply C1.
  - intros b w i Hc. destruct (C2 _ _ _ Hc) as (g & Hg & <- & <-). destruct (Hb i g Hg) as [g' Hg']. exists g'.
    destruct (Hsame i g g' Hg Hg') as (? & ? & _). done.
  - done.
  - intros b. rewrite C4. f_equal. destruct (y_calls y !! b) as [[|w i]|] eqn:Ec; [done| |done]. cbn.
    destruct (C2 _ _ _ Ec) as (g & Hg & _). destruct (Hb i g Hg) as [g' Hg']. destruct (Hsame i g g' Hg Hg') as (_ & _ & _ & Hp).
    rewrite Hg, Hg'. destruct (fl_phase g), (fl_phase g'); try done; exfalso; intuition congruence.
Qed.

Lemma intr_inv y F h me n :
  sysat y F → hart_at h (m_kernel (y_machine y)) me n → 0 ≤ n →
  if no_errors (m_disk (y_machine y)) then
    runs (virtio_disk_intr h) (y_machine y) (λ _ m, let y' := mk_sys m (y_seen y) (y_taken y) (y_calls y) (y_trace y) in
      ∃ F', sysat y' F' ∧ evolves y F y' F')
  else virtio_disk_intr h (y_machine y) = Panic "virtio_disk_intr status".
Proof.
  intros (O & U & Hr & HC) Hk Hn. pose proof (proj2 (proj2 (proj2 Hr))) as Hd. pose proof (no_errors_spec _ _ _ _ _ _ Hd) as Hne.
  pose proof (ri_finished _ _ _ _ _ _ (dv_rings _ _ _ _ _ _ _ Hd)) as HU. destruct (no_errors _); [|by eapply virtio_disk_intr_panics].
  eapply runs_mono; [by eapply virtio_disk_intr_runs|]. intros _ m (F' & Hm & HF). pose proof (proj1 Hm) as Ef. exists F'.
  assert (Hsee : ∀ i g, F !! i = Some g → i ∈ U → fl_phase g = Finished ∧ fl_status g = 0).
  { intros i g Hg Hi. split; [|by apply (Hne i)]. apply HU in Hi as (g2 & Hg2 & E). congruence. }
  split.
  - exists O, []. cbn. rewrite Ef. split; [done|]. eapply calls_ok_change; [done|done| |].
    + intros i. rewrite HF, fmap_None. done.
    + intros i g g' Hg Hg'. rewrite HF, Hg in Hg'. injection Hg' as <-. unfold see. destruct (decide (i ∈ U)) as [Hi|]; [|done]. cbn.
      destruct (Hsee i g Hg Hi) as [-> _]. intuition congruence.
  - apply evolves_same; [done|done|]. intros i g Hg. exists (see U i g). rewrite HF, Hg. split; [done|]. unfold see.
    destruct (decide (i ∈ U)) as [Hi|]; [|done]. cbn. by destruct (Hsee i g Hg Hi) as [-> ->].
Qed.

(** *** The device *)

Lemma decode_flight d i g : flight_ok d i g → decode d i = Some (fl_b g, fl_write g, fl_sector g, i).
Proof.
  intros [E0 E1 E2 E3 _ _]. unfold decode. rewrite E0. cbn [mbind option_bind vd_addr vd_next]. rewrite E3. cbn [mbind option_bind].
  rewrite Nat2Z.id, E1. cbn [mbind option_bind vd_addr vd_next]. rewrite Nat2Z.id, E2. cbn [mbind option_bind vd_addr].
  unfold op_of. by destruct (fl_write g).
Qed.

(** The transfer of a request is what the buffer cache asks the driver to
    do. *)
Lemma transfer_rw f b write sector :
  valid_buf (bc_buf (k_bc f)) b sector → Bio.virtio_disk_rw b write f = Ret (tt, transfer b write sector f).
Proof.
  intros (_ & bb & Hb & Hn & ->). unfold Bio.virtio_disk_rw, transfer, deposit. rewrite M_bind_unfold. unfold get_buf at 1. rewrite Hb. cbn [res_bind].
  rewrite M_bind_unfold. cbn [get res_bind]. change (BSIZE / 512) with 2. unwrap. rewrite Z.div_mul by done. by destruct write.
Qed.

Lemma valid_buf_deposit f b write sector data b' sector' :
  valid_buf (bc_buf (k_bc f)) b' sector' → valid_buf (bc_buf (k_bc (deposit b write sector data f))) b' sector'.
Proof.
  intros (Hlt & bb & Hb & Hn & ->). split; [done|]. unfold deposit. destruct (bc_buf (k_bc f) !! b) as [b0|] eqn:E; [|by exists bb].
  destruct write; [by exists bb|]. cbn. destruct (decide (b' = b)) as [->|].
  - exists (buf_with_data data b0). rewrite list_lookup_insert_eq by (by eapply lookup_lt_Some). rewrite Hb in E. by injection E as <-.
  - exists bb. by rewrite list_lookup_insert_ne.
Qed.

Lemma deposit_other f b write sector data b' : b' ≠ b → bc_buf (k_bc (deposit b write sector data f)) !! b' = bc_buf (k_bc f) !! b'.
Proof.
  intros Hne. unfold deposit. destruct (bc_buf (k_bc f) !! b); [|done]. destruct write; [done|]. cbn. by rewrite list_lookup_insert_ne.
Qed.

(** However a request ends, it changes at most one buffer or block. *)
Lemma handled_deposit st b write sector f f' : handled st b write sector f f' → f' = f ∨ ∃ data, f' = deposit b write sector data f.
Proof.
  unfold handled. case_decide; [|done]. intros ->. unfold transfer. destruct (bc_buf (k_bc f) !! b) as [bb|]; [|by left].
  right. by eexists.
Qed.

Lemma take_inv y F i :
  sysat y F → y_seen y ≠ va_idx (d_avail (m_disk (y_machine y))) →
  va_ring (d_avail (m_disk (y_machine y))) !! Z.to_nat (y_seen y mod NUM) = Some (Z.of_nat i) →
  let y' := mk_sys (y_machine y) (u16 (y_seen y + 1)) (y_taken y ++ [i]) (y_calls y) (y_trace y) in
  ∃ F', sysat y' F' ∧ evolves y F y' F'.
Proof.
  intros (O & U & (Hf & Hb & Hl & Hd) & HC) Hne Hring. destruct (dv_rings _ _ _ _ _ _ _ Hd) as [(I1 & _ & _ & I2) [A1 A2] _ HO _ _].
  destruct O as [|j O].
  { cbn [length] in A1. unfold u16 in A1. pose proof (Z.div_mod (va_idx (d_avail (m_disk (y_machine y))) - y_seen y) (2 ^ 16)). lia. }
  apply window_head in A2. rewrite Hring in A2. injection A2 as Ej. apply Nat2Z.inj in Ej as <-.
  destruct (proj1 (proj2 HO i) ltac:(left)) as (g & Hg & Hp).
  exists (<[i := with_phase Taken (fl_status g) g]> F). split.
  - exists O, U. split; [split; [done|]; split; [done|]; split; [done|]; by apply dinv_take_dev|].
    eapply calls_ok_change; [done|done| |].
    + intros k. rewrite lookup_insert_None. split; [tauto|]. intros Hk. split; [done|]. intros <-. congruence.
    + intros k g1 g2 H1 H2. destruct (decide (k = i)) as [->|].
      * rewrite lookup_insert_eq in H2. simplify_eq. cbn. rewrite Hp. tauto.
      * rewrite lookup_insert_ne in H2 by done. simplify_eq. tauto.
  - apply evolves_same; [done|done|]. intros k g1 H1. destruct (decide (k = i)) as [->|].
    + rewrite lookup_insert_eq. eexists. split; [done|]. simplify_eq. cbn. by rewrite Hp.
    + rewrite lookup_insert_ne by done. by exists g1.
Qed.

Lemma serve_inv y F i taken d f :
  virtio_device handle → sysat y F → y_taken y ≡ₚ i :: taken →
  handle i (m_disk (y_machine y), n_fs (m_kernel (y_machine y))) (d, f) →
  let y' := mk_sys (set_disk_fs d f (y_machine y)) (y_seen y) taken (y_calls y)
    (y_trace y ++ match decode (m_disk (y_machine y)) i with Some (b, write, _, _) => [Serve b write] | None => [] end) in
  ∃ F', sysat y' F' ∧ evolves y F y' F'.
Proof.
  intros Hdev (O & U & (_ & Hb & Hl & Hd) & HC) Hp Hh. pose proof HC as [C1 C2 C3 C4]. pose proof (ri_taken _ _ _ _ _ _ (dv_rings _ _ _ _ _ _ _ Hd)) as HT.
  destruct (proj1 (proj2 HT i)) as (g & Hg & Eg); [rewrite Hp; left|].
  pose proof (decode_flight _ _ _ (dv_flights _ _ _ _ _ _ _ Hd i g Hg)) as Edec.
  destruct (Hdev _ _ _ _ _ _ _ _ _ Hh Edec) as (st & len & _ & -> & Hdone). rewrite Edec.
  destruct (C1 i g Hg) as [Hcall Hval]. fold (y_fs y) in Hdone. pose proof (handled_deposit _ _ _ _ _ _ Hdone) as Hdep.
  assert (Hv : ∀ b sector, valid_buf (bufs y) b sector → valid_buf (bc_buf (k_bc f)) b sector).
  { intros b sector V. destruct Hdep as [-> |[data ->]]; [done|by apply valid_buf_deposit]. }
  exists (<[i := with_phase Finished st g]> F). split; [exists O, (U ++ [i]); split|].
  - split; [done|]. split; [done|]. split; [done|]. by eapply dinv_finish.
  - split; cbn; unfold bufs; cbn.
    + intros j g' (g1 & H1 & ->)%(lookup_phase F i g Finished st); [|done]. destruct (C1 j g1 H1) as [E V].
      destruct (decide (j = i)); (split; [exact E|by apply Hv]).
    + intros b w j Hc. destruct (C2 _ _ _ Hc) as (g1 & Hg1 & E1 & E2). destruct (decide (j = i)) as [->|].
      * exists (with_phase Finished st g1). rewrite lookup_insert_eq. by simplify_eq.
      * exists g1. by rewrite lookup_insert_ne.
    + intros b w sector Hc. apply Hv. by apply (C3 b w).
    + intros b. rewrite protocol_snoc, C4. destruct (decide (b = fl_b g)) as [->|Hne].
      * rewrite pstep_same, Hcall by done. cbn. rewrite Hg, Eg, lookup_insert_eq. cbn. by rewrite eqb_reflx.
      * rewrite pstep_other by done. f_equal. destruct (y_calls y !! b) as [[|w j]|] eqn:Ec; [done| |done]. cbn.
        destruct (C2 _ _ _ Ec) as (g1 & Hg1 & E1 & _). rewrite lookup_insert_ne; [done|]. intros <-. congruence.
  - exists [Serve (fl_b g) (fl_write g)]. split; [done|]. intros b. destruct (decide (b = fl_b g)) as [->|Hne].
    + unfold evolves_at. cbn [y_calls]. rewrite Hcall. right. split; [done|]. exists g, (with_phase Finished st g).
      rewrite lookup_insert_eq. split; [done|]. split; [done|]. right. split; [by apply of_buf_same|]. rewrite Eg. split; [done|]. split; [done|].
      cbn [with_phase fl_status]. intros ->. unfold handled in Hdone. rewrite decide_True in Hdone by done.
      unfold y_fs at 2. cbn. rewrite Hdone. by apply transfer_rw.
    + apply evolves_quiet; [done|done| |by apply of_buf_other|].
      * intros _. unfold same_buf, bufs. cbn. destruct Hdep as [-> |[data ->]]; [done|by apply deposit_other].
      * intros j g1 Hg1 Eb. exists g1. rewrite lookup_insert_ne; [done|]. congruence.
Qed.

Lemma kernel_inv y F m :
  sysat y F → m_disk m = m_disk (y_machine y) →
  (∀ b, is_Some (y_calls y !! b) → bc_buf (k_bc (n_fs (m_kernel m))) !! b = bufs y !! b) →
  let y' := mk_sys m (y_seen y) (y_taken y) (y_calls y) (y_trace y) in sysat y' F ∧ evolves y F y' F.
Proof.
  intros (O & U & (_ & Hb & Hl & Hd) & HC) Em Hbufs. pose proof HC as [C1 C2 C3 C4]. split.
  - exists O, U. cbn. split; [split; [done|]; by rewrite Em|].
    assert (Hv : ∀ b sector, is_Some (y_calls y !! b) → valid_buf (bufs y) b sector → valid_buf (bc_buf (k_bc (n_fs (m_kernel m)))) b sector).
    { intros b sector Hs (? & bb & Hbb & ?). split; [done|]. exists bb. by rewrite Hbufs. }
    split; cbn; unfold bufs; cbn; [|done| |done].
    + intros i g Hg. destruct (C1 i g Hg) as [E V]. split; [done|]. apply Hv; [by rewrite E|done].
    + intros b w sector Hc. apply Hv; [by rewrite Hc|by apply (C3 b w)].
  - exists []. split; [by rewrite app_nil_r|]. intros b. apply evolves_quiet; [done|done| |done|]; [apply Hbufs|].
    intros i g Hg _. by exists g.
Qed.

Lemma step_evolves y F y' : virtio_device handle → sysat y F → step y y' → ∃ F', sysat y' F' ∧ evolves y F y' F'.
Proof.
  intros Hdev Hy Hstep.
  destruct Hstep as [h p b write sector r m Hc Hv Hr E|h p b write sector r m Hc Hr E|h p b write i0 r m Hc Hr E|h me n m Hk Hn E|
    i Hne Hi|i taken d f Hp Hh|m Em _ Hb].
  - rewrite (virtio_disk_rw_again y h b write sector Hv) in E.
    exact (runs_result _ _ _ _ _ (rw_again_runs y F h p b write sector Hy (or_introl Hc) Hv Hr) E).
  - refine (runs_result _ _ _ _ _ (rw_again_runs y F h p b write sector Hy (or_intror Hc) _ Hr) E).
    destruct Hy as (O & U & _ & [_ _ C3 _]). by apply (C3 b write).
  - exact (runs_result _ _ _ _ _ (rw_check_runs y F h p b write i0 Hy Hc Hr) E).
  - pose proof (intr_inv y F h me n Hy Hk Hn) as Hi. destruct (no_errors _); [exact (runs_result _ _ _ _ _ Hi E)|congruence].
  - by apply take_inv.
  - by apply serve_inv.
  - exists F. by apply kernel_inv.
Qed.

Lemma reached_inv y : virtio_device handle → reached y → sysinv y.
Proof.
  intros Hdev. induction 1 as [y Hy|y y' _ [F IH] Hstep]; [exists ∅; by apply started_inv|].
  destruct (step_evolves y F y' Hdev IH Hstep) as (F' & Hy' & _). by exists F'.
Qed.

(** ** Histories *)

Implicit Type p : nat → sys D.

(** [n] steps from the start. *)
Definition path p (n : nat) : Prop := started (p 0%nat) ∧ ∀ k, (k < n)%nat → step (p k) (p (S k)).

(** In state [c] the call of [virtio_disk_rw] for buffer [b] begins. *)
Definition began p (b : nat) (w : bool) (c : nat) : Prop :=
  y_calls (p c) !! b = None ∧
  ∃ h sector r m, virtio_disk_rw h b w (y_machine (p c)) = Ret (r, m) ∧ p (S c) = alloc_result (p c) b w sector r m.

(** From then on to state [n] it is in progress. *)
Definition in_call p (b c n : nat) : Prop := ∀ i, (c < i ≤ n)%nat → is_Some (y_calls (p i) !! b).

(** The events of buffer [b] between two states. *)
Definition events_of p (b c n : nat) (l : list event) : Prop := ∃ tr, y_trace (p n) = y_trace (p c) ++ tr ∧ of_buf b tr = l.

Definition same_buf_on p (b i j : nat) : Prop := ∀ k, (i ≤ k ≤ j)%nat → bufs (p k) !! b = bufs (p i) !! b.

(** State [k] is the one in which the device performs the transfer. *)
Definition served_at p (b : nat) (w : bool) (c k n : nat) (st : Z) : Prop :=
  (c < k < n)%nat ∧ same_buf_on p b c k ∧ same_buf_on p b (S k) n ∧
  (st = 0 → Bio.virtio_disk_rw b w (y_fs (p k)) = Ret (tt, y_fs (p (S k)))).

(** Where the call for [b] in state [n] stands. *)
Definition call_history p (n : nat) (F : gmap nat flight) (b : nat) : Prop :=
  match y_calls (p n) !! b with
  | None => True
  | Some (NoDesc w _) => ∃ c, (c < n)%nat ∧ began p b w c ∧ in_call p b c n ∧ events_of p b c n [] ∧ same_buf_on p b c n
  | Some (InFlight w i) => ∃ c g, (c < n)%nat ∧ began p b w c ∧ in_call p b c n ∧ F !! i = Some g ∧
      if done_phase (fl_phase g) then events_of p b c n [Submit b w; Serve b w] ∧ ∃ k, served_at p b w c k n (fl_status g)
      else events_of p b c n [Submit b w] ∧ same_buf_on p b c n
  end.

Lemma events_of_S p b c n l ev :
  events_of p b c n l → y_trace (p (S n)) = y_trace (p n) ++ ev → events_of p b c (S n) (l ++ of_buf b ev).
Proof.
  intros (tr & E & <-) E'. exists (tr ++ ev). rewrite E', E, app_assoc. split; [done|]. unfold of_buf. by rewrite list.filter_app.
Qed.

Lemma events_of_start p b n ev : y_trace (p (S n)) = y_trace (p n) ++ ev → events_of p b n (S n) (of_buf b ev).
Proof. intros E. by exists ev. Qed.

Lemma same_buf_on_S p b i n : same_buf_on p b i n → (i ≤ n)%nat → same_buf (p n) (p (S n)) b → same_buf_on p b i (S n).
Proof.
  intros H1 Hi H2 k Hk. destruct (decide (k = S n)) as [->|]; [|apply H1; lia]. unfold same_buf in H2. rewrite H2. apply H1. lia.
Qed.

Lemma same_buf_on_refl p b i : same_buf_on p b i i.
Proof. intros k Hk. by replace k with i by lia. Qed.

Lemma in_call_S p b c n : in_call p b c n → is_Some (y_calls (p (S n)) !! b) → in_call p b c (S n).
Proof. intros H1 H2 i Hi. destruct (decide (i = S n)) as [->|]; [done|apply H1; lia]. Qed.

Lemma in_call_start p b n : is_Some (y_calls (p (S n)) !! b) → in_call p b n (S n).
Proof. intros H1 i Hi. by replace i with (S n) by lia. Qed.

Definition direction (c : call) : bool := match c with NoDesc w _ | InFlight w _ => w end.

(** A call begins with [virtio_disk_rw]. *)
Lemma step_began p n b c :
  step (p n) (p (S n)) → y_calls (p n) !! b = None → y_calls (p (S n)) !! b = Some c → began p b (direction c) n.
Proof.
  intros Hstep H0 H1. split; [done|]. inversion Hstep as [h q b' write sector r m Hc Hv Hr E Ey|h q b' write sector r m Hc Hr E Ey|
    h q b' write i0 r m Hc Hr E Ey|h me k m Hk Hn E Ey|i Hne Hi Ey|i taken d f Hp Hh Ey|m Em Ed Hb Ey].
  all: rewrite <-Ey in H1; cbn [y_calls] in H1; try congruence.
  - assert (b' = b ∧ write = direction c) as [-> ->].
    { destruct r as [|e|i0 e]; cbn in H1.
      - apply lookup_delete_Some in H1 as [_ ?]. congruence.
      - apply lookup_insert_Some in H1 as [[-> <-]|[_ ?]]; [done|congruence].
      - apply lookup_insert_Some in H1 as [[-> <-]|[_ ?]]; [done|congruence]. }
    by exists h, sector, r, m.
  - destruct r as [|e|i0 e]; cbn in H1.
    + apply lookup_delete_Some in H1 as [_ ?]. congruence.
    + apply lookup_insert_Some in H1 as [[-> _]|[_ ?]]; congruence.
    + apply lookup_insert_Some in H1 as [[-> _]|[_ ?]]; congruence.
  - destruct r; cbn in H1; try congruence. apply lookup_delete_Some in H1 as [_ ?]. congruence.
Qed.
Lemma history_step p n F F' b :
  step (p n) (p (S n)) → evolves (p n) F (p (S n)) F' → call_history p n F b → call_history p (S n) F' b.
Proof.
  intros Hstep (ev & Etr & Hev) HH. specialize (Hev b). unfold call_history, evolves_at in *.
  pose proof (λ c, step_began p n b c Hstep) as Hbeg. pose proof (in_call_start p b n) as Hin0. pose proof (λ c, in_call_S p b c n) as HinS.
  pose proof (events_of_start p b n ev Etr) as Hev0. pose proof (λ c l H, events_of_S p b c n l ev H Etr) as HevS.
  pose proof (λ i, same_buf_on_S p b i n) as HsbS. pose proof (same_buf_on_refl p b n) as Hsb0.
  destruct (y_calls (p (S n)) !! b) as [[w sector|w i]|] eqn:E1; [| |done].
  - destruct Hev as (H0 & Hs & Hn). rewrite H0 in Hev0, HevS. destruct Hn as [Hn|Hn]; rewrite Hn in HH.
    + exists n. split; [lia|]. split; [by apply (Hbeg (NoDesc w sector))|]. split; [by apply Hin0|]. split; [done|by apply HsbS].
    + destruct HH as (c & Hc & Hb & Hin & He & Hsb). exists c. split; [lia|]. split; [done|]. split; [by apply HinS|].
      split; [by apply (HevS c [])|]. apply HsbS; [done|lia|done].
  - destruct Hev as [(H0 & Hs & Hn & g' & Hg' & Hd')|(Hn & g & g' & Hg & Hg' & Hcase)].
    + rewrite H0 in Hev0, HevS. destruct Hn as [Hn|[sector Hn]]; rewrite Hn in HH.
      * exists n, g'. rewrite Hd'. split; [lia|]. split; [by apply (Hbeg (InFlight w i))|]. split; [by apply Hin0|]. split; [done|].
        split; [done|by apply HsbS].
      * destruct HH as (c & Hc & Hb & Hin & He & Hsb). exists c, g'. rewrite Hd'. split; [lia|]. split; [done|]. split; [by apply HinS|].
        split; [done|]. split; [by apply (HevS c [])|]. apply HsbS; [done|lia|done].
    + rewrite Hn in HH. destruct HH as (c & g0 & Hc & Hb & Hin & Hg0 & HH). rewrite Hg in Hg0. injection Hg0 as <-.
      exists c, g'. split; [lia|]. split; [done|]. split; [by apply HinS|]. split; [done|].
      destruct Hcase as [(H0 & Hs & -> & ->)|(H0 & Hd & -> & Hrw)]; rewrite H0 in HevS.
      * destruct (done_phase (fl_phase g)).
        -- destruct HH as (He & k & Hk & Hsb1 & Hsb2 & Hrw). split; [by apply (HevS c [_; _])|]. exists k. split; [lia|]. split; [done|].
           split; [|done]. apply HsbS; [done|lia|done].
        -- destruct HH as (He & Hsb). split; [by apply (HevS c [_])|]. apply HsbS; [done|lia|done].
      * rewrite Hd in HH. destruct HH as (He & Hsb). split; [by apply (HevS c [_])|]. exists n. split; [lia|]. split; [done|].
        split; [apply same_buf_on_refl|done].
Qed.

Lemma path_history p n : virtio_device handle → path p n → ∃ F, sysat (p n) F ∧ ∀ b, call_history p n F b.
Proof.
  intros Hdev. induction n as [|n IH]; intros [Hst Hsteps].
  - exists ∅. split; [by apply started_inv|]. intros b. destruct Hst as (_ & _ & _ & _ & _ & _ & _ & _ & _ & _ & _ & E & _).
    unfold call_history. by rewrite E, lookup_empty.
  - destruct IH as (F & Hy & HH); [split; [done|]; intros k Hk; apply Hsteps; lia|].
    pose proof (Hsteps n ltac:(lia)) as Hstep. destruct (step_evolves _ F _ Hdev Hy Hstep) as (F' & Hy' & Hev).
    exists F'. split; [done|]. intros b. by eapply history_step.
Qed.

(** A request that is seen has succeeded. *)
Lemma seen_status y F i g : sysat y F → F !! i = Some g → fl_phase g = Seen → fl_status g = 0.
Proof.
  intros (O & U & (_ & _ & _ & Hd) & _) Hg Hp. destruct (dv_flights _ _ _ _ _ _ _ Hd i g Hg) as [_ _ _ _ (st & _ & _ & H0) _]. by apply H0.
Qed.

(** When a call returns, its transfer has been performed. *)
Lemma path_completes p n b w ev :
  virtio_device handle → path p (S n) → y_trace (p (S n)) = y_trace (p n) ++ ev → Complete b w ∈ ev →
  ∃ c k, (k < n)%nat ∧ began p b w c ∧ in_call p b c n ∧ events_of p b c (S n) [Submit b w; Serve b w; Complete b w] ∧ served_at p b w c k (S n) 0.
Proof.
  intros Hdev [Hst Hsteps] Etr Hin. destruct (path_history p n Hdev) as (F & Hy & HH); [split; [done|]; intros k Hk; apply Hsteps; lia|].
  destruct (step_evolves _ F _ Hdev Hy (Hsteps n ltac:(lia))) as (F' & _ & ev' & Etr' & Hev).
  rewrite Etr in Etr'. apply app_inv_head in Etr' as <-. specialize (Hev b). specialize (HH b). unfold evolves_at in Hev.
  assert (Hmine : Complete b w ∈ of_buf b ev) by (by apply list_elem_of_filter).
  destruct (y_calls (p (S n)) !! b) as [[w' sector|w' i]|].
  - destruct Hev as (E & _). rewrite E in Hmine. by apply elem_of_nil in Hmine.
  - assert (of_buf b ev = [Submit b w'] ∨ of_buf b ev = [] ∨ of_buf b ev = [Serve b w']) as [E|[E|E]] by naive_solver;
      rewrite E in Hmine; [by apply list_elem_of_singleton in Hmine|by apply elem_of_nil in Hmine|by apply list_elem_of_singleton in Hmine].
  - destruct (Hev w Hin) as (E & Hfs & i & g & Hc & Hg & Hp). unfold call_history in HH. rewrite Hc in HH.
    destruct HH as (c & g0 & Hcn & Hb & Hi & Hg0 & HH). rewrite Hg in Hg0. injection Hg0 as <-. rewrite Hp in HH. cbn in HH.
    destruct HH as (He & k & Hk & Hs1 & Hs2 & Hrw). exists c, k. split; [lia|]. split; [done|]. split; [done|]. split.
    + pose proof (events_of_S p b c n _ ev He Etr) as H'. by rewrite E in H'.
    + split; [lia|]. split; [done|]. split; [|intros _; apply Hrw; by eapply seen_status].
      apply same_buf_on_S; [done|lia|]. unfold same_buf, bufs. unfold y_fs in Hfs. by rewrite Hfs.
Qed.

(** ** Initialisation *)

(** Code that leaves the variables of the driver alone. *)
Definition keeps {A} (m : M (machine D) A) : Prop := ∀ d, triple (λ s, m_disk s = d) m (λ _ s, m_disk s = d).

Lemma keeps_bind {A B} (m : M (machine D) A) (f : A → M (machine D) B) : keeps m → (∀ a, keeps (f a)) → keeps (m ≫= f).
Proof. intros Hm Hf d. eapply triple_bind; [apply Hm|]. intros a. apply Hf. Qed.

Lemma keeps_ret {A} (a : A) : keeps (mret a).
Proof. intros d. by apply triple_ret. Qed.

Lemma keeps_panic {A} msg : keeps (panic (A := A) msg).
Proof. intros d. by apply triple_stop. Qed.

Lemma keeps_load a : keeps (load_reg32 a).
Proof.
  intros d s v s' Hs E. unfold load_reg32, load_dev in E. rewrite M_bind_unfold in E. destruct (bus_load a (m_dev s)).
  by injection E as <- <-.
Qed.

Lemma keeps_store a v : keeps (store_reg32 a v).
Proof. intros d s x s' Hs E. by injection E as <- <-. Qed.

Lemma keeps_kernel {A} (m : M kernel A) : keeps (in_kernel m).
Proof. intros d s a s' Hs E. unfold in_kernel in E. destruct (m (m_kernel s)) as [[]| | | |]; try done. by injection E as <- <-. Qed.

Lemma keeps_any {A} (m : M (machine D) A) (P : disk → Prop) : keeps m → triple (λ s, P (m_disk s)) m (λ _ s, P (m_disk s)).
Proof. intros Hm s a s' Hs E. by rewrite (Hm (m_disk s) s a s' eq_refl E). Qed.

Create HintDb keeps.
Hint Resolve keeps_bind keeps_ret keeps_panic keeps_load keeps_store keeps_kernel : keeps.

Lemma keeps_negotiate : keeps negotiate.
Proof. unfold negotiate. repeat (apply keeps_bind; [auto with keeps|intros ?]). destruct (_ =? _); auto with keeps. Qed.

Lemma keeps_check r v : keeps (check_reg r v).
Proof. unfold check_reg. apply keeps_bind; [auto with keeps|]. intros x. destruct (negb _); auto with keeps. Qed.

Lemma alloc_queues_disk d :
  triple (λ s, m_disk s = d) alloc_queues (λ _ s, ∃ pages, m_disk s = zero_queues (disk_with_pages pages d)).
Proof.
  unfold alloc_queues. do 3 (eapply triple_bind; [apply keeps_kernel|]; intros ?). eapply triple_bind.
  { apply (triple_modify _ _ (λ _ s, ∃ pages, m_disk s = disk_with_pages pages d)). intros s <-. by eexists. }
  intros ?. destruct (_ || _); [by apply triple_stop|].
  do 3 (eapply triple_bind; [apply (keeps_any _ (λ x, ∃ pages, x = disk_with_pages pages d)), keeps_kernel|]; intros ?).
  eapply triple_bind.
  { apply (triple_modify _ _ (λ _ s, ∃ pages, m_disk s = zero_queues (disk_with_pages pages d))). intros s [pages E]. exists pages. cbn. by rewrite E. }
  intros ?. do 6 (eapply triple_bind; [apply (keeps_any _ (λ x, ∃ pages, x = zero_queues (disk_with_pages pages d))), keeps_store|]; intros ?).
  apply (keeps_any _ (λ x, ∃ pages, x = zero_queues (disk_with_pages pages d))), keeps_store.
Qed.

(** The static variables before [virtio_disk_init]. *)
Definition static_disk (d : disk) : Prop :=
  d_used_idx d = 0 ∧ length (d_info d) = Z.to_nat NUM ∧ length (d_ops d) = Z.to_nat NUM ∧ length (d_busy d) = Z.to_nat NBUF.

(** If it finds a device, the driver starts in the state above. *)
Lemma virtio_disk_init_started m u m' :
  static_disk (m_disk m) → virtio_disk_init m = Ret (u, m') → started (mk_sys m' 0 [] ∅ []).
Proof.
  intros (E1 & L1 & L2 & L3) E. set (d := disk_with_lock (initlock "virtio_disk") (m_disk m)).
  set (q := λ x, ∃ pages, x = zero_queues (disk_with_pages pages d)).
  assert (Ht : triple (λ s, m_disk s = m_disk m) virtio_disk_init (λ _ s, ∃ pages,
    m_disk s = disk_with_free (replicate (Z.to_nat NUM) 1) (zero_queues (disk_with_pages pages d)))).
  { unfold virtio_disk_init. eapply triple_bind.
    { apply (triple_modify _ _ (λ _ s, m_disk s = d)). intros s Es. cbn. by rewrite Es. }
    intros ?. do 4 (eapply triple_bind; [apply keeps_check|]; intros ?).
    eapply triple_bind; [apply keeps_negotiate|]. intros st. eapply triple_bind; [apply keeps_store|]. intros ?.
    eapply triple_bind; [apply keeps_load|]. intros rd. destruct (negb _); [by apply triple_stop|].
    eapply triple_bind; [apply keeps_load|]. intros mx. destruct (_ =? _); [by apply triple_stop|]. destruct (_ <? _); [by apply triple_stop|].
    eapply triple_bind; [apply alloc_queues_disk|]. intros ?. eapply triple_bind; [apply (keeps_any _ q), keeps_store|]. intros ?.
    eapply triple_bind.
    { apply (triple_modify _ _ (λ _ s, ∃ pages, m_disk s = disk_with_free (replicate (Z.to_nat NUM) 1) (zero_queues (disk_with_pages pages d)))).
      intros s [pages Es]. exists pages. cbn. by rewrite Es. }
    intros ?. apply (keeps_any _ (λ x, ∃ pages, x = disk_with_free _ (zero_queues (disk_with_pages pages d)))), keeps_store. }
  destruct (Ht m u m' eq_refl E) as [pages Ed]. unfold started. cbn [y_machine]. rewrite Ed. by ands.
Qed.
End system.
