(* ===== verification/Syscall.v ===== *)
(** * System calls (kernel/syscall.c, kernel/sys_slab_allocator.c)

    The slab allocator of Cache.v runs on the kernel's memory and buddy
    tree ([run_slab]).  [mycpu_addr] is the address of the hart's
    [struct cpu], [name_buf] that of the local array of
    [sys_cache_create]; the other section variables are those of Cache.v,
    Pipe.v and Proc.v. *)

From S2P Require Import Prelude Spinlock Riscv Mem Buddy BlockAlloc MemLock Slab Cache Vm FsState Bio Log Fs Pipe SysFile Proc.

Section calls.
Context (h : nat) (forkret : Z).
Context (caches_origin raw_caches_lock mycpu_addr cache_dtor_fn name_buf : Z) (lit : string → Z).
Context (call_fn : Z → Z → M (kstate mem_tree) unit).
Context (devsw_read devsw_write : Z → option (Z → Z → M kfs Z)).

(** ** Slab allocator *)

Definition slab_state (s : kernel) : kstate mem_tree :=
  let v := k_vm (n_fs s) in
  mk_kstate (v_mem v) (v_tree v) (n_caches_head s) (n_small_mem_caches s) [].

Definition run_slab {A} (m : BlockAllocator mem_tree → M (kstate mem_tree) A) : M kernel A :=
  s ← get;
  '(a, t) ← lift (m (buddy_allocator h (v_end (k_vm (n_fs s)))) (slab_state s));
  modify (λ s,
    let f := n_fs s in
    let v := vm_with_tree (k_blocks t) (vm_with_mem (k_mem t) (k_vm f)) in
    let out := FsState.k_out f ++ ((λ e, (pr_fmt e, pr_args e)) <$> Slab.k_out t) in
    with_slab (caches_head t) (small_mem_caches t) (with_fs (with_out out (with_vm v f)) s));;
  mret a.

Definition sys_cache_init : M kernel Z :=
  run_slab (λ _, cache_init caches_origin raw_caches_lock cache_dtor_fn lit);;
  mret 0.

Definition sys_cache_create : M kernel Z :=
  i ← cur h;
  name ← run_as h i (in_vm (argstr 0 30));
  match name with
  | None => mret (-1)
  | Some _ =>
    size ← run_as h i (in_vm (argaddr 1));
    ctor ← run_as h i (in_vm (argaddr 2));
    dtor ← run_as h i (in_vm (argaddr 3));
    cache ← run_slab (λ B, cache_create caches_origin mycpu_addr call_fn name_buf size ctor dtor);
    run_slab (λ _, cache_to_id cache)
  end.

Definition sys_cache_shrink : M kernel Z :=
  i ← cur h;
  id ← run_as h i (in_vm (argaddr 0));
  cache ← run_slab (λ _, id_to_cache id);
  run_slab (λ B, cache_shrink mycpu_addr cache).

Definition sys_cache_alloc : M kernel Z :=
  i ← cur h;
  id ← run_as h i (in_vm (argaddr 0));
  cache ← run_slab (λ _, id_to_cache id);
  if cache =? 0 then mret (-1)
  else
    mem ← run_slab (λ B, cache_alloc mycpu_addr call_fn cache);
    if mem =? 0 then mret (-1)
    else
      p ← get_proc i;
      size ← run_slab (λ _, load64 (cache_size cache));
      let old_size := PGROUNDUP (p_sz p) in
      let new_space := PGROUNDUP size in
      let perm := Z.lor (Z.lor PTE_R PTE_W) PTE_U in
      ret ← run_as h i (in_vm (mappages (p_pagetable p) old_size new_space mem perm));
      if ret <? 0 then mret (-1)
      else
        modify_proc i (λ p, proc_with_vm (u64 (p_sz p + PGROUNDUP size)) (p_pagetable p) (p_trapframe p) p);;
        mret old_size.

Definition sys_cache_free : M kernel Z :=
  i ← cur h;
  id ← run_as h i (in_vm (argaddr 0));
  ptr ← run_as h i (in_vm (argaddr 1));
  cache ← run_slab (λ _, id_to_cache id);
  if cache =? 0 then mret (-1)
  else
    p ← get_proc i;
    pa ← run_as h i (in_vm (walkaddr (p_pagetable p) ptr));
    if pa =? 0 then mret (-1)
    else
      size ← run_slab (λ _, load64 (cache_size cache));
      let npages := PGROUNDUP size / PGSIZE in
      run_as h i (in_vm (uvmunmap (p_pagetable p) ptr npages false));;
      run_slab (λ _, cache_free mycpu_addr lit cache pa);;
      mret 0.

Definition sys_cache_kalloc : M kernel Z :=
  i ← cur h;
  size ← run_as h i (in_vm (argaddr 0));
  run_slab (λ B, cache_kalloc caches_origin raw_caches_lock mycpu_addr lit call_fn size).

Definition sys_cache_kfree : M kernel Z :=
  i ← cur h;
  ptr ← run_as h i (in_vm (argaddr 0));
  run_slab (λ _, cache_kfree mycpu_addr ptr);;
  mret 0.

Definition sys_cache_destroy : M kernel Z :=
  i ← cur h;
  id ← run_as h i (in_vm (argaddr 0));
  cache ← run_slab (λ _, id_to_cache id);
  if cache =? 0 then mret (-1)
  else
    run_slab (λ _, cache_destroy caches_origin mycpu_addr lit cache);;
    mret 0.

Definition sys_cache_info : M kernel Z :=
  i ← cur h;
  id ← run_as h i (in_vm (argaddr 0));
  cache ← run_slab (λ _, id_to_cache id);
  if cache =? 0 then mret (-1)
  else
    run_slab (λ _, cache_info mycpu_addr cache);;
    mret 0.

Definition sys_cache_error : M kernel Z :=
  i ← cur h;
  id ← run_as h i (in_vm (argaddr 0));
  cache ← run_slab (λ _, id_to_cache id);
  if cache =? 0 then mret (-1)
  else run_slab (λ _, cache_error cache).

(** ** Dispatch *)

(** How a system call ends: it returns to user space, sleeps (and goes on
    after a wakeup) or never returns. *)
Inductive call := Returns (r : Z) | Sleeps | Exits.

Definition returns (m : M kernel Z) : M kernel call := r ← m; mret (Returns r).

Definition may_sleep (m : M kernel outcome) : M kernel call :=
  r ← m;
  mret (match r with Done r => Returns r | Asleep _ => Sleeps end).

(** A system call of kernel/sysfile.c by the current process. *)
Definition on_files (m : M kfs Z) : M kernel call :=
  i ← cur h;
  r ← run_as h i m;
  mret (Returns r).

(** The table, with the numbers of kernel/syscall.h. *)
Definition syscalls : list (option (M kernel call)) :=
  [ None;
    Some (returns (sys_fork h forkret));
    Some (sys_exit h;; mret Exits);
    Some (may_sleep (sys_wait h));
    Some (on_files sys_pipe);
    Some (on_files (sys_read devsw_read));
    Some (returns (sys_kill h));
    Some (on_files sys_exec);
    Some (on_files sys_fstat);
    Some (on_files sys_chdir);
    Some (on_files sys_dup);
    Some (returns (sys_getpid h));
    Some (returns (sys_sbrk h));
    Some (may_sleep (sys_pause h));
    Some (returns (sys_uptime h));
    Some (on_files sys_open);
    Some (on_files (sys_write devsw_write));
    Some (on_files sys_mknod);
    Some (on_files sys_unlink);
    Some (on_files sys_link);
    Some (on_files sys_mkdir);
    Some (on_files sys_close);
    Some (returns sys_cache_init);
    Some (returns sys_cache_create);
    Some (returns sys_cache_shrink);
    Some (returns sys_cache_alloc);
    Some (returns sys_cache_free);
    Some (returns sys_cache_kalloc);
    Some (returns sys_cache_kfree);
    Some (returns sys_cache_destroy);
    Some (returns sys_cache_info);
    Some (returns sys_cache_error) ].

Definition syscall : M kernel call :=
  i ← cur h;
  p ← get_proc i;
  num ← run_as h i (in_vm (load64 (p_trapframe p + 168)));
  let num := s32 num in
  match (if (0 <? num) && (num <? Z.of_nat (length syscalls)) then syscalls !! Z.to_nat num else None) with
  | Some (Some f) =>
    r ← f;
    match r with
    | Returns r => run_as h i (in_vm (store64 (p_trapframe p + 112) r))
    | _ => mret tt
    end;;
    mret r
  | _ =>
    run_as h i (print "%d %s: unknown sys call %d\n" [p_pid p; num]);;
    run_as h i (in_vm (store64 (p_trapframe p + 112) (-1)));;
    mret (Returns (-1))
  end.
End calls.
