(* ===== verification/Trap.v ===== *)
(** * Traps, the interrupt controller and booting (kernel/trap.c,
    kernel/plic.c, kernel/start.c, kernel/main.c, and [kvminit],
    [kvminithart] and [forkret] of kernel/vm.c and kernel/proc.c)

    The code runs on hart [h].  [usertrap] and [kerneltrap] are cut where
    they give up the processor; [usertrap_resume], [usertrap_end] and
    [kerneltrap_resume] go on from there.  The section variables are the
    addresses of assembly code and C functions, the number of rounds that
    the UART may take, and the system call table's entry point. *)

From S2P Require Import Prelude Spinlock Riscv Mem Buddy Vm FsState Bio Log Fs Pipe SysFile Proc Printf Machine Console Virtio Syscall.

Section trap.
Context {D : Type} `{Bus D} (h spin : nat).
Context (kernelvec usertrap_fn uservec_offset forkret_fn main_fn : Z) (syscall : M kernel call).
Abbreviation Mm := (M (machine D)).

(** ** The PLIC *)

Definition plicinit : Mm unit :=
  store_reg32 (PLIC + UART0_IRQ * 4) 1;;
  store_reg32 (PLIC + VIRTIO0_IRQ * 4) 1.

Definition plicinithart : Mm unit :=
  hart ← cpuid h;
  store_reg32 (PLIC_SENABLE hart) (Z.lor (Z.shiftl 1 UART0_IRQ) (Z.shiftl 1 VIRTIO0_IRQ));;
  store_reg32 (PLIC_SPRIORITY hart) 0.

Definition plic_claim : Mm Z :=
  hart ← cpuid h;
  irq ← load_reg32 (PLIC_SCLAIM hart);
  mret (s32 irq).

Definition plic_complete (irq : Z) : Mm unit :=
  hart ← cpuid h;
  store_reg32 (PLIC_SCLAIM hart) irq.

(** ** Trap handling *)

Definition trapinit : Mm unit := initlock_m ticks_lock "time".

Definition trapinithart : Mm unit := w_stvec h kernelvec.

Definition clockintr : Mm unit :=
  hart ← cpuid h;
  (if hart =? 0 then
     acquire_m h ticks_lock;;
     in_kernel (modify (λ k, with_ticks (u32 (n_ticks k + 1)) k);;
                wakeup h (Some CTicks));;
     release_m h ticks_lock
   else mret tt);;
  time ← r_time h;
  w_stimecmp h (u64 (time + 1000000)).

Definition devintr : Mm Z :=
  scause ← r_scause h;
  if scause =? 0x8000000000000009 then
    irq ← plic_claim;
    (if irq =? UART0_IRQ then uartintr h spin
     else if irq =? VIRTIO0_IRQ then virtio_disk_intr h
     else if negb (irq =? 0) then
       printf h spin (zstr "unexpected interrupt irq=%d" ++ [newline]) [AInt irq];;
       mret tt
     else mret tt);;
    (if negb (irq =? 0) then plic_complete irq else mret tt);;
    mret 1
  else if scause =? 0x8000000000000005 then
    clockintr;;
    mret 2
  else mret 0.

(** Fields of [p->trapframe]. *)
Definition tf_kernel_satp : Z := 0.
Definition tf_kernel_sp : Z := 8.
Definition tf_kernel_trap : Z := 16.
Definition tf_epc : Z := 24.
Definition tf_kernel_hartid : Z := 32.
Definition tf_a0 : Z := 112.

Definition tf_load (i : nat) (off : Z) : Mm Z :=
  in_kernel (p ← get_proc i; run_as h i (in_vm (load64 (p_trapframe p + off)))).

Definition tf_store (i : nat) (off v : Z) : Mm unit :=
  in_kernel (p ← get_proc i; run_as h i (in_vm (store64 (p_trapframe p + off) v))).

Definition prepare_return : Mm unit :=
  i ← in_kernel (cur h);
  in_kernel (intr_off h);;
  w_stvec h (TRAMPOLINE + uservec_offset);;
  satp ← r_satp h;
  tf_store i tf_kernel_satp satp;;
  p ← in_kernel (get_proc i);
  tf_store i tf_kernel_sp (u64 (p_kstack p + PGSIZE));;
  tf_store i tf_kernel_trap usertrap_fn;;
  tp ← r_tp h;
  tf_store i tf_kernel_hartid tp;;
  x ← r_sstatus h;
  w_sstatus h (Z.lor (Z.land x (Z.lnot SSTATUS_SPP)) SSTATUS_SPIE);;
  epc ← tf_load i tf_epc;
  w_sepc h epc.

(** How a trap from user space goes on: back to user space with this page
    table, after the scheduler has run other processes, asleep in a system
    call, or never. *)
Inductive trapped :=
  | ToUser (satp : Z)
  | Yielded (i : nat) (intena : bool)
  | Sleeping (i : nat)
  | Exited.

(** The end of [usertrap] after [yield]. *)
Definition usertrap_return (i : nat) : Mm trapped :=
  prepare_return;;
  p ← in_kernel (get_proc i);
  mret (ToUser (MAKE_SATP (p_pagetable p))).

Definition usertrap_resume (i : nat) (intena : bool) : Mm trapped :=
  in_kernel (yield_in h i intena);;
  usertrap_return i.

(** The end of [usertrap] from the second call of [killed] on. *)
Definition usertrap_end (i : nat) (which_dev : Z) : Mm trapped :=
  k ← in_kernel (killed h i);
  if negb (k =? 0) then in_kernel (kexit h (-1));; mret Exited
  else if which_dev =? 2 then
    intena ← in_kernel (yield_out h);
    mret (Yielded i intena)
  else usertrap_return i.

Definition usertrap_syscall (i : nat) : Mm trapped :=
  k ← in_kernel (killed h i);
  if negb (k =? 0) then in_kernel (kexit h (-1));; mret Exited
  else
    epc ← tf_load i tf_epc;
    tf_store i tf_epc (u64 (epc + 4));;
    in_kernel (intr_on h);;
    r ← in_kernel syscall;
    match r with
    | Returns _ => usertrap_end i 0
    | Sleeps => mret (Sleeping i)
    | Exits => mret Exited
    end.

(** The third and fourth branch: a page fault, or something unexpected. *)
Definition usertrap_fault (i : nat) : Mm unit :=
  scause ← r_scause h;
  fault ← (if (scause =? 15) || (scause =? 13) then
             stval ← r_stval h;
             r ← in_kernel (p ← get_proc i; run_as h i (in_vm (vmfault (p_pagetable p) stval)));
             mret (negb (r =? 0))
           else mret false);
  if (fault : bool) then mret tt
  else
    p ← in_kernel (get_proc i);
    printf h spin (zstr "usertrap(): unexpected scause 0x%lx pid=%d" ++ [newline]) [AInt scause; AInt (p_pid p)];;
    sepc ← r_sepc h;
    stval ← r_stval h;
    printf h spin (zstr "            sepc=0x%lx stval=0x%lx" ++ [newline]) [AInt sepc; AInt stval];;
    in_kernel (setkilled h i).

Definition usertrap : Mm trapped :=
  x ← r_sstatus h;
  if negb (Z.land x SSTATUS_SPP =? 0) then panic "usertrap: not from user mode"
  else
    w_stvec h kernelvec;;
    i ← in_kernel (cur h);
    sepc ← r_sepc h;
    tf_store i tf_epc sepc;;
    scause ← r_scause h;
    if scause =? 8 then usertrap_syscall i
    else
      which_dev ← devintr;
      (if negb (which_dev =? 0) then mret tt else usertrap_fault i);;
      usertrap_end i which_dev.

(** [kerneltrap] after [yield], or without it. *)
Definition kerneltrap_resume (sepc sstatus : Z) : Mm unit :=
  w_sepc h sepc;;
  w_sstatus h sstatus.

(** [Some]: the process of the hart has given up the processor; the saved
    registers are in the result. *)
Definition kerneltrap : Mm (option (bool * Z * Z)) :=
  sepc ← r_sepc h;
  sstatus ← r_sstatus h;
  scause ← r_scause h;
  if Z.land sstatus SSTATUS_SPP =? 0 then panic "kerneltrap: not from supervisor mode"
  else
    on ← in_kernel (intr_get h);
    if (on : bool) then panic "kerneltrap: interrupts enabled"
    else
      which_dev ← devintr;
      if which_dev =? 0 then
        pc ← r_sepc h;
        stval ← r_stval h;
        printf h spin (zstr "scause=0x%lx sepc=0x%lx stval=0x%lx" ++ [newline]) [AInt scause; AInt pc; AInt stval];;
        panic "kerneltrap"
      else
        yields ← (if which_dev =? 2 then p ← in_kernel (myproc h); mret (bool_decide (is_Some p)) else mret false);
        if (yields : bool) then
          intena ← in_kernel (yield_out h);
          mret (Some (intena, sepc, sstatus))
        else
          kerneltrap_resume sepc sstatus;;
          mret None.

(** ** The kernel page table (kernel/vm.c) *)

Definition boot_view (f : kfs) : kfs :=
  let v := k_vm f in
  mk_kfs h (k_pid f) (k_cwd f) (k_ofile f) (k_name f) (k_disk f) (k_writes f) (k_bc f) (k_log f) (k_sb f) (k_it f) (k_ft f)
    (k_pipes f) (mk_vmstate h (v_end v) (v_etext v) (v_trampoline v) (v_mem v) (v_tree v) (v_pagetable v) (v_sz v) (v_trapframe v) (v_killed v))
    (k_out f).

(** File system and memory code before there are processes. *)
Definition at_boot {A} (m : M kfs A) : Mm A :=
  in_kernel (s ← get;
             '(a, f) ← lift (m (boot_view (n_fs s)));
             modify (with_fs f);;
             mret a).

Definition kvminit : Mm unit :=
  kpgtbl ← at_boot (in_vm kvmmake);
  modify (with_kernel_pagetable kpgtbl).

Definition kvminithart : Mm unit :=
  s ← get;
  w_satp h (MAKE_SATP (m_kernel_pagetable s)).

(** ** The first return to user space (kernel/proc.c) *)

Definition first_exec (i : nat) : Mm unit :=
  in_kernel (run_as h i (fsinit ROOTDEV));;
  modify (with_first 0);;
  r ← in_kernel (run_as h i (kexec (zstr "/init") [zstr "/init"]));
  tf_store i tf_a0 (u64 r);;
  a0 ← tf_load i tf_a0;
  if a0 =? u64 (-1) then panic "exec" else mret tt.

Definition forkret : Mm trapped :=
  i ← in_kernel (cur h);
  in_kernel (release_p h i);;
  s ← get;
  (if negb (m_first s =? 0) then first_exec i else mret tt);;
  usertrap_return i.

(** ** Booting *)

Definition timerinit : Mm unit :=
  mie ← r_mie h;
  w_mie h (Z.lor mie MIE_STIE);;
  menvcfg ← r_menvcfg h;
  w_menvcfg h (Z.lor menvcfg (Z.shiftl 1 63));;
  mcounteren ← r_mcounteren h;
  w_mcounteren h (Z.lor mcounteren 2);;
  time ← r_time h;
  w_stimecmp h (u64 (time + 1000000)).

(** Up to [mret]. *)
Definition start : Mm unit :=
  x ← r_mstatus h;
  w_mstatus h (Z.lor (Z.land x (Z.lnot MSTATUS_MPP_MASK)) MSTATUS_MPP_S);;
  w_mepc h main_fn;;
  w_satp h 0;;
  w_medeleg h 0xffff;;
  w_mideleg h 0xffff;;
  sie ← r_sie h;
  w_sie h (Z.lor (Z.lor sie SIE_SEIE) SIE_STIE);;
  w_pmpaddr0 h 0x3fffffffffffff;;
  w_pmpcfg0 h 0xf;;
  timerinit;;
  id ← r_mhartid h;
  w_tp h (s32 id).

Definition main_init : Mm unit :=
  consoleinit;;
  printfinit;;
  printf h spin [newline] [];;
  printf h spin (zstr "xv6 kernel is booting" ++ [newline]) [];;
  printf h spin [newline] [];;
  at_boot (in_vm (s ← get; t ← lift (kinit h (v_end s) (v_tree s)); modify (vm_with_tree t)));;
  kvminit;;
  kvminithart;;
  in_kernel procinit;;
  trapinit;;
  trapinithart;;
  plicinit;;
  plicinithart;;
  at_boot binit;;
  at_boot iinit;;
  at_boot fileinit;;
  virtio_disk_init;;
  in_kernel (userinit h forkret_fn);;
  modify (with_started 1).

(** [main] up to the call of [scheduler]; a hart other than 0 waits for
    hart 0. *)
Definition main : Mm unit :=
  hart ← cpuid h;
  if hart =? 0 then main_init
  else
    s ← get;
    if m_started s =? 0 then lift Block
    else
      id ← cpuid h;
      printf h spin (zstr "hart %d starting" ++ [newline]) [AInt id];;
      kvminithart;;
      trapinithart;;
      plicinithart.
End trap.
