(* ===== verification/TrapSpec.v ===== *)
(** * Traps: what the handlers do to the trapframe and the control registers,
    and a trap from user space and back *)

From stdpp Require Import functions.
From S2P Require Import Prelude Spinlock Riscv Mem Buddy BlockAlloc Slab KString Vm VmSpec VmCopy FsState Bio Log Fs Pipe PipeSpec SysFile Proc ProcSpec Machine MachineSpec Asm AsmSpec Console ConsoleSpec Syscall Trap.

(** A flag of a register. *)
Lemma land_flag x n : 0 ≤ n → Z.land x (Z.shiftl 1 n) = if Z.testbit x n then Z.shiftl 1 n else 0.
Proof.
  intros Hn. apply Z_bits_inj. intros j Hj. rewrite Z.land_spec. destruct (decide (j = n)) as [->|Hne].
  - rewrite Z.shiftl_spec, Z.sub_diag by done. change (Z.testbit 1 0) with true. rewrite andb_true_r.
    destruct (Z.testbit x n); [|by rewrite Z.bits_0]. by rewrite Z.shiftl_spec, Z.sub_diag.
  - assert (E : Z.testbit (Z.shiftl 1 n) j = false) by (rewrite Z.shiftl_1_l; by apply Z.pow2_bits_false).
    rewrite E, andb_false_r. destruct (Z.testbit x n); [done|by rewrite Z.bits_0].
Qed.

(** What [prepare_return] makes of [sstatus]. *)
Definition user_status (x : Z) : Z := Z.lor (Z.land (Z.land x (Z.lnot SSTATUS_SIE)) (Z.lnot SSTATUS_SPP)) SSTATUS_SPIE.

Lemma user_status_bits x : Z.testbit (user_status x) 8 = false ∧ Z.testbit (user_status x) 5 = true ∧ Z.testbit (user_status x) 1 = false.
Proof.
  unfold user_status. rewrite !Z.lor_spec, !Z.land_spec, !Z.lnot_spec by lia.
  split; [|split]; rewrite ?andb_false_r, ?orb_true_r; cbn; rewrite ?andb_false_r; done.
Qed.

Section trap.
Context {D : Type} `{Bus D} (h : nat).
Implicit Types (s : machine D) (k : kernel) (f : csrs).

(** ** Control registers *)

Lemma runs_csrr s f r (Q : Z → machine D → Prop) : m_csrs s !! h = Some f → Q (f r) s → runs (csrr h r) s Q.
Proof. intros Hf HQ. exists (f r), s. unfold csrr. by rewrite Hf. Qed.

Lemma runs_csrw s f r v (Q : unit → machine D → Prop) :
  m_csrs s !! h = Some f → Q tt (with_csrs (<[h := <[r := v]> f]> (m_csrs s)) s) → runs (csrw h r v) s Q.
Proof. intros Hf HQ. eexists tt, _. split; [|exact HQ]. unfold csrw. by rewrite Hf. Qed.

(** The bits of [sstatus] other than the interrupt enable bit. *)
Lemma runs_r_sstatus s f c (Q : Z → machine D → Prop) :
  m_csrs s !! h = Some f → n_cpus (m_kernel s) !! h = Some c →
  Q (if c_sie c then Z.lor (f SSTATUS) SSTATUS_SIE else Z.land (f SSTATUS) (Z.lnot SSTATUS_SIE)) s → runs (r_sstatus h) s Q.
Proof.
  intros Hf Hc HQ. unfold r_sstatus. apply runs_bind. eapply runs_csrr; [done|]. apply runs_bind, runs_in_kernel. unfold intr_get.
  apply runs_bind, (runs_mycpu h _ c); [done|]. apply runs_ret, runs_ret. by destruct s.
Qed.

(** ** The clock *)

Lemma runs_acquire_ticks s me n (Q : unit → machine D → Prop) :
  unlocked (n_tickslock (m_kernel s)) → hart_at h (m_kernel s) me n →
  (∀ k, hart_at h k me (n + 1) → calm k = calm (m_kernel s) → n_ticks k = n_ticks (m_kernel s) →
    n_tickslock k = held_by h (n_tickslock (m_kernel s)) → Q tt (with_kernel k s)) →
  runs (acquire_m h ticks_lock) s Q.
Proof.
  intros Hl Hk HQ. unfold acquire_m. apply runs_bind, runs_in_kernel. pose proof Hk as [(c & Hc & Hok & Hp & Hn) Hf Hlen Hm].
  apply (runs_push_off h _ c); [done|]. apply runs_bind. eapply runs_eq; [reflexivity|]. apply runs_bind.
  eapply runs_eq; [unfold lift; cbn; rewrite acquire_unlocked by done; reflexivity|]. apply runs_modify.
  apply HQ; [|done..]. rewrite <-Hn. change (c_noff c + 1) with (c_noff (pushed c)).
  pose proof (hart_put h _ _ _ (pushed c) Hk (pushed_ok c Hok) Hp) as [? ? ? ?]. by split.
Qed.

Lemma runs_release_ticks s l me n (Q : unit → machine D → Prop) :
  n_tickslock (m_kernel s) = held_by h l → unlocked l → hart_at h (m_kernel s) me n → 1 ≤ n →
  (∀ k, hart_at h k me (n - 1) → calm k = calm (m_kernel s) → n_procs k = n_procs (m_kernel s) → n_ticks k = n_ticks (m_kernel s) →
    n_tickslock k = l → Q tt (with_kernel k s)) →
  runs (release_m h ticks_lock) s Q.
Proof.
  intros El Hl Hk H1 HQ. unfold release_m. apply runs_bind. eapply runs_eq; [reflexivity|]. apply runs_bind.
  eapply runs_eq; [unfold lift; cbn; rewrite El, release_held by done; reflexivity|]. apply runs_bind, runs_modify, runs_in_kernel.
  pose proof Hk as [(c & Hc & Hok & Hp & Hn) Hf Hlen Hm]. apply (runs_pop_off h _ c); [done|apply Hok; lia|lia|].
  apply HQ; [|done..]. rewrite <-Hn. change (c_noff c - 1) with (c_noff (popped c)).
  pose proof (hart_put h _ _ _ (popped c) Hk ltac:(apply popped_ok; [done|lia]) Hp) as [? ? ? ?]. by split.
Qed.

Lemma wakeup_ticks k me n (Q : unit → kernel → Prop) :
  hart_at h k me n → (∀ k', hart_at h k' me n → calm k' = calm k → n_ticks k' = n_ticks k → n_tickslock k' = n_tickslock k →
    all_awake k' me (Some CTicks) → Q tt k') → runs (wakeup h (Some CTicks)) k Q.
Proof.
  intros Hk HQ. pose proof Hk as [(c & Hc & Hok & Hp & Hn) Hf Hl Hm].
  destruct (wakeup_spec h k c (Some CTicks) Hc Hok Hf Hl) as ([] & k' & E & (c' & _ & Ek')).
  destruct (runs_wake_all h k me n (Some CTicks) (λ _ k', hart_at h k' me n ∧ calm k' = calm k ∧ all_awake k' me (Some CTicks)) Hk) as ([] & k2 & E2 & H2); [done|].
  rewrite E in E2. injection E2 as <-. exists tt, k'. split; [done|]. destruct H2 as (? & ? & ?). apply HQ; try done; by rewrite Ek'.
Qed.

Lemma clockintr_runs s f me n :
  m_csrs s !! h = Some f → unlocked (n_tickslock (m_kernel s)) → hart_at h (m_kernel s) me n → 0 ≤ n →
  runs (clockintr h) s (λ _ s',
    m_csrs s' !! h = Some (<[STIMECMP := u64 (f TIME + 1000000)]> f) ∧ hart_at h (m_kernel s') me n ∧ calm (m_kernel s') = calm (m_kernel s) ∧
    if s32 (f TP) =? 0 then
      n_ticks (m_kernel s') = u32 (n_ticks (m_kernel s) + 1) ∧ all_awake (m_kernel s') me (Some CTicks) ∧ unlocked (n_tickslock (m_kernel s'))
    else m_kernel s' = m_kernel s).
Proof.
  intros Hf Hl Hk Hn. unfold clockintr. apply runs_bind. unfold cpuid. apply runs_bind. eapply runs_csrr; [done|]. apply runs_ret.
  assert (Hend : ∀ s1, m_csrs s1 = m_csrs s → ∀ Q : unit → machine D → Prop,
    Q tt (with_csrs (<[h := <[STIMECMP := u64 (f TIME + 1000000)]> f]> (m_csrs s1)) s1) → runs (time ← r_time h; w_stimecmp h (u64 (time + 1000000))) s1 Q).
  { intros s1 E Q HQ. apply runs_bind. eapply runs_csrr; [by rewrite E|]. eapply runs_csrw; [by rewrite E|done]. }
  assert (Hc : ∀ s1, m_csrs s1 = m_csrs s → <[h := <[STIMECMP := u64 (f TIME + 1000000)]> f]> (m_csrs s1) !! h = Some (<[STIMECMP := u64 (f TIME + 1000000)]> f : csrs)).
  { intros s1 ->. apply list_lookup_insert_eq. by eapply lookup_lt_Some. }
  destruct (s32 (f TP) =? 0); [|apply runs_bind, runs_ret, Hend; [done|]; split; [by apply Hc|done]].
  apply runs_bind, runs_bind. eapply runs_acquire_ticks; [done|done|]. intros k1 Hk1 C1 T1 L1.
  apply runs_bind, runs_in_kernel, runs_bind, runs_modify. eapply (wakeup_ticks _ me (n + 1)); [by destruct Hk1|]. intros k2 Hk2 C2 T2 L2 A2.
  eapply (runs_release_ticks _ (n_tickslock (m_kernel s))); [cbn; rewrite L2; exact L1|done|exact Hk2|lia|].
  intros k3 Hk3 C3 P3 T3 L3. apply Hend; [done|]. split; [by apply Hc|]. split; [by replace n with (n + 1 - 1) by lia|].
  split; [cbn; cbn in C3; rewrite C3, C2; exact C1|]. cbn in *. split; [by rewrite T3, T2, <-T1|]. split; [|by rewrite L3].
  intros j p Hj. rewrite P3 in Hj. by apply A2.
Qed.

(** The kernel with another set of free blocks. *)
Definition tree_at (V : kfs) (t : mem_tree) : kfs := with_vm (vm_with_tree t (k_vm V)) V.

Lemma tree_at_same V : tree_at V (v_tree (k_vm V)) = V.
Proof. by destruct V as [? ? ? ? ? ? ? ? ? ? ? ? ? []]. Qed.

Section process.
Context (i : nat) (pr : proc).

(** Process [i] runs on the hart; [m] is the memory. *)
Definition at_work (V : kfs) k (n : Z) (m : gmap Z Z) : Prop :=
  hart_at h k (Some i) n ∧ (∃ p', n_procs k !! i = Some p' ∧ proc_with_state UNUSED p' = proc_with_state UNUSED pr) ∧
  view h pr (n_fs k) = vm_at V m.

(** Memory code of the process. *)
Lemma runs_as_alloc {A} V (mm : M vmstate A) k n m (R : A → gmap Z Z → mem_tree → Prop) (Q : A → kernel → Prop) :
  at_work V k n m → runs mm (vm_with_mem m (k_vm V)) (λ a v, ∃ m' t, v = vm_with_tree t (vm_with_mem m' (k_vm V)) ∧ R a m' t) →
  (∀ a k' m' t, at_work (tree_at V t) k' n m' → n_cpus k' = n_cpus k → R a m' t → Q a k') → runs (run_as h i (in_vm mm)) k Q.
Proof.
  intros (Hk & (p' & Hp & Ep) & Hv) (a & v & Em & m' & t & -> & HR) HQ. unfold run_as.
  apply runs_bind. eapply runs_eq; [reflexivity|]. apply runs_bind, (runs_get_proc _ i p'); [done|]. apply runs_bind.
  rewrite (view_same h pr p' _ Ep), Hv. eapply runs_eq; [unfold lift, in_vm; cbn [vm_at k_vm with_vm]; rewrite Em; reflexivity|].
  apply runs_bind, runs_modify, runs_bind, (runs_modify_proc _ i p'); [done|]. apply runs_ret.
  change (with_vm (vm_with_tree t (vm_with_mem m' (k_vm V))) (vm_at V m)) with (vm_at (tree_at V t) m').
  assert (Eun : unview (vm_at (tree_at V t) m') p' = p').
  { rewrite <-(unview_view h p' (n_fs k)) at 2. rewrite (view_same h pr p' _ Ep), Hv. done. }
  rewrite Eun, put_proc_same by done. apply (HQ a _ m' t); [|done..]. split; [by destruct Hk|]. split; [by exists p'|].
  cbn. change (view h pr (vm_at (tree_at V t) m')) with (vm_at (tree_at (view h pr (vm_at V m)) t) m').
  assert (Evv : view h pr (vm_at V m) = vm_at V m) by (by rewrite <-Hv). by rewrite Evv.
Qed.

Context (V : kfs).

Lemma at_work_calm k k' n n' m : at_work V k n m → hart_at h k' (Some i) n' → calm k' = calm k → at_work V k' n' m.
Proof.
  intros (_ & (p' & Hp & Ep) & Hv) Hk E. split; [done|]. split; [|injection E as -> _; done].
  destruct (calm_proc _ _ i p' (eq_sym E) Hp) as (q & Hq & Eq). exists q. split; [done|]. congruence.
Qed.

Lemma runs_as_vm {A} (mm : M vmstate A) k n m (R : A → gmap Z Z → Prop) (Q : A → kernel → Prop) :
  at_work V k n m → runs mm (vm_with_mem m (k_vm V)) (λ a v, ∃ m', v = vm_with_mem m' (k_vm V) ∧ R a m') →
  (∀ a k' m', at_work V k' n m' → n_cpus k' = n_cpus k → R a m' → Q a k') → runs (run_as h i (in_vm mm)) k Q.
Proof.
  intros Hw Hm HQ. apply (runs_as_alloc V mm k n m (λ a m' t, R a m' ∧ t = v_tree (k_vm V))); [done| |].
  - eapply runs_mono; [exact Hm|]. intros a v (m' & -> & HR). exists m', (v_tree (k_vm V)). split; [by destruct (k_vm V)|done].
  - intros a k' m' t Hw' Ec [HR ->]. rewrite tree_at_same in Hw'. by eapply HQ.
Qed.

(** The trapframe is in RAM. *)
Context (Htf : is_page (p_trapframe pr)).
Abbreviation tf := (p_trapframe pr).

Lemma same_trapframe p' : proc_with_state UNUSED p' = proc_with_state UNUSED pr → p_trapframe p' = tf.
Proof. intros E. exact (f_equal p_trapframe E). Qed.

Lemma tf_ram o : 0 ≤ o ∧ o + 8 ≤ PGSIZE → KERNBASE ≤ tf + o ∧ tf + o + 8 ≤ PHYSTOP.
Proof. destruct Htf as (_ & H1 & H2). lia. Qed.

Lemma kernel_tf_load k n m o (Q : Z → kernel → Prop) :
  at_work V k n m → 0 ≤ o ∧ o + 8 ≤ PGSIZE → (∀ k', at_work V k' n m → n_cpus k' = n_cpus k → Q (ld64 m (tf + o)) k') →
  runs (run_as h i (in_vm (load64 (tf + o)))) k Q.
Proof.
  intros Hw Ho HQ. pose proof (tf_ram o Ho).
  eapply (runs_as_vm _ _ _ _ (λ a m', a = ld64 m (tf + o) ∧ m' = m)); [done| |intros a k' m' Hw' Ec [-> ->]; by apply HQ].
  apply runs_loadn; [lia..|]. by exists m.
Qed.

Lemma kernel_tf_store k n m o v (Q : unit → kernel → Prop) :
  at_work V k n m → 0 ≤ o ∧ o + 8 ≤ PGSIZE → (∀ k', at_work V k' n (st64 m (tf + o) v) → n_cpus k' = n_cpus k → Q tt k') →
  runs (run_as h i (in_vm (store64 (tf + o) v))) k Q.
Proof.
  intros Hw Ho HQ. pose proof (tf_ram o Ho).
  eapply (runs_as_vm _ _ _ _ (λ _ m', m' = st64 m (tf + o) v)); [done| |intros [] k' m' Hw' Ec ->; by apply HQ].
  apply runs_storen; [lia..|]. by exists (st64 m (tf + o) v).
Qed.

(** The machine while the process handles a trap. *)
Definition trapping s n m f : Prop := at_work V (m_kernel s) n m ∧ m_csrs s !! h = Some f.

Lemma runs_tf_load s n m f o (Q : Z → machine D → Prop) :
  trapping s n m f → 0 ≤ o ∧ o + 8 ≤ PGSIZE →
  (∀ s', trapping s' n m f → n_cpus (m_kernel s') = n_cpus (m_kernel s) → Q (ld64 m (tf + o)) s') → runs (tf_load h i o) s Q.
Proof.
  intros [Hw Hf] Ho HQ. unfold tf_load. apply runs_in_kernel. pose proof Hw as (_ & (p' & Hp & Ep) & _).
  apply runs_bind, (runs_get_proc _ i p'); [done|]. rewrite (same_trapframe p' Ep). eapply kernel_tf_load; [done|done|].
  intros k' Hw' Ec. by apply HQ.
Qed.

Lemma runs_tf_store s n m f o v (Q : unit → machine D → Prop) :
  trapping s n m f → 0 ≤ o ∧ o + 8 ≤ PGSIZE →
  (∀ s', trapping s' n (st64 m (tf + o) v) f → n_cpus (m_kernel s') = n_cpus (m_kernel s) → Q tt s') → runs (tf_store h i o v) s Q.
Proof.
  intros [Hw Hf] Ho HQ. unfold tf_store. apply runs_in_kernel. pose proof Hw as (_ & (p' & Hp & Ep) & _).
  apply runs_bind, (runs_get_proc _ i p'); [done|]. rewrite (same_trapframe p' Ep). eapply kernel_tf_store; [done|done|].
  intros k' Hw' Ec. by apply HQ.
Qed.

Lemma runs_trap_csrr s n m f r (Q : Z → machine D → Prop) : trapping s n m f → Q (f r) s → runs (csrr h r) s Q.
Proof. intros [_ Hf]. by apply runs_csrr. Qed.

Lemma runs_trap_csrw s n m f r v (Q : unit → machine D → Prop) :
  trapping s n m f → (∀ s', trapping s' n m (<[r := v]> f) → m_kernel s' = m_kernel s → Q tt s') → runs (csrw h r v) s Q.
Proof.
  intros [Hw Hf] HQ. eapply runs_csrw; [done|]. apply HQ; [|done]. split; [done|]. cbn. apply list_lookup_insert_eq. by eapply lookup_lt_Some.
Qed.

Lemma runs_trap_cur s n m f (Q : nat → machine D → Prop) :
  trapping s n m f → (∀ s', trapping s' n m f → Q i s') → runs (in_kernel (cur h)) s Q.
Proof.
  intros [Hw Hf] HQ. apply runs_in_kernel. eapply runs_cur; [apply Hw|]. intros k' Hk' E. apply HQ. split; [|done].
  by eapply at_work_calm.
Qed.

Lemma runs_trap_killed s n m f (Q : Z → machine D → Prop) :
  trapping s n m f → (∀ s', trapping s' n m f → Q (p_killed pr) s') → runs (in_kernel (killed h i)) s Q.
Proof.
  intros [Hw Hf] HQ. apply runs_in_kernel. pose proof Hw as (Hk & (p' & Hp & Ep) & _). eapply runs_killed; [done|done|].
  intros k' Hk' E. rewrite (f_equal p_killed Ep : p_killed p' = p_killed pr). apply HQ. split; [|done]. by eapply at_work_calm.
Qed.

Lemma runs_trap_proc s n m f (Q : proc → machine D → Prop) :
  trapping s n m f → (∀ p', proc_with_state UNUSED p' = proc_with_state UNUSED pr → Q p' s) → runs (in_kernel (get_proc i)) s Q.
Proof.
  intros [(_ & (p' & Hp & Ep) & _) _] HQ. apply runs_in_kernel, (runs_get_proc _ i p'); [done|]. replace (with_kernel (m_kernel s) s) with s by (by destruct s).
  by apply HQ.
Qed.

(** Interrupts off, or on outside of critical sections. *)
Lemma runs_trap_intr s m f (on : bool) (Q : unit → machine D → Prop) :
  trapping s 0 m f → (∀ s' c, trapping s' 0 m f → n_cpus (m_kernel s') !! h = Some c → c_sie c = on → Q tt s') →
  runs (in_kernel (if on then intr_on h else intr_off h)) s Q.
Proof.
  intros [Hw Hf] HQ. apply runs_in_kernel. pose proof Hw as (Hk & _). pose proof Hk as [(c & Hc & Hok & Hp & Hn) _ _ _].
  set (c' := mk_cpu (c_proc c) (c_noff c) (c_intena c) on).
  assert (Hq : runs (if on then intr_on h else intr_off h) (m_kernel s) (λ _ k, k = put_cpu h c' (m_kernel s))).
  { unfold c'. destruct on; (apply runs_bind, (runs_mycpu h _ c); [done|]); by apply runs_modify. }
  eapply runs_mono; [exact Hq|]. intros [] k' ->. apply (HQ _ c'); [|by eapply cpu_put|done]. split; [|done].
  eapply at_work_calm; [exact Hw| |done]. rewrite <-Hn. change (c_noff c) with (c_noff c'). eapply hart_put; [done| |done].
  split; cbn; lia.
Qed.
(** ** [prepare_return] *)

Context (kernelvec usertrap_fn uservec_offset : Z).

Definition prepared m (satp hartid : Z) : gmap Z Z :=
  st64 (st64 (st64 (st64 m (tf + 0) satp) (tf + 8) (u64 (p_kstack pr + PGSIZE))) (tf + 16) usertrap_fn) (tf + 32) hartid.

Definition user_csrs m f : csrs :=
  <[SEPC := ld64 m (tf + 24)]> (<[SSTATUS := user_status (f SSTATUS)]> (<[STVEC := TRAMPOLINE + uservec_offset]> f)).

Lemma prepared_word m satp hartid o : o = 24 ∨ 40 ≤ o → ld64 (prepared m satp hartid) (tf + o) = ld64 m (tf + o).
Proof. intros Ho. unfold prepared. rewrite !ldn_stn_ne by (cbn; lia). done. Qed.

Lemma prepare_return_runs s m f (Q : unit → machine D → Prop) :
  trapping s 0 m f →
  (∀ s' c, trapping s' 0 (prepared m (f SATP) (f TP)) (user_csrs m f) → n_cpus (m_kernel s') !! h = Some c → c_sie c = false → Q tt s') →
  runs (prepare_return h usertrap_fn uservec_offset) s Q.
Proof.
  intros Hs HQ. unfold prepare_return, PGSIZE in *. apply runs_bind. eapply runs_trap_cur; [done|]. clear s Hs. intros s Hs.
  apply runs_bind, (runs_trap_intr s m f false); [done|]. clear s Hs. intros s c Hs Hc Hsie.
  apply runs_bind. eapply runs_trap_csrw; [done|]. intros s1 Hs1 E1. rewrite <-E1 in Hc. clear s Hs E1.
  apply runs_bind. eapply runs_trap_csrr; [done|]. apply runs_bind. eapply runs_tf_store; [done|by vm_compute|].
  intros s2 Hs2 E2. rewrite <-E2 in Hc. clear s1 Hs1 E2. apply runs_bind. eapply runs_trap_proc; [done|]. intros p' Ep.
  rewrite (f_equal p_kstack Ep : p_kstack p' = p_kstack pr). apply runs_bind. eapply runs_tf_store; [done|by vm_compute|].
  intros s3 Hs3 E3. rewrite <-E3 in Hc. clear s2 Hs2 E3. apply runs_bind. eapply runs_tf_store; [done|by vm_compute|].
  intros s4 Hs4 E4. rewrite <-E4 in Hc. clear s3 Hs3 E4. apply runs_bind. eapply runs_trap_csrr; [done|].
  apply runs_bind. eapply runs_tf_store; [done|by vm_compute|]. intros s5 Hs5 E5. rewrite <-E5 in Hc. clear s4 Hs4 E5.
  apply runs_bind. eapply runs_r_sstatus; [apply Hs5|done|]. rewrite Hsie.
  change (<[STVEC := _]> f SATP) with (f SATP) in Hs5. change (<[STVEC := _]> f TP) with (f TP) in Hs5.
  change (trapping s5 0 (prepared m (f SATP) (f TP)) (<[STVEC := TRAMPOLINE + uservec_offset]> f)) in Hs5.
  change (Z.lor _ SSTATUS_SPIE) with (user_status (f SSTATUS)). set (M := prepared m (f SATP) (f TP)) in *.
  apply runs_bind. unfold w_sstatus. apply runs_bind. eapply runs_trap_csrw; [done|]. intros s6 Hs6 _.
  unfold SSTATUS_SIE. rewrite land_flag by done. rewrite (proj2 (proj2 (user_status_bits (f SSTATUS)))). cbn [Z.eqb negb].
  eapply (runs_trap_intr s6 M _ false); [done|]. clear c Hc Hsie. intros s7 c Hs7 Hc Hsie.
  apply runs_bind. eapply runs_tf_load; [done|by vm_compute|]. intros s8 Hs8 E8. rewrite <-E8 in Hc. unfold tf_epc, M. rewrite prepared_word by lia.
  eapply runs_trap_csrw; [done|]. intros s9 Hs9 E9. rewrite <-E9 in Hc. by eapply HQ.
Qed.

(** ** [usertrap] *)

Context (spin : nat) (syscall : M kernel call).
Abbreviation usertrap := (usertrap h spin kernelvec usertrap_fn uservec_offset syscall).
Abbreviation usertrap_end := (usertrap_end h usertrap_fn uservec_offset).

(** Back to user space. *)
Lemma usertrap_return_runs s m f (Q : trapped → machine D → Prop) :
  trapping s 0 m f →
  (∀ s' c, trapping s' 0 (prepared m (f SATP) (f TP)) (user_csrs m f) → n_cpus (m_kernel s') !! h = Some c → c_sie c = false →
    Q (ToUser (MAKE_SATP (p_pagetable pr))) s') →
  runs (usertrap_return h usertrap_fn uservec_offset i) s Q.
Proof.
  intros Hs HQ. unfold usertrap_return. apply runs_bind. eapply prepare_return_runs; [done|]. intros s' c Hs' Hc Hsie.
  apply runs_bind. eapply runs_trap_proc; [done|]. intros p' Ep. apply runs_ret.
  rewrite (f_equal p_pagetable Ep : p_pagetable p' = p_pagetable pr). by eapply HQ.
Qed.

Lemma usertrap_end_runs s m f which_dev (Q : trapped → machine D → Prop) :
  trapping s 0 m f → p_killed pr = 0 → which_dev ≠ 2 →
  (∀ s' c, trapping s' 0 (prepared m (f SATP) (f TP)) (user_csrs m f) → n_cpus (m_kernel s') !! h = Some c → c_sie c = false →
    Q (ToUser (MAKE_SATP (p_pagetable pr))) s') →
  runs (usertrap_end i which_dev) s Q.
Proof.
  intros Hs Hk Hd HQ. unfold usertrap_end. apply runs_bind. eapply runs_trap_killed; [done|]. intros s' Hs'. rewrite Hk. cbn [Z.eqb negb].
  rewrite (proj2 (Z.eqb_neq which_dev 2) Hd). by eapply usertrap_return_runs.
Qed.

(** The common beginning. *)
Lemma usertrap_runs s m f (Q : trapped → machine D → Prop) :
  trapping s 0 m f → Z.testbit (f SSTATUS) 8 = false →
  (∀ s', trapping s' 0 (st64 m (tf + 24) (f SEPC)) (<[STVEC := kernelvec]> f) →
    runs (if f SCAUSE =? 8 then usertrap_syscall h usertrap_fn uservec_offset syscall i
          else
            which_dev ← devintr h spin;
            (if negb (which_dev =? 0) then mret tt else usertrap_fault h spin i);;
            usertrap_end i which_dev) s' Q) →
  runs usertrap s Q.
Proof.
  intros Hs Hspp HQ. unfold Trap.usertrap. apply runs_bind. pose proof Hs as [([(c & Hc & _) _ _ _] & _) Hf].
  eapply runs_r_sstatus; [done|done|]. unfold SSTATUS_SPP. rewrite land_flag by done.
  replace (Z.testbit _ 8) with false by (destruct (c_sie c); rewrite ?Z.lor_spec, ?Z.land_spec, Hspp; done). cbn [Z.eqb negb].
  apply runs_bind. eapply runs_trap_csrw; [done|]. intros s1 Hs1 _. clear s Hs Hc Hf. rename s1 into s, Hs1 into Hs.
  apply runs_bind. eapply runs_trap_cur; [done|]. clear s Hs. intros s Hs. apply runs_bind. eapply runs_trap_csrr; [done|].
  apply runs_bind. eapply runs_tf_store; [done|by vm_compute|]. intros s1 Hs1 _. clear s Hs. rename s1 into s, Hs1 into Hs.
  apply runs_bind. eapply runs_trap_csrr; [done|]. by apply HQ.
Qed.

(** A system call, up to the handler. *)
Lemma usertrap_syscall_runs s m f (Q : trapped → machine D → Prop) :
  trapping s 0 m f → Z.testbit (f SSTATUS) 8 = false → f SCAUSE = 8 → 0 ≤ f SEPC < 2 ^ 64 → p_killed pr = 0 →
  (∀ s' m', trapping s' 0 m' (<[STVEC := kernelvec]> f) → ld64 m' (tf + 24) = u64 (f SEPC + 4) → agree_except [(tf + 24, 8)] m m' →
    runs (r ← in_kernel syscall;
          match r with
          | Returns _ => usertrap_end i 0
          | Sleeps => mret (Sleeping i)
          | Exits => mret Exited
          end) s' Q) →
  runs usertrap s Q.
Proof.
  intros Hs Hspp Hsc Hpc Hk HQ. eapply usertrap_runs; [done|done|]. clear s Hs. intros s Hs. rewrite Hsc. cbn [Z.eqb].
  unfold usertrap_syscall. apply runs_bind. eapply runs_trap_killed; [done|]. clear s Hs. intros s Hs. rewrite Hk. cbn [Z.eqb negb].
  apply runs_bind. eapply runs_tf_load; [done|by vm_compute|]. intros s1 Hs1 _. clear s Hs. rename s1 into s, Hs1 into Hs.
  apply runs_bind. eapply runs_tf_store; [done|by vm_compute|]. intros s1 Hs1 _. clear s Hs. rename s1 into s, Hs1 into Hs.
  apply runs_bind. eapply (runs_trap_intr s _ _ true); [done|]. clear s Hs. intros s _ Hs _ _.
  eapply HQ; [exact Hs| |].
  - unfold tf_epc. rewrite !ld64_st64 by (assumption || apply u64_range). done.
  - unfold tf_epc. agree.
Qed.
(** ** [getpid] *)

Context (forkret caches_origin raw_caches_lock mycpu_addr cache_dtor_fn name_buf : Z) (lit : string → Z).
Context (call_fn : Z → Z → M (kstate mem_tree) unit) (devsw_read devsw_write : Z → option (Z → Z → M kfs Z)).
Abbreviation the_syscall :=
  (Syscall.syscall h forkret caches_origin raw_caches_lock mycpu_addr cache_dtor_fn name_buf lit call_fn devsw_read devsw_write).

Lemma syscall_getpid k m (Q : call → kernel → Prop) :
  at_work V k 0 m → ld64 m (tf + 168) = 11 → (∀ k', at_work V k' 0 (st64 m (tf + 112) (p_pid pr)) → Q (Returns (p_pid pr)) k') →
  runs the_syscall k Q.
Proof.
  intros Hw Hnum HQ. unfold Syscall.syscall. apply runs_bind. eapply runs_cur; [apply Hw|]. intros k1 Hk1 E1.
  pose proof (at_work_calm _ _ _ _ _ Hw Hk1 E1) as Hw1. clear k Hw Hk1 E1. pose proof Hw1 as (_ & (p1 & Hp1 & Ep1) & _).
  apply runs_bind, (runs_get_proc _ i p1); [done|]. rewrite (same_trapframe p1 Ep1).
  apply runs_bind. eapply kernel_tf_load; [done|by vm_compute|]. intros k2 Hw2 _. rewrite Hnum.
  change (s32 11) with 11. change ((0 <? 11) && (11 <? Z.of_nat (length _))) with true. cbv iota.
  change (Z.to_nat 11) with 11%nat. cbn [syscalls lookup list_lookup].
  apply runs_bind. unfold returns, sys_getpid. apply runs_bind, runs_bind. eapply runs_cur; [apply Hw2|]. intros k3 Hk3 E3.
  pose proof (at_work_calm _ _ _ _ _ Hw2 Hk3 E3) as Hw3. clear k2 Hw2 Hk3 E3. pose proof Hw3 as (_ & (p3 & Hp3 & Ep3) & _).
  apply runs_bind, (runs_get_proc _ i p3); [done|]. apply runs_ret, runs_ret. rewrite (f_equal p_pid Ep3 : p_pid p3 = p_pid pr).
  apply runs_bind. eapply kernel_tf_store; [done|by vm_compute|]. intros k4 Hw4 _. apply runs_ret. by apply HQ.
Qed.
End process.

(** ** From user space and back *)

(** The C code that [uservec] calls: it goes on with the registers and the
    memory of the assembly code; other registers than [a0] and [tp] may be
    anything when it returns. *)
Definition enter (y : hart) s : machine D :=
  let k := m_kernel s in
  with_csrs (<[h := <[TP := x_regs y Reg.tp]> (x_csrs y)]> (m_csrs s))
    (with_kernel (with_fs (with_vm (vm_with_mem (x_mem y) (k_vm (n_fs k))) (n_fs k)) k) s).

Definition leave (junk : Reg.reg → Z) (satp : Z) s : res hart :=
  match (m_csrs s !! h : option csrs) with
  | Some f => Ret (mk_hart (<[Reg.a0 := satp]> (<[Reg.tp := f TP]> junk)) f (v_mem (k_vm (n_fs (m_kernel s)))))
  | None => Fault
  end.

Definition c_call (usertrap_fn : Z) (usertrap : M (machine D) trapped) junk s (t : target) (y : hart) : res hart :=
  match t with
  | At a =>
    if a =? usertrap_fn then
      '(r, s') ← usertrap (enter y s);
      match r with
      | ToUser satp => leave junk satp s'
      | _ => Block
      end
    else Fault
  | Named _ => Fault
  end.

(** The kernel memory that a process sees is the machine's. *)
Lemma at_work_mem i pr V k n m : at_work i pr V k n m → v_mem (k_vm (n_fs k)) = m.
Proof. intros (_ & _ & Hv). exact (f_equal (λ v, v_mem (k_vm v)) Hv). Qed.

Lemma enter_trapping i pr V y s f0 m0 :
  at_work i pr V (m_kernel s) 0 m0 → m_csrs s !! h = Some f0 →
  trapping i pr V (enter y s) 0 (x_mem y) (<[TP := x_regs y Reg.tp]> (x_csrs y)).
Proof.
  intros (Hk & Hp & Hv) Hf. split.
  - split; [by destruct Hk|]. split; [done|]. cbn.
    change (view h pr _) with (with_vm (vm_with_mem (x_mem y) (k_vm (view h pr (n_fs (m_kernel s))))) (view h pr (n_fs (m_kernel s)))).
    by rewrite Hv.
  - cbn. apply list_lookup_insert_eq. by eapply lookup_lt_Some.
Qed.

Section roundtrip.
Context (i : nat) (pr : proc) (usertrap_fn : Z) (usertrap : M (machine D) trapped) (junk : Reg.reg → Z).
Context (symbol : string → Z) (pc : list instr → Z).
Abbreviation tf := (p_trapframe pr).

(** A trap from user space that the handler returns from: the user gets
    the registers of the trapframe. *)
Lemma trap_roundtrip x s satp (P : gmap Z Z → csrs → Prop) :
  frame [(tf, PGSIZE)] (x_mem x) (x_csrs x SATP) TRAPFRAME tf PGSIZE → regs_ok x → ld64 (x_mem x) (tf + 16) = usertrap_fn →
  (∀ y, entered x tf y → runs usertrap (enter y s) (λ r s', ∃ V m' f', r = ToUser satp ∧ trapping i pr V s' 0 m' f' ∧
    frame [(tf, PGSIZE)] m' satp TRAPFRAME tf PGSIZE ∧ P m' f')) →
  ∃ x' m' f', exec symbol pc (c_call usertrap_fn usertrap junk s) trampoline x = Ret (Trap_returned (f' SEPC), x') ∧ P m' f' ∧
    (∀ r, r ≠ Reg.zero → x_regs x' r = ld64 m' (tf + trapframe_offset r)) ∧ x_mem x' = m' ∧ x_csrs x' = <[SATP := satp]> f'.
Proof.
  intros Hf Hr Hfn Hu. unfold trampoline.
  destruct (uservec_runs symbol pc (c_call usertrap_fn usertrap junk s) userret x tf Hf Hr) as (y & Hy & ->). rewrite Hfn.
  destruct (Hu y Hy) as (r & s' & E & V & m' & f' & -> & [Hw Hf'] & Hfr & HP). 
  set (z := mk_hart (<[Reg.a0 := satp]> (<[Reg.tp := f' TP]> junk)) f' m').
  assert (Ec : c_call usertrap_fn usertrap junk s (At usertrap_fn) y = Ret z).
  { unfold c_call. rewrite Z.eqb_refl, E, res_bind_Ret. unfold leave. by rewrite Hf', (at_work_mem _ _ _ _ _ _ Hw). }
  rewrite Ec, res_bind_Ret. destruct (userret_runs symbol pc (c_call usertrap_fn usertrap junk s) z tf Hfr) as (x' & E' & R1 & R2 & R3).
  change (x_csrs z SEPC) with (f' SEPC) in E'. change (x_mem z) with m' in R1, R2.
  change (x_regs z Reg.a0) with satp in R3. change (x_csrs z) with f' in R3. clearbody z. exists x', m', f'. by ands.
Qed.
End roundtrip.
End trap.

(** * Traps from user space and back *)

Section user.
Context {D : Type} `{Bus D} (h spin : nat) (kernelvec usertrap_fn uservec_offset : Z) (syscall : M kernel call).
Context (symbol : string → Z) (pc : list instr → Z) (junk : Reg.reg → Z).
Abbreviation usertrap := (usertrap h spin kernelvec usertrap_fn uservec_offset syscall).

(** Hart [h], in state [x], has just trapped from user space, where
    process [i] was running with the page tables [T]. *)
Record from_user (i : nat) (pr : proc) (V : kfs) (T : gmap (list Z) Z) (x : hart) (s : machine D) : Prop := {
  fu_work : at_work h i pr V (m_kernel s) 0 (x_mem x);
  fu_csrs : is_Some (m_csrs s !! h);
  fu_regs : regs_ok x;
  fu_satp : x_csrs x SATP = MAKE_SATP (p_pagetable pr);
  fu_status : Z.testbit (x_csrs x SSTATUS) 8 = false;
  fu_pc : 0 ≤ x_csrs x SEPC < 2 ^ 64;
  fu_rep : pt_rep (x_mem x) T (p_pagetable pr);
  fu_page : is_page (p_trapframe pr);
  fu_apart : apart_from_tables T [(p_trapframe pr, PGSIZE)];
  fu_mapped : mapping (x_mem x) T TRAPFRAME = Some (new_pte TRAPFRAME (p_trapframe pr) (Z.lor PTE_R PTE_W) TRAPFRAME);
  fu_trap : ld64 (x_mem x) (p_trapframe pr + 16) = usertrap_fn;
  fu_killed : p_killed pr = 0;
}.

(** The trapframe page, as long as the tables stay. *)
Lemma trapframe_frame m T root tf :
  pt_rep m T root → is_page tf → apart_from_tables T [(tf, PGSIZE)] →
  mapping m T TRAPFRAME = Some (new_pte TRAPFRAME tf (Z.lor PTE_R PTE_W) TRAPFRAME) →
  frame [(tf, PGSIZE)] m (MAKE_SATP root) TRAPFRAME tf PGSIZE.
Proof. intros HR Hp Ha Hm. by apply (table_frame _ m T). Qed.

Lemma prepared_agree pr m satp hartid : agree_except [(p_trapframe pr, PGSIZE)] m (prepared pr usertrap_fn m satp hartid).
Proof. unfold prepared, PGSIZE. agree. Qed.

Section process.
Context (i : nat) (pr : proc) (V : kfs) (T : gmap (list Z) Z).
Abbreviation tf := (p_trapframe pr).

Lemma from_user_frame x s : from_user i pr V T x s → frame [(tf, PGSIZE)] (x_mem x) (x_csrs x SATP) TRAPFRAME tf PGSIZE.
Proof. intros []. rewrite fu_satp0. by apply (trapframe_frame _ T). Qed.

(** The registers that the handler finds. *)
Lemma entered_csrs x y c : entered x tf y → c ≠ SATP → c ≠ SSCRATCH → c ≠ TP → (<[TP := x_regs y Reg.tp]> (x_csrs y) : csrs) c = x_csrs x c.
Proof. intros Hy N1 N2 N3. rewrite csr_ne by done. by apply Hy. Qed.

(** A system call that returns a value and leaves the rest of the
    trapframe and the page tables alone. *)
Lemma system_call_returns x s v :
  from_user i pr V T x s → x_csrs x SCAUSE = 8 → 0 ≤ v < 2 ^ 64 →
  (∀ k m, at_work h i pr V k 0 m → (∀ r, r ≠ Reg.zero → ld64 m (tf + trapframe_offset r) = x_regs x r) →
    runs syscall k (λ r k', ∃ r', r = Returns r' ∧ at_work h i pr V k' 0 (st64 m (tf + 112) v))) →
  ∃ x', exec symbol pc (c_call h usertrap_fn usertrap junk s) trampoline x = Ret (Trap_returned (u64 (x_csrs x SEPC + 4)), x') ∧
    (∀ r, r ≠ Reg.zero → x_regs x' r = if decide (r = Reg.a0) then v else x_regs x r) ∧
    x_csrs x' SATP = x_csrs x SATP ∧ agree_except [(tf, PGSIZE)] (x_mem x) (x_mem x').
Proof.
  intros Hx Hsc Hv Hcall. pose proof Hx as []. destruct fu_csrs0 as [f0 Hf0].
  destruct (trap_roundtrip h i pr usertrap_fn usertrap junk symbol pc x s (MAKE_SATP (p_pagetable pr))
    (λ m' f', f' SEPC = u64 (x_csrs x SEPC + 4) ∧ (∀ r, r ≠ Reg.zero → ld64 m' (tf + trapframe_offset r) = if decide (r = Reg.a0) then v else x_regs x r) ∧
      agree_except [(tf, PGSIZE)] (x_mem x) m')) as (x' & m' & f' & E & (Hpc & Hregs & Ha) & R1 & R2 & R3);
    [by eapply from_user_frame|done|done| |].
  2: { exists x'. rewrite <-Hpc. split; [done|]. split; [intros r Hz; rewrite R1 by done; by apply Hregs|].
       rewrite R2, R3, fu_satp0. by rewrite csr_eq. }
  intros y Hy. pose proof (enter_trapping h i pr V y s f0 (x_mem x) fu_work0 Hf0) as Hs.
  set (f := <[TP := x_regs y Reg.tp]> (x_csrs y) : csrs) in *.
  assert (Hfc : ∀ c, c ≠ SATP → c ≠ SSCRATCH → c ≠ TP → f c = x_csrs x c) by (intros; by apply entered_csrs).
  eapply usertrap_syscall_runs; [done|exact Hs|rewrite Hfc by done; done|by rewrite Hfc|by rewrite Hfc|done|].
  intros s1 m1 [Hw1 Hf1] Hepc Ha1. apply runs_bind, runs_in_kernel. eapply runs_mono; [apply (Hcall _ m1 Hw1)|].
  { intros r Hz. rewrite (agree_ldn _ _ _ 8 _ Ha1); [by apply Hy|]. forall_list. destruct r; cbn; try done; lia. }
  intros r k2 (r' & -> & Hw2). set (m2 := st64 m1 (tf + 112) v) in *.
  eapply (usertrap_end_runs h i pr V fu_page0 usertrap_fn uservec_offset _ m2); [by split|done|done|].
  intros s3 c Hs3 Hc Hsie. eexists V, _, _. split; [done|]. split; [exact Hs3|].
  set (m3 := prepared _ _ _ _ _). assert (Ham : agree_except [(tf, PGSIZE)] (x_mem x) m3).
  { eapply agree_trans; [eapply agree_weaken; [apply Hy|unfold PGSIZE; in_ranges]|].
    eapply agree_trans; [eapply agree_weaken; [exact Ha1|unfold PGSIZE; in_ranges]|].
    eapply agree_trans; [|apply prepared_agree]. apply agree_store; [apply agree_refl|]. apply Exists_cons_hd. unfold PGSIZE. cbn. lia. }
  split; [|split; [|split; [|done]]].
  - rewrite <-fu_satp0. eapply frame_agree; [by eapply from_user_frame|done].
  - rewrite <-(Hfc SEPC) by done. unfold user_csrs. rewrite csr_eq. unfold m2. rewrite ldn_stn_ne by (cbn; lia). done.
  - intros r Hz. unfold m3. rewrite prepared_word by (destruct r; cbn; try done; lia). unfold m2. destruct (decide (r = Reg.a0)) as [->|Hne].
    + by apply ld64_st64.
    + rewrite ldn_stn_ne by (destruct r; cbn; try done; lia). rewrite (agree_ldn _ _ _ 8 _ Ha1); [by apply Hy|].
      forall_list. destruct r; cbn; try done; lia.
Qed.

(** ** Page faults *)

Lemma devintr_not s n m f (Q : Z → machine D → Prop) :
  trapping h i pr V s n m f → f SCAUSE = 13 ∨ f SCAUSE = 15 → Q 0 s → runs (devintr h spin) s Q.
Proof.
  intros Hs Hc HQ. unfold devintr. apply runs_bind. eapply runs_trap_csrr; [done|].
  rewrite (proj2 (Z.eqb_neq _ _)), (proj2 (Z.eqb_neq _ _)) by (destruct Hc as [-> | ->]; lia). by apply runs_ret.
Qed.

(** What the process knows of its memory is in the kernel's view. *)
Lemma at_work_view k n m : at_work h i pr V k n m → v_pagetable (k_vm V) = p_pagetable pr ∧ v_sz (k_vm V) = p_sz pr.
Proof. intros (_ & _ & Hv). split; [exact (eq_sym (f_equal (λ v, v_pagetable (k_vm v)) Hv))|exact (eq_sym (f_equal (λ v, v_sz (k_vm v)) Hv))]. Qed.

Lemma usertrap_fault_runs s m f L p0 va (Q : unit → machine D → Prop) :
  trapping h i pr V s 0 m f → f SCAUSE = 13 ∨ f SCAUSE = 15 → f STVAL = va → 0 ≤ va < p_sz pr → p_sz pr ≤ MAXVA →
  vm_inv (p_pagetable pr) (vm_with_mem m (k_vm V)) T L → T !! key 0 va = Some p0 → mapping m T va = None →
  kalloc (v_hart (k_vm V)) (v_tree (k_vm V)) ≠ Ret (0, v_tree (k_vm V)) →
  (∀ s' page v' L', page_added (p_pagetable pr) (vm_with_mem m (k_vm V)) T L va page v' L' →
    trapping h i pr (tree_at V (v_tree v')) s' 0 (v_mem v') f → Q tt s') →
  runs (usertrap_fault h spin i) s Q.
Proof.
  intros Hs Hc Hva Hr Hsz Hinv Hp0 Hnone Hmem HQ. pose proof Hs as [Hw Hf]. destruct (at_work_view _ _ _ Hw) as [Er Es].
  unfold usertrap_fault. apply runs_bind. eapply runs_trap_csrr; [done|]. apply runs_bind.
  replace ((f SCAUSE =? 15) || (f SCAUSE =? 13)) with true by (destruct Hc as [-> | ->]; done).
  apply runs_bind. eapply runs_trap_csrr; [done|]. rewrite Hva. apply runs_bind, runs_in_kernel.
  pose proof Hw as (_ & (p' & Hp & Ep) & _). apply runs_bind, (runs_get_proc _ i p'); [done|].
  rewrite (f_equal p_pagetable Ep : p_pagetable p' = p_pagetable pr).
  apply (runs_as_alloc h i pr V _ _ 0 m (λ page m' t, page ≠ 0 ∧ ∃ v' L', v_mem v' = m' ∧ v_tree v' = t ∧
    page_added (p_pagetable pr) (vm_with_mem m (k_vm V)) T L va page v' L')); [done| |].
  - eapply runs_mono; [apply (vmfault_spec _ _ T L va p0 Hinv); [exact Er|cbn; lia|cbn; lia|done|done]|].
    intros page v' [(_ & _ & E)|(Hne & L' & Hadd)]; [done|]. pose proof (pa_state _ _ _ _ _ _ _ _ Hadd) as (m' & t & ->).
    exists m', t. split; [done|]. split; [done|]. by exists (vm_upd m' t (vm_with_mem m (k_vm V))), L'.
  - intros page k' m' t Hw' Ec (Hne & v' & L' & <- & <- & Hadd). apply runs_ret. rewrite (proj2 (Z.eqb_neq page 0) Hne). cbn [negb].
    apply runs_ret. eapply HQ; [exact Hadd|]. by split.
Qed.
End process.

Section fault.
Context (i : nat) (pr : proc) (V : kfs) (T : gmap (list Z) Z).
Abbreviation tf := (p_trapframe pr).

(** The trapframe is neither a table nor the new page. *)
Lemma page_added_trapframe m L va page v' L' o :
  is_page tf → apart_from_tables T [(tf, PGSIZE)] → (tf, 0) ∈ L →
  page_added (p_pagetable pr) (vm_with_mem m (k_vm V)) T L va page v' L' → 0 ≤ o ∧ o + 8 ≤ PGSIZE →
  ld64 (v_mem v') (tf + o) = ld64 m (tf + o).
Proof.
  intros Hp Ha Hl Hadd Ho. apply ldn_bt_ext. intros b Hb. apply (pa_frame _ _ _ _ _ _ _ _ Hadd).
  - intros k p Hk. specialize (Ha k p Hk). apply List.Forall_inv in Ha. cbn in *. lia.
  - destruct (pa_new _ _ _ _ _ _ _ _ Hadd) as (_ & _ & _ & Hap). specialize (Hap _ Hl). unfold apart, block_bytes in Hap. cbn in Hap, Hb. unfold PGSIZE in *. lia.
Qed.

(** What the user gets: a zeroed page of its own at the address of the
    fault; the other pages and the rest of the memory stay. *)
Record served m L va page m' : Prop := {
  sv_new : new_block (v_end (k_vm V)) L (page, 0);
  sv_zero : ∀ b, page ≤ b < page + PGSIZE → bt m' b = 0;
  sv_mapped : mapped (PGROUNDDOWN va) PGSIZE page (Z.lor (Z.lor PTE_W PTE_U) PTE_R) m T m' T;
  sv_rest : ∀ b, outside T b → b < page ∨ page + PGSIZE ≤ b → b < tf ∨ tf + PGSIZE ≤ b → bt m' b = bt m b;
}.

Lemma agree_bt R m m' b : agree_except R m m' → Forall (λ '(a, n), b < a ∨ a + n ≤ b) R → bt m' b = bt m b.
Proof. intros H1 H2. apply (agree_ldn R m m' 1 b H1). eapply Forall_impl; [|exact H2]. intros [a n] ?. change (Z.of_nat 1) with 1. lia. Qed.

(** Stores to the trapframe before and after the page is added. *)
Lemma served_around m m1 L va page v' L' m3 :
  agree_except [(tf, PGSIZE)] m m1 → (∀ va, mapping m1 T va = mapping m T va) → is_page tf → apart_from_tables T [(tf, PGSIZE)] → (tf, 0) ∈ L →
  page_added (p_pagetable pr) (vm_with_mem m1 (k_vm V)) T L va page v' L' → agree_except [(tf, PGSIZE)] (v_mem v') m3 →
  served m L va page m3.
Proof.
  intros A1 M1 Hp Ha Hl Hadd A3. pose proof Hadd as [[Hrep _ _] _ _ Hn Hm Hz Hf].
  destruct (agree_tables _ _ m3 T _ Hrep Ha A3) as [_ M3].
  assert (Hap : ∀ b, page ≤ b < page + PGSIZE → b < tf ∨ tf + PGSIZE ≤ b).
  { intros b Hb. destruct Hn as (_ & _ & _ & Hap). specialize (Hap _ Hl). unfold apart, block_bytes in Hap. cbn in Hap. unfold PGSIZE in *. lia. }
  split; [done| | |].
  - intros b Hb. rewrite (agree_bt _ _ _ b A3); [by apply Hz|]. forall_list. by apply Hap.
  - intros va' Hva'. rewrite M3, Hm by done. cbn. by rewrite M1.
  - intros b Ho Hpg Ht. rewrite (agree_bt _ _ _ b A3) by (forall_list; done). rewrite Hf by done. cbn.
    apply (agree_bt _ _ _ b A1). by forall_list.
Qed.

(** The handler, from the page fault to the return to user space. *)
Lemma page_fault_handled s m m1 f L p0 va (pc0 : Z) (R : Reg.reg → Z) :
  trapping h i pr V s 0 m1 f → f SCAUSE = 13 ∨ f SCAUSE = 15 → f STVAL = va → 0 ≤ va < p_sz pr → p_sz pr ≤ TRAPFRAME → p_killed pr = 0 →
  vm_inv (p_pagetable pr) (vm_with_mem m (k_vm V)) T L → is_page tf → apart_from_tables T [(tf, PGSIZE)] → (tf, 0) ∈ L →
  mapping m T TRAPFRAME = Some (new_pte TRAPFRAME tf (Z.lor PTE_R PTE_W) TRAPFRAME) →
  agree_except [(tf, PGSIZE)] m m1 → T !! key 0 va = Some p0 → mapping m T va = None →
  kalloc (v_hart (k_vm V)) (v_tree (k_vm V)) ≠ Ret (0, v_tree (k_vm V)) →
  ld64 m1 (tf + 24) = pc0 → (∀ r, r ≠ Reg.zero → ld64 m1 (tf + trapframe_offset r) = R r) →
  runs (usertrap_fault h spin i;; usertrap_end h usertrap_fn uservec_offset i 0) s (λ r s', ∃ V' m' f', r = ToUser (MAKE_SATP (p_pagetable pr)) ∧
    trapping h i pr V' s' 0 m' f' ∧ frame [(tf, PGSIZE)] m' (MAKE_SATP (p_pagetable pr)) TRAPFRAME tf PGSIZE ∧ f' SEPC = pc0 ∧
    (∀ r, r ≠ Reg.zero → ld64 m' (tf + trapframe_offset r) = R r) ∧ ∃ page, served m L va page m').
Proof.
  intros Hs Hc Hva Hr Hsz Hk [Hrep HL Hlive] Hpg Hap Hl HT A1 Hp0 Hnone Hmem Hpc HR.
  destruct (agree_tables _ _ m1 T _ Hrep Hap A1) as [Hrep1 M1].
  apply runs_bind. eapply (usertrap_fault_runs i pr V T s m1 f L p0 va); [done|done|done|done| |by split|done|by rewrite M1|done|].
  { change TRAPFRAME with (2 ^ 38 - 8192) in Hsz. change MAXVA with (2 ^ 38). lia. }
  intros s2 page v' L' Hadd Hs2. eapply (usertrap_end_runs h i pr _ Hpg); [exact Hs2|done|done|]. intros s3 c Hs3 _ _.
  eexists _, _, _. split; [done|]. split; [exact Hs3|]. set (m3 := prepared _ _ _ _ _).
  assert (A3 : agree_except [(tf, PGSIZE)] (v_mem v') m3) by apply prepared_agree. pose proof Hadd as [[Hrep' _ _] _ _ _ Hm' _ _].
  assert (Hw : ∀ o, 0 ≤ o ∧ o + 8 ≤ PGSIZE → ld64 (v_mem v') (tf + o) = ld64 m1 (tf + o)) by (intros; by eapply page_added_trapframe).
  split; [|split; [|split]].
  - eapply frame_agree; [|exact A3]. apply (trapframe_frame _ T); [done|done|done|]. rewrite Hm' by done. cbn. rewrite M1, decide_False; [done|].
    unfold PGSIZE. rewrite PGROUNDDOWN_div. change PGSIZE with 4096. pose proof (Z.div_mod va 4096). pose proof (Z.mod_pos_bound va 4096).
    change TRAPFRAME with (67108862 * 4096) in *. lia.
  - unfold user_csrs. rewrite csr_eq, Hw; [done|by vm_compute].
  - intros r Hz. unfold m3. rewrite prepared_word by (destruct r; cbn; try done; lia). rewrite Hw; [by apply HR|].
    unfold PGSIZE. destruct r; cbn; lia.
  - exists page. by eapply served_around.
Qed.

Lemma page_fault_returns x s L p0 va :
  from_user i pr V T x s → x_csrs x SCAUSE = 13 ∨ x_csrs x SCAUSE = 15 → x_csrs x STVAL = va → 0 ≤ va < p_sz pr → p_sz pr ≤ TRAPFRAME →
  vm_inv (p_pagetable pr) (vm_with_mem (x_mem x) (k_vm V)) T L → (tf, 0) ∈ L → T !! key 0 va = Some p0 → mapping (x_mem x) T va = None →
  kalloc (v_hart (k_vm V)) (v_tree (k_vm V)) ≠ Ret (0, v_tree (k_vm V)) →
  ∃ x' page, exec symbol pc (c_call h usertrap_fn usertrap junk s) trampoline x = Ret (Trap_returned (x_csrs x SEPC), x') ∧
    (∀ r, r ≠ Reg.zero → x_regs x' r = x_regs x r) ∧ x_csrs x' SATP = x_csrs x SATP ∧ served (x_mem x) L va page (x_mem x').
Proof.
  intros Hx Hsc Hva Hr Hsz Hinv Hl Hp0 Hnone Hmem. pose proof Hx as []. destruct fu_csrs0 as [f0 Hf0].
  destruct (trap_roundtrip h i pr usertrap_fn usertrap junk symbol pc x s (MAKE_SATP (p_pagetable pr))
    (λ m' f', f' SEPC = x_csrs x SEPC ∧ (∀ r, r ≠ Reg.zero → ld64 m' (tf + trapframe_offset r) = x_regs x r) ∧ ∃ page, served (x_mem x) L va page m'))
    as (x' & m' & f' & E & (Hpc & Hregs & page & Hpage) & R1 & R2 & R3); [by eapply from_user_frame|done|done| |].
  2: { exists x', page. rewrite <-Hpc. split; [done|]. split; [intros r Hz; rewrite R1 by done; by apply Hregs|].
       rewrite R2, R3, fu_satp0. by rewrite csr_eq. }
  intros y Hy. pose proof (enter_trapping h i pr V y s f0 (x_mem x) fu_work0 Hf0) as Hs.
  set (f := <[TP := x_regs y Reg.tp]> (x_csrs y) : csrs) in *.
  assert (Hfc : ∀ c, c ≠ SATP → c ≠ SSCRATCH → c ≠ TP → f c = x_csrs x c) by (intros; by eapply entered_csrs).
  eapply usertrap_runs; [done|exact Hs|rewrite Hfc by done; done|]. intros s1 Hs1. rewrite Hfc by done.
  rewrite (proj2 (Z.eqb_neq _ 8)) by (destruct Hsc as [-> | ->]; done).
  assert (Hf1 : ∀ c, c ≠ STVEC → (<[STVEC := kernelvec]> f : csrs) c = f c) by (intros c Hne; by apply csr_ne).
  apply runs_bind. eapply devintr_not; [exact Hs1|rewrite Hf1, Hfc by done; done|]. cbn [Z.eqb negb].
  apply (page_fault_handled s1 (x_mem x) _ _ L p0 va _ _ Hs1);
    [rewrite Hf1, Hfc by done; done|rewrite Hf1, Hfc by done; done|done|done|done|done|done|done|done|done| |done|done|done| |].
  - eapply agree_trans; [eapply agree_weaken; [apply Hy|unfold PGSIZE; in_ranges]|]. apply agree_store; [apply agree_refl|].
    apply Exists_cons_hd. unfold PGSIZE. cbn. lia.
  - rewrite ld64_st64 by (by rewrite Hfc). by apply Hfc.
  - intros r Hz. rewrite ldn_stn_ne by (destruct r; cbn; try done; lia). by apply Hy.
Qed.
End fault.
End user.
