(* ===== verification/BuddyTheorems.v ===== *)
(** * Buddy allocator: the properties

    The contract of kernel/buddy_kalloc.c and of the page interface of
    kernel/kalloc.c, and the inputs on which the code breaks it. *)

From S2P Require Import Prelude Spinlock Riscv Buddy BuddyIndex BuddyPages Kalloc BuddyBlocks BuddyAlloc BuddyInit BlockAlloc.

(** ** A machine with four free pages *)

(** The allocator before [buddy_init] (zeroed data segment), and a kernel
    that ends four pages before the end of RAM. *)
Definition boot : mem_tree := mk_mem_tree (initlock "boot") ∅.
Definition demo_end : Z := PHYSTOP - 4 * PGSIZE.

Lemma demo_ram : KERNBASE ≤ demo_end ≤ PHYSTOP.
Proof. unfold demo_end, PHYSTOP, PGSIZE. lia. Qed.

Lemma demo_first_page : first_page demo_end = 32764.
Proof. reflexivity. Qed.

(** A page can be allocated on that machine, and freed again. *)
Lemma demo_alloc :
  ∃ s q t', leaf q ∧ reachable 0 demo_end (s, ∅) ∧ buddy_kalloc 0 0 s = Ret (block_addr q, with_tree t' s) ∧
    65532 ≤ Zpos q ∧ blocks_inv t' ({[q]} ∪ reserved (first_page demo_end)).
Proof.
  destruct (buddy_init_blocks 0 demo_end (proj1 demo_ram) boot (proj2 demo_ram)) as (s & Hi & Hb & Hlk).
  assert (Hr : reachable 0 demo_end (s, ∅)) by (eapply reach_init; exact Hi). clear Hi.
  destruct (buddy_kalloc_blocks 0 s _ Hb Hlk 0) as [(q & t' & Hl & Hk & Hb' & Hd)|[_ Hall]]; [lia|..].
  - assert (leaf q) as Hlf by by apply leaf_level. exists s, q, t'. split_and!; [done|done|exact Hk| |exact Hb'].
    destruct (decide (65532 ≤ Zpos q)) as [|Hlt]; [done|exfalso].
    apply (Hd q) with (x := block_addr q); [|by split; apply block_addr_in, node_level; lia].
    apply elem_of_reserved. rewrite demo_first_page. unfold leaf in Hlf. lia.
  - destruct (Hall 65535%positive) as (a & x & Ha & Hxa & Hx); [done|].
    rewrite demo_first_page in Ha. apply elem_of_reserved in Ha. exfalso.
    assert (leaf a) as Hla by (unfold leaf; lia). apply leaf_block in Hxa, Hx; [|done..].
    unfold page_addr, PGSIZE in *. lia.
Qed.

Lemma demo_page :
  ∃ s q, leaf q ∧ reachable 0 demo_end (s, {[node_block q]} ∪ ∅) ∧ 65532 ≤ Zpos q ∧
    blocks_inv (tree s) ({[q]} ∪ reserved (first_page demo_end)).
Proof.
  destruct demo_alloc as (s & q & t' & Hlf & Hr & Hk & Hq & Hb'). exists (with_tree t' s), q.
  split_and!; [done| |done|exact Hb']. eapply reach_step; [exact Hr|]. pose proof (proj1 (leaf_level q) Hlf) as Hl.
  unfold node_block. rewrite Hl. eapply step_alloc; [lia|exact Hk|].
  pose proof (block_addr_bounds q (proj2 (node_level q) ltac:(lia))) as [Hk' _]. unfold KERNBASE in Hk'. lia.
Qed.

Lemma demo_reachable : ∃ s b, reachable 0 demo_end (s, {[b]} ∪ ∅).
Proof. destruct demo_page as (s & q & _ & Hr & _). eauto. Qed.

Lemma demo_freeable :
  ∃ s b, reachable 0 demo_end (s, {[b]} ∪ ∅) ∧ free_safe (tree s) (block_node b) = true.
Proof.
  destruct demo_page as (s & q & Hl & Hr & Hq & Hi). exists s, (node_block q). split; [done|].
  assert (node q) as Hn by (unfold node, leaf in *; lia). rewrite node_block_node by done.
  destruct q as [|b q _] using path_ind; [done|]. apply node_child in Hn.
  eapply free_safe_sibling; [exact Hi|exact Hn| | |];
    rewrite ?elem_of_union, ?elem_of_singleton, ?elem_of_reserved, ?demo_first_page; clear -Hl Hq Hn.
  - unfold inner in Hn. intros [E'|?]; [|lia]. destruct b; cbn [child] in E'; lia.
  - unfold leaf in *; destruct b; cbn [child negb] in *; lia.
  - intros [E'|?]; destruct b; cbn [child negb] in *; lia.
Qed.

(** ** The page interface *)

(** C3. [kinit] followed by any sequence of [kalloc] and [kfree] calls on
    addresses of the managed range returns, never panics, and behaves as the
    abstract allocator started with exactly the pages between the end of the
    kernel and the end of RAM: [kalloc] hands out a free page or, only when
    none is left, 0; [kfree] makes the page of its argument free. *)
Theorem kalloc_refines_page_set me kend s0 ops :
  KERNBASE ≤ kend ≤ PHYSTOP → Forall (op_ok kend) ops →
  ∃ s rs s', kinit me kend s0 = Ret s ∧ run_ops me kend ops s = Ret (rs, s') ∧
    page_spec_run (pages_of (first_page kend) 32768) ops rs (free_set (tree s')).
Proof.
  intros Hk Hops. destruct (kinit_spec me kend (proj1 Hk) s0 (proj2 Hk)) as (s & Hi & Hinv & Hf).
  destruct (run_ops_refines me kend (proj1 Hk) ops s Hinv Hops) as (rs & s' & Hr & _ & Hrun).
  exists s, rs, s'. rewrite <-Hf. auto.
Qed.

Lemma kalloc_refines_page_set_witness :
  let ops := [OpAlloc; OpAlloc; OpFree (demo_end + 5); OpAlloc] in
  ∃ s rs s', kinit 0 demo_end boot = Ret s ∧ run_ops 0 demo_end ops s = Ret (rs, s') ∧
    page_spec_run (pages_of (first_page demo_end) 32768) ops rs (free_set (tree s')).
Proof.
  apply (kalloc_refines_page_set 0 demo_end boot); [exact demo_ram|].
  repeat constructor; unfold demo_end, PHYSTOP, PGSIZE; lia.
Defined.

(** ** Blocks of every order *)

(** C7. In every state that clients reach from [buddy_init] by allocating
    blocks of any order and freeing live blocks, as long as no free on the
    way runs into the premature merge of [update_upstairs_free] (every free
    satisfies [free_safe]), the live blocks lie between the end of the kernel
    and the end of RAM and do not overlap.  After a premature merge they may
    overlap ([premature_merge_overlap]). *)
Theorem live_blocks_disjoint me kend s live :
  KERNBASE ≤ kend ≤ PHYSTOP → reachable me kend (s, live) →
  (∀ b, b ∈ live → ∀ x, in_live b x → kend ≤ x < PHYSTOP) ∧
  (∀ b b' x, b ∈ live → b' ∈ live → in_live b x → in_live b' x → b = b').
Proof.
  intros Hk [A Hi]%reachable_inv; [|done]. cbn [fst snd] in Hi. split.
  - intros b Hb x Hx. destruct (live_node _ _ _ _ _ Hi Hb) as (q & HqA & Hn & Hr & ->).
    pose proof (live_above _ Hk _ _ _ _ Hi HqA Hr). apply in_node_block in Hx; [|done].
    pose proof (block_addr_bounds q Hn). unfold in_block in Hx. lia.
  - intros b b' x Hb Hb' Hx Hx'. destruct (live_node _ _ _ _ _ Hi Hb) as (q & HqA & Hn & _ & ->).
    destruct (live_node _ _ _ _ _ Hi Hb') as (q' & HqA' & Hn' & _ & ->).
    apply in_node_block in Hx, Hx'; [|done..]. destruct (decide (q = q')) as [->|Hne]; [done|].
    by destruct (alloc_disjoint _ _ q q' (li_blocks _ _ _ _ Hi) HqA HqA' Hne x).
Qed.

Lemma live_blocks_disjoint_witness :
  ∃ live : gset (Z * Z), live ≠ ∅ ∧
  (∀ b, b ∈ live → ∀ x, in_live b x → demo_end ≤ x < PHYSTOP) ∧
  (∀ b b' x, b ∈ live → b' ∈ live → in_live b x → in_live b' x → b = b').
Proof.
  destruct demo_reachable as (s & b & Hr). exists ({[b]} ∪ ∅). split; [set_solver|].
  apply (live_blocks_disjoint 0 demo_end s); [exact demo_ram|exact Hr].
Defined.

(** C26. In every state reached from [buddy_init] by allocations and by frees
    that do not run into the premature merge ([free_safe]): a call of
    [buddy_kalloc] with an order of at most 15 returns (the search
    terminates, the lock is free, nothing panics), and a larger order
    panics.  For orders below 15 the call returns 0 only if every aligned
    block of that order overlaps a page of the kernel or a live block, and
    then changes nothing; for order 15 it always returns 0. *)
Theorem buddy_kalloc_complete me kend s live order :
  KERNBASE ≤ kend ≤ PHYSTOP → reachable me kend (s, live) → 0 ≤ order →
  if order <? 15 then
    ∃ a s', buddy_kalloc me order s = Ret (a, s') ∧
      (a = 0 → s' = s ∧ ∀ i, 0 ≤ i < 2 ^ (15 - order) →
        ∃ x, in_live (KERNBASE + i * (PGSIZE * 2 ^ order), order) x ∧
          (x < PGROUNDUP kend ∨ ∃ b, b ∈ live ∧ in_live b x))
  else buddy_kalloc me order s = if order =? 15 then Ret (0, s) else Panic "Order too big".
Proof.
  intros Hk [A Hi]%reachable_inv Ho; [|done]. cbn [fst snd] in Hi. destruct (Z.ltb_spec order 15).
  2: { destruct (Z.eqb_spec order 15) as [->|]; [eapply buddy_kalloc_max; apply Hi|apply buddy_alloc_big; lia]. }
  destruct (buddy_kalloc_blocks me s A (li_blocks _ _ _ _ Hi) (li_lock _ _ _ _ Hi) order ltac:(lia))
    as [(q & t' & Hl & -> & _)|[-> Hall]].
  - eexists _, _. split; [done|]. intros E. exfalso.
    assert (node q) as Hn by (apply node_level; lia).
    pose proof (block_addr_bounds q Hn) as [Hb _]. unfold KERNBASE in Hb. lia.
  - eexists _, _. split; [done|]. intros _. split; [done|]. intros i Hi'.
    destruct (index_node order i) as (q & Hl & Hn & <-); [lia|done|].
    destruct (Hall q Hl) as (a & x & Ha & Hxa & Hxq). exists x. split; [by apply in_node_block|].
    by eapply alloc_or_reserved.
Qed.

Lemma buddy_kalloc_complete_witness :
  ∃ s (live : gset (Z * Z)), live ≠ ∅ ∧ ∃ a s', buddy_kalloc 0 3 s = Ret (a, s') ∧
    (a = 0 → s' = s ∧ ∀ i, 0 ≤ i < 2 ^ (15 - 3) →
      ∃ x, in_live (KERNBASE + i * (PGSIZE * 2 ^ 3), 3) x ∧
        (x < PGROUNDUP demo_end ∨ ∃ b, b ∈ live ∧ in_live b x)).
Proof.
  destruct demo_reachable as (s & b & Hr). exists s, ({[b]} ∪ ∅). split; [set_solver|].
  apply (buddy_kalloc_complete 0 demo_end s ({[b]} ∪ ∅) 3); [exact demo_ram|exact Hr|lia].
Defined.

(** C27. In every state reached from [buddy_init] by allocations and by frees
    that do not run into the premature merge ([free_safe]): freeing a live
    block with its order, a free that does not run into it either, succeeds
    (returns 1), and the freed block is available again: a following
    allocation of that order does not return 0. *)
Theorem buddy_kfree_live me kend s live b :
  KERNBASE ≤ kend ≤ PHYSTOP → reachable me kend (s, live) → b ∈ live →
  free_safe (tree s) (block_node b) = true →
  ∃ s' a s'', buddy_kfree me kend b.1 b.2 s = Ret (1, s') ∧
    buddy_kalloc me b.2 s' = Ret (a, s'') ∧ a ≠ 0.
Proof.
  intros Hk [A Hi]%reachable_inv Hb Hs; [|done]. cbn [fst snd] in Hi.
  destruct (live_free me kend Hk s live A b Hi Hb Hs) as (q & s' & HqA & -> & Hf & Hi').
  destruct (live_realloc me kend s live A q s' _ Hi HqA Hi') as (a & s'' & Ha & Hne).
  exists s', a, s''. auto.
Qed.

Lemma buddy_kfree_live_witness :
  ∃ s b s' a s'', buddy_kfree 0 demo_end b.1 b.2 s = Ret (1, s') ∧
    buddy_kalloc 0 b.2 s' = Ret (a, s'') ∧ a ≠ 0.
Proof.
  destruct demo_freeable as (s & b & Hr & Hs). exists s, b.
  apply (buddy_kfree_live 0 demo_end s ({[b]} ∪ ∅) b); [exact demo_ram|exact Hr|set_solver|exact Hs].
Defined.

(** [buddy_kalloc] of order 15 (the whole memory) never succeeds: the
    search reports level 0 both for the root and for failure. *)
Theorem buddy_kalloc_whole_memory me kend s live :
  KERNBASE ≤ kend ≤ PHYSTOP → reachable me kend (s, live) → buddy_kalloc me 15 s = Ret (0, s).
Proof.
  intros Hk [A Hi]%reachable_inv; [|done]. eapply buddy_kalloc_max; apply Hi.
Qed.

Lemma buddy_kalloc_whole_memory_witness : ∃ s, buddy_kalloc 0 15 s = Ret (0, s).
Proof.
  destruct demo_reachable as (s & b & Hr). exists s.
  apply (buddy_kalloc_whole_memory 0 demo_end s ({[b]} ∪ ∅)); [exact demo_ram|exact Hr].
Defined.

(** ** Where the code breaks the contract *)

(** The allocator with every page of RAM free. *)
Definition all_free : mem_tree := mk_mem_tree (initlock "buddy_lock") ∅.

Lemma st_empty q : st ∅ q = SLOT_EMPTY.
Proof. unfold st, node_state. rewrite byte_at_empty. by rewrite Z.shiftr_0_l. Qed.

(** Allocate one block of each of the given orders. *)
Fixpoint take_orders (orders : list Z) (s : mem_tree) : res mem_tree :=
  match orders with
  | [] => Ret s
  | o :: orders => '(_, s) ← buddy_kalloc 0 o s; take_orders orders s
  end.

(** All but four pages are taken as large blocks.  Then three pages are
    taken, the second and the first are given back, and four contiguous
    pages are asked for.  The third page is still in use. *)
Definition merge_trace (s : mem_tree) : res (Z * Z * Z * Z) :=
  s ← take_orders [14; 13; 12; 11; 10; 9; 8; 7; 6; 5; 4; 3; 2] s;
  '(a, s) ← kalloc 0 s;
  '(b, s) ← kalloc 0 s;
  '(c, s) ← kalloc 0 s;
  s ← kfree 0 KERNBASE b s;
  s ← kfree 0 KERNBASE a s;
  '(d, s) ← buddy_kalloc 0 2 s;
  Ret (a, b, c, d).

(** The premature merge.  [update_upstairs_free] marks a split node
    empty as soon as the sibling of the node it comes from is empty, even
    when that node has only just become split itself.  From the allocator
    with all pages free, after the calls of [merge_trace], the four-page
    block handed out last contains the third page, which is still in use. *)
Theorem premature_merge_overlap :
  blocks_inv (tree all_free) ∅ ∧
  ∃ a b c d, merge_trace all_free = Ret (a, b, c, d) ∧ a ≠ b ∧ a ≠ c ∧ b ≠ c ∧
    in_live (c, 0) c ∧ in_live (d, 2) c.
Proof.
  split.
  - split.
    + intros q _. unfold good, block_ok. rewrite decide_False by set_solver. rewrite !st_empty.
      unfold slot, SLOT_EMPTY, SLOT_FULL. lia.
    + intros q _. unfold block_leaf_ok. rewrite decide_False by set_solver. apply st_empty.
    + set_solver.
  - eexists _, _, _, _. split; [by vm_compute|]. unfold in_live, PGSIZE. cbn [fst snd]. lia.
Qed.

(** [buddy_kfree] accepts the address PHYSTOP, which no block has (the
    range check is [addr > PHYSTOP]): for a page it then reads the tree one
    byte behind its end. *)
Theorem buddy_kfree_phystop me kend s :
  kend ≤ PHYSTOP → unlocked (buddy_lock s) → buddy_kfree me kend PHYSTOP 0 s = Fault.
Proof.
  intros Hk Hlk. unfold buddy_kfree. rewrite acquire_unlocked by done.
  rewrite (proj2 (Z.ltb_ge PHYSTOP kend)) by lia. reflexivity.
Qed.

Lemma buddy_kfree_phystop_witness : buddy_kfree 0 demo_end PHYSTOP 0 all_free = Fault.
Proof. apply (buddy_kfree_phystop 0 demo_end all_free); [exact (proj2 demo_ram)|done]. Defined.

(** ** The bit-level helpers *)

(** [my_clz] counts the leading zeros of a 64-bit word, and hence
    [get_level] is the depth of a node in the tree. *)
Theorem my_clz_leading_zeros x :
  0 < x < 2 ^ 64 →
  Z.testbit x (63 - my_clz x) = true ∧ (∀ i, 63 - my_clz x < i → Z.testbit x i = false) ∧
  (x < 2 ^ 63 → get_level x = 63 - my_clz x).
Proof.
  intros Hx. rewrite my_clz_log2 by done. replace (63 - (63 - Z.log2 x)) with (Z.log2 x) by lia.
  split_and!; [apply Z.bit_log2; lia|intros i Hi; apply Z.bits_above_log2; lia|].
  intros. apply get_level_log2. lia.
Qed.

Lemma my_clz_leading_zeros_witness :
  Z.testbit 1000 (63 - my_clz 1000) = true ∧ (∀ i, 63 - my_clz 1000 < i → Z.testbit 1000 i = false) ∧
  (1000 < 2 ^ 63 → get_level 1000 = 63 - my_clz 1000).
Proof. apply (my_clz_leading_zeros 1000). lia. Defined.

(** Four node states share a byte of the tree: for every node of the
    tree, [set_state] followed by [get_state] returns the state written,
    and no other node changes. *)
Theorem set_get_state t v s :
  0 ≤ v < 65536 → 0 ≤ s < 4 →
  ∃ t', set_state t v s = Ret t' ∧ get_state t' v = Ret s ∧
    ∀ w, 0 ≤ w < 65536 → w ≠ v → get_state t' w = get_state t w.
Proof.
  intros Hv Hs. rewrite set_state_node by done. eexists. split; [done|].
  rewrite get_state_node, upd_state_eq by done. split; [done|]. intros w Hw Hne.
  rewrite !get_state_node by done. by rewrite upd_state_ne.
Qed.

Lemma set_get_state_witness :
  ∃ t', set_state ∅ 65535 SLOT_SPLIT = Ret t' ∧ get_state t' 65535 = Ret SLOT_SPLIT ∧
    ∀ w, 0 ≤ w < 65536 → w ≠ 65535 → get_state t' w = get_state ∅ w.
Proof. apply (set_get_state ∅ 65535 SLOT_SPLIT); [lia|done]. Defined.

(** Addresses and nodes: the address of a node lies in RAM and is
    aligned to the size of the node's block, and every address inside that
    block is mapped back to the node by [get_vindex] at the node's level. *)
Theorem get_adr_get_vindex v :
  0 < v < 65536 →
  let size := PGSIZE * 2 ^ (BUDDY_TREE_LEVEL - get_level v) in
  ∃ a, get_adr v = Ret a ∧ KERNBASE ≤ a ∧ a + size ≤ PHYSTOP ∧ (a - KERNBASE) mod size = 0 ∧
    ∀ x, a ≤ x < a + size → get_vindex x (get_level v) = v.
Proof.
  intros Hv size. destruct v as [|q|]; [lia| |lia]. assert (Hn : node q) by (unfold node; lia).
  assert (Hl : get_level (Zpos q) = plevel q) by (rewrite get_level_log2 by lia; done).
  pose proof (proj1 (node_level q) Hn). pose proof (plevel_nonneg q).
  assert (Hsz : size = block_size q).
  { unfold size, block_size, PGSIZE, BUDDY_TREE_LEVEL. rewrite Hl. change 4096 with (2 ^ 12).
    rewrite <-Z.pow_add_r by lia. f_equal. lia. }
  pose proof (block_addr_bounds q Hn) as (? & ? & ?). rewrite Hl, Hsz in *.
  exists (block_addr q). split_and!; [by apply get_adr_block|done|done| |].
  - unfold block_addr. rewrite Z.add_simpl_l. apply Z.mod_mul. unfold PGSIZE in *. lia.
  - intros x Hx. by apply in_block_get_vindex.
Qed.

Lemma get_adr_get_vindex_witness :
  ∃ a, get_adr 40000 = Ret a ∧ KERNBASE ≤ a ∧
    a + PGSIZE * 2 ^ (BUDDY_TREE_LEVEL - get_level 40000) ≤ PHYSTOP ∧
    (a - KERNBASE) mod (PGSIZE * 2 ^ (BUDDY_TREE_LEVEL - get_level 40000)) = 0 ∧
    ∀ x, a ≤ x < a + PGSIZE * 2 ^ (BUDDY_TREE_LEVEL - get_level 40000) →
      get_vindex x (get_level 40000) = 40000.
Proof. apply (get_adr_get_vindex 40000). lia. Defined.
