(* ===== verification/SlabTheorems.v ===== *)
(** * Slab allocator: the properties

    The contract of kernel/slab_allocator.c towards its clients, and the
    inputs on which the code breaks it. *)

From S2P Require Import Prelude Spinlock Riscv Mem Buddy BuddyIndex BuddyBlocks BuddyInit BlockAlloc MemLock Slab Cache SlabRep SlabList CacheRep CacheAlloc CacheFree BuddyTheorems.

(** ** A machine with one cache of 64-byte objects *)

#[local] Instance demo_blocks : BlockAllocator mem_tree := buddy_allocator 0 demo_end.

(** The structure lies behind the start of the kernel. *)
Definition demo_cache : Z := KERNBASE + 4096.
Definition demo_mem : gmap Z Z := st64 ∅ (demo_cache + 24) 64.
Definition demo_state (b : mem_tree) : kstate mem_tree := mk_kstate demo_mem b demo_cache [] [].

(** The constructor that does nothing, and string literals. *)
Definition no_ctor : Z → Z → M (kstate mem_tree) unit := λ _ _, mret tt.
Definition demo_lit : string → Z := λ s, KERNBASE + Z.of_nat (String.length s).

Lemma demo_sizes : cache_sizes 64 63 0.
Proof. split; unfold block_bytes, PGSIZE; [reflexivity|lia..]. Qed.

Lemma no_ctor_ok : ctor_ok 64 no_ctor.
Proof.
  intros f x s. apply runs_ret. exists (mem_of s). rewrite with_mem_same. split; [done|apply agree_refl].
Qed.

Lemma demo_inv :
  ∃ b, cache_inv 64 63 0 demo_cache [] [] [] (demo_state b) ∅ ∧ block_alloc 0 b ≠ Ret (0, b).
Proof.
  destruct demo_alloc as (b & q & t' & Hq & Hr & Hk & _).
  apply reachable_inv in Hr as [A Hb]; [|exact demo_ram]. cbn [fst snd] in Hb. exists b.
  assert (Hne : block_alloc 0 b ≠ Ret (0, b)).
  { change (block_alloc 0 b) with (buddy_kalloc 0 0 b). rewrite Hk. intros [= E _].
    pose proof (block_addr_bounds q (proj2 (node_level q) ltac:(apply leaf_level in Hq; lia))) as [Hk' _].
    unfold KERNBASE in Hk'. lia. }
  split; [|exact Hne]. clear Hne Hk Hq.
  assert (Hw : ∀ k, 0 ≤ k → k + 8 ≤ 24 ∨ 32 ≤ k → ldn 8 demo_mem (demo_cache + k) = ldn 8 ∅ (demo_cache + k)).
  { intros k ? ?. unfold demo_mem. apply ldn_stn_ne. lia. }
  split; [split|..]; cbn [app fmap list_fmap chain demo_state mem_of kstate_mem k_mem].
  - split; [intros a F Ha; by apply elem_of_nil in Ha..|constructor|intros a b' Ha; by apply elem_of_nil in Ha|
      intros a Ha; by apply elem_of_nil in Ha].
  - unfold demo_cache, PHYSTOP, KERNBASE. lia.
  - unfold demo_mem. by rewrite ld64_st64 by lia.
  - by rewrite Hw by lia.
  - by rewrite Hw by lia.
  - by rewrite Hw by lia.
  - intros t Ht. by apply elem_of_nil in Ht.
  - intros t Ht. by apply elem_of_nil in Ht.
  - intros t Ht. by apply elem_of_nil in Ht.
  - unfold demo_mem. by rewrite ldn_stn_ne by lia.
  - split.
    + split; [exact demo_ram|by exists A].
    + intros a Ha. by apply elem_of_nil in Ha.
    + left. cbn. unfold demo_end, demo_cache, PHYSTOP, KERNBASE, PGSIZE. lia.
Qed.

(** ** Clients of a cache *)







(** A cache with a live object. *)
Lemma demo_live :
  ∃ s fl pl el L x, cache_inv 64 63 0 demo_cache fl pl el s L ∧ live_obj 64 63 (fl ++ pl ++ el) x.
Proof.
  destruct demo_inv as (b & Hi & Hne).
  destruct (cache_alloc_spec 64 63 0 demo_cache 0 demo_sizes no_ctor ltac:(lia) _ _ _ _ _ no_ctor_ok Hi)
    as [(x & s & _ & (fl & pl & el & L & Hi' & _ & Hg) & _)|(_ & _ & E)]; [|by destruct Hne].
  exists s, fl, pl, el, L, x. split; [done|]. apply Hg. by left.
Qed.

(** Its owner has cleared it. *)
Lemma demo_cleared :
  ∃ s fl pl el L x, cache_inv 64 63 0 demo_cache fl pl el s L ∧ live_obj 64 63 (fl ++ pl ++ el) x ∧
    ldn 4 (mem_of s) (x + 8) ≠ FREE_MAGIC_NUM.
Proof.
  destruct demo_live as (s & fl & pl & el & L & x & [Hc Hlk Hcb] & Hx).
  exists (with_mem (st32 (mem_of s) (x + 8) 0) s), fl, pl, el, L, x. rewrite mem_of_with_mem.
  pose proof (live_avoids 64 63 _ demo_cache (ssz_page _ _ _ demo_sizes) _ _ _ _ x (demo_cache, 112) Hc Hx (or_introl eq_refl)) as Hd.
  split_and!; [|done|by rewrite ld32_st32 by lia]. split; rewrite ?mem_of_with_mem; [| |by apply blocks_mem].
  - eapply live_frame; [exact (ssz_page _ _ _ demo_sizes)|exact Hc|exact Hx|agree].
  - rewrite ldn_stn_ne; [done|]. unfold dis in Hd. cbn in Hd. lia.
Qed.



(** A double free is detected: freeing the same live object twice
    frees it once; the second call only sets the error message of the
    cache. *)
Theorem cache_double_free {B} `{!BlockAllocator B} sz n o c mycpu lit (s : kstate B) fl pl el L x :
  cache_sizes sz n o → 0 ≤ mycpu < 2 ^ 64 → 0 ≤ lit "Double free!!!" < 2 ^ 64 →
  cache_inv sz n o c fl pl el s L → live_obj sz n (fl ++ pl ++ el) x →
  ldn 4 (mem_of s) (x + 8) ≠ FREE_MAGIC_NUM →
  runs (cache_free mycpu lit c x;; cache_free mycpu lit c x) s (λ _ s',
    ldn 8 (mem_of s') (cache_error_msg c) = lit "Double free!!!" ∧
    ∃ fl' pl' el', cache_inv sz n o c fl' pl' el' s' L ∧
      ∀ y, live_obj sz n (fl' ++ pl' ++ el') y ↔ live_obj sz n (fl ++ pl ++ el) y ∧ y ≠ x).
Proof.
  intros Hcs Hcpu Hlit Hi Hx Hm. apply runs_bind.
  eapply runs_mono; [by apply (cache_free_spec sz n o c mycpu lit Hcs Hcpu s fl pl el L x)|].
  intros _ s1 ((fl' & pl' & el' & Hi1 & Hl) & _ & Hmag & _). pose proof Hi as [Hc _ _].
  destruct (live_ram sz n o c _ _ _ _ _ Hc Hx) as [? ?]. pose proof (cs_sz _ _ _ Hcs).
  pose proof (live_avoids sz n _ c (ssz_page _ _ _ Hcs) _ _ _ _ x (c, 112) Hc Hx (or_introl eq_refl)) as Hd.
  eapply runs_mono; [eapply (cache_free_double sz n o c mycpu lit Hcs Hcpu s1 fl' pl' el' L x Hi1)|].
  - done.
  - lia.
  - unfold dis in *. cbn in *. lia.
  - done.
  - done.
  - intros _ s2 (Hi2 & He & _). split; [exact He|]. by exists fl', pl', el'.
Qed.

Lemma cache_double_free_witness :
  ∃ s fl pl el L x, runs (cache_free 0 demo_lit demo_cache x;; cache_free 0 demo_lit demo_cache x) s (λ _ s',
    ldn 8 (mem_of s') (cache_error_msg demo_cache) = demo_lit "Double free!!!" ∧
    ∃ fl' pl' el', cache_inv 64 63 0 demo_cache fl' pl' el' s' L ∧
      ∀ y, live_obj 64 63 (fl' ++ pl' ++ el') y ↔ live_obj 64 63 (fl ++ pl ++ el) y ∧ y ≠ x).
Proof.
  destruct demo_cleared as (s & fl & pl & el & L & x & Hi & Hx & Hm). exists s, fl, pl, el, L, x.
  apply (cache_double_free 64 63 0 demo_cache 0 demo_lit s fl pl el L x);
    [exact demo_sizes|lia|done|exact Hi|exact Hx|exact Hm].
Defined.

(** ** Sizes *)

(** C38. [get_order_from_size] returns the least order whose block holds the
    slab header and the wanted number of objects, together with the size of
    that block; on sizes within 32 bytes of the end of the address space
    its loop does not terminate. *)
Theorem get_order_least obj_size :
  (0 ≤ obj_size ≤ 2 ^ 63 - 32 →
    ∃ o, get_order_from_size obj_size = Ret (o, block_bytes o) ∧ 0 ≤ o ∧
      target_objs obj_size * obj_size ≤ block_bytes o - sizeof_slab ∧
      ∀ j, 0 ≤ j < o → block_bytes j - sizeof_slab < target_objs obj_size * obj_size) ∧
  (2 ^ 64 - 32 < obj_size < 2 ^ 64 → ∀ fuel,
    order_loop fuel (u64 (target_objs obj_size * obj_size)) BLOCK_SIZE 0 = OutOfFuel).
Proof.
  split.
  - intros Hs. destruct (get_order_spec obj_size Hs) as (o & ? & ? & ? & ?). exists o. split_and!; [done|lia|done..].
  - intros Hs fuel. assert (target_objs obj_size = 1) as -> by (unfold target_objs; zcase; lia).
    rewrite u64_small by lia. apply (order_loop_diverges _ _ 0); lia.
Qed.

Lemma get_order_least_witness :
  ∃ o, get_order_from_size 64 = Ret (o, block_bytes o) ∧ 0 ≤ o ∧
    target_objs 64 * 64 ≤ block_bytes o - sizeof_slab ∧
    ∀ j, 0 ≤ j < o → block_bytes j - sizeof_slab < target_objs 64 * 64.
Proof. apply (proj1 (get_order_least 64)). lia. Defined.

(** [size_to_index] returns a valid index of the buffer caches, the one
    of the smallest buffers that are large enough. *)
Theorem size_to_index_least size :
  0 ≤ size ≤ MAX_SMALL_MEM_BUFF →
  0 ≤ size_to_index size < SMALL_MEM_BUFF_CNT ∧ size ≤ nth (Z.to_nat (size_to_index size)) sizes 0 ∧
  ∀ j, 0 ≤ j < size_to_index size → nth (Z.to_nat j) sizes 0 < size.
Proof. apply size_to_index_spec. Qed.

Lemma size_to_index_least_witness :
  0 ≤ size_to_index 1000 < SMALL_MEM_BUFF_CNT ∧ 1000 ≤ nth (Z.to_nat (size_to_index 1000)) sizes 0 ∧
  ∀ j, 0 ≤ j < size_to_index 1000 → nth (Z.to_nat j) sizes 0 < 1000.
Proof. apply (size_to_index_least 1000). unfold MAX_SMALL_MEM_BUFF. lia. Defined.

(** ** Where the code breaks the contract *)

(** A live object whose owner has written the magic number at offset 8
    cannot be freed: the call reports a double free and the object stays
    live. *)
Theorem cache_free_false_alarm {B} `{!BlockAllocator B} sz n o c mycpu lit (s : kstate B) fl pl el L x :
  cache_sizes sz n o → 0 ≤ mycpu < 2 ^ 64 → 0 ≤ lit "Double free!!!" < 2 ^ 64 →
  cache_inv sz n o c fl pl el s L → live_obj sz n (fl ++ pl ++ el) x →
  runs (store32 (x + 8) FREE_MAGIC_NUM;; cache_free mycpu lit c x) s (λ _ s',
    ldn 8 (mem_of s') (cache_error_msg c) = lit "Double free!!!" ∧ cache_inv sz n o c fl pl el s' L).
Proof.
  intros Hcs Hcpu Hlit [Hc Hlk Hcb] Hx. destruct (live_ram sz n o c _ _ _ _ _ Hc Hx) as [? ?].
  pose proof (cs_sz _ _ _ Hcs).
  pose proof (live_avoids sz n _ c (ssz_page _ _ _ Hcs) _ _ _ _ x (c, 112) Hc Hx (or_introl eq_refl)) as Hd.
  run. set (m := st32 (mem_of s) (x + 8) FREE_MAGIC_NUM).
  assert (Hag : agree_except [(x, sz)] (mem_of s) m) by (unfold m; agree).
  eapply runs_mono; [eapply (cache_free_double sz n o c mycpu lit Hcs Hcpu (with_mem m s) fl pl el L x)|].
  - split; rewrite ?mem_of_with_mem; [| |by apply blocks_mem].
    + eapply live_frame; [exact (ssz_page _ _ _ Hcs)|exact Hc|exact Hx|exact Hag].
    + rewrite (agree_word _ _ _ 4 (c + 32) Hag); [done|]. avoid.
  - done.
  - lia.
  - unfold dis in *. cbn in *. lia.
  - rewrite mem_of_with_mem. unfold m, FREE_MAGIC_NUM. by ld_st.
  - done.
  - intros _ s2 (Hi2 & He & _). done.
Qed.

Lemma cache_free_false_alarm_witness :
  ∃ s fl pl el L x, runs (store32 (x + 8) FREE_MAGIC_NUM;; cache_free 0 demo_lit demo_cache x) s (λ _ s',
    ldn 8 (mem_of s') (cache_error_msg demo_cache) = demo_lit "Double free!!!" ∧
    cache_inv 64 63 0 demo_cache fl pl el s' L).
Proof.
  destruct demo_live as (s & fl & pl & el & L & x & Hi & Hx). exists s, fl, pl, el, L, x.
  apply (cache_free_false_alarm 64 63 0 demo_cache 0 demo_lit s fl pl el L x);
    [exact demo_sizes|lia|done|exact Hi|exact Hx].
Defined.

(** A machine with all of RAM free; the static structures lie where the
    runs below allocate nothing. *)
Definition free_blocks : BlockAllocator mem_tree := buddy_allocator 0 KERNBASE.
Definition demo_origin : Z := KERNBASE + 2 ^ 26.
Definition demo_raw_lock : Z := demo_origin + 4096.
Definition booted : kstate mem_tree := mk_kstate ∅ all_free 0 [] [].

#[local] Abbreviation demo_kalloc size :=
  (@cache_kalloc _ free_blocks demo_origin demo_raw_lock 0 demo_lit no_ctor size).

(** Slabs with a single object: after [cache_init] the second
    [cache_kalloc] of 65536 bytes panics.  [cache_alloc] puts a new slab
    into the partial list even when its only object has been taken, and
    the next allocation takes from it. *)
Theorem cache_kalloc_one_object :
  (cache_init demo_origin demo_raw_lock 0 demo_lit;;
   a ← demo_kalloc 65536;
   b ← demo_kalloc 65536;
   mret (a, b)) booted = Panic "Invalid slab provided".
Proof. vm_compute. reflexivity. Qed.

(** [id_to_cache] with an identifier that no cache has: after
    [cache_init] the search runs into the null pointers of
    [small_mem_caches] and reads through the first of them, instead of
    returning 0. *)
Theorem id_to_cache_null id :
  id ≠ 0 → (cache_init demo_origin demo_raw_lock 0 demo_lit;; id_to_cache id) booted = Fault.
Proof. intros Hid. destruct id; [done|by vm_compute..]. Qed.

Lemma id_to_cache_null_witness :
  (cache_init demo_origin demo_raw_lock 0 demo_lit;; id_to_cache 1) booted = Fault.
Proof. by apply (id_to_cache_null 1). Defined.
