(* ===== verification/LogTheorems.v ===== *)
(** * The log: main theorems

    Crash safety of file system transactions, restartable recovery, and the
    limit of three concurrent operations. *)

From S2P Require Import Prelude Spinlock Mem Buddy Vm FsState Bio Log BioSpec LogSpec LogCrash LogTxn.

(** A machine with the geometry that mkfs gives to an image: the log starts
    at block 2. *)
Definition demo_sb : superblock := mk_superblock FSMAGIC 2000 1954 200 31 2 33 46.

Definition demo_vm : vmstate := mk_vmstate 0%nat 0 0 0 ∅ (mk_mem_tree (initlock "buddy_lock") ∅) 0 0 0 0.

Definition demo_kfs : kfs :=
  mk_kfs 0%nat 1 None [] [] ∅ [] (mk_bcache (initlock "bcache") [] [])
    (mk_log (initlock "log") 0 0 0 0 (mk_logheader 0 [])) demo_sb
    (mk_itable (initlock "itable") []) (mk_ftable (initlock "ftable") []) ∅ demo_vm [].

(** Booted from a disk [d] with an empty log. *)
Lemma demo_idle d :
  header [] (disk_at d 2) → ∃ s, idle 1 1 2 s ∧ same_sys (reboot d demo_kfs) s ∧
    ∀ x, home 2 x → disk_at (k_disk s) x = disk_at d x.
Proof.
  intros Hd. destruct (boot_writes 1 1 2 ltac:(lia) ltac:(lia) [] demo_kfs d) as (u & s & _ & Hid & Hs & hb0 & _ & E & _);
    [done|done|apply loggable_nil|done|].
  exists s. ands; [done|done|]. intros x Hx. rewrite E. cbn. unfold disk_at. rewrite lookup_insert_ne; [done|].
  unfold home, LOGBLOCKS, MAXOPBLOCKS in Hx. lia.
Qed.

Lemma demo_empty_log : header [] (disk_at ∅ 2).
Proof. split; [done|]. intros i b Hb. by rewrite lookup_nil in Hb. Qed.

(** C1. Any sequence of transactions (each a [begin_op], up to MAXOPBLOCKS
    logged block updates and an [end_op]) completes without panic and applies
    all updates; and if the machine stops after any number [k] of the disk
    writes it makes, the boot code (buffer cache and log initialisation)
    brings the disk to the state after the first [j] transactions for some
    [j]: no transaction is ever half done. *)
Theorem log_crash_safe dev pid st s uss :
  0 < dev < 2 ^ 31 → 0 ≤ st < 2 ^ 30 → idle dev pid st s → Forall (small_txn st) uss →
  runs (transactions dev uss) s (λ _ s', idle dev pid st s' ∧
    (∀ x, home st x → disk_at (k_disk s') x = all_updates (disk_at (k_disk s)) uss x) ∧
    ∃ W, k_writes s' = k_writes s ++ W ∧ ∀ k,
      runs (binit;; initlog dev) (reboot (put_all (take k W) (k_disk s)) s) (λ _ s2, idle dev pid st s2 ∧
        ∃ j, (j ≤ length uss)%nat ∧
          ∀ x, home st x → disk_at (k_disk s2) x = all_updates (disk_at (k_disk s)) (take j uss) x)).
Proof.
  intros Hdev Hst Hid Hus. eapply runs_mono; [by apply (transactions_spec dev pid st Hdev Hst uss s)|].
  intros _ s' (Hid' & _ & Hh & W & Hw & _ & Hr). ands; [done|done|]. exists W. split; [done|exact Hr].
Qed.

(** Two transactions that write to three blocks. *)
Definition demo_txns : list (list (Z * (blk → blk))) :=
  [[(100, λ b, stn 1 b 0 7); (101, λ b, stn 1 b 5 8)]; [(100, λ b, stn 1 b 0 9); (102, λ b, b)]].

Lemma demo_small : Forall (small_txn 2) demo_txns.
Proof.
  unfold demo_txns. repeat (apply List.Forall_cons; [split; [|cbn; unfold MAXOPBLOCKS; lia]|]); [..|constructor].
  all: intros x Hx%list_elem_of_In; cbn in Hx; unfold home, LOGBLOCKS, MAXOPBLOCKS; lia.
Qed.

Lemma log_crash_safe_witness : ∃ s, idle 1 1 2 s ∧
  runs (transactions 1 demo_txns) s (λ _ s', idle 1 1 2 s' ∧
    (∀ x, home 2 x → disk_at (k_disk s') x = all_updates (disk_at (k_disk s)) demo_txns x) ∧
    ∃ W, k_writes s' = k_writes s ++ W ∧ ∀ k,
      runs (binit;; initlog 1) (reboot (put_all (take k W) (k_disk s)) s) (λ _ s2, idle 1 1 2 s2 ∧
        ∃ j, (j ≤ length demo_txns)%nat ∧
          ∀ x, home 2 x → disk_at (k_disk s2) x = all_updates (disk_at (k_disk s)) (take j demo_txns) x)).
Proof.
  destruct (demo_idle ∅ demo_empty_log) as (s & Hid & _). exists s. split; [done|].
  apply (log_crash_safe 1 1 2 s demo_txns); [lia|lia|exact Hid|exact demo_small].
Defined.

(** C23. Booting with a disk whose log holds a committed transaction writes
    the logged blocks to their home locations, in the order of the header, and
    then an empty header, and nothing else ([W] is the sequence of disk writes
    the boot has made); and a second crash after any number [k] of these
    writes is harmless, because the next boot brings the disk to the same
    state. *)
Theorem recovery_restartable dev pid st bs s d :
  0 < dev < 2 ^ 31 → 0 ≤ st < 2 ^ 30 → k_pid s = pid → sb_logstart (k_sb s) = st → loggable st bs →
  header bs (disk_at d st) →
  runs (binit;; initlog dev) (reboot d s) (λ _ s', idle dev pid st s' ∧ ∃ hb0,
    let W := install_writes st bs (disk_at d) 0 ++ [(st, hb0)] in
    header [] hb0 ∧ k_writes s' = W ∧ k_disk s' = put_all W d ∧ ∀ k,
      runs (binit;; initlog dev) (reboot (put_all (take k W) d) s) (λ _ s2, idle dev pid st s2 ∧
        ∀ x, home st x → disk_at (k_disk s2) x = disk_at (k_disk s') x)).
Proof.
  intros Hdev Hst Hpid Hsb Hlb Hh. eapply runs_mono; [by apply (boot_writes dev pid st Hdev Hst bs)|].
  intros _ s' (Hid & _ & hb0 & Hh0 & Hd & Hk). split; [done|]. exists hb0. cbv zeta. split; [done|]. split; [done|]. split; [done|]. intros k.
  eapply runs_mono; [by apply (recovery_interrupted dev pid st Hdev Hst bs s d hb0 k)|]. intros ? s2 [Hid2 Hx]. split; [done|].
  intros x Hhx. rewrite Hx, Hd, disk_put_all, updl_app by done. cbn. symmetry. apply upd_ne.
  unfold home, LOGBLOCKS, MAXOPBLOCKS in Hhx. lia.
Qed.

(** A log with one block. *)
Definition demo_disk : gmap Z blk := <[2 := stn 4 (stn 4 ∅ 0 1) 4 100]> (<[3 := stn 1 ∅ 0 42]> ∅).

Lemma demo_header : header [100] (disk_at demo_disk 2).
Proof. split; [by vm_compute|]. intros [|i] b Hb; [injection Hb as <-; by vm_compute|by destruct i]. Qed.

Lemma demo_loggable : loggable 2 [100].
Proof.
  split; [apply list.NoDup_singleton| |cbn; unfold LOGBLOCKS, MAXOPBLOCKS; lia].
  intros b ->%list_elem_of_singleton. unfold LOGBLOCKS, MAXOPBLOCKS. lia.
Qed.

Lemma recovery_restartable_witness :
  runs (binit;; initlog 1) (reboot demo_disk demo_kfs) (λ _ s', idle 1 1 2 s' ∧ ∃ hb0,
    let W := install_writes 2 [100] (disk_at demo_disk) 0 ++ [(2, hb0)] in
    header [] hb0 ∧ k_writes s' = W ∧ k_disk s' = put_all W demo_disk ∧ ∀ k,
      runs (binit;; initlog 1) (reboot (put_all (take k W) demo_disk) demo_kfs) (λ _ s2, idle 1 1 2 s2 ∧
        ∀ x, home 2 x → disk_at (k_disk s2) x = disk_at (k_disk s') x)).
Proof.
  apply (recovery_restartable 1 1 2 [100] demo_kfs demo_disk);
    [lia|lia|done|done|exact demo_loggable|exact demo_header].
Defined.

(** Three operations at once that log [n] blocks. *)
Definition three_ops (n : nat) : M kfs unit :=
  binit;; initlog 1;;
  begin_op;; begin_op;; begin_op;;
  update_blocks 1 ((λ x, (x, λ b, b)) <$> seqZ 100 (Z.of_nat n));;
  end_op;; end_op;; end_op.

(** The log admits three operations of MAXOPBLOCKS blocks each, but their
    30 distinct blocks stay pinned in the 30 buffers of the cache, so that
    the commit finds no buffer for the first log block and panics; with 29
    blocks it succeeds. *)
Theorem full_log_panics :
  three_ops 30 (reboot ∅ demo_kfs) = Panic "bget: no buffers" ∧
  runs (three_ops 29) (reboot ∅ demo_kfs) (λ _ s', lg_outstanding (k_log s') = 0 ∧ lh_n (lg_lh (k_log s')) = 0).
Proof.
  split; [by vm_compute|].
  assert (E : match three_ops 29 (reboot ∅ demo_kfs) with
              | Ret (_, s') => (lg_outstanding (k_log s') =? 0) && (lh_n (lg_lh (k_log s')) =? 0)
              | _ => false
              end = true) by (vm_compute; reflexivity).
  unfold runs. destruct (three_ops 29 (reboot ∅ demo_kfs)) as [[u s']| | | |]; try done.
  exists u, s'. split; [done|]. by apply andb_prop in E as [?%Z.eqb_eq ?%Z.eqb_eq].
Qed.
