(* ===== verification/FsTheorems.v ===== *)
(** * The file system: main theorems *)

From S2P Require Import Prelude Spinlock Mem Buddy KString Vm FsState Bio Log BioSpec LogSpec LogCrash LogTxn Fs FsBlocks FsInode LogTheorems.

(** ** Blocks *)

(** Block [r] is the lowest free one of [V]; in [V'] it is in use and zero,
    and nothing else has changed. *)
Record block_taken (st : Z) (sb : superblock) (V : Z → blk) (r : Z) (V' : Z → blk) : Prop := {
  bt_range : 0 < r < sb_size sb;
  bt_free : used sb V r = false;
  bt_lowest : ∀ j, 0 ≤ j < r → used sb V j = true;
  bt_used : ∀ b, 0 ≤ b < sb_size sb → used sb V' b = bool_decide (b = r) || used sb V b;
  bt_zero : ∀ off, 0 ≤ off < BSIZE → ldn 1 (V' r) off = 0;
  bt_other : ∀ x, home st x → x ≠ r → x ≠ BBLOCK r sb → V' x = V x;
}.

Lemma allocated_taken st sb V r V' :
  bitmap_ok st sb V → 0 < r < sb_size sb → used sb V r = false → (∀ j, 0 ≤ j < r → used sb V j = true) →
  (∀ x, home st x → V' x = allocated sb V r x) → block_taken st sb V r V'.
Proof.
  intros Hbm Hr Hu Hlow HV. split; [done|done|done| | |].
  - intros b Hb. rewrite <-(used_allocated st) by (done || lia). unfold used.
    by rewrite HV by (by apply (bm_block _ _ _ Hbm)).
  - intros off Hoff. rewrite HV by (apply (bm_log _ _ _ Hbm); [lia|done]). by apply allocated_zero.
  - intros x Hx H1 H2. rewrite HV by done. by apply allocated_other.
Qed.

(** What an allocation may do to the disk. *)
Definition balloc_result (st : Z) (sb : superblock) (V : Z → blk) (r : Z) (V' : Z → blk) : Prop :=
  r = 0 ∧ (∀ j, 0 ≤ j < sb_size sb → used sb V j = true) ∧ (∀ x, home st x → V' x = V x) ∨
  block_taken st sb V r V'.

(** C8. [balloc] in an operation of its own: it returns 0 exactly when no
    block is free (and then nothing has changed), and otherwise the lowest
    free block, which it marks in the bitmap and fills with zeros, leaving
    all other blocks alone; a crash at any disk write leaves the file system
    before or after the allocation. *)
Theorem balloc_atomic dev pid st s :
  0 < dev < 2 ^ 31 → 0 ≤ st < 2 ^ 30 → idle dev pid st s → bitmap_ok st (k_sb s) (disk_at (k_disk s)) →
  runs (begin_op;; r ← balloc dev; end_op;; mret r) s (λ r s', idle dev pid st s' ∧ atomic dev pid st s s' ∧
    balloc_result st (k_sb s) (disk_at (k_disk s)) r (disk_at (k_disk s'))).
Proof.
  intros Hdev Hst Hid Hbm. set (V0 := disk_at (k_disk s)) in *.
  eapply runs_mono; [apply (operation_atomic dev pid st Hdev Hst s (balloc dev) (λ r _ V,
    r = 0 ∧ (∀ j, 0 ≤ j < sb_size (k_sb s) → used (k_sb s) V0 j = true) ∧ V = V0 ∨
    (0 < r < sb_size (k_sb s) ∧ used (k_sb s) V0 r = false ∧ (∀ j, 0 ≤ j < r → used (k_sb s) V0 j = true) ∧ V = allocated (k_sb s) V0 r)) Hid)|].
  - intros s1 Ho Hs. assert (Hl : length (bufs s1) = Z.to_nat NBUF) by (rewrite (ss_len _ _ Hs); apply Hid).
    unfold NBUF, MAXOPBLOCKS in *.
    eapply runs_mono; [apply (balloc_spec dev pid st Hdev Hst s1 V0 [] Ho); [by rewrite (ss_sb _ _ Hs)|done|cbn; lia]|].
    intros r s2 (Hd & Hs2 & [(-> & Ho2 & Hfull)|(Hr & Hu & Hlow & Ho2)]); rewrite (ss_sb _ _ Hs) in *; do 2 eexists.
    + ands; [exact Ho2|by left|cbn; lia|done|by rewrite (ss_sb _ _ Hs2), (ss_sb _ _ Hs)|apply Hs2].
    + ands; [exact Ho2|right; exact (conj Hr (conj Hu (conj Hlow eq_refl)))| |done|by rewrite (ss_sb _ _ Hs2), (ss_sb _ _ Hs)|apply Hs2].
      pose proof (length_absorbed [BBLOCK r (k_sb s); r] []) as Hab. cbn in *. lia.
  - intros r s' (Hid' & Hat & s2 & V & HQ & _ & Hh). ands; [done|done|].
    destruct HQ as [(-> & Hfull & ->)|(Hr & Hu & Hlow & ->)]; [by left|right]. by apply allocated_taken.
Qed.

(** A disk as mkfs leaves it: the 47 blocks in front of the data are in use. *)
Definition demo_image : gmap Z blk := <[46 := stn 6 ∅ 0 (2 ^ 47 - 1)]> ∅.

Lemma demo_used V b : V 46 = disk_at demo_image 46 → 0 ≤ b < 47 → used demo_sb V b = true.
Proof.
  intros HV Hb. assert (E : used demo_sb V b = bit_at (disk_at demo_image 46) b).
  { unfold used, BBLOCK. rewrite (Z.div_small b BPB), (Z.mod_small b BPB) by (unfold BPB, BSIZE; lia). by rewrite <-HV. }
  rewrite E. assert (H : forallb (bit_at (disk_at demo_image 46)) (seqZ 0 47) = true) by (vm_compute; reflexivity).
  rewrite forallb_forall in H. apply H. apply list_elem_of_In, elem_of_seqZ. lia.
Qed.

Lemma demo_bitmap_ok V : V 46 = disk_at demo_image 46 → bitmap_ok 2 demo_sb V.
Proof.
  intros HV. assert (Hlow : ∀ b, 0 ≤ b < 2000 → used demo_sb V b = false → 47 ≤ b).
  { intros b Hb Hu. destruct (decide (b < 47)); [|lia]. by rewrite (demo_used V b) in Hu by (done || lia). }
  assert (HB : ∀ b, 0 ≤ b < 2000 → BBLOCK b demo_sb = 46).
  { intros b Hb. unfold BBLOCK. by rewrite Z.div_small by (unfold BPB, BSIZE; lia). }
  split.
  - done.
  - intros b Hb. rewrite HB by done. unfold home, LOGBLOCKS, MAXOPBLOCKS. lia.
  - by apply demo_used.
  - intros b Hb Hu. specialize (Hlow b Hb Hu). unfold home, LOGBLOCKS, MAXOPBLOCKS. lia.
  - intros b b' Hb Hb' Hu. rewrite HB by done. specialize (Hlow b Hb Hu). lia.
Qed.

Lemma demo_fs : ∃ s, idle 1 1 2 s ∧ k_sb s = demo_sb ∧ same_sys (reboot demo_image demo_kfs) s ∧
  disk_at (k_disk s) 46 = disk_at demo_image 46 ∧ bitmap_ok 2 (k_sb s) (disk_at (k_disk s)).
Proof.
  destruct (demo_idle demo_image) as (s & Hid & Hs & Hd).
  { split; [by vm_compute|]. intros i b Hb. by rewrite lookup_nil in Hb. }
  assert (E : disk_at (k_disk s) 46 = disk_at demo_image 46) by (apply Hd; unfold home, LOGBLOCKS, MAXOPBLOCKS; lia).
  exists s. rewrite (ss_sb _ _ Hs). ands; [done|done|done|done|by apply demo_bitmap_ok].
Qed.

Lemma balloc_atomic_witness : ∃ s, idle 1 1 2 s ∧
  runs (begin_op;; r ← balloc 1; end_op;; mret r) s (λ r s', idle 1 1 2 s' ∧ atomic 1 1 2 s s' ∧
    balloc_result 2 (k_sb s) (disk_at (k_disk s)) r (disk_at (k_disk s'))).
Proof.
  destruct demo_fs as (s & Hid & _ & _ & _ & Hbm). exists s. split; [done|].
  apply (balloc_atomic 1 1 2 s); [lia|lia|exact Hid|exact Hbm].
Defined.

(** [bfree] of a block in use, in an operation of its own, clears its bit
    in the bitmap and no other, atomically; the contents of every block
    outside the bitmap stay. *)
Theorem bfree_atomic dev pid st s b :
  0 < dev < 2 ^ 31 → 0 ≤ st < 2 ^ 30 → idle dev pid st s → bitmap_ok st (k_sb s) (disk_at (k_disk s)) →
  0 ≤ b < sb_size (k_sb s) → used (k_sb s) (disk_at (k_disk s)) b = true →
  runs (begin_op;; u ← bfree dev b; end_op;; mret u) s (λ _ s', idle dev pid st s' ∧ atomic dev pid st s s' ∧
    (∀ b', 0 ≤ b' < sb_size (k_sb s) →
       used (k_sb s) (disk_at (k_disk s')) b' = negb (bool_decide (b' = b)) && used (k_sb s) (disk_at (k_disk s)) b') ∧
    ∀ x, home st x → x ≠ BBLOCK b (k_sb s) → disk_at (k_disk s') x = disk_at (k_disk s) x).
Proof.
  intros Hdev Hst Hid Hbm Hb Hu. set (V0 := disk_at (k_disk s)) in *. set (sb := k_sb s) in *.
  eapply runs_mono; [apply (operation_atomic dev pid st Hdev Hst s (bfree dev b) (λ _ _ V,
    V = upd V0 (BBLOCK b sb) (unmark (b mod BPB) (V0 (BBLOCK b sb)))) Hid)|].
  - intros s1 Ho Hs. assert (Hl : length (bufs s1) = Z.to_nat NBUF) by (rewrite (ss_len _ _ Hs); apply Hid).
    unfold NBUF, MAXOPBLOCKS in *. pose proof (ss_sb _ _ Hs) as Esb. fold sb in Esb.
    eapply runs_mono; [apply (bfree_spec dev pid st Hdev Hst s1 V0 [] b Ho); rewrite ?Esb; [done|done|done|done|cbn; lia]|].
    intros _ s2 (Hd & Hs2 & Ho2). rewrite Esb in Ho2. do 2 eexists.
    ands; [exact Ho2|done| |done|by rewrite (ss_sb _ _ Hs2)|apply Hs2].
    pose proof (length_absorbed [BBLOCK b sb] []) as Hab. cbn in *. lia.
  - intros _ s' (Hid' & Hat & s2 & V & -> & _ & Hh). ands; [done|done| |].
    + intros b' Hb'. rewrite <-(used_unmark sb V0 b' b) by lia. unfold used.
      by rewrite Hh by (by apply (bm_block _ _ _ Hbm)).
    + intros x Hx Hne. rewrite Hh by done. by apply upd_ne.
Qed.

Lemma bfree_atomic_witness : ∃ s, idle 1 1 2 s ∧
  runs (begin_op;; u ← bfree 1 46; end_op;; mret u) s (λ _ s', idle 1 1 2 s' ∧ atomic 1 1 2 s s' ∧
    (∀ b', 0 ≤ b' < sb_size (k_sb s) →
       used (k_sb s) (disk_at (k_disk s')) b' = negb (bool_decide (b' = 46)) && used (k_sb s) (disk_at (k_disk s)) b') ∧
    ∀ x, home 2 x → x ≠ BBLOCK 46 (k_sb s) → disk_at (k_disk s') x = disk_at (k_disk s) x).
Proof.
  destruct demo_fs as (s & Hid & Esb & _ & E46 & Hbm). exists s. split; [done|].
  apply (bfree_atomic 1 1 2 s 46); [lia|lia|exact Hid|exact Hbm|rewrite Esb; done|rewrite Esb; by apply demo_used].
Defined.

(** Freeing a block that is not in use panics. *)
Theorem bfree_double_panics dev pid st s b :
  0 < dev < 2 ^ 31 → 0 ≤ st < 2 ^ 30 → idle dev pid st s →
  0 ≤ b < sb_size (k_sb s) → used (k_sb s) (disk_at (k_disk s)) b = false →
  (begin_op;; bfree dev b) s = Panic "freeing free block".
Proof.
  intros Hdev Hst Hid Hb Hu. destruct (begin_op_idle dev pid st s Hid) as (u & s1 & E & Ho & Hs).
  rewrite M_bind_unfold, E. cbn [res_bind]. apply (bfree_free dev pid st Hdev Hst s1 (disk_at (k_disk s)) []); [done| | |].
  - by rewrite (ss_sb _ _ Hs).
  - by rewrite (ss_sb _ _ Hs).
  - rewrite (ss_len _ _ Hs), (id_bufs _ _ _ _ Hid). unfold NBUF, MAXOPBLOCKS. cbn. lia.
Qed.

Lemma bfree_double_panics_witness : ∃ s, idle 1 1 2 s ∧ (begin_op;; bfree 1 50) s = Panic "freeing free block".
Proof.
  destruct demo_fs as (s & Hid & Esb & _ & E46 & Hbm). exists s. split; [done|].
  apply (bfree_double_panics 1 1 2 s 50); [lia|lia|exact Hid|rewrite Esb; done|].
  unfold used. rewrite Esb. change (BBLOCK 50 demo_sb) with 46. rewrite E46. by vm_compute.
Defined.

(** ** Inodes *)

(** Writing an inode into its slot of an inode block and reading it back
    gives the same type, device numbers, link count, size and addresses, and
    does not disturb the inodes in other slots. *)
Theorem dinode_write_read ip o d jp :
  inode_ok ip →
  get_dinode (put_dinode ip o d) o jp =
    mk_inode (i_dev jp) (i_inum jp) (i_ref jp) (i_lock jp) (i_valid jp) (i_type ip) (i_major ip) (i_minor ip)
             (i_nlink ip) (i_size ip) (i_addrs ip) ∧
  ∀ o' kp, o + 64 ≤ o' ∨ o' + 64 ≤ o → get_dinode (put_dinode ip o d) o' kp = get_dinode d o' kp.
Proof.
  intros Hok. split; [by apply dinode_roundtrip|]. intros o' kp Ho. apply dinode_other; [apply Hok|done].
Qed.

(** An inode in memory: a file with one block. *)
Definition demo_inode : inode :=
  mk_inode 1 5 1 (i_lock zero_inode) 1 2 0 0 (-1) 700 ([60] ++ replicate 12 0).

Lemma demo_inode_ok : inode_ok demo_inode.
Proof. split; cbn; try lia; try done. repeat constructor; lia. Qed.

Lemma dinode_write_read_witness :
  get_dinode (put_dinode demo_inode 64 ∅) 64 zero_inode =
    mk_inode 0 0 0 (i_lock zero_inode) 0 2 0 0 (-1) 700 ([60] ++ replicate 12 0) ∧
  ∀ o' kp, 64 + 64 ≤ o' ∨ o' + 64 ≤ 64 → get_dinode (put_dinode demo_inode 64 ∅) o' kp = get_dinode ∅ o' kp.
Proof. apply (dinode_write_read demo_inode 64 ∅ zero_inode). exact demo_inode_ok. Defined.

(** C32. [iupdate] in an operation of its own stores the in-memory inode:
    afterwards the disk holds its fields, every other inode of the disk and
    every other block is unchanged, and a crash leaves the disk before or
    after the update. *)
Theorem iupdate_atomic dev pid st s i ip :
  0 < dev < 2 ^ 31 → 0 ≤ st < 2 ^ 30 → idle dev pid st s →
  it_inode (k_it s) !! i = Some ip → inode_ok ip → i_dev ip = dev → 0 ≤ i_inum ip →
  home st (IBLOCK (i_inum ip) (k_sb s)) → 0 ≤ IBLOCK (i_inum ip) (k_sb s) < 2 ^ 31 →
  runs (begin_op;; u ← iupdate i; end_op;; mret u) s (λ _ s', idle dev pid st s' ∧ atomic dev pid st s s' ∧
    dinode_of (k_sb s) (disk_at (k_disk s')) (i_inum ip) ip = ip ∧
    (∀ n jp, 0 ≤ n → n ≠ i_inum ip → home st (IBLOCK n (k_sb s)) →
       dinode_of (k_sb s) (disk_at (k_disk s')) n jp = dinode_of (k_sb s) (disk_at (k_disk s)) n jp) ∧
    ∀ x, home st x → x ≠ IBLOCK (i_inum ip) (k_sb s) → disk_at (k_disk s') x = disk_at (k_disk s) x).
Proof.
  intros Hdev Hst Hid Hip Hok Hd Hn Hhome Hr. set (V0 := disk_at (k_disk s)). set (sb := k_sb s) in *.
  eapply runs_mono; [apply (operation_atomic dev pid st Hdev Hst s (iupdate i) (λ _ _ V,
    dinode_of sb V (i_inum ip) ip = ip ∧ (∀ n jp, 0 ≤ n → n ≠ i_inum ip → dinode_of sb V n jp = dinode_of sb V0 n jp) ∧
    ∀ x, x ≠ IBLOCK (i_inum ip) sb → V x = V0 x) Hid)|].
  - intros s1 Ho Hs. assert (Hl : length (bufs s1) = Z.to_nat NBUF) by (rewrite (ss_len _ _ Hs); apply Hid).
    unfold NBUF, MAXOPBLOCKS in *. pose proof (ss_sb _ _ Hs) as Esb. fold sb in Esb.
    eapply runs_mono; [apply (iupdate_spec dev pid st Hdev Hst s1 V0 [] i ip Ho); rewrite ?(ss_it _ _ Hs), ?Esb; try done; cbn; lia|].
    intros _ s2 (Hd2 & Hs2 & V & Ho2 & HV). rewrite Esb in Ho2, HV. exists V. eexists.
    ands; [exact Ho2|apply HV|apply HV|apply HV| |done|by rewrite (ss_sb _ _ Hs2)|apply Hs2].
    pose proof (length_absorbed [IBLOCK (i_inum ip) sb] []) as Hab. cbn in *. lia.
  - intros _ s' (Hid' & Hat & s2 & V & (H1 & H2 & H3) & _ & Hh). unfold dinode_of in *. ands; [done|done| | |].
    + by rewrite Hh.
    + intros n jp Hn0 Hne Hhn. rewrite Hh by done. by apply H2.
    + intros x Hx Hne. rewrite Hh by done. by apply H3.
Qed.

(** The log does not depend on the inode table. *)
Lemma idle_with_it dev pid st it s : idle dev pid st s → idle dev pid st (with_it it s).
Proof.
  intros [[Hb Hl H1 H2 H3 H4 H5] Hc Hsb Hbufs]. split; [|done..]. split; [|by destruct Hl|done..]. by destruct Hb.
Qed.

Lemma iupdate_atomic_witness : ∃ s, idle 1 1 2 s ∧ it_inode (k_it s) !! 0%nat = Some demo_inode ∧
  runs (begin_op;; u ← iupdate 0; end_op;; mret u) s (λ _ s', idle 1 1 2 s' ∧ atomic 1 1 2 s s' ∧
    dinode_of (k_sb s) (disk_at (k_disk s')) 5 demo_inode = demo_inode ∧
    (∀ n jp, 0 ≤ n → n ≠ 5 → home 2 (IBLOCK n (k_sb s)) →
       dinode_of (k_sb s) (disk_at (k_disk s')) n jp = dinode_of (k_sb s) (disk_at (k_disk s)) n jp) ∧
    ∀ x, home 2 x → x ≠ IBLOCK 5 (k_sb s) → disk_at (k_disk s') x = disk_at (k_disk s) x).
Proof.
  destruct demo_fs as (s & Hid & Esb & _). exists (with_it (mk_itable (initlock "itable") [demo_inode]) s).
  assert (EI : IBLOCK 5 (k_sb s) = 33) by (by rewrite Esb).
  split; [by apply idle_with_it|]. split; [done|].
  apply (iupdate_atomic 1 1 2 (with_it (mk_itable (initlock "itable") [demo_inode]) s) 0 demo_inode);
    [lia|lia|by apply idle_with_it|done|exact demo_inode_ok|done|done|..].
  - change (home 2 (IBLOCK 5 (k_sb s))). rewrite EI. unfold home, LOGBLOCKS, MAXOPBLOCKS. lia.
  - change (0 ≤ IBLOCK 5 (k_sb s) < 2 ^ 31). rewrite EI. lia.
Defined.

(** C33. [iget] keeps the inode table well formed (every inode in use has one
    entry, reference counts are in range), returns the entry of the inode it
    is asked for, and adds one reference to that inode and to no other; it
    needs a free entry or an entry of that inode. *)
Theorem iget_table s dev inum :
  it_ok s → refs (it_inode (k_it s)) (dev, inum) + 1 < 2 ^ 31 →
  (∃ i ip, it_inode (k_it s) !! i = Some ip ∧ (is_entry dev inum ip ∨ i_ref ip = 0)) →
  runs (iget dev inum) s (λ i s', it_ok s' ∧
    (∃ ip, it_inode (k_it s') !! i = Some ip ∧ is_entry dev inum ip ∧ s' = put_inode i ip s) ∧
    ∀ k, refs (it_inode (k_it s')) k = refs (it_inode (k_it s)) k + (if decide (k = (dev, inum)) then 1 else 0)).
Proof. apply iget_spec. Qed.

(** A table with one inode in use. *)
Definition demo_table : kfs := with_it (mk_itable (initlock "itable") [demo_inode; zero_inode]) demo_kfs.

Lemma demo_table_ok : it_ok demo_table.
Proof.
  split; [done| |repeat constructor; done]. intros [|[|i]] [|[|j]] ip jp Hi Hj; cbn in *; simplify_eq; try done; cbn; lia.
Qed.

Lemma iget_table_witness :
  runs (iget 1 7) demo_table (λ i s', it_ok s' ∧
    (∃ ip, it_inode (k_it s') !! i = Some ip ∧ is_entry 1 7 ip ∧ s' = put_inode i ip demo_table) ∧
    ∀ k, refs (it_inode (k_it s')) k = refs (it_inode (k_it demo_table)) k + (if decide (k = (1, 7)) then 1 else 0)).
Proof.
  apply (iget_table demo_table 1 7); [exact demo_table_ok|done|]. exists 1%nat, zero_inode. split; [done|by right].
Defined.

(** ** Path names *)

(** C34. The names that [namex] looks up, obtained by repeated calls of
    [skipelem], are the non-empty parts between the slashes of the path, each
    cut to DIRSIZ characters: for every path, with any number of leading,
    trailing and repeated slashes. *)
Theorem path_elements path : elems (S (length path)) path = Some (take (Z.to_nat DIRSIZ) <$> words path).
Proof. apply elems_spec. lia. Qed.
