(* ===== verification/VmTheorems.v ===== *)
(** * Virtual memory and memory primitives: main theorems *)

From S2P Require Import Prelude Spinlock Riscv Mem Buddy BuddyIndex BuddyInit BlockAlloc SlabRep KString Vm VmSpec VmCopy BuddyTheorems.

(** C35. [memmove] copies as if through a temporary buffer, also when source
    and destination overlap in either direction; every byte outside the
    destination is unchanged. *)
Theorem memmove_as_if_buffered (s : vmstate) dst src n :
  0 ≤ n → KERNBASE ≤ dst → dst + n ≤ PHYSTOP → KERNBASE ≤ src → src + n ≤ PHYSTOP →
  runs (memmove dst src n) s (λ r s', r = dst ∧
    ∀ b, bt (v_mem s') b = if decide (dst ≤ b < dst + n) then bt (v_mem s) (b - dst + src) else bt (v_mem s) b).
Proof.
  intros. eapply runs_mono; [by apply memmove_spec|]. intros r s' (-> & m' & -> & Hb). by split.
Qed.

(** ** A small page table *)

Definition demo_root : Z := KERNBASE + 4096.
Definition demo_mid : Z := KERNBASE + 8192.
Definition demo_leaf : Z := KERNBASE + 12288.
Definition demo_user : Z := KERNBASE + 16384.
Definition demo_perm : Z := Z.lor (Z.lor (Z.lor PTE_R PTE_W) PTE_U) PTE_V.

Definition demo_vmstate (m : gmap Z Z) : vmstate :=
  mk_vmstate 0%nat demo_end 0 0 m boot demo_root 8192 0 0.

Lemma memmove_as_if_buffered_witness :
  runs (memmove (KERNBASE + 2) KERNBASE 5) (demo_vmstate (<[KERNBASE := 7]> ∅)) (λ r s', r = KERNBASE + 2 ∧
    ∀ b, bt (v_mem s') b = if decide (KERNBASE + 2 ≤ b < KERNBASE + 2 + 5)
                           then bt (v_mem (demo_vmstate (<[KERNBASE := 7]> ∅))) (b - (KERNBASE + 2) + KERNBASE)
                           else bt (v_mem (demo_vmstate (<[KERNBASE := 7]> ∅))) b).
Proof.
  apply (memmove_as_if_buffered (demo_vmstate (<[KERNBASE := 7]> ∅)) (KERNBASE + 2) KERNBASE 5); unfold PHYSTOP, KERNBASE; lia.
Defined.

Definition demo_tables : gmap (list Z) Z := <[[0; 0] := demo_leaf]> (<[[0] := demo_mid]> {[ [] := demo_root ]}).

(** Virtual pages 0 and 1 are mapped to two consecutive physical pages. *)
Definition demo_memory : gmap Z Z :=
  let m := st64 ∅ demo_root (Z.lor (PA2PTE demo_mid) PTE_V) in
  let m := st64 m demo_mid (Z.lor (PA2PTE demo_leaf) PTE_V) in
  let m := st64 m demo_leaf (Z.lor (PA2PTE demo_user) demo_perm) in
  st64 m (demo_leaf + 8) (Z.lor (PA2PTE (demo_user + 4096)) demo_perm).

Lemma root_only m root : is_page root → (∀ b, root ≤ b < root + PGSIZE → bt m b = 0) → pt_rep m {[ [] := root ]} root.
Proof.
  intros Hr Hm. split.
  - apply lookup_singleton_eq.
  - by intros k k' p [<- _]%lookup_singleton_Some [<- _]%lookup_singleton_Some.
  - by intros k p [_ <-]%lookup_singleton_Some.
  - intros k i [p [E _]%lookup_singleton_Some]. by destruct k.
  - intros k p i [<- <-]%lookup_singleton_Some _ Hi. rewrite lookup_singleton_ne by done.
    rewrite ldn_bt_zero; [done|]. intros b Hb. apply Hm. unfold PGSIZE in *. cbn in Hb. lia.
Qed.

Lemma demo_page_ok k : 1 ≤ k ≤ 5 → is_page (KERNBASE + 4096 * k).
Proof.
  intros Hk. unfold is_page, PHYSTOP, PGSIZE. split; [|unfold KERNBASE; lia].
  change KERNBASE with (524288 * 4096). replace (524288 * 4096 + 4096 * k) with ((524288 + k) * 4096) by lia. by apply Z.mod_mul.
Qed.

(** Bytes that no store has touched. *)
Lemma bt_st64_ne m a v b : b < a ∨ a + 8 ≤ b → bt (st64 m a v) b = bt m b.
Proof. intros Hb. apply ldn_stn_ne. cbn. lia. Qed.

Lemma bt_empty b : bt ∅ b = 0.
Proof. done. Qed.

(** A new table page in memory that is zero there. *)
Lemma demo_add m T k p i q :
  pt_rep m T demo_root → T !! k = Some p → (length k < 2)%nat → 0 ≤ i < 512 → T !! (k ++ [i]) = None →
  is_page q → (∀ k' p', T !! k' = Some p' → p' ≠ q) → (∀ b, q ≤ b < q + PGSIZE → bt m b = 0) →
  pt_rep (st64 m (p + 8 * i) (Z.lor (PA2PTE q) PTE_V)) (<[k ++ [i] := q]> T) demo_root.
Proof.
  intros R Hk Hl Hi Hn Hq Hf Hz. apply (pt_rep_add m m T demo_root k p i q); [done..|].
  intros b. case_decide as Hb; [by apply Hz|done].
Qed.

Lemma demo_rep : pt_rep demo_memory demo_tables demo_root ∧
  ∀ va, 0 ≤ va < 8192 → mapping demo_memory demo_tables va = Some (Z.lor (PA2PTE (demo_user + 4096 * (va / 4096))) demo_perm).
Proof.
  set (m1 := st64 ∅ demo_root (Z.lor (PA2PTE demo_mid) PTE_V)). set (m2 := st64 m1 demo_mid (Z.lor (PA2PTE demo_leaf) PTE_V)).
  assert (R0 : pt_rep ∅ {[ [] := demo_root ]} demo_root) by (apply root_only; [by apply (demo_page_ok 1)|done]).
  assert (R1 : pt_rep m1 (<[[0] := demo_mid]> {[ [] := demo_root ]}) demo_root).
  { unfold m1. rewrite <-(Z.add_0_r demo_root) at 1. apply (demo_add ∅ _ [] demo_root 0 demo_mid R0); [done|cbn; lia|done|done|by apply (demo_page_ok 2)| |done].
    intros k p [_ <-]%lookup_singleton_Some. done. }
  assert (R2 : pt_rep m2 demo_tables demo_root).
  { unfold m2. rewrite <-(Z.add_0_r demo_mid) at 1. apply (demo_add m1 _ [0] demo_mid 0 demo_leaf R1); [done|cbn; lia|done|done|by apply (demo_page_ok 3)|..].
    - intros k p [[_ <-]|[_ [_ <-]%lookup_singleton_Some]]%lookup_insert_Some; done.
    - intros b Hb. unfold m1. rewrite bt_st64_ne; [done|]. unfold demo_root, demo_leaf in *. lia. }
  assert (Hr : ∀ k, 0 ≤ k < 2 → 0 ≤ Z.lor (PA2PTE (demo_user + 4096 * k)) demo_perm < 2 ^ 64).
  { intros k Hk. apply PA2PTE_range; [|done]. unfold demo_user, KERNBASE. lia. }
  destruct (pt_rep_leaf demo_root m2 demo_tables 0 demo_leaf _ R2 eq_refl ltac:(done) (Hr 0 ltac:(lia))) as [R3 M3].
  destruct (pt_rep_leaf demo_root _ demo_tables 4096 demo_leaf _ R3 eq_refl ltac:(done) (Hr 1 ltac:(lia))) as [R4 M4].
  split; [exact R4|]. intros va Hva.
  change (mapping demo_memory demo_tables va) with (mapping (st64 (st64 m2 (demo_leaf + 8 * PX 0 0) (Z.lor (PA2PTE (demo_user + 4096 * 0)) demo_perm))
    (demo_leaf + 8 * PX 0 4096) (Z.lor (PA2PTE (demo_user + 4096 * 1)) demo_perm)) demo_tables va).
  assert (HV : va < MAXVA) by (change MAXVA with (2 ^ 38); lia). rewrite M4 by lia. case_decide as E.
  - replace (va / 4096) with 1 by done. done.
  - rewrite M3 by lia. assert (E0 : va / 4096 = 0) by (change (va / 4096 ≠ 1) in E; pose proof (Z.div_mod va 4096); pose proof (Z.mod_pos_bound va 4096); lia).
    unfold PGSIZE. rewrite E0. by rewrite decide_True by done.
Qed.

(** ** Copies between kernel and user space *)

Lemma user_range_any m T flags a n : user_range m T flags a n → user_range m T 0 a n.
Proof.
  intros [U1 U2 U3 U4]. split; [done|done| |done]. intros va Hva. destruct (U3 va Hva) as (e & H1 & H2 & _ & H3).
  exists e. by rewrite Z.land_0_r.
Qed.

(** C11. [copyout] stores the bytes at the user address, across page
    boundaries, and [copyin] from the same address reads them back; both
    succeed on a writable mapped range, leave the page table as it is and
    change no byte of memory outside the range. *)
Theorem copyout_copyin root v T a l :
  pt_rep (v_mem v) T root → user_range (v_mem v) T PTE_W a (Z.of_nat (length l)) → Forall (λ x, 0 ≤ x < 256) l →
  runs (r ← copyout root a l; '(l', r') ← copyin root a (Z.of_nat (length l)); mret (r, l', r')) v (λ x v',
    x = (0, l, 0) ∧ pt_rep (v_mem v') T root ∧
    (∀ va, mapping (v_mem v') T va = mapping (v_mem v) T va) ∧
    (∀ b, (∀ i, 0 ≤ i < Z.of_nat (length l) → user_addr (v_mem v) T (a + i) ≠ b) → bt (v_mem v') b = bt (v_mem v) b)).
Proof.
  intros R Hu Hl. apply runs_bind. eapply runs_mono; [by apply copyout_spec|].
  intros r v' (-> & m' & -> & R' & Hm & Hst). apply runs_bind. eapply runs_eq.
  { apply (copyin_spec root (vm_with_mem m' v) T); [exact R'|lia|]. apply (user_range_any _ _ PTE_W).
    by apply (user_range_ext_map (v_mem v)). }
  apply runs_ret. cbn [v_mem vm_with_mem]. rewrite (stored_bytes (v_mem v)) by done. ands; [done|done|done|by apply Hst].
Qed.

Lemma demo_user_addr va : 0 ≤ va < 8192 → user_addr demo_memory demo_tables va = demo_user + va.
Proof.
  intros Hva. unfold user_addr. rewrite (proj2 demo_rep va Hva). pose proof (Z.div_mod va 4096 ltac:(done)).
  pose proof (Z.mod_pos_bound va 4096 ltac:(done)). rewrite PTE2PA_page; [unfold PGSIZE; lia| | |done].
  - unfold demo_user, KERNBASE. lia.
  - replace (demo_user + 4096 * (va / 4096)) with (KERNBASE + 4096 * (4 + va / 4096)) by (unfold demo_user; lia).
    apply demo_page_ok. lia.
Qed.

Lemma demo_range : user_range demo_memory demo_tables PTE_W 4094 4.
Proof.
  split; [done|done| |].
  - intros va Hva. assert (Hd : 0 ≤ va / 4096 < 2) by (pose proof (Z.div_mod va 4096 ltac:(done)); pose proof (Z.mod_pos_bound va 4096 ltac:(done)); lia).
    assert (Hp : is_page (demo_user + 4096 * (va / 4096))).
    { replace (demo_user + 4096 * (va / 4096)) with (KERNBASE + 4096 * (4 + va / 4096)) by (unfold demo_user; lia). apply demo_page_ok. lia. }
    exists (Z.lor (PA2PTE (demo_user + 4096 * (va / 4096))) demo_perm). rewrite PTE2PA_page by (try apply Hp; try done; by apply is_page_56).
    ands; [apply demo_rep; lia| | |done|].
    + assert (va / 4096 = 0 ∨ va / 4096 = 1) as [-> | ->] by lia; by vm_compute.
    + assert (va / 4096 = 0 ∨ va / 4096 = 1) as [-> | ->] by lia; by vm_compute.
    + intros b Hb k p Hk. unfold demo_tables in Hk. unfold demo_user, PGSIZE in *.
      apply lookup_insert_Some in Hk as [[_ <-]|[_ Hk]]; [unfold demo_leaf; lia|].
      apply lookup_insert_Some in Hk as [[_ <-]|[_ [_ <-]%lookup_singleton_Some]]; [unfold demo_mid; lia|unfold demo_root; lia].
  - intros va va' H1 H2. rewrite !demo_user_addr by lia. lia.
Qed.

Lemma copyout_copyin_witness :
  runs (r ← copyout demo_root 4094 [1; 2; 3; 255]; '(l', r') ← copyin demo_root 4094 4; mret (r, l', r')) (demo_vmstate demo_memory) (λ x v',
    x = (0, [1; 2; 3; 255], 0) ∧ pt_rep (v_mem v') demo_tables demo_root ∧
    (∀ va, mapping (v_mem v') demo_tables va = mapping demo_memory demo_tables va) ∧
    (∀ b, (∀ i, 0 ≤ i < 4 → user_addr demo_memory demo_tables (4094 + i) ≠ b) → bt (v_mem v') b = bt demo_memory b)).
Proof.
  apply (copyout_copyin demo_root (demo_vmstate demo_memory) demo_tables 4094 [1; 2; 3; 255]);
    [exact (proj1 demo_rep)|exact demo_range|repeat constructor; lia].
Defined.

(** ** Mapping pages *)

(** C12. [mappages] on an unmapped, page-aligned range either maps every page of
    the range to the corresponding physical page with the given permissions
    and changes no other mapping, or runs out of memory and returns -1 having
    changed no mapping outside the range; in both cases the page table stays
    well formed, the table pages it adds are live blocks of the allocator,
    and memory outside the tables is untouched. *)
Theorem mappages_maps root v T L va size pa perm :
  vm_inv root v T L → 0 ≤ va → va mod PGSIZE = 0 → 0 < size → size mod PGSIZE = 0 → va + size ≤ MAXVA →
  0 ≤ pa → pa + size ≤ 2 ^ 56 → 0 ≤ perm < 2 ^ 10 → (∀ va', va ≤ va' < va + size → mapping (v_mem v) T va' = None) →
  runs (mappages root va size pa perm) v (λ r v', ∃ T' L',
    vm_inv root v' T' L' ∧ vm_ext v T L v' T' L' ∧
    (r = 0 ∧ mapped va size pa perm (v_mem v) T (v_mem v') T' ∨
     r = -1 ∧ map_failed va size (v_mem v) T (v_mem v') T')).
Proof. apply mappages_spec. Qed.

(** A process with an empty page table. *)
Lemma demo_empty_table : ∃ root t, vm_inv root (mk_vmstate 0%nat demo_end 0 0 ∅ t root 0 0 0) {[ [] := root ]} {[(root, 0)]}.
Proof.
  destruct demo_page as (s & q & Hl & Hr & _). assert (Hlv : 15 - plevel q = 0) by (rewrite (proj1 (leaf_level q) Hl); done).
  assert (E : {[node_block q]} ∪ ∅ = ({[(block_addr q, 0)]} : gset (Z * Z))) by (unfold node_block; rewrite Hlv; set_solver). rewrite E in Hr.
  exists (block_addr q), s. split.
  - apply root_only; [|done]. pose proof (proj2 (node_level q) ltac:(lia)) as Hn. pose proof (block_addr_bounds q Hn).
    split; [by apply block_addr_page|]. unfold block_size in *. rewrite (proj1 (leaf_level q) Hl) in *. unfold PGSIZE. cbn in *. lia.
  - split; [exact demo_ram|]. by apply (reachable_inv 0 demo_end demo_ram) in Hr.
  - intros k p [_ <-]%lookup_singleton_Some. set_solver.
Qed.

Lemma mappages_maps_witness : ∃ root t, let v := mk_vmstate 0%nat demo_end 0 0 ∅ t root 0 0 0 in
  runs (mappages root 4096 8192 KERNBASE PTE_R) v (λ r v', ∃ T' L',
    vm_inv root v' T' L' ∧ vm_ext v {[ [] := root ]} {[(root, 0)]} v' T' L' ∧
    (r = 0 ∧ mapped 4096 8192 KERNBASE PTE_R (v_mem v) {[ [] := root ]} (v_mem v') T' ∨
     r = -1 ∧ map_failed 4096 8192 (v_mem v) {[ [] := root ]} (v_mem v') T')).
Proof.
  destruct demo_empty_table as (root & t & Hv). exists root, t.
  apply (mappages_maps root _ {[ [] := root ]} {[(root, 0)]} 4096 8192 KERNBASE PTE_R); [exact Hv|done|done|done|done|done|done|done|done|].
  intros va' _. unfold mapping. by rewrite lookup_singleton_ne.
Defined.

Lemma has_either a b f : has b f = true → has (Z.lor a b) f = true.
Proof.
  unfold has. rewrite !negb_true_iff, !Z.eqb_neq, Z.land_lor_distr_l. intros Hb E. by apply Z.lor_eq_0_iff in E as [_ E].
Qed.

(** A physical address that is not page-aligned is mapped as the page that
    contains it: [sys_cache_alloc] passes the address of the object it has
    allocated, so the user address it returns refers to the start of the slab
    page (its header), not to the object, and [sys_cache_free], which
    translates the user address back with [walkaddr], passes the address of
    the page to [cache_free]. *)
Theorem object_mapped_as_page root v T L va pa perm :
  vm_inv root v T L → 0 ≤ va → va mod PGSIZE = 0 → va + PGSIZE ≤ MAXVA → 0 ≤ pa → pa + PGSIZE ≤ 2 ^ 56 →
  0 ≤ perm < 2 ^ 10 → has perm PTE_U = true → (∀ va', va ≤ va' < va + PGSIZE → mapping (v_mem v) T va' = None) →
  runs (mappages root va PGSIZE pa perm) v (λ r v', r = 0 → walkaddr root va v' = Ret (PGROUNDDOWN pa, v')).
Proof.
  intros Hv H0 Hm Hend Hpa Hpe Hperm HU Hnone.
  eapply runs_mono; [by apply (mappages_spec root v T L va PGSIZE pa perm)|].
  intros r v' (T' & L' & Hv' & _ & [[-> Hmap]|[-> _]]); [|done]. intros _.
  assert (Hva : 0 ≤ va < MAXVA) by (unfold PGSIZE in *; lia). rewrite (walkaddr_spec root v' T' va) by (done || apply Hv').
  rewrite Hmap, decide_True by (done || unfold PGSIZE in *; lia). unfold new_pte. rewrite <-Z.lor_assoc.
  rewrite (PGROUNDDOWN_div va). pose proof (Z.div_mod va PGSIZE ltac:(done)). replace (PGSIZE * (va / PGSIZE)) with va by lia.
  rewrite Z.sub_diag, Z.add_0_r. rewrite has_either by (rewrite Z.lor_comm; by apply has_either).
  by rewrite PTE2PA_PA2PTE by (by apply lor_perm_range || unfold PGSIZE in *; lia).
Qed.

Lemma object_mapped_as_page_witness : ∃ root t, let v := mk_vmstate 0%nat demo_end 0 0 ∅ t root 0 0 0 in
  runs (mappages root 4096 PGSIZE (KERNBASE + 128) (Z.lor (Z.lor PTE_R PTE_W) PTE_U)) v
    (λ r v', r = 0 → walkaddr root 4096 v' = Ret (PGROUNDDOWN (KERNBASE + 128), v')).
Proof.
  destruct demo_empty_table as (root & t & Hv). exists root, t.
  apply (object_mapped_as_page root _ {[ [] := root ]} {[(root, 0)]} 4096 (KERNBASE + 128));
    [exact Hv|done|done|done|done|done|done|done|].
  intros va' _. unfold mapping. by rewrite lookup_singleton_ne.
Defined.
