(* ===== verification/PipeTheorems.v ===== *)
(** * Pipes: main theorems *)

From S2P Require Import Prelude Spinlock Riscv Mem Buddy KString Vm VmSpec VmCopy FsState Bio Log Fs Pipe PipeSpec LogTheorems VmTheorems.

(** C16. A pipe is a bounded queue: [pipewrite], entered with [i] of [n] bytes
    already written, appends the next user bytes in order until all are
    written or 512 bytes are in the pipe; it returns [n] in the first case and
    goes to sleep in the second, and it never drops, repeats or reorders a
    byte, even when the 32-bit counters wrap around. *)
Theorem pipewrite_appends s T pi p addr n i :
  pipe_at s pi p → pipe_ok p → unlocked (pi_lock p) → 0 ≤ i ≤ n → pi_readopen p ≠ 0 → v_killed (k_vm s) = 0 →
  user_ok s T 0 (addr + i) (n - i) →
  runs (pipewrite_from pi addr n i) s (λ r s', let k := Z.min (n - i) (PIPESIZE - Z.of_nat (length (queue p))) in
    r = (if i + k =? n then Done n else Asleep (i + k)) ∧
    ∃ p', s' = put_pipe pi p' s ∧ pipe_ok p' ∧ unlocked (pi_lock p') ∧
      queue p' = queue p ++ user_bytes (v_mem (k_vm s)) T (addr + i) k).
Proof.
  intros Hp Hok Hl Hi Hro Hk Hu. eapply runs_mono; [by apply (pipewrite_from_spec s T pi p)|].
  intros r s' (-> & p' & -> & Hok' & El & _ & Hq). rewrite length_queue. split; [done|]. exists p'. rewrite El. by ands.
Qed.

(** C17. [piperead] removes the oldest bytes of the pipe, up to [n] of them, and
    stores them in order in user memory; it returns their number. On an empty
    pipe it goes to sleep without changing anything while the write end is
    open, and returns 0 (end of file) once it is closed. *)
Theorem piperead_takes s T pi p addr n :
  pipe_at s pi p → pipe_ok p → unlocked (pi_lock p) → 0 ≤ n → v_killed (k_vm s) = 0 → user_ok s T PTE_W addr n →
  runs (piperead_from pi addr n) s (λ r s',
    if bool_decide (queue p = []) && negb (pi_writeopen p =? 0) then r = Asleep 0 ∧ s' = s
    else let l := take (Z.to_nat n) (queue p) in
      r = Done (Z.of_nat (length l)) ∧
      ∃ m' p', s' = with_vm (vm_with_mem m' (k_vm s)) (put_pipe pi p' s) ∧
        stored (v_mem (k_vm s)) T addr l m' ∧ pipe_ok p' ∧ queue p = l ++ queue p').
Proof.
  intros Hp Hok Hl Hn Hk Hu. eapply runs_mono; [by apply (piperead_from_spec s T pi p)|]. intros r s' H.
  assert (E : bool_decide (queue p = []) = (pipe_count p =? 0)).
  { rewrite <-length_queue. by destruct (queue p). }
  rewrite E. destruct (_ && _); [done|]. destruct H as (-> & m' & p' & -> & _ & _ & Hst & Hok' & _ & Hq).
  split; [done|]. exists m', p'. by ands.
Qed.

(** ** A pipe whose counters are about to wrap around *)

Definition demo_pipe : pipe :=
  mk_pipe (initlock "pipe") (<[510 := 65]> (<[511 := 66]> ∅)) (2 ^ 32 - 2) 0 1 1.

Definition demo_pipes : kfs :=
  with_vm (demo_vmstate demo_memory) (with_pipes {[ KERNBASE := demo_pipe ]} demo_kfs).

Lemma demo_pipe_ok : pipe_ok demo_pipe.
Proof. by split. Qed.

Lemma demo_user_ok flags : flags = 0 ∨ flags = PTE_W → user_ok demo_pipes demo_tables flags 4094 4.
Proof.
  intros Hf. split; [exact (proj1 demo_rep)|]. destruct Hf as [-> | ->]; [|exact demo_range].
  exact (user_range_any _ _ _ _ _ demo_range).
Qed.

Lemma pipewrite_appends_witness :
  runs (pipewrite_from KERNBASE 4094 4 0) demo_pipes (λ r s',
    let k := Z.min (4 - 0) (PIPESIZE - Z.of_nat (length (queue demo_pipe))) in
    r = (if 0 + k =? 4 then Done 4 else Asleep (0 + k)) ∧
    ∃ p', s' = put_pipe KERNBASE p' demo_pipes ∧ pipe_ok p' ∧ unlocked (pi_lock p') ∧
      queue p' = queue demo_pipe ++ user_bytes (v_mem (k_vm demo_pipes)) demo_tables (4094 + 0) k).
Proof.
  apply (pipewrite_appends demo_pipes demo_tables KERNBASE demo_pipe 4094 4 0);
    [done|exact demo_pipe_ok|done|lia|done|done|exact (demo_user_ok 0 (or_introl eq_refl))].
Defined.

Lemma piperead_takes_witness :
  runs (piperead_from KERNBASE 4094 4) demo_pipes (λ r s',
    if bool_decide (queue demo_pipe = []) && negb (pi_writeopen demo_pipe =? 0) then r = Asleep 0 ∧ s' = demo_pipes
    else let l := take (Z.to_nat 4) (queue demo_pipe) in
      r = Done (Z.of_nat (length l)) ∧
      ∃ m' p', s' = with_vm (vm_with_mem m' (k_vm demo_pipes)) (put_pipe KERNBASE p' demo_pipes) ∧
        stored (v_mem (k_vm demo_pipes)) demo_tables 4094 l m' ∧ pipe_ok p' ∧ queue demo_pipe = l ++ queue p').
Proof.
  apply (piperead_takes demo_pipes demo_tables KERNBASE demo_pipe 4094 4);
    [done|exact demo_pipe_ok|done|lia|done|exact (demo_user_ok PTE_W (or_intror eq_refl))].
Defined.
