(* ===== verification/ProcTheorems.v ===== *)
(** * Processes and scheduling: main theorems *)

From S2P Require Import Prelude Spinlock Riscv Mem Buddy KString Vm FsState Bio Log Fs Pipe SysFile Proc ProcSpec ProcInv ProcOps ProcSteps LogTheorems.

(** C2. However the harts interleave their steps (scheduling decisions, yields,
    sleeps, wakeups, kills, forks, exits, waits, file system calls), no two
    harts ever have the same current process, a process is in state RUNNING
    exactly while one hart runs it or is switching to it, and a process lock
    is free or is held by the hart that is switching to or from that process. *)
Theorem processes_exclusive y y' :
  initial y → rtc step y y' →
  (∀ h h' c c' i, n_cpus (y_kernel y') !! h = Some c → n_cpus (y_kernel y') !! h' = Some c' →
     c_proc c = Some i → c_proc c' = Some i → h = h') ∧
  (∀ i p, n_procs (y_kernel y') !! i = Some p →
     p_state p = RUNNING ↔ ∃ h, y_ctl y' h = Entering i ∨ y_ctl y' h = Running i) ∧
  (∀ i p, n_procs (y_kernel y') !! i = Some p →
     unlocked (p_lock p) ∨ ∃ h, (y_ctl y' h = Entering i ∨ y_ctl y' h = Leaving i) ∧ locked_by h (p_lock p)).
Proof.
  intros Hi Hr. pose proof (sched_reachable_inv _ _ Hi Hr) as [I1 I2 I3 I4 I5 I6 I7]. ands.
  - intros h h' c c' i Hc Hc' E E'. destruct (I4 h c Hc) as [Em _], (I4 h' c' Hc') as [Em' _].
    apply (I5 h h' i); congruence.
  - intros i p Hp. rewrite (I1 i p Hp). split; intros [h Hh]; exists h; unfold views in *.
    + destruct (y_ctl y' h); cbn in Hh; simplify_eq; auto.
    + by destruct Hh as [-> | ->].
  - intros i p Hp. destruct (I3 i p Hp) as [?|[h Hh]]; [by left|right]. exists h. split; [|by apply (I2 i p h)].
    unfold views in Hh. destruct (y_ctl y' h); cbn in Hh; set_solver.
Qed.

(** ** A machine with two harts *)

Definition demo_proc (st : procstate) (pid : Z) : proc :=
  mk_proc (initlock "proc") st None 0 0 pid None 0 0 0 0 [] [] None [].

Definition demo_kernel : kernel :=
  mk_kernel demo_kfs (demo_proc RUNNABLE 1 :: demo_proc SLEEPING 2 :: replicate 62 (demo_proc UNUSED 0))
    (replicate 2 (mk_cpu None 0 false true)) (Some 0%nat) 3 (initlock "nextpid") (initlock "wait_lock") 0
    (initlock "time") 0 [].

Definition demo_start : system := mk_system (λ _, Idle) (λ _, TFresh) demo_kernel.

Lemma demo_initial : initial demo_start.
Proof.
  split; [done| |].
  - intros i p Hp. cbn [y_kernel demo_start demo_kernel n_procs] in Hp.
    destruct i as [|[|i]]; cbn in Hp; [injection Hp as <-; by split..|].
    change (replicate 62 (demo_proc UNUSED 0) !! i = Some p) in Hp. apply lookup_replicate in Hp as [-> _]. by split.
  - intros h c Hc. change (replicate 2 (mk_cpu None 0 false true) !! h = Some c) in Hc. by apply lookup_replicate in Hc as [-> _].
Qed.

(** Hart 0 picks process 0, process 0 starts and yields; hart 1 looks at the
    process table. *)
Definition ret_state {A} (r : res (A * kernel)) : kernel := match r with Ret (_, s) => s | _ => demo_kernel end.

Definition demo_k1 : kernel := ret_state (scheduler_pick 0 0 demo_kernel).
Definition demo_k2 : kernel := ret_state (resume 0 0 TFresh demo_k1).
Definition demo_k3 : kernel := ret_state (perform 0 0 OYield demo_k2).

Lemma demo_run : ∃ y, rtc step demo_start y ∧ y_ctl y 0%nat = Leaving 0 ∧ y_kernel y = demo_k3.
Proof.
  eexists. split.
  - eapply rtc_l; [apply (step_pick demo_start 0 0 true demo_k1); [reflexivity|vm_compute; reflexivity]|].
    eapply rtc_l; [apply (step_resume _ 0 0 Stay demo_k2); [reflexivity|vm_compute; reflexivity]|].
    eapply rtc_l; [apply (step_perform _ 0 0 OYield (Leave (TYield true)) demo_k3); [reflexivity|vm_compute; reflexivity]|]. apply rtc_refl.
  - split; reflexivity.
Qed.

Lemma processes_exclusive_witness : ∃ y', rtc step demo_start y' ∧
  (∀ h h' c c' i, n_cpus (y_kernel y') !! h = Some c → n_cpus (y_kernel y') !! h' = Some c' →
     c_proc c = Some i → c_proc c' = Some i → h = h') ∧
  (∀ i p, n_procs (y_kernel y') !! i = Some p →
     p_state p = RUNNING ↔ ∃ h, y_ctl y' h = Entering i ∨ y_ctl y' h = Running i) ∧
  (∀ i p, n_procs (y_kernel y') !! i = Some p →
     unlocked (p_lock p) ∨ ∃ h, (y_ctl y' h = Entering i ∨ y_ctl y' h = Leaving i) ∧ locked_by h (p_lock p)).
Proof.
  destruct demo_run as (y' & Hr & _). exists y'. split; [done|].
  apply (processes_exclusive demo_start y'); [exact demo_initial|exact Hr].
Defined.

(** C30. Switching never panics and never waits: in every reachable state, a
    hart that runs a process can yield (the checks of [sched] for the process
    lock, the nesting of locks, the process state and disabled interrupts all
    pass), a hart that has just switched to a process that had yielded gets
    through to it with the saved interrupt state, and a hart whose process has
    switched back returns to the scheduler loop with the process lock free. *)
Theorem switching_never_panics y y' h i c p :
  initial y → rtc step y y' → n_cpus (y_kernel y') !! h = Some c → n_procs (y_kernel y') !! i = Some p →
  (y_ctl y' h = Running i → runs (yield_out h) (y_kernel y') (λ e s', e = c_sie c ∧
     ∃ p', n_procs s' !! i = Some p' ∧ p_state p' = RUNNABLE)) ∧
  (y_ctl y' h = Entering i → ∀ e, runs (yield_in h i e) (y_kernel y') (λ _ s',
     ∃ p' c', n_procs s' !! i = Some p' ∧ p_state p' = p_state p ∧ unlocked (p_lock p') ∧
       n_cpus s' !! h = Some c' ∧ c_noff c' = 0 ∧ c_sie c' = e)) ∧
  (y_ctl y' h = Leaving i → runs (scheduler_return h i) (y_kernel y') (λ _ s',
     ∃ p' c', n_procs s' !! i = Some p' ∧ p_state p' = p_state p ∧ unlocked (p_lock p') ∧
       n_cpus s' !! h = Some c' ∧ c_noff c' = 0 ∧ c_proc c' = None)).
Proof.
  intros Hi Hr Hc Hp. pose proof (sched_reachable_inv _ _ Hi Hr) as Hinv. ands.
  - intros E. by apply (yield_out_runs (y_ctl y') _ h i p c).
  - intros E e. by apply (yield_in_runs (y_ctl y') _ h i p c).
  - by apply (scheduler_return_runs (y_ctl y') _ h i p c).
Qed.

Lemma switching_never_panics_witness : ∃ y' c p, rtc step demo_start y' ∧ y_ctl y' 0%nat = Leaving 0 ∧
  n_cpus (y_kernel y') !! 0%nat = Some c ∧ n_procs (y_kernel y') !! 0%nat = Some p ∧
  (y_ctl y' 0%nat = Running 0 → runs (yield_out 0) (y_kernel y') (λ e s', e = c_sie c ∧
     ∃ p', n_procs s' !! 0%nat = Some p' ∧ p_state p' = RUNNABLE)) ∧
  (y_ctl y' 0%nat = Entering 0 → ∀ e, runs (yield_in 0 0 e) (y_kernel y') (λ _ s',
     ∃ p' c', n_procs s' !! 0%nat = Some p' ∧ p_state p' = p_state p ∧ unlocked (p_lock p') ∧
       n_cpus s' !! 0%nat = Some c' ∧ c_noff c' = 0 ∧ c_sie c' = e)) ∧
  (y_ctl y' 0%nat = Leaving 0 → runs (scheduler_return 0 0) (y_kernel y') (λ _ s',
     ∃ p' c', n_procs s' !! 0%nat = Some p' ∧ p_state p' = p_state p ∧ unlocked (p_lock p') ∧
       n_cpus s' !! 0%nat = Some c' ∧ c_noff c' = 0 ∧ c_proc c' = None)).
Proof.
  destruct demo_run as (y' & Hr & Hc & Hk). assert (∃ c, n_cpus demo_k3 !! 0%nat = Some c) as [c Ec] by (eexists; vm_compute; reflexivity).
  assert (∃ p, n_procs demo_k3 !! 0%nat = Some p) as [p Ep] by (eexists; vm_compute; reflexivity). rewrite <-Hk in Ec, Ep.
  exists y', c, p. split; [done|]. split; [done|]. split; [done|]. split; [done|].
  apply (switching_never_panics demo_start y' 0 0 c p); [exact demo_initial|exact Hr|exact Ec|exact Ep].
Defined.

(** C31. If a process is runnable and no other hart holds a process lock, one
    pass of the scheduler loop finds a runnable process: the first one in the
    table, which it marks RUNNING, makes the current process of the hart and
    keeps locked for the switch; a pass that finds none has changed nothing
    but the saved interrupt flag. *)
Theorem scheduler_finds_runnable h s c :
  n_cpus s !! h = Some c → cpu_ok c → locks_free s → length (n_procs s) = Z.to_nat NPROC →
  runs (scheduler_scan h (Z.to_nat NPROC) 0) s (λ r s', ∃ c', settle c' = settle c ∧
    match r with
    | Some i => ∃ p, n_procs s !! i = Some p ∧ p_state p = RUNNABLE ∧
        (∀ j q, (j < i)%nat → n_procs s !! j = Some q → p_state q ≠ RUNNABLE) ∧ s' = dispatched h s c' i p
    | None => (∀ j q, n_procs s !! j = Some q → p_state q ≠ RUNNABLE) ∧ s' = put_cpu h c' s
    end).
Proof.
  intros Hc Hok Hfree Hlen. eapply runs_mono; [by apply (scheduler_scan_spec h _ s c 0)|]. intros r s' Hpost.
  unfold scan_post, first_from in Hpost. rewrite drop_0 in Hpost. destruct (list_find _ _) as [[i p]|] eqn:E; cbn in Hpost.
  - destruct Hpost as [-> (c' & Ec & ->)]. apply list_find_Some in E as (Hp & Hst & Hbefore). exists c'. split; [done|].
    exists p. ands; [done|done| |done]. intros j q Hj Hq Hst'. by apply (Hbefore j q).
  - destruct Hpost as [-> (c' & Ec & ->)]. exists c'. ands; [done| |done]. intros j q Hq.
    apply list_find_None in E. by apply (proj1 (list.Forall_forall _ _) E), (list_elem_of_lookup_2 _ j).
Qed.

Lemma demo_locks_free : locks_free demo_kernel.
Proof. intros i p Hp. by destruct (in_procs _ demo_initial i p Hp). Qed.

Lemma scheduler_finds_runnable_witness :
  runs (scheduler_scan 1 (Z.to_nat NPROC) 0) demo_kernel (λ r s', ∃ c', settle c' = settle (mk_cpu None 0 false true) ∧
    match r with
    | Some i => ∃ p, n_procs demo_kernel !! i = Some p ∧ p_state p = RUNNABLE ∧
        (∀ j q, (j < i)%nat → n_procs demo_kernel !! j = Some q → p_state q ≠ RUNNABLE) ∧ s' = dispatched 1 demo_kernel c' i p
    | None => (∀ j q, n_procs demo_kernel !! j = Some q → p_state q ≠ RUNNABLE) ∧ s' = put_cpu 1 c' demo_kernel
    end).
Proof.
  apply (scheduler_finds_runnable 1 demo_kernel (mk_cpu None 0 false true)); [done|by split|exact demo_locks_free|done].
Defined.

(** [push_off] and [pop_off] nest: after [n + 1] calls of [push_off]
    interrupts are off, and the matching calls of [pop_off] restore the
    interrupt state of the beginning, the last one and no earlier one. *)
Theorem push_off_pop_off h s c n m :
  n_cpus s !! h = Some c → cpu_ok c → (m ≤ S n)%nat →
  runs (times (S n) (push_off h);; times m (pop_off h)) s (λ _ s', ∃ c', s' = put_cpu h c' s ∧
    c_proc c' = c_proc c ∧ c_noff c' = c_noff c + Z.of_nat (S n - m) ∧
    c_sie c' = (if (m =? S n)%nat then c_sie c else false)).
Proof.
  intros Hc Hok Hm. apply runs_bind. eapply runs_mono; [by apply (push_times h (S n) s c)|].
  intros _ s1 (c1 & -> & Hok1 & Ep & En & Hs & Ei). eapply runs_mono; [apply (pop_times h m _ c1); [by eapply cpu_put|done|]|].
  { destruct Hok. lia. }
  intros _ s' ->. eexists. rewrite put_cpu_put. ands; [done|done|cbn; lia|]. cbn [c_sie]. rewrite Hs by lia. rewrite Ei. destruct Hok as [H0 H1].
  change (S n =? 0)%nat with false. cbn [negb]. rewrite andb_true_r.
  destruct (Nat.eqb_spec m (S n)) as [Em|Em]; destruct (Nat.ltb_spec 0 m), (Z.eqb_spec (c_noff c1) (Z.of_nat m)), (Z.eqb_spec (c_noff c) 0); try lia; try done.
  cbn. rewrite (H1 ltac:(lia)). done.
Qed.

Lemma push_off_pop_off_witness :
  runs (times 3 (push_off 1);; times 3 (pop_off 1)) demo_kernel (λ _ s', ∃ c', s' = put_cpu 1 c' demo_kernel ∧
    c_proc c' = None ∧ c_noff c' = 0 + Z.of_nat (3 - 3) ∧ c_sie c' = (if (3 =? 3)%nat then true else false)).
Proof. apply (push_off_pop_off 1 demo_kernel (mk_cpu None 0 false true) 2 3); [done|by split|lia]. Defined.

(** [wakeup] makes runnable exactly the processes that sleep on the
    channel, except the caller, and changes nothing else: no wakeup is lost
    and no other process is disturbed. *)
Theorem wakeup_exact h s c ch :
  n_cpus s !! h = Some c → cpu_ok c → locks_free s → length (n_procs s) = Z.to_nat NPROC →
  runs (wakeup h ch) s (λ _ s', ∃ c', settle c' = settle c ∧
    s' = put_cpu h c' (with_procs (imap (λ j p,
      if bool_decide (c_proc c ≠ Some j ∧ p_state p = SLEEPING ∧ p_chan p = ch) then proc_with_state RUNNABLE p else p)
      (n_procs s)) s)).
Proof.
  intros Hc Hok Hfree Hlen. eapply runs_mono; [by apply (wakeup_spec h s c ch)|]. intros ? s' (c' & Ec & ->).
  exists c'. split; [done|]. do 2 f_equal. apply imap_ext. intros j p _. unfold woken.
  destruct (decide (c_proc c = Some j)) as [E|E]; [by rewrite bool_decide_false by tauto|].
  destruct (decide _); [by rewrite bool_decide_true by tauto|by rewrite bool_decide_false by tauto].
Qed.

Lemma wakeup_exact_witness :
  runs (wakeup 1 None) demo_kernel (λ _ s', ∃ c', settle c' = settle (mk_cpu None 0 false true) ∧
    s' = put_cpu 1 c' (with_procs (imap (λ j p,
      if bool_decide (None ≠ Some j ∧ p_state p = SLEEPING ∧ p_chan p = None) then proc_with_state RUNNABLE p else p)
      (n_procs demo_kernel)) demo_kernel)).
Proof. apply (wakeup_exact 1 demo_kernel (mk_cpu None 0 false true) None); [done|by split|exact demo_locks_free|done]. Defined.
