(* ===== verification/DiskTheorems.v ===== *)
(** * The disk driver: main theorems *)

From S2P Require Import Prelude Spinlock Riscv Mem KString Vm FsState Bio Proc ProcSpec Machine MachineSpec Virtio VirtioSpec VirtioSystem LogTheorems ProcTheorems.

(** ** A machine with one buffer and a device that handles requests at once *)

Definition demo_bus : Bus unit := {| bus_load := λ _ d, (0, d); bus_store := λ _ _ d, d |}.

(** The device reports status [st], and transfers the data if this is 0. *)
Definition demo_handle (st : Z) (i : nat) (x y : disk * kfs) : Prop :=
  match decode x.1 i with
  | Some (b, write, sector, j) => y = (finish i j st 1 x.1, if decide (st = 0) then transfer b write sector x.2 else x.2)
  | None => False
  end.

Lemma demo_device st : 0 ≤ st < 256 → virtio_device (demo_handle st).
Proof.
  intros Hst i d f d' f' b write sector j Hh E. unfold demo_handle in Hh. cbn in Hh. rewrite E in Hh. injection Hh as -> ->. exists st, 1.
  split; [done|]. split; [done|]. unfold handled. case_decide; [done|by left].
Qed.

Definition demo_buf (blockno : Z) (data : blk) : buf := mk_buf 1 1 blockno (Spinlock.initsleeplock "buffer") 1 data.

Definition demo_buf_kfs : kfs := with_bc (mk_bcache (initlock "bcache") [demo_buf 5 {[0 := 42]}] [0%nat]) demo_kfs.

Definition demo_disk_kernel : kernel :=
  mk_kernel demo_buf_kfs (demo_proc RUNNING 1 :: replicate 63 (demo_proc UNUSED 0))
    (replicate 2 (mk_cpu (Some 0%nat) 0 false true)) (Some 0%nat) 3 (initlock "nextpid") (initlock "wait_lock") 0
    (initlock "time") 0 [].

Definition demo_vdisk : disk :=
  mk_disk (0, 0, 0) (replicate 8 no_desc) (mk_virtq_avail 0 0 (replicate 8 0)) (mk_virtq_used 0 0 (replicate 8 (mk_virtq_used_elem 0 0)))
    (replicate 8 1) 0 (replicate 8 (mk_info None 0)) (replicate 8 (mk_virtio_blk_req 0 0 0)) (initlock "virtio_disk")
    (replicate 30 0).

Definition demo_machine : machine unit :=
  mk_machine demo_disk_kernel [λ _, 0] tt (mk_console (initlock "cons") ∅ 0 0 0) (mk_uart (initlock "uart") 0)
    (mk_printer (initlock "pr") 0 0) demo_vdisk 0 1 1.

Definition demo_y0 : sys unit := mk_sys demo_machine 0 [] ∅ [].

Definition run_machine {A} (r : res (A * machine unit)) : machine unit := match r with Ret (_, m) => m | _ => demo_machine end.

(** Process 0 writes the buffer, the device takes the request and handles it
    with status [st]; the process runs again, the interrupt handler looks at
    the used ring, and the process looks for the end of its request. *)
Definition demo_m1 : machine unit := run_machine (@virtio_disk_rw unit demo_bus 0 0 true demo_machine).
Definition demo_y1 : sys unit := alloc_result demo_y0 0 true 10 (RwSubmitted 0 true) demo_m1.
Definition demo_y2 : sys unit :=
  mk_sys (y_machine demo_y1) (u16 (y_seen demo_y1 + 1)) (y_taken demo_y1 ++ [0%nat]) (y_calls demo_y1) (y_trace demo_y1).
Definition demo_y3 (st : Z) : sys unit :=
  let f := y_fs demo_y2 in
  mk_sys (set_disk_fs (finish 0 0 st 1 (m_disk (y_machine demo_y2))) (if decide (st = 0) then transfer 0 true 10 f else f) (y_machine demo_y2))
    (y_seen demo_y2) [] (y_calls demo_y2) (y_trace demo_y2 ++ [Serve 0 true]).

Definition run_again (y : sys unit) : sys unit :=
  mk_sys (with_kernel (with_fs (y_fs y) demo_disk_kernel) (y_machine y)) (y_seen y) (y_taken y) (y_calls y) (y_trace y).

Definition demo_y4 (st : Z) : sys unit := run_again (demo_y3 st).
Definition demo_m5 : machine unit := run_machine (@virtio_disk_intr unit demo_bus 0 (y_machine (demo_y4 0))).
Definition demo_y5 : sys unit := mk_sys demo_m5 (y_seen (demo_y4 0)) (y_taken (demo_y4 0)) (y_calls (demo_y4 0)) (y_trace (demo_y4 0)).
Definition demo_y6 : sys unit := run_again demo_y5.
Definition demo_m7 : machine unit := run_machine (rw_check 0 0 0 (y_machine demo_y6)).
Definition demo_y7 : sys unit := wait_result demo_y6 0 true RwDone demo_m7.

Lemma demo_hart f : hart_at 0 (with_fs f demo_disk_kernel) (Some 0%nat) 0.
Proof.
  split.
  - exists (mk_cpu (Some 0%nat) 0 false true). split; [done|]. split; [split; cbn; [lia|lia]|done].
  - intros i p Hp. destruct i as [|i]; [injection Hp as <-; by split|].
    change (replicate 63 (demo_proc UNUSED 0) !! i = Some p) in Hp. apply lookup_replicate in Hp as [-> _]. by split.
  - by vm_compute.
  - intros p [= <-]. cbn [n_procs with_fs demo_disk_kernel length]. lia.
Qed.

Lemma demo_started : started demo_y0.
Proof. unfold started, unlocked. cbv zeta. ands; vm_compute; reflexivity. Qed.

Lemma demo_valid : valid_buf (bufs demo_y0) 0 10.
Proof. split; [vm_compute; lia|]. exists (demo_buf 5 {[0 := 42]}). split; [reflexivity|]. split; [cbn; lia|reflexivity]. Qed.

Lemma demo_step1 st : @step unit demo_bus (demo_handle st) demo_y0 demo_y1.
Proof.
  apply (@step_start unit demo_bus (demo_handle st) demo_y0 0 0 0 true 10 (RwSubmitted 0 true) demo_m1 eq_refl demo_valid (demo_hart _)).
  vm_compute. reflexivity.
Qed.

Lemma demo_step2 st : @step unit demo_bus (demo_handle st) demo_y1 demo_y2.
Proof. apply (@step_take unit demo_bus (demo_handle st) demo_y1 0); [vm_compute; discriminate|vm_compute; reflexivity]. Qed.

Lemma demo_decode : decode (m_disk (y_machine demo_y2)) 0 = Some (0%nat, true, 10, 0%nat).
Proof. vm_compute. reflexivity. Qed.

Lemma demo_step3 st : @step unit demo_bus (demo_handle st) demo_y2 (demo_y3 st).
Proof.
  pose proof (@step_serve unit demo_bus (demo_handle st) demo_y2 0 [] (finish 0 0 st 1 (m_disk (y_machine demo_y2)))
    (if decide (st = 0) then transfer 0 true 10 (y_fs demo_y2) else y_fs demo_y2)) as H.
  rewrite demo_decode in H. apply H; [by vm_compute|]. unfold demo_handle. cbn [fst snd]. by rewrite demo_decode.
Qed.

Lemma run_again_step st y : @step unit demo_bus (demo_handle st) y (run_again y).
Proof. by apply step_kernel. Qed.

Lemma demo_reached2 st : @reached unit demo_bus (demo_handle st) demo_y2.
Proof. eapply reached_step; [eapply reached_step; [exact (reached_start _ _ demo_started)|apply demo_step1]|apply demo_step2]. Qed.

Lemma demo_reached st : @reached unit demo_bus (demo_handle st) (demo_y4 st).
Proof. eapply reached_step; [|apply run_again_step]. eapply reached_step; [apply demo_reached2|apply demo_step3]. Qed.

Definition demo_path (k : nat) : sys unit := nth k [demo_y0; demo_y1; demo_y2; demo_y3 0; demo_y4 0; demo_y5; demo_y6] demo_y7.

Lemma demo_is_path : @path unit demo_bus (demo_handle 0) demo_path 7.
Proof.
  split; [exact demo_started|]. intros k Hk.
  destruct k as [|[|[|[|[|[|[|k]]]]]]]; [apply demo_step1|apply demo_step2|apply demo_step3|apply run_again_step| |apply run_again_step| |lia].
  - apply (@step_intr unit demo_bus (demo_handle 0) (demo_y4 0) 0 (Some 0%nat) 0 demo_m5 (demo_hart _)); [lia|]. vm_compute. reflexivity.
  - apply (@step_check unit demo_bus (demo_handle 0) demo_y6 0 0 0 true 0 RwDone demo_m7 eq_refl (demo_hart _)). vm_compute. reflexivity.
Qed.

(** ** Theorems *)

Section theorems.
Context {D : Type} `{Bus D}.

(** C9. In every state that processes, disk interrupts and a virtio device can
    reach, no part of the driver faults, waits or runs on forever, and none
    panics but for a failed request: a process can start a request for a
    buffer (finding descriptors or going to sleep), look again for
    descriptors, look for the end of its request and free the chain of
    descriptors, and the interrupt handler gets through all finished requests
    if the device reports no error for them, and panics if it reports one. *)
Theorem disk_driver_runs (handle : nat → disk * kfs → disk * kfs → Prop) (y : sys D) :
  virtio_device handle → reached handle y →
  (∀ h p b write sector, y_calls y !! b = None → valid_buf (bufs y) b sector → ready y h p →
     ∃ r m, virtio_disk_rw h b write (y_machine y) = Ret (r, m)) ∧
  (∀ h p b write sector, y_calls y !! b = Some (NoDesc write sector) → ready y h p →
     ∃ r m, rw_again h b write sector (y_machine y) = Ret (r, m)) ∧
  (∀ h p b write i0, y_calls y !! b = Some (InFlight write i0) → ready y h p →
     ∃ r m, rw_check h b i0 (y_machine y) = Ret (r, m)) ∧
  (∀ h me n, hart_at h (m_kernel (y_machine y)) me n → 0 ≤ n →
     if no_errors (m_disk (y_machine y)) then ∃ m, virtio_disk_intr h (y_machine y) = Ret (tt, m)
     else virtio_disk_intr h (y_machine y) = Panic "virtio_disk_intr status").
Proof.
  intros Hdev Hr. destruct (reached_inv handle y Hdev Hr) as [F Hy]. ands.
  - intros h p b write sector Hc Hv Hp. rewrite (virtio_disk_rw_again y h b write sector Hv).
    destruct (rw_again_runs y F h p b write sector Hy (or_introl Hc) Hv Hp) as (r & m & E & _). eauto.
  - intros h p b write sector Hc Hp. destruct (rw_again_runs y F h p b write sector Hy (or_intror Hc)) as (r & m & E & _); [|done|eauto].
    destruct Hy as (O & U & _ & [_ _ C3 _]). by apply (C3 b write).
  - intros h p b write i0 Hc Hp. destruct (rw_check_runs y F h p b write i0 Hy Hc Hp) as (r & m & E & _). eauto.
  - intros h me n Hk Hn. pose proof (intr_inv handle y F h me n Hy Hk Hn) as Hi. destruct (no_errors _); [|done].
    destruct Hi as ([] & m & E & _). eauto.
Qed.

(** C5. When a call of [virtio_disk_rw] for a buffer returns (the event
    [Complete]), the transfer it was for has been performed, once: in the
    steps from the state [c] in which the call began, its request was
    submitted and the device served it once, in state [k], and changed the
    disk and the buffer as the contract [Bio.virtio_disk_rw] of the buffer
    cache says; from the beginning of the call to this moment, and from then
    on until the call returned, nothing else has changed the buffer.  The
    device may report errors and process steps, device steps and interrupts
    interleave in any order. *)
Theorem disk_request_performed (handle : nat → disk * kfs → disk * kfs → Prop) (p : nat → sys D) n b w ev :
  virtio_device handle → path handle p (S n) → y_trace (p (S n)) = y_trace (p n) ++ ev → Complete b w ∈ ev →
  ∃ c k, (c < k < n)%nat ∧ began p b w c ∧ in_call p b c n ∧
    events_of p b c (S n) [Submit b w; Serve b w; Complete b w] ∧ same_buf_on p b c k ∧
    Bio.virtio_disk_rw b w (y_fs (p k)) = Ret (tt, y_fs (p (S k))) ∧ same_buf_on p b (S k) (S n).
Proof.
  intros Hdev Hp Etr Hin. destruct (path_completes handle p n b w ev Hdev Hp Etr Hin) as (c & k & Hkn & Hb & Hc & He & Hk & H1 & H2 & Hrw).
  exists c, k. ands; try done; [lia|]. by apply Hrw.
Qed.

(** C13. Every request is served exactly once before it completes: the events
    of each buffer are submissions, services and completions in turn, of the
    same direction, and a buffer without a call in progress has no request
    left. *)
Theorem disk_requests_once (handle : nat → disk * kfs → disk * kfs → Prop) (y : sys D) b :
  virtio_device handle → reached handle y →
  ∃ st, protocol b (y_trace y) = Some st ∧ (y_calls y !! b = None → st = PIdle).
Proof.
  intros Hdev Hr. destruct (reached_inv handle y Hdev Hr) as (F & O & U & _ & [_ _ _ C4]). rewrite C4.
  eexists. split; [done|]. by intros ->.
Qed.
End theorems.

Lemma disk_driver_runs_witness :
  (∃ m, @virtio_disk_intr unit demo_bus 0 (y_machine (demo_y4 0)) = Ret (tt, m)) ∧
  @virtio_disk_intr unit demo_bus 0 (y_machine (demo_y4 1)) = Panic "virtio_disk_intr status".
Proof.
  split.
  - pose proof (proj2 (proj2 (proj2 (@disk_driver_runs unit demo_bus (demo_handle 0) (demo_y4 0) (demo_device 0 ltac:(lia)) (demo_reached 0))))
      0%nat (Some 0%nat) 0 (demo_hart _) ltac:(lia)) as H.
    replace (no_errors _) with true in H by (vm_compute; reflexivity). exact H.
  - pose proof (proj2 (proj2 (proj2 (@disk_driver_runs unit demo_bus (demo_handle 1) (demo_y4 1) (demo_device 1 ltac:(lia)) (demo_reached 1))))
      0%nat (Some 0%nat) 0 (demo_hart _) ltac:(lia)) as H.
    replace (no_errors _) with false in H by (vm_compute; reflexivity). exact H.
Defined.

Lemma disk_request_performed_witness : ∃ c k, (c < k < 6)%nat ∧ @began unit demo_bus demo_path 0 true c ∧ in_call demo_path 0 c 6 ∧
  events_of demo_path 0 c 7 [Submit 0 true; Serve 0 true; Complete 0 true] ∧ same_buf_on demo_path 0 c k ∧
  Bio.virtio_disk_rw 0 true (y_fs (demo_path k)) = Ret (tt, y_fs (demo_path (S k))) ∧ same_buf_on demo_path 0 (S k) 7.
Proof.
  apply (@disk_request_performed unit demo_bus (demo_handle 0) demo_path 6 0 true [Complete 0 true] (demo_device 0 ltac:(lia)) demo_is_path).
  - vm_compute. reflexivity.
  - left.
Defined.

Lemma disk_requests_once_witness : ∃ st, protocol 0 (y_trace demo_y2) = Some st ∧ (y_calls demo_y2 !! 0%nat = None → st = PIdle).
Proof. apply (@disk_requests_once unit demo_bus (demo_handle 0) demo_y2 0 (demo_device 0 ltac:(lia)) (demo_reached2 0)). Defined.
