(* ===== verification/ConsoleTheorems.v ===== *)
(** * Console and formatted output: main theorems *)

From S2P Require Import Prelude Spinlock Riscv Mem KString Vm VmSpec VmCopy FsState Bio Log Fs Pipe PipeSpec Proc ProcSpec Printf PrintfSpec Machine MachineSpec Console ConsoleSpec LogTheorems VmTheorems ProcTheorems.

(** ** Formatted output *)

(** C36. [printint], of the kernel and of the user library, prints the number: for
    every 64-bit argument the local buffer of 20 characters suffices, the
    characters read back as the signed (or, without [sign], the unsigned)
    number, and there are no leading zeros. *)
Theorem printint_prints xx base sign :
  base = 10 ∨ base = 16 → - 2 ^ 63 ≤ xx < 2 ^ 63 →
  (∃ l, printint digits xx base sign = Ret l ∧ (length l ≤ 20)%nat ∧
     signed_value base l = (if sign then xx else u64 xx) ∧ (head l = Some (zchar "0") → xx = 0)) ∧
  (∃ l, printint User.digits xx base sign = Ret l ∧ User.printint User.digits xx base sign = Ret (User.putc <$> l) ∧ (length l ≤ 20)%nat ∧
     signed_value base l = (if sign then xx else u64 xx) ∧ (head l = Some (zchar "0") → xx = 0)).
Proof.
  intros Hb Hx. split.
  - exact (printint_spec digits xx base sign kernel_digits Hb Hx).
  - destruct (printint_spec User.digits xx base sign user_digits Hb Hx) as (l & E & H). exists l. rewrite user_printint, E. split; [done|]. by split.
Qed.

Lemma printint_prints_witness :
  (∃ l, printint digits (- 2 ^ 63) 10 true = Ret l ∧ (length l ≤ 20)%nat ∧
     signed_value 10 l = (if true then - 2 ^ 63 else u64 (- 2 ^ 63)) ∧ (head l = Some (zchar "0") → - 2 ^ 63 = 0)) ∧
  (∃ l, printint User.digits (- 2 ^ 63) 10 true = Ret l ∧ User.printint User.digits (- 2 ^ 63) 10 true = Ret (User.putc <$> l) ∧ (length l ≤ 20)%nat ∧
     signed_value 10 l = (if true then - 2 ^ 63 else u64 (- 2 ^ 63)) ∧ (head l = Some (zchar "0") → - 2 ^ 63 = 0)).
Proof. apply (printint_prints (- 2 ^ 63) 10 true); [left; reflexivity|lia]. Defined.



(** ** A machine with a UART that is always idle *)

(** The state of the UART is the list of bytes sent. *)
Definition demo_uart : Bus (list Z) :=
  {| bus_load := λ _ d, (LSR_TX_IDLE, d); bus_store := λ a v d, if a =? Reg THR then d ++ [v] else d |}.

Lemma demo_uart_works : @uart_works (list Z) demo_uart id 1.
Proof.
  split.
  - done.
  - done.
  - intros d. exists 0%nat. split; [lia|]. done.
Qed.

Definition demo_reader : proc := mk_proc (initlock "proc") RUNNING None 0 0 1 None 0 8192 demo_root 0 [] [] None [].

Definition demo_tty_kernel : kernel :=
  mk_kernel (with_vm (demo_vmstate demo_memory) demo_kfs) (demo_reader :: replicate 63 (demo_proc UNUSED 0))
    (replicate 2 (mk_cpu (Some 0%nat) 0 false true)) (Some 0%nat) 3 (initlock "nextpid") (initlock "wait_lock") 0
    (initlock "time") 0 [].

(** The line "ls" is finished and can be read, "x" can still be edited; the indices are
    about to wrap around. *)
Definition demo_cons : console :=
  mk_console (initlock "cons") (<[126 := 108]> (<[127 := 115]> (<[0 := 10]> (<[1 := 120]> ∅)))) (2 ^ 32 - 2) 1 2.

Definition demo_tty : machine (list Z) :=
  mk_machine demo_tty_kernel [λ _, 0] [] demo_cons (mk_uart (initlock "uart") 0) (mk_printer (initlock "pr") 0 0)
    (mk_disk (0, 0, 0) [] (mk_virtq_avail 0 0 []) (mk_virtq_used 0 0 []) [] 0 [] [] (initlock "virtio_disk") []) 0 1 1.

Lemma demo_tty_hart : hart_at 0 demo_tty_kernel (Some 0%nat) 0.
Proof.
  split.
  - exists (mk_cpu (Some 0%nat) 0 false true). split; [done|]. split; [split; cbn; [lia|lia]|done].
  - intros i p Hp. destruct i as [|i]; [injection Hp as <-; by split|].
    change (replicate 63 (demo_proc UNUSED 0) !! i = Some p) in Hp. apply lookup_replicate in Hp as [-> _]. by split.
  - by vm_compute.
  - intros p [= <-]. vm_compute. lia.
Qed.

Lemma demo_cons_ok : cons_ok demo_cons [108; 115; 10] [120].
Proof.
  split; cbn; [lia|reflexivity|reflexivity|unfold INPUT_BUF_SIZE; lia| |vm_compute; intros H; by apply list_elem_of_singleton in H].
  intros k x Hk. destruct k as [|[|[|[|k]]]]; try discriminate Hk; injection Hk as <-; reflexivity.
Qed.

(** ** The console *)

Section console.
Context {D : Type} `{Bus D}.

(** C14. A character from the keyboard edits the line exactly as documented:
    control-U erases the line, control-H and delete its last character, other
    characters are appended (a carriage return as a newline), and a newline, a
    control-D or a full buffer hands the line to the readers and wakes all of
    them up; the echo of the character is sent to the terminal, characters
    beyond 128 that nobody read are dropped, and nothing of a finished line is
    ever lost, also when the indices of the ring buffer wrap around. *)
Theorem consoleintr_edits (sent : D → list Z) spin h (s : machine D) q line me k c :
  uart_works sent spin → hart_at h (m_kernel s) me k → 0 ≤ k → unlocked (cs_lock (m_cons s)) → unlocked (pr_lock (m_printer s)) →
  panicking (m_printer s) = 0 → panicked (m_printer s) = 0 → cons_ok (m_cons s) q line → 0 ≤ c < 256 →
  runs (consoleintr h spin c) s (λ _ s',
    let '(q', line') := type_char c q line in
    cons_ok (m_cons s') q' line' ∧ unlocked (cs_lock (m_cons s')) ∧
    (q' ≠ q → all_awake (m_kernel s') me (Some CCons)) ∧
    (∃ text, sent (m_dev s') = sent (m_dev s) ++ text ∧ (c ≠ C (zchar "P") → text = echo c q line)) ∧
    hart_at h (m_kernel s') me k ∧ calm (m_kernel s') = calm (m_kernel s)).
Proof.
  intros Hu Hk Hk0 Hl Hpl E1 E2 Hok Hc.
  eapply runs_mono; [apply (consoleintr_runs sent spin Hu h s (m_cons s) q line (sent (m_dev s)) me k (calm (m_kernel s), m_printer s)); done|].
  intros _ s' (co' & text & (F1 & F2 & Hk' & F3 & F4) & Ht & Hok' & El & Haw). unfold commits in Haw.
  destruct (type_char c q line) as [q' line']. cbn [fst snd] in *. subst co'. split; [done|]. split; [by rewrite El|].
  split; [intros Hne; apply Haw; by apply bool_decide_true|]. split; [|done]. exists text. split; [done|].
  intros Hne. by destruct Ht.
Qed.

(** C15. A read of the console delivers at most one finished line: the characters up
    to and including the newline, up to [n] of them, in order, to the user's
    buffer and nothing outside it; a control-D ends the read, giving an empty result (end of
    file) only to a read that has not got anything yet and staying in the
    queue otherwise; a read that finds no finished line goes to sleep and
    leaves the console unlocked. *)
Theorem consoleread_delivers h (s : machine D) T p pr q line dst n :
  hart_at h (m_kernel s) (Some p) 0 → unlocked (cs_lock (m_cons s)) → cons_ok (m_cons s) q line →
  n_procs (m_kernel s) !! p = Some pr → p_killed pr = 0 → 0 ≤ n < 2 ^ 31 → 0 ≤ dst →
  user_ok (view h pr (n_fs (m_kernel s))) T PTE_W dst n →
  runs (consoleread h true dst n) s (λ r s',
    let '(l, q', complete) := read_line true (Z.to_nat n) q in
    (if complete then r = Got (Z.of_nat (length l))
     else ∃ b, r = ReadAsleep (dst + Z.of_nat (length l)) (n - Z.of_nat (length l)) b) ∧
    unlocked (cs_lock (m_cons s')) ∧ cons_ok (m_cons s') q' line ∧
    stored (v_mem (k_vm (n_fs (m_kernel s)))) T dst l (v_mem (k_vm (n_fs (m_kernel s'))))).
Proof.
  intros Hk Hl Hok Hp Hkill Hn Hd Hu. unfold consoleread. apply runs_bind. eapply (runs_acquire_m h cons_lock); [done|done|].
  intros k1 Hk1 Ek1. set (s1 := with_kernel k1 _). set (V := view h pr (n_fs (m_kernel s))) in *.
  set (m := v_mem (k_vm (n_fs (m_kernel s)))). assert (EV : vm_at V m = V) by done. unfold consoleread_from. unwrap.
  eapply runs_mono; [apply (consoleread_loop_runs h p pr V T n _ s1 (cons_with_lock (held_by h (cs_lock (m_cons s))) (m_cons s)) q line
    (cs_lock (m_cons s)) m dst n)|].
  - destruct (calm_proc _ _ p pr (eq_sym Ek1) Hp) as (p1 & Hp1 & Ep1). split; [done|]. split; [done|]. split; [by exists p1|].
    cbn. injection Ek1 as -> _. done.
  - by apply cons_ok_lock.
  - done.
  - done.
  - done.
  - lia.
  - lia.
  - lia.
  - by rewrite EV.
  - done.
  - intros r s'. unfold read_result. rewrite Z.eqb_refl. destruct (read_line true (Z.to_nat n) q) as [[l q'] complete].
    intros (Hr & El & Hok' & m' & Hv & Hst). split; [destruct complete; [rewrite Hr; f_equal; lia|done]|]. split; [by rewrite El|]. split; [done|].
    apply (f_equal (λ f, v_mem (k_vm f))) in Hv. cbn in Hv. by rewrite Hv.
Qed.
End console.

Lemma consoleintr_edits_witness :
  runs (@consoleintr (list Z) demo_uart 0 1 13) demo_tty (λ _ s',
    let '(q', line') := type_char 13 [108; 115; 10] [120] in
    cons_ok (m_cons s') q' line' ∧ unlocked (cs_lock (m_cons s')) ∧
    (q' ≠ [108; 115; 10] → all_awake (m_kernel s') (Some 0%nat) (Some CCons)) ∧
    (∃ text, id (m_dev s') = id (m_dev demo_tty) ++ text ∧ (13 ≠ C (zchar "P") → text = echo 13 [108; 115; 10] [120])) ∧
    hart_at 0 (m_kernel s') (Some 0%nat) 0 ∧ calm (m_kernel s') = calm (m_kernel demo_tty)).
Proof.
  apply (@consoleintr_edits (list Z) demo_uart id 1 0 demo_tty [108; 115; 10] [120] (Some 0%nat) 0 13);
    [exact demo_uart_works|exact demo_tty_hart|lia|split; reflexivity|split; reflexivity|reflexivity|reflexivity|exact demo_cons_ok|lia].
Defined.

Lemma consoleread_delivers_witness :
  runs (@consoleread (list Z) 0 true 4094 4) demo_tty (λ r s',
    let '(l, q', complete) := read_line true (Z.to_nat 4) [108; 115; 10] in
    (if complete then r = Got (Z.of_nat (length l))
     else ∃ b, r = ReadAsleep (4094 + Z.of_nat (length l)) (4 - Z.of_nat (length l)) b) ∧
    unlocked (cs_lock (m_cons s')) ∧ cons_ok (m_cons s') q' [120] ∧
    stored (v_mem (k_vm (n_fs (m_kernel demo_tty)))) demo_tables 4094 l (v_mem (k_vm (n_fs (m_kernel s'))))).
Proof.
  apply (@consoleread_delivers (list Z) 0 demo_tty demo_tables 0 demo_reader [108; 115; 10] [120] 4094 4);
    [exact demo_tty_hart|split; reflexivity|exact demo_cons_ok|reflexivity|reflexivity|lia|lia|].
  split; [exact (proj1 demo_rep)|exact demo_range].
Defined.
