(* ===== verification/TrapTheorems.v ===== *)
(** * Traps, system calls and context switches: main theorems *)

From stdpp Require Import functions.
From S2P Require Import Prelude Spinlock Riscv Mem Buddy BuddyIndex Kalloc BuddyBlocks BuddyAlloc BuddyInit BlockAlloc Slab KString Vm VmSpec VmCopy FsState Bio Log Fs Pipe PipeSpec SysFile Proc ProcSpec Machine MachineSpec Asm AsmSpec Console ConsoleSpec Syscall Trap TrapSpec BuddyTheorems LogTheorems VmTheorems ProcTheorems DiskTheorems.

(** ** A process that traps

    Its page table has the three pages [a], [b], [c]; the trapframe is the
    page [tf]. *)

Definition demo_usertrap : Z := KERNBASE + 0x2000.

Definition demo_user_tables (a b c : Z) : gmap (list Z) Z := <[[255; 511] := c]> (<[[255] := b]> {[ [] := a ]}).

Definition demo_user_memory (a b c tf : Z) : gmap Z Z :=
  let m := st64 ∅ (a + 8 * 255) (Z.lor (PA2PTE b) PTE_V) in
  let m := st64 m (b + 8 * 511) (Z.lor (PA2PTE c) PTE_V) in
  let m := st64 m (c + 8 * PX 0 TRAPFRAME) (new_pte TRAPFRAME tf (Z.lor PTE_R PTE_W) TRAPFRAME) in
  st64 m (tf + 16) demo_usertrap.

Lemma table_add m T root k p i q :
  pt_rep m T root → T !! k = Some p → (length k < 2)%nat → 0 ≤ i < 512 → T !! (k ++ [i]) = None →
  is_page q → (∀ k' p', T !! k' = Some p' → p' ≠ q) → (∀ b, q ≤ b < q + PGSIZE → bt m b = 0) →
  pt_rep (st64 m (p + 8 * i) (Z.lor (PA2PTE q) PTE_V)) (<[k ++ [i] := q]> T) root.
Proof.
  intros R Hk Hl Hi Hn Hq Hf Hz. apply (pt_rep_add m m T root k p i q); [done..|].
  intros b. case_decide as Hb; [by apply Hz|done].
Qed.

Section demo.
Context (a b c tf : Z).
Context (Ha : is_page a) (Hb : is_page b) (Hc : is_page c) (Htf : is_page tf).
Context (Hd : NoDup [a; b; c; tf]).
Abbreviation T := (demo_user_tables a b c).

Lemma demo_distinct : a ≠ b ∧ a ≠ c ∧ a ≠ tf ∧ b ≠ c ∧ b ≠ tf ∧ c ≠ tf.
Proof. revert Hd. rewrite !list.NoDup_cons, !not_elem_of_cons. naive_solver. Qed.

Lemma demo_user_rep :
  pt_rep (demo_user_memory a b c tf) T a ∧ apart_from_tables T [(tf, PGSIZE)] ∧
  ∀ va, 0 ≤ va < MAXVA → mapping (demo_user_memory a b c tf) T va =
    if decide (va / PGSIZE = TRAPFRAME / PGSIZE) then Some (new_pte TRAPFRAME tf (Z.lor PTE_R PTE_W) TRAPFRAME) else None.
Proof.
  pose proof demo_distinct as (N1 & N2 & N3 & N4 & N5 & N6).
  set (m1 := st64 ∅ (a + 8 * 255) (Z.lor (PA2PTE b) PTE_V)). set (m2 := st64 m1 (b + 8 * 511) (Z.lor (PA2PTE c) PTE_V)).
  assert (R0 : pt_rep ∅ {[ [] := a ]} a) by (by apply root_only).
  assert (R1 : pt_rep m1 (<[[255] := b]> {[ [] := a ]}) a).
  { apply (table_add ∅ _ a [] a 255 b R0); [done|cbn; lia|done|done|done| |done]. by intros k p [_ <-]%lookup_singleton_Some. }
  assert (R2 : pt_rep m2 T a).
  { apply (table_add m1 _ a [255] b 511 c R1); [done|cbn; lia|done|done|done|..].
    - by intros k p [[_ <-]|[_ [_ <-]%lookup_singleton_Some]]%lookup_insert_Some.
    - intros x Hx. unfold m1. rewrite bt_st64_ne; [done|]. destruct (pages_apart a c Ha Hc N2); unfold PGSIZE in *; lia. }
  assert (HT : apart_from_tables T [(tf, PGSIZE)]).
  { intros k p Hk. forall_list. apply pages_apart; [by apply (pr_page _ _ _ R2 k)|done|].
    unfold demo_user_tables in Hk. by apply lookup_insert_Some in Hk as [[_ <-]|[_ [[_ <-]|[_ [_ <-]%lookup_singleton_Some]]%lookup_insert_Some]]. }
  set (e := new_pte TRAPFRAME tf (Z.lor PTE_R PTE_W) TRAPFRAME).
  assert (He : 0 ≤ e < 2 ^ 64).
  { unfold e, new_pte. rewrite <-Z.lor_assoc. apply PA2PTE_range; [|done]. replace (PGROUNDDOWN TRAPFRAME - TRAPFRAME) with 0 by done. rewrite Z.add_0_r. by apply is_page_56. }
  destruct (pt_rep_leaf a m2 T TRAPFRAME c e R2 eq_refl ltac:(done) He) as [R3 M3].
  set (m3 := st64 m2 (c + 8 * PX 0 TRAPFRAME) e) in *.
  destruct (agree_tables [(tf, PGSIZE)] m3 (st64 m3 (tf + 16) demo_usertrap) T a R3 HT) as [R4 M4].
  { unfold PGSIZE. agree. }
  split; [exact R4|]. split; [exact HT|]. intros va Hva. change (demo_user_memory a b c tf) with (st64 m3 (tf + 16) demo_usertrap).
  rewrite M4, M3 by done. case_decide; [unfold e, new_pte; by rewrite has_lor|].
  unfold mapping. destruct (T !! [PX 2 va; PX 1 va]) as [p|] eqn:E; [|done]. cbv zeta.
  unfold demo_user_tables in E. apply lookup_insert_Some in E as [[_ <-]|[_ [[E _]|[_ [E _]%lookup_singleton_Some]]%lookup_insert_Some]]; [|done|done].
  rewrite (ldn_bt_zero 8); [done|]. intros x Hx. pose proof (PX_range 0 va ltac:(lia)). unfold m2, m1.
  rewrite !bt_st64_ne; [done|destruct (pages_apart a c Ha Hc N2)|destruct (pages_apart b c Hb Hc N4)]; unfold PGSIZE in *; cbn in Hx; lia.
Qed.

Lemma demo_trap_word : ld64 (demo_user_memory a b c tf) (tf + 16) = demo_usertrap.
Proof. by apply ld64_st64. Qed.
End demo.

(** The process runs on hart 0; [t] are the free blocks, [f] the control
    registers at the trap and [regs] the registers of the user. *)
Definition demo_trap_proc (root tf sz : Z) : proc := mk_proc (initlock "proc") RUNNING None 0 0 7 None KERNBASE sz root tf [] [] None [].

Definition demo_trap_kernel (kend : Z) (t : mem_tree) (m : gmap Z Z) (p : proc) : kernel :=
  mk_kernel (with_vm (mk_vmstate 0%nat kend 0 0 m t 0 0 0 0) demo_kfs) (p :: replicate 63 (demo_proc UNUSED 0))
    (replicate 2 (mk_cpu (Some 0%nat) 0 false false)) (Some 0%nat) 8 (initlock "nextpid") (initlock "wait_lock") 0
    (initlock "time") 0 [].

Definition demo_trap_machine (kend : Z) (t : mem_tree) (m : gmap Z Z) (p : proc) : machine unit :=
  mk_machine (demo_trap_kernel kend t m p) [λ _, 0] tt (mk_console (initlock "cons") ∅ 0 0 0) (mk_uart (initlock "uart") 0)
    (mk_printer (initlock "pr") 0 0) demo_vdisk 0 0 1.

(** User registers [1000 + k], and the number of a system call in [a7]. *)
Definition demo_user_regs (a7 : Z) (r : Reg.reg) : Z :=
  if decide (r = Reg.a7) then a7 else 1000 + trapframe_offset r.

Definition demo_user_csrs (root scause stval : Z) (c : csr) : Z :=
  match c with
  | SATP => MAKE_SATP root
  | SCAUSE => scause
  | STVAL => stval
  | SEPC => 0x123
  | _ => 0
  end.

Definition demo_user_hart (a b c tf a7 scause stval : Z) : hart :=
  mk_hart (demo_user_regs a7) (demo_user_csrs a scause stval) (demo_user_memory a b c tf).

Lemma demo_from_user a b c tf kend t sz a7 scause stval :
  is_page a → is_page b → is_page c → is_page tf → NoDup [a; b; c; tf] → 0 ≤ a7 < 2 ^ 64 →
  let p := demo_trap_proc a tf sz in
  let s := demo_trap_machine kend t (demo_user_memory a b c tf) p in
  from_user 0 demo_usertrap 0 p (view 0 p (n_fs (m_kernel s))) (demo_user_tables a b c) (demo_user_hart a b c tf a7 scause stval) s.
Proof.
  intros Ha Hb Hc Ht Hd H7 p s. destruct (demo_user_rep a b c tf Ha Hb Hc Ht Hd) as (R & A & M). split; cbn [x_mem x_csrs x_regs demo_user_hart].
  - split; [|split; [by exists p|done]]. split.
    + exists (mk_cpu (Some 0%nat) 0 false false). split; [done|]. split; [split; cbn; lia|done].
    + intros i q Hq. destruct i as [|i]; [injection Hq as <-; by split|].
      change (replicate 63 (demo_proc UNUSED 0) !! i = Some q) in Hq. apply lookup_replicate in Hq as [-> _]. by split.
    + by vm_compute.
    + intros q [= <-]. vm_compute. lia.
  - by eexists.
  - intros r. cbn. unfold demo_user_regs. case_decide; [done|]. destruct r; cbn; lia.
  - done.
  - done.
  - done.
  - exact R.
  - exact Ht.
  - exact A.
  - by rewrite M by done.
  - apply demo_trap_word.
  - done.
Qed.

(** Pages of a machine whose kernel ends sixteen pages before the end of
    RAM. *)
Definition small_end : Z := PHYSTOP - 16 * PGSIZE.

Lemma small_ram : KERNBASE ≤ small_end ≤ PHYSTOP.
Proof. unfold small_end, PHYSTOP, PGSIZE. lia. Qed.

Lemma small_first_page : first_page small_end = 32752.
Proof. reflexivity. Qed.

(** One of the sixteen pages is not in a short list. *)
Lemma small_unused (l : list positive) : (length l < 16)%nat → ∃ q, (q ∉ l) ∧ 65520 ≤ Zpos q < 65536.
Proof.
  intros Hl. set (all := (λ k, Z.to_pos (65520 + Z.of_nat k)) <$> seq 0 16).
  destruct (decide (Forall (λ q, q ∈ l) all)) as [Hall|Hno].
  - assert (NoDup all) as Hd by (by apply (bool_decide_unpack (NoDup all)); vm_compute).
    assert (all ⊆+ l) as Hs by (apply NoDup_submseteq; [done|]; intros q; by apply (proj1 (list.Forall_forall _ _) Hall)).
    apply submseteq_length in Hs. change (length all) with 16%nat in Hs. lia.
  - apply not_Forall_Exists, list.Exists_exists in Hno as (q & Hq & Hn); [|apply _]. exists q. split; [done|].
    apply list_elem_of_fmap in Hq as (k & -> & Hk). apply elem_of_seq in Hk. lia.
Qed.

(** A page is left as long as fewer than sixteen are in use. *)
Lemma small_alloc s (l : list positive) :
  blocks_inv (tree s) (list_to_set l ∪ reserved (first_page small_end)) → unlocked (buddy_lock s) → Forall leaf l → (length l < 16)%nat →
  ∃ q t', leaf q ∧ (q ∉ l) ∧ buddy_kalloc 0 0 s = Ret (block_addr q, with_tree t' s) ∧
    blocks_inv t' (list_to_set (q :: l) ∪ reserved (first_page small_end)).
Proof.
  intros Hb Hlk Hl Hlen. destruct (buddy_kalloc_blocks 0 s _ Hb Hlk 0) as [(q & t' & Hlv & Hk & Hb' & Hd)|[_ Hall]]; [lia|..].
  - assert (leaf q) as Hlf by by apply leaf_level. exists q, t'. split; [done|]. split; [|split; [done|by rewrite list_to_set_cons, <-union_assoc_L]].
    intros Hin. apply (Hd q) with (x := block_addr q); [set_solver|]. by split; apply block_addr_in, node_level; lia.
  - exfalso. destruct (small_unused l Hlen) as (q & Hq & Hr). destruct (Hall q) as (a & x & Ha & Hxa & Hx); [apply leaf_level; unfold leaf; lia|].
    assert (leaf q) as Hlq by (unfold leaf; lia). assert (leaf a) as Hla.
    { apply elem_of_union in Ha as [Ha%elem_of_list_to_set|Ha]; [by apply (proj1 (list.Forall_forall _ _) Hl)|].
      apply elem_of_reserved in Ha. rewrite small_first_page in Ha. unfold leaf. lia. }
    apply leaf_block in Hxa, Hx; [|done..]. assert (a = q) as -> by (unfold page_addr, PGSIZE, leaf in *; lia).
    apply elem_of_union in Ha as [Ha%elem_of_list_to_set|Ha]; [done|]. apply elem_of_reserved in Ha. rewrite small_first_page in Ha. lia.
Qed.

Lemma small_pages n : (n ≤ 16)%nat →
  ∃ s l, length l = n ∧ NoDup l ∧ Forall leaf l ∧ unlocked (buddy_lock s) ∧
    blocks_inv (tree s) (list_to_set l ∪ reserved (first_page small_end)) ∧ reachable 0 small_end (s, list_to_set (node_block <$> l)).
Proof.
  induction n as [|n IH]; intros Hn.
  - destruct (buddy_init_blocks 0 small_end (proj1 small_ram) boot (proj2 small_ram)) as (s & Hi & Hb & Hlk).
    exists s, []. ands; [done|apply base.NoDup_nil_2|by apply List.Forall_nil|done|by rewrite list_to_set_nil, union_empty_l_L|by eapply reach_init].
  - destruct IH as (s & l & Hlen & Hd & Hl & Hlk & Hb & Hr); [lia|].
    destruct (small_alloc s l Hb Hlk Hl ltac:(lia)) as (q & t' & Hq & Hnq & Hk & Hb'). exists (with_tree t' s), (q :: l).
    ands; [cbn; lia|by apply list.NoDup_cons|by apply List.Forall_cons|done|done|].
    pose proof (proj1 (leaf_level q) Hq) as Hlv. rewrite fmap_cons, list_to_set_cons. eapply reach_step; [exact Hr|].
    assert (node_block q = (block_addr q, 0)) as -> by (unfold node_block; by rewrite Hlv).
    eapply step_alloc; [lia|exact Hk|]. pose proof (block_addr_bounds q (proj2 (node_level q) ltac:(lia))) as [Hk' _]. unfold KERNBASE in Hk'. lia.
Qed.

(** ** System calls and page faults *)

Section user.
Context {D : Type} `{Bus D} (h spin : nat) (kernelvec usertrap_fn uservec_offset : Z).
Context (symbol : string → Z) (pc : list instr → Z) (junk : Reg.reg → Z).

(** C6. The system call [getpid], from the [ecall] of the user to the next user
    instruction, through [uservec], [usertrap], [syscall], [sys_getpid],
    [prepare_return] and [userret]: the process goes on after the [ecall]
    with its process number in [a0], every other register as it was, its own
    page table, and no memory changed outside its trapframe. *)
Theorem getpid_system_call forkret caches_origin raw_caches_lock mycpu_addr cache_dtor_fn name_buf lit call_fn devsw_read devsw_write i pr V T x (s : machine D) :
  from_user h usertrap_fn i pr V T x s → x_csrs x SCAUSE = 8 → x_regs x Reg.a7 = 11 → 0 ≤ p_pid pr < 2 ^ 64 →
  let the_syscall := syscall h forkret caches_origin raw_caches_lock mycpu_addr cache_dtor_fn name_buf lit call_fn devsw_read devsw_write in
  ∃ x', exec symbol pc (c_call h usertrap_fn (usertrap h spin kernelvec usertrap_fn uservec_offset the_syscall) junk s) trampoline x =
      Ret (Trap_returned (u64 (x_csrs x SEPC + 4)), x') ∧
    (∀ r, r ≠ Reg.zero → x_regs x' r = if decide (r = Reg.a0) then p_pid pr else x_regs x r) ∧
    x_csrs x' SATP = x_csrs x SATP ∧ agree_except [(p_trapframe pr, PGSIZE)] (x_mem x) (x_mem x').
Proof.
  intros Hx Hc H7 Hpid the_syscall. apply (system_call_returns h spin kernelvec usertrap_fn uservec_offset the_syscall symbol pc junk i pr V T); [done|done|done|].
  pose proof (fu_page _ _ _ _ _ _ _ _ Hx) as Hpg.
  intros k m Hw Hregs. unfold the_syscall. eapply (syscall_getpid h i pr V Hpg); [exact Hw|etransitivity; [exact (Hregs Reg.a7 ltac:(discriminate))|exact H7]|].
  intros k' Hw'. by eexists.
Qed.

(** C10. A load or a store to a page of the process that has not been allocated yet
    is transparent: the handler gives the process a fresh page, zeroed, mapped
    for it at the address of the fault, and returns to the instruction that
    faulted with every register as it was; no other mapping of the process and
    no byte outside the new page, the page tables and the trapframe changes. *)
Theorem lazy_page_fault_transparent syscall i pr V T x (s : machine D) L p0 va :
  from_user h usertrap_fn i pr V T x s → x_csrs x SCAUSE = 13 ∨ x_csrs x SCAUSE = 15 → x_csrs x STVAL = va → 0 ≤ va < p_sz pr → p_sz pr ≤ TRAPFRAME →
  vm_inv (p_pagetable pr) (vm_with_mem (x_mem x) (k_vm V)) T L → (p_trapframe pr, 0) ∈ L → T !! key 0 va = Some p0 → mapping (x_mem x) T va = None →
  kalloc (v_hart (k_vm V)) (v_tree (k_vm V)) ≠ Ret (0, v_tree (k_vm V)) →
  ∃ x' page, exec symbol pc (c_call h usertrap_fn (usertrap h spin kernelvec usertrap_fn uservec_offset syscall) junk s) trampoline x =
      Ret (Trap_returned (x_csrs x SEPC), x') ∧
    (∀ r, r ≠ Reg.zero → x_regs x' r = x_regs x r) ∧ x_csrs x' SATP = x_csrs x SATP ∧
    new_block (v_end (k_vm V)) L (page, 0) ∧ (∀ b, page ≤ b < page + PGSIZE → bt (x_mem x') b = 0) ∧
    mapped (PGROUNDDOWN va) PGSIZE page (Z.lor (Z.lor PTE_W PTE_U) PTE_R) (x_mem x) T (x_mem x') T ∧
    (∀ b, outside T b → b < page ∨ page + PGSIZE ≤ b → b < p_trapframe pr ∨ p_trapframe pr + PGSIZE ≤ b → bt (x_mem x') b = bt (x_mem x) b).
Proof.
  intros. destruct (page_fault_returns h spin kernelvec usertrap_fn uservec_offset syscall symbol pc junk i pr V T x s L p0 va)
    as (x' & page & E & R & S & []); [done..|]. exists x', page. by ands.
Qed.

(** A tick of the clock: hart 0 counts it and leaves nobody asleep on
    [ticks], so every process in [sys_pause] gets to check the time again; every
    hart asks for its next timer interrupt; processes, files and memory are
    otherwise unchanged. *)
Theorem clock_tick_wakes (s : machine D) f me n :
  m_csrs s !! h = Some f → unlocked (n_tickslock (m_kernel s)) → hart_at h (m_kernel s) me n → 0 ≤ n →
  runs (clockintr h) s (λ _ s',
    m_csrs s' !! h = Some (<[STIMECMP := u64 (f TIME + 1000000)]> f) ∧ hart_at h (m_kernel s') me n ∧ calm (m_kernel s') = calm (m_kernel s) ∧
    if s32 (f TP) =? 0 then
      n_ticks (m_kernel s') = u32 (n_ticks (m_kernel s) + 1) ∧ all_awake (m_kernel s') me (Some CTicks) ∧ unlocked (n_tickslock (m_kernel s'))
    else m_kernel s' = m_kernel s).
Proof. apply clockintr_runs. Qed.
End user.

Definition demo_page_at (k : Z) : Z := KERNBASE + 4096 * k.

Lemma demo_four_pages : NoDup [demo_page_at 1; demo_page_at 2; demo_page_at 3; demo_page_at 4].
Proof. by apply (bool_decide_unpack _); vm_compute. Qed.

Lemma getpid_system_call_witness :
  let p := demo_trap_proc (demo_page_at 1) (demo_page_at 4) 0 in
  let x := demo_user_hart (demo_page_at 1) (demo_page_at 2) (demo_page_at 3) (demo_page_at 4) 11 8 0 in
  let s := demo_trap_machine demo_end boot (x_mem x) p in
  let the_syscall := syscall 0 0 0 0 0 0 0 (λ _, 0) (λ _ _, mret tt) (λ _, None) (λ _, None) in
  ∃ x', exec (λ _, 0) (λ _, 0) (c_call 0 demo_usertrap (@usertrap unit demo_bus 0 0 0 demo_usertrap 0 the_syscall) (λ _, 0) s) trampoline x =
      Ret (Trap_returned (u64 (x_csrs x SEPC + 4)), x') ∧
    (∀ r, r ≠ Reg.zero → x_regs x' r = if decide (r = Reg.a0) then p_pid p else x_regs x r) ∧
    x_csrs x' SATP = x_csrs x SATP ∧ agree_except [(p_trapframe p, PGSIZE)] (x_mem x) (x_mem x').
Proof.
  intros p x s.
  refine (@getpid_system_call unit demo_bus 0 0 0 demo_usertrap 0 (λ _, 0) (λ _, 0) (λ _, 0) 0 0 0 0 0 0 (λ _, 0) (λ _ _, mret tt) (λ _, None) (λ _, None) 0 p
    (view 0 p (n_fs (m_kernel s))) (demo_user_tables (demo_page_at 1) (demo_page_at 2) (demo_page_at 3)) x s _ _ _ _); [|reflexivity|reflexivity|split; [discriminate|reflexivity]].
  apply demo_from_user; [by apply demo_page_ok|by apply demo_page_ok|by apply demo_page_ok|by apply demo_page_ok|exact demo_four_pages|split; [discriminate|reflexivity]].
Defined.

Lemma clock_tick_wakes_witness :
  runs (@clockintr unit 0) demo_machine (λ _ s',
    m_csrs s' !! 0%nat = Some (<[STIMECMP := u64 (0 + 1000000)]> (λ _ : csr, 0)) ∧ hart_at 0 (m_kernel s') (Some 0%nat) 0 ∧
    calm (m_kernel s') = calm (m_kernel demo_machine) ∧
    if s32 0 =? 0 then
      n_ticks (m_kernel s') = u32 (n_ticks (m_kernel demo_machine) + 1) ∧ all_awake (m_kernel s') (Some 0%nat) (Some CTicks) ∧ unlocked (n_tickslock (m_kernel s'))
    else m_kernel s' = m_kernel demo_machine).
Proof. apply (@clock_tick_wakes unit 0 demo_machine (λ _, 0) (Some 0%nat) 0); [reflexivity|split; reflexivity|exact (demo_hart _)|lia]. Defined.

(** Four pages in use, and pages left. *)
Lemma demo_pages_in_use : ∃ a b c tf t (L : gset (Z * Z)), is_page a ∧ is_page b ∧ is_page c ∧ is_page tf ∧ NoDup [a; b; c; tf] ∧
  buddy_state small_end t L ∧ ((a, 0) ∈ L ∧ (b, 0) ∈ L ∧ (c, 0) ∈ L ∧ (tf, 0) ∈ L) ∧ kalloc 0 t ≠ Ret (0, t).
Proof.
  destruct (small_pages 4 ltac:(lia)) as (t & l & Hlen & Hd & Hl & Hlk & Hb & Hr).
  assert (Hblk : ∀ q, leaf q → node_block q = (block_addr q, 0)).
  { intros q Hq. unfold node_block. by rewrite (proj1 (leaf_level q) Hq). }
  assert (Hpg : ∀ q, leaf q → is_page (block_addr q)).
  { intros q Hq. pose proof (proj1 (leaf_level q) Hq) as Hlv. pose proof (proj2 (node_level q) ltac:(lia)) as Hn.
    pose proof (block_addr_bounds q Hn). split; [by apply block_addr_page|]. unfold block_size in *. rewrite Hlv in *. unfold PGSIZE. cbn in *. lia. }
  assert (Hk : kalloc 0 t ≠ Ret (0, t)).
  { destruct (small_alloc t l Hb Hlk Hl ltac:(lia)) as (q & t' & Hq & _ & Ek & _). unfold kalloc. rewrite Ek. intros [= E _].
    destruct (Hpg q Hq) as (_ & H & _). rewrite E in H. unfold KERNBASE in H. lia. }
  destruct l as [|qa [|qb [|qc [|qt [|]]]]]; try done.
  assert (Hin : ∀ q, q ∈ [qa; qb; qc; qt] → (block_addr q, 0) ∈ (list_to_set (node_block <$> [qa; qb; qc; qt]) : gset (Z * Z))).
  { intros q Hq. apply elem_of_list_to_set. rewrite <-Hblk by (by apply (proj1 (list.Forall_forall _ _) Hl)). by apply list_elem_of_fmap_2. }
  exists (block_addr qa), (block_addr qb), (block_addr qc), (block_addr qt), t, (list_to_set (node_block <$> [qa; qb; qc; qt])).
  assert (Hl' := proj1 (list.Forall_forall _ _) Hl). ands; try (apply Hpg, Hl'; set_solver); try (apply Hin; set_solver).
  - change (NoDup (block_addr <$> [qa; qb; qc; qt])). apply NoDup_fmap_2_strong; [|done]. intros p q Hp Hq E.
    apply node_block_inj; [by apply node_level; rewrite (proj1 (leaf_level p) (Hl' p Hp)); lia|by apply node_level; rewrite (proj1 (leaf_level q) (Hl' q Hq)); lia|].
    rewrite !Hblk by (by apply Hl'). by rewrite E.
  - split; [exact small_ram|]. by apply (reachable_inv 0 small_end small_ram) in Hr.
  - exact Hk.
Qed.

Lemma lazy_page_fault_transparent_witness :
  ∃ a b c tf t L, let p := demo_trap_proc a tf TRAPFRAME in
  let x := demo_user_hart a b c tf 0 13 (TRAPFRAME - 4096) in
  let s := demo_trap_machine small_end t (x_mem x) p in
  ∃ x' page, exec (λ _, 0) (λ _, 0) (c_call 0 demo_usertrap (@usertrap unit demo_bus 0 0 0 demo_usertrap 0 (mret Exits)) (λ _, 0) s) trampoline x =
      Ret (Trap_returned (x_csrs x SEPC), x') ∧
    (∀ r, r ≠ Reg.zero → x_regs x' r = x_regs x r) ∧ x_csrs x' SATP = x_csrs x SATP ∧
    new_block small_end L (page, 0) ∧ (∀ b, page ≤ b < page + PGSIZE → bt (x_mem x') b = 0) ∧
    mapped (PGROUNDDOWN (TRAPFRAME - 4096)) PGSIZE page (Z.lor (Z.lor PTE_W PTE_U) PTE_R) (x_mem x) (demo_user_tables a b c) (x_mem x') (demo_user_tables a b c) ∧
    (∀ y, outside (demo_user_tables a b c) y → y < page ∨ page + PGSIZE ≤ y → y < tf ∨ tf + PGSIZE ≤ y → bt (x_mem x') y = bt (x_mem x) y).
Proof.
  destruct demo_pages_in_use as (a & b & c & tf & t & L & Ha & Hb & Hc & Ht & Hd & HL & (La & Lb & Lc & Lt) & Hk).
  destruct (demo_user_rep a b c tf Ha Hb Hc Ht Hd) as (R & A & M). exists a, b, c, tf, t, L. intros p x s.
  refine (@lazy_page_fault_transparent unit demo_bus 0 0 0 demo_usertrap 0 (λ _, 0) (λ _, 0) (λ _, 0) (mret Exits) 0 p
    (view 0 p (n_fs (m_kernel s))) (demo_user_tables a b c) x s L c (TRAPFRAME - 4096)
    (demo_from_user a b c tf small_end t TRAPFRAME 0 13 (TRAPFRAME - 4096) Ha Hb Hc Ht Hd _) (or_introl eq_refl) eq_refl _ _ _ Lt _ _ Hk).
  - split; [discriminate|reflexivity].
  - split; [discriminate|reflexivity].
  - discriminate.
  - split; [exact R|exact HL|]. intros k q Hq. unfold demo_user_tables in Hq.
    by apply lookup_insert_Some in Hq as [[_ <-]|[_ [[_ <-]|[_ [_ <-]%lookup_singleton_Some]]%lookup_insert_Some]].
  - reflexivity.
  - etransitivity; [apply M; split; [discriminate|reflexivity]|reflexivity].
Defined.

(** ** Interrupts of kernel code and context switches *)

Section switch.
Context (symbol : string → Z) (pc : list instr → Z) (call : target → hart → res hart).

(** C28. An interrupt of kernel code is transparent to the code: if [kerneltrap]
    keeps the calling convention (the registers [sp] and [s0] to [s11], and the
    frame of its caller), [kernelvec] returns with every register as it was,
    but for [tp], which is the one of the hart that the code goes on on. *)
Theorem kernelvec_transparent x pa :
  regs_ok x → 256 ≤ x_regs x Reg.sp → frame [(pa, 256)] (x_mem x) (x_csrs x SATP) (x_regs x Reg.sp - 256) pa 256 →
  (∀ y, x_regs y Reg.sp = x_regs x Reg.sp - 256 → x_csrs y = x_csrs x →
    frame [(pa, 256)] (x_mem y) (x_csrs y SATP) (x_regs x Reg.sp - 256) pa 256 →
    ∃ z, call (Named "kerneltrap") y = Ret z ∧ preserves (x_regs x Reg.sp - 256) pa 256 y z) →
  ∃ y z x', call (Named "kerneltrap") y = Ret z ∧ x_csrs y = x_csrs x ∧ agree_except [(pa, 256)] (x_mem x) (x_mem y) ∧
    exec symbol pc call kernelvec x = Ret (Trap_returned (x_csrs z SEPC), x') ∧
    (∀ r, r ≠ Reg.zero → r ≠ Reg.tp → x_regs x' r = x_regs x r) ∧ x_regs x' Reg.tp = x_regs z Reg.tp ∧
    x_mem x' = x_mem z ∧ x_csrs x' = x_csrs z.
Proof. apply kernelvec_runs. Qed.

(** C29. [swtch] stores the context of the caller and goes on with the other
    context; the context that it has stored is complete: whoever switches to it
    later, from any state and on any hart, returns to the caller of the first
    [swtch] with its stack and all its callee-saved registers. *)
Theorem swtch_resumes x po pn :
  regs_ok x → frame [(po, 112)] (x_mem x) (x_csrs x SATP) (x_regs x Reg.a0) po 112 →
  frame [(po, 112)] (x_mem x) (x_csrs x SATP) (x_regs x Reg.a1) pn 112 → po + 112 ≤ pn ∨ pn + 112 ≤ po →
  ∃ y, exec symbol pc call swtch x = Ret (Returned (ld64 (x_mem x) pn), y) ∧
    (∀ r o, context_offset r = Some o → x_regs y r = ld64 (x_mem x) (pn + o)) ∧ agree_except [(po, 112)] (x_mem x) (x_mem y) ∧
    (∀ x2 po2, regs_ok x2 → frame [(po2, 112)] (x_mem x2) (x_csrs x2 SATP) (x_regs x2 Reg.a0) po2 112 →
      frame [(po2, 112)] (x_mem x2) (x_csrs x2 SATP) (x_regs x2 Reg.a1) po 112 → po2 + 112 ≤ po ∨ po + 112 ≤ po2 →
      (∀ r o, context_offset r = Some o → ld64 (x_mem x2) (po + o) = ld64 (x_mem y) (po + o)) →
      ∃ y2, exec symbol pc call swtch x2 = Ret (Returned (x_regs x Reg.ra), y2) ∧
        ∀ r, is_Some (context_offset r) → x_regs y2 r = x_regs x r).
Proof.
  intros Hr Ho Hn Hd. destruct (swtch_runs symbol pc call x po pn Hr Ho Hn Hd) as (y & E & Hc & _ & _ & Ha).
  exists y. split; [done|]. split; [intros; by apply Hc|]. split; [done|]. intros x2 po2 Hr2 Ho2 Hn2 Hd2 Hm.
  destruct (swtch_runs symbol pc call x2 po2 po Hr2 Ho2 Hn2 Hd2) as (y2 & E2 & Hc2 & _). exists y2. split.
  - rewrite E2. do 3 f_equal. rewrite <-(Z.add_0_r po) at 1. rewrite (Hm Reg.ra 0) by done. by apply Hc.
  - intros r [o Hro]. rewrite (proj1 (Hc2 r o Hro)), (Hm r o Hro). by apply Hc.
Qed.
End switch.

(** With paging off every aligned piece of RAM is a frame. *)
Lemma bare_frame R m a n : a mod 8 = 0 → KERNBASE ≤ a → a + n ≤ PHYSTOP → frame R m 0 a a n.
Proof. intros Ha Hl Hh. unfold PHYSTOP, KERNBASE in *. split; [lia|unfold PHYSTOP, KERNBASE; lia|]. done. Qed.

Definition demo_stack_hart : hart := mk_hart (λ r, if decide (r = Reg.sp) then KERNBASE + 4352 else trapframe_offset r) (λ _, 0) ∅.

Lemma kernelvec_transparent_witness :
  ∃ y z x', (λ (_ : target) (y : hart), Ret y) (Named "kerneltrap") y = Ret z ∧ x_csrs y = x_csrs demo_stack_hart ∧
    agree_except [(KERNBASE + 4096, 256)] (x_mem demo_stack_hart) (x_mem y) ∧
    exec (λ _, 0) (λ _, 0) (λ _ y, Ret y) kernelvec demo_stack_hart = Ret (Trap_returned (x_csrs z SEPC), x') ∧
    (∀ r, r ≠ Reg.zero → r ≠ Reg.tp → x_regs x' r = x_regs demo_stack_hart r) ∧ x_regs x' Reg.tp = x_regs z Reg.tp ∧
    x_mem x' = x_mem z ∧ x_csrs x' = x_csrs z.
Proof.
  apply (kernelvec_transparent (λ _, 0) (λ _, 0) (λ _ y, Ret y) demo_stack_hart (KERNBASE + 4096)).
  - intros r. cbn. case_decide; [unfold KERNBASE; lia|]. destruct r; cbn; lia.
  - vm_compute. discriminate.
  - apply bare_frame; [reflexivity|vm_compute; discriminate|vm_compute; discriminate].
  - intros y Hy Hc Hf. exists y. split; [reflexivity|]. split; [done| |done]. rewrite Hc.
    apply bare_frame; [reflexivity|vm_compute; discriminate|vm_compute; discriminate].
Defined.

Definition demo_switch_hart : hart :=
  mk_hart (λ r, if decide (r = Reg.a0) then KERNBASE else if decide (r = Reg.a1) then KERNBASE + 112 else trapframe_offset r) (λ _, 0) ∅.

Lemma swtch_resumes_witness :
  ∃ y, exec (λ _, 0) (λ _, 0) (λ _ y, Ret y) swtch demo_switch_hart = Ret (Returned (ld64 (x_mem demo_switch_hart) (KERNBASE + 112)), y) ∧
    (∀ r o, context_offset r = Some o → x_regs y r = ld64 (x_mem demo_switch_hart) (KERNBASE + 112 + o)) ∧
    agree_except [(KERNBASE, 112)] (x_mem demo_switch_hart) (x_mem y) ∧
    (∀ x2 po2, regs_ok x2 → frame [(po2, 112)] (x_mem x2) (x_csrs x2 SATP) (x_regs x2 Reg.a0) po2 112 →
      frame [(po2, 112)] (x_mem x2) (x_csrs x2 SATP) (x_regs x2 Reg.a1) KERNBASE 112 → po2 + 112 ≤ KERNBASE ∨ KERNBASE + 112 ≤ po2 →
      (∀ r o, context_offset r = Some o → ld64 (x_mem x2) (KERNBASE + o) = ld64 (x_mem y) (KERNBASE + o)) →
      ∃ y2, exec (λ _, 0) (λ _, 0) (λ _ y, Ret y) swtch x2 = Ret (Returned (x_regs demo_switch_hart Reg.ra), y2) ∧
        ∀ r, is_Some (context_offset r) → x_regs y2 r = x_regs demo_switch_hart r).
Proof.
  apply (swtch_resumes (λ _, 0) (λ _, 0) (λ _ y, Ret y) demo_switch_hart KERNBASE (KERNBASE + 112)).
  - intros r. cbn. repeat case_decide; try (unfold KERNBASE; lia). destruct r; cbn; lia.
  - apply bare_frame; [reflexivity|vm_compute; discriminate|vm_compute; discriminate].
  - apply bare_frame; [reflexivity|vm_compute; discriminate|vm_compute; discriminate].
  - left. lia.
Defined.
