(* ===== verification/UserIO.v ===== *)
(** * System calls of user programs

    A user program runs on a state [S] that stands for the rest of the
    system.  [UserIO] is what it can call; [FileIO] is what it relies on:
    [open] starts reading a file at its beginning, a read delivers some of
    the unread bytes, in order and at least one if there is one, and a write
    appends to the output.  How many bytes a read delivers is not fixed.
    A program can end early: [U S A] is code with a result in [A] or an exit
    status. *)

From S2P Require Import Prelude FsState SysFile.

(** [read], [write], [open], [close] and [fstat] (user/user.h); [None] is
    the result -1 of a call that stores bytes. *)
Class UserIO (S : Type) := {
  u_read : Z → nat → M S (option (list Z));
  u_write : Z → list Z → M S Z;
  u_open : list Z → Z → M S Z;
  u_close : Z → M S Z;
  u_fstat : Z → M S (option (list Z));
}.

(** [unread fd] is what is left of the input, [written fd] what has been
    output, [contents name] the file of this name. *)
Class FileIO (S : Type) `{UserIO S} := {
  unread : Z → S → list Z;
  written : Z → S → list Z;
  contents : list Z → S → option (list Z);
  read_some : ∀ fd n s, ∃ l s', u_read fd n s = Ret (Some l, s') ∧ unread fd s = l ++ unread fd s' ∧
    (length l ≤ n)%nat ∧ (l = [] → n = 0%nat ∨ unread fd s = []) ∧
    (∀ fd', written fd' s' = written fd' s) ∧ (∀ name, contents name s' = contents name s);
  write_all : ∀ fd l s, ∃ s', u_write fd l s = Ret (Z.of_nat (length l), s') ∧ written fd s' = written fd s ++ l ∧
    (∀ fd', fd' ≠ fd → written fd' s' = written fd' s) ∧ (∀ fd', unread fd' s' = unread fd' s) ∧
    (∀ name, contents name s' = contents name s);
  open_starts : ∀ name s, ∃ fd s', u_open name O_RDONLY s = Ret (fd, s') ∧
    match contents name s with Some l => 0 ≤ fd ∧ unread fd s' = l | None => fd = -1 end ∧
    (∀ fd', written fd' s' = written fd' s) ∧ (∀ name', contents name' s' = contents name' s);
  close_keeps : ∀ fd s, ∃ r s', u_close fd s = Ret (r, s') ∧
    (∀ fd', written fd' s' = written fd' s) ∧ (∀ name, contents name s' = contents name s);
}.

(** ** Programs that may exit *)

Definition U (S A : Type) : Type := M S (A + Z).

#[export] Instance U_mret S : MRet (U S) := λ A a s, Ret (inl a, s).
#[export] Instance U_mbind S : MBind (U S) :=
  λ A B f m s, res_bind (λ '(r, s'), match r with inl a => f a s' | inr c => Ret (inr c, s') end) (m s).

Definition exit {S A} (c : Z) : U S A := λ s, Ret (inr c, s).
Definition sys {S A} (m : M S A) : U S A := λ s, res_bind (λ '(a, s'), Ret (inl a, s')) (m s).

(** Total correctness: the program returns with [Q] or exits with [E]. *)
Definition uruns {S A} (m : U S A) (s : S) (Q : A → S → Prop) (E : Z → S → Prop) : Prop :=
  runs m s (λ r s', match r with inl a => Q a s' | inr c => E c s' end).

Section uruns.
Context {S : Type}.
Implicit Types s : S.

Lemma uruns_ret {A} (a : A) s (Q : A → S → Prop) E : Q a s → uruns (mret a) s Q E.
Proof. intros. by exists (inl a), s. Qed.

Lemma uruns_exit {A} c s (Q : A → S → Prop) (E : Z → S → Prop) : E c s → uruns (exit c) s Q E.
Proof. intros. by exists (inr c), s. Qed.

Lemma uruns_bind {A B} (m : U S A) (f : A → U S B) s (Q : B → S → Prop) E :
  uruns m s (λ a s', uruns (f a) s' Q E) E → uruns (m ≫= f) s Q E.
Proof.
  intros (r & s1 & Hm & H). unfold uruns, runs. unfold mbind, U_mbind. rewrite Hm. cbn.
  destruct r as [a|c]; [exact H|]. by exists (inr c), s1.
Qed.

Lemma uruns_sys {A} (m : M S A) s (Q : A → S → Prop) E : runs m s Q → uruns (sys m) s Q E.
Proof. intros (a & s1 & Hm & H). exists (inl a), s1. split; [|done]. unfold sys. by rewrite Hm. Qed.

Lemma uruns_mono {A} (m : U S A) s (Q Q' : A → S → Prop) (E E' : Z → S → Prop) :
  uruns m s Q E → (∀ a s', Q a s' → Q' a s') → (∀ c s', E c s' → E' c s') → uruns m s Q' E'.
Proof. intros (r & s1 & Hm & H) HQ HE. exists r, s1. split; [done|]. destruct r; auto. Qed.
End uruns.

Section laws.
Context {S : Type} `{FileIO S}.

(** Nothing has been written and no file has changed. *)
Definition same_files (s s' : S) : Prop :=
  (∀ fd, written fd s' = written fd s) ∧ (∀ name, contents name s' = contents name s).

Lemma uruns_read {A} fd n (f : _ → U S A) s Q E :
  (∀ l s', unread fd s = l ++ unread fd s' → (length l ≤ n)%nat → (l = [] → n = 0%nat ∨ unread fd s = []) →
    same_files s s' → uruns (f (Some l)) s' Q E) → uruns (r ← sys (u_read fd n); f r) s Q E.
Proof.
  intros HQ. apply uruns_bind, uruns_sys. destruct (read_some fd n s) as (l & s' & Er & H1 & H2 & H3 & H4 & H5).
  exists (Some l), s'. split; [done|]. by apply HQ.
Qed.

Lemma uruns_write {A} fd l (f : _ → U S A) s Q E :
  (∀ s', written fd s' = written fd s ++ l → (∀ fd', fd' ≠ fd → written fd' s' = written fd' s) → (∀ fd', unread fd' s' = unread fd' s) →
    (∀ name, contents name s' = contents name s) → uruns (f (Z.of_nat (length l))) s' Q E) → uruns (r ← sys (u_write fd l); f r) s Q E.
Proof.
  intros HQ. apply uruns_bind, uruns_sys. destruct (write_all fd l s) as (s' & Er & H1 & H2 & H3 & H4). eexists _, s'. split; [done|]. by apply HQ.
Qed.

Lemma uruns_open {A} name (f : _ → U S A) s Q E :
  (∀ fd s', match contents name s with Some l => 0 ≤ fd ∧ unread fd s' = l | None => fd = -1 end →
    same_files s s' → uruns (f fd) s' Q E) → uruns (fd ← sys (u_open name O_RDONLY); f fd) s Q E.
Proof.
  intros HQ. apply uruns_bind, uruns_sys. destruct (open_starts name s) as (fd & s' & Er & H1 & H2 & H3). eexists fd, s'. split; [done|]. by apply HQ.
Qed.

Lemma uruns_close {A} fd (f : _ → U S A) s Q E :
  (∀ r s', same_files s s' → uruns (f r) s' Q E) → uruns (r ← sys (u_close fd); f r) s Q E.
Proof.
  intros HQ. apply uruns_bind, uruns_sys. destruct (close_keeps fd s) as (r & s' & Er & H1 & H2). eexists r, s'. split; [done|]. by apply HQ.
Qed.
End laws.

(** ** Files and input that arrives in pieces *)

(** The sizes of the next pieces are given; descriptor [i] reads the [i]th
    of the inputs; an output is a list of writes. *)
Record pieces := mk_pieces {
  pc_files : list (list Z * list Z);
  pc_in : gmap Z (list Z);
  pc_next : Z;
  pc_sizes : list nat;
  pc_out : list (Z * list Z);
}.

Definition piece_size (n : nat) (p : pieces) : nat := n `min` Nat.max 1 (default n (head (pc_sizes p))).
Definition pc_unread (fd : Z) (p : pieces) : list Z := default [] (pc_in p !! fd).

Fixpoint lookup_file (name : list Z) (l : list (list Z * list Z)) : option (list Z) :=
  match l with
  | [] => None
  | (n, c) :: l => if decide (n = name) then Some c else lookup_file name l
  end.

#[export] Instance pieces_io : UserIO pieces := {|
  u_read := λ fd n p,
    Ret (Some (take (piece_size n p) (pc_unread fd p)),
         mk_pieces (pc_files p) (<[fd := drop (piece_size n p) (pc_unread fd p)]> (pc_in p)) (pc_next p) (tail (pc_sizes p)) (pc_out p));
  u_write := λ fd l p, Ret (Z.of_nat (length l), mk_pieces (pc_files p) (pc_in p) (pc_next p) (pc_sizes p) (pc_out p ++ [(fd, l)]));
  u_open := λ name mode p,
    match lookup_file name (pc_files p) with
    | Some c => Ret (Z.abs (pc_next p), mk_pieces (pc_files p) (<[Z.abs (pc_next p) := c]> (pc_in p)) (Z.abs (pc_next p) + 1) (pc_sizes p) (pc_out p))
    | None => Ret (-1, p)
    end;
  u_close := λ fd p, Ret (0, p);
  u_fstat := λ fd p, Ret (None, p);
|}.

Definition writes_to (fd : Z) (l : list (Z * list Z)) : list Z := concat (snd <$> filter (λ w, w.1 = fd) l).

#[export] Program Instance pieces_files : FileIO pieces := {|
  unread := pc_unread;
  written := λ fd p, writes_to fd (pc_out p);
  contents := λ name p, lookup_file name (pc_files p);
|}.
Next Obligation.
  intros fd n p. eexists _, _. split; [reflexivity|]. ands; [| | |done|done].
  - unfold pc_unread at 3. cbn. rewrite lookup_insert_eq. cbn. by rewrite take_drop.
  - rewrite length_take. unfold piece_size. lia.
  - intros E. destruct (decide (n = 0%nat)) as [|Hn]; [by left|right]. apply (f_equal length) in E. rewrite length_take in E. cbn in E.
    unfold piece_size in E. destruct (pc_unread fd p); [done|]. cbn in E. lia.
Qed.
Next Obligation.
  intros fd l p. eexists. split; [reflexivity|]. cbn. unfold writes_to. ands; [| |done|done].
  - rewrite list.filter_app, fmap_app, concat_app, filter_cons_True by done. cbn. by rewrite !app_nil_r.
  - intros fd' Hne. rewrite list.filter_app, filter_cons_False, app_nil_r by done. done.
Qed.
Next Obligation.
  intros name p. cbn. destruct (lookup_file name (pc_files p)) as [c|] eqn:El; eexists _, _; (split; [reflexivity|]).
  - cbn. ands; [lia| |done|done]. unfold pc_unread. cbn. by rewrite lookup_insert_eq.
  - done.
Qed.
Next Obligation. intros fd p. by exists 0, p. Qed.
