(* ===== verification/Umalloc.v ===== *)
(** * The user allocator (user/umalloc.c)

    The memory of a process: bytes at the addresses below the break, an
    access behind it faults.  [sbrk] moves the break if the kernel grants
    the memory ([grants]).  A header is 16 bytes: the pointer to the next
    free block at 0, the size in headers at 8.  The free list is circular,
    so every loop over it has one round for each header below the break. *)

From S2P Require Import Prelude Mem.

Module Umalloc.
Record heap := mk_heap {
  u_mem : gmap Z Z;
  u_brk : Z;
  freep : Z;
}.

Definition sizeof_Header : Z := 16.

Definition in_memory (n : nat) (a : Z) (h : heap) : bool := (0 <=? a) && (a + Z.of_nat n <=? u_brk h).

Definition load (n : nat) (a : Z) : M heap Z := λ h, if in_memory n a h then Ret (ldn n (u_mem h) a, h) else Fault.
Definition store (n : nat) (a v : Z) : M heap unit := λ h,
  if in_memory n a h then Ret (tt, mk_heap (stn n (u_mem h) a v) (u_brk h) (freep h)) else Fault.

(** [p->s.ptr] and [p->s.size] *)
Definition get_ptr (p : Z) : M heap Z := load 8 p.
Definition set_ptr (p v : Z) : M heap unit := store 8 p v.
Definition get_size (p : Z) : M heap Z := load 4 (p + 8).
Definition set_size (p v : Z) : M heap unit := store 4 (p + 8) (u32 v).
Definition set_freep (p : Z) : M heap unit := modify (λ h, mk_heap (u_mem h) (u_brk h) p).

(** [p + n] of a pointer to headers. *)
Definition plus (p n : Z) : Z := p + n * sizeof_Header.

Definition list_fuel (h : heap) : nat := S (S (Z.to_nat (u_brk h / sizeof_Header))).

Section umalloc.
Context (base : Z) (grants : Z → Z → bool).

(** [sbrk] (user/ulib.c): the old break, or -1. *)
Definition sbrk (n : Z) : M heap Z := λ h,
  if grants (u_brk h) n then Ret (u_brk h, mk_heap (u_mem h) (u_brk h + n) (freep h)) else Ret (-1, h).

(** The search of [free] for the place of [bp], from [p] on. *)
Fixpoint find_place (fuel : nat) (bp p : Z) : M heap Z :=
  match fuel with
  | O => out_of_fuel
  | S fuel =>
    ptr ← get_ptr p;
    if (p <? bp) && (bp <? ptr) then mret p
    else if (ptr <=? p) && ((p <? bp) || (bp <? ptr)) then mret p
    else find_place fuel bp ptr
  end.

Definition free (ap : Z) : M heap unit :=
  let bp := plus ap (-1) in
  h ← get;
  p ← find_place (list_fuel h) bp (freep h);
  size ← get_size bp;
  ptr ← get_ptr p;
  (if plus bp size =? ptr then
     psize ← get_size ptr;
     set_size bp (size + psize);;
     pptr ← get_ptr ptr;
     set_ptr bp pptr
   else set_ptr bp ptr);;
  psize ← get_size p;
  (if plus p psize =? bp then
     size ← get_size bp;
     set_size p (psize + size);;
     bptr ← get_ptr bp;
     set_ptr p bptr
   else set_ptr p bp);;
  set_freep p.

Definition morecore (nu : Z) : M heap Z :=
  let nu := if nu <? 4096 then 4096 else nu in
  p ← sbrk (s32 (nu * sizeof_Header));
  if p =? -1 then mret 0
  else
    set_size p nu;;
    free (plus p 1);;
    gets freep.

(** The search of [malloc]; 0 is the null pointer. *)
Fixpoint malloc_loop (fuel : nat) (nunits prevp p : Z) : M heap Z :=
  match fuel with
  | O => out_of_fuel
  | S fuel =>
    size ← get_size p;
    if nunits <=? size then
      p ← (if size =? nunits then
             ptr ← get_ptr p;
             set_ptr prevp ptr;;
             mret p
           else
             set_size p (size - nunits);;
             let p := plus p (size - nunits) in
             set_size p nunits;;
             mret p);
      set_freep prevp;;
      mret (plus p 1)
    else
      h ← get;
      if p =? freep h then
        p ← morecore nunits;
        if p =? 0 then mret 0
        else
          ptr ← get_ptr p;
          malloc_loop fuel nunits p ptr
      else
        ptr ← get_ptr p;
        malloc_loop fuel nunits p ptr
  end.

Definition malloc (nbytes : Z) : M heap Z :=
  let nunits := u32 ((nbytes + sizeof_Header - 1) / sizeof_Header + 1) in
  h ← get;
  prevp ← (if freep h =? 0 then
             set_freep base;;
             set_ptr base base;;
             set_size base 0;;
             mret base
           else mret (freep h));
  p ← get_ptr prevp;
  h ← get;
  malloc_loop (2 * list_fuel h) nunits prevp p.
End umalloc.
End Umalloc.
