(* ===== verification/UmallocSpec.v ===== *)
(** * The user allocator: its free list and the blocks that are in use *)

From Stdlib Require Import Sorted.
From S2P Require Import Prelude Mem Umalloc.
Import Umalloc.

(** ** Headers *)

Definition far (a b : Z) : Prop := a + 16 ≤ b ∨ b + 16 ≤ a.

Lemma far_sym a b : far a b → far b a.
Proof. unfold far. lia. Qed.

(** The header at [a] holds the pointer [x] and the size [n]. *)
Definition hdr (m : gmap Z Z) (a x n : Z) : Prop := ld64 m a = x ∧ ld32 m (a + 8) = n.

Lemma hdr_far m a b x n v : far a b → hdr m a x n → hdr (st64 m b v) a x n ∧ hdr (st32 m (b + 8) v) a x n.
Proof. intros Hf [H1 H2]. unfold hdr, far in *. by rewrite !ldn_stn_ne by lia. Qed.

Lemma hdr_ptr m a x n v : 0 ≤ v < 2 ^ 64 → hdr m a x n → hdr (st64 m a v) a v n.
Proof. intros Hv [H1 H2]. split; [by apply ld64_st64|]. by rewrite ldn_stn_ne by lia. Qed.

Lemma hdr_size m a x n v : 0 ≤ v < 2 ^ 32 → hdr m a x n → hdr (st32 m (a + 8) v) a x v.
Proof. intros Hv [H1 H2]. split; [by rewrite ldn_stn_ne by lia|by apply ld32_st32]. Qed.

(** Only the headers at [l] differ. *)
Definition agree_hdrs (l : list Z) (m m' : gmap Z Z) : Prop := agree_except ((λ a, (a, 16)) <$> l) m m'.

Lemma agree_hdrs_at l m m' n a : agree_hdrs l m m' → Forall (λ b, a + Z.of_nat n ≤ b ∨ b + 16 ≤ a) l → ldn n m' a = ldn n m a.
Proof.
  intros Hm Hl. apply ldn_ext. intros c Hc. apply Hm, Forall_fmap. eapply Forall_impl; [|exact Hl]. intros b Hb. cbn in *. lia.
Qed.

Lemma agree_hdrs_hdr l m m' a x n : agree_hdrs l m m' → Forall (far a) l → hdr m a x n → hdr m' a x n.
Proof.
  intros Hm Hl [H1 H2]. split; [rewrite (agree_hdrs_at l m m' 8)|rewrite (agree_hdrs_at l m m' 4)]; try done; (eapply Forall_impl; [|exact Hl]); unfold far; cbn; lia.
Qed.

Lemma agree_hdrs_set l m m' a v : a ∈ l → agree_hdrs l m m' → agree_hdrs l m (st64 m' a v) ∧ agree_hdrs l m (st32 m' (a + 8) v).
Proof.
  intros Ha Hm. split; intros c Hc; rewrite byte_at_stn; try (by apply Hm); apply Forall_fmap in Hc;
    pose proof (proj1 (list.Forall_forall _ _) Hc a Ha) as H1; cbn in H1; lia.
Qed.

(** ** Steps *)

Definition inside (a : Z) (h : heap) : Prop := 0 ≤ a ∧ a + 16 ≤ u_brk h.

Lemma runs_get_ptr a x n h (Q : Z → heap → Prop) : inside a h → hdr (u_mem h) a x n → Q x h → runs (get_ptr a) h Q.
Proof.
  intros [H1 H2] [<- _] HQ. unfold get_ptr, load. eexists _, h. split; [|exact HQ]. unfold in_memory.
  rewrite (proj2 (Z.leb_le _ _)) by done. rewrite (proj2 (Z.leb_le _ _)) by lia. done.
Qed.

Lemma runs_get_size a x n h (Q : Z → heap → Prop) : inside a h → hdr (u_mem h) a x n → Q n h → runs (get_size a) h Q.
Proof.
  intros [H1 H2] [_ <-] HQ. unfold get_size, load. eexists _, h. split; [|exact HQ]. unfold in_memory.
  rewrite (proj2 (Z.leb_le _ _)) by lia. rewrite (proj2 (Z.leb_le _ _)) by lia. done.
Qed.

Definition with_mem (m : gmap Z Z) (h : heap) : heap := mk_heap m (u_brk h) (freep h).

Lemma runs_set_ptr a v h (Q : unit → heap → Prop) : inside a h → Q tt (with_mem (st64 (u_mem h) a v) h) → runs (set_ptr a v) h Q.
Proof.
  intros [H1 H2] HQ. unfold set_ptr, store. eexists _, _. split; [|exact HQ]. unfold in_memory.
  rewrite (proj2 (Z.leb_le _ _)) by lia. rewrite (proj2 (Z.leb_le _ _)) by lia. done.
Qed.

Lemma runs_set_size a v h (Q : unit → heap → Prop) : inside a h → 0 ≤ v < 2 ^ 32 → Q tt (with_mem (st32 (u_mem h) (a + 8) v) h) → runs (set_size a v) h Q.
Proof.
  intros [H1 H2] Hv HQ. unfold set_size, store. rewrite u32_small by done. eexists _, _. split; [|exact HQ]. unfold in_memory.
  rewrite (proj2 (Z.leb_le _ _)) by lia. rewrite (proj2 (Z.leb_le _ _)) by lia. done.
Qed.

(** ** Rings *)

Abbreviation block := (Z * Z)%type.

(** The address of the first of [N], or [e]. *)
Definition first_of (N : list block) (e : Z) : Z :=
  match N with
  | [] => e
  | (a, _) :: _ => a
  end.

(** The nodes [N] in a row, the last pointing to [e]. *)
Fixpoint seg (m : gmap Z Z) (N : list block) (e : Z) : Prop :=
  match N with
  | [] => True
  | (a, n) :: N => hdr m a (first_of N e) n ∧ seg m N e
  end.

Lemma first_of_app X Y e : first_of (X ++ Y) e = first_of X (first_of Y e).
Proof. by destruct X as [|[]]. Qed.

Lemma seg_app m X Y e : seg m (X ++ Y) e ↔ seg m X (first_of Y e) ∧ seg m Y e.
Proof. induction X as [|[a n] X IH]; cbn [app seg]; [tauto|]. rewrite IH, first_of_app. tauto. Qed.

Definition ring (m : gmap Z Z) (N : list block) : Prop := seg m N (first_of N 0).

Lemma ring_rotate m X Y : ring m (X ++ Y) → ring m (Y ++ X).
Proof.
  unfold ring. rewrite !seg_app, !first_of_app. destruct X as [|[a n] X], Y as [|[b k] Y]; cbn [first_of seg app]; tauto.
Qed.

Lemma seg_frame m m' N e : (∀ a n x, (a, n) ∈ N → hdr m a x n → hdr m' a x n) → seg m N e → seg m' N e.
Proof.
  induction N as [|[a n] N IH]; intros Hf; [done|]. cbn [seg]. intros [H1 H2]. split; [by apply Hf; [apply list_elem_of_here|]|].
  apply IH; [|done]. intros. apply Hf; [by apply list_elem_of_further|done].
Qed.

Lemma seg_hdr m X a n Y e : seg m (X ++ (a, n) :: Y) e → hdr m a (first_of Y e) n.
Proof. rewrite seg_app. by intros [_ [? _]]. Qed.

(** ** Blocks *)

Definition apart2 (b c : block) : Prop := b.1 + 16 * b.2 ≤ c.1 ∨ c.1 + 16 * c.2 ≤ b.1.

Fixpoint apart (l : list block) : Prop :=
  match l with
  | [] => True
  | b :: l => Forall (apart2 b) l ∧ apart l
  end.

Lemma apart2_sym b c : apart2 b c → apart2 c b.
Proof. unfold apart2. lia. Qed.

Lemma apart_perm l l' : l ≡ₚ l' → apart l → apart l'.
Proof.
  induction 1 as [|b l l' Hp IH|b c l|l l' l'' _ IH1 _ IH2]; cbn; [done| | |tauto].
  - intros [H1 H2]. split; [by rewrite <-Hp|by apply IH].
  - intros [[H1 H2]%list.Forall_cons [H3 H4]]. ands; [constructor; [by apply apart2_sym|done]|done|done].
Qed.

Lemma apart_in b c l : apart (b :: l) → c ∈ l → apart2 b c.
Proof. intros [H _] Hc. by apply (proj1 (list.Forall_forall _ _) H). Qed.

(** A block cut in two, and two blocks joined. *)
Lemma apart_split a n k l : 0 ≤ k ≤ n → apart ((a, n) :: l) → apart ((a, k) :: (a + 16 * k, n - k) :: l).
Proof.
  intros Hk [H1 H2]. cbn. ands; [constructor; [unfold apart2; cbn; lia|]| |done]; (eapply Forall_impl; [|exact H1]); intros [c j]; unfold apart2; cbn; lia.
Qed.

Lemma apart_join a n k l : 0 ≤ n → 0 ≤ k → Forall (λ b, 1 ≤ b.2) l → apart ((a, n) :: (a + 16 * n, k) :: l) → apart ((a, n + k) :: l).
Proof.
  intros Hn Hk Hl [[_ H1]%list.Forall_cons [H2 H3]]. cbn. split; [|done]. apply list.Forall_forall. intros [c j] Hc.
  pose proof (proj1 (list.Forall_forall _ _) H1 _ Hc) as G1. pose proof (proj1 (list.Forall_forall _ _) H2 _ Hc) as G2.
  pose proof (proj1 (list.Forall_forall _ _) Hl _ Hc) as G3. unfold apart2 in *. cbn in *. lia.
Qed.

(** ** The heap *)

Section heap.
Context (base start : Z).

Definition block_ok (h : heap) (b : block) : Prop := start ≤ b.1 ∧ 1 ≤ b.2 ∧ b.1 + 16 * b.2 ≤ u_brk h.

(** The free list is [base] and the blocks [F] in the order of their
    addresses; [L] are the blocks in use, with their sizes in their headers. *)
Record heap_inv (h : heap) (F L : list block) : Prop := mk_heap_inv {
  hi_ring : ring (u_mem h) ((base, 0) :: F);
  hi_sorted : StronglySorted Z.lt (F.*1);
  hi_free : Forall (block_ok h) F;
  hi_live : Forall (block_ok h) L;
  hi_sizes : Forall (λ b, ld32 (u_mem h) (b.1 + 8) = b.2) L;
  hi_apart : apart (F ++ L);
  hi_freep : freep h ∈ base :: F.*1;
  hi_base : 0 < base ∧ base + 16 ≤ start ∧ start ≤ u_brk h ≤ 2 ^ 36;
}.

(** Nodes of the list are inside memory, and far from each other. *)
Definition node_ok (h : heap) (b : block) : Prop := inside b.1 h ∧ base ≤ b.1 ∧ 0 ≤ b.2 < 2 ^ 32.

Lemma nodes_ok h F L : heap_inv h F L → Forall (node_ok h) ((base, 0) :: F).
Proof.
  intros [_ _ Hf _ _ _ _ Hb]. constructor; [unfold node_ok, inside; cbn; lia|]. eapply Forall_impl; [|exact Hf].
  intros [a n] (H1 & H2 & H3). unfold node_ok, inside in *. cbn in *. lia.
Qed.

Lemma blocks_far h b c : block_ok h b → block_ok h c → apart2 b c → far b.1 c.1.
Proof. intros (_ & H1 & _) (_ & H2 & _). unfold apart2, far. lia. Qed.

Lemma base_far h b : base + 16 ≤ start → block_ok h b → far base b.1.
Proof. intros Hs (H1 & _). unfold far. lia. Qed.

(** ** The place of a block in the list *)

Definition place (p b next : Z) : Prop := (p < b ∧ b < next) ∨ (next ≤ p ∧ (p < b ∨ b < next)).

Lemma find_place_spec b h (R : list block) : ∀ fuel e, seg (u_mem h) R e → Forall (λ c, inside c.1 h) R →
  (∃ z, z ∈ R.*1 ∧ place z b (ld64 (u_mem h) z)) → (length R ≤ fuel)%nat →
  runs (find_place fuel b (first_of R 0)) h (λ p h', h' = h ∧ p ∈ R.*1 ∧ place p b (ld64 (u_mem h) p)).
Proof.
  induction R as [|[a n] R IH]; intros fuel e Hseg Hin (z & Hz & Hp) Hf; [by apply elem_of_nil in Hz|].
  destruct fuel as [|fuel]; [cbn in Hf; lia|]. cbn [seg] in Hseg. destruct Hseg as [Hh Hseg]. apply list.Forall_cons in Hin as [Ha Hin].
  cbn [first_of find_place]. apply runs_bind. eapply runs_get_ptr; [exact Ha|exact Hh|]. pose proof (proj1 Hh) as El.
  destruct ((a <? b) && (b <? first_of R e)) eqn:E1.
  { apply runs_ret. ands; [done|apply list_elem_of_here|]. left. rewrite El. lia. }
  destruct ((first_of R e <=? a) && ((a <? b) || (b <? first_of R e))) eqn:E2.
  { apply runs_ret. ands; [done|apply list_elem_of_here|]. right. rewrite El. lia. }
  cbn [fmap list_fmap] in Hz. apply elem_of_cons in Hz as [->|Hz].
  { exfalso. cbn in Hp. unfold place in Hp. rewrite El in Hp. lia. }
  destruct R as [|[a' n'] R]; [by apply elem_of_nil in Hz|]. cbn [first_of].
  eapply runs_mono; [apply (IH fuel e); [done|done|by exists z|cbn in *; lia]|]. cbn beta. intros p h' (-> & Hpin & Hpp).
  ands; [done|by apply list_elem_of_further|done].
Qed.

(** The node in front of an address in a sorted list. *)
Lemma sorted_place b (N : list block) : ∀ a n, StronglySorted Z.lt (((a, n) :: N).*1) → a < b → b ∉ N.*1 →
  ∃ A z k B, (a, n) :: N = A ++ (z, k) :: B ∧ z < b ∧ match B with [] => True | (y, _) :: _ => b < y end.
Proof.
  induction N as [|[a' n'] N IH]; intros a n Hs Hb Hnin.
  { exists [], a, n, []. done. }
  destruct (decide (a' < b)) as [Hlt|Hge].
  - destruct (IH a' n') as (A & z & k & B & E & Hz & HB); [by apply StronglySorted_inv in Hs as [? _]|done|cbn in Hnin; set_solver|].
    exists ((a, n) :: A), z, k, B. split; [exact (f_equal (cons (a, n)) E)|done].
  - exists [], a, n, ((a', n') :: N). ands; [done|done|]. cbn in Hnin. rewrite not_elem_of_cons in Hnin. lia.
Qed.

(** ** Joining blocks *)

(** The block [(b, s)] in front of the free blocks [B]. *)
Definition insert_up (b s : Z) (B : list block) : list block :=
  match B with
  | (y, k) :: B' => if b + 16 * s =? y then (b, s + k) :: B' else (b, s) :: B
  | [] => [(b, s)]
  end.

Definition positive (l : list block) : Prop := Forall (λ b, 1 ≤ b.2) l.

Lemma apart_up b s B L : 1 ≤ s → positive (B ++ L) → apart ((b, s) :: B ++ L) → apart (insert_up b s B ++ L).
Proof.
  intros Hs Hpos Ha. unfold insert_up. destruct B as [|[y k] B]; [done|]. destruct (Z.eqb_spec (b + 16 * s) y) as [<-|]; [|done].
  apply list.Forall_cons in Hpos as [Hk Hpos]. cbn in Hk. cbn [app]. apply apart_join; [lia|lia|done|done].
Qed.

Lemma insert_up_ok h b s B : Forall (block_ok h) B → block_ok h (b, s) → Forall (block_ok h) (insert_up b s B).
Proof.
  intros HB Hb. unfold insert_up. destruct B as [|[y k] B]; [by apply Forall_singleton|]. destruct (Z.eqb_spec (b + 16 * s) y) as [E|]; [|by constructor].
  apply list.Forall_cons in HB as [Hy HB]. constructor; [|done]. unfold block_ok in *. cbn in *. lia.
Qed.

Lemma insert_up_sorted b s B : StronglySorted Z.lt (B.*1) → match B with [] => True | (y, _) :: _ => b < y end → StronglySorted Z.lt ((insert_up b s B).*1).
Proof.
  intros HB Hb. unfold insert_up. destruct B as [|[y k] B]; [by repeat constructor|].
  assert (Hall : Forall (Z.lt b) (y :: B.*1)).
  { constructor; [done|]. apply StronglySorted_inv in HB as [_ HB]. eapply Forall_impl; [|exact HB]. cbn. lia. }
  destruct (Z.eqb_spec (b + 16 * s) y); [|by constructor]. cbn. apply StronglySorted_inv in HB as [HB _]. apply list.Forall_cons in Hall as [_ Hall]. by constructor.
Qed.

Lemma insert_up_nodes b s B (P : Z → Prop) : P b → Forall P (B.*1) → Forall P ((insert_up b s B).*1).
Proof.
  intros Hb HB. unfold insert_up. destruct B as [|[y k] B]; [by repeat constructor|]. destruct (_ =? _); cbn; [|by constructor].
  apply list.Forall_cons in HB as [_ HB]. by constructor.
Qed.

(** Both halves of [free] put a block in front of a part of the list. *)
Definition link (x sx y : Z) : M heap unit :=
  if plus x sx =? y then
    sy ← get_size y;
    set_size x (sx + sy);;
    py ← get_ptr y;
    set_ptr x py
  else set_ptr x y.

Lemma with_mem_inside m h a : inside a h → inside a (with_mem m h).
Proof. done. Qed.

Lemma link_spec h x sx l e (Q : unit → heap → Prop) :
  inside x h → seg (u_mem h) l e → ld32 (u_mem h) (x + 8) = sx → Forall (λ b, inside b.1 h ∧ far b.1 x ∧ sx + b.2 < 2 ^ 32 ∧ 0 ≤ b.2) l →
  (l = [] → x + 16 * sx ≠ e) → 0 ≤ sx → 0 ≤ e < 2 ^ 64 → u_brk h ≤ 2 ^ 36 →
  (∀ m', agree_hdrs [x] (u_mem h) m' → seg m' (insert_up x sx l) e → Q tt (with_mem m' h)) →
  runs (link x sx (first_of l e)) h Q.
Proof.
  intros Hx Hseg Hsx Hl Hne H0 He Hbrk HQ. unfold link, plus, sizeof_Header.
  assert (Hhx : hdr (u_mem h) x (ld64 (u_mem h) x) sx) by done.
  assert (Hself : agree_hdrs [x] (u_mem h) (u_mem h)) by apply agree_refl.
  assert (Hframe : ∀ m' l', agree_hdrs [x] (u_mem h) m' → Forall (λ b, far b.1 x) l' → seg (u_mem h) l' e → seg m' l' e).
  { intros m' l' Hm Hf. apply seg_frame. intros a n y Ha. apply (agree_hdrs_hdr [x]); [done|]. constructor; [|done].
    exact (proj1 (list.Forall_forall _ _) Hf _ Ha). }
  assert (Hfar : Forall (λ b, far b.1 x) l) by (eapply Forall_impl; [|exact Hl]; tauto).
  destruct l as [|[y k] l].
  { cbn [first_of]. destruct (Z.eqb_spec (x + sx * 16) e); [exfalso; apply Hne; [done|lia]|].
    apply runs_set_ptr; [done|]. apply HQ; [by apply agree_hdrs_set; [apply list_elem_of_here|]|]. cbn. split; [|done]. by apply (hdr_ptr _ _ _ _ _ He Hhx). }
  pose proof (proj1 (list.Forall_cons _ _ _) Hl) as [(Hy & Hyf & Hk & Hk0) Hl']. cbn in Hy, Hyf, Hk, Hk0. cbn [seg] in Hseg. destruct Hseg as [Hhy Hseg].
  cbn [first_of insert_up] in *. pose proof (Hy) as [Hy0 Hy1]. destruct (Z.eqb_spec (x + sx * 16) y) as [E|E].
  - rewrite (proj2 (Z.eqb_eq (x + 16 * sx) y)) in HQ by lia.
    apply runs_bind. eapply runs_get_size; [done|exact Hhy|]. apply runs_bind. apply runs_set_size; [done|lia|]. apply runs_bind.
    destruct (hdr_far (u_mem h) y x _ _ (sx + k) Hyf Hhy) as [_ Hhy'].
    eapply runs_get_ptr; [exact (with_mem_inside _ _ _ Hy)|exact Hhy'|]. apply runs_set_ptr; [by apply with_mem_inside|].
    assert (Hm : agree_hdrs [x] (u_mem h) (st64 (st32 (u_mem h) (x + 8) (sx + k)) x (first_of l e))).
    { apply agree_hdrs_set; [apply list_elem_of_here|]. by apply agree_hdrs_set; [apply list_elem_of_here|]. }
    apply (HQ _ Hm). cbn [seg]. split.
    + apply hdr_ptr with (x := ld64 (u_mem h) x); [|apply hdr_size with (n := sx); [lia|done]].
      destruct Hhy as [<- _]. apply ld64_range.
    + apply Hframe; [done| |done]. by apply list.Forall_cons in Hfar as [_ ?].
  - rewrite (proj2 (Z.eqb_neq (x + 16 * sx) y)) in HQ by lia. apply runs_set_ptr; [done|].
    assert (Hm : agree_hdrs [x] (u_mem h) (st64 (u_mem h) x y)) by (by apply agree_hdrs_set; [apply list_elem_of_here|]).
    apply (HQ _ Hm). cbn [seg]. split; [cbn [first_of]; apply hdr_ptr with (x := ld64 (u_mem h) x); [lia|done]|]. apply (Hframe _ ((y, k) :: l)); [done|done|by split].
Qed.

Lemma first_insert_up b s B e : first_of (insert_up b s B) e = b.
Proof. unfold insert_up. destruct B as [|[y k] B]; [done|]. by destruct (_ =? _). Qed.

Lemma length_insert_up b s B : (length (insert_up b s B) ≤ S (length B))%nat.
Proof. unfold insert_up. destruct B as [|[y k] B]; [done|]. destruct (_ =? _); cbn; lia. Qed.

Lemma head_insert_up b s B : b ∈ (insert_up b s B).*1.
Proof. unfold insert_up. destruct B as [|[y k] B]; [apply list_elem_of_here|]. destruct (_ =? _); apply list_elem_of_here. Qed.

(** There is a free block of at least [n] headers. *)
Definition has_block (n : Z) (F : list block) : Prop := ∃ c, c ∈ F ∧ n ≤ c.2.

Lemma insert_up_has b s B n : positive B → n ≤ s ∨ has_block n B → 0 ≤ s → has_block n (insert_up b s B).
Proof.
  intros Hpos Hn Hs. unfold insert_up, has_block in *. destruct B as [|[y k] B].
  { exists (b, s). split; [apply list_elem_of_here|]. destruct Hn as [|(c & Hc & _)]; [done|by apply elem_of_nil in Hc]. }
  apply list.Forall_cons in Hpos as [Hk _]. cbn in Hk. destruct (_ =? _).
  - destruct Hn as [Hn|(c & [->|Hc]%elem_of_cons & Hn)]; [|cbn in Hn|]; [| |by exists c; split; [apply list_elem_of_further|]];
      (exists (b, s + k); split; [apply list_elem_of_here|cbn; lia]).
  - destruct Hn as [Hn|(c & Hc & Hn)]; [by exists (b, s); split; [apply list_elem_of_here|]|]. exists c. split; [by apply list_elem_of_further|done].
Qed.

(** ** Consequences of the invariant *)

Lemma sorted_app (X Y : list Z) : StronglySorted Z.lt (X ++ Y) ↔ StronglySorted Z.lt X ∧ StronglySorted Z.lt Y ∧ ∀ x y, x ∈ X → y ∈ Y → x < y.
Proof.
  induction X as [|a X IH]; cbn [app].
  { split; [intros; ands; [constructor|done|]; intros x y Hx; by apply elem_of_nil in Hx|tauto]. }
  split.
  - intros [Hs Ha]%StronglySorted_inv. apply IH in Hs as (H1 & H2 & H3). apply Forall_app in Ha as [Ha1 Ha2]. ands; [by constructor|done|].
    intros x y [->|Hx]%elem_of_cons Hy; [by apply (proj1 (list.Forall_forall _ _) Ha2)|by apply H3].
  - intros ([H1 Ha]%StronglySorted_inv & H2 & H3). constructor; [apply IH; ands; [done|done|]; intros; apply H3; [by apply list_elem_of_further|done]|].
    apply Forall_app_2; [done|]. apply list.Forall_forall. intros y Hy. apply H3; [apply list_elem_of_here|done].
Qed.

Lemma nodes_sorted h F L : heap_inv h F L → StronglySorted Z.lt (((base, 0) :: F).*1).
Proof.
  intros Hi. cbn. constructor; [apply Hi|]. apply Forall_fmap. eapply Forall_impl; [|apply Hi]. intros c (H1 & _). cbn. pose proof (hi_base _ _ _ Hi). lia.
Qed.

Lemma apart_app l l' : apart (l ++ l') → apart l ∧ apart l' ∧ ∀ b c, b ∈ l → c ∈ l' → apart2 b c.
Proof.
  induction l as [|b l IH]; cbn [app apart]; [intros; ands; [done|done|]; intros ? ? Hb; by apply elem_of_nil in Hb|].
  intros [Hb Ha]. destruct (IH Ha) as (H1 & H2 & H3). apply Forall_app in Hb as [Hb1 Hb2]. ands; [done|done|done|].
  intros b' c [->|Hb']%elem_of_cons Hc; [by apply (proj1 (list.Forall_forall _ _) Hb2)|by apply H3].
Qed.

(** Sorted blocks that do not overlap take 16 bytes each. *)
Lemma sorted_length h (F : list block) : ∀ lo, StronglySorted Z.lt (F.*1) → apart F → Forall (block_ok h) F → Forall (λ c, lo ≤ c.1) F → lo ≤ u_brk h →
  lo + 16 * Z.of_nat (length F) ≤ u_brk h.
Proof.
  induction F as [|[a n] F IH]; intros lo Hs Ha Hok Hlo Hb; [cbn; lia|]. apply StronglySorted_inv in Hs as [Hs Hlt]. destruct Ha as [Ha1 Ha2].
  apply list.Forall_cons in Hok as [(H1 & H2 & H3) Hok], Hlo as [Hlo1 _]. cbn [fst snd] in H1, H2, H3, Hlo1. cbn [length].
  assert (a + 16 + 16 * Z.of_nat (length F) ≤ u_brk h); [|lia]. apply IH; [done|done|done| |lia]. apply list.Forall_forall. intros c Hc.
  pose proof (proj1 (list.Forall_forall _ _) Ha1 _ Hc) as Hap. pose proof (proj1 (list.Forall_forall _ _) Hlt c.1 (list_elem_of_fmap_2 _ _ _ Hc)) as Hltc.
  pose proof (proj1 (list.Forall_forall _ _) Hok _ Hc) as (_ & Hc2 & _). unfold apart2 in Hap. cbn [fst snd] in Hap, Hltc. lia.
Qed.

Lemma nodes_bound h F L : heap_inv h F L → (S (length F) < list_fuel h)%nat.
Proof.
  intros Hi. pose proof (hi_base _ _ _ Hi) as Hb. destruct (apart_app _ _ (hi_apart _ _ _ Hi)) as (Ha & _ & _).
  pose proof (sorted_length h F start (hi_sorted _ _ _ Hi) Ha (hi_free _ _ _ Hi)) as H1. unfold list_fuel, sizeof_Header.
  assert (start + 16 * Z.of_nat (length F) ≤ u_brk h). { apply H1; [|lia]. eapply Forall_impl; [|apply Hi]. by intros c (? & _). }
  assert (Z.of_nat (length F) ≤ u_brk h / 16); [apply Z.div_le_lower_bound; lia|]. lia.
Qed.

Lemma ring_base m F : ring m ((base, 0) :: F) = seg m ((base, 0) :: F) base.
Proof. done. Qed.

(** The nodes around a place for [b]. *)
Lemma place_around A p np B b : StronglySorted Z.lt ((A ++ (p, np) :: B).*1) → base ≤ p → base < b → place p b (first_of B base) →
  p < b ∧ match B with [] => True | (y, _) :: _ => b < y end.
Proof.
  intros Hs Hp Hb Hpl. destruct B as [|[y k] B]; cbn [first_of] in Hpl; unfold place in Hpl; [lia|].
  rewrite fmap_app in Hs. apply sorted_app in Hs as (_ & Hs & _). cbn in Hs. apply StronglySorted_inv in Hs as [_ Hs]. apply list.Forall_cons in Hs as [Hs _]. lia.
Qed.

(** The contents of the blocks [L] have not changed. *)
Definition kept (m m' : gmap Z Z) (L : list block) : Prop := ∀ b c, b ∈ L → b.1 ≤ c < b.1 + 16 * b.2 → byte_at m' c = byte_at m c.

Lemma kept_hdrs l m m' L : agree_hdrs l m m' → (∀ a b, a ∈ l → b ∈ L → b.1 + 16 * b.2 ≤ a ∨ a + 16 ≤ b.1) → kept m m' L.
Proof.
  intros Hm Hl b c Hb Hc. apply Hm, Forall_fmap, list.Forall_forall. intros a Ha. destruct (Hl a b Ha Hb); cbn; lia.
Qed.

Lemma kept_size m m' L : kept m m' L → positive L → Forall (λ b, ld32 m (b.1 + 8) = b.2) L → Forall (λ b, ld32 m' (b.1 + 8) = b.2) L.
Proof.
  intros Hk Hp. rewrite !list.Forall_forall. intros H b Hb. etransitivity; [|exact (H b Hb)]. pose proof (proj1 (list.Forall_forall _ _) Hp _ Hb) as Hpos. cbn in Hpos.
  apply ldn_ext. intros c Hc. apply (Hk b); [done|lia].
Qed.

Lemma ok_positive h l : Forall (block_ok h) l → positive l.
Proof. intros H. eapply Forall_impl; [|exact H]. by intros b (_ & ? & _). Qed.

(** ** free *)

Lemma in_use_apart h F L b c : heap_inv h F (b :: L) → c ∈ F ++ L → apart2 b c.
Proof.
  intros Hi Hc. apply (apart_in _ _ (F ++ L)); [|done]. eapply apart_perm; [|apply Hi]. symmetry. apply Permutation_middle.
Qed.

Lemma free_place h F L b n (Q : Z → heap → Prop) : heap_inv h F ((b, n) :: L) →
  (∀ p A np B, (base, 0) :: F = A ++ (p, np) :: B → p < b → match B with [] => True | (y, _) :: _ => b < y end → Q p h) →
  runs (find_place (list_fuel h) b (freep h)) h Q.
Proof.
  intros Hi HQ. pose proof (hi_base _ _ _ Hi) as Hb. pose proof (nodes_sorted _ _ _ Hi) as Hs. pose proof (nodes_bound _ _ _ Hi) as Hn.
  pose proof (proj1 (proj1 (list.Forall_cons _ _ _) (hi_live _ _ _ Hi))) as (Hb1 & Hb2 & _). cbn [fst snd] in Hb1, Hb2.
  pose proof (hi_freep _ _ _ Hi) as Hfr. change (base :: F.*1) with (((base, 0) :: F).*1) in Hfr.
  apply list_elem_of_fmap in Hfr as ([fp fn] & Efp & Hfr). apply list_elem_of_split in Hfr as (X & Y & EN).
  set (R := ((fp, fn) :: Y) ++ X). assert (HR : ring (u_mem h) R) by (apply ring_rotate; rewrite <-EN; apply Hi).
  assert (HRN : ∀ c, c ∈ R ↔ c ∈ (base, 0) :: F) by (intros c; unfold R; rewrite EN; set_solver).
  cbn [fst] in Efp. rewrite Efp. change fp with (first_of R 0).
  destruct (sorted_place b F base 0 Hs) as (A & z & k & B & E & Hz & HB); [lia| |].
  { intros ([c j] & Ec & Hc)%list_elem_of_fmap. cbn in Ec. subst c. pose proof (in_use_apart _ _ _ _ (b, j) Hi) as Hap.
    pose proof (proj1 (list.Forall_forall _ _) (hi_free _ _ _ Hi) _ Hc) as (_ & Hj & _). cbn [snd] in Hj.
    destruct Hap as [Hap|Hap]; [apply elem_of_app; by left|cbn in Hap; lia..]. }
  assert (Hld : ∀ A p np B, (base, 0) :: F = A ++ (p, np) :: B → ld64 (u_mem h) p = first_of B base).
  { intros A' p np B' E'. pose proof (hi_ring _ _ _ Hi) as Hring. rewrite ring_base, E' in Hring. by apply seg_hdr in Hring as [? _]. }
  eapply runs_mono; [apply (find_place_spec b h R (list_fuel h) (first_of R 0) HR)|].
  - apply list.Forall_forall. intros c Hc%HRN. pose proof (nodes_ok _ _ _ Hi) as Hok. by apply (proj1 (list.Forall_forall _ _) Hok) in Hc as (? & _).
  - exists z. split; [apply (list_elem_of_fmap_2 fst _ (z, k)), HRN; rewrite E; set_solver|]. rewrite (Hld _ _ _ _ E).
    destruct B as [|[y j] B]; [|left; cbn; lia]. right. cbn. pose proof (nodes_ok _ _ _ Hi) as Hok. rewrite E in Hok.
    apply Forall_app in Hok as [_ [(_ & Hz0 & _) _]%list.Forall_cons]. cbn in Hz0. lia.
  - unfold R. apply (f_equal length) in EN. rewrite !length_app in *. cbn [length] in *. lia.
  - cbn beta. intros p h' (-> & Hp & Hpl). apply list_elem_of_fmap in Hp as ([p' np] & -> & Hp%HRN). apply list_elem_of_split in Hp as (A' & B' & E').
    pose proof (nodes_ok _ _ _ Hi) as Hok. rewrite E' in Hok. apply Forall_app in Hok as [_ [(_ & Hp0 & _) _]%list.Forall_cons]. cbn [fst] in Hp0, Hpl |- *.
    rewrite (Hld _ _ _ _ E') in Hpl. rewrite E' in Hs. destruct (place_around A' p' np B' b Hs Hp0) as [Hpb HB']; [lia|done|]. by eapply HQ.
Qed.

(** The free list with [(b, n)] behind the node [p]. *)
Lemma relink_nodes F A p np B b n : (base, 0) :: F = A ++ (p, np) :: B → base < b →
  ∃ F', A ++ insert_up p np (insert_up b n B) = (base, 0) :: F' ∧
    ((A = [] ∧ p = base ∧ np = 0 ∧ F = B ∧ F' = insert_up b n B) ∨
     ∃ A', A = (base, 0) :: A' ∧ F = A' ++ (p, np) :: B ∧ F' = A' ++ insert_up p np (insert_up b n B)).
Proof.
  intros E Hb. destruct A as [|c A].
  - cbn in E. injection E as <- <- <-. exists (insert_up b n F). split; [|left; done]. cbn [app].
    destruct (insert_up b n F) as [|[y k] l] eqn:El; [done|]. pose proof (first_insert_up b n F 0) as Ey. rewrite El in Ey. cbn in Ey. subst y.
    unfold insert_up at 1. destruct (Z.eqb_spec (base + 16 * 0) b); [lia|done].
  - injection E as <- ->. exists (A ++ insert_up p np (insert_up b n B)). split; [done|]. right. by exists A.
Qed.

Lemma relink_blocks h F L b n A p np B F' : heap_inv h F ((b, n) :: L) → p < b → match B with [] => True | (y, _) :: _ => b < y end →
  ((A = [] ∧ p = base ∧ np = 0 ∧ F = B ∧ F' = insert_up b n B) ∨
   ∃ A', A = (base, 0) :: A' ∧ F = A' ++ (p, np) :: B ∧ F' = A' ++ insert_up p np (insert_up b n B)) →
  StronglySorted Z.lt (F'.*1) ∧ Forall (block_ok h) F' ∧ apart (F' ++ L) ∧ has_block n F' ∧ (length F' ≤ S (length F))%nat ∧ p ∈ base :: F'.*1.
Proof.
  intros Hi Hpb HB Hcase. pose proof (hi_live _ _ _ Hi) as Hlive. apply list.Forall_cons in Hlive as [Hb Hlive]. pose proof (ok_positive _ _ Hlive) as Lpos.
  pose proof (hi_free _ _ _ Hi) as Hfree. pose proof (hi_sorted _ _ _ Hi) as Hs. pose proof Hb as (_ & Hn & _). cbn [snd] in Hn.
  assert (Hap : apart ((b, n) :: F ++ L)) by (eapply apart_perm; [symmetry; apply Permutation_middle|apply Hi]).
  destruct Hcase as [(-> & -> & -> & -> & ->)|(A' & -> & -> & ->)].
  - ands.
    + by apply insert_up_sorted.
    + by apply insert_up_ok.
    + apply apart_up; [lia| |done]. apply Forall_app_2; [by eapply ok_positive|done].
    + apply insert_up_has; [by eapply ok_positive|by left|lia].
    + apply length_insert_up.
    + apply list_elem_of_here.
  - apply Forall_app in Hfree as [HA [Hp HB0]%list.Forall_cons]. pose proof Hp as (_ & Hnp & _). cbn [snd] in Hnp.
    rewrite fmap_app in Hs. apply sorted_app in Hs as (HsA & HsB & HsAB). cbn in HsB. apply StronglySorted_inv in HsB as [HsB HpB].
    pose proof (insert_up_ok h b n B HB0 Hb) as Hup.
    assert (Hupn : match insert_up b n B with [] => True | (y, _) :: _ => p < y end).
    { pose proof (first_insert_up b n B 0) as E. destruct (insert_up b n B) as [|[y k] l]; [done|]. cbn in E. lia. }
    ands.
    + rewrite fmap_app. apply sorted_app. ands; [done|apply insert_up_sorted; [by apply insert_up_sorted|done]|]. intros x y Hx Hy.
      assert (Hpy : p ≤ y).
      { revert y Hy. apply (proj1 (list.Forall_forall (λ y, p ≤ y) _)). apply insert_up_nodes; [lia|]. apply insert_up_nodes; [lia|].
        eapply Forall_impl; [|exact HpB]. cbn. lia. }
      pose proof (HsAB x p Hx ltac:(apply list_elem_of_here)). lia.
    + apply Forall_app_2; [done|]. by apply insert_up_ok.
    + apply (apart_perm (insert_up p np (insert_up b n B) ++ (A' ++ L))); [by rewrite !app_assoc, (Permutation_app_comm A')|].
      assert (Hpos : positive (B ++ A' ++ L)) by (repeat apply Forall_app_2; by eapply ok_positive).
      apply apart_up; [lia|apply Forall_app_2; [by eapply ok_positive|by apply Forall_app in Hpos as [_ ?]]|].
      apply (apart_perm (insert_up b n B ++ ((p, np) :: A' ++ L))); [by rewrite <-Permutation_middle|].
      apply apart_up; [lia|apply Forall_app_2; [by eapply ok_positive|constructor; [done|]; by apply Forall_app in Hpos as [_ ?]]|].
      eapply apart_perm; [|exact Hap]. apply perm_skip. rewrite <-!app_assoc. cbn [app]. rewrite <-!Permutation_middle. apply perm_skip.
      rewrite !app_assoc. by rewrite (Permutation_app_comm A' B).
    + destruct (insert_up_has p np (insert_up b n B) n) as (c & Hc & Hnc); [by eapply ok_positive|right; apply insert_up_has; [by eapply ok_positive|by left|lia]|lia|].
      exists c. split; [apply elem_of_app; by right|done].
    + rewrite !length_app. cbn [length]. pose proof (length_insert_up p np (insert_up b n B)). pose proof (length_insert_up b n B). lia.
    + apply list_elem_of_further. rewrite fmap_app. apply elem_of_app. right. apply head_insert_up.
Qed.

(** Nodes of the list are far from each other and from blocks in use. *)
Lemma nodes_apart h F L A p np B c : heap_inv h F L → (base, 0) :: F = A ++ (p, np) :: B → c ∈ A ++ B →
  far c.1 p ∧ (c = (base, 0) ∨ (p, np) = (base, 0) ∨ apart2 (p, np) c).
Proof.
  intros Hi E Hc. pose proof (hi_base _ _ _ Hi) as Hb. destruct (apart_app _ _ (hi_apart _ _ _ Hi)) as (Ha & _ & _). pose proof (hi_free _ _ _ Hi) as Hf.
  rewrite list.Forall_forall in Hf. destruct A as [|c0 A].
  - injection E as <- <- <-. cbn in Hc. apply Hf in Hc as (H1 & _). split; [unfold far; lia|]. by right; left.
  - injection E as <- ->. cbn [app] in Hc. apply elem_of_cons in Hc as [->|Hc].
    + destruct (Hf (p, np)) as (H1 & _); [set_solver|]. split; [unfold far; cbn [fst] in *; lia|by left].
    + apply (apart_perm _ ((p, np) :: A ++ B)) in Ha; [|symmetry; apply Permutation_middle]. pose proof (apart_in _ _ _ Ha Hc) as Hap.
      destruct (Hf (p, np)) as (_ & H1 & _); [set_solver|]. destruct (Hf c) as (_ & H2 & _); [set_solver|].
      split; [unfold apart2, far in *; cbn [fst snd] in *; lia|by right; right].
Qed.

Lemma node_live h F L c b : heap_inv h F L → c ∈ (base, 0) :: F → b ∈ L → b.1 + 16 * b.2 ≤ c.1 ∨ c.1 + 16 ≤ b.1.
Proof.
  intros Hi Hc Hb. pose proof (proj1 (list.Forall_forall _ _) (hi_live _ _ _ Hi) _ Hb) as (H1 & _). pose proof (hi_base _ _ _ Hi).
  apply elem_of_cons in Hc as [->|Hc]; [cbn [fst]; lia|]. destruct (apart_app _ _ (hi_apart _ _ _ Hi)) as (_ & _ & Ha). specialize (Ha _ _ Hc Hb).
  pose proof (proj1 (list.Forall_forall _ _) (hi_free _ _ _ Hi) _ Hc) as (_ & H2 & _). unfold apart2 in Ha. lia.
Qed.

Lemma live_far h F L b c : heap_inv h F L → b ∈ L → c ∈ (base, 0) :: F → far c.1 b.1.
Proof.
  intros Hi Hb Hc. pose proof (proj1 (list.Forall_forall _ _) (hi_live _ _ _ Hi) _ Hb) as (_ & H1 & _).
  destruct (node_live _ _ _ _ _ Hi Hc Hb); unfold far; lia.
Qed.

(** A block in use and two nodes fill less than the memory. *)
Lemma sum_bound h F L b n A p np B : heap_inv h F ((b, n) :: L) → (base, 0) :: F = A ++ (p, np) :: B →
  np + n < 2 ^ 32 ∧ ∀ c, c ∈ A ++ B → np + n + c.2 < 2 ^ 32.
Proof.
  intros Hi E. pose proof (hi_base _ _ _ Hi) as Hb. pose proof (proj1 (proj1 (list.Forall_cons _ _ _) (hi_live _ _ _ Hi))) as (Hb1 & Hb2 & Hb3).
  assert (HN : ∀ c, c ∈ (base, 0) :: F → c.2 = 0 ∨ block_ok h c ∧ apart2 (b, n) c).
  { intros c [->|Hc]%elem_of_cons; [by left|right]. split; [by apply (proj1 (list.Forall_forall _ _) (hi_free _ _ _ Hi))|].
    eapply in_use_apart; [exact Hi|]. apply elem_of_app. by left. }
  assert (Hp := HN (p, np) ltac:(rewrite E; set_solver)). unfold block_ok, apart2 in *. cbn [fst snd] in *. split; [lia|]. intros c Hc.
  pose proof (HN c ltac:(rewrite E; set_solver)) as H1. destruct (nodes_apart _ _ _ _ _ _ _ c Hi E Hc) as [_ [->|[[= -> ->]|H2]]]; cbn [fst snd] in *; [lia|lia|].
  unfold apart2 in H2. cbn [fst snd] in H2. lia.
Qed.

Lemma inv_tail h F L b : heap_inv h F (b :: L) → heap_inv h F L.
Proof.
  intros Hi. pose proof Hi as [H1 H2 H3 H4 H5 H6 H7 H8]. apply list.Forall_cons in H4 as [_ H4], H5 as [_ H5]. split; try done.
  apply (apart_perm _ (b :: F ++ L)) in H6; [|symmetry; apply Permutation_middle]. by destruct H6.
Qed.

(** The stores of [free], the block [(b, n)] goes behind the node [p]. *)
Lemma free_links h A p np B b n e (Q : unit → heap → Prop) :
  seg (u_mem h) (A ++ (p, np) :: B) e → ld32 (u_mem h) (b + 8) = n → inside b h → inside p h → far p b →
  Forall (λ c, inside c.1 h ∧ far c.1 b ∧ far c.1 p ∧ np + n + c.2 < 2 ^ 32 ∧ 0 ≤ c.2) (A ++ B) →
  0 ≤ n → 0 ≤ np → np + n < 2 ^ 32 → 0 ≤ e < b → u_brk h ≤ 2 ^ 36 →
  (∀ m', agree_hdrs [b; p] (u_mem h) m' → seg m' (A ++ insert_up p np (insert_up b n B)) e → Q tt (mk_heap m' (u_brk h) p)) →
  runs (size ← get_size b; ptr ← get_ptr p; link b size ptr;; psize ← get_size p; link p psize b;; set_freep p) h Q.
Proof.
  intros [HA [Hp HB]]%seg_app Hn Hb Hpi Hpb Hall Hn0 Hnp0 Hsum He Hbrk HQ. cbn [first_of] in HA. fold (seg (u_mem h) B e) in HB.
  apply Forall_app in Hall as [HallA HallB].
  apply runs_bind. eapply (runs_get_size b (ld64 (u_mem h) b)); [done|done|]. apply runs_bind. eapply runs_get_ptr; [done|exact Hp|].
  apply runs_bind. pose proof Hb as [Hb0 Hb1]. apply link_spec; [done|done|done| |intros _; lia|lia|lia|lia|].
  { eapply Forall_impl; [|exact HallB]. cbn beta. intros c (G & ? & ? & ? & ?). do 2 (split; [done|]). lia. }
  intros m1 Hm1 Hseg1. pose proof (agree_hdrs_hdr _ _ _ p _ _ Hm1 ltac:(by constructor) Hp) as Hp1.
  apply runs_bind. eapply (runs_get_size p); [exact Hpi|exact Hp1|]. apply runs_bind. rewrite <-(first_insert_up b n B e) at 1.
  apply link_spec; [done|done|exact (proj2 Hp1)| | |lia|lia|done|].
  { unfold insert_up. assert (Hbb : inside b h ∧ far b p ∧ np + n < 2 ^ 32 ∧ 0 ≤ n) by (split; [done|]; split; [by apply far_sym|]; lia).
    assert (HB' : Forall (λ c : block, inside c.1 h ∧ far c.1 p ∧ np + c.2 < 2 ^ 32 ∧ 0 ≤ c.2) B).
    { eapply Forall_impl; [|exact HallB]. cbn beta. intros c (G & _ & ? & ? & ?). do 2 (split; [done|]). lia. }
    destruct B as [|[y k] B]; [by apply Forall_singleton|]. apply list.Forall_cons in HallB as [(_ & _ & _ & Hk1 & Hk2) _]. cbn [snd] in Hk1, Hk2.
    destruct (_ =? _); [|by constructor]. apply list.Forall_cons in HB' as [_ HB']. constructor; [|exact HB']. cbn [fst snd].
    destruct Hbb as (? & ? & _). do 2 (split; [done|]). lia. }
  { intros El. exfalso. pose proof (head_insert_up b n B) as Hh. rewrite El in Hh. by apply elem_of_nil in Hh. }
  intros m2 Hm2 Hseg2. eexists _, _. split; [reflexivity|]. apply HQ.
  { eapply agree_trans; [eapply agree_incl; [|exact Hm1]|eapply agree_incl; [|exact Hm2]]; set_solver. }
  apply seg_app. rewrite first_insert_up. split; [|done]. revert HA. apply seg_frame. intros a k x Ha.
  pose proof (proj1 (list.Forall_forall _ _) HallA _ Ha) as (_ & F1 & F2 & _). intros G. eapply agree_hdrs_hdr; [exact Hm2|by constructor|].
  eapply agree_hdrs_hdr; [exact Hm1|by constructor|done].
Qed.

Lemma free_spec h F L b n (Q : unit → heap → Prop) : heap_inv h F ((b, n) :: L) →
  (∀ h' F', heap_inv h' F' L → u_brk h' = u_brk h → kept (u_mem h) (u_mem h') L → has_block n F' → (length F' ≤ S (length F))%nat → Q tt h') →
  runs (free (plus b 1)) h Q.
Proof.
  intros Hi HQ. unfold free. replace (plus (plus b 1) (-1)) with b by (unfold plus, sizeof_Header; lia).
  pose proof (hi_base _ _ _ Hi) as Hbase. pose proof (nodes_ok _ _ _ Hi) as Hok. pose proof (hi_ring _ _ _ Hi) as Hring. rewrite ring_base in Hring.
  pose proof (proj1 (proj1 (list.Forall_cons _ _ _) (hi_live _ _ _ Hi))) as (Hb1 & Hb2 & Hb3). cbn [fst snd] in Hb1, Hb2, Hb3.
  pose proof (proj1 (proj1 (list.Forall_cons _ _ _) (hi_sizes _ _ _ Hi))) as Hsize. cbn [fst snd] in Hsize.
  apply runs_bind. exists h, h. split; [done|]. apply runs_bind. eapply free_place; [exact Hi|]. intros p A np B E Hpb HB.
  destruct (relink_nodes F A p np B b n E) as (F' & EF' & Hcase); [lia|].
  destruct (relink_blocks h F L b n A p np B F' Hi Hpb HB Hcase) as (R1 & R2 & R3 & R4 & R5 & R6).
  assert (HpN : (p, np) ∈ (base, 0) :: F) by (rewrite E; set_solver).
  pose proof (proj1 (list.Forall_forall _ _) Hok _ HpN) as (Hpin & Hpbase & Hnp). cbn [fst snd] in Hpin, Hpbase, Hnp.
  pose proof (sum_bound _ _ _ _ _ _ _ _ _ Hi E) as Hsum.
  assert (Hb : (b, n) ∈ (b, n) :: L) by apply list_elem_of_here.
  rewrite E in Hring. apply (free_links h A p np B b n base); [done|done|unfold inside; lia|done|by apply (live_far h F ((b, n) :: L) (b, n) (p, np))| |lia|lia| |lia|lia|].
  - apply list.Forall_forall. intros c Hc. assert (HcN : c ∈ (base, 0) :: F) by (rewrite E; set_solver).
    pose proof (proj1 (list.Forall_forall _ _) Hok _ HcN) as (? & _ & ? & _). split; [done|]. split; [by apply (live_far h F ((b, n) :: L) (b, n))|].
    split; [by eapply nodes_apart|]. split; [by apply Hsum|done].
  - apply Hsum.
  - intros m' Hm Hseg.
    assert (Hk : kept (u_mem h) m' L).
    { eapply kept_hdrs; [exact Hm|]. intros a c Ha Hc. apply elem_of_cons in Ha as [->|Ha%list_elem_of_singleton]; [|subst a].
      - pose proof (in_use_apart _ _ _ _ c Hi ltac:(apply elem_of_app; by right)) as Hap. unfold apart2 in Hap. cbn [fst snd] in Hap. lia.
      - apply (node_live h F L (p, np)); [by eapply inv_tail|done|done]. }
    apply (HQ _ F'); [|done|done|done|done]. pose proof (inv_tail _ _ _ _ Hi) as Ht. split; try done; [by rewrite ring_base, <-EF'|apply Ht|].
    eapply kept_size; [exact Hk|eapply ok_positive, Ht|apply Ht].
Qed.

(** ** morecore *)

Context (grants : Z → Z → bool) (Hgrants : ∀ b n, grants b n = true → b + n ≤ 2 ^ 36).

(** The new memory, as a block in use. *)
Lemma inv_grow h F L k : heap_inv h F L → 1 ≤ k → u_brk h + 16 * k ≤ 2 ^ 36 → k < 2 ^ 32 →
  heap_inv (mk_heap (st32 (u_mem h) (u_brk h + 8) k) (u_brk h + 16 * k) (freep h)) F ((u_brk h, k) :: L) ∧
  kept (u_mem h) (st32 (u_mem h) (u_brk h + 8) k) L.
Proof.
  intros Hi Hk Hb Hk32. pose proof Hi as [H1 H2 H3 H4 H5 H6 H7 H8].
  assert (Hup : ∀ l, Forall (block_ok h) l → Forall (block_ok (mk_heap (st32 (u_mem h) (u_brk h + 8) k) (u_brk h + 16 * k) (freep h))) l).
  { intros l Hl. eapply Forall_impl; [|exact Hl]. intros c. unfold block_ok. cbn [u_brk]. lia. }
  assert (Hm : agree_hdrs [u_brk h] (u_mem h) (st32 (u_mem h) (u_brk h + 8) k)) by (apply agree_hdrs_set; [apply list_elem_of_here|apply agree_refl]).
  assert (Hkept : kept (u_mem h) (st32 (u_mem h) (u_brk h + 8) k) L).
  { eapply kept_hdrs; [exact Hm|]. intros a b ->%list_elem_of_singleton Hbl. apply (proj1 (list.Forall_forall _ _) H4) in Hbl as (_ & _ & ?). lia. }
  split; [|done]. split; cbn [u_mem u_brk freep]; try done; [|by apply Hup| | | |lia].
  - revert H1. unfold ring. apply seg_frame. intros a n x Ha. eapply agree_hdrs_hdr; [exact Hm|]. constructor; [|done].
    pose proof (proj1 (list.Forall_forall _ _) (nodes_ok _ _ _ Hi) _ Ha) as ((_ & ?) & _). cbn [fst] in *. unfold far. lia.
  - constructor; [unfold block_ok; cbn; lia|by apply Hup].
  - constructor; [cbn [fst snd]; apply ld32_st32; lia|]. eapply kept_size; [done|by eapply ok_positive|done].
  - eapply apart_perm; [apply Permutation_middle|]. split; [|done]. apply Forall_app_2; (eapply Forall_impl; [|first [exact H3|exact H4]]); intros c (_ & _ & ?); unfold apart2; cbn [fst snd]; lia.
Qed.

Lemma blocks_kept_trans m m' m'' L : kept m m' L → kept m' m'' L → kept m m'' L.
Proof. intros H1 H2 b c Hb Hc. etransitivity; [by eapply H2|by eapply H1]. Qed.

Lemma morecore_spec h F L nu (Q : Z → heap → Prop) : heap_inv h F L → 1 ≤ nu < 2 ^ 27 →
  (grants (u_brk h) (16 * Z.max 4096 nu) = false → Q 0 h) →
  (∀ h' F', heap_inv h' F' L → u_brk h ≤ u_brk h' → kept (u_mem h) (u_mem h') L → has_block nu F' → (length F' ≤ S (length F))%nat → Q (freep h') h') →
  runs (morecore grants nu) h Q.
Proof.
  intros Hi Hnu HQ0 HQ. unfold morecore, sizeof_Header. pose proof (hi_base _ _ _ Hi) as Hbase.
  assert (Ek : (if nu <? 4096 then 4096 else nu) = Z.max 4096 nu) by (destruct (Z.ltb_spec nu 4096); lia). rewrite Ek. set (k := Z.max 4096 nu) in *.
  assert (Hk : 4096 ≤ k ∧ nu ≤ k ∧ k < 2 ^ 27) by lia. clearbody k. rewrite s32_small by lia. apply runs_bind. unfold sbrk. replace (k * 16) with (16 * k) by lia. destruct (grants (u_brk h) (16 * k)) eqn:G.
  - eexists _, _. split; [rewrite G; reflexivity|]. destruct (Z.eqb_spec (u_brk h) (-1)); [lia|].
    apply Hgrants in G. destruct (inv_grow h F L k Hi) as [Hi' Hk']; [lia|lia|lia|].
    apply runs_bind. apply runs_set_size; [unfold inside; cbn; lia|lia|]. unfold with_mem. cbn [u_mem u_brk freep]. apply runs_bind.
    eapply free_spec; [exact Hi'|]. cbn [u_brk u_mem]. intros h' F' Hi2 Hb2 Hk2 Hhas Hlen. apply runs_gets. apply (HQ _ F'); [done|lia|by eapply blocks_kept_trans| |done].
    destruct Hhas as (c & Hc & Hn). exists c. split; [done|lia].
  - eexists _, _. split; [rewrite G; reflexivity|]. apply runs_ret. by apply HQ0.
Qed.
End heap.
