(* ===== verification/MallocTheorems.v ===== *)
(** * The user allocator: malloc, and programs that use it: main theorem *)

From Stdlib Require Import Sorted.
From S2P Require Import Prelude Mem Umalloc UmallocSpec.

Import Umalloc.

(** ** Changing one node of a list *)

Lemma seg_resize m X a k Y e k' : seg m (X ++ (a, k) :: Y) e → (∀ c, c ∈ X ++ Y → far c.1 a) → 0 ≤ k' < 2 ^ 32 →
  seg (st32 m (a + 8) k') (X ++ (a, k') :: Y) e.
Proof.
  intros [HX [Ha HY]]%seg_app Hfar Hk. cbn [first_of] in HX. fold (seg m Y e) in HY.
  assert (Hfr : ∀ Z0 z, (∀ c, c ∈ Z0 → c ∈ X ++ Y) → seg m Z0 z → seg (st32 m (a + 8) k') Z0 z).
  { intros Z0 z HZ. apply seg_frame. intros b n x Hb H. apply hdr_far; [apply (Hfar (b, n)), HZ, Hb|done]. }
  apply seg_app. split; [apply Hfr; [set_solver|done]|]. split; [by apply (hdr_size _ _ _ k)|]. apply Hfr; [set_solver|done].
Qed.

Lemma seg_unlink m A q qn a k B e : seg m (A ++ (q, qn) :: (a, k) :: B) e → (∀ c, c ∈ A ++ (a, k) :: B → far c.1 q) →
  seg (st64 m q (first_of B e)) (A ++ (q, qn) :: B) e.
Proof.
  intros [HA [Hq [Ha HB]]]%seg_app Hfar. cbn [first_of] in HA, Hq. fold (seg m B e) in HB.
  assert (Hfr : ∀ Z0 z, (∀ c, c ∈ Z0 → c ∈ A ++ B) → seg m Z0 z → seg (st64 m q (first_of B e)) Z0 z).
  { intros Z0 z HZ. apply seg_frame. intros b n x Hb H. apply hdr_far; [apply (Hfar (b, n))|done]. apply HZ in Hb. set_solver. }
  apply seg_app. split; [apply Hfr; [set_solver|done]|]. split; [|apply Hfr; [set_solver|done]].
  apply (hdr_ptr _ _ a); [|done]. destruct Ha as [<- _]. apply ld64_range.
Qed.

(** A free block leaves the list, or gives its end. *)
Definition hand_out (nu prevp p size : Z) : M heap Z :=
  p ← (if size =? nu then
         ptr ← get_ptr p;
         set_ptr prevp ptr;;
         mret p
       else
         set_size p (size - nu);;
         let p := plus p (size - nu) in
         set_size p nu;;
         mret p);
  set_freep prevp;;
  mret (plus p 1).

Section malloc.
Context (base start : Z).
Local Abbreviation heap_inv := (heap_inv base start).
Local Abbreviation block_ok := (block_ok start).

Lemma split_nodes A q qn a k (B : list block) F : (base, 0) :: F = A ++ (q, qn) :: (a, k) :: B →
  ∃ F1, F = F1 ++ (a, k) :: B ∧ A ++ [(q, qn)] = (base, 0) :: F1.
Proof.
  intros E. destruct A as [|c A]; cbn [app] in E.
  - injection E as <- <- ->. by exists [].
  - injection E as <- ->. exists (A ++ [(q, qn)]). by rewrite <-app_assoc.
Qed.

(** The rest of the invariant when the block [(a, k)] leaves the free list,
    or keeps its first [k - nu] headers. *)
Lemma removed_blocks h F1 a k B L : heap_inv h (F1 ++ (a, k) :: B) L →
  StronglySorted Z.lt ((F1 ++ B).*1) ∧ Forall (block_ok h) (F1 ++ B) ∧ block_ok h (a, k) ∧ apart ((F1 ++ B) ++ (a, k) :: L).
Proof.
  intros [_ Hs Hf _ _ Ha _ _]. rewrite fmap_app in Hs |- *. apply sorted_app in Hs as (S1 & [S2 _]%StronglySorted_inv & S3).
  apply Forall_app in Hf as [Hf1 [Hf2 Hf3]%list.Forall_cons]. split; [|split; [|split; [done|]]].
  - apply sorted_app. ands; [done|done|]. intros x y Hx Hy. apply S3; [done|by apply list_elem_of_further].
  - by apply Forall_app_2.
  - eapply apart_perm; [|exact Ha]. rewrite <-!app_assoc. apply Permutation_app_head. cbn [app]. apply Permutation_middle.
Qed.

Lemma cut_blocks h F1 a k B L nu : heap_inv h (F1 ++ (a, k) :: B) L → 1 ≤ nu < k →
  StronglySorted Z.lt ((F1 ++ (a, k - nu) :: B).*1) ∧ Forall (block_ok h) (F1 ++ (a, k - nu) :: B) ∧ block_ok h (a + 16 * (k - nu), nu) ∧
  apart ((F1 ++ (a, k - nu) :: B) ++ (a + 16 * (k - nu), nu) :: L).
Proof.
  intros [_ Hs Hf _ _ Ha _ _] Hnu. apply Forall_app in Hf as [Hf1 [(H1 & H2 & H3) Hf3]%list.Forall_cons]. cbn [fst snd] in H1, H2, H3. split; [|split; [|split]].
  - rewrite fmap_app in *. done.
  - apply Forall_app_2; [done|]. constructor; [unfold UmallocSpec.block_ok; cbn [fst snd]; lia|done].
  - unfold UmallocSpec.block_ok. cbn [fst snd]. lia.
  - apply (apart_perm ((a, k - nu) :: (a + 16 * (k - nu), k - (k - nu)) :: F1 ++ B ++ L)).
    + replace (k - (k - nu)) with nu by lia. rewrite <-!app_assoc. cbn [app]. rewrite <-!Permutation_middle. done.
    + apply apart_split; [lia|]. eapply apart_perm; [|exact Ha]. rewrite <-!app_assoc. cbn [app]. symmetry. apply Permutation_middle.
Qed.

Lemma pred_node A q qn F1 X : A ++ [(q, qn)] = (base, 0) :: F1 → q ∈ base :: (F1 ++ X).*1.
Proof.
  intros EF. rewrite fmap_app. change (q ∈ (((base, 0) :: F1).*1) ++ X.*1). rewrite <-EF, fmap_app. set_solver.
Qed.

(** The whole block leaves the list. *)
Lemma inv_unlink h A q qn a k B F1 L : heap_inv h (F1 ++ (a, k) :: B) L → A ++ [(q, qn)] = (base, 0) :: F1 →
  let m' := st64 (u_mem h) q (first_of B base) in
  heap_inv (mk_heap m' (u_brk h) q) (F1 ++ B) ((a, k) :: L) ∧ kept (u_mem h) m' L.
Proof.
  intros Hi EF m'. destruct (removed_blocks _ _ _ _ _ _ Hi) as (R1 & R2 & R3 & R4). pose proof R3 as (Ra & Rk & _). cbn [fst snd] in Ra, Rk.
  assert (E : (base, 0) :: F1 ++ (a, k) :: B = A ++ (q, qn) :: (a, k) :: B) by (rewrite (app_comm_cons F1), <-EF, <-app_assoc; done).
  pose proof (hi_ring _ _ _ _ _ Hi) as Hring. rewrite ring_base, E in Hring.
  assert (Hqfar : ∀ c, c ∈ A ++ (a, k) :: B → far c.1 q) by (intros c Hc; by eapply nodes_apart).
  assert (Hm : agree_hdrs [q] (u_mem h) m') by (apply agree_hdrs_set; [apply list_elem_of_here|apply agree_refl]).
  assert (Hkept : kept (u_mem h) m' L).
  { eapply kept_hdrs; [exact Hm|]. intros c b ->%list_elem_of_singleton Hb. apply (node_live base start h _ L (q, qn) b Hi); [rewrite E; set_solver|done]. }
  split; [|done]. pose proof Hi as [_ _ _ Hl Hz _ _ Hb]. split; cbn [u_mem u_brk freep]; try done; [| | |by eapply pred_node].
  - rewrite ring_base, (app_comm_cons F1), <-EF, <-app_assoc. by apply (seg_unlink _ _ _ _ a k).
  - by constructor.
  - constructor; [|eapply kept_size; [exact Hkept|by eapply ok_positive|done]]. cbn [fst snd].
    rewrite (cons_middle (q, qn)), app_assoc in Hring. pose proof (seg_hdr _ _ _ _ _ _ Hring) as Hh.
    destruct (hdr_far _ a q _ _ (first_of B base) (Hqfar (a, k) ltac:(set_solver)) Hh) as [[_ G] _]. exact G.
Qed.

(** The block keeps its first headers, the last [nu] are handed out. *)
Lemma inv_cut h A q qn a k B F1 L nu : heap_inv h (F1 ++ (a, k) :: B) L → A ++ [(q, qn)] = (base, 0) :: F1 → 1 ≤ nu < k → k < 2 ^ 32 →
  let c := a + 16 * (k - nu) in let m' := st32 (st32 (u_mem h) (a + 8) (k - nu)) (c + 8) nu in
  heap_inv (mk_heap m' (u_brk h) q) (F1 ++ (a, k - nu) :: B) ((c, nu) :: L) ∧ kept (u_mem h) m' L.
Proof.
  intros Hi EF Hnu Hk c m'. destruct (cut_blocks _ _ _ _ _ _ _ Hi Hnu) as (R1 & R2 & R3 & R4). fold c in R3, R4.
  destruct (removed_blocks _ _ _ _ _ _ Hi) as (_ & _ & Ra & Rap).
  assert (Ea : (base, 0) :: F1 ++ (a, k) :: B = ((base, 0) :: F1) ++ (a, k) :: B) by done.
  pose proof (hi_ring _ _ _ _ _ Hi) as Hring. rewrite ring_base, Ea in Hring.
  assert (Hfar : ∀ d, d ∈ ((base, 0) :: F1) ++ B → far d.1 a ∧ far d.1 c).
  { intros d Hd. destruct (nodes_apart _ _ _ _ _ _ _ _ _ d Hi Ea Hd) as [H1 H2]. split; [done|].
    pose proof (proj1 (list.Forall_forall _ _) (nodes_ok _ _ _ _ _ Hi) d ltac:(set_solver)) as (_ & _ & H3 & _). pose proof (hi_base _ _ _ _ _ Hi) as H4.
    destruct Ra as (H5 & _). cbn [fst] in H5. unfold far, c in *. destruct H2 as [->|[[= -> ->]|H2]]; [cbn [fst]; lia|lia|]. unfold apart2 in H2. cbn [fst snd] in H2. lia. }
  assert (Hm : agree_hdrs [a; c] (u_mem h) m') by (do 2 (apply agree_hdrs_set; [set_solver|]); apply agree_refl).
  assert (Hkept : kept (u_mem h) m' L).
  { eapply kept_hdrs; [exact Hm|]. intros d b Hd Hb. destruct (apart_app _ _ Rap) as (_ & [Hal _] & _). apply (proj1 (list.Forall_forall _ _) Hal) in Hb.
    unfold apart2 in Hb. cbn [fst snd] in Hb. unfold c in Hd. set_unfold in Hd. lia. }
  split; [|done]. pose proof Hi as [_ _ _ Hl Hz _ _ Hb]. split; cbn [u_mem u_brk freep]; try done; [| | |by eapply pred_node].
  - rewrite ring_base, (app_comm_cons F1). pose proof (seg_resize _ _ _ _ _ _ (k - nu) Hring ltac:(intros d Hd; by apply Hfar) ltac:(lia)) as Hs.
    revert Hs. apply seg_frame. intros d n x Hd Hh. apply hdr_far; [|done]. apply elem_of_app in Hd as [Hd|[[= -> ->]|Hd]%elem_of_cons]; [apply (Hfar (d, n)); set_solver|unfold far; lia|apply (Hfar (d, n)); set_solver].
  - by constructor.
  - constructor; [|eapply kept_size; [exact Hkept|by eapply ok_positive|done]]. cbn [fst snd]. apply ld32_st32. lia.
Qed.

Lemma hand_out_spec h F L nu A q qn a k B (Q : Z → heap → Prop) : heap_inv h F L → 1 ≤ nu → (base, 0) :: F = A ++ (q, qn) :: (a, k) :: B → nu ≤ k →
  (∀ h' F' b, heap_inv h' F' ((b, nu) :: L) → u_brk h' = u_brk h → kept (u_mem h) (u_mem h') L → Q (plus b 1) h') →
  runs (hand_out nu q a k) h Q.
Proof.
  intros Hi Hnu E Hk HQ. pose proof (hi_ring _ _ _ _ _ Hi) as Hring. rewrite ring_base, E in Hring.
  pose proof (proj1 (list.Forall_forall _ _) (nodes_ok _ _ _ _ _ Hi)) as Hok.
  destruct (Hok (q, qn)) as (Hqin & _); [rewrite E; set_solver|]. destruct (Hok (a, k)) as (Hain & Hab & _ & Hk32); [rewrite E; set_solver|]. cbn [fst snd] in *.
  destruct (split_nodes _ _ _ _ _ _ _ E) as (F1 & -> & EF). unfold hand_out. apply runs_bind. destruct (Z.eqb_spec k nu) as [->|Hne].
  - apply runs_bind. eapply runs_get_ptr; [done| |].
    { rewrite (cons_middle (q, qn)), app_assoc in Hring. exact (seg_hdr _ _ _ _ _ _ Hring). }
    apply runs_bind. apply runs_set_ptr; [done|]. apply runs_ret. eexists _, _. split; [reflexivity|].
    destruct (inv_unlink _ _ _ _ _ _ _ _ _ Hi EF) as [Hi' Hk']. by apply (HQ _ (F1 ++ B) a).
  - destruct (cut_blocks _ _ _ _ _ _ nu Hi) as (_ & _ & (Hc1 & _ & Hc2) & _); [lia|]. cbn [fst snd] in Hc1, Hc2.
    destruct (inv_cut _ _ _ _ _ _ _ _ _ nu Hi EF) as [Hi' Hk']; [lia|done|]. pose proof (hi_base _ _ _ _ _ Hi).
    apply runs_bind. apply runs_set_size; [done|lia|]. cbv zeta. replace (plus a (k - nu)) with (a + 16 * (k - nu)) by (unfold plus, sizeof_Header; lia).
    apply runs_bind. apply runs_set_size; [unfold inside; cbn; lia|lia|]. apply runs_ret. eexists _, _. split; [reflexivity|].
    by apply (HQ _ (F1 ++ (a, k - nu) :: B)).
Qed.

(** ** The search *)

Context (grants : Z → Z → bool) (Hgrants : ∀ b n, grants b n = true → b + n ≤ 2 ^ 36).

(** What [malloc] does when no free block is large enough. *)
Definition more (fuel : nat) (nu : Z) : M heap Z :=
  p ← morecore grants nu;
  if p =? 0 then mret 0
  else
    ptr ← get_ptr p;
    malloc_loop grants fuel nu p ptr.

Section search.
Context (h : heap) (F L : list block) (nu : Z) (Q : Z → heap → Prop) (Hi : heap_inv h F L) (Hnu : 1 ≤ nu).
Context (Hfound : ∀ A q qn a k B, (base, 0) :: F = A ++ (q, qn) :: (a, k) :: B → nu ≤ k → runs (hand_out nu q a k) h Q).

Lemma loop_next fuel q a k x : inside a h → hdr (u_mem h) a x k → k < nu → a ≠ freep h →
  runs (malloc_loop grants fuel nu a x) h Q → runs (malloc_loop grants (S fuel) nu q a) h Q.
Proof.
  intros Ha Hh Hk Hne HQ. cbn [malloc_loop]. apply runs_bind. eapply runs_get_size; [done|done|]. rewrite (proj2 (Z.leb_gt nu k)) by done.
  apply runs_bind. exists h, h. split; [done|]. rewrite (proj2 (Z.eqb_neq _ _)) by done. apply runs_bind. eapply runs_get_ptr; [done|done|done].
Qed.

Lemma loop_found fuel q a k x : inside a h → hdr (u_mem h) a x k → nu ≤ k → runs (hand_out nu q a k) h Q → runs (malloc_loop grants (S fuel) nu q a) h Q.
Proof.
  intros Ha Hh Hk HQ. cbn [malloc_loop]. apply runs_bind. eapply runs_get_size; [done|done|]. by rewrite (proj2 (Z.leb_le nu k)) by done.
Qed.

Lemma loop_more fuel q a k x : inside a h → hdr (u_mem h) a x k → k < nu → a = freep h → runs (more fuel nu) h Q → runs (malloc_loop grants (S fuel) nu q a) h Q.
Proof.
  intros Ha Hh Hk -> HQ. cbn [malloc_loop]. apply runs_bind. eapply runs_get_size; [done|done|]. rewrite (proj2 (Z.leb_gt nu k)) by done.
  apply runs_bind. exists h, h. split; [done|]. by rewrite Z.eqb_refl.
Qed.

Lemma node_hdr A a k B : (base, 0) :: F = A ++ (a, k) :: B → inside a h ∧ hdr (u_mem h) a (first_of B base) k.
Proof.
  intros E. pose proof (hi_ring _ _ _ _ _ Hi) as Hring. rewrite ring_base, E in Hring. split; [|by eapply seg_hdr].
  apply (proj1 (list.Forall_forall _ _) (nodes_ok _ _ _ _ _ Hi) (a, k)). rewrite E. set_solver.
Qed.

(** Over the nodes [S0], none of which is [freep]. *)
Lemma loop_seg S0 T : ∀ A q qn fuel, (base, 0) :: F = A ++ (q, qn) :: S0 ++ T → freep h ∉ S0.*1 →
  (∀ A' q' qn', (base, 0) :: F = A' ++ (q', qn') :: T → Forall (λ c, c.2 < nu) S0 → runs (malloc_loop grants fuel nu q' (first_of T base)) h Q) →
  runs (malloc_loop grants (length S0 + fuel) nu q (first_of (S0 ++ T) base)) h Q.
Proof.
  induction S0 as [|[a k] S0 IH]; intros A q qn fuel E Hf HQ; [by eapply HQ|]. cbn [length Nat.add app first_of].
  pose proof E as E'. rewrite (cons_middle (q, qn)), app_assoc in E'. destruct (node_hdr _ _ _ _ E') as [Ha Hh].
  destruct (decide (nu ≤ k)) as [Hk|Hk]; [eapply loop_found; [done|done|done|by eapply Hfound]|].
  eapply loop_next; [done|done|lia|intros ->; apply Hf, list_elem_of_here|]. eapply IH; [exact E'|intros G; by apply Hf, list_elem_of_further|].
  intros A' q' qn' E2 HS. eapply HQ; [done|]. constructor; [cbn; lia|done].
Qed.

(** Once around the list. *)
Lemma loop_lap fuel : (Forall (λ c, c.2 < nu) F → runs (more fuel nu) h Q) →
  runs (malloc_loop grants (S (length F) + fuel) nu (freep h) (ld64 (u_mem h) (freep h))) h Q.
Proof.
  intros HQ. pose proof (hi_freep _ _ _ _ _ Hi) as Hfr. pose proof (nodes_sorted _ _ _ _ _ Hi) as Hs.
  change (base :: F.*1) with (((base, 0) :: F).*1) in Hfr. apply list_elem_of_fmap in Hfr as ([fp fn] & Efp & Hfr). apply list_elem_of_split in Hfr as (X & Y & EN).
  cbn [fst] in Efp. destruct (node_hdr _ _ _ _ EN) as [Hfin Hfh]. rewrite Efp, (proj1 Hfh). rewrite EN, fmap_app in Hs. apply sorted_app in Hs as (_ & [_ HY]%StronglySorted_inv & HX).
  assert (HfY : freep h ∉ Y.*1) by (intros G; apply (proj1 (list.Forall_forall _ _) HY) in G; cbn [fst] in G; lia).
  assert (Hlen : (S (length F) + fuel = length Y + (length X + S fuel))%nat) by (apply (f_equal length) in EN; rewrite length_app in EN; cbn [length] in EN; lia).
  rewrite Hlen. replace (first_of Y base) with (first_of (Y ++ []) base) by (by rewrite app_nil_r). rewrite <-(app_nil_r Y) in EN. apply (loop_seg Y [] X fp fn); [done|done|]. intros A q qn E1 HYs. cbn [first_of].
  rewrite app_nil_r in EN. destruct (node_hdr [] base 0 F eq_refl) as [Hbin Hbh]. destruct X as [|c X].
  { cbn [app] in EN. injection EN as <- <- ->. cbn [length Nat.add]. eapply loop_more; [done|done|lia|done|]. by apply HQ. }
  injection EN as <- EN. cbn [length Nat.add]. rewrite EN in Hbh. assert (HfX : (freep h ∉ X.*1) ∧ base ≠ freep h).
  { split; [intros G|intros G]; [specialize (HX (freep h) (freep h))|specialize (HX base (freep h))]; rewrite Efp in *; cbn in HX; set_solver by lia. }
  eapply loop_next; [done|done|lia|apply HfX|]. apply (loop_seg X _ [] base 0); [by rewrite EN|apply HfX|]. intros A' q' qn' E2 HXs. cbn [first_of].
  destruct (decide (nu ≤ fn)) as [Hk|Hk]; [eapply loop_found; [done|done|done|by eapply Hfound]|].
  eapply loop_more; [done|done|lia|done|]. apply HQ. rewrite EN. apply Forall_app_2; [done|]. constructor; [cbn; lia|done].
Qed.
End search.

(** ** malloc *)

Lemma freep_node h F L : heap_inv h F L → freep h ≠ 0 ∧ inside (freep h) h.
Proof.
  intros Hi. pose proof (hi_freep _ _ _ _ _ Hi) as Hfr. change (base :: F.*1) with (((base, 0) :: F).*1) in Hfr. apply list_elem_of_fmap in Hfr as (d & -> & Hd).
  apply (proj1 (list.Forall_forall _ _) (nodes_ok _ _ _ _ _ Hi)) in Hd as (? & ? & _). pose proof (hi_base _ _ _ _ _ Hi). split; [lia|done].
Qed.

(** [malloc] hands out a block of [nu] headers, or there is none and the
    kernel has no memory. *)
Definition malloc_post (h : heap) (F L : list block) (nu : Z) (r : Z) (h' : heap) : Prop :=
  (r = 0 ∧ h' = h ∧ Forall (λ c, c.2 < nu) F ∧ grants (u_brk h) (16 * Z.max 4096 nu) = false) ∨
  (∃ F' b, r = plus b 1 ∧ heap_inv h' F' ((b, nu) :: L) ∧ u_brk h ≤ u_brk h' ∧ kept (u_mem h) (u_mem h') L).

Lemma search_spec h F L nu fuel : heap_inv h F L → 1 ≤ nu < 2 ^ 27 → (2 * length F + 3 ≤ fuel)%nat →
  runs (malloc_loop grants fuel nu (freep h) (ld64 (u_mem h) (freep h))) h (malloc_post h F L nu).
Proof.
  intros Hi Hnu Hf. replace fuel with (S (length F) + (fuel - S (length F)))%nat by lia. eapply loop_lap; [done|lia| |].
  { intros A q qn a k B E Hk. eapply hand_out_spec; [done|lia|done|done|]. intros h' F' b Hi' Hb Hkept. right. exists F', b. ands; [done|done|lia|done]. }
  intros Hsmall. unfold more. apply runs_bind. eapply morecore_spec; [done|done|done| |].
  { intros G. cbn. apply runs_ret. by left. }
  intros h1 F1 Hi1 Hb1 Hk1 (c & Hc & Hck) Hlen.
  pose proof (freep_node _ _ _ Hi1) as Hne.
  rewrite (proj2 (Z.eqb_neq _ _)) by apply Hne. apply runs_bind. eapply runs_get_ptr; [apply Hne|done|].
  replace (fuel - S (length F))%nat with (S (length F1) + (fuel - S (length F) - S (length F1)))%nat by lia. eapply loop_lap; [done|lia| |].
  - intros A q qn a k B E Hk. eapply hand_out_spec; [done|lia|done|done|]. intros h' F' b Hi' Hb Hkept. right. exists F', b. ands; [done|done|lia|]. by eapply blocks_kept_trans.
  - intros Hall. exfalso. apply (proj1 (list.Forall_forall _ _) Hall) in Hc. cbn in Hc. lia.
Qed.

(** The first call finds an empty list. *)
Definition fresh (h : heap) : Prop := freep h = 0 ∧ 0 < base ∧ base + 16 ≤ start ∧ start ≤ u_brk h ≤ 2 ^ 36.

Definition init_list : M heap Z := set_freep base;; set_ptr base base;; set_size base 0;; mret base.

Lemma init_spec h : fresh h → runs init_list h (λ p h', p = freep h' ∧ heap_inv h' [] [] ∧ u_brk h' = u_brk h).
Proof.
  intros (Hf & Hb). unfold init_list. apply runs_bind. eexists _, _. split; [reflexivity|].
  apply runs_bind, runs_set_ptr; [unfold inside; cbn; lia|]. apply runs_bind, runs_set_size; [unfold inside; cbn; lia|lia|]. apply runs_ret.
  split; [done|split; [|done]]. split; [|constructor|by constructor|by constructor|by constructor|done|by apply list_elem_of_here|done]. unfold with_mem. cbn [u_mem].
  unfold ring. cbn [first_of seg]. split; [|done]. split; [rewrite ldn_stn_ne by lia; apply ld64_st64; lia|by apply ld32_st32].
Qed.

(** The state of the allocator with the blocks [L] in use. *)
Definition alloc_inv (h : heap) (L : list block) : Prop := (fresh h ∧ L = []) ∨ ∃ F, heap_inv h F L.

Definition units (nbytes : Z) : Z := (nbytes + 15) / 16 + 1.

Lemma malloc_spec h L nbytes : alloc_inv h L → 0 ≤ nbytes ≤ 2 ^ 31 - 32 →
  runs (malloc base grants nbytes) h (λ r h', u_brk h ≤ u_brk h' ∧ kept (u_mem h) (u_mem h') L ∧
    ((r = 0 ∧ u_brk h' = u_brk h ∧ grants (u_brk h) (16 * Z.max 4096 (units nbytes)) = false ∧ alloc_inv h' L) ∨
     (∃ b, r = plus b 1 ∧ alloc_inv h' ((b, units nbytes) :: L)))).
Proof.
  intros Hinv Hn. unfold malloc, sizeof_Header. replace (nbytes + 16 - 1) with (nbytes + 15) by lia.
  assert (Hu : 1 ≤ units nbytes < 2 ^ 27).
  { unfold units. assert (0 ≤ (nbytes + 15) / 16) by (apply Z.div_pos; lia). assert ((nbytes + 15) / 16 < 2 ^ 27 - 1); [|lia]. apply Z.div_lt_upper_bound; lia. }
  rewrite (u32_small (_ / 16 + 1)) by (fold (units nbytes); lia). fold (units nbytes). generalize dependent (units nbytes). intros nu Hnu.
  apply runs_bind. exists h, h. split; [done|]. apply runs_bind.
  apply (runs_mono _ _ (λ p h', p = freep h' ∧ u_brk h' = u_brk h ∧ kept (u_mem h) (u_mem h') L ∧ ∃ F, heap_inv h' F L)).
  - destruct Hinv as [[Hf ->]|[F Hi]].
    + pose proof Hf as [-> _]. cbn. eapply runs_mono; [by apply init_spec|]. cbn beta. intros p h' (-> & Hi & Hb). ands; [done|done|intros b c Hb'; by apply elem_of_nil in Hb'|by exists []].
    + destruct (freep_node _ _ _ Hi) as [Hne _]. rewrite (proj2 (Z.eqb_neq _ _)) by done. apply runs_ret. ands; [done|done|by intros|by exists F].
  - cbn beta. intros p h1 (-> & Hb1 & Hk1 & F & Hi). apply runs_bind. eapply runs_get_ptr; [by eapply freep_node|done|].
    apply runs_bind. exists h1, h1. split; [done|]. pose proof (nodes_bound _ _ _ _ _ Hi) as Hlen.
    eapply runs_mono; [apply search_spec; [done|done|lia]|]. intros r h' [(-> & -> & _ & G)|(F' & b & -> & Hi' & Hb' & Hk')].
    + ands; [lia|done|]. left. rewrite Hb1 in G. ands; [done|done|done|]. right. by exists F.
    + ands; [lia|by eapply blocks_kept_trans|]. right. exists b. split; [done|]. right. by exists F'.
Qed.

Lemma free_alloc h L1 b n L2 : alloc_inv h (L1 ++ (b, n) :: L2) →
  runs (free (plus b 1)) h (λ _ h', u_brk h' = u_brk h ∧ kept (u_mem h) (u_mem h') (L1 ++ L2) ∧ alloc_inv h' (L1 ++ L2)).
Proof.
  intros [[_ E]|[F Hi]]; [by destruct L1|]. eapply (free_spec base start h F (L1 ++ L2) b n).
  - destruct Hi as [H1 H2 H3 H4 H5 H6 H7 H8]. assert (Hp : L1 ++ (b, n) :: L2 ≡ₚ (b, n) :: L1 ++ L2) by (symmetry; apply Permutation_middle).
    split; try done; [by rewrite <-Hp|by rewrite <-Hp|]. eapply apart_perm; [|exact H6]. by rewrite Hp.
  - intros h' F' Hi' Hb Hk _ _. ands; [done|done|]. right. by exists F'.
Qed.
End malloc.

(** * A program that allocates, writes and releases objects *)

Import Umalloc.

(** What a program does with its objects, which it numbers. *)
Inductive op :=
| Alloc (nbytes : Z)
| Release (i : nat)
| Poke (i : nat) (off v : Z).

(** An object, and what the program has written to it. *)
Record obj := mk_obj {
  o_ptr : Z;
  o_len : Z;
  o_bytes : gmap Z Z;
}.

(** The objects, and the requests that were refused with the break. *)
Record client := mk_client {
  objs : list obj;
  refused : list (Z * Z);
}.

Section client.
Context (base start : Z) (grants : Z → Z → bool).

Definition client_step (c : client) (o : op) : M heap client :=
  match o with
  | Alloc n =>
    b ← gets u_brk;
    r ← malloc base grants n;
    mret (if r =? 0 then mk_client (objs c) ((b, n) :: refused c) else mk_client (mk_obj r n ∅ :: objs c) (refused c))
  | Release i =>
    match objs c !! i with
    | Some o => free (o_ptr o);; mret (mk_client (delete i (objs c)) (refused c))
    | None => mret c
    end
  | Poke i off v =>
    match objs c !! i with
    | Some o =>
      if (0 <=? off) && (off <? o_len o) then
        store 1 (o_ptr o + off) v;;
        mret (mk_client (<[i := mk_obj (o_ptr o) (o_len o) (<[off := v]> (o_bytes o))]> (objs c)) (refused c))
      else mret c
    | None => mret c
    end
  end.

Fixpoint client_run (c : client) (ops : list op) : M heap client :=
  match ops with
  | [] => mret c
  | o :: ops =>
    c ← client_step c o;
    client_run c ops
  end.

Definition op_ok (o : op) : Prop :=
  match o with
  | Alloc n => 0 ≤ n ≤ 2 ^ 31 - 32
  | Release _ => True
  | Poke _ _ v => 0 ≤ v < 256
  end.

(** The object [o] lives in the block [b]. *)
Definition in_block (m : gmap Z Z) (o : obj) (b : block) : Prop :=
  o_ptr o = plus b.1 1 ∧ 0 ≤ o_len o ≤ 16 * (b.2 - 1) ∧
  ∀ off v, o_bytes o !! off = Some v → 0 ≤ off < o_len o ∧ byte_at m (o_ptr o + off) = v.

Definition client_inv (c : client) (h : heap) : Prop :=
  (∃ L, alloc_inv base start h L ∧ Forall2 (in_block (u_mem h)) (objs c) L) ∧
  Forall (λ '(b, n), grants b (16 * Z.max 4096 (units n)) = false) (refused c).

Lemma in_block_kept m m' os L : Forall2 (in_block m) os L → kept m m' L → Forall2 (in_block m') os L.
Proof.
  intros H. induction H as [|o b os L (H1 & H2 & H3) _ IH]; intros Hk; [constructor|]. constructor; [|apply IH; intros b' c Hb'; apply Hk; by apply list_elem_of_further].
  split; [done|]. split; [done|]. intros off v Hv. destruct (H3 off v Hv) as [H4 H5]. split; [done|]. rewrite <-H5. apply (Hk b); [apply list_elem_of_here|].
  rewrite H1. unfold plus, sizeof_Header. lia.
Qed.

Lemma apart_pair l x y : apart l → x ∈ l → y ∈ l → x = y ∨ apart2 x y.
Proof.
  induction l as [|b l IH]; [intros _ Hx; by apply elem_of_nil in Hx|]. intros Ha [->|Hx]%elem_of_cons [->|Hy]%elem_of_cons.
  - by left.
  - right. by eapply apart_in.
  - right. apply apart2_sym. by eapply apart_in.
  - destruct Ha as [_ Ha]. by apply IH.
Qed.

Lemma apart_lookup l : ∀ i j x y, apart l → i ≠ j → l !! i = Some x → l !! j = Some y → apart2 x y.
Proof.
  induction l as [|b l IH]; [done|]. intros i j x y [Hb Ha] Hij Hx Hy. pose proof (proj1 (list.Forall_forall _ _) Hb) as Hb'. destruct i as [|i], j as [|j]; cbn in *.
  - done.
  - injection Hx as <-. apply Hb'. by eapply list_elem_of_lookup_2.
  - injection Hy as <-. apply apart2_sym, Hb'. by eapply list_elem_of_lookup_2.
  - eapply (IH i j); [done|congruence|done|done].
Qed.

(** A write into a block in use, behind its header. *)
Lemma alloc_poke h L b k a v : alloc_inv base start h L → (b, k) ∈ L → b + 16 ≤ a < b + 16 * k → alloc_inv base start (with_mem (stn 1 (u_mem h) a v) h) L.
Proof.
  intros [[_ ->]|[F Hi]] Hb Ha; [by apply elem_of_nil in Hb|]. right. exists F. pose proof Hi as [H1 H2 H3 H4 H5 H6 H7 H8].
  split; try done; cbn [u_mem with_mem].
  - revert H1. unfold ring. apply seg_frame. intros c n x Hc [<- <-]. pose proof (node_live _ _ _ _ _ _ _ Hi Hc Hb) as Hd. cbn [fst snd] in Hd.
    split; rewrite ldn_stn_ne by lia; done.
  - apply list.Forall_forall. intros c Hc. pose proof (proj1 (list.Forall_forall _ _) H5 _ Hc) as H9. etransitivity; [|exact H9]. apply apart_app in H6 as (_ & H6 & _).
    pose proof (proj1 (list.Forall_forall _ _) H4 _ Hc) as (_ & Hc2 & _). apply ldn_stn_ne.
    destruct (apart_pair _ _ _ H6 Hc Hb) as [->|Hap]; [cbn [fst]; lia|]. unfold apart2 in Hap. cbn [fst snd] in Hap. lia.
Qed.

Lemma kept_poke m L1 b k L2 a v : apart (L1 ++ (b, k) :: L2) → b + 16 ≤ a < b + 16 * k → kept m (stn 1 m a v) (L1 ++ L2).
Proof.
  intros Hap Ha c d Hc Hd. apply byte_at_stn. apply (apart_perm _ ((b, k) :: L1 ++ L2)) in Hap; [|symmetry; apply Permutation_middle].
  pose proof (apart_in _ _ _ Hap Hc) as H. unfold apart2 in H. cbn [fst snd] in H. lia.
Qed.

Lemma inv_live h L : alloc_inv base start h L → apart L ∧ Forall (block_ok start h) L.
Proof.
  intros [[_ ->]|[F Hi]]; [by split|]. destruct (apart_app _ _ (hi_apart _ _ _ _ _ Hi)) as (_ & Ha & _). split; [done|apply Hi].
Qed.

Context (Hgrants : ∀ b n, grants b n = true → b + n ≤ 2 ^ 36).

Lemma alloc_step c h n : client_inv c h → op_ok (Alloc n) → runs (client_step c (Alloc n)) h client_inv.
Proof.
  intros ((L & Hi & HL) & Hr) Hn. cbn [op_ok] in Hn. cbn [client_step]. apply runs_bind, runs_gets, runs_bind. pose proof (inv_live _ _ Hi) as [_ Hlive].
  eapply runs_mono; [by eapply (malloc_spec base start)|]. cbn beta. intros r h' (Hb & Hk & [(-> & Hb' & G & Hi')|(b & -> & Hi')]); apply runs_ret.
  - cbn. split; [exists L; split; [done|by eapply in_block_kept]|]. by constructor.
  - destruct (inv_live _ _ Hi') as [_ [(Hb1 & Hb2 & _) _]%list.Forall_cons]. cbn [fst snd] in Hb1, Hb2.
    assert (0 < b) by (destruct Hi' as [[_ [=]]|[F Hi']]; pose proof (hi_base _ _ _ _ _ Hi'); lia).
    rewrite (proj2 (Z.eqb_neq _ _)) by (unfold plus, sizeof_Header; lia). cbn. split; [|done]. exists ((b, units n) :: L). split; [done|].
    constructor; [|by eapply in_block_kept]. split; [done|]. split; [|intros off v Hv; cbn in Hv; by rewrite lookup_empty in Hv]. cbn [o_len snd]. unfold units.
    pose proof (Z.div_mod (n + 15) 16 ltac:(lia)). pose proof (Z.mod_pos_bound (n + 15) 16 ltac:(lia)). lia.
Qed.

Lemma release_step c h i : client_inv c h → runs (client_step c (Release i)) h client_inv.
Proof.
  intros ((L & Hi & HL) & Hr). cbn [client_step]. destruct (objs c !! i) as [o|] eqn:Eo; [|apply runs_ret; split; [by exists L|done]].
  destruct (Forall2_lookup_l _ _ _ _ _ HL Eo) as ([b k] & Eb & (Ep & _)). rewrite Ep. cbn [fst].
  pose proof (take_drop_middle _ _ _ Eb) as EL. rewrite <-EL in Hi. apply runs_bind. eapply runs_mono; [by eapply (free_alloc base start)|].
  cbn beta. intros _ h' (_ & Hk & Hi'). apply runs_ret. split; [|done]. exists (take i L ++ drop (S i) L). split; [done|]. cbn [objs].
  eapply in_block_kept; [|exact Hk]. rewrite delete_take_drop. apply Forall2_app; [by apply Forall2_take|by apply Forall2_drop].
Qed.

Lemma poke_step c h i off v : client_inv c h → op_ok (Poke i off v) → runs (client_step c (Poke i off v)) h client_inv.
Proof.
  intros ((L & Hi & HL) & Hr) Hv. cbn [op_ok] in Hv. cbn [client_step]. assert (Hsame : client_inv c h) by (split; [by exists L|done]).
  destruct (objs c !! i) as [o|] eqn:Eo; [|by apply runs_ret]. destruct ((0 <=? off) && (off <? o_len o)) eqn:Eoff; [|by apply runs_ret].
  destruct (Forall2_lookup_l _ _ _ _ _ HL Eo) as ([b k] & Eb & (Ep & Hlen & Hby)). cbn [fst snd] in Ep, Hlen. unfold plus, sizeof_Header in Ep.
  destruct (inv_live _ _ Hi) as [Hap Hok]. pose proof (proj1 (list.Forall_forall _ _) Hok _ (list_elem_of_lookup_2 _ _ _ Eb)) as (Hb1 & Hb2 & Hb3). cbn [fst snd] in Hb1, Hb2, Hb3.
  assert (0 < b). { destruct Hi as [[_ ->]|[F Hi]]; [done|]. pose proof (hi_base _ _ _ _ _ Hi). lia. }
  apply runs_bind. unfold store, in_memory. eexists _, _. split.
  { rewrite (proj2 (Z.leb_le _ _)) by lia. rewrite (proj2 (Z.leb_le _ _)) by lia. reflexivity. }
  apply runs_ret. split; [|done]. exists L. split; [apply (alloc_poke _ _ b k); [done|by eapply list_elem_of_lookup_2|lia]|]. cbn [objs u_mem].
  pose proof (take_drop_middle _ _ _ Eb) as EL. rewrite <-EL in Hap. pose proof (kept_poke (u_mem h) _ _ _ _ (o_ptr o + off) v Hap ltac:(lia)) as Hk.
  rewrite insert_take_drop by (by eapply lookup_lt_Some). rewrite <-EL. apply Forall2_app; [|constructor].
  - eapply in_block_kept; [by apply Forall2_take|]. intros d x Hd. apply Hk. apply elem_of_app. by left.
  - split; [exact Ep|]. split; [done|]. cbn [o_bytes o_len o_ptr]. intros x w. rewrite lookup_insert. case_decide as E; [intros [= ->]; subst x|].
    + split; [lia|]. unfold byte_at, stn. rewrite lookup_insert_eq. cbn. unfold u8. apply Z.mod_small. lia.
    + intros Hw. destruct (Hby x w Hw) as [Hx Hw2]. split; [done|]. rewrite byte_at_stn by lia. done.
  - eapply in_block_kept; [by apply Forall2_drop|]. intros d x Hd. apply Hk. apply elem_of_app. by right.
Qed.

Lemma client_runs ops : ∀ c h, client_inv c h → Forall op_ok ops → runs (client_run c ops) h client_inv.
Proof.
  induction ops as [|o ops IH]; intros c h Hc Hops; [by apply runs_ret|]. apply list.Forall_cons in Hops as [Ho Hops]. cbn [client_run]. apply runs_bind.
  eapply runs_mono; [|intros c' h' Hc'; by apply IH]. destruct o; [by apply alloc_step|by apply release_step|by apply poke_step].
Qed.

(** The objects hold what was written to them and do not overlap. *)
Definition objects_ok (h : heap) (os : list obj) : Prop :=
  (∀ i o, os !! i = Some o → start ≤ o_ptr o ∧ o_ptr o + o_len o ≤ u_brk h ∧
     ∀ off v, o_bytes o !! off = Some v → byte_at (u_mem h) (o_ptr o + off) = v) ∧
  (∀ i j o o', i ≠ j → os !! i = Some o → os !! j = Some o' → o_ptr o + o_len o ≤ o_ptr o' ∨ o_ptr o' + o_len o' ≤ o_ptr o).

Lemma client_objects c h : client_inv c h → objects_ok h (objs c).
Proof.
  intros ((L & Hi & HL) & _). destruct (inv_live _ _ Hi) as [Hap Hok]. split.
  - intros i o Ho. destruct (Forall2_lookup_l _ _ _ _ _ HL Ho) as ([b k] & Eb & (Ep & Hlen & Hby)).
    pose proof (proj1 (list.Forall_forall _ _) Hok _ (list_elem_of_lookup_2 _ _ _ Eb)) as (Hb1 & Hb2 & Hb3). unfold plus, sizeof_Header in Ep. cbn [fst snd] in *.
    ands; [lia|lia|]. intros off v Hv. by apply Hby.
  - intros i j o o' Hij Ho Ho'. destruct (Forall2_lookup_l _ _ _ _ _ HL Ho) as ([b k] & Eb & (Ep & Hlen & _)).
    destruct (Forall2_lookup_l _ _ _ _ _ HL Ho') as ([b' k'] & Eb' & (Ep' & Hlen' & _)). unfold plus, sizeof_Header in Ep, Ep'. cbn [fst snd] in *.
    assert (apart2 (b, k) (b', k')) as Ha by (by eapply apart_lookup). unfold apart2 in Ha. cbn [fst snd] in Ha. lia.
Qed.
End client.

(** C18. A program may allocate objects of up to 2^31 - 32 bytes, write to
    them and release them in any order, starting with an empty free list:
    every malloc and free ends, none faults; at every moment the live
    objects lie in the memory below the break, do not overlap and hold the
    bytes the program wrote to them last, and a request was refused only
    when the kernel did not grant the memory for it.  The kernel is assumed to
    grant memory below 2^36 only (the machine has 2^27 bytes, and sbrk
    allocates them at once), so that sizes of joined blocks fit 32 bits. *)
Theorem malloc_objects (base start : Z) (grants : Z → Z → bool) (h : heap) (ops : list op) :
  (∀ b n, grants b n = true → b + n ≤ 2 ^ 36) → fresh base start h → Forall op_ok ops →
  runs (client_run base grants (mk_client [] []) ops) h
    (λ c h', objects_ok start h' (objs c) ∧ Forall (λ '(b, n), grants b (16 * Z.max 4096 (units n)) = false) (refused c)).
Proof.
  intros Hg Hf Hops. eapply runs_mono; [apply (client_runs base start grants Hg); [|done]|].
  - split; [|constructor]. exists []. split; [by left|constructor].
  - intros c h' Hc. split; [by eapply client_objects|apply Hc].
Qed.

Lemma malloc_objects_witness :
  runs (client_run 4096 (λ b n, b + n <=? 2 ^ 27) (mk_client [] []) [Alloc 10; Alloc 200; Poke 0 3 7; Release 1; Alloc 5; Poke 0 0 9; Release 1]) (mk_heap ∅ 8192 0)
    (λ c h', objects_ok 8192 h' (objs c) ∧ Forall (λ '(b, n), (b + 16 * Z.max 4096 (units n) <=? 2 ^ 27) = false) (refused c)).
Proof.
  apply (malloc_objects 4096 8192 (λ b n, b + n <=? 2 ^ 27)).
  - intros b n H%Z.leb_le. lia.
  - unfold fresh. cbn. lia.
  - repeat (apply list.Forall_cons; split; [cbn; lia|]). apply list.Forall_nil. exact I.
Defined.
