(* ===== verification/UserLib.v ===== *)
(** * The user library (user/ulib.c) and formatted output to a descriptor

    Strings are the characters before the terminator; arrays are lists of
    fixed length, and an access outside an array faults. *)

From S2P Require Import Prelude FsState SysFile Printf UserIO.

Definition nl : Z := 10.
Definition cr : Z := 13.
Definition tab : Z := 9.
Definition vtab : Z := 11.
Definition space : Z := 32.

(** ** Arrays *)

Definition aget (l : list Z) (i : nat) : res Z :=
  match l !! i with
  | Some x => Ret x
  | None => Fault
  end.

Definition aset (l : list Z) (i : nat) (x : Z) : res (list Z) :=
  if decide (i < length l)%nat then Ret (<[i := x]> l) else Fault.

Module Ulib.
Fixpoint strcpy (s : list Z) (i : nat) (t : list Z) : res (list Z) :=
  match t with
  | [] => aset s i 0
  | c :: t =>
    s ← aset s i c;
    if c =? 0 then Ret s else strcpy s (S i) t
  end.

Fixpoint strcmp (p q : list Z) : Z :=
  let x := char_at p 0 in
  let y := char_at q 0 in
  match p with
  | c :: p => if negb (x =? 0) && (x =? y) then strcmp p (drop 1 q) else x - y
  | [] => x - y
  end.

Fixpoint strlen (s : list Z) : Z :=
  match s with
  | [] => 0
  | c :: s => if c =? 0 then 0 else 1 + strlen s
  end.

Fixpoint memset (dst : list Z) (i : nat) (c : Z) (n : nat) : res (list Z) :=
  match n with
  | O => Ret dst
  | S n =>
    dst ← aset dst i (u8 c);
    memset dst (S i) c n
  end.

(** The index of [c] in [s]; the terminator is not found. *)
Fixpoint strchr (s : list Z) (c : Z) : option nat :=
  match s with
  | [] => None
  | x :: s =>
    if x =? 0 then None
    else if x =? c then Some O
    else S <$> strchr s c
  end.

Fixpoint atoi_loop (n : Z) (s : list Z) : Z :=
  match s with
  | [] => n
  | c :: s => if (zchar "0" <=? c) && (c <=? zchar "9") then atoi_loop (s32 (n * 10 + c - zchar "0")) s else n
  end.

Definition atoi (s : list Z) : Z := atoi_loop 0 s.

(** [*dst++ = *src++] and [*--dst = *--src] in one array. *)
Fixpoint copy_up (l : list Z) (dst src n : nat) : res (list Z) :=
  match n with
  | O => Ret l
  | S n =>
    x ← aget l src;
    l ← aset l dst x;
    copy_up l (S dst) (S src) n
  end.

Fixpoint copy_down (l : list Z) (dst src n : nat) : res (list Z) :=
  match n with
  | O => Ret l
  | S n =>
    x ← aget l (src + n);
    l ← aset l (dst + n) x;
    copy_down l dst src n
  end.

Definition memmove (l : list Z) (dst src n : nat) : res (list Z) :=
  if (dst <? src)%nat then copy_up l dst src n else copy_down l dst src n.

Fixpoint memcmp (p1 p2 : list Z) (n : nat) : res Z :=
  match n with
  | O => Ret 0
  | S n =>
    x ← aget p1 0;
    y ← aget p2 0;
    if negb (x =? y) then Ret (x - y) else memcmp (drop 1 p1) (drop 1 p2) n
  end.

Definition memcpy (l : list Z) (dst src n : nat) : res (list Z) := memmove l dst src n.

Section calls.
Context {S : Type} `{UserIO S}.

(** [n] more characters fit in front of the terminator at [i]. *)
Fixpoint gets_loop (n : nat) (buf : list Z) (i : nat) : U S (list Z) :=
  match n with
  | O => sys (lift (aset buf i 0))
  | Datatypes.S n =>
    r ← sys (u_read 0 1);
    match r with
    | Some (c :: _) =>
      buf ← sys (lift (aset buf i c));
      if (c =? nl) || (c =? cr) then sys (lift (aset buf (Datatypes.S i) 0))
      else gets_loop n buf (Datatypes.S i)
    | _ => sys (lift (aset buf i 0))
    end
  end.

Definition gets (buf : list Z) (max : nat) : U S (list Z) := gets_loop (max - 1) buf 0.

Definition stat (n : list Z) : U S (option (list Z)) :=
  fd ← sys (u_open n O_RDONLY);
  if fd <? 0 then mret None
  else
    r ← sys (u_fstat fd);
    c ← sys (u_close fd);
    mret r.

(** [putc] for each character. *)
Fixpoint put_all (fd : Z) (l : list Z) : U S unit :=
  match l with
  | [] => mret tt
  | c :: l =>
    r ← sys (u_write fd [c]);
    put_all fd l
  end.

Definition fprintf (fd : Z) (fmt : list Z) (ap : list arg) : U S unit :=
  out ← sys (lift (User.vprintf User.digits fmt ap));
  put_all fd out.

Definition printf (fmt : list Z) (ap : list arg) : U S unit := fprintf 1 fmt ap.

(** [start]: the status of a program that returns from [main]. *)
Definition start (main : list (list Z) → U S Z) (argv : list (list Z)) : U S Z :=
  r ← main argv;
  exit r.
End calls.
End Ulib.
