(* ===== verification/Utils.v ===== *)
(** * Utilities: user/echo.c, user/cat.c, user/wc.c and user/grep.c

    [argv] holds the arguments from the name of the program on.  A loop
    that reads a file until its end has fuel for its rounds; every round
    but the last reads at least one byte. *)

From S2P Require Import Prelude FsState SysFile Printf UserIO UserLib.

(** ** The matcher of grep

    The functions read the expression and the text up to their terminators. *)

Module Grep.
(** [mh] is [matchhere] for the rest of the expression. *)
Fixpoint matchstar (mh : list Z → bool) (c : Z) (text : list Z) : bool :=
  if mh text then true
  else
    match text with
    | [] => false
    | x :: text => if (x =? c) || (c =? zchar ".") then matchstar mh c text else false
    end.

Fixpoint matchhere (re text : list Z) : bool :=
  match re with
  | [] => true
  | c :: re' =>
    if char_at re' 0 =? zchar "*" then
      match re' with
      | _ :: re'' => matchstar (matchhere re'') c text
      | [] => false
      end
    else if (c =? zchar "$") && (char_at re' 0 =? 0) then bool_decide (text = [])
    else
      match text with
      | x :: text' => if (c =? zchar ".") || (c =? x) then matchhere re' text' else false
      | [] => false
      end
  end.

Fixpoint match_from (re text : list Z) : bool :=
  if matchhere re text then true
  else
    match text with
    | [] => false
    | _ :: text => match_from re text
    end.

(** [match] *)
Definition match_re (re text : list Z) : bool :=
  if char_at re 0 =? zchar "^" then matchhere (drop 1 re) text else match_from re text.
End Grep.

Section utilities.
Context {S : Type} `{UserIO S} (fuel : nat).

(** ** user/echo.c *)

Fixpoint echo_loop (args : list (list Z)) : U S unit :=
  match args with
  | [] => mret tt
  | a :: args =>
    r ← sys (u_write 1 a);
    r ← sys (u_write 1 (if bool_decide (args = []) then [nl] else [space]));
    echo_loop args
  end.

Definition echo_main (argv : list (list Z)) : U S Z :=
  echo_loop (drop 1 argv);;
  exit 0.

(** ** user/cat.c *)

Fixpoint cat_loop (n : nat) (fd : Z) : U S unit :=
  match n with
  | O => sys out_of_fuel
  | Datatypes.S n =>
    r ← sys (u_read fd 512);
    match r with
    | None =>
      Ulib.fprintf 2 (zstr "cat: read error" ++ [nl]) [];;
      exit 1
    | Some [] => mret tt
    | Some l =>
      w ← sys (u_write 1 l);
      if negb (w =? Z.of_nat (length l)) then
        Ulib.fprintf 2 (zstr "cat: write error" ++ [nl]) [];;
        exit 1
      else cat_loop n fd
    end
  end.

Definition cat (fd : Z) : U S unit := cat_loop fuel fd.

(** The loop of [main] of cat and wc: [run] for each file. *)
Fixpoint each_file (run : Z → list Z → U S unit) (failed : list Z → U S unit) (names : list (list Z)) : U S unit :=
  match names with
  | [] => mret tt
  | name :: names =>
    fd ← sys (u_open name O_RDONLY);
    if fd <? 0 then
      failed name;;
      exit 1
    else
      run fd name;;
      r ← sys (u_close fd);
      each_file run failed names
  end.

Definition cat_main (argv : list (list Z)) : U S Z :=
  if decide (length argv ≤ 1)%nat then
    cat 0;;
    exit 0
  else
    each_file (λ fd _, cat fd) (λ name, Ulib.fprintf 2 (zstr "cat: cannot open %s" ++ [nl]) [AStr (Some name)]) (drop 1 argv);;
    exit 0.

(** ** user/wc.c *)

Record counts := mk_counts { wc_l : Z; wc_w : Z; wc_c : Z; wc_inword : bool }.

Definition wc_space : list Z := [space; cr; tab; nl; vtab].

Definition wc_char (x : Z) (k : counts) : counts :=
  let c := s32 (wc_c k + 1) in
  let l := if x =? nl then s32 (wc_l k + 1) else wc_l k in
  match Ulib.strchr wc_space x with
  | Some _ => mk_counts l (wc_w k) c false
  | None => if wc_inword k then mk_counts l (wc_w k) c true else mk_counts l (s32 (wc_w k + 1)) c true
  end.

Fixpoint wc_loop (n : nat) (fd : Z) (name : list Z) (k : counts) : U S unit :=
  match n with
  | O => sys out_of_fuel
  | Datatypes.S n =>
    r ← sys (u_read fd 512);
    match r with
    | None =>
      Ulib.printf (zstr "wc: read error" ++ [nl]) [];;
      exit 1
    | Some [] => Ulib.printf (zstr "%d %d %d %s" ++ [nl]) [AInt (wc_l k); AInt (wc_w k); AInt (wc_c k); AStr (Some name)]
    | Some l => wc_loop n fd name (foldl (λ k x, wc_char x k) k l)
    end
  end.

Definition wc (fd : Z) (name : list Z) : U S unit := wc_loop fuel fd name (mk_counts 0 0 0 false).

Definition wc_main (argv : list (list Z)) : U S Z :=
  if decide (length argv ≤ 1)%nat then
    wc 0 [];;
    exit 0
  else
    each_file wc (λ name, Ulib.printf (zstr "wc: cannot open %s" ++ [nl]) [AStr (Some name)]) (drop 1 argv);;
    exit 0.

(** ** user/grep.c *)

(** What [read(fd, buf + m, ...)] leaves in [buf]. *)
Definition fill (buf : list Z) (m : nat) (l : list Z) : list Z := take m buf ++ l ++ drop (m + length l) buf.

(** The lines of [buf] from [p] on; the result is [buf] and the first index
    behind the last newline.  Every round passes a newline. *)
Fixpoint grep_lines (n : nat) (pattern buf : list Z) (p : nat) : U S (list Z * nat) :=
  match n with
  | O => sys out_of_fuel
  | Datatypes.S n =>
    match Ulib.strchr (drop p buf) nl with
    | None => mret (buf, p)
    | Some k =>
      let q := (p + k)%nat in
      buf ← sys (lift (aset buf q 0));
      (if Grep.match_re pattern (upto_nul (drop p buf)) then
         buf ← sys (lift (aset buf q nl));
         r ← sys (u_write 1 (take (q + 1 - p) (drop p buf)));
         grep_lines n pattern buf (q + 1)
       else grep_lines n pattern buf (q + 1))
    end
  end.

Fixpoint grep_loop (n : nat) (pattern : list Z) (fd : Z) (buf : list Z) (m : nat) : U S (list Z) :=
  match n with
  | O => sys out_of_fuel
  | Datatypes.S n =>
    r ← sys (u_read fd (1024 - m - 1));
    match r with
    | None => mret buf
    | Some [] => mret buf
    | Some l =>
      let buf := fill buf m l in
      let m := (m + length l)%nat in
      buf ← sys (lift (aset buf m 0));
      '(buf, p) ← grep_lines 1025 pattern buf 0;
      if decide (0 < m)%nat then
        let m := (m - p)%nat in
        buf ← sys (lift (Ulib.memmove buf 0 p m));
        grep_loop n pattern fd buf m
      else grep_loop n pattern fd buf m
    end
  end.

(** [buf] is a static array of 1024 characters, which may hold the rest of
    an earlier file; the result is what it holds then. *)
Definition grep (pattern : list Z) (fd : Z) (buf : list Z) : U S (list Z) := grep_loop fuel pattern fd buf 0.

Fixpoint grep_files (pattern buf : list Z) (names : list (list Z)) : U S unit :=
  match names with
  | [] => mret tt
  | name :: names =>
    fd ← sys (u_open name O_RDONLY);
    if fd <? 0 then
      Ulib.printf (zstr "grep: cannot open %s" ++ [nl]) [AStr (Some name)];;
      exit 1
    else
      buf ← grep pattern fd buf;
      r ← sys (u_close fd);
      grep_files pattern buf names
  end.

Definition grep_main (argv : list (list Z)) : U S Z :=
  let buf := replicate 1024 0 in
  match argv with
  | _ :: pattern :: names =>
    if decide (names = []) then
      buf ← grep pattern 0 buf;
      exit 0
    else
      grep_files pattern buf names;;
      exit 0
  | _ =>
    Ulib.fprintf 2 (zstr "usage: grep pattern [file ...]" ++ [nl]) [];;
    exit 1
  end.
End utilities.
