(* ===== verification/UtilsSpec.v ===== *)
(** * Utilities: the matcher of grep, and echo, cat, wc and grep on any input *)

From S2P Require Import Prelude FsState Printf PrintfSpec UserIO UserLib Utils.

Import Grep.

(** Character [c] of an expression stands for [x]. *)
Definition stands_for (c x : Z) : Prop := c = zchar "." ∨ c = x.

(** [here re t]: a beginning of [t] matches [re].  A character followed by a
    star stands for any number of characters, a dollar sign at the end for
    the end of the text. *)
Inductive here : list Z → list Z → Prop :=
  | here_nil t : here [] t
  | here_star c re s t : Forall (stands_for c) s → here re t → here (c :: zchar "*" :: re) (s ++ t)
  | here_end : here [zchar "$"] []
  | here_char c re x t : char_at re 0 ≠ zchar "*" → ¬ (c = zchar "$" ∧ re = []) → stands_for c x → here re t → here (c :: re) (x :: t).

(** [matches re t]: some part of [t] matches [re], or its beginning if [re]
    starts with a circumflex. *)
Definition matches (re t : list Z) : Prop :=
  match re with
  | c :: re' => if decide (c = zchar "^") then here re' t else ∃ s t', t = s ++ t' ∧ here re t'
  | [] => True
  end.

Lemma matchstar_spec mh (P : list Z → Prop) c text :
  (∀ t, mh t = true ↔ P t) → matchstar mh c text = true ↔ ∃ s t, text = s ++ t ∧ Forall (stands_for c) s ∧ P t.
Proof.
  intros Hm. induction text as [|x text IH]; cbn; destruct (mh _) eqn:E.
  - split; [|done]. intros _. exists [], []. ands; [done..|]. by apply Hm.
  - split; [done|]. intros (s & t & Est & _ & Ht). destruct s, t; try done. apply Hm in Ht. congruence.
  - split; [|done]. intros _. exists [], (x :: text). ands; [done..|]. by apply Hm.
  - split.
    + destruct ((x =? c) || (c =? zchar ".")) eqn:Ec; [|done]. intros (s & t & -> & Hs & Ht)%IH. exists (x :: s), t. ands; [done| |done].
      constructor; [|done]. apply orb_true_iff in Ec as [->%Z.eqb_eq| ->%Z.eqb_eq]; [by right|by left].
    + intros (s & t & Est & Hs & Ht). destruct s as [|y s]; cbn in Est.
      { subst t. apply Hm in Ht. congruence. }
      injection Est as <- ->. apply list.Forall_cons in Hs as [Hx Hs].
      replace ((x =? c) || (c =? zchar ".")) with true by (symmetry; apply orb_true_iff; destruct Hx as [->| ->]; [right|left]; by apply Z.eqb_eq).
      apply IH. by exists s, t.
Qed.

Lemma matchhere_spec n : ∀ re text, (length re ≤ n)%nat → Forall (λ c, c ≠ 0) re → matchhere re text = true ↔ here re text.
Proof.
  induction n as [|n IH]; intros re text Hn Hre; (destruct re as [|c re]; [split; [constructor|done]|]); [cbn in Hn; lia|].
  apply list.Forall_cons in Hre as [Hc Hre]. cbn [matchhere]. cbn in Hn.
  destruct (Z.eqb_spec (char_at re 0) (zchar "*")) as [Es|Es].
  { destruct re as [|c' re]; [done|]. cbn in Es. subst c'. apply list.Forall_cons in Hre as [_ Hre].
    rewrite (matchstar_spec _ (here re)) by (intros t; apply IH; [cbn in Hn; lia|done]).
    split; [intros (s & t & -> & Hs & Ht); by constructor|]. inversion 1; subst; [eauto|done]. }
  destruct ((c =? zchar "$") && (char_at re 0 =? 0)) eqn:Ed.
  { apply andb_true_iff in Ed as [->%Z.eqb_eq E0%Z.eqb_eq]. destruct re as [|c' re]; [|by apply list.Forall_cons in Hre as [? _]].
    rewrite bool_decide_eq_true. split; [intros ->; constructor|]. inversion 1; subst; [done|naive_solver]. }
  assert (Hnd : ¬ (c = zchar "$" ∧ re = [])) by (intros [-> ->]; done).
  destruct text as [|x text].
  { split; [done|]. inversion 1; subst; done. }
  split.
  - destruct ((c =? zchar ".") || (c =? x)) eqn:Ec; [|done]. intros Ht%IH; [|lia|done]. constructor; try done.
    apply orb_true_iff in Ec as [->%Z.eqb_eq| ->%Z.eqb_eq]; [by left|by right].
  - inversion 1 as [| | |? ? ? ? _ _ Hx Ht]; subst; [done|].
    replace ((c =? zchar ".") || (c =? x)) with true by (symmetry; apply orb_true_iff; destruct Hx as [->| ->]; [left|right]; by apply Z.eqb_eq).
    apply IH; [lia|done|done].
Qed.

Lemma match_from_spec re text : Forall (λ c, c ≠ 0) re → match_from re text = true ↔ ∃ s t, text = s ++ t ∧ here re t.
Proof.
  intros Hre. pose proof (λ t, matchhere_spec (length re) re t ltac:(done) Hre) as Hm.
  induction text as [|x text IH]; cbn; destruct (matchhere re _) eqn:E.
  - split; [|done]. intros _. exists [], []. split; [done|]. by apply Hm.
  - split; [done|]. intros (s & t & Est & Ht). destruct s, t; try done. apply Hm in Ht. congruence.
  - split; [|done]. intros _. exists [], (x :: text). split; [done|]. by apply Hm.
  - rewrite IH. split; [intros (s & t & -> & Ht); by exists (x :: s), t|].
    intros (s & t & Est & Ht). destruct s as [|y s]; cbn in Est; [subst t; apply Hm in Ht; congruence|].
    injection Est as <- ->. by exists s, t.
Qed.

Lemma match_re_spec re text : Forall (λ c, c ≠ 0) re → match_re re text = true ↔ matches re text.
Proof.
  intros Hre. unfold match_re, matches. destruct re as [|c re].
  { cbn. split; [done|]. intros _. by destruct text. }
  change (char_at (c :: re) 0) with c. change (drop 1 (c :: re)) with re. destruct (Z.eqb_spec c (zchar "^")) as [->|Hc].
  - apply list.Forall_cons in Hre as [_ Hre]. rewrite decide_True by done. by apply (matchhere_spec (length re)).
  - rewrite decide_False by done. by apply match_from_spec.
Qed.

(** * Echo, cat, wc and grep on any input *)

(** ** Arrays *)

Lemma aset_in l i x : (i < length l)%nat → aset l i x = Ret (<[i := x]> l).
Proof. intros. unfold aset. by rewrite decide_True. Qed.

Lemma copy_up_spec n : ∀ l dst src, (dst < src)%nat → (src + n ≤ length l)%nat →
  Ulib.copy_up l dst src n = Ret (take dst l ++ take n (drop src l) ++ drop (dst + n) l).
Proof.
  induction n as [|n IH]; intros l dst src Hd Hl; cbn [Ulib.copy_up].
  { by rewrite take_0, app_nil_l, Nat.add_0_r, take_drop. }
  destruct (lookup_lt_is_Some_2 l src) as [x Hx]; [lia|]. unfold aget. rewrite Hx, res_bind_Ret, aset_in, res_bind_Ret by lia.
  rewrite IH by (rewrite ?length_insert; lia). f_equal.
  rewrite (take_S_r (<[dst:=x]> l) dst x) by (rewrite list_lookup_insert_eq; [done|lia]).
  rewrite take_insert_ge by lia. rewrite !drop_insert_lt by lia. rewrite (drop_S l x src Hx). cbn. rewrite <-app_assoc. cbn.
  by replace (S (dst + n)) with (dst + S n)%nat by lia.
Qed.

Lemma copy_down_spec n : ∀ l dst src, (src ≤ dst)%nat → (dst + n ≤ length l)%nat →
  Ulib.copy_down l dst src n = Ret (take dst l ++ take n (drop src l) ++ drop (dst + n) l).
Proof.
  induction n as [|n IH]; intros l dst src Hd Hl; cbn [Ulib.copy_down].
  { by rewrite take_0, app_nil_l, Nat.add_0_r, take_drop. }
  destruct (lookup_lt_is_Some_2 l (src + n)) as [x Hx]; [lia|]. unfold aget. rewrite Hx, res_bind_Ret, aset_in, res_bind_Ret by lia.
  rewrite IH by (rewrite ?length_insert; lia). f_equal. rewrite take_insert_ge by lia. f_equal.
  rewrite (drop_S (<[(dst + n)%nat:=x]> l) x (dst + n)) by (rewrite list_lookup_insert_eq; [done|lia]).
  rewrite (drop_insert_lt l (S (dst + n))) by lia. replace (S (dst + n)) with (dst + S n)%nat by lia.
  rewrite (take_S_r (drop src l) n x) by (by rewrite lookup_drop). rewrite <-app_assoc. cbn. f_equal.
  apply list_eq. intros i. destruct (decide (i < n)%nat) as [Hi|Hi].
  - rewrite !lookup_take_lt by done. rewrite !lookup_drop. apply list_lookup_insert_ne. lia.
  - by rewrite !lookup_take_ge by lia.
Qed.

(** [memmove] copies as if through a buffer. *)
Lemma array_memmove_spec l dst src n : (src + n ≤ length l)%nat → (dst + n ≤ length l)%nat →
  Ulib.memmove l dst src n = Ret (take dst l ++ take n (drop src l) ++ drop (dst + n) l).
Proof.
  intros. unfold Ulib.memmove. destruct (Nat.ltb_spec dst src); [apply copy_up_spec|apply copy_down_spec]; lia.
Qed.

Lemma strchr_None l c : Forall (λ x, x ≠ 0) l → Ulib.strchr l c = None ↔ c ∉ l.
Proof.
  induction 1 as [|x l Hx Hl IH]; cbn [Ulib.strchr]; [split; [intros _; apply not_elem_of_nil|done]|].
  destruct (Z.eqb_spec x 0); [done|]. destruct (Z.eqb_spec x c) as [->|Hc].
  - split; [done|]. intros []. apply list_elem_of_here.
  - rewrite fmap_None, IH, not_elem_of_cons. naive_solver.
Qed.

(** ** Output *)

Section utilities.
Context {S : Type} `{FileIO S}.
Implicit Types s : S.

(** [l] has been written to [fd], and nothing else. *)
Record output (fd : Z) (l : list Z) (s s' : S) : Prop := mk_output {
  out_this : written fd s' = written fd s ++ l;
  out_other fd' : fd' ≠ fd → written fd' s' = written fd' s;
  out_files name : contents name s' = contents name s;
}.

Lemma output_nil fd s : output fd [] s s.
Proof. split; [by rewrite app_nil_r|done|done]. Qed.

Lemma output_same fd s s' : same_files s s' → output fd [] s s'.
Proof. intros [Hw Hc]. split; [by rewrite Hw, app_nil_r|auto|auto]. Qed.

Lemma output_app fd l l' s s1 s' : output fd l s s1 → output fd l' s1 s' → output fd (l ++ l') s s'.
Proof.
  intros [] []. split; [by rewrite out_this1, out_this0, app_assoc| |]; intros; [rewrite out_other1, out_other0|rewrite out_files1, out_files0]; done.
Qed.

Lemma uruns_write_out {A} fd l (f : Z → U S A) s Q E :
  (∀ s', output fd l s s' → (∀ fd', unread fd' s' = unread fd' s) → uruns (f (Z.of_nat (length l))) s' Q E) →
  uruns (r ← sys (u_write fd l); f r) s Q E.
Proof. intros HQ. apply uruns_write. intros s' H1 H2 H3 H4. by apply HQ. Qed.

Lemma put_all_spec fd l : ∀ s E, uruns (Ulib.put_all fd l) s (λ _ s', output fd l s s' ∧ ∀ fd', unread fd' s' = unread fd' s) E.
Proof.
  induction l as [|c l IH]; intros s E; cbn [Ulib.put_all].
  { apply uruns_ret. split; [apply output_nil|done]. }
  apply uruns_write_out. intros s1 H1 U1. eapply uruns_mono; [apply IH| |]; cbn; [|done]. intros _ s' [H2 U2].
  split; [|intros; by rewrite U2, U1]. exact (output_app fd [c] l s s1 s' H1 H2).
Qed.

Lemma fprintf_spec fd fmt ap l s E : User.vprintf User.digits fmt ap = Ret l →
  uruns (Ulib.fprintf fd fmt ap) s (λ _ s', output fd l s s' ∧ ∀ fd', unread fd' s' = unread fd' s) E.
Proof.
  intros Hl. unfold Ulib.fprintf. apply uruns_bind, uruns_sys. eexists l, s. unfold lift. rewrite Hl. split; [done|]. apply put_all_spec.
Qed.

(** ** echo *)

(** The arguments with spaces in between and a newline behind. *)
Fixpoint joined (args : list (list Z)) : list Z :=
  match args with
  | [] => []
  | [a] => a ++ [nl]
  | a :: args => a ++ [space] ++ joined args
  end.

Lemma echo_loop_spec args : ∀ s E, uruns (echo_loop args) s (λ _ s', output 1 (joined args) s s') E.
Proof.
  induction args as [|a args IH]; intros s E; cbn [echo_loop]; [apply uruns_ret, output_nil|].
  apply uruns_write_out. intros s1 H1 _. apply uruns_write_out. intros s2 H2 _. eapply uruns_mono; [apply IH| |]; cbn; [|done]. intros _ s3 H3.
  pose proof (output_app _ _ _ _ _ _ H1 (output_app _ _ _ _ _ _ H2 H3)) as H4. destruct args; cbn in H4 |- *; by rewrite ?app_nil_r in H4.
Qed.

(** ** cat *)

Lemma cat_loop_spec fd n : ∀ s E, (length (unread fd s) < n)%nat → uruns (cat_loop n fd) s (λ _ s', output 1 (unread fd s) s s') E.
Proof.
  induction n as [|n IH]; intros s E Hn; [lia|]. cbn [cat_loop]. apply uruns_read. intros l s1 El Hl Hz Hs.
  destruct l as [|c l].
  { apply uruns_ret. destruct Hz as [?|Hz]; [done|done|]. rewrite Hz. by apply output_same. }
  apply uruns_write_out. intros s2 H2 U2. rewrite Z.eqb_refl. cbn [negb]. rewrite El, length_app in Hn. cbn in Hn.
  eapply uruns_mono; [apply IH; rewrite U2; lia| |]; cbn; [|done]. intros _ s3 H3. rewrite U2 in H3. rewrite El.
  exact (output_app _ _ _ _ _ _ (output_same 1 _ _ Hs) (output_app _ _ _ _ _ _ H2 H3)).
Qed.

(** A program that is run on each of the files, if they all exist. *)
Lemma each_file_spec run failed (report : list Z → list Z → list Z) names : ∀ ls s (E : Z → S → Prop),
  Forall2 (λ name l, contents name s = Some l) names ls →
  (∀ fd name l s, name ∈ names → l ∈ ls → unread fd s = l → uruns (run fd name) s (λ _ s', output 1 (report name l) s s') E) →
  uruns (each_file run failed names) s (λ _ s', output 1 (concat (zip_with report names ls)) s s') E.
Proof.
  induction names as [|name names IH]; intros ls s E Hls Hrun; apply Forall2_cons_inv_l in Hls || apply Forall2_nil_inv_l in Hls.
  { subst ls. apply uruns_ret, output_nil. }
  destruct Hls as (l & ls' & Hl & Hls & ->). cbn [each_file]. apply uruns_open. intros fd s1 Ho Hs1. rewrite Hl in Ho. destruct Ho as [Hfd Ho].
  destruct (Z.ltb_spec fd 0); [lia|]. apply uruns_bind. eapply uruns_mono; [apply (Hrun fd name l s1); [apply list_elem_of_here..|done]| |]; cbn; [|done].
  intros _ s2 H2. apply uruns_close. intros r s3 H3. eapply uruns_mono; [apply (IH ls' s3)| |]; cbn; [| | |done].
  - eapply Forall2_impl; [|exact Hls]. intros nm c Hc. cbn in Hc. rewrite (proj2 H3 nm), (out_files _ _ _ _ H2 nm), (proj2 Hs1 nm). done.
  - intros fd' nm l' s' Hnm Hin Hu. apply Hrun; [by apply list_elem_of_further..|done].
  - intros _ s4 H4. exact (output_app _ _ _ _ _ _ (output_same 1 _ _ Hs1) (output_app _ _ _ _ _ _ H2 (output_app _ _ _ _ _ _ (output_same 1 _ _ H3) H4))).
Qed.

(** ** wc *)

Definition blank (x : Z) : bool := bool_decide (x ∈ wc_space).

(** The longest parts without blanks. *)
Fixpoint text_words (l : list Z) : list (list Z) :=
  match l with
  | [] => []
  | x :: l' =>
    if blank x then text_words l'
    else
      match l' with
      | y :: _ => if blank y then [x] :: text_words l' else
          match text_words l' with w :: ws => (x :: w) :: ws | [] => [[x]] end
      | [] => [[x]]
      end
  end.

Definition text_lines (l : list Z) : nat := length (filter (λ x, x = nl) l).

Lemma strchr_blank x : Ulib.strchr wc_space x = None ↔ blank x = false.
Proof. unfold blank. rewrite bool_decide_eq_false. apply strchr_None. unfold wc_space. by repeat constructor. Qed.

(** The words that begin in [l], if [inword] says whether one goes on. *)
Fixpoint starts (inword : bool) (l : list Z) : nat :=
  match l with
  | [] => 0
  | x :: l => if blank x then starts false l else ((if inword then 0 else 1) + starts true l)%nat
  end.

Lemma starts_words l : ∀ b, length (text_words l) = (starts b l + (match l with x :: _ => if b && negb (blank x) then 1 else 0 | [] => 0 end))%nat.
Proof.
  induction l as [|x l IH]; intros b; [done|]. cbn [starts text_words]. destruct (blank x) eqn:Ex.
  { rewrite (IH false). rewrite andb_false_r. by destruct l. }
  rewrite andb_true_r. destruct l as [|y l']; [by destruct b|]. specialize (IH true). cbn [andb] in IH.
  destruct (blank y) eqn:Ey; cbn [negb] in IH.
  { cbn [length]. rewrite IH. destruct b; lia. }
  destruct (text_words (y :: l')) as [|w ws]; cbn [length] in IH |- *; destruct b; lia.
Qed.

Lemma wc_char_spec x k : 0 ≤ wc_l k ≤ wc_c k → 0 ≤ wc_w k ≤ wc_c k → wc_c k < 2 ^ 31 - 1 →
  wc_char x k = mk_counts (wc_l k + (if x =? nl then 1 else 0)) (wc_w k + (if blank x || wc_inword k then 0 else 1)) (wc_c k + 1) (negb (blank x)).
Proof.
  intros Hl Hw Hc. unfold wc_char. rewrite (s32_small (wc_c k + 1)), (s32_small (wc_l k + 1)), (s32_small (wc_w k + 1)) by lia.
  destruct (Ulib.strchr wc_space x) eqn:Es.
  - assert (blank x = true) as -> by (destruct (blank x) eqn:Eb; [done|]; by rewrite (proj2 (strchr_blank x) Eb) in Es).
    cbn. rewrite Z.add_0_r. by destruct (x =? nl); rewrite ?Z.add_0_r.
  - apply strchr_blank in Es as ->. cbn. destruct (wc_inword k); rewrite ?Z.add_0_r; by destruct (x =? nl); rewrite ?Z.add_0_r.
Qed.

Lemma wc_fold l : ∀ k, 0 ≤ wc_l k ≤ wc_c k → 0 ≤ wc_w k ≤ wc_c k → wc_c k + Z.of_nat (length l) < 2 ^ 31 →
  let k' := foldl (λ k x, wc_char x k) k l in
  wc_c k' = wc_c k + Z.of_nat (length l) ∧ wc_l k' = wc_l k + Z.of_nat (text_lines l) ∧
  wc_w k' = wc_w k + Z.of_nat (starts (wc_inword k) l).
Proof.
  induction l as [|x l IH]; intros k Hl Hw Hc; cbn [foldl]; [cbn; lia|]. cbn [length] in Hc.
  rewrite (wc_char_spec x k) by lia.
  match goal with |- context [foldl _ ?k1 l] => destruct (IH k1) as (C & L & W) end; cbn [wc_l wc_w wc_c wc_inword] in *.
  { destruct (x =? nl); lia. }
  { destruct (blank x || wc_inword k); lia. }
  { lia. }
  rewrite C, L, W. unfold text_lines. cbn [starts length]. rewrite filter_cons. ands.
  - lia.
  - destruct (Z.eqb_spec x nl); [rewrite decide_True by done|rewrite decide_False by done]; cbn [length]; lia.
  - destruct (blank x); cbn [orb negb]; [lia|]. destruct (wc_inword k); lia.
Qed.

(** The text that [printf] prints for a number. *)
Definition decimal (n : Z) : list Z :=
  match User.printint User.digits n 10 true with
  | Ret l => l
  | _ => []
  end.

Lemma decimal_ok n : - 2 ^ 63 ≤ n < 2 ^ 63 → User.printint User.digits n 10 true = Ret (decimal n).
Proof.
  intros Hn. unfold decimal. rewrite user_printint. destruct (printint_spec User.digits n 10 true) as (l & El & _); [apply user_digits|lia|done|].
  by rewrite El.
Qed.

Definition bytes (l : list Z) : Prop := Forall (λ x, 0 < x < 2 ^ 8) l.

Lemma putc_bytes l : bytes l → User.putc <$> upto_nul l = l.
Proof.
  induction 1 as [|x l Hx Hl IH]; [done|]. cbn [upto_nul]. destruct (Z.eqb_spec x 0); [lia|].
  rewrite fmap_cons, IH. unfold User.putc. by rewrite u8_small by lia.
Qed.

Definition wc_text (a b c : Z) (name : list Z) : list Z :=
  decimal a ++ [space] ++ decimal b ++ [space] ++ decimal c ++ [space] ++ name ++ [nl].

Lemma vprintf_plain f d c fmt ap : c ≠ 0 → c ≠ percent →
  User.vprintf_loop (Datatypes.S f) d false (c :: fmt) ap = (out ← User.vprintf_loop f d false fmt ap; Ret (User.putc c :: out)).
Proof.
  intros H1%Z.eqb_neq H2%Z.eqb_neq. cbn [User.vprintf_loop]. change (char_at (c :: fmt) 0) with c. by rewrite H1, H2.
Qed.

Lemma vprintf_d f d z fmt ap :
  User.vprintf_loop (Datatypes.S (Datatypes.S f)) d false (percent :: zchar "d" :: fmt) (AInt z :: ap) =
  (o ← User.printint d (s32 z) 10 true; out ← User.vprintf_loop f d false fmt ap; Ret (o ++ out)).
Proof. reflexivity. Qed.

Lemma vprintf_s f d t fmt ap :
  User.vprintf_loop (Datatypes.S (Datatypes.S f)) d false (percent :: zchar "s" :: fmt) (AStr (Some t) :: ap) =
  (out ← User.vprintf_loop f d false fmt ap; Ret ((User.putc <$> upto_nul t) ++ out)).
Proof. reflexivity. Qed.

Lemma wc_prints a b c name : - 2 ^ 31 ≤ a < 2 ^ 31 → - 2 ^ 31 ≤ b < 2 ^ 31 → - 2 ^ 31 ≤ c < 2 ^ 31 → bytes name →
  User.vprintf User.digits (zstr "%d %d %d %s" ++ [nl]) [AInt a; AInt b; AInt c; AStr (Some name)] = Ret (wc_text a b c name).
Proof.
  intros Ha Hb Hc Hn. unfold User.vprintf.
  change (zstr "%d %d %d %s" ++ [nl]) with
    (percent :: zchar "d" :: space :: percent :: zchar "d" :: space :: percent :: zchar "d" :: space :: percent :: zchar "s" :: [nl]).
  cbn [length]. rewrite vprintf_d, s32_small, decimal_ok by lia. rewrite res_bind_Ret.
  rewrite vprintf_plain by done. rewrite vprintf_d, s32_small, decimal_ok by lia. rewrite res_bind_Ret.
  rewrite vprintf_plain by done. rewrite vprintf_d, s32_small, decimal_ok by lia. rewrite res_bind_Ret.
  rewrite vprintf_plain by done. rewrite vprintf_s, (putc_bytes name Hn), vprintf_plain by done. reflexivity.
Qed.

(** What wc prints for a file. *)
Definition wc_report (name l : list Z) : list Z :=
  wc_text (Z.of_nat (text_lines l)) (Z.of_nat (length (text_words l))) (Z.of_nat (length l)) name.

Lemma wc_counts l : Z.of_nat (length l) < 2 ^ 31 →
  let k := foldl (λ k x, wc_char x k) (mk_counts 0 0 0 false) l in
  wc_l k = Z.of_nat (text_lines l) ∧ wc_w k = Z.of_nat (length (text_words l)) ∧ wc_c k = Z.of_nat (length l).
Proof.
  intros Hl. destruct (wc_fold l (mk_counts 0 0 0 false)) as (C & L & W); cbn in *; [lia..|]. rewrite C, L, W, (starts_words l false).
  destruct l; cbn; ands; lia.
Qed.

Lemma counts_bounded l : (text_lines l ≤ length l)%nat ∧ (length (text_words l) ≤ length l)%nat.
Proof.
  split; [apply length_filter|]. rewrite (starts_words l false).
  assert (Hst : ∀ b, (starts b l ≤ length l)%nat) by (induction l as [|x l IH]; intros b; [done|]; cbn; pose proof (IH false); pose proof (IH true); destruct (blank x), b; lia).
  specialize (Hst false). destruct l; cbn in *; lia.
Qed.

Lemma wc_loop_spec fd name n : bytes name → ∀ s seen E, (length (unread fd s) < n)%nat → Z.of_nat (length (seen ++ unread fd s)) < 2 ^ 31 →
  uruns (wc_loop n fd name (foldl (λ k x, wc_char x k) (mk_counts 0 0 0 false) seen)) s
    (λ _ s', output 1 (wc_report name (seen ++ unread fd s)) s s') E.
Proof.
  intros Hname. induction n as [|n IH]; intros s seen E Hn Hb; [lia|]. cbn [wc_loop]. apply uruns_read. intros l s1 El Hl Hz Hs.
  destruct l as [|c l].
  { destruct Hz as [?|Hz]; [done|done|]. rewrite Hz, app_nil_r in *. destruct (wc_counts seen Hb) as (-> & -> & ->).
    destruct (counts_bounded seen). eapply uruns_mono; [apply fprintf_spec, wc_prints; [lia..|done]| |]; cbn; [|done].
    intros _ s2 [Ho _]. exact (output_app _ [] _ _ _ _ (output_same 1 _ _ Hs) Ho). }
  rewrite El in Hn, Hb |- *. rewrite app_assoc in Hb |- *. rewrite length_app in Hn. cbn in Hn. rewrite <-foldl_app.
  eapply uruns_mono; [apply (IH s1 (seen ++ c :: l)); [lia|done]| |]; cbn; [|done].
  intros _ s2 H2. exact (output_app _ [] _ _ _ _ (output_same 1 _ _ Hs) H2).
Qed.

(** ** grep *)

(** A file of lines [ls] with a rest that does not end with a newline. *)
Definition with_nl (l : list Z) : list Z := l ++ [nl].
Definition text_of (ls : list (list Z)) (rest : list Z) : list Z := concat (with_nl <$> ls) ++ rest.
Definition clean (l : list Z) : Prop := Forall (λ x, x ≠ 0 ∧ x ≠ nl) l ∧ (length l ≤ 1022)%nat.

Definition grepped (pattern : list Z) (ls : list (list Z)) : list Z :=
  concat (with_nl <$> filter (λ l, Grep.match_re pattern l = true) ls).

Lemma clean_app_l l l' : clean (l ++ l') → clean l.
Proof. intros [Hf Hl]. rewrite length_app in Hl. split; [by apply Forall_app in Hf as [? _]|lia]. Qed.

Lemma text_of_cons l ls rest : text_of (l :: ls) rest = l ++ nl :: text_of ls rest.
Proof. unfold text_of, with_nl. cbn. by rewrite <-!app_assoc. Qed.

(** The part of a file that has arrived consists of lines and the beginning
    of the next one. *)
Lemma text_of_split ls rest : Forall clean ls → clean rest → ∀ a b, a ++ b = text_of ls rest →
  ∃ ls1 ls2 c, ls = ls1 ++ ls2 ∧ a = text_of ls1 c ∧ c ++ b = text_of ls2 rest ∧ clean c.
Proof.
  intros Hls Hrest. induction Hls as [|l ls Hl Hls IH]; intros a b Hab.
  { exists [], [], a. ands; [done..|]. unfold text_of in Hab. cbn in Hab. rewrite <-Hab in Hrest. by apply clean_app_l in Hrest. }
  rewrite text_of_cons in Hab. destruct (decide (length a ≤ length l)%nat) as [Hle|Hgt].
  - exists [], (l :: ls), a. rewrite text_of_cons. ands; [done..|].
    apply (f_equal (take (length a))) in Hab. rewrite take_app_length, take_app_le in Hab by done. rewrite Hab.
    apply (clean_app_l _ (drop (length a) l)). by rewrite take_drop.
  - assert (Ea : ∃ a', a = l ++ nl :: a' ∧ a' ++ b = text_of ls rest).
    { apply (f_equal (take (length l + 1))) in Hab as Ht. rewrite take_app_le in Ht by lia.
      rewrite take_app_ge, Nat.add_comm, Nat.add_sub in Ht by lia. cbn in Ht.
      exists (drop (length l + 1) a). split.
      - rewrite <-(take_drop (length l + 1) a) at 1. rewrite Nat.add_comm at 1. cbn. rewrite Ht, take_0, <-app_assoc. done.
      - apply (f_equal (drop (length l + 1))) in Hab. rewrite drop_app_le in Hab by lia. rewrite Hab.
        rewrite drop_app_ge, Nat.add_comm, Nat.add_sub by lia. done. }
    destruct Ea as (a' & -> & Ha'). destruct (IH a' b Ha') as (ls1 & ls2 & c & -> & -> & Hb & Hc).
    exists (l :: ls1), ls2, c. rewrite text_of_cons. by ands.
Qed.

Lemma strchr_nl l r : clean l → Ulib.strchr (l ++ nl :: r) nl = Some (length l).
Proof.
  intros [Hl _]. induction Hl as [|x l [H1 H2] Hl IH]; [done|]. cbn [app Ulib.strchr].
  destruct (Z.eqb_spec x 0); [done|]. destruct (Z.eqb_spec x nl); [done|]. by rewrite IH.
Qed.

Lemma strchr_nul l r : clean l → Ulib.strchr (l ++ 0 :: r) nl = None.
Proof.
  intros [Hl _]. induction Hl as [|x l [H1 H2] Hl IH]; [done|]. cbn [app Ulib.strchr].
  destruct (Z.eqb_spec x 0); [done|]. destruct (Z.eqb_spec x nl); [done|]. by rewrite IH.
Qed.

Lemma upto_nul_clean l r : clean l → upto_nul (l ++ 0 :: r) = l.
Proof.
  intros [Hl _]. induction Hl as [|x l [H1 H2] Hl IH]; [done|]. cbn [app upto_nul]. destruct (Z.eqb_spec x 0); [done|]. by rewrite IH.
Qed.

Lemma aset_at a x y b : aset (a ++ x :: b) (length a) y = Ret (a ++ y :: b).
Proof. rewrite aset_in by (rewrite length_app; cbn; lia). by rewrite insert_app_r_alt, Nat.sub_diag by done. Qed.

Lemma uruns_lift {A B} (r : res A) a (f : A → U S B) s Q E : r = Ret a → uruns (f a) s Q E → uruns (x ← sys (lift r); f x) s Q E.
Proof. intros -> H1. apply uruns_bind, uruns_sys. by exists a, s. Qed.

Lemma grepped_cons pattern l ls : grepped pattern (l :: ls) = (if Grep.match_re pattern l then l ++ [nl] else []) ++ grepped pattern ls.
Proof. unfold grepped. rewrite filter_cons. by destruct (Grep.match_re pattern l). Qed.

Lemma grep_lines_spec pattern c junk ls : Forall clean ls → clean c → ∀ n pre s E, (length ls < n)%nat →
  uruns (grep_lines n pattern (pre ++ text_of ls (c ++ 0 :: junk)) (length pre)) s
    (λ r s', ∃ pre', r = (pre' ++ c ++ 0 :: junk, length pre') ∧ (length pre' + length c = length pre + length (text_of ls c))%nat ∧
       output 1 (grepped pattern ls) s s' ∧ ∀ fd', unread fd' s' = unread fd' s) E.
Proof.
  intros Hls Hc. induction Hls as [|l ls Hl Hls IH]; intros n pre s E Hn; (destruct n as [|n]; [lia|]); cbn [grep_lines]; rewrite drop_app_length.
  { unfold text_of. cbn. rewrite (strchr_nul c junk Hc). apply uruns_ret. exists pre. ands; [done..|apply output_nil|done]. }
  rewrite text_of_cons, (strchr_nl l _ Hl). set (r := text_of ls (c ++ 0 :: junk)).
  replace (length pre + length l)%nat with (length (pre ++ l)) by apply length_app.
  eapply uruns_lift; [rewrite app_assoc; apply aset_at|]. rewrite <-app_assoc, drop_app_length, (upto_nul_clean l r Hl).
  assert (Hlen : ∀ x, (length (pre ++ l) + 1)%nat = length (pre ++ l ++ [x])) by (intros; rewrite !length_app; cbn; lia).
  assert (Hbuf : ∀ x, pre ++ l ++ x :: r = (pre ++ l ++ [x]) ++ r) by (intros; by rewrite <-!app_assoc).
  assert (Hgo : ∀ x s1 out, output 1 out s s1 → (∀ fd', unread fd' s1 = unread fd' s) → out ++ grepped pattern ls = grepped pattern (l :: ls) →
    uruns (grep_lines n pattern (pre ++ l ++ x :: r) (length (pre ++ l) + 1)) s1
      (λ r0 s', ∃ pre', r0 = (pre' ++ c ++ 0 :: junk, length pre') ∧ (length pre' + length c = length pre + length (text_of (l :: ls) c))%nat ∧
         output 1 (grepped pattern (l :: ls)) s s' ∧ ∀ fd', unread fd' s' = unread fd' s) E).
  { intros x s1 out Ho Hu Heq. rewrite (Hlen x), (Hbuf x). eapply uruns_mono; [apply IH; cbn in Hn; lia| |]; cbn beta; [|done].
    intros r0 s2 (pre' & -> & Hp & Ho2 & Hu2). exists pre'. ands; [done| | |intros; by rewrite Hu2, Hu].
    - rewrite Hp, text_of_cons, !length_app. cbn. lia.
    - rewrite <-Heq. by eapply output_app. }
  pose proof (grepped_cons pattern l ls) as Hg. destruct (Grep.match_re pattern l) eqn:Em.
  - eapply uruns_lift; [rewrite app_assoc; apply aset_at|]. apply uruns_write_out. intros s1 H1 U1.
    rewrite <-app_assoc. apply (Hgo nl s1 (l ++ [nl])); [|done|done].
    replace (l ++ [nl]) with (take (length (pre ++ l) + 1 - length pre) (drop (length pre) (((pre ++ l)) ++ nl :: r))); [done|].
    rewrite <-app_assoc, drop_app_length, length_app. replace (length pre + length l + 1 - length pre)%nat with (length (l ++ [nl])) by (rewrite length_app; cbn; lia).
    replace (l ++ nl :: r) with ((l ++ [nl]) ++ r) by (by rewrite <-app_assoc). apply take_app_length.
  - apply (Hgo 0 s []); [apply output_nil|done|done].
Qed.

Lemma text_of_length ls c : (length ls ≤ length (text_of ls c))%nat.
Proof. induction ls as [|l ls IH]; [cbn; lia|]. rewrite text_of_cons, length_app. cbn. lia. Qed.

Lemma grep_loop_spec pattern fd n : ∀ s buf pend ls rest E,
  length buf = 1024%nat → take (length pend) buf = pend → clean pend → Forall clean ls → clean rest →
  pend ++ unread fd s = text_of ls rest → (length (unread fd s) < n)%nat →
  uruns (grep_loop n pattern fd buf (length pend)) s (λ buf' s', length buf' = 1024%nat ∧ output 1 (grepped pattern ls) s s') E.
Proof.
  induction n as [|n IH]; intros s buf pend ls rest E Hbuf Hpend Cp Cl Cr Htext Hn; [lia|]. cbn [grep_loop].
  apply uruns_read. intros l s1 El Hl Hz Hs. destruct l as [|x l].
  { apply uruns_ret. split; [done|]. destruct Hz as [Hz|Hz]; [done|destruct Cp as [_ ?]; lia|].
    rewrite Hz, app_nil_r in Htext. destruct ls as [|l ls]; [by apply output_same|]. exfalso.
    rewrite text_of_cons in Htext. destruct Cp as [Cp _]. rewrite Htext in Cp. apply Forall_app in Cp as [_ [[_ ?] _]%list.Forall_cons]. done. }
  destruct (text_of_split ls rest Cl Cr (pend ++ x :: l) (unread fd s1)) as (ls1 & ls2 & c & -> & Ea & Eb & Cc); [by rewrite <-app_assoc, <-El|].
  apply Forall_app in Cl as [Cl1 Cl2]. set (a := pend ++ x :: l) in *.
  assert (Ha : (length a ≤ 1023)%nat) by (unfold a; rewrite length_app; destruct Cp as [_ ?]; lia).
  replace (length pend + length (x :: l))%nat with (length a) by apply length_app.
  assert (Hfill : ∃ y junk, fill buf (length pend) (x :: l) = a ++ y :: junk ∧ length (a ++ y :: junk) = 1024%nat).
  { destruct (drop (length a) buf) as [|y junk] eqn:Ed; [apply (f_equal length) in Ed; rewrite length_drop in Ed; cbn in Ed; lia|].
    exists y, junk. unfold fill. rewrite Hpend. replace (length pend + length (x :: l))%nat with (length a) by apply length_app.
    rewrite Ed. unfold a at 1. rewrite <-app_assoc. split; [done|]. apply (f_equal length) in Ed. rewrite length_drop in Ed. rewrite length_app. cbn in *. lia. }
  destruct Hfill as (y & junk & -> & Hlen). eapply uruns_lift; [apply aset_at|].
  apply uruns_bind. pose proof (text_of_length ls1 c). replace (a ++ 0 :: junk) with ([] ++ text_of ls1 (c ++ 0 :: junk)) by (cbn; rewrite Ea; unfold text_of; by rewrite <-app_assoc).
  eapply uruns_mono; [apply (grep_lines_spec pattern c junk ls1 Cl1 Cc 1025 []); rewrite <-Ea in *; lia| |]; cbn beta; [|done].
  intros r s2 (pre' & -> & Hp & Ho & Hu). rewrite <-Ea in Hp. cbn in Hp. cbv beta iota.
  rewrite decide_True by (unfold a; rewrite length_app; cbn; lia). rewrite length_app in Hlen. cbn in Hlen.
  eapply uruns_lift; [apply array_memmove_spec; rewrite !length_app; cbn; lia|]. rewrite take_0. cbn [app].
  replace (length a - length pre')%nat with (length c) by lia. rewrite drop_app_length, take_app_length.
  eapply uruns_mono; [apply (IH _ _ c ls2 rest)| |]; cbn beta; [| |done|done|done| | | |done].
  - rewrite length_app, length_drop, !length_app. cbn. lia.
  - apply take_app_length.
  - by rewrite Hu.
  - rewrite Hu. rewrite El, length_app in Hn. cbn in Hn. lia.
  - intros buf' s3 [Hb' Ho3]. split; [done|]. unfold grepped in *. rewrite list.filter_app, fmap_app, concat_app.
    exact (output_app _ [] _ _ _ _ (output_same 1 _ _ Hs) (output_app _ _ _ _ _ _ Ho Ho3)).
Qed.
End utilities.
