(* ===== verification/Shell.v ===== *)
(** * The shell (user/sh.c): reading and parsing commands

    The input is the list of the characters of the buffer in front of the
    terminator; a pointer into it is an index, [es] is its length, and a
    read behind the terminator faults.  [panic] prints its message and ends
    the shell's child with status 1. *)

From S2P Require Import Prelude FsState SysFile Printf UserIO UserLib.

Module Sh.
Definition MAXARGS : nat := 10.

(** Parsed commands; an argument is the range [argv[i], eargv[i]).  The
    constructors of the source call [malloc], which is taken to succeed. *)
Inductive cmd :=
  | EXEC (argv : list (nat * nat))
  | REDIR (c : cmd) (file efile : nat) (mode fd : Z)
  | PIPE (left right : cmd)
  | LIST (left right : cmd)
  | BACK (c : cmd).

Definition whitespace : list Z := [space; tab; cr; nl; vtab].
Definition symbols : list Z := zstr "<|>&;()".

Definition found (l : list Z) (c : Z) : bool := bool_decide (is_Some (Ulib.strchr l c)).

(** [*s] *)
Definition at_ (buf : list Z) (s : nat) : res Z :=
  if decide (s ≤ length buf)%nat then Ret (char_at buf s) else Fault.

(** [while(s < es && strchr(whitespace, *s)) s++], with [es - s] as [n]. *)
Fixpoint skip_white (n : nat) (buf : list Z) (s : nat) : nat :=
  match n with
  | O => s
  | S n => if found whitespace (char_at buf s) then skip_white n buf (S s) else s
  end.

Fixpoint skip_word (n : nat) (buf : list Z) (s : nat) : nat :=
  match n with
  | O => s
  | S n =>
    if negb (found whitespace (char_at buf s)) && negb (found symbols (char_at buf s)) then skip_word n buf (S s) else s
  end.

(** The result is [ret], [*q], [*eq] and [*ps]. *)
Definition gettoken (buf : list Z) (s : nat) : res (Z * nat * nat * nat) :=
  let es := length buf in
  let s := skip_white (es - s) buf s in
  let q := s in
  c ← at_ buf s;
  '(ret, s) ←
    (if c =? 0 then Ret (c, s)
     else if (c =? zchar "|") || (c =? zchar "(") || (c =? zchar ")") || (c =? zchar ";") || (c =? zchar "&") || (c =? zchar "<") then
       Ret (c, S s)
     else if c =? zchar ">" then
       let s := S s in
       d ← at_ buf s;
       if d =? zchar ">" then Ret (zchar "+", S s) else Ret (c, s)
     else Ret (zchar "a", skip_word (es - s) buf s));
  Ret (ret, q, s, skip_white (es - s) buf s).

(** The result and [*ps]. *)
Definition peek (buf : list Z) (s : nat) (toks : list Z) : res (bool * nat) :=
  let s := skip_white (length buf - s) buf s in
  c ← at_ buf s;
  Ret (negb (c =? 0) && found toks c, s).

(** Each round of a loop consumes a character. *)
Definition rounds (buf : list Z) (s : nat) : nat := S (length buf - s).

Definition redir_mode (tok : Z) : Z * Z :=
  if tok =? zchar "<" then (O_RDONLY, 0)
  else if tok =? zchar ">" then (Z.lor (Z.lor O_WRONLY O_CREATE) O_TRUNC, 1)
  else (Z.lor O_WRONLY O_CREATE, 1).

Fixpoint redirs_loop (n : nat) (buf : list Z) (c : cmd) (s : nat) : res (cmd * nat) :=
  match n with
  | O => OutOfFuel
  | S n =>
    '(b, s) ← peek buf s (zstr "<>");
    if (b : bool) then
      '(tok, _, _, s) ← gettoken buf s;
      '(a, q, eq, s) ← gettoken buf s;
      if negb (a =? zchar "a") then Panic "missing file for redirection"
      else redirs_loop n buf (REDIR c q eq (redir_mode tok).1 (redir_mode tok).2) s
    else Ret (c, s)
  end.

Definition parseredirs (buf : list Z) (c : cmd) (s : nat) : res (cmd * nat) := redirs_loop (rounds buf s) buf c s.

(** The command node that [parseexec] fills in lies under the redirections
    that it has read. *)
Fixpoint add_arg (c : cmd) (q eq : nat) : cmd :=
  match c with
  | EXEC l => EXEC (l ++ [(q, eq)])
  | REDIR c file efile mode fd => REDIR (add_arg c q eq) file efile mode fd
  | _ => c
  end.

Fixpoint args_loop (n : nat) (buf : list Z) (ret : cmd) (argc : nat) (s : nat) : res (cmd * nat) :=
  match n with
  | O => OutOfFuel
  | S n =>
    '(b, s) ← peek buf s (zstr "|)&;");
    if (b : bool) then Ret (ret, s)
    else
      '(tok, q, eq, s) ← gettoken buf s;
      if tok =? 0 then Ret (ret, s)
      else if negb (tok =? zchar "a") then Panic "syntax"
      else
        let ret := add_arg ret q eq in
        let argc := S argc in
        if (MAXARGS <=? argc)%nat then Panic "too many args"
        else
          '(ret, s) ← parseredirs buf ret s;
          args_loop n buf ret argc s
  end.

Fixpoint backs_loop (n : nat) (buf : list Z) (c : cmd) (s : nat) : res (cmd * nat) :=
  match n with
  | O => OutOfFuel
  | S n =>
    '(b, s) ← peek buf s (zstr "&");
    if (b : bool) then
      '(_, _, _, s) ← gettoken buf s;
      backs_loop n buf (BACK c) s
    else Ret (c, s)
  end.

(** The functions below call [parseline] for the command in parentheses: it is
    their argument [line], and [parseline] passes itself. *)
Definition parseblock (line : nat → list Z → nat → res (cmd * nat)) (n : nat) (buf : list Z) (s : nat) : res (cmd * nat) :=
  match n with
  | O => OutOfFuel
  | S n =>
    '(b, s) ← peek buf s (zstr "(");
    if negb (b : bool) then Panic "parseblock"
    else
      '(_, _, _, s) ← gettoken buf s;
      '(c, s) ← line n buf s;
      '(b, s) ← peek buf s (zstr ")");
      if negb (b : bool) then Panic "syntax - missing )"
      else
        '(_, _, _, s) ← gettoken buf s;
        parseredirs buf c s
  end.

Definition parseexec (line : nat → list Z → nat → res (cmd * nat)) (n : nat) (buf : list Z) (s : nat) : res (cmd * nat) :=
  match n with
  | O => OutOfFuel
  | S n =>
    '(b, s) ← peek buf s (zstr "(");
    if (b : bool) then parseblock line n buf s
    else
      '(ret, s) ← parseredirs buf (EXEC []) s;
      args_loop (rounds buf s) buf ret 0 s
  end.

Fixpoint parsepipe (line : nat → list Z → nat → res (cmd * nat)) (n : nat) (buf : list Z) (s : nat) : res (cmd * nat) :=
  match n with
  | O => OutOfFuel
  | S n =>
    '(c, s) ← parseexec line n buf s;
    '(b, s) ← peek buf s (zstr "|");
    if (b : bool) then
      '(_, _, _, s) ← gettoken buf s;
      '(r, s) ← parsepipe line n buf s;
      Ret (PIPE c r, s)
    else Ret (c, s)
  end.

Fixpoint parseline (n : nat) (buf : list Z) (s : nat) : res (cmd * nat) :=
  match n with
  | O => OutOfFuel
  | S n =>
    '(c, s) ← parsepipe parseline n buf s;
    '(c, s) ← backs_loop (rounds buf s) buf c s;
    '(b, s) ← peek buf s (zstr ";");
    if (b : bool) then
      '(_, _, _, s) ← gettoken buf s;
      '(r, s) ← parseline n buf s;
      Ret (LIST c r, s)
    else Ret (c, s)
  end.

(** [*e = 0] for each argument. *)
Fixpoint cut_all (l : list (nat * nat)) (arr : list Z) : res (list Z) :=
  match l with
  | [] => Ret arr
  | (_, e) :: l =>
    arr ← aset arr e 0;
    cut_all l arr
  end.

(** On the array of the buffer, with its terminator. *)
Fixpoint nulterminate (c : cmd) (arr : list Z) : res (list Z) :=
  match c with
  | EXEC argv => cut_all argv arr
  | REDIR c _ efile _ _ =>
    arr ← nulterminate c arr;
    aset arr efile 0
  | PIPE l r | LIST l r =>
    arr ← nulterminate l arr;
    nulterminate r arr
  | BACK c => nulterminate c arr
  end.

(** At most four calls are nested for each character. *)
Definition parse_fuel (buf : list Z) : nat := 4 * length buf + 4.

(** The result is the command and the array of the buffer. *)
Definition parsecmd (buf : list Z) : res (cmd * list Z) :=
  let es := length buf in
  '(c, s) ← parseline (parse_fuel buf) buf 0;
  '(_, s) ← peek buf s [];
  if negb (s =? es)%nat then Panic "syntax"
  else
    arr ← nulterminate c (buf ++ [0]);
    Ret (c, arr).

(** ** Running commands

    A process is the tree of its system calls: what it does next, for each
    result of the call.  [Fork] has the code of the child and that of the
    parent, which gets the process identifier or -1. *)

Inductive prog :=
  | Exit (status : Z)
  | Exec (path : list Z) (argv : list (list Z)) (failed : prog)
  | Open (path : list Z) (mode : Z) (k : Z → prog)
  | Close (fd : Z) (k : prog)
  | Dup (fd : Z) (k : prog)
  | Pipe (k : option (Z * Z) → prog)
  | Fork (child : prog) (parent : Z → prog)
  | Wait (k : prog)
  | Write (fd : Z) (text : list Z) (k : prog)
  | Chdir (path : list Z) (k : Z → prog).

Definition panic (s : list Z) : prog := Write 2 (s ++ [nl]) (Exit 1).

Definition fork1 (child parent : prog) : prog := Fork child (λ pid, if pid =? -1 then panic (zstr "fork") else parent).

(** The string at an index of the buffer. *)
Definition cstring (arr : list Z) (q : nat) : list Z := upto_nul (drop q arr).

Fixpoint runcmd (arr : list Z) (c : cmd) : prog :=
  match c with
  | EXEC argv =>
    match argv with
    | [] => Exit 1
    | (q, _) :: _ =>
      Exec (cstring arr q) ((λ w, cstring arr w.1) <$> argv)
        (Write 2 (zstr "exec " ++ cstring arr q ++ zstr " failed" ++ [nl]) (Exit 0))
    end
  | REDIR c file _ mode fd =>
    Close fd (Open (cstring arr file) mode (λ r,
      if r <? 0 then Write 2 (zstr "open " ++ cstring arr file ++ zstr " failed" ++ [nl]) (Exit 1)
      else runcmd arr c))
  | LIST l r => fork1 (runcmd arr l) (Wait (runcmd arr r))
  | PIPE l r =>
    Pipe (λ p,
      match p with
      | None => panic (zstr "pipe")
      | Some (p0, p1) =>
        fork1 (Close 1 (Dup p1 (Close p0 (Close p1 (runcmd arr l)))))
          (fork1 (Close 0 (Dup p0 (Close p0 (Close p1 (runcmd arr r)))))
             (Close p0 (Close p1 (Wait (Wait (Exit 0))))))
      end)
  | BACK c => fork1 (runcmd arr c) (Exit 0)
  end.

(** [cmd] behind its leading spaces and tabs. *)
Fixpoint skip_blanks (l : list Z) : list Z :=
  match l with
  | c :: l' => if (c =? space) || (c =? tab) then skip_blanks l' else l
  | [] => []
  end.

(** The rest of a line at which [parsecmd] stops. *)
Definition leftovers (buf : list Z) : option (list Z) :=
  match parseline (parse_fuel buf) buf 0 ≫= (λ '(_, s), peek buf s []) with
  | Ret (_, s) => if negb (s =? length buf)%nat then Some (drop s buf) else None
  | _ => None
  end.

(** The child that parses and runs a command; a fault would kill it. *)
Definition run_child (cmd : list Z) : prog :=
  match parsecmd cmd with
  | Ret (c, arr) => runcmd arr c
  | Panic msg =>
    match leftovers cmd with
    | Some s => Write 2 (zstr "leftovers: " ++ s ++ [nl]) (panic (zstr msg))
    | None => panic (zstr msg)
    end
  | _ => Exit (-1)
  end.

(** The body of the loop of [main], for the line that [getcmd] has read. *)
Definition run_line (buf : list Z) (k : prog) : prog :=
  let cmd := skip_blanks buf in
  if char_at cmd 0 =? nl then k
  else if (char_at cmd 0 =? zchar "c") && (char_at cmd 1 =? zchar "d") && (char_at cmd 2 =? zchar " ") then
    let path := drop 3 (take (length cmd - 1) cmd) in
    Chdir path (λ r, if r <? 0 then Write 2 (zstr "cannot cd " ++ path ++ [nl]) k else k)
  else fork1 (run_child cmd) (Wait k).

Fixpoint open_console (n : nat) (k : prog) : prog :=
  match n with
  | O => k
  | S n =>
    Open (zstr "console") O_RDWR (λ fd,
      if 0 <=? fd then if 3 <=? fd then Close fd k else open_console n k else k)
  end.

(** [main], for the lines that [getcmd] (below) reads until the end of the
    input, each in its buffer of 100 characters and each after the prompt;
    each call of [open] but the last takes one of the descriptors 0 to 2. *)
Definition main (lines : list (list Z)) : prog :=
  open_console 4 (foldr (λ buf k, Write 2 (zstr "$ ") (run_line buf k)) (Write 2 (zstr "$ ") (Exit 0)) lines).

Section input.
Context {S : Type} `{UserIO S}.

(** [None] is the end of the input. *)
Definition getcmd (buf : list Z) (nbuf : nat) : U S (option (list Z)) :=
  r ← sys (u_write 2 (zstr "$ "));
  buf ← sys (lift (Ulib.memset buf 0 0 nbuf));
  buf ← Ulib.gets buf nbuf;
  mret (if char_at buf 0 =? 0 then None else Some buf).
End input.
End Sh.
