(* ===== verification/ShellSpec.v ===== *)
(** * The shell: its parser ends on every input, and arguments are words *)

From S2P Require Import Prelude FsState SysFile Printf UserIO UserLib UtilsSpec Shell.
Import Sh.

(** ** Results that are a value or a message *)

Definition good {A} (P : A → Prop) (r : res A) : Prop :=
  match r with
  | Ret a => P a
  | Panic _ => True
  | _ => False
  end.

Lemma good_bind {A B} (m : res A) (f : A → res B) P Q : good P m → (∀ a, P a → good Q (f a)) → good Q (m ≫= f).
Proof. destruct m; cbn; auto; done. Qed.

Lemma good_mono {A} (P Q : A → Prop) r : good P r → (∀ a, P a → Q a) → good Q r.
Proof. destruct r; cbn; auto. Qed.

(** ** Characters *)

Definition word_char (c : Z) : Prop := c ≠ 0 ∧ found whitespace c = false ∧ found symbols c = false.

Lemma found_0 l : found l 0 = false.
Proof.
  unfold found. apply bool_decide_eq_false. induction l as [|x l IH]; cbn; [by intros []|].
  destruct (x =? 0); [by intros []|]. intros [k Hk]. destruct (Ulib.strchr l 0); [|done]. by apply IH.
Qed.

Lemma found_true l c : Forall (λ x, x ≠ 0) l → found l c = true ↔ c ∈ l.
Proof.
  intros Hl. unfold found. rewrite bool_decide_eq_true, <-not_eq_None_Some, strchr_None by done.
  destruct (decide (c ∈ l)); naive_solver.
Qed.

Lemma symbols_found c :
  found symbols c = (c =? zchar "|") || (c =? zchar "(") || (c =? zchar ")") || (c =? zchar ";") || (c =? zchar "&") || (c =? zchar "<") || (c =? zchar ">").
Proof.
  apply eq_bool_prop_intro. rewrite Is_true_true, Is_true_true, found_true by (unfold symbols; cbn; repeat constructor; done).
  rewrite !orb_true_iff, !Z.eqb_eq. unfold symbols. cbn. rewrite !elem_of_cons, elem_of_nil. naive_solver.
Qed.

Lemma char_at_ge l i : (length l ≤ i)%nat → char_at l i = 0.
Proof. intros. unfold char_at. by rewrite lookup_ge_None_2. Qed.

(** ** Tokens *)

Section parser.
Context (buf : list Z) (Hbuf : Forall (λ c, c ≠ 0) buf).
Abbreviation es := (length buf).
Implicit Types s q e n : nat.

Lemma char_at_in i : (i < es)%nat → char_at buf i ≠ 0.
Proof.
  intros Hi. destruct (lookup_lt_is_Some_2 buf i Hi) as [x Hx]. unfold char_at. rewrite Hx. cbn. by apply (Forall_lookup_1 _ _ _ _ Hbuf Hx).
Qed.

Lemma char_at_end i : char_at buf i = 0 → (es ≤ i)%nat.
Proof. intros Hc. destruct (decide (i < es)%nat) as [Hi|]; [by apply char_at_in in Hi|lia]. Qed.

Abbreviation skip s := (skip_white (es - s) buf s).

Lemma skip_white_spec n : ∀ s, let s' := skip_white n buf s in
  (s ≤ s' ≤ s + n)%nat ∧ ((s' < s + n)%nat → found whitespace (char_at buf s') = false).
Proof.
  induction n as [|n IH]; intros s; cbn; [lia|]. destruct (found whitespace (char_at buf s)) eqn:E; [|split; [lia|done]].
  destruct (IH (S s)) as [H1 H2]. split; [lia|]. intros. apply H2. lia.
Qed.

Lemma skip_spec s : (s ≤ es)%nat → (s ≤ skip s ≤ es)%nat ∧ found whitespace (char_at buf (skip s)) = false.
Proof.
  intros Hs. destruct (skip_white_spec (es - s) s) as [H1 H2]. split; [lia|].
  destruct (decide (skip s < es)%nat); [apply H2; lia|]. rewrite char_at_ge by lia. apply found_0.
Qed.

Lemma skip_here s : found whitespace (char_at buf s) = false → skip s = s.
Proof. intros E. destruct (es - s)%nat; cbn; [done|]. by rewrite E. Qed.

Lemma skip_skip s : (s ≤ es)%nat → skip (skip s) = skip s.
Proof. intros Hs. apply skip_here, skip_spec, Hs. Qed.

Lemma skip_word_spec n : ∀ s, let s' := skip_word n buf s in
  (s ≤ s' ≤ s + n)%nat ∧ (∀ i, (s ≤ i < s')%nat → found whitespace (char_at buf i) = false ∧ found symbols (char_at buf i) = false) ∧
  ((s' < s + n)%nat → found whitespace (char_at buf s') = true ∨ found symbols (char_at buf s') = true).
Proof.
  induction n as [|n IH]; intros s; cbn [skip_word]; [split; [cbn; lia|]; split; cbn; intros; lia|].
  destruct (negb (found whitespace (char_at buf s)) && negb (found symbols (char_at buf s))) eqn:E.
  - apply andb_true_iff in E as [E1%negb_true_iff E2%negb_true_iff]. destruct (IH (S s)) as (H1 & H2 & H3). split; [lia|]. split.
    + intros i Hi. destruct (decide (i = s)) as [->|]; [done|]. apply H2. lia.
    + intros. apply H3. lia.
  - split; [lia|]. split; [intros; lia|]. intros _. apply andb_false_iff in E as [E%negb_false_iff|E%negb_false_iff]; auto.
Qed.

(** A range that holds a whole word. *)
Definition range_ok (w : nat * nat) : Prop :=
  (w.1 < w.2 ≤ es)%nat ∧ (∀ i, (w.1 ≤ i < w.2)%nat → word_char (char_at buf i)) ∧ ¬ word_char (char_at buf w.2).

Lemma at_ok s : (s ≤ es)%nat → at_ buf s = Ret (char_at buf s).
Proof. intros. unfold at_. by rewrite decide_True. Qed.

Definition token_at (s : nat) (t : Z * nat * nat * nat) : Prop :=
  let '(ret, q, e, s') := t in
  q = skip s ∧ (s ≤ q ≤ e ∧ e ≤ s' ≤ es)%nat ∧ (char_at buf q ≠ 0 → ret ≠ 0 ∧ (q < e)%nat) ∧
  (char_at buf q = 0 → ret = 0) ∧ (ret = zchar "a" → range_ok (q, e)).

Lemma gettoken_total s : (s ≤ es)%nat → good (token_at s) (gettoken buf s).
Proof.
  intros Hs. destruct (skip_spec s Hs) as [Hq Hw]. unfold gettoken. cbv zeta. set (q := skip s) in *. rewrite (at_ok q), res_bind_Ret by lia.
  assert (Hfin : ∀ ret e, (q ≤ e ≤ es)%nat → (char_at buf q ≠ 0 → ret ≠ 0 ∧ (q < e)%nat) → (char_at buf q = 0 → ret = 0) →
    (ret = zchar "a" → range_ok (q, e)) → good (token_at s) (Ret (ret, q, e, skip e))).
  { intros ret e He H1 H2 H3. destruct (skip_spec e) as [H4 _]; [lia|]. unfold good, token_at. ands; try done; lia. }
  set (c := char_at buf q) in *. destruct (Z.eqb_spec c 0) as [Ec|Ec].
  { rewrite res_bind_Ret. apply Hfin; [lia|done..|]. rewrite Ec. done. }
  assert (Hlt : (q < es)%nat) by (destruct (decide (q < es)%nat); [done|]; destruct Ec; apply char_at_ge; lia).
  destruct (_ || _) eqn:Es.
  { rewrite res_bind_Ret. apply Hfin; [lia|split; [done|lia]|done|]. intros Ea. exfalso. rewrite Ea in Es. done. }
  destruct (Z.eqb_spec c (zchar ">")) as [Eg|Eg].
  { rewrite at_ok, res_bind_Ret by lia. destruct (Z.eqb_spec (char_at buf (S q)) (zchar ">")) as [Eg2|Eg2]; rewrite res_bind_Ret.
    - apply Hfin; [|split; [done|lia]|done|done].
      destruct (decide (S q < es)%nat); [lia|]. rewrite char_at_ge in Eg2 by lia. done.
    - apply Hfin; [lia|split; [done|lia]|done|]. rewrite Eg. done. }
  rewrite res_bind_Ret. destruct (skip_word_spec (es - q) q) as (H1 & H2 & H3). set (e := skip_word (es - q) buf q) in *.
  assert (Hsym : found symbols c = false) by (rewrite symbols_found, Es; by apply Z.eqb_neq in Eg as ->).
  assert (Hqe : (q < e)%nat).
  { destruct (decide (q < e)%nat); [done|]. destruct H3 as [H3|H3]; [lia| |]; replace e with q in H3 by lia; fold c in H3; congruence. }
  apply Hfin; [lia|by split|done|]. intros _. split; [cbn; lia|]. cbn. split.
  - intros i Hi. split; [apply char_at_in; lia|]. by apply H2.
  - intros (Hn & Hf1 & Hf2). destruct (decide (e < es)%nat).
    + destruct H3 as [H3|H3]; [lia|congruence..].
    + destruct Hn. apply char_at_ge. lia.
Qed.

Lemma peek_eq s toks : (s ≤ es)%nat → peek buf s toks = Ret (negb (char_at buf (skip s) =? 0) && found toks (char_at buf (skip s)), skip s).
Proof. intros Hs. destruct (skip_spec s Hs). unfold peek. by rewrite at_ok, res_bind_Ret by lia. Qed.

(** A token that [peek] has seen is consumed by [gettoken]. *)
Definition token_after (s : nat) (t : Z * nat * nat * nat) : Prop :=
  let '(ret, q, e, s') := t in q = s ∧ (s < e ≤ s' ∧ s' ≤ es)%nat ∧ ret ≠ 0.

Lemma good_peek {A} s toks (f : bool → nat → res A) Q : (s ≤ es)%nat →
  (∀ s', (s ≤ s' ≤ es)%nat → good (token_after s') (gettoken buf s') → char_at buf s' ≠ 0 → found toks (char_at buf s') = true → good Q (f true s')) →
  (∀ s', (s ≤ s' ≤ es)%nat → good Q (f false s')) → good Q ('(b, s') ← peek buf s toks; f b s').
Proof.
  intros Hs Ht Hf. destruct (skip_spec s Hs) as [H1 H2]. rewrite peek_eq, res_bind_Ret by done.
  destruct (negb (char_at buf (skip s) =? 0) && found toks (char_at buf (skip s))) eqn:E; [|apply Hf; lia].
  apply andb_true_iff in E as [E1%negb_true_iff%Z.eqb_neq E2]. apply Ht; [lia| |done|done].
  eapply good_mono; [apply gettoken_total; lia|]. intros [[[ret q] e] s'] (Hq & H3 & H4 & H5 & _). rewrite skip_skip in Hq by done. subst q.
  destruct (H4 E1). cbn. ands; [done|lia..|done].
Qed.

(** ** The parser *)

Fixpoint ranges (c : cmd) : list (nat * nat) :=
  match c with
  | EXEC l => l
  | REDIR c file efile _ _ => ranges c ++ [(file, efile)]
  | PIPE l r | LIST l r => ranges l ++ ranges r
  | BACK c => ranges c
  end.

Definition ranges_ok (c : cmd) : Prop := Forall range_ok (ranges c).

Lemma add_arg_ok c q e : ranges_ok c → range_ok (q, e) → ranges_ok (add_arg c q e).
Proof.
  unfold ranges_ok. induction c; cbn; intros Hc Hr; try done; [by apply Forall_app_2, Forall_singleton|].
  apply Forall_app in Hc as [Hc Hf]. apply Forall_app_2; [by apply IHc|done].
Qed.

(** The command [c] has been read between [s] and [s']. *)
Definition parsed (s : nat) (r : cmd * nat) : Prop := (s ≤ r.2 ≤ es)%nat ∧ ranges_ok r.1.

Lemma parsed_le s s' r : (s ≤ s')%nat → parsed s' r → parsed s r.
Proof. intros ? [? ?]. split; [lia|done]. Qed.

(** One step over a token that has been seen. *)
Lemma good_next {A} s (f : Z → nat → nat → nat → res A) Q : good (token_after s) (gettoken buf s) →
  (∀ tok e s', (s < s' ≤ es)%nat → good Q (f tok s e s')) → good Q ('(tok, q, e, s') ← gettoken buf s; f tok q e s').
Proof. intros Ht Hf. eapply good_bind; [exact Ht|]. intros [[[tok q] e] s'] (-> & ? & _). apply Hf. lia. Qed.

Lemma redirs_total n : ∀ c s, (s ≤ es)%nat → (es - s < n)%nat → ranges_ok c → good (parsed s) (redirs_loop n buf c s).
Proof.
  induction n as [|n IH]; intros c s Hs Hn Hc; [lia|]. cbn [redirs_loop]. apply good_peek; [done| |].
  - intros s1 Hs1 Ht _ _. apply good_next; [done|]. intros tok _ s2 Hs2. eapply good_bind; [apply gettoken_total; lia|].
    intros [[[a q] e] s3] (_ & H3 & _ & _ & Hr). destruct (Z.eqb_spec a (zchar "a")) as [Ea|]; [|done]. cbn [negb].
    eapply good_mono; [apply IH; [lia|lia|]|intros r; apply parsed_le; lia]. apply Forall_app_2; [done|]. by apply Forall_singleton, Hr.
  - intros s1 Hs1. split; [cbn; lia|done].
Qed.

Lemma parseredirs_total c s : (s ≤ es)%nat → ranges_ok c → good (parsed s) (parseredirs buf c s).
Proof. intros. apply redirs_total; [done|unfold rounds; lia|done]. Qed.

Lemma args_total n : ∀ c argc s, (s ≤ es)%nat → (es - s < n)%nat → ranges_ok c → good (parsed s) (args_loop n buf c argc s).
Proof.
  induction n as [|n IH]; intros c argc s Hs Hn Hc; [lia|]. cbn [args_loop]. apply good_peek; [done| |].
  - intros s1 Hs1 _ _ _. split; [cbn; lia|done].
  - intros s1 Hs1. eapply good_bind; [apply gettoken_total; lia|]. intros [[[tok q] e] s2] (_ & H3 & H4 & H5 & Hr).
    destruct (Z.eqb_spec tok 0) as [E0|E0]; [split; [cbn; lia|done]|]. destruct (Z.eqb_spec tok (zchar "a")) as [Ea|]; [|done]. cbn [negb].
    destruct (_ <=? _)%nat; [done|]. assert (Hne : char_at buf q ≠ 0) by (intros E; by apply H5 in E). destruct (H4 Hne) as [_ Hqe].
    eapply good_bind; [apply parseredirs_total; [lia|by apply add_arg_ok, Hr]|]. intros [c' s3] [Hs3 Hc']. cbn in Hs3, Hc'.
    eapply good_mono; [apply IH; [lia|lia|done]|intros r; apply parsed_le; lia].
Qed.

Lemma backs_total n : ∀ c s, (s ≤ es)%nat → (es - s < n)%nat → ranges_ok c → good (parsed s) (backs_loop n buf c s).
Proof.
  induction n as [|n IH]; intros c s Hs Hn Hc; [lia|]. cbn [backs_loop]. apply good_peek; [done| |].
  - intros s1 Hs1 Ht _ _. apply good_next; [done|]. intros tok _ s2 Hs2.
    eapply good_mono; [apply IH; [lia|lia|done]|intros r; apply parsed_le; lia].
  - intros s1 Hs1. split; [cbn; lia|done].
Qed.

Lemma ranges_ok_app c1 c2 : ranges_ok c1 → ranges_ok c2 → Forall range_ok (ranges c1 ++ ranges c2).
Proof. apply Forall_app_2. Qed.

Lemma parse_total m : ∀ s n, (s ≤ es)%nat → (es - s ≤ m)%nat →
  ((4 * m + 4 ≤ n)%nat → good (parsed s) (parseline n buf s)) ∧ ((4 * m + 3 ≤ n)%nat → good (parsed s) (parsepipe parseline n buf s)) ∧
  ((4 * m + 2 ≤ n)%nat → good (parsed s) (parseexec parseline n buf s)) ∧ ((4 * m + 1 ≤ n)%nat → good (parsed s) (parseblock parseline n buf s)).
Proof.
  induction m as [m IHm] using lt_wf_ind. intros s n Hs Hm.
  assert (Hblock : ∀ n s, (s ≤ es)%nat → (es - s ≤ m)%nat → (4 * m + 1 ≤ n)%nat → good (parsed s) (parseblock parseline n buf s)).
  { clear s n Hs Hm. intros n s Hs Hm Hn. destruct n as [|n]; [lia|]. cbn [parseblock]. apply good_peek; [done| |done].
    intros s1 Hs1 Ht _ _. cbn [negb]. apply good_next; [done|]. intros _ _ s2 Hs2.
    eapply good_bind; [apply (IHm (m - 1)%nat ltac:(lia) s2 n); lia|]. intros [c s3] [Hs3 Hc]. cbn in Hs3, Hc.
    apply good_peek; [lia| |done]. intros s4 Hs4 Ht4 _ _. cbn [negb]. apply good_next; [done|]. intros _ _ s5 Hs5.
    eapply good_mono; [apply parseredirs_total; [lia|done]|intros r; apply parsed_le; lia]. }
  assert (Hexec : ∀ n s, (s ≤ es)%nat → (es - s ≤ m)%nat → (4 * m + 2 ≤ n)%nat → good (parsed s) (parseexec parseline n buf s)).
  { clear s n Hs Hm. intros n s Hs Hm Hn. destruct n as [|n]; [lia|]. cbn [parseexec]. apply good_peek; [done| |].
    - intros s1 Hs1 _ _ _. eapply good_mono; [apply Hblock; lia|intros r; apply parsed_le; lia].
    - intros s1 Hs1. eapply good_bind; [apply parseredirs_total; [lia|by apply Forall_nil_2]|]. intros [c s2] [Hs2 Hc]. cbn in Hs2, Hc.
      eapply good_mono; [apply args_total; [lia|unfold rounds; lia|done]|intros r; apply parsed_le; lia]. }
  assert (Hpipe : ∀ n s, (s ≤ es)%nat → (es - s ≤ m)%nat → (4 * m + 3 ≤ n)%nat → good (parsed s) (parsepipe parseline n buf s)).
  { clear s n Hs Hm. intros n s Hs Hm Hn. destruct n as [|n]; [lia|]. cbn [parsepipe].
    eapply good_bind; [apply Hexec; lia|]. intros [c s1] [Hs1 Hc]. cbn in Hs1, Hc. apply good_peek; [lia| |].
    - intros s2 Hs2 Ht _ _. apply good_next; [done|]. intros _ _ s3 Hs3.
      eapply good_bind; [apply (IHm (m - 1)%nat ltac:(lia) s3 n); lia|]. intros [r s4] [Hs4 Hr]. cbn in Hs4, Hr. split; [cbn; lia|by apply ranges_ok_app].
    - intros s2 Hs2. split; [cbn; lia|done]. }
  ands; [|by apply Hpipe|by apply Hexec|by apply Hblock].
  intros Hn. destruct n as [|n]; [lia|]. cbn [parseline].
  eapply good_bind; [apply Hpipe; lia|]. intros [c s1] [Hs1 Hc]. cbn in Hs1, Hc.
  eapply good_bind; [apply backs_total; [lia|unfold rounds; lia|done]|]. intros [c2 s2] [Hs2 Hc2]. cbn in Hs2, Hc2. apply good_peek; [lia| |].
  - intros s3 Hs3 Ht _ _. apply good_next; [done|]. intros _ _ s4 Hs4.
    eapply good_bind; [apply (IHm (m - 1)%nat ltac:(lia) s4 n); lia|]. intros [r s5] [Hs5 Hr]. cbn in Hs5, Hr. split; [cbn; lia|by apply ranges_ok_app].
  - intros s3 Hs3. split; [cbn; lia|done].
Qed.

(** ** The strings of a command *)

(** Zeros have been stored at the ends of the ranges [l]. *)
Definition cut_at (l : list (nat * nat)) (arr arr' : list Z) : Prop :=
  length arr' = length arr ∧ ∀ i, (i < length arr)%nat → arr' !! i = if decide (i ∈ l.*2) then Some 0 else arr !! i.

Lemma cut_at_app l1 l2 arr arr1 arr' : cut_at l1 arr arr1 → cut_at l2 arr1 arr' → cut_at (l1 ++ l2) arr arr'.
Proof.
  intros [L1 H1] [L2 H2]. split; [congruence|]. intros i Hi. rewrite H2 by lia. rewrite fmap_app.
  destruct (decide (i ∈ l2.*2)); [by rewrite decide_True by set_solver|]. rewrite H1 by done.
  destruct (decide (i ∈ l1.*2)); [by rewrite decide_True by set_solver|by rewrite decide_False by set_solver].
Qed.

Lemma aset_cut arr q e : (e < length arr)%nat → ∃ arr', aset arr e 0 = Ret arr' ∧ cut_at [(q, e)] arr arr'.
Proof.
  intros He. rewrite aset_in by done. eexists. split; [done|]. split; [apply length_insert|]. intros i Hi. cbn.
  destruct (decide (i ∈ [e])) as [->%list_elem_of_singleton|Hne]; [by apply list_lookup_insert_eq|]. apply list_lookup_insert_ne. set_solver.
Qed.

Lemma cut_all_spec l : ∀ arr, Forall (λ w, w.2 < length arr)%nat l → ∃ arr', cut_all l arr = Ret arr' ∧ cut_at l arr arr'.
Proof.
  induction l as [|[q e] l IH]; intros arr Hl; cbn [cut_all]; [by exists arr|].
  apply list.Forall_cons in Hl as [He Hl]. destruct (aset_cut arr q e He) as (arr1 & -> & H1). rewrite res_bind_Ret.
  destruct (IH arr1) as (arr' & -> & H2); [by rewrite (proj1 H1)|]. exists arr'. split; [done|]. exact (cut_at_app [(q, e)] l _ _ _ H1 H2).
Qed.

Lemma nulterminate_spec c : ∀ arr, Forall (λ w, w.2 < length arr)%nat (ranges c) → ∃ arr', nulterminate c arr = Ret arr' ∧ cut_at (ranges c) arr arr'.
Proof.
  assert (Htwo : ∀ l r arr, (∀ arr, Forall (λ w, w.2 < length arr)%nat (ranges l) → ∃ arr', nulterminate l arr = Ret arr' ∧ cut_at (ranges l) arr arr') →
    (∀ arr, Forall (λ w, w.2 < length arr)%nat (ranges r) → ∃ arr', nulterminate r arr = Ret arr' ∧ cut_at (ranges r) arr arr') →
    Forall (λ w, w.2 < length arr)%nat (ranges l ++ ranges r) → ∃ arr', (arr ← nulterminate l arr; nulterminate r arr) = Ret arr' ∧ cut_at (ranges l ++ ranges r) arr arr').
  { intros l r arr Hl Hr [H1 H2]%Forall_app. destruct (Hl arr H1) as (arr1 & -> & C1). rewrite res_bind_Ret.
    destruct (Hr arr1) as (arr' & -> & C2); [by rewrite (proj1 C1)|]. exists arr'. split; [done|]. by eapply cut_at_app. }
  induction c; intros arr Hc; cbn [nulterminate ranges] in *; [by apply cut_all_spec| |by apply Htwo|by apply Htwo|by apply IHc].
  apply Forall_app in Hc as [Hc [He _]%list.Forall_cons]. destruct (IHc arr Hc) as (arr1 & -> & C1). rewrite res_bind_Ret. cbn in He.
  destruct (aset_cut arr1 file efile) as (arr' & -> & C2); [by rewrite (proj1 C1)|]. exists arr'. split; [done|]. by eapply cut_at_app.
Qed.

(** The characters of a range, and the string that starts at an index. *)
Definition text_at (w : nat * nat) : list Z := take (w.2 - w.1) (drop w.1 buf).
Definition string_at (arr : list Z) (q : nat) : list Z := upto_nul (drop q arr).

Lemma upto_nul_app w r : Forall (λ x, x ≠ 0) w → upto_nul (w ++ 0 :: r) = w.
Proof. induction 1 as [|x w Hx Hw IH]; [done|]. cbn [app upto_nul]. destruct (Z.eqb_spec x 0); [done|]. by rewrite IH. Qed.

Lemma text_at_chars w : range_ok w → Forall word_char (text_at w) ∧ text_at w ≠ [].
Proof.
  intros (H1 & H2 & _). split.
  - apply Forall_lookup. intros i x Hx. unfold text_at in Hx. apply lookup_take_Some in Hx as [Hx Hi]. rewrite lookup_drop in Hx.
    specialize (H2 (w.1 + i)%nat). unfold char_at in H2. rewrite Hx in H2. apply H2. lia.
  - intros E. apply (f_equal length) in E. unfold text_at in E. rewrite length_take, length_drop in E. cbn in E. lia.
Qed.

(** Behind [nulterminate] the strings are the words of the input. *)
Lemma string_at_cut l arr w : Forall range_ok l → cut_at l (buf ++ [0]) arr → w ∈ l → string_at arr w.1 = text_at w.
Proof.
  intros Hl [Hlen Hcut] Hw. rewrite length_app in Hlen, Hcut. cbn [length] in Hlen, Hcut. pose proof (proj1 (list.Forall_forall _ _) Hl w Hw) as (H1 & H2 & H3).
  assert (Harr : drop w.1 arr = text_at w ++ 0 :: drop (S w.2) arr).
  { apply list_eq. intros i. rewrite lookup_drop. destruct (decide (w.1 + i < w.2)%nat) as [Hi|Hi].
    - rewrite lookup_app_l by (unfold text_at; rewrite length_take, length_drop; lia). unfold text_at. rewrite lookup_take_lt, lookup_drop by lia.
      rewrite Hcut by lia. rewrite decide_False; [by rewrite lookup_app_l by lia|].
      intros ([q e] & Ee & Hin)%list_elem_of_fmap. cbn in Ee. pose proof (proj1 (list.Forall_forall _ _) Hl _ Hin) as (_ & _ & H6).
      destruct H6. cbn. rewrite <-Ee. apply H2. lia.
    - rewrite lookup_app_r by (unfold text_at; rewrite length_take, length_drop; lia).
      replace (length (text_at w)) with (w.2 - w.1)%nat by (unfold text_at; rewrite length_take, length_drop; lia).
      destruct (decide (w.1 + i = w.2)%nat) as [Hi2|Hi2].
      + replace (i - (w.2 - w.1))%nat with 0%nat by lia. cbn. rewrite Hi2, Hcut by lia. rewrite decide_True; [done|]. by apply list_elem_of_fmap_2.
      + replace (i - (w.2 - w.1))%nat with (S (w.1 + i - S w.2)) by lia.
        change (arr !! (w.1 + i)%nat = drop (S w.2) arr !! (w.1 + i - S w.2)%nat). rewrite lookup_drop. f_equal. lia. }
  unfold string_at. rewrite Harr. apply upto_nul_app. eapply Forall_impl; [|exact (proj1 (text_at_chars w (conj H1 (conj H2 H3))))]. by intros x [? _].
Qed.

Lemma parsecmd_total : good (λ '(c, arr), length arr = S es ∧ ranges_ok c ∧ ∀ w, w ∈ ranges c → string_at arr w.1 = text_at w) (parsecmd buf).
Proof.
  unfold parsecmd. eapply good_bind; [apply (parse_total es 0 (parse_fuel buf)); unfold parse_fuel; lia|]. intros [c s] [Hs Hc]. cbn in Hs, Hc.
  rewrite peek_eq, res_bind_Ret by lia. destruct (_ =? _)%nat; [|done]. cbn [negb].
  destruct (nulterminate_spec c (buf ++ [0])) as (arr & -> & Hcut).
  { eapply Forall_impl; [|exact Hc]. intros w (H1 & _). rewrite length_app. cbn. lia. }
  rewrite res_bind_Ret. cbn. ands; [|done|].
  - destruct Hcut as [-> _]. rewrite length_app. cbn. lia.
  - intros w Hw. by eapply string_at_cut.
Qed.
End parser.
