(* ===== verification/ShellPrint.v ===== *)
(** * The shell: what is printed is parsed

    [print] writes a command as a line of tokens, with parentheses where
    they are needed; the parser reads every command back. *)

From S2P Require Import Prelude FsState SysFile Printf UserIO UserLib UtilsSpec Shell ShellSpec.
Import Sh.

(** ** Tokens *)

Inductive token := Word (w : list Z) | Lt | Gt | GtGt | Bar | Amp | Semi | Open | Close.

Definition tok_text (t : token) : list Z :=
  match t with
  | Word w => w
  | Lt => zstr "<" | Gt => zstr ">" | GtGt => zstr ">>"
  | Bar => zstr "|" | Amp => zstr "&" | Semi => zstr ";" | Open => zstr "(" | Close => zstr ")"
  end.

Definition tok_code (t : token) : Z :=
  match t with
  | Word _ => zchar "a"
  | Lt => zchar "<" | Gt => zchar ">" | GtGt => zchar "+"
  | Bar => zchar "|" | Amp => zchar "&" | Semi => zchar ";" | Open => zchar "(" | Close => zchar ")"
  end.

Definition tok_ok (t : token) : Prop :=
  match t with
  | Word w => w ≠ [] ∧ Forall word_char w
  | _ => True
  end.

(** Every token is followed by a space, or another blank in its place
    ([spaced]). *)
Definition toks_text (ts : list token) : list Z := concat ((λ t, tok_text t ++ [space]) <$> ts).

Definition spaced (c d : Z) : Prop := c = d ∨ (d = space ∧ found whitespace c = true).

(** ** Commands *)

Inductive tree :=
  | TExec (args : list (list Z))
  | TRedir (t : tree) (mode fd : Z) (file : list Z)
  | TPipe (l r : tree)
  | TList (l r : tree)
  | TBack (t : tree).

(** The command that the parser's result stands for, if [str] gives the
    string of a range. *)
Fixpoint tree_of (str : nat * nat → list Z) (c : cmd) : tree :=
  match c with
  | EXEC argv => TExec (str <$> argv)
  | REDIR c file efile mode fd => TRedir (tree_of str c) mode fd (str (file, efile))
  | PIPE l r => TPipe (tree_of str l) (tree_of str r)
  | LIST l r => TList (tree_of str l) (tree_of str r)
  | BACK c => TBack (tree_of str c)
  end.

Definition redir_tok (mode : Z) : token :=
  if mode =? O_RDONLY then Lt else if mode =? Z.lor (Z.lor O_WRONLY O_CREATE) O_TRUNC then Gt else GtGt.

(** Words of word characters, at most nine of them, and the redirections
    that the shell knows. *)
Fixpoint tree_ok (t : tree) : Prop :=
  match t with
  | TExec args => Forall (λ w, w ≠ [] ∧ Forall word_char w) args ∧ (length args < MAXARGS)%nat
  | TRedir t mode fd file => tree_ok t ∧ (file ≠ [] ∧ Forall word_char file) ∧ (mode, fd) = redir_mode (tok_code (redir_tok mode))
  | TPipe l r | TList l r => tree_ok l ∧ tree_ok r
  | TBack t => tree_ok t
  end.

Definition in_parens (b : bool) (ts : list token) : list token := if b then [Open] ++ ts ++ [Close] else ts.

(** Level 0 is a line, 1 a part of it before a semicolon, 2 a pipeline, 3 a
    part of a pipeline. *)
Fixpoint print (level : nat) (t : tree) : list token :=
  match t with
  | TExec args => Word <$> args
  | TRedir t mode fd file => print 3 t ++ [redir_tok mode; Word file]
  | TPipe l r => in_parens (2 <? level)%nat (print 3 l ++ [Bar] ++ print 2 r)
  | TBack t => in_parens (1 <? level)%nat (print 1 t ++ [Amp])
  | TList l r => in_parens (0 <? level)%nat (print 1 l ++ [Semi] ++ print 0 r)
  end.

Lemma print_ok t : ∀ level, tree_ok t → Forall tok_ok (print level t).
Proof.
  assert (Hp : ∀ b ts, Forall tok_ok ts → Forall tok_ok (in_parens b ts)).
  { intros b ts Hts. destruct b; [|done]. cbn. constructor; [done|]. apply Forall_app_2; [done|by repeat constructor]. }
  induction t as [args|t IH mode fd file|l IHl r IHr|l IHl r IHr|t IH]; intros level Hok; cbn in Hok; cbn [print].
  - destruct Hok as [Hok _]. by apply Forall_fmap.
  - destruct Hok as (Ht & Hf & _). apply Forall_app_2; [by apply IH|]. constructor; [unfold redir_tok; by repeat case_match|]. by constructor.
  - destruct Hok. apply Hp, Forall_app_2; [by apply IHl|]. constructor; [done|]. by apply IHr.
  - destruct Hok. apply Hp, Forall_app_2; [by apply IHl|]. constructor; [done|]. by apply IHr.
  - apply Hp, Forall_app_2; [by apply IH|by repeat constructor].
Qed.

(** ** Reading tokens *)

Lemma toks_text_app a b : toks_text (a ++ b) = toks_text a ++ toks_text b.
Proof. unfold toks_text. by rewrite fmap_app, concat_app. Qed.

Lemma toks_text_cons t ts : toks_text (t :: ts) = tok_text t ++ space :: toks_text ts.
Proof. unfold toks_text. cbn. by rewrite <-app_assoc. Qed.

Lemma word_char_nz c : word_char c → c ≠ 0.
Proof. by intros [? _]. Qed.

Lemma toks_text_nz ts : Forall tok_ok ts → Forall (λ c, c ≠ 0) (toks_text ts).
Proof.
  induction 1 as [|t ts Ht Hts IH]; [done|]. rewrite toks_text_cons. apply Forall_app_2; [|by constructor].
  destruct t as [w| | | | | | | |]; cbn in *; [destruct Ht; eapply Forall_impl; [|done]; apply word_char_nz|by repeat constructor..].
Qed.

Lemma char_at_app a b i : char_at (a ++ b) (length a + i) = char_at b i.
Proof. unfold char_at. by rewrite lookup_app_r, Nat.add_comm, Nat.add_sub by lia. Qed.

Lemma char_at_app_0 a b : char_at (a ++ b) (length a) = char_at b 0.
Proof. rewrite <-(Nat.add_0_r (length a)) at 1. apply char_at_app. Qed.

Definition first (ts : list token) : Z := char_at (toks_text ts) 0.

Lemma first_char t ts : tok_ok t → first (t :: ts) = char_at (tok_text t) 0 ∧ found whitespace (first (t :: ts)) = false ∧ first (t :: ts) ≠ 0.
Proof.
  unfold first. rewrite toks_text_cons. destruct t as [w| | | | | | | |]; cbn [tok_ok]; [|done..].
  intros [Hne Hw]. destruct w as [|c w]; [done|]. apply list.Forall_cons in Hw as [(Hc & Hw1 & _) _]. done.
Qed.

Lemma first_white ts : Forall tok_ok ts → found whitespace (first ts) = false.
Proof. destruct 1 as [|t ts Ht _]; [apply found_0|]. by apply first_char. Qed.

Section reader.
Context (buf : list Z).
Abbreviation es := (length buf).

(** At [s] the tokens [ts] follow. *)
Definition at_toks (s : nat) (ts : list token) : Prop :=
  ∃ pre txt, buf = pre ++ txt ∧ Forall2 spaced txt (toks_text ts) ∧ s = length pre ∧ Forall tok_ok ts.

Lemma at_ok_toks s ts : at_toks s ts → Forall tok_ok ts.
Proof. by intros (pre & txt & _ & _ & _ & ?). Qed.

Lemma at_toks_app s a b : at_toks s (a ++ b) → at_toks (s + length (toks_text a)) b.
Proof.
  intros (pre & txt & Hb & Ht & -> & Hok). rewrite toks_text_app in Ht. apply Forall2_app_inv_r in Ht as (x & y & Hx & Hy & ->).
  apply Forall_app in Hok as [_ Hok]. exists (pre ++ x), y. ands; [by rewrite Hb, app_assoc|done| |done].
  by rewrite length_app, (Forall2_length Hx).
Qed.

Lemma at_toks_end s ts : at_toks s ts → (s + length (toks_text ts) = es)%nat.
Proof. intros (pre & txt & -> & Ht & -> & _). by rewrite length_app, (Forall2_length Ht). Qed.

Lemma at_spaced s ts i : at_toks s ts → spaced (char_at buf (s + i)) (char_at (toks_text ts) i).
Proof.
  intros (pre & txt & -> & Ht & -> & _). rewrite char_at_app. unfold char_at. apply Forall2_lookup with (i := i) in Ht.
  destruct Ht as [c d Hcd|]; [done|by left].
Qed.

Lemma at_char s ts i : at_toks s ts → char_at (toks_text ts) i ≠ space → char_at buf (s + i) = char_at (toks_text ts) i.
Proof. intros Ha Hne. by destruct (at_spaced s ts i Ha) as [|[? _]]. Qed.

Lemma at_first s ts : at_toks s ts → char_at buf s = first ts.
Proof.
  intros Ha. rewrite <-(Nat.add_0_r s) at 1. apply at_char; [done|]. pose proof (first_white ts (at_ok_toks _ _ Ha)) as Hf.
  unfold first in Hf. intros E. by rewrite E in Hf.
Qed.

Lemma at_skip s ts : at_toks s ts → skip_white (es - s) buf s = s.
Proof. intros Ha. apply skip_here. rewrite (at_first _ _ Ha). by apply first_white, (at_ok_toks s). Qed.

Lemma peek_toks s ts toks : at_toks s ts → peek buf s toks = Ret (negb (first ts =? 0) && found toks (first ts), s).
Proof.
  intros Ha. pose proof (at_toks_end _ _ Ha). unfold peek. rewrite (at_skip _ _ Ha), at_ok, res_bind_Ret by lia. by rewrite (at_first _ _ Ha).
Qed.

(** Where a token ends, and where the next one begins. *)
Definition tok_end (s : nat) (t : token) : nat := (s + length (tok_text t))%nat.
Definition next_tok (s : nat) (t : token) : nat := (s + length (tok_text t) + 1)%nat.

Lemma at_next s t ts : at_toks s (t :: ts) → at_toks (next_tok s t) ts.
Proof.
  intros Ha. apply (at_toks_app s [t] ts) in Ha. rewrite toks_text_cons, length_app in Ha. unfold next_tok.
  by replace (s + length (tok_text t) + 1)%nat with (s + (length (tok_text t) + length (space :: toks_text [])))%nat by (cbn; lia).
Qed.

Lemma at_space s t ts : at_toks s (t :: ts) → found whitespace (char_at buf (tok_end s t)) = true.
Proof.
  intros Ha. unfold tok_end. pose proof (at_spaced _ _ (length (tok_text t)) Ha) as Hs. rewrite toks_text_cons, char_at_app_0 in Hs.
  by destruct Hs as [->|[_ ?]].
Qed.

Lemma skip_next s t ts : at_toks s (t :: ts) → skip_white (es - tok_end s t) buf (tok_end s t) = next_tok s t.
Proof.
  intros Ha. pose proof (at_toks_end _ _ (at_next _ _ _ Ha)) as He. unfold next_tok in He.
  destruct (es - tok_end s t)%nat as [|k] eqn:Ek; [unfold tok_end in Ek; lia|]. cbn [skip_white]. rewrite (at_space _ _ _ Ha).
  replace k with (es - next_tok s t)%nat by (unfold tok_end, next_tok in *; lia).
  replace (S (tok_end s t)) with (next_tok s t) by (unfold tok_end, next_tok; lia). apply (at_skip _ ts). by apply at_next.
Qed.

Lemma skip_word_here s w ts : at_toks s (Word w :: ts) → skip_word (es - s) buf s = tok_end s (Word w).
Proof.
  intros Ha. pose proof (at_toks_end _ _ Ha) as He. rewrite toks_text_cons, length_app in He. cbn [length tok_text] in He.
  pose proof (at_ok_toks _ _ Ha) as [[_ Hw] _]%list.Forall_cons. destruct (skip_word_spec buf (es - s) s) as (H1 & H2 & H3).
  set (e := skip_word (es - s) buf s) in *. unfold tok_end. cbn [tok_text].
  assert (Hin : ∀ i, (i < length w)%nat → word_char (char_at buf (s + i))).
  { intros i Hi. destruct (lookup_lt_is_Some_2 w i Hi) as [x Hx]. pose proof (Forall_lookup_1 _ _ _ _ Hw Hx) as Hwx. cbn in Hwx.
    assert (Ex : char_at (toks_text (Word w :: ts)) i = x) by (rewrite toks_text_cons; unfold char_at; cbn [tok_text]; by rewrite lookup_app_l, Hx).
    rewrite (at_char _ _ _ Ha); rewrite Ex; [done|]. intros ->. by destruct Hwx as (_ & ? & _). }
  destruct (decide (e < s + length w)%nat) as [Hlt|Hge].
  - destruct (Hin (e - s)%nat) as (_ & E1 & E2); [lia|]. replace (s + (e - s))%nat with e in E1, E2 by lia. destruct H3 as [H3|H3]; [lia|congruence..].
  - destruct (decide (s + length w < e)%nat) as [Hlt|]; [|lia]. destruct (H2 (s + length w)%nat) as [E1 _]; [lia|].
    pose proof (at_space _ _ _ Ha) as E2. unfold tok_end in E2. cbn [tok_text] in E2. congruence.
Qed.

Lemma gettoken_toks s t ts : at_toks s (t :: ts) → gettoken buf s = Ret (tok_code t, s, tok_end s t, next_tok s t).
Proof.
  intros Ha. pose proof (at_toks_end _ _ (at_next _ _ _ Ha)) as He. unfold next_tok in He. unfold gettoken. cbv zeta.
  rewrite (at_skip _ _ Ha), (at_ok buf s), res_bind_Ret, (at_first _ _ Ha) by lia.
  pose proof (at_ok_toks _ _ Ha) as [Hok _]%list.Forall_cons. destruct (first_char t ts Hok) as (Ef & _ & Hnz).
  assert (Hone : ∀ c, tok_text t = [c] → S s = tok_end s t) by (intros c E; unfold tok_end; rewrite E; cbn; lia).
  destruct t as [w| | | | | | | |].
  1: { destruct Hok as [Hne Hw]. destruct w as [|c w]; [done|]. rewrite Ef. change (char_at (tok_text (Word (c :: w))) 0) with c.
    pose proof (proj1 (proj1 (list.Forall_cons _ _ _) Hw)) as (Hc & Hc1 & Hc2). rewrite symbols_found in Hc2. apply orb_false_iff in Hc2 as [Hc2 ->].
    rewrite Hc2. apply Z.eqb_neq in Hc as ->. rewrite res_bind_Ret, (skip_word_here _ _ _ Ha), (skip_next _ _ _ Ha). done. }
  3: { rewrite Ef. cbn. rewrite (at_ok buf (S s)) by (cbn in He; lia). cbn. pose proof (at_char _ _ 1 Ha ltac:(done)) as E1. rewrite Nat.add_1_r in E1. rewrite E1.
    cbn. rewrite <-(skip_next _ _ _ Ha). unfold tok_end. cbn. by rewrite !Nat.add_succ_r, Nat.add_0_r. }
  2: { rewrite Ef. cbn. rewrite (at_ok buf (S s)) by (cbn in He; lia). cbn. pose proof (at_space _ _ _ Ha) as E1.
    unfold tok_end in E1. cbn in E1. rewrite Nat.add_1_r in E1. destruct (Z.eqb_spec (char_at buf (S s)) (zchar ">")) as [E2|_]; [by rewrite E2 in E1|].
    cbn. rewrite <-(skip_next _ _ _ Ha). unfold tok_end. cbn. by rewrite !Nat.add_succ_r, Nat.add_0_r. }
  all: rewrite Ef, (Hone _ eq_refl), <-(skip_next _ _ _ Ha); reflexivity.
Qed.

Lemma gettoken_end s : at_toks s [] → gettoken buf s = Ret (0, s, s, s).
Proof.
  intros Ha. pose proof (at_toks_end _ _ Ha) as He. cbn in He. unfold gettoken. cbv zeta.
  rewrite (at_skip _ _ Ha), (at_ok buf s), res_bind_Ret, (at_first _ _ Ha) by lia. cbn. by rewrite (at_skip _ _ Ha).
Qed.

(** ** Parts of commands *)

(** The next token is one of [l], or there is none. *)
Definition follow (l : list token) (ts : list token) : Prop :=
  match ts with
  | [] => True
  | t :: _ => t ∈ l
  end.

Definition line_ends : list token := [Close].
Definition pipe_ends : list token := [Close; Amp; Semi].
Definition exec_ends : list token := [Close; Amp; Semi; Bar].
Definition redir_ends : list token := [Close; Amp; Semi; Bar; Lt; Gt; GtGt].

Definition sees (ts : list token) (toks : list Z) : bool := negb (first ts =? 0) && found toks (first ts).

Lemma peek_sees s ts toks b : at_toks s ts → sees ts toks = b → peek buf s toks = Ret (b, s).
Proof. intros Ha <-. by apply peek_toks. Qed.

Lemma sees_word w ts toks : tok_ok (Word w) → (∀ c, c ∈ toks → c ∈ symbols) → Forall (λ c, c ≠ 0) toks → sees (Word w :: ts) toks = false.
Proof.
  intros [Hne Hw] Hin Hnz. unfold sees. destruct w as [|c w]; [done|]. change (first (Word (c :: w) :: ts)) with c.
  apply list.Forall_cons in Hw as [(Hc & _ & Hs) _]. apply andb_false_iff. right. apply not_true_is_false. intros Hf%found_true; [|done].
  apply Hin in Hf. assert (found symbols c = true) by (apply found_true; [unfold symbols; cbn; by repeat constructor|done]). congruence.
Qed.

(** What the next token is not. *)
Lemma sees_follow l ts toks b : sees [] toks = b → (∀ t ts', t ∈ l → sees (t :: ts') toks = b) → follow l ts → sees ts toks = b.
Proof. intros H0 Hl. destruct ts as [|t ts]; [done|]. apply Hl. Qed.

Ltac by_tokens := apply sees_follow; [reflexivity|]; intros t ts' Ht; repeat (apply elem_of_cons in Ht as [->|Ht]; [reflexivity|]); by apply elem_of_nil in Ht.

Lemma redir_sees_exec ts : follow exec_ends ts → sees ts (zstr "<>") = false.
Proof. by_tokens. Qed.
Lemma bar_sees_pipe ts : follow pipe_ends ts → sees ts (zstr "|") = false.
Proof. by_tokens. Qed.
Lemma amp_sees_line ts : follow (Semi :: line_ends) ts → sees ts (zstr "&") = false.
Proof. by_tokens. Qed.
Lemma semi_sees_line ts : follow line_ends ts → sees ts (zstr ";") = false.
Proof. by_tokens. Qed.
Lemma open_sees_redir ts : follow redir_ends ts → sees ts (zstr "(") = false.
Proof. by_tokens. Qed.

Lemma follow_weaken l l' ts : (∀ t, t ∈ l → t ∈ l') → follow l ts → follow l' ts.
Proof. intros H. destruct ts; [done|]. apply H. Qed.

Definition after (s : nat) (ts : list token) : nat := (s + length (toks_text ts))%nat.

Lemma after_app s a b : after s (a ++ b) = after (after s a) b.
Proof. unfold after. rewrite toks_text_app, length_app. lia. Qed.

Lemma after_one s t : after s [t] = next_tok s t.
Proof. unfold after, next_tok. rewrite toks_text_cons, length_app. cbn. lia. Qed.

Lemma at_after s a b : at_toks s (a ++ b) → at_toks (after s a) b.
Proof. apply at_toks_app. Qed.

Lemma at_le s ts : at_toks s ts → (s ≤ es)%nat.
Proof. intros Ha%at_toks_end. lia. Qed.

Abbreviation sem c := (tree_of (text_at buf) c).

Definition reads_exec (X : list token) (t : tree) : Prop := ∀ s ts n, at_toks s (X ++ ts) → follow exec_ends ts → (4 * (es - s) + 2 ≤ n)%nat →
  ∃ c, parseexec parseline n buf s = Ret (c, after s X) ∧ sem c = t.

Definition reads_pipe (X : list token) (t : tree) : Prop := ∀ s ts n, at_toks s (X ++ ts) → follow pipe_ends ts → (4 * (es - s) + 3 ≤ n)%nat →
  ∃ c, parsepipe parseline n buf s = Ret (c, after s X) ∧ sem c = t.

(** A pipeline and the ampersands behind it. *)
Definition reads_backs (X : list token) (t : tree) : Prop := ∀ s ts n, at_toks s (X ++ ts) → follow pipe_ends ts → (4 * (es - s) + 3 ≤ n)%nat →
  ∃ c0 s0 k c, parsepipe parseline n buf s = Ret (c0, s0) ∧ (s ≤ s0)%nat ∧ (s0 + k ≤ after s X)%nat ∧
    (∀ m, backs_loop (k + m) buf c0 s0 = backs_loop m buf c (after s X)) ∧ sem c = t.

Definition reads_line (X : list token) (t : tree) : Prop := ∀ s ts n, at_toks s (X ++ ts) → follow line_ends ts → (4 * (es - s) + 4 ≤ n)%nat →
  ∃ c, parseline n buf s = Ret (c, after s X) ∧ sem c = t.

(** A command to which redirections can be added. *)
Definition reads_redirs (X : list token) (t : tree) : Prop := ∀ s ts n, at_toks s (X ++ ts) → follow redir_ends ts → (4 * (es - s) + 2 ≤ n)%nat →
  ∃ m (k : cmd * nat → res (cmd * nat)) c, (es - after s X < m)%nat ∧ parseexec parseline n buf s = (redirs_loop m buf c (after s X) ≫= k) ∧ sem c = t ∧
    ∀ c' s' ts', at_toks s' ts' → follow exec_ends ts' → k (c', s') = Ret (c', s').

Lemma redirs_exec X t : reads_redirs X t → reads_exec X t.
Proof.
  intros HX s ts n Ha Hf Hn. pose proof (at_after s X ts Ha) as Ha'.
  destruct (HX s ts n Ha) as (m & k & c & Hm & -> & Hc & Hk); [|done|].
  { eapply follow_weaken; [|exact Hf]. unfold exec_ends, redir_ends. set_solver. }
  destruct m as [|m]; [lia|]. cbn [redirs_loop]. rewrite (peek_sees _ ts _ false Ha') by (by apply redir_sees_exec). rewrite !res_bind_Ret.
  exists c. split; [by eapply Hk|done].
Qed.

Lemma exec_pipe X t : reads_exec X t → reads_pipe X t.
Proof.
  intros HX s ts n Ha Hf Hn. pose proof (at_after s X ts Ha) as Ha'. destruct n as [|n]; [lia|]. cbn [parsepipe].
  destruct (HX s ts n Ha) as (c & -> & Hc); [|lia|].
  { eapply follow_weaken; [|exact Hf]. unfold exec_ends, pipe_ends. set_solver. }
  rewrite res_bind_Ret, (peek_sees _ ts _ false Ha') by (by apply bar_sees_pipe). rewrite res_bind_Ret. by exists c.
Qed.

Lemma pipe_backs X t : reads_pipe X t → reads_backs X t.
Proof.
  intros HX s ts n Ha Hf Hn. destruct (HX s ts n Ha Hf Hn) as (c & E & Hc). exists c, (after s X), 0%nat, c. unfold after. ands; [done|lia|lia|done|done].
Qed.

(** The part of a line before a semicolon or its end. *)
Lemma backs_done X t s ts n : reads_backs X t → at_toks s (X ++ ts) → follow (Semi :: line_ends) ts → (4 * (es - s) + 3 ≤ n)%nat →
  ∃ c, ('(c, s) ← parsepipe parseline n buf s; backs_loop (rounds buf s) buf c s) = Ret (c, after s X) ∧ sem c = t.
Proof.
  intros HX Ha Hf Hn. pose proof (at_after s X ts Ha) as Ha'. pose proof (at_le _ _ Ha').
  destruct (HX s ts n Ha) as (c0 & s0 & k & c & -> & Hs0 & Hk & Hb & Hc); [|done|].
  { eapply follow_weaken; [|exact Hf]. unfold line_ends, pipe_ends. set_solver. }
  rewrite res_bind_Ret. unfold rounds. replace (S (es - s0)) with (k + S (es - s0 - k))%nat by lia. rewrite Hb. cbn [backs_loop].
  rewrite (peek_sees _ ts _ false Ha') by (by apply amp_sees_line). rewrite res_bind_Ret. by exists c.
Qed.

Lemma backs_line X t : reads_backs X t → reads_line X t.
Proof.
  intros HX s ts n Ha Hf Hn. pose proof (at_after s X ts Ha) as Ha'. destruct n as [|n]; [lia|]. cbn [parseline].
  destruct (backs_done X t s ts n HX Ha) as (c & E & Hc); [|lia|].
  { eapply follow_weaken; [|exact Hf]. unfold line_ends. set_solver. }
  apply res_bind_inv in E as ([c0 s0] & -> & E). rewrite res_bind_Ret, E, res_bind_Ret.
  rewrite (peek_sees _ ts _ false Ha') by (by apply semi_sees_line). rewrite res_bind_Ret. by exists c.
Qed.

Lemma next_bounds s t ts : at_toks s (t :: ts) → (s < next_tok s t ≤ es)%nat.
Proof. intros Ha. pose proof (at_le _ _ (at_next _ _ _ Ha)). unfold next_tok in *. lia. Qed.

Lemma pipe_cons X Y l r : reads_exec X l → reads_pipe Y r → reads_pipe (X ++ [Bar] ++ Y) (TPipe l r).
Proof.
  intros HX HY s ts n Ha Hf Hn. rewrite <-app_assoc in Ha. cbn [app] in Ha. pose proof (at_after s X _ Ha) as Ha1. pose proof (next_bounds _ _ _ Ha1).
  destruct n as [|n]; [lia|]. cbn [parsepipe]. destruct (HX s _ n Ha) as (c & -> & Hc); [unfold exec_ends; cbn; set_solver|lia|].
  rewrite res_bind_Ret, (peek_sees _ _ _ true Ha1), res_bind_Ret by done. rewrite (gettoken_toks _ _ _ Ha1), res_bind_Ret.
  assert (s ≤ after s X)%nat by (unfold after; lia).
  destruct (HY (next_tok (after s X) Bar) ts n (at_next _ _ _ Ha1) Hf) as (d & -> & Hd); [lia|]. rewrite res_bind_Ret.
  exists (PIPE c d). rewrite !after_app, after_one. split; [done|]. cbn. by rewrite Hc, Hd.
Qed.

Lemma backs_amp X t : reads_backs X t → reads_backs (X ++ [Amp]) (TBack t).
Proof.
  intros HX s ts n Ha Hf Hn. rewrite <-app_assoc in Ha. cbn [app] in Ha. pose proof (at_after s X _ Ha) as Ha1. pose proof (next_bounds _ _ _ Ha1).
  destruct (HX s _ n Ha) as (c0 & s0 & k & c & E & Hs0 & Hk & Hb & Hc); [unfold pipe_ends; cbn; set_solver|done|].
  exists c0, s0, (k + 1)%nat, (BACK c). rewrite after_app, after_one. ands; [done|done|lia| |by cbn; rewrite Hc].
  intros m. rewrite <-Nat.add_assoc, Hb. cbn [Nat.add backs_loop].
  rewrite (peek_sees _ _ _ true Ha1), res_bind_Ret by done. by rewrite (gettoken_toks _ _ _ Ha1), res_bind_Ret.
Qed.

Lemma list_cons X Y l r : reads_backs X l → reads_line Y r → reads_line (X ++ [Semi] ++ Y) (TList l r).
Proof.
  intros HX HY s ts n Ha Hf Hn. rewrite <-app_assoc in Ha. cbn [app] in Ha. pose proof (at_after s X _ Ha) as Ha1. pose proof (next_bounds _ _ _ Ha1).
  destruct n as [|n]; [lia|]. cbn [parseline]. destruct (backs_done X l s _ n HX Ha) as (c & E & Hc); [cbn; set_solver|lia|].
  apply res_bind_inv in E as ([c0 s0] & -> & E). rewrite res_bind_Ret, E, res_bind_Ret.
  rewrite (peek_sees _ _ _ true Ha1), res_bind_Ret by done. rewrite (gettoken_toks _ _ _ Ha1), res_bind_Ret.
  assert (s ≤ after s X)%nat by (unfold after; lia).
  destruct (HY (next_tok (after s X) Semi) ts n (at_next _ _ _ Ha1) Hf) as (d & -> & Hd); [lia|]. rewrite res_bind_Ret.
  exists (LIST c d). rewrite !after_app, after_one. split; [done|]. cbn. by rewrite Hc, Hd.
Qed.

Lemma parens_redirs X t : reads_line X t → reads_redirs ([Open] ++ X ++ [Close]) t.
Proof.
  intros HX s ts n Ha Hf Hn. rewrite <-!app_assoc in Ha. cbn [app] in Ha. pose proof (at_next _ _ _ Ha) as Ha1. pose proof (next_bounds _ _ _ Ha).
  pose proof (at_after _ X _ Ha1) as Ha2. pose proof (next_bounds _ _ _ Ha2).
  do 2 (destruct n as [|n]; [lia|]). cbn [parseexec parseblock]. rewrite (peek_sees _ _ _ true Ha), res_bind_Ret by done. cbv beta iota.
  rewrite (peek_sees _ _ _ true Ha), res_bind_Ret by done. cbn [negb]. rewrite (gettoken_toks _ _ _ Ha), res_bind_Ret. cbv beta iota.
  destruct (HX _ _ n Ha1) as (c & -> & Hc); [unfold line_ends; cbn; set_solver|lia|]. rewrite res_bind_Ret. cbv beta iota.
  rewrite (peek_sees _ _ _ true Ha2), res_bind_Ret by done. cbn [negb]. rewrite (gettoken_toks _ _ _ Ha2), res_bind_Ret. cbv beta iota.
  rewrite !after_app, !after_one. exists (rounds buf (next_tok (after (next_tok s Open) X) Close)), Ret, c.
  ands; [unfold rounds; lia| |done|done]. unfold parseredirs. by destruct (redirs_loop _ _ _ _).
Qed.

Lemma text_at_word s w ts : at_toks s (Word w :: ts) → text_at buf (s, tok_end s (Word w)) = w.
Proof.
  intros (pre & txt & -> & Ht & -> & Hok). apply list.Forall_cons in Hok as [[_ Hw] _]. unfold text_at, tok_end. cbn [fst snd tok_text].
  rewrite toks_text_cons in Ht. apply Forall2_app_inv_r in Ht as (x & y & Hx & _ & ->). cbn [tok_text] in Hx.
  assert (x = w) as ->.
  { clear -Hx Hw. induction Hx as [|c d x w Hcd Hx IH]; [done|]. apply list.Forall_cons in Hw as [(_ & Hd & _) Hw]. rewrite (IH Hw).
    destruct Hcd as [->|[-> _]]; [done|]. done. }
  by rewrite drop_app_length, Nat.add_comm, Nat.add_sub, take_app_length.
Qed.

Lemma redir_toks mode ts : sees (redir_tok mode :: ts) (zstr "<>") = true.
Proof. unfold redir_tok. by repeat case_match. Qed.

Lemma add_redir X t mode fd file : reads_redirs X t → tok_ok (Word file) → (mode, fd) = redir_mode (tok_code (redir_tok mode)) →
  reads_redirs (X ++ [redir_tok mode; Word file]) (TRedir t mode fd file).
Proof.
  intros HX Hfile Hmode s ts n Ha Hf Hn. rewrite <-app_assoc in Ha. cbn [app] in Ha. pose proof (at_after s X _ Ha) as Ha1.
  pose proof (at_next _ _ _ Ha1) as Ha2. pose proof (next_bounds _ _ _ Ha1). pose proof (next_bounds _ _ _ Ha2).
  destruct (HX s _ n Ha) as (m & k & c & Hm & -> & Hc & Hk); [unfold redir_ends, redir_tok; cbn; repeat case_match; set_solver|done|].
  destruct m as [|m]; [lia|]. cbn [redirs_loop]. rewrite (peek_sees _ _ _ true Ha1), res_bind_Ret by apply redir_toks.
  rewrite (gettoken_toks _ _ _ Ha1), res_bind_Ret, (gettoken_toks _ _ _ Ha2), res_bind_Ret. cbn [tok_code negb]. rewrite Z.eqb_refl. cbn [negb].
  rewrite <-Hmode. cbn [fst snd]. change [redir_tok mode; Word file] with ([redir_tok mode] ++ [Word file]). rewrite !after_app, !after_one.
  eexists m, k, _. ands; [lia|done| |done]. cbn [tree_of]. by rewrite Hc, (text_at_word _ _ _ Ha2).
Qed.

(** ** Words *)

Lemma word_follow w ts toks s : tok_ok (Word w) → bool_decide (Forall (λ c, c ∈ symbols) toks) = true → at_toks s (Word w :: ts) →
  peek buf s toks = Ret (false, s).
Proof.
  intros Hw Hs%bool_decide_eq_true Ha. rewrite list.Forall_forall in Hs. eapply peek_sees; [done|]. apply sees_word; [done|done|].
  apply list.Forall_forall. intros c Hc ->. apply Hs in Hc. by apply (bool_decide_unpack (0 ∉ symbols)) in Hc.
Qed.

Lemma args_words ws : Forall (λ w, tok_ok (Word w)) ws → ws ≠ [] → ∀ l argc s ts n, at_toks s ((Word <$> ws) ++ ts) → follow redir_ends ts →
  (argc + length ws < MAXARGS)%nat → (es - s < n)%nat →
  ∃ n' l', args_loop n buf (EXEC l) argc s =
    ('(ret, s') ← parseredirs buf (EXEC (l ++ l')) (after s (Word <$> ws)); args_loop (S n') buf ret (argc + length ws) s') ∧ text_at buf <$> l' = ws.
Proof.
  induction ws as [|w ws IH]; intros Hws Hne l argc s ts n Ha Hf Hargc Hn; [done|]. apply list.Forall_cons in Hws as [Hw Hws].
  cbn [fmap list_fmap app] in Ha. pose proof (at_next _ _ _ Ha) as Ha1. pose proof (next_bounds _ _ _ Ha). cbn [length] in Hargc.
  destruct n as [|n]; [lia|]. cbn [args_loop]. rewrite (word_follow w _ (zstr "|)&;") s Hw eq_refl Ha), res_bind_Ret.
  rewrite (gettoken_toks _ _ _ Ha), res_bind_Ret. cbn [tok_code negb]. cbv beta iota. replace (zchar "a" =? 0) with false by done. rewrite Z.eqb_refl. cbn [negb].
  destruct (Nat.leb_spec MAXARGS (S argc)); [unfold MAXARGS in *; lia|]. cbn [add_arg].
  destruct ws as [|w2 ws].
  - destruct n as [|n]; [lia|]. exists n, [(s, tok_end s (Word w))]. split.
    + change (Word <$> [w]) with [Word w]. rewrite after_one. cbn [length]. by rewrite Nat.add_1_r.
    + cbn [fmap list_fmap]. by rewrite (text_at_word _ _ _ Ha).
  - unfold parseredirs at 1, rounds. pose proof (proj1 (proj1 (list.Forall_cons _ _ _) Hws)) as Hw2. cbn [redirs_loop fmap list_fmap app] in *.
    rewrite (word_follow w2 _ (zstr "<>") _ Hw2 eq_refl Ha1), !res_bind_Ret.
    destruct (IH Hws ltac:(done) (l ++ [(s, tok_end s (Word w))]) (S argc) (next_tok s (Word w)) ts n Ha1 Hf) as (n' & l' & E & Hl'); [cbn [length] in *; lia|lia|].
    exists n', ((s, tok_end s (Word w)) :: l'). rewrite <-app_assoc in E. cbn [app] in E. rewrite E.
    change (Word w :: Word w2 :: (Word <$> ws)) with ([Word w] ++ (Word <$> w2 :: ws)). rewrite after_app, after_one. cbn [length]. rewrite !Nat.add_succ_r in *.
    split; [done|]. rewrite fmap_cons, Hl', (text_at_word _ _ _ Ha). done.
Qed.

Lemma args_end n ret argc s ts : at_toks s ts → follow exec_ends ts → args_loop (S n) buf ret argc s = Ret (ret, s).
Proof.
  intros Ha Hf. cbn [args_loop]. destruct ts as [|t ts].
  - rewrite (peek_sees _ _ _ false Ha), res_bind_Ret by done. by rewrite (gettoken_end _ Ha), res_bind_Ret.
  - rewrite (peek_sees _ _ _ true Ha), res_bind_Ret; [done|]. cbn in Hf. unfold exec_ends in Hf. repeat (apply elem_of_cons in Hf as [->|Hf]; [reflexivity|]). by apply elem_of_nil in Hf.
Qed.

Lemma words_redirs args : tree_ok (TExec args) → reads_redirs (Word <$> args) (TExec args).
Proof.
  intros [Hok Hlen] s ts n Ha Hf Hn. destruct n as [|n]; [lia|]. cbn [parseexec]. destruct args as [|w args].
  - cbn [fmap list_fmap app] in *. rewrite (peek_sees _ ts _ false Ha), res_bind_Ret by (by apply open_sees_redir).
    replace (after s []) with s by (unfold after; cbn; lia).
    eexists _, (λ '(ret, s), args_loop (rounds buf s) buf ret 0 s), (EXEC []). ands; [|reflexivity|done|]; [unfold rounds; lia|].
    intros c' s' ts' Ha' Hf'. by eapply args_end.
  - pose proof (proj1 (proj1 (list.Forall_cons _ _ _) Hok)) as Hw. pose proof Ha as Ha0. cbn [fmap list_fmap app] in Ha.
    rewrite (word_follow w _ (zstr "(") s Hw eq_refl Ha), res_bind_Ret.
    unfold parseredirs. change (rounds buf s) with (S (es - s)). cbn [redirs_loop]. rewrite (word_follow w _ (zstr "<>") s Hw eq_refl Ha), !res_bind_Ret.
    destruct (args_words (w :: args) Hok ltac:(done) [] 0 s ts (rounds buf s) Ha0 Hf Hlen) as (n' & l' & E & Hl'); [unfold rounds; lia|].
    rewrite E. eexists _, (λ '(ret, s'), args_loop (S n') buf ret (0 + length (w :: args)) s'), (EXEC l'). ands; [|reflexivity|by cbn; rewrite Hl'|].
    + unfold rounds. lia.
    + intros c' s' ts' Ha' Hf'. by eapply args_end.
Qed.

(** ** Whole commands *)

Definition reads (t : tree) : Prop :=
  reads_redirs (print 3 t) t ∧ reads_pipe (print 2 t) t ∧ reads_backs (print 1 t) t ∧ reads_line (print 0 t) t.

Lemma redirs_reads t : reads_redirs (print 3 t) t → print 2 t = print 3 t → print 1 t = print 3 t → print 0 t = print 3 t → reads t.
Proof.
  intros H3 E2 E1 E0. unfold reads. rewrite E2, E1, E0. assert (reads_pipe (print 3 t) t) by (by apply exec_pipe, redirs_exec).
  ands; [done|done|by apply pipe_backs|by apply backs_line, pipe_backs].
Qed.

Lemma print_reads t : tree_ok t → reads t.
Proof.
  induction t as [args|t IH mode fd file|l IHl r IHr|l IHl r IHr|t IH]; intros Hok; cbn in Hok.
  - apply redirs_reads; [by apply words_redirs|done..].
  - destruct Hok as (Ht & Hf & Hm). apply redirs_reads; [|done..]. apply add_redir; [by apply IH|done|done].
  - destruct Hok as [Hl Hr]. destruct (IHl Hl) as (L3 & _), (IHr Hr) as (_ & R2 & _).
    assert (H2 : reads_pipe (print 2 (TPipe l r)) (TPipe l r)) by (apply pipe_cons; [by apply redirs_exec|done]).
    assert (H0 : reads_line (print 2 (TPipe l r)) (TPipe l r)) by (by apply backs_line, pipe_backs).
    split; [by apply parens_redirs|]. ands; [done|by apply pipe_backs|done].
  - destruct Hok as [Hl Hr]. destruct (IHl Hl) as (_ & _ & L1 & _), (IHr Hr) as (_ & _ & _ & R0).
    assert (H0 : reads_line (print 0 (TList l r)) (TList l r)) by (by apply list_cons).
    assert (H3 : reads_redirs (print 3 (TList l r)) (TList l r)) by (by apply parens_redirs).
    assert (H2 : reads_pipe (print 3 (TList l r)) (TList l r)) by (by apply exec_pipe, redirs_exec).
    unfold reads. ands; [done|done|by apply pipe_backs|done].
  - destruct (IH Hok) as (_ & _ & H1 & _).
    assert (H1' : reads_backs (print 1 (TBack t)) (TBack t)) by (by apply backs_amp).
    assert (H3 : reads_redirs (print 3 (TBack t)) (TBack t)) by (by apply parens_redirs, backs_line).
    unfold reads. ands; [done|by apply exec_pipe, redirs_exec|done|by apply backs_line].
Qed.
End reader.

Lemma tree_of_ext f g c : (∀ w, w ∈ ranges c → f w = g w) → tree_of f c = tree_of g c.
Proof.
  induction c as [l|c IH q e mode fd|l IHl r IHr|l IHl r IHr|c IH]; cbn; intros Hfg.
  - f_equal. apply list_fmap_ext. intros i w Hw. by apply Hfg, (list_elem_of_lookup_2 l i).
  - rewrite IH, Hfg by set_solver. done.
  - by rewrite IHl, IHr by set_solver.
  - by rewrite IHl, IHr by set_solver.
  - by rewrite IH.
Qed.

Lemma spaced_nz txt l : Forall2 spaced txt l → Forall (λ c, c ≠ 0) l → Forall (λ c, c ≠ 0) txt.
Proof.
  induction 1 as [|c d txt l Hcd Ht IH]; [done|]. intros [Hd Hl]%list.Forall_cons. constructor; [|by apply IH].
  destruct Hcd as [->|[_ Hc]]; [done|]. intros ->. by rewrite found_0 in Hc.
Qed.

(** The parser reads back what [print] has printed, with any blanks between
    the tokens, and the strings that it leaves in the buffer are the words. *)
Lemma parse_print t buf : tree_ok t → Forall2 spaced buf (toks_text (print 0 t)) →
  ∃ c arr, parsecmd buf = Ret (c, arr) ∧ tree_of (λ w, string_at arr w.1) c = t.
Proof.
  intros Hok Hbuf. pose proof (print_ok t 0 Hok) as Htoks. pose proof (spaced_nz _ _ Hbuf (toks_text_nz _ Htoks)) as Hnz.
  assert (Ha : at_toks buf 0 (print 0 t ++ [])) by (exists [], buf; rewrite app_nil_r; done).
  destruct (print_reads buf t Hok) as (_ & _ & _ & Hline). destruct (Hline 0%nat [] (parse_fuel buf) Ha I) as (c & E & Hc); [unfold parse_fuel; lia|].
  pose proof (parsecmd_total buf Hnz) as Hgood. pose proof (at_after buf 0 _ _ Ha) as Hend.
  assert (Hp : parsecmd buf = (arr ← nulterminate c (buf ++ [0]); Ret (c, arr))).
  { unfold parsecmd. rewrite E, res_bind_Ret, (peek_sees _ _ _ _ false Hend), res_bind_Ret by done.
    unfold after. rewrite (Forall2_length Hbuf). by rewrite Nat.eqb_refl. }
  destruct (nulterminate_spec buf Hnz c (buf ++ [0])) as (arr & Hn & _).
  { pose proof (proj1 (parse_total buf Hnz (length buf) 0 (parse_fuel buf) ltac:(lia) ltac:(lia)) ltac:(unfold parse_fuel; lia)) as Hg.
    rewrite E in Hg. destruct Hg as [_ Hr]. eapply Forall_impl; [|exact Hr]. intros w (H1 & _). rewrite length_app. cbn. lia. }
  rewrite Hn, res_bind_Ret in Hp. rewrite Hp in Hgood. destruct Hgood as (_ & _ & Hs). exists c, arr. split; [done|].
  rewrite <-Hc. apply tree_of_ext. intros w Hw. by apply Hs.
Qed.
