(* ===== verification/ShellRun.v ===== *)
(** * The shell: the programs that a command starts

    [started] runs the system calls of a process and of its children on
    tables of open files, where every call succeeds, and collects the
    programs that are executed with their open files. *)

From S2P Require Import Prelude FsState SysFile Printf UserIO UserLib UtilsSpec Shell ShellSpec ShellPrint.
Import Sh.

(** ** Open files *)

Inductive obj := Given (n : nat) | File (path : list Z) (mode : Z) | PipeRead (id : nat) | PipeWrite (id : nat).

Definition fdtable := list (option obj).

Fixpoint lowest_from (i : nat) (t : fdtable) : option nat :=
  match t with
  | [] => None
  | None :: _ => Some i
  | Some _ :: t => lowest_from (S i) t
  end.

Definition lowest (t : fdtable) : option nat := lowest_from 0 t.
Definition close (fd : Z) (t : fdtable) : fdtable := <[Z.to_nat fd := None]> t.
Definition install (o : obj) (t : fdtable) : option (Z * fdtable) :=
  match lowest t with
  | Some fd => Some (Z.of_nat fd, <[fd := Some o]> t)
  | None => None
  end.

(** A program with its arguments and its open files. *)
Record program := mk_program { pg_argv : list (list Z); pg_files : fdtable }.

(** [next] is the number of the next pipe. *)
Fixpoint started (p : prog) (t : fdtable) (next : nat) : list program * nat :=
  match p with
  | Exit _ => ([], next)
  | Exec _ argv _ => ([mk_program argv t], next)
  | Open path mode k =>
    match install (File path mode) t with
    | Some (fd, t) => started (k fd) t next
    | None => started (k (-1)) t next
    end
  | Close fd k => started k (close fd t) next
  | Dup fd k =>
    match t !! Z.to_nat fd with
    | Some (Some o) => started k (default t (snd <$> install o t)) next
    | _ => started k t next
    end
  | Pipe k =>
    match install (PipeRead next) t with
    | Some (p0, t0) =>
      match install (PipeWrite next) t0 with
      | Some (p1, t1) => started (k (Some (p0, p1))) t1 (S next)
      | None => started (k None) t next
      end
    | None => started (k None) t next
    end
  | Fork child parent =>
    let '(l1, next) := started child t next in
    let '(l2, next) := started (parent 1) t next in
    (l1 ++ l2, next)
  | Wait k | Write _ _ k => started k t next
  | Chdir _ k => started (k 0) t next
  end.

(** ** What a command asks for *)

(** Three open files and room for more. *)
Definition standard (i o e : obj) : fdtable := Some i :: Some o :: Some e :: replicate 13 None.

(** The programs of a command, whose input, output and error output are
    [i], [o] and [e]: a redirection replaces one of them, a pipeline connects
    its two sides. *)
Fixpoint stages (t : tree) (i o e : obj) (next : nat) : list program * nat :=
  match t with
  | TExec [] => ([], next)
  | TExec args => ([mk_program args (standard i o e)], next)
  | TRedir t mode fd file => if fd =? 0 then stages t (File file mode) o e next else stages t i (File file mode) e next
  | TPipe l r =>
    let '(l1, n) := stages l i (PipeWrite next) e (S next) in
    let '(l2, n) := stages r (PipeRead next) o e n in
    (l1 ++ l2, n)
  | TList l r =>
    let '(l1, n) := stages l i o e next in
    let '(l2, n) := stages r i o e n in
    (l1 ++ l2, n)
  | TBack t => stages t i o e next
  end.

Lemma redir_fd mode fd : (mode, fd) = redir_mode (tok_code (redir_tok mode)) → fd = 0 ∨ fd = 1.
Proof. unfold redir_tok. repeat case_match; cbn; intros [= ? ->]; auto. Qed.

Lemma runcmd_starts arr c : tree_ok (tree_of (λ w, cstring arr w.1) c) → ∀ i o e next,
  started (runcmd arr c) (standard i o e) next = stages (tree_of (λ w, cstring arr w.1) c) i o e next.
Proof.
  induction c as [argv|c IH file efile mode fd|l IHl r IHr|l IHl r IHr|c IH]; intros Hok i o e next; cbn [tree_of tree_ok] in Hok; cbn [runcmd tree_of stages].
  - destruct argv as [|[q e'] argv]; [done|]. done.
  - destruct Hok as (Ht & _ & Hfd). apply redir_fd in Hfd as [-> | ->].
    + cbn [started]. change (close 0 (standard i o e)) with (None :: Some o :: Some e :: replicate 13 (@None obj)). cbn [install lowest lowest_from].
      change (started (runcmd arr c) (standard (File (cstring arr file) mode) o e) next = stages (tree_of (λ w, cstring arr w.1) c) (File (cstring arr file) mode) o e next).
      by apply IH.
    + change (started (runcmd arr c) (standard i (File (cstring arr file) mode) e) next = stages (tree_of (λ w, cstring arr w.1) c) i (File (cstring arr file) mode) e next).
      by apply IH.
  - destruct Hok as [Hl Hr].
    change ((let '(l1, n) := started (runcmd arr l) (standard i (PipeWrite next) e) (S next) in
             let '(l2, n) := (let '(l1, n) := started (runcmd arr r) (standard (PipeRead next) o e) n in
                              let '(l2, n) := ([], n) in (l1 ++ l2, n)) in (l1 ++ l2, n)) =
            (let '(l1, n) := stages (tree_of (λ w, cstring arr w.1) l) i (PipeWrite next) e (S next) in
             let '(l2, n) := stages (tree_of (λ w, cstring arr w.1) r) (PipeRead next) o e n in (l1 ++ l2, n))).
    rewrite (IHl Hl). destruct (stages _ i _ _ _) as [l1 n1]. rewrite (IHr Hr). destruct (stages _ _ o _ _) as [l2 n2]. by rewrite app_nil_r.
  - destruct Hok as [Hl Hr]. cbn [started fork1]. rewrite (IHl Hl). destruct (stages _ i o e next) as [l1 n1]. cbn [started Z.eqb].
    change (1 =? -1) with false. cbv iota. cbn [started]. by rewrite (IHr Hr).
  - cbn [started fork1]. rewrite (IH Hok). destruct (stages _ i o e next) as [l1 n1]. cbn. by rewrite app_nil_r.
Qed.

(** ** Lines *)

(** A line with the tokens of [t], that is not a call of [cd]. *)
Definition line_of (line : list Z) (t : tree) : Prop :=
  tree_ok t ∧ Forall2 spaced line (toks_text (print 0 t)) ∧ take 3 line ≠ zstr "cd ".

Lemma take_3 line a b c : char_at line 0 = a → char_at line 1 = b → char_at line 2 = c → c ≠ 0 → b ≠ 0 → a ≠ 0 → take 3 line = [a; b; c].
Proof. destruct line as [|x [|y [|z line]]]; cbn; intros <- <- <-; done. Qed.

Lemma line_starts line t k i o e next : line_of line t →
  started (run_line line k) (standard i o e) next =
  (let '(l1, n) := stages t i o e next in let '(l2, n) := started k (standard i o e) n in (l1 ++ l2, n)).
Proof.
  intros (Hok & Hsp & Hcd). pose proof (print_ok t 0 Hok) as Htoks.
  assert (Ha : at_toks line 0 (print 0 t)) by (by exists [], line). pose proof (at_first _ _ _ Ha) as Ef. pose proof (first_white _ Htoks) as Hw. rewrite <-Ef in Hw.
  assert (Hne : ∀ c, c ∈ whitespace → char_at line 0 ≠ c).
  { intros c Hc <-. apply (found_true whitespace) in Hc; [congruence|]. unfold whitespace. by repeat constructor. }
  assert (Hskip : skip_blanks line = line).
  { destruct line as [|c line]; [done|]. cbn. pose proof (Hne space ltac:(apply list_elem_of_here)) as H1%Z.eqb_neq.
    pose proof (Hne tab ltac:(apply list_elem_of_further, list_elem_of_here)) as H2%Z.eqb_neq. cbn in H1, H2. by rewrite H1, H2. }
  unfold run_line. rewrite Hskip. pose proof (Hne nl ltac:(unfold whitespace; set_solver)) as ->%Z.eqb_neq.
  destruct (_ && _ && _) eqn:Ecd.
  { exfalso. apply andb_true_iff in Ecd as [[E0%Z.eqb_eq E1%Z.eqb_eq]%andb_true_iff E2%Z.eqb_eq]. apply Hcd. by apply take_3. }
  destruct (parse_print t line Hok Hsp) as (c & arr & Hp & Ht). unfold run_child. rewrite Hp. change (λ w : nat * nat, string_at arr w.1) with (λ w : nat * nat, cstring arr w.1) in Ht.
  cbn [started fork1]. rewrite runcmd_starts by (by rewrite Ht). by rewrite Ht.
Qed.

(** The programs of several commands, one after the other. *)
Fixpoint session (ts : list tree) (i o e : obj) (next : nat) : list program * nat :=
  match ts with
  | [] => ([], next)
  | t :: ts =>
    let '(l1, n) := stages t i o e next in
    let '(l2, n) := session ts i o e n in
    (l1 ++ l2, n)
  end.

Lemma main_starts lines ts i o e next : Forall2 line_of lines ts → started (main lines) (standard i o e) next = session ts i o e next.
Proof.
  intros Hl. unfold main. change (started (foldr (λ buf k, Write 2 (zstr "$ ") (run_line buf k)) (Write 2 (zstr "$ ") (Exit 0)) lines) (standard i o e) next =
    session ts i o e next).
  revert next. induction Hl as [|line t lines ts Hline Hl IH]; intros next; [done|]. cbn [foldr session started]. rewrite (line_starts line t) by done.
  destruct (stages t i o e next) as [l1 n1]. by rewrite IH.
Qed.
