(* ===== verification/Tools.v ===== *)
(** * Small programs: user/ls.c, user/kill.c, user/ln.c, user/mkdir.c,
    user/rm.c and user/init.c *)

From S2P Require Import Prelude FsState Fs SysFile Printf UserIO UserLib Utils.

(** The calls of these programs.  [exec] returns only when it fails; when it
    succeeds the program is over, and its status is that of the new one. *)
Class ToolIO (S : Type) := {
  u_kill : Z → M S Z;
  u_link : list Z → list Z → M S Z;
  u_mkdir : list Z → M S Z;
  u_unlink : list Z → M S Z;
  u_mknod : list Z → Z → Z → M S Z;
  u_dup : Z → M S Z;
  u_fork : M S Z;
  u_exec : list Z → list (list Z) → U S Z;
  u_wait : M S Z;
}.

(** ** user/ls.c *)

Definition slash : Z := zchar "/".

(** The loop of [fmtname], with [p = path + i - 1]; the result is the index
    of [p + 1] at its end. *)
Fixpoint after_slash (i : nat) (path : list Z) : nat :=
  match i with
  | O => O
  | S k => if negb (char_at path k =? slash) then after_slash k path else i
  end.

(** Every element of the static array is written before it is read. *)
Definition fmtname (path : list Z) : res (list Z) :=
  let p := drop (after_slash (S (Z.to_nat (Ulib.strlen path))) path) path in
  let n := Z.to_nat (Ulib.strlen p) in
  if DIRSIZ <=? Ulib.strlen p then Ret p
  else
    let buf := fill (replicate 15 0) 0 (take n p) in
    buf ← Ulib.memset buf n space (14 - n);
    buf ← aset buf 14 0;
    Ret (upto_nul buf).

(** [st.ino], [st.type] and [st.size] in the bytes of a [struct stat]. *)
Fixpoint le_at (n : nat) (off : nat) (st : list Z) : Z :=
  match n with
  | O => 0
  | S n => char_at st off + 256 * le_at n (S off) st
  end.
Definition st_ino (st : list Z) : Z := le_at 4 4 st.
Definition st_type (st : list Z) : Z := s16 (le_at 2 8 st).
Definition st_size (st : list Z) : Z := le_at 8 16 st.

Section tools.
Context {S : Type} `{UserIO S} (fuel : nat).

Definition ls_line (path st : list Z) : U S unit :=
  name ← sys (lift (fmtname path));
  Ulib.printf (zstr "%s %d %d %d" ++ [nl]) [AStr (Some name); AInt (st_type st); AInt (st_ino st); AInt (s32 (st_size st))].

(** The entries of the directory [fd]; [p] is where their names go in [buf]. *)
Fixpoint ls_entries (n : nat) (fd : Z) (buf : list Z) (p : nat) : U S unit :=
  match n with
  | O => sys out_of_fuel
  | Datatypes.S n =>
    r ← sys (u_read fd 16);
    match r with
    | Some de =>
      if decide (length de = 16%nat) then
        if de_inum de =? 0 then ls_entries n fd buf p
        else
          let buf := fill buf p (de_name de) in
          buf ← sys (lift (aset buf (p + 14) 0));
          st ← Ulib.stat (upto_nul buf);
          match st with
          | None =>
            Ulib.printf (zstr "ls: cannot stat %s" ++ [nl]) [AStr (Some (upto_nul buf))];;
            ls_entries n fd buf p
          | Some st =>
            ls_line (upto_nul buf) st;;
            ls_entries n fd buf p
          end
      else mret tt
    | None => mret tt
    end
  end.

Definition ls_dir (path : list Z) (fd : Z) : U S unit :=
  if 512 <? Ulib.strlen path + 1 + DIRSIZ + 1 then Ulib.printf (zstr "ls: path too long" ++ [nl]) []
  else
    buf ← sys (lift (Ulib.strcpy (replicate 512 0) 0 path));
    let p := length (upto_nul buf) in
    buf ← sys (lift (aset buf p slash));
    ls_entries fuel fd buf (p + 1).

Definition ls (path : list Z) : U S unit :=
  fd ← sys (u_open path O_RDONLY);
  if fd <? 0 then Ulib.fprintf 2 (zstr "ls: cannot open %s" ++ [nl]) [AStr (Some path)]
  else
    st ← sys (u_fstat fd);
    match st with
    | None =>
      Ulib.fprintf 2 (zstr "ls: cannot stat %s" ++ [nl]) [AStr (Some path)];;
      r ← sys (u_close fd);
      mret tt
    | Some st =>
      (if (st_type st =? T_DEVICE) || (st_type st =? T_FILE) then ls_line path st
       else if st_type st =? T_DIR then ls_dir path fd
       else mret tt);;
      r ← sys (u_close fd);
      mret tt
    end.

Fixpoint ls_all (paths : list (list Z)) : U S unit :=
  match paths with
  | [] => mret tt
  | path :: paths =>
    ls path;;
    ls_all paths
  end.

Definition ls_main (argv : list (list Z)) : U S Z :=
  if decide (length argv < 2)%nat then
    ls (zstr ".");;
    exit 0
  else
    ls_all (drop 1 argv);;
    exit 0.

Context `{ToolIO S}.

(** ** user/kill.c *)

Fixpoint kill_all (args : list (list Z)) : U S unit :=
  match args with
  | [] => mret tt
  | a :: args =>
    r ← sys (u_kill (Ulib.atoi a));
    kill_all args
  end.

Definition kill_main (argv : list (list Z)) : U S Z :=
  if decide (length argv < 2)%nat then
    Ulib.fprintf 2 (zstr "usage: kill pid..." ++ [nl]) [];;
    exit 1
  else
    kill_all (drop 1 argv);;
    exit 0.

(** ** user/ln.c *)

Definition ln_main (argv : list (list Z)) : U S Z :=
  match argv with
  | [_; old; new] =>
    r ← sys (u_link old new);
    (if r <? 0 then Ulib.fprintf 2 (zstr "link %s %s: failed" ++ [nl]) [AStr (Some old); AStr (Some new)] else mret tt);;
    exit 0
  | _ =>
    Ulib.fprintf 2 (zstr "Usage: ln old new" ++ [nl]) [];;
    exit 1
  end.

(** ** user/mkdir.c and user/rm.c *)

(** [call] for each name, until it fails. *)
Fixpoint until_failure (call : list Z → M S Z) (failed : list Z) (names : list (list Z)) : U S unit :=
  match names with
  | [] => mret tt
  | name :: names =>
    r ← sys (call name);
    if r <? 0 then Ulib.fprintf 2 failed [AStr (Some name)]
    else until_failure call failed names
  end.

Definition mkdir_main (argv : list (list Z)) : U S Z :=
  if decide (length argv < 2)%nat then
    Ulib.fprintf 2 (zstr "Usage: mkdir files..." ++ [nl]) [];;
    exit 1
  else
    until_failure u_mkdir (zstr "mkdir: %s failed to create" ++ [nl]) (drop 1 argv);;
    exit 0.

Definition rm_main (argv : list (list Z)) : U S Z :=
  if decide (length argv < 2)%nat then
    Ulib.fprintf 2 (zstr "Usage: rm files..." ++ [nl]) [];;
    exit 1
  else
    until_failure u_unlink (zstr "rm: %s failed to delete" ++ [nl]) (drop 1 argv);;
    exit 0.

(** ** user/init.c *)

Definition CONSOLE : Z := 1.

Definition init_console : U S unit :=
  fd ← sys (u_open (zstr "console") O_RDWR);
  (if fd <? 0 then
     r ← sys (u_mknod (zstr "console") CONSOLE 0);
     fd ← sys (u_open (zstr "console") O_RDWR);
     mret tt
   else mret tt);;
  r ← sys (u_dup 0);
  r ← sys (u_dup 0);
  mret tt.

(** The inner loop, until the shell [pid] exits; it has fuel for the other
    children. *)
Fixpoint init_wait (n : nat) (pid : Z) : U S unit :=
  match n with
  | O => sys out_of_fuel
  | Datatypes.S n =>
    wpid ← sys u_wait;
    if wpid =? pid then mret tt
    else if wpid <? 0 then
      Ulib.printf (zstr "init: wait returned an error" ++ [nl]) [];;
      exit 1
    else init_wait n pid
  end.

(** One round of the endless loop. *)
Definition init_round : U S unit :=
  Ulib.printf (zstr "init: starting sh" ++ [nl]) [];;
  pid ← sys u_fork;
  if pid <? 0 then
    Ulib.printf (zstr "init: fork failed" ++ [nl]) [];;
    exit 1
  else if pid =? 0 then
    r ← u_exec (zstr "sh") [zstr "sh"];
    Ulib.printf (zstr "init: exec sh failed" ++ [nl]) [];;
    exit 1
  else init_wait fuel pid.

(** [main], cut after [rounds] rounds. *)
Fixpoint init_rounds (rounds : nat) : U S unit :=
  match rounds with
  | O => mret tt
  | Datatypes.S rounds =>
    init_round;;
    init_rounds rounds
  end.

Definition init_main (rounds : nat) : U S unit :=
  init_console;;
  init_rounds rounds.
End tools.
