(* ===== verification/UserTheorems.v ===== *)
(** * User programs and the shell: main theorems *)

From S2P Require Import Prelude FsState SysFile Printf UserIO UserLib Utils UtilsSpec Shell ShellSpec ShellPrint ShellRun Tools.

(** ** Names in a listing *)

Lemma strlen_text l : Forall (λ x, x ≠ 0) l → Ulib.strlen l = Z.of_nat (length l).
Proof. induction 1 as [|c l Hc _ IH]; [done|]. cbn [Ulib.strlen length]. rewrite (proj2 (Z.eqb_neq c 0) Hc), IH. lia. Qed.

Lemma memset_spec c n : ∀ a b, (n ≤ length b)%nat → Ulib.memset (a ++ b) (length a) c n = Ret (a ++ replicate n (u8 c) ++ drop n b).
Proof.
  induction n as [|n IH]; intros a b Hn; [done|]. destruct b as [|x b]; [cbn in Hn; lia|]. cbn [Ulib.memset]. rewrite aset_at. cbn [mbind res_mbind res_bind].
  specialize (IH (a ++ [u8 c]) b ltac:(cbn in Hn; lia)). rewrite length_app, <-!app_assoc in IH. cbn [length app] in IH. by rewrite Nat.add_1_r in IH.
Qed.

Lemma after_slash_dir dir name : slash ∉ name → (dir = [] ∨ ∃ d, dir = d ++ [slash]) →
  ∀ j, (j ≤ S (length name))%nat → after_slash (length dir + j) (dir ++ name) = length dir.
Proof.
  intros Hn Hd. induction j as [|j IH]; intros Hj.
  - rewrite Nat.add_0_r. destruct Hd as [->|[d ->]]; [done|]. rewrite length_app, Nat.add_1_r. cbn [after_slash]. unfold char_at.
    rewrite <-app_assoc, lookup_app_r, Nat.sub_diag by done. cbn. done.
  - rewrite Nat.add_succ_r. cbn [after_slash]. unfold char_at. rewrite lookup_app_r by lia. replace (length dir + j - length dir)%nat with j by lia.
    destruct (name !! j) as [x|] eqn:Ex.
    + change (default 0 (Some x)) with x. rewrite (proj2 (Z.eqb_neq x slash)); [apply IH; lia|]. intros ->. apply Hn. by eapply list_elem_of_lookup_2.
    + apply IH. lia.
Qed.

Lemma upto_nul_text l r : Forall (λ x, x ≠ 0) l → upto_nul (l ++ 0 :: r) = l.
Proof. induction 1 as [|c l Hc _ IH]; [done|]. cbn [app upto_nul]. by rewrite (proj2 (Z.eqb_neq c 0) Hc), IH. Qed.

(** [fmtname] delivers the part of the path behind the last slash, filled
    with blanks to the width of a directory entry. *)
Theorem fmtname_pads (dir name : list Z) : Forall (λ x, x ≠ 0) (dir ++ name) → slash ∉ name → (dir = [] ∨ ∃ d, dir = d ++ [slash]) →
  fmtname (dir ++ name) = Ret (name ++ replicate (14 - length name) space).
Proof.
  intros Htext Hn Hd. unfold fmtname. rewrite (strlen_text _ Htext), Nat2Z.id, length_app.
  replace (S (length dir + length name)) with (length dir + S (length name))%nat by lia. rewrite after_slash_dir by done. rewrite drop_app_length.
  apply Forall_app in Htext as [_ Htext]. rewrite (strlen_text _ Htext), Nat2Z.id, firstn_all. change DIRSIZ with 14.
  destruct (Z.leb_spec 14 (Z.of_nat (length name))) as [Hl|Hl].
  { replace (14 - length name)%nat with 0%nat by lia. cbn. by rewrite app_nil_r. }
  set (k := (14 - length name)%nat). assert (Ef : fill (replicate 15 0) 0 name = name ++ replicate (k + 1) 0).
  { unfold fill. rewrite take_0, app_nil_l, drop_replicate. f_equal. unfold k. f_equal. lia. }
  rewrite Ef, memset_spec by (rewrite length_replicate; lia). rewrite drop_replicate. replace (k + 1 - k)%nat with 1%nat by lia.
  cbn [mbind res_mbind res_bind replicate]. change (u8 space) with space. rewrite app_assoc.
  assert (El : length (name ++ replicate k space) = 14%nat) by (rewrite length_app, length_replicate; unfold k; lia). rewrite <-El at 1. rewrite aset_at.
  cbn [mbind res_mbind res_bind]. rewrite upto_nul_text; [done|]. apply Forall_app_2; [done|]. by apply Forall_replicate.
Qed.

Section theorems.
Context {S : Type} `{FileIO S}.

(** The program ends with status 0 and has written [l] to descriptor 1 and
    nothing else. *)
Definition prints {A} (m : U S A) (s : S) (l : list Z) : Prop :=
  uruns m s (λ _ _, False) (λ c s', c = 0 ∧ output 1 l s s').

Lemma prints_exit (m : U S unit) (s : S) (l : list Z) :
  uruns m s (λ _ s', output 1 l s s') (λ c s', c = 0 ∧ output 1 l s s') → prints (A := Z) (m;; exit 0) s l.
Proof. intros Hm. apply uruns_bind. eapply uruns_mono; [exact Hm| |auto]. intros a s' Ho. by apply uruns_exit. Qed.

(** The lines and the rest of a file that grep can read with [fuel]. *)
Definition greppable (fuel : nat) (t : list (list Z) * list Z) : Prop :=
  Forall clean t.1 ∧ clean t.2 ∧ (length (text_of t.1 t.2) < fuel)%nat.

Lemma grep_files_spec fuel pattern names : ∀ ts buf (s : S) E, length buf = 1024%nat →
  Forall2 (λ name t, contents name s = Some (text_of t.1 t.2)) names ts → Forall (greppable fuel) ts →
  uruns (grep_files fuel pattern buf names) s (λ _ s', output 1 (concat (grepped pattern ∘ fst <$> ts)) s s') E.
Proof.
  induction names as [|name names IH]; intros ts buf s E Hbuf Hts Hok; apply Forall2_cons_inv_l in Hts || apply Forall2_nil_inv_l in Hts.
  { subst ts. apply uruns_ret, output_nil. }
  destruct Hts as ([ls rest] & ts' & Hl & Hts & ->). apply list.Forall_cons in Hok as [(C1 & C2 & Hn) Hok]. cbn in Hl, C1, C2, Hn.
  cbn [grep_files]. apply uruns_open. intros fd s1 Ho Hs1. rewrite Hl in Ho. destruct Ho as [Hfd Ho]. destruct (Z.ltb_spec fd 0); [lia|].
  apply uruns_bind. unfold grep. change 0%nat with (length (@nil Z)).
  eapply uruns_mono; [apply (grep_loop_spec pattern fd fuel s1 buf [] ls rest); [done..|split; [done|cbn; lia]|done|done|done|by rewrite Ho]| |]; cbn beta; [|done].
  intros buf' s2 [Hb' H2]. apply uruns_close. intros r s3 H3. eapply uruns_mono; [apply (IH ts' buf' s3)| |]; cbn beta; [done| |done| |done].
  - eapply Forall2_impl; [|exact Hts]. intros nm c Hc. cbn in Hc. rewrite (proj2 H3 nm), (out_files _ _ _ _ H2 nm), (proj2 Hs1 nm). done.
  - intros _ s4 H4. exact (output_app _ [] _ _ _ _ (output_same 1 _ _ Hs1) (output_app _ _ _ _ _ _ H2 (output_app _ [] _ _ _ _ (output_same 1 _ _ H3) H4))).
Qed.

(** C22. [grep pattern file ...] prints, file by file and in order, exactly the lines
    that the matcher accepts, whatever sizes the reads of the files have, for
    files without zero bytes and with lines of at most 1022 characters; text
    behind the last newline is not searched. *)
Theorem grep_prints_lines (fuel : nat) (prog pattern : list Z) (names : list (list Z)) (ts : list (list (list Z) * list Z)) (s : S) :
  names ≠ [] → Forall2 (λ name t, contents name s = Some (text_of t.1 t.2)) names ts → Forall (greppable fuel) ts →
  prints (grep_main fuel (prog :: pattern :: names)) s
    (concat ((λ t, concat (with_nl <$> filter (λ l, Grep.match_re pattern l = true) t.1)) <$> ts)).
Proof.
  intros Hne Hts Hok. unfold grep_main. rewrite decide_False by done. apply prints_exit. by apply grep_files_spec.
Qed.

(** C39. [wc file ...] prints for each file the number of its newlines, of its
    longest parts without blanks and of its bytes, whatever sizes the reads
    have. *)
Theorem wc_prints_counts (fuel : nat) (prog : list Z) (names ls : list (list Z)) (s : S) :
  names ≠ [] → Forall2 (λ name l, contents name s = Some l) names ls → Forall bytes names →
  Forall (λ l, (length l < fuel)%nat ∧ Z.of_nat (length l) < 2 ^ 31) ls →
  prints (wc_main fuel (prog :: names)) s
    (concat (zip_with (λ name l, wc_text (Z.of_nat (text_lines l)) (Z.of_nat (length (text_words l))) (Z.of_nat (length l)) name) names ls)).
Proof.
  intros Hne Hls Hnames Hok. unfold wc_main. rewrite decide_False by (cbn; destruct names; [done|cbn; lia]). apply prints_exit. cbn [drop].
  apply (each_file_spec (wc fuel) _ wc_report); [done|]. intros fd name l s1 Hin Hl Hu. subst l.
  rewrite list.Forall_forall in Hok. destruct (Hok _ Hl) as [Hf Hb].
  apply (wc_loop_spec fd name fuel (proj1 (list.Forall_forall _ _) Hnames _ Hin) s1 []); done.
Qed.

(** [cat file ...] prints the files one after the other. *)
Theorem cat_concatenates (fuel : nat) (prog : list Z) (names ls : list (list Z)) (s : S) :
  names ≠ [] → Forall2 (λ name l, contents name s = Some l) names ls → Forall (λ l, (length l < fuel)%nat) ls →
  prints (cat_main fuel (prog :: names)) s (concat ls).
Proof.
  intros Hne Hls Hok. unfold cat_main. rewrite decide_False by (cbn; destruct names; [done|cbn; lia]). apply prints_exit. cbn [drop].
  assert (El : ls = zip_with (λ _ l : list Z, l) names ls) by (clear -Hls; induction Hls as [|? ? ? ? _ _ IH]; [done|cbn; by rewrite <-IH]).
  rewrite El. apply (each_file_spec (λ fd _, cat fuel fd) _ (λ _ l, l)); [done|]. intros fd name l s1 _ Hl <-.
  apply cat_loop_spec. rewrite list.Forall_forall in Hok. by apply Hok.
Qed.

(** [echo] prints its arguments, with a space between two of them and a
    newline at the end. *)
Theorem echo_prints_arguments (prog : list Z) (args : list (list Z)) (s : S) : prints (echo_main (prog :: args)) s (joined args).
Proof. apply prints_exit, echo_loop_spec. Qed.
End theorems.

(** Two files, read in pieces of 3, 1 and 4 bytes and then as asked for. *)
Definition demo_files : pieces :=
  mk_pieces [(zstr "a", zstr "one" ++ [nl] ++ zstr "two words" ++ [nl] ++ zstr "end"); (zstr "b", zstr "on" ++ [nl; nl])] ∅ 3 [3; 1; 4]%nat [].

Lemma grep_prints_lines_witness :
  prints (grep_main 100 [zstr "grep"; zstr "^o.*e"; zstr "a"; zstr "b"]) demo_files (zstr "one" ++ [nl]).
Proof.
  apply (grep_prints_lines 100 (zstr "grep") (zstr "^o.*e") [zstr "a"; zstr "b"]
           [([zstr "one"; zstr "two words"], zstr "end"); ([zstr "on"; []], [])] demo_files); [done| |].
  - repeat constructor.
  - repeat constructor; cbn; try done; try lia.
Defined.

Lemma wc_prints_counts_witness :
  prints (wc_main 100 [zstr "wc"; zstr "a"; zstr "b"]) demo_files (zstr "2 4 17 a" ++ [nl] ++ zstr "2 1 4 b" ++ [nl]).
Proof.
  apply (wc_prints_counts 100 (zstr "wc") [zstr "a"; zstr "b"] [zstr "one" ++ [nl] ++ zstr "two words" ++ [nl] ++ zstr "end"; zstr "on" ++ [nl; nl]] demo_files);
    [done|repeat constructor|repeat constructor|repeat constructor; vm_compute; try lia; reflexivity].
Defined.

(** C40. The matcher of grep decides its language of expressions: [match] accepts a
    text exactly if some part of it (its beginning, behind a circumflex)
    matches the expression, with any character for a dot, any number of
    repetitions for a star, and the end of the text for a final dollar
    sign. *)
Theorem grep_matcher_decides (re text : list Z) : Forall (λ c, c ≠ 0) re → Grep.match_re re text = true ↔ matches re text.
Proof. apply match_re_spec. Qed.

Lemma grep_matcher_decides_witness : Grep.match_re (zstr "^a*b.$") (zstr "aabc") = true ↔ matches (zstr "^a*b.$") (zstr "aabc").
Proof. apply (grep_matcher_decides (zstr "^a*b.$") (zstr "aabc")). repeat constructor; done. Defined.

(** * The shell: main theorems *)

Import Sh.

(** C19. Parsing undoes printing: a command of words, redirections, pipes, lists and
    background marks, printed as a line with any blank behind each token (and
    parentheses where the grammar needs them), is parsed to this command; the
    argument strings that [nulterminate] leaves in the buffer are its words. *)
Theorem shell_parse_print (t : tree) (line : list Z) :
  tree_ok t → Forall2 spaced line (toks_text (print 0 t)) →
  ∃ c arr, parsecmd line = Ret (c, arr) ∧ tree_of (λ w, cstring arr w.1) c = t.
Proof. apply parse_print. Qed.

(** C21. The parser copes with every line: it ends, it never reads or writes behind
    the terminator of the line, and it either rejects the line with a message
    or returns a command, each string of which is a whole word of the line:
    not empty, without blanks and symbols, and the same as in the line. *)
Theorem shell_parse_total (line : list Z) :
  Forall (λ c, c ≠ 0) line →
  (∃ msg, parsecmd line = Panic msg) ∨
  ∃ c arr, parsecmd line = Ret (c, arr) ∧ length arr = S (length line) ∧
    ∀ q e, (q, e) ∈ ranges c → (q < e ≤ length line)%nat ∧ cstring arr q = take (e - q) (drop q line) ∧
      Forall word_char (cstring arr q) ∧ ¬ word_char (char_at line e).
Proof.
  intros Hl. pose proof (parsecmd_total line Hl) as Hg. destruct (parsecmd line) as [[c arr]|msg| | |]; try done; [right|left; by exists msg].
  destruct Hg as (Hlen & Hok & Hs). exists c, arr. ands; [done|done|]. intros q e Hw.
  pose proof (proj1 (list.Forall_forall _ _) Hok _ Hw) as Hr. pose proof (Hs _ Hw) as Es. destruct (text_at_chars line _ Hr) as [Hc _].
  change (string_at arr (q, e).1) with (cstring arr q) in Es. rewrite Es. destruct Hr as (H1 & _ & H3). split; [exact H1|]. split; [reflexivity|]. by split.
Qed.

(** C20. What the shell starts: for lines that are commands, the programs executed are
    exactly those of the commands, in order, each with its arguments and with
    descriptors 0, 1 and 2 connected as its redirections and pipes say; no
    other descriptor is open, so no end of a pipe is left in a process that
    does not use it. *)
Theorem shell_starts_programs (lines : list (list Z)) (ts : list tree) (i o e : obj) (next : nat) :
  Forall2 line_of lines ts → started (main lines) (standard i o e) next = session ts i o e next.
Proof. apply main_starts. Qed.

(** ** A pipeline with redirections *)

Definition demo_tree : tree :=
  TList (TBack (TPipe (TExec [zstr "cat"; zstr "a"]) (TRedir (TExec [zstr "wc"]) (Z.lor (Z.lor O_WRONLY O_CREATE) O_TRUNC) 1 (zstr "out"))))
        (TRedir (TPipe (TExec [zstr "b"]) (TExec [zstr "c"])) O_RDONLY 0 (zstr "in")).

Definition demo_line : list Z := zstr "cat a | wc > out & ; ( b | c ) < in" ++ [nl].

Lemma demo_tree_ok : tree_ok demo_tree.
Proof. repeat constructor; done. Qed.

Lemma demo_line_ok : line_of demo_line demo_tree.
Proof.
  split; [exact demo_tree_ok|]. split; [|done]. apply (bool_decide_unpack (Forall2 spaced demo_line (toks_text (print 0 demo_tree)))). by vm_compute.
Qed.

Lemma shell_parse_print_witness : ∃ c arr, parsecmd demo_line = Ret (c, arr) ∧ tree_of (λ w, cstring arr w.1) c = demo_tree.
Proof. apply (shell_parse_print demo_tree demo_line demo_tree_ok). exact (proj1 (proj2 demo_line_ok)). Defined.

Lemma shell_parse_total_witness :
  (∃ msg, parsecmd (zstr "a | (b") = Panic msg) ∨
  ∃ c arr, parsecmd (zstr "a | (b") = Ret (c, arr) ∧ length arr = S (length (zstr "a | (b")) ∧
    ∀ q e, (q, e) ∈ ranges c → (q < e ≤ length (zstr "a | (b"))%nat ∧ cstring arr q = take (e - q) (drop q (zstr "a | (b")) ∧
      Forall word_char (cstring arr q) ∧ ¬ word_char (char_at (zstr "a | (b") e).
Proof. apply (shell_parse_total (zstr "a | (b")). repeat constructor; done. Defined.

Lemma shell_starts_programs_witness :
  started (main [demo_line]) (standard (Given 0) (Given 1) (Given 2)) 0 =
  ([mk_program [zstr "cat"; zstr "a"] (standard (Given 0) (PipeWrite 0) (Given 2));
    mk_program [zstr "wc"] (standard (PipeRead 0) (File (zstr "out") (Z.lor (Z.lor O_WRONLY O_CREATE) O_TRUNC)) (Given 2));
    mk_program [zstr "b"] (standard (File (zstr "in") O_RDONLY) (PipeWrite 1) (Given 2));
    mk_program [zstr "c"] (standard (PipeRead 1) (Given 1) (Given 2))], 2%nat).
Proof. apply (shell_starts_programs [demo_line] [demo_tree] (Given 0) (Given 1) (Given 2) 0). constructor; [exact demo_line_ok|constructor]. Defined.
